(* ===== verification/_CoqProject ===== *)
-Q . S2P
Prelude.v
Text.v
Externals.v
LlmTypes.v
JobState.v
Session.v
Undo.v
JobManager.v
CircuitBreaker.v
Retry.v
Failover.v
ResponseCache.v
CostGuard.v
RateLimiter.v
Allowlist.v
Pairing.v
AgenticLoop.v
Hooks.v
NetPolicy.v
HookBundle.v
Skills.v
LeakDetector.v
Safety.v
Submission.v
SessionManager.v
MessageRebuild.v
Compaction.v
ToolExec.v
JobTools.v
Messages.v
DocumentStore.v
Turns.v
ExtAuth.v
ChatTools.v
ChatDelegate.v
ThreadControl.v
Approval.v
HandleMessage.v
Paths.v
SandboxProxy.v
Sandbox.v
Shell.v
Credentials.v
WasmHost.v
Schema.v
SchemaCheck.v
Reasoning.v
Scheduler.v
SelfRepair.v
JobCommands.v
JobWorker.v
Orchestrator.v
Registry.v
OrchestratorApi.v
ContainerJobs.v
