(* ===== verification/Prelude.v ===== *)
(** * Axinite: a verification library for the agent runtime

    Axinite (a Rust program under [src/src]) is a personal assistant: channels
    deliver user messages, an agent loop alternates calls of a language model
    with tool calls, background jobs run the same loop, and tools reach the
    network through allowlists.  This library models the parts that carry the
    program's own decisions, as executable functions and step relations, and
    proves what makes them correct.

    ** How the parts interact

    A message arrives on a channel; an unknown sender is held by the pairing
    store until a code is approved ([Pairing]).  The main loop stores the
    documents it carries ([DocumentStore]) and hands it to the message handler
    ([HandleMessage]), which loads and resolves its thread ([ThreadControl]),
    intercepts tokens, runs the inbound hooks and dispatches: thread commands
    ([ThreadControl]), answers to approval requests ([Approval]) and user
    turns ([Turns]).  A turn describes the attachments ([Messages]), compacts
    the context ([Compaction]), runs the chat loop ([ChatDelegate]) with its
    tool rounds ([ChatTools]) and records the outcome; the state all of these
    share is the [World] of [Turns]: the session manager, the conversation
    store, the statuses sent, and the rest, which hooks and tools may change.
    The text of a message is parsed into a submission ([Submission]) and
    passes the hook chain ([Hooks], with the
    bundled rules and webhooks of [HookBundle], whose targets are screened by
    [NetPolicy]).  The session manager maps the conversation to a thread of
    the user's session ([SessionManager], [Session]), whose history can be
    undone and redone ([Undo]), is persisted and rebuilt ([MessageRebuild])
    and is repaired and cut before it is sent ([LlmTypes], [Text]).  Skills
    that match the message are selected and restrict the tools ([Skills]).
    The agentic loop ([AgenticLoop]) calls the model through a guard on cost
    and rate ([CostGuard]) and through a chain of provider decorators:
    response cache, circuit breaker, failover and retry ([ResponseCache],
    [CircuitBreaker], [Failover], [Retry]), each of which takes any provider
    and is one.  The schemas of the tools are validated ([SchemaCheck]) and
    rewritten for the provider ([Schema]), and its answer is cleaned before
    anyone sees it ([Reasoning]).  Tool calls pass a rate limiter ([RateLimiter]) and, for
    network access, the allowlists of WASM tools and of the sandbox proxy
    ([Allowlist], [SandboxProxy]); the shell tool ([Shell]) checks a command and
    its directory ([Paths]) and runs it in a container ([Sandbox]) or on the
    host; a WASM tool reaches the outside through host functions only
    ([WasmHost]), which add the credentials meant for a host ([Credentials]);
    what a tool returns passes the safety pipeline and its leak
    detector ([Safety], [LeakDetector]).  Background work is a job with a
    state machine ([JobState]), kept by a manager with a job limit
    ([JobManager]), whose tool calls pass a pipeline of gates ([JobTools] over
    [ToolExec]) and whose worker runs the agentic loop to a final state
    ([JobWorker]); the scheduler starts, tracks and stops the workers
    ([Scheduler]), users reach it through commands ([JobCommands]), and a
    background task repairs stuck jobs and broken tools ([SelfRepair]).  A job
    may instead run in a container of its own: the job tools ([ContainerJobs])
    check the credentials it asks for, have the orchestrator create the
    container with a token and its grants ([Orchestrator]) and await the
    result; the worker inside reports, asks the model and calls the tools that
    are open to it ([Registry]) through the API of the orchestrator
    ([OrchestratorApi]), which checks the token of every request.

    ** Files and the code they model

    - [Prelude] (this file): [Result], clocks, machine integers, the
      automation and the generic lemmas shared by all files.
    - [Externals]: the interfaces of third-party crates ([SerdeJson],
      [RustDecimal], [RegexEngine], [AhoCorasick], [UuidText]), with small
      instances for evaluation.
    - [Text]: byte strings; [util.rs], [channels/web/util.rs].
    - [LlmTypes]: [llm/provider/messages.rs], [requests.rs], [llm/error.rs]
      and the [LlmProvider] trait, a type class; the decorators are proved
      against the class and are instances of it.
    - [JobState]: [context/state/job_state.rs] and [context/state.rs].
    - [JobManager]: [context/memory.rs] and [context/manager.rs].
    - [Session]: [agent/session/turn.rs], [thread.rs], [restore.rs] and
      [agent/session.rs].
    - [Undo]: [agent/undo.rs].
    - [CircuitBreaker], [Retry], [Failover], [ResponseCache]:
      [llm/circuit_breaker.rs], [llm/retry.rs], [llm/failover.rs] with its
      cooldown module, [llm/response_cache.rs].
    - [CostGuard]: [llm/costs.rs], [agent/cost_guard.rs] and the guarded call
      of [agent/dispatcher/delegate/loops.rs].
    - [RateLimiter]: [tools/rate_limiter.rs].
    - [Allowlist]: [tools/wasm/allowlist.rs] with the endpoint patterns of
      [capabilities.rs]; [sandbox/proxy/allowlist.rs] and [policy.rs].
    - [Pairing]: [pairing/store.rs] and its modules.
    - [AgenticLoop]: [agent/agentic_loop.rs], [llm/reasoning/intent.rs] and
      the records of [llm/reasoning/context.rs].
    - [Hooks]: [hooks/hook.rs] and [hooks/registry.rs]; a hook is an instance
      of the class [Hook].
    - [NetPolicy], [HookBundle]: [hooks/bundled.rs] with its [net_policy],
      [config], [rule] and [webhook] modules.
    - [Skills]: [skills/mod.rs], [loaded_skill.rs], [selector.rs] and
      [attenuation.rs].
    - [LeakDetector]: [safety/leak_detector.rs] with its [patterns] and
      [redaction] modules.
    - [Safety]: [safety/mod.rs], [sanitizer.rs], [policy.rs], [validator.rs].
    - [Submission]: [agent/submission/types.rs] and [parser.rs].
    - [SessionManager]: [agent/session_manager.rs].
    - [MessageRebuild]: [agent/thread_ops/persistence.rs] and
      [message_rebuild.rs]; the conversation store is a type class.
    - [Compaction]: [agent/context_monitor.rs] and [agent/compaction.rs].
    - [ToolExec]: the [Tool] trait ([tools/tool/traits.rs]) as a type class,
      [tools/execute.rs], [tools/tool/approval_policy.rs], the parameter
      helpers of [tools/tool/schema_helpers.rs], the parameter check of
      [safety/validator.rs] and the error texts of [error/].
    - [JobTools]: [worker/job/tool_pipeline.rs] and [tool_exec.rs].
    - [Messages]: [channels/channel/messages.rs], [agent/attachments.rs],
      [agent/router.rs] and [agent/dispatcher/types.rs].
    - [DocumentStore]: [agent/thread_ops/document_store.rs].
    - [Turns]: [agent/thread_ops/turn_preparation.rs],
      [turn_compaction_checkpointing.rs], [turn_result_finalization.rs] and
      [turn_execution.rs].
    - [ExtAuth]: [extensions/auth.rs].
    - [ChatTools]: [agent/dispatcher/delegate/tool_exec/].
    - [ChatDelegate]: [agent/dispatcher/delegate/loops.rs] and the loop of
      [agent/dispatcher/core.rs]; an instance of the delegate class of
      [AgenticLoop].
    - [ThreadControl]: [agent/thread_ops/control.rs] and [hydration.rs].
    - [Approval]: [agent/thread_ops/approval/].
    - [HandleMessage]: [agent/thread_ops.rs], [thread_ops/dispatch.rs] and the
      message loop of [agent/agent_loop.rs].
    - [Paths]: [tools/builtin/path_utils.rs].
    - [SandboxProxy]: [sandbox/config.rs] and the proxy server of
      [sandbox/proxy/].
    - [Sandbox]: [sandbox/manager.rs], [docker.rs], [container.rs] and its
      modules, [error.rs]; a computation that Docker may interrupt is a monad
      with weakest preconditions.
    - [Shell]: [tools/builtin/shell/].
    - [Credentials]: [tools/wasm/credential_injector.rs] and
      [credential_registry.rs], with the errors of [secrets/types.rs].
    - [WasmHost]: [tools/wasm/capabilities.rs], [host.rs] and the host functions
      of [tools/wasm/wrapper/] ([host_api.rs], [store.rs], [http.rs]).
    - [Schema]: [llm/schema_normalize.rs] and its modules.
    - [SchemaCheck]: [tools/schema_validator.rs] and [validate_tool_schema] of
      [tools/tool/schema_helpers.rs].
    - [Reasoning]: the cleaning, truncation, recovery and response modules of
      [llm/reasoning/].
    - [Scheduler]: [agent/scheduler.rs] and its [dispatch], [shutdown] and
      [subtasks] modules.
    - [SelfRepair]: [agent/self_repair/] and [db/libsql/tool_failures.rs].
    - [JobCommands]: [agent/commands/jobs.rs].
    - [JobWorker]: [worker/job.rs] and its [run_loop], [delegate], [planning],
      [events] and [terminal] modules; an instance of the delegate class of
      [AgenticLoop].
    - [Orchestrator]: [orchestrator/auth.rs], [job_types.rs], [job_registry.rs],
      [job_manager.rs] with its [docker] modules, [bind_mount.rs] and
      [reaper.rs].
    - [Registry]: [tools/registry/] ([names], [loader], [hosted], [schema],
      [wasm_registration], [wasm_preparation]).
    - [OrchestratorApi]: [orchestrator/api.rs] and its handlers, the
      middleware of [orchestrator/auth.rs], and the routes and payloads of
      [worker/api.rs].
    - [ContainerJobs]: [tools/builtin/job.rs] and its modules.

    ** Conventions

    A struct is a record, an enum an inductive type; a method with
    [&mut self] is a function to the new state, with a [result] where the
    code returns [Result].  A clock reading, a fresh id and a random draw are
    arguments of the operation that takes them.  Machine integers are [Z]
    with wrap-around or saturation written out ([wrap_u32], [as_i64],
    [sat_u64] and the like); [usize] counters are [nat].  Strings are
    sequences of bytes.  What comes from another crate is a field of a type
    class or a section variable, with the laws the proofs use stated there.
    Where the code takes a lock several times, or awaits between two critical
    sections, the model is a step relation with one step per critical
    section, and the invariants are proved by induction over its runs, so
    they hold for every interleaving of callers.

    ** What the theorems show

    - Jobs: in every reachable context the history is a path of
      the transition table of at most 200 entries ending in the current
      state, and the timestamps agree with the state; a rollback undoes a
      transition, except for the completion time of a submitted job and, at
      200 entries, for the oldest one; recovery succeeds exactly on stuck jobs.
    - Messages and text: the repair of tool results leaves no orphan
      and changes nothing else; previews are cut at character boundaries.
    - Sessions and undo: a thread rebuilt from the messages it
      sends is the same thread; undo and redo move a cursor over an
      unchanged timeline, within the checkpoint limit.
    - Job manager: the job limit holds under every interleaving,
      every created job has its memory, the summaries count exactly.
    - Provider decorators: when the breaker admits, trips and
      recovers; how often and after which delay a call is retried; which
      provider answers and which are in cooldown; that a cached answer was
      given for the same key within the TTL and that eviction follows least
      recent use.
    - Guards: cost and rate refusals are exactly what the
      recorded history implies, where the day is that of the last recorded
      call, so that a budget once exceeded stays so on the next day; the rate
      limiter admits at most twice the limit in any window length and
      announces the exact waiting time.
    - Access: allowlists allow exactly what a pattern permits,
      URLs are matched in normal form, credentials go only to allowed hosts;
      pending requests, approvals, wrong guesses and file names of the
      pairing store.
    - Hooks: the registry is a map ordered by priority; the outcome of a chain
      is decided by the first veto or fail-closed failure; bundled hooks block
      only by a rule that rejects; webhooks reach public addresses only.
    - Safety: what a tool returns reaches the model only cleaned, bounded and
      unblocked; the prefix filter of the leak detector loses nothing when
      every match begins with the prefix of its pattern and no prefix hides
      another; redaction keeps exactly the gaps of matches that do not nest.
    - Skills: installed skills see read-only tools only; the selection stays
      within the candidate limit and the token budget.
    - Conversations: commands are parsed back and approvals are explicit; no
      thread serves two conversations, whatever interleaves, as long as an id
      that is registered is mapped under no other key; a persisted turn
      without images is rebuilt as the messages it sent, long structured
      results shortened.
    - The loop: it asks a delegate for an answer of the model at most
      [max_iterations] times and nudges at most the configured number
      of times in a row; the chat delegate ends every turn within its limit,
      asks again once after a context overflow, and only within the budget.
    - Tool calls: a round of the chat answers every call once and in order, or
      keeps the rest for after an approval; nothing runs that a hook, the
      approval rules, a rate limit, a cancellation or the parameter check
      refuses; a job call is recorded once, with its secrets redacted.
    - Commands: the shell tool runs only commands that pass every check, in a
      directory inside its own, with a scrubbed environment or in a container
      that is confined by its policy and whose removal is always requested (what
      the daemon answers is ignored); the proxy sends a container's requests to
      listed hosts only, and credentials only where they belong, but follows
      the redirects of such a host unchecked.
    - WASM tools: a request leaves only if it was granted, listed, within the
      budget, free of leaks and to a host that had no internal address when it
      was looked up, IPv4 addresses in IPv6 form excepted;
      a secret goes only where a permitted mapping says, and a mapping is gone
      when its owner is removed; an execution stays within its budgets.
    - Schemas: normalising makes a schema strict at every place it visits and
      a second time changes nothing; which schemas the two validators accept.
    - Replies: reasoning is taken out byte by byte as its tags say, an unclosed
      tool tag cuts the text, a reply is never blank, the model is asked once and
      without tools when none are offered, and calls read from text are of
      offered tools.
    - Workers: never more run than the limit allows, and each is the one its
      entry points to, however dispatches, stops and clean-ups interleave; a stop
      that succeeds leaves the job cancelled, in memory and in the database, and
      its worker ended; budgets respect the cap; someone else's job looks like
      no job at all.
    - Runs of jobs: a run ends in the state it came to, in memory and in the
      database alike or in neither; every tool call is answered in order; a stop
      wins over messages, and rate limits and iterations are bounded.
    - Repairs: one repair per tool at a time, within the limit on attempts; a
      pass recovers exactly the jobs that are due; a job is escalated once.
    - Containers: what a created job got and what is left when creation fails;
      a worker is served with the token of its own job only, gets exactly the
      secrets granted to it and runs only tools that are open to workers; after
      a job has ended its token and grants are gone; what is granted passed the
      checks; the outcome of an awaited container is recorded; a tool with a
      protected name is never replaced by a later registration; the reaper
      removes only orphans.
    - Turns: rejected input has no effect, the answer given is the one
      recorded and nothing is recorded on an interrupted thread, undo and redo
      of a turn are inverse, an interrupt frees the thread, a stored
      conversation is found again, compaction keeps the latest turns.
    - Messages: a decision runs the pending call only when it waits, matches
      and approves; a token goes to the extension it was asked for and into no
      turn, but also to the event triggers, which see every message; attachments
      and document names cannot leave the block or directory meant for them;
      only a request to quit stops the agent.

    A property that describes a defect is stated as the code behaves: the
    completion time a rollback loses, the open circuit a late success closes,
    the budget that is never reset, the allowed senders an approval replaces,
    the automatic compaction that is always discarded, the results of a second
    tool round stored on the calls of the first, the stuck job a recovery leaves
    without a worker, the worker a late clean-up forgets, the container a
    refused removal leaves, the reaped job that is reported as a success.

    ** Fuel and bounds

    Most loops are structural.  Fuel occurs in the scans of a byte string
    ([intent_after] and [only_padding]: its length, as each step drops at
    least one byte), in the trimming of a conversation ([trim_messages]: the
    number of messages) and in the eviction from the cache ([evict_lru]: the
    number of entries); the callers pass these amounts, and the lemmas on the
    last two show that they are enough.  The retry loop recurses on the
    attempts left and the agentic loop on the list of its iterations, so
    both are total.  Decoding and searching of process output and commands
    ([utf8_lossy_fuel], [match_indices_from]) take the length of the text.
    [check_strings] walks a JSON value with its depth as fuel, as do the
    normalisation, the merging and the validators of schemas ([normalize_equation],
    [merge_equation] and [lenient_fuel_iff] show that this is enough); the scans of
    a reply take the length of the text ([strip_xml_fuel] and its neighbours),
    and [run_phase2_from] the batches of a round with the number of calls.

    ** Not modelled

    Log lines, with the arithmetic that only they use, and statistics; poisoned
    locks; the build without Docker; the construction of the built-in tools; the
    process inside a container, except for the requests of its API client;
    input/output errors of the pairing store other
    than a missing file; the sub-task table of the scheduler; the system commands
    of [agent/commands.rs], the extension
    manager, the middlewares and the routine engine, which are fields of the
    records that use them; network and terminal channels, the web gateway, SQL,
    the WASM run-time (compilation, resource limits, loading and storage of
    tools), the OAuth refresh of a credential, the prompts and plans of the
    reasoning engine, the Docker daemon, the HTTP clients of model services,
    configuration and set-up, which are input/output or wiring. *)

From stdpp Require Export base list gmap strings option numbers pretty.
From stdpp Require Export relations.
From Stdlib Require Export ZArith Lia Sorted.

(** ** Errors as values

    Rust's [Result<A, E>]. *)

Inductive result (A E : Type) : Type :=
| Ok (a : A)
| Err (e : E).
Arguments Ok {A E} a.
Arguments Err {A E} e.

Declare Scope axinite_scope.
Delimit Scope axinite_scope with ax.

(** Rust's [?] operator on a state-passing computation that returns a
    result: on [Err] the state reached so far is kept and the error is
    returned to the caller. *)
Notation "'try' ( s , x ) ':=' c 'in' k" :=
  (match c with
   | (s, Ok x) => k
   | (s, Err e) => (s, Err e)
   end)
  (at level 10, s name, x name, c at level 100, k at level 200) : axinite_scope.

Definition is_ok {A E} (r : result A E) : bool :=
  match r with Ok _ => true | Err _ => false end.

(** ** Identifiers and clocks

    A [Uuid] is a 128-bit number.  Instants, UTC timestamps and durations
    are counted in nanoseconds; every operation that reads the clock takes
    the reading as an argument. *)

Abbreviation Uuid := N.
Abbreviation Instant := Z.
Abbreviation Duration := Z.
Abbreviation Utc := Z.

Definition secs (n : Z) : Duration := (n * 1000000000)%Z.
Definition millis (n : Z) : Duration := (n * 1000000)%Z.

(** [Instant::elapsed] and [Instant::duration_since] saturate at zero. *)
Definition elapsed (now since : Instant) : Duration := Z.max 0 (now - since).

(** ** Machine integers *)

Definition u32_max : Z := 4294967295.
Definition u64_max : Z := 18446744073709551615.
Definition i64_max : Z := 9223372036854775807.
Definition i64_min : Z := (-9223372036854775808)%Z.

Definition wrap_u32 (z : Z) : Z := (z mod 4294967296)%Z.
Definition wrap_u64 (z : Z) : Z := (z mod 18446744073709551616)%Z.

(** Reinterpretation of the low 64 bits as a signed integer ([as i64]). *)
Definition as_i64 (z : Z) : Z :=
  let w := wrap_u64 z in
  if (w <=? i64_max)%Z then w else (w - 18446744073709551616)%Z.

Definition sat_u32 (z : Z) : Z := Z.max 0 (Z.min u32_max z).
Definition sat_u64 (z : Z) : Z := Z.max 0 (Z.min u64_max z).

Lemma wrap_u32_small z : (0 <= z <= u32_max)%Z → wrap_u32 z = z.
Proof. intros. unfold wrap_u32, u32_max in *. apply Z.mod_small. lia. Qed.

Lemma wrap_u64_small z : (0 <= z <= u64_max)%Z → wrap_u64 z = z.
Proof. intros. unfold wrap_u64, u64_max in *. apply Z.mod_small. lia. Qed.

Lemma wrap_u32_range z : (0 <= wrap_u32 z <= u32_max)%Z.
Proof. unfold wrap_u32, u32_max. pose proof (Z.mod_pos_bound z 4294967296). lia. Qed.

Lemma as_i64_small z : (0 <= z <= i64_max)%Z → as_i64 z = z.
Proof.
  intros Hz. unfold as_i64. cbv zeta. rewrite wrap_u64_small.
  - destruct (Z.leb_spec z i64_max); lia.
  - unfold i64_max, u64_max in *. lia.
Qed.

(** ** Lists *)

(** The last [n] elements of [l] (what is left of a [Vec] after draining
    its front down to [n] entries). *)
Definition last_n {A} (n : nat) (l : list A) : list A := drop (length l - n) l.

(** [iter().rev().find(p)] *)
Definition rfind {A} (p : A → bool) (l : list A) : option A :=
  snd <$> list_find p (reverse l).

(** [iter().position(p)] *)
Definition position {A} (p : A → bool) (l : list A) : option nat :=
  fst <$> list_find p l.

Section lists.
Context {A : Type}.
Implicit Types l : list A.

Lemma last_n_all n l : length l ≤ n → last_n n l = l.
Proof. intros. unfold last_n. by replace (length l - n) with 0 by lia. Qed.

Lemma length_last_n n l : length (last_n n l) = min n (length l).
Proof. unfold last_n. rewrite length_drop. lia. Qed.

Lemma last_n_suffix n l : last_n n l `suffix_of` l.
Proof. unfold last_n. exists (take (length l - n) l). by rewrite take_drop. Qed.

Lemma last_n_snoc n l x : last_n (S n) (l ++ [x]) = last_n n l ++ [x].
Proof.
  unfold last_n. rewrite length_app. simpl.
  replace (length l + 1 - S n) with (length l - n) by lia.
  rewrite drop_app_le by lia. done.
Qed.

Lemma last_drop n l : n < length l → last (drop n l) = last l.
Proof.
  intros. rewrite <-(take_drop n l) at 2.
  rewrite last_app. destruct (drop n l) eqn:E; [|by destruct (last (_ :: _)) eqn:?; [|by apply last_None in Heqo]].
  apply (f_equal length) in E. rewrite length_drop in E. simpl in E. lia.
Qed.

Lemma list_filter_all (P : A → Prop) `{∀ x, Decision (P x)} l :
  (∀ x, x ∈ l → P x) → filter P l = l.
Proof.
  induction l as [|x l IH]; intros HP; [done|].
  rewrite filter_cons_True by (apply HP; by left). f_equal. apply IH.
  intros y Hy. apply HP. by right.
Qed.

Lemma list_filter_none (P : A → Prop) `{∀ x, Decision (P x)} l :
  (∀ x, x ∈ l → ¬ P x) → filter P l = [].
Proof.
  induction l as [|x l IH]; intros HP; [done|].
  rewrite filter_cons_False by (apply HP; by left). apply IH.
  intros y Hy. apply HP. by right.
Qed.

Lemma removelast_elem l x : x ∈ removelast l → x ∈ l.
Proof.
  induction l as [|y [|z l] IH]; [done|by intros ?%elem_of_nil|].
  cbn [removelast]. intros [->|H]%elem_of_cons; [by left|right; by apply IH].
Qed.

Lemma position_Some p l i :
  position p l = Some i → ∃ x, l !! i = Some x ∧ p x = true.
Proof.
  unfold position. destruct (list_find (λ x, p x) l) as [[j x]|] eqn:E; [|done].
  intros [= ->]. apply list_find_Some in E as (Hx & Hp & _). exists x.
  split; [done|]. by destruct (p x).
Qed.

Lemma position_None p l : position p l = None → ∀ x, x ∈ l → p x = false.
Proof.
  unfold position. destruct (list_find (λ x, p x) l) as [[j x]|] eqn:E; [done|].
  intros _ x Hx. apply list_find_None in E. rewrite Forall_forall in E.
  specialize (E x Hx). by destruct (p x).
Qed.

Lemma list_fmap_alter_id {B} (f : A → B) (g : A → A) l i :
  (∀ x, f (g x) = f x) → f <$> alter g i l = f <$> l.
Proof.
  intros Hfg. revert i. induction l as [|x l IH]; intros [|i]; [done|done| |].
  - cbn. by rewrite Hfg.
  - cbn. f_equal. apply IH.
Qed.

Lemma list_alter_fmap_to {B} (f : A → B) (g : B → B) (h : A → A) l i :
  (∀ x, f (h x) = g (f x)) → f <$> alter h i l = alter g i (f <$> l).
Proof.
  intros Hfg. revert i. induction l as [|x l IH]; intros [|i]; [done|done| |].
  - cbn. by rewrite Hfg.
  - cbn. f_equal. apply IH.
Qed.

Lemma list_alter_insert (g : A → A) i x l : l !! i = Some x → alter g i l = <[i := g x]> l.
Proof.
  revert i. induction l as [|y l IH]; intros [|i] Hx; simplify_eq/=; [done|]. by rewrite IH.
Qed.

Lemma elem_of_list_insert i x y l : y ∈ <[i := x]> l → y = x ∨ y ∈ l.
Proof.
  revert i. induction l as [|z l IH]; intros [|i]; cbn; [auto..| |].
  - intros [->|H]%elem_of_cons; [by left|right; by right].
  - intros [->|H]%elem_of_cons; [right; by left|].
    destruct (IH i H) as [->|]; [by left|right; by right].
Qed.

Lemma NoDup_insert i x l : NoDup l → x ∉ l → NoDup (<[i := x]> l).
Proof.
  intros Hl. revert i. induction Hl as [|y l Hy Hl IH]; intros [|i] Hx; simpl.
  - constructor.
  - constructor.
  - constructor; [|done]. intros H. apply Hx. by right.
  - constructor; [|apply IH; intros H; apply Hx; by right].
    intros H. apply elem_of_list_insert in H as [->|H]; [|done]. apply Hx. by left.
Qed.

Lemma rfind_snoc p l x :
  rfind p (l ++ [x]) = if p x then Some x else rfind p l.
Proof.
  unfold rfind. rewrite reverse_snoc. cbn [list_find].
  destruct (decide (p x)) as [Hp|Hp], (p x) eqn:E; simpl in *; try done.
  by destruct (list_find _ _) as [[]|].
Qed.
End lists.

(** [iter().min_by_key(key)]: the first of the elements with the least key. *)
Definition min_by_key {A} (key : A → Z) (l : list A) : option A :=
  match l with
  | [] => None
  | x :: l => Some (foldl (λ best y, if (key y <? key best)%Z then y else best) x l)
  end.

Lemma min_by_key_cons {A} (key : A → Z) x l :
  ∃ b, min_by_key key (x :: l) = Some b ∧ b ∈ x :: l ∧ ∀ y, y ∈ x :: l → (key b <= key y)%Z.
Proof.
  simpl. eexists. split; [done|]. revert x. induction l as [|y l IH]; intros x; simpl.
  { split; [by left|]. intros j Hj. apply list_elem_of_singleton in Hj. subst. lia. }
  destruct (Z.ltb_spec (key y) (key x)) as [Hlt|Hge].
  - destruct (IH y) as [Hin Hmin]. split; [by right|].
    intros j Hj. apply elem_of_cons in Hj as [->|Hj]; [|by apply Hmin].
    transitivity (key y); [apply Hmin; by left|lia].
  - destruct (IH x) as [Hin Hmin]. split.
    { apply elem_of_cons in Hin as [->|Hin]; [by left|by do 2 right]. }
    intros j Hj. apply elem_of_cons in Hj as [->|Hj]; [apply Hmin; by left|].
    apply elem_of_cons in Hj as [->|Hj]; [|apply Hmin; by right].
    transitivity (key x); [apply Hmin; by left|done].
Qed.

(** [sort_by_key(key)]: a stable sort, here by insertion; an element goes in
    front of the later elements with an equal key. *)
Fixpoint insert_by {A} (key : A → Z) (x : A) (l : list A) : list A :=
  match l with
  | [] => [x]
  | y :: l' => if (key x <=? key y)%Z then x :: l else y :: insert_by key x l'
  end.

Definition sort_by_key {A} (key : A → Z) (l : list A) : list A := foldr (insert_by key) [] l.

Section sorting.
Context {A : Type} (key : A → Z).
Implicit Types l : list A.

Definition sorted_by l : Prop := StronglySorted (λ x y, (key x <= key y)%Z) l.

Lemma insert_by_perm x l : insert_by key x l ≡ₚ x :: l.
Proof.
  induction l as [|y l IH]; simpl; [done|]. case_match; [done|].
  rewrite IH. apply Permutation_swap.
Qed.

Lemma sort_by_key_perm l : sort_by_key key l ≡ₚ l.
Proof. induction l as [|x l IH]; simpl; [done|]. by rewrite insert_by_perm, IH. Qed.

Lemma insert_by_sorted x l : sorted_by l → sorted_by (insert_by key x l).
Proof.
  unfold sorted_by. induction 1 as [|y l Hl IH Hy]; simpl; [by repeat constructor|].
  destruct (Z.leb_spec (key x) (key y)) as [Hle|Hgt].
  - constructor; [by constructor|]. constructor; [done|].
    eapply Forall_impl; [exact Hy|]. simpl. lia.
  - constructor; [done|]. rewrite insert_by_perm. constructor; [lia|done].
Qed.

Lemma sort_by_key_sorted l : sorted_by (sort_by_key key l).
Proof. induction l; simpl; [constructor|]. by apply insert_by_sorted. Qed.

Lemma sorted_by_filter (P : A → Prop) `{∀ x, Decision (P x)} l :
  sorted_by l → sorted_by (filter P l).
Proof.
  unfold sorted_by. induction 1 as [|x l Hl IH Hx]; [constructor|].
  rewrite filter_cons. case_decide; [|done]. constructor; [done|].
  rewrite Forall_forall in *. intros y [_ Hy]%list_elem_of_filter. auto.
Qed.

Lemma insert_by_filter k x l :
  filter (λ x, key x = k) (insert_by key x l) =
  if decide (key x = k) then x :: filter (λ x, key x = k) l else filter (λ x, key x = k) l.
Proof.
  induction l as [|y l IH]; simpl; [by rewrite filter_cons|].
  destruct (Z.leb_spec (key x) (key y)) as [Hle|Hgt]; [by rewrite (filter_cons _ x)|].
  rewrite !(filter_cons _ y), IH. repeat case_decide; try lia; done.
Qed.

(** Elements with equal keys stay in their order. *)
Lemma sort_by_key_stable k l :
  filter (λ x, key x = k) (sort_by_key key l) = filter (λ x, key x = k) l.
Proof.
  induction l as [|x l IH]; simpl; [done|]. by rewrite filter_cons, <-IH, insert_by_filter.
Qed.
End sorting.

(** ** Counting events in time

    How many of the times of a log lie in a period, and how many are not
    older than a moment. *)

Definition between (a b : Z) (l : list Z) : nat :=
  length (filter (λ x, (a <=? x)%Z && (x <=? b)%Z = true) l).
Definition since (a : Z) (l : list Z) : nat := length (filter (λ x, (a <=? x)%Z = true) l).

Lemma between_snoc a b l t :
  between a b (l ++ [t]) = between a b l + (if (a <=? t)%Z && (t <=? b)%Z then 1 else 0).
Proof.
  unfold between. rewrite filter_app, length_app. simpl. rewrite filter_cons.
  by case_decide as E; rewrite ?E; [|apply not_true_is_false in E as ->].
Qed.

Lemma between_since a b t l : (t <= a)%Z → between a b l ≤ since t l.
Proof.
  intros Hle. unfold between, since. induction l as [|x l IH]; [done|].
  rewrite !filter_cons. repeat case_decide; simpl; lia.
Qed.

(** ** Maps

    The values of a [HashMap], in some order, and how many of them satisfy a
    test ([values().filter(p).count()]). *)

Definition map_values {K A} `{Countable K} (m : gmap K A) : list A := (map_to_list m).*2.

Definition count_values {K A} `{Countable K} (p : A → bool) (m : gmap K A) : nat :=
  length (filter (λ x, p x = true) (map_values m)).

Section maps.
Context {K A : Type} `{Countable K}.
Implicit Types (m : gmap K A) (p : A → bool).

Lemma count_values_empty p : count_values p (∅ : gmap K A) = 0.
Proof. unfold count_values, map_values. by rewrite map_to_list_empty. Qed.

Lemma count_values_insert p m i x :
  m !! i = None → count_values p (<[i := x]> m) = (if p x then 1 else 0) + count_values p m.
Proof.
  intros Hi. unfold count_values, map_values.
  rewrite (map_to_list_insert m i x Hi). simpl. rewrite filter_cons.
  case_decide as E; [by rewrite E|]. by apply not_true_is_false in E as ->.
Qed.

Lemma count_values_delete p m i x :
  m !! i = Some x → count_values p m = (if p x then 1 else 0) + count_values p (delete i m).
Proof.
  intros Hi. rewrite <-(insert_delete_id m i x Hi) at 1.
  apply count_values_insert, lookup_delete_eq.
Qed.

Lemma count_values_alter p m i f x :
  m !! i = Some x →
  count_values p (alter f i m) + (if p x then 1 else 0) =
  (if p (f x) then 1 else 0) + count_values p m.
Proof.
  intros Hi. rewrite (count_values_delete p m i x Hi).
  rewrite (count_values_delete p (alter f i m) i (f x)).
  - rewrite delete_alter_eq. lia.
  - by rewrite lookup_alter_eq, Hi.
Qed.

Lemma count_values_size p m : (∀ x, p x = true) → count_values p m = size m.
Proof.
  intros Hp. unfold count_values, map_values. rewrite <-length_map_to_list.
  rewrite <-(length_fmap snd). f_equal. induction (map_to_list m).*2 as [|x l IH]; [done|].
  rewrite filter_cons_True by done. by rewrite IH.
Qed.
End maps.

(** ** Reachability

    A component with atomic operations is a step relation on its state;
    what holds initially and is kept by every step holds in every reachable
    state. *)

Section invariants.
Context {S : Type} (step : relation S) (Inv : S → Prop).
Hypothesis step_inv : ∀ s s', Inv s → step s s' → Inv s'.

Lemma rtc_invariant s s' : Inv s → rtc step s s' → Inv s'.
Proof. intros Hs. induction 1; eauto. Qed.
End invariants.

(** A run of operations is a path of the step relation they generate. *)
Lemma rtc_foldl {S O} (f : S → O → S) s ops :
  rtc (λ s s', ∃ o, s' = f s o) s (foldl f s ops).
Proof.
  revert s. induction ops as [|o ops IH]; intros s; simpl; [done|].
  eapply rtc_l; [by exists o|]. apply IH.
Qed.

(** ** Automation *)

Create HintDb axinite.
Create Rewrite HintDb text.

(** Case analysis on the matches and conditionals of the goal and
    simplification of the hypotheses this produces. *)
Ltac split_cases :=
  repeat (case_match; simplify_eq/=; try done).

(** Turn boolean comparisons on [Z] and [nat] into propositions. *)
Ltac zify_bool :=
  repeat match goal with
  | H : (_ <=? _)%Z = true |- _ => apply Z.leb_le in H
  | H : (_ <=? _)%Z = false |- _ => apply Z.leb_gt in H
  | H : (_ <? _)%Z = true |- _ => apply Z.ltb_lt in H
  | H : (_ <? _)%Z = false |- _ => apply Z.ltb_ge in H
  | H : (_ =? _)%Z = true |- _ => apply Z.eqb_eq in H
  | H : (_ =? _)%Z = false |- _ => apply Z.eqb_neq in H
  | H : (_ <=? _)%nat = true |- _ => apply Nat.leb_le in H
  | H : (_ <=? _)%nat = false |- _ => apply Nat.leb_gt in H
  | H : (_ <? _)%nat = true |- _ => apply Nat.ltb_lt in H
  | H : (_ <? _)%nat = false |- _ => apply Nat.ltb_ge in H
  | H : (_ =? _)%nat = true |- _ => apply Nat.eqb_eq in H
  | H : (_ =? _)%nat = false |- _ => apply Nat.eqb_neq in H
  | H : (_ && _) = true |- _ => apply andb_true_iff in H as [??]
  | H : (_ || _) = false |- _ => apply orb_false_iff in H as [??]
  | H : negb _ = true |- _ => apply negb_true_iff in H
  | H : negb _ = false |- _ => apply negb_false_iff in H
  end.
