(* ===== verification/Text.v ===== *)
(** * Byte strings

    Rust's [str] is a sequence of UTF-8 bytes; here a [string] whose
    characters are the bytes.  This file models the slicing and matching
    operations of the standard library the code uses, and the truncation
    helpers [src/src/util.rs] ([floor_char_boundary]),
    [src/src/channels/web/util.rs] ([truncate_preview]) and
    [src/src/agent/agentic_loop.rs] ([truncate_for_preview]). *)

From S2P Require Import Prelude.

(** ** Slices *)

Fixpoint str_take (n : nat) (s : string) : string :=
  match n, s with
  | S n, String c s => String c (str_take n s)
  | _, _ => ""
  end.

Fixpoint str_drop (n : nat) (s : string) : string :=
  match n, s with
  | S n, String _ s => str_drop n s
  | _, _ => s
  end.

Lemma str_app_cons c s t : String c s +:+ t = String c (s +:+ t).
Proof. done. Qed.
Lemma str_app_nil s : "" +:+ s = s.
Proof. done. Qed.
Lemma str_app_assoc s1 s2 s3 : (s1 +:+ s2) +:+ s3 = s1 +:+ s2 +:+ s3.
Proof. induction s1; [done|]. rewrite !str_app_cons. by rewrite IHs1. Qed.
Lemma str_app_nil_r s : s +:+ "" = s.
Proof. induction s; [done|]. rewrite str_app_cons. by rewrite IHs. Qed.
#[export] Hint Rewrite str_app_cons str_app_nil str_app_nil_r : text.

Lemma str_take_drop n s : str_take n s +:+ str_drop n s = s.
Proof. revert s. induction n; intros []; simpl; try done. rewrite str_app_cons. f_equal. apply IHn. Qed.

Lemma str_length_app s1 s2 : String.length (s1 +:+ s2) = String.length s1 + String.length s2.
Proof. induction s1; simpl; [done|]. by rewrite IHs1. Qed.

Lemma str_length_take n s : String.length (str_take n s) = min n (String.length s).
Proof. revert s. induction n; intros []; simpl; auto. Qed.

Lemma str_length_drop n s : String.length (str_drop n s) = String.length s - n.
Proof. revert s. induction n; intros []; simpl; auto. Qed.

Lemma str_take_app_ge n s1 s2 :
  String.length s1 ≤ n → str_take n (s1 +:+ s2) = s1 +:+ str_take (n - String.length s1) s2.
Proof.
  revert n. induction s1; intros n Hn; simpl in *; [by rewrite Nat.sub_0_r|].
  destruct n; [lia|]. rewrite !str_app_cons. simpl. f_equal. apply IHs1. lia.
Qed.

Lemma str_take_app_le n s1 s2 :
  n ≤ String.length s1 → str_take n (s1 +:+ s2) = str_take n s1.
Proof.
  revert n. induction s1; intros n Hn; simpl in *.
  - destruct n; [done|lia].
  - destruct n; [done|]. rewrite str_app_cons. simpl. f_equal. apply IHs1. lia.
Qed.

Lemma str_take_all n s : String.length s ≤ n → str_take n s = s.
Proof. revert s. induction n; intros []; simpl; intros; try done; [lia|]. f_equal. apply IHn. lia. Qed.

Lemma str_drop_app n s1 s2 :
  n = String.length s1 → str_drop n (s1 +:+ s2) = s2.
Proof. intros ->. by induction s1. Qed.

Lemma str_app_inj_l s1 s2 t1 t2 :
  String.length s1 = String.length t1 → s1 +:+ s2 = t1 +:+ t2 → s1 = t1 ∧ s2 = t2.
Proof.
  revert t1. induction s1; intros [] Hl; simpl in *; try done.
  rewrite !str_app_cons. intros H. injection H as -> H. apply IHs1 in H as [-> ->]; auto.
Qed.

Lemma str_app_inj_r s1 s2 t1 t2 :
  String.length s2 = String.length t2 → s1 +:+ s2 = t1 +:+ t2 → s1 = t1 ∧ s2 = t2.
Proof.
  intros Hl H. apply str_app_inj_l; [|done].
  apply (f_equal String.length) in H. rewrite !str_length_app in H. lia.
Qed.

(** ** Matching *)

Fixpoint starts_with (s p : string) {struct p} : bool :=
  match p, s with
  | "", _ => true
  | String c p, String d s => bool_decide (c = d) && starts_with s p
  | String _ _, "" => false
  end.

Definition ends_with (s p : string) : bool :=
  (String.length p <=? String.length s)
  && bool_decide (str_drop (String.length s - String.length p) s = p).

(** [strip_prefix] and [strip_suffix] *)
Definition strip_prefix (s p : string) : option string :=
  if starts_with s p then Some (str_drop (String.length p) s) else None.

Definition strip_suffix (s p : string) : option string :=
  if ends_with s p then Some (str_take (String.length s - String.length p) s) else None.

Lemma starts_with_spec s p : starts_with s p = true ↔ ∃ r, s = p +:+ r.
Proof.
  revert s. induction p as [|c p IH]; intros s; simpl; [split; [by exists s|done]|].
  setoid_rewrite str_app_cons.
  destruct s as [|d s]; [split; [done|intros [? Hs]; discriminate Hs]|].
  rewrite andb_true_iff, bool_decide_eq_true, IH. split.
  - intros (-> & r & ->). eauto.
  - intros (r & H). injection H as -> ->. eauto.
Qed.

Lemma ends_with_spec s p : ends_with s p = true ↔ ∃ r, s = r +:+ p.
Proof.
  unfold ends_with. rewrite andb_true_iff, bool_decide_eq_true, Nat.leb_le. split.
  - intros [Hl Hd]. exists (str_take (String.length s - String.length p) s).
    rewrite <-Hd at 2. by rewrite str_take_drop.
  - intros [r ->]. rewrite str_length_app. split; [lia|].
    apply str_drop_app. lia.
Qed.

Lemma strip_prefix_spec s p r : strip_prefix s p = Some r ↔ s = p +:+ r.
Proof.
  unfold strip_prefix. destruct (starts_with s p) eqn:E.
  - apply starts_with_spec in E as [r' ->]. rewrite str_drop_app by done. split.
    + by intros [= ->].
    + intros H. apply str_app_inj_l in H as [_ ->]; done.
  - split; [done|]. intros ->.
    assert (starts_with (p +:+ r) p = true) by (apply starts_with_spec; eauto). congruence.
Qed.

(** [str::contains] *)
Fixpoint contains (s p : string) : bool :=
  starts_with s p || match s with
                     | String _ s => contains s p
                     | EmptyString => false
                     end.

(** [p] stands somewhere in [s]. *)
Definition occurs (p s : string) : Prop := ∃ a b, s = a +:+ p +:+ b.

Lemma contains_spec s p : contains s p = true ↔ ∃ a b, s = a +:+ p +:+ b.
Proof.
  split.
  - induction s as [|c s IH]; simpl; rewrite orb_true_iff, starts_with_spec.
    + intros [[r ->]|[=]]. by exists "", r.
    + intros [[r ->]|H]; [by exists "", r|]. destruct (IH H) as (a & b & ->). by exists (String c a), b.
  - intros (a & b & ->). induction a as [|c a IH].
    + destruct (p +:+ b) eqn:E; simpl; apply orb_true_iff; left; apply starts_with_spec; exists b; by rewrite <-E.
    + simpl. apply orb_true_iff. by right.
Qed.

(** [rsplit_once(c)]: what follows the last [c]. *)
Fixpoint after_last (c : Ascii.ascii) (s : string) : option string :=
  match s with
  | EmptyString => None
  | String d s => match after_last c s with
                  | Some r => Some r
                  | None => if bool_decide (d = c) then Some s else None
                  end
  end.

(** [s.split(c)] and [parts.join(c)] *)
Fixpoint split_on (c : Ascii.ascii) (s : string) : list string :=
  match s with
  | EmptyString => [EmptyString]
  | String d s =>
      if bool_decide (d = c) then EmptyString :: split_on c s
      else match split_on c s with
           | x :: l => String d x :: l
           | [] => [String d EmptyString]
           end
  end.

Fixpoint join (sep : string) (l : list string) : string :=
  match l with
  | [] => EmptyString
  | x :: l' => match l' with
               | [] => x
               | _ => x +:+ sep +:+ join sep l'
               end
  end.

(** [str::replace] with a non-empty pattern: the matches are found from the
    left and do not overlap. *)
Fixpoint replace_fuel (fuel : nat) (s p r : string) : string :=
  match fuel with
  | 0 => s
  | S fuel =>
      match s with
      | EmptyString => EmptyString
      | String c s' =>
          match strip_prefix s p with
          | Some rest => r +:+ replace_fuel fuel rest p r
          | None => String c (replace_fuel fuel s' p r)
          end
      end
  end.
Definition str_replace (s p r : string) : string := replace_fuel (String.length s) s p r.

(** [str::lines]: a line ends at a line feed or a carriage return and line
    feed; what follows the last line feed is a line unless it is empty. *)
Fixpoint lines_of (parts : list string) : list string :=
  match parts with
  | [] => []
  | part :: parts' =>
      match parts' with
      | [] => if bool_decide (part = EmptyString) then [] else [part]
      | _ => default part (strip_suffix part (String (Ascii.ascii_of_nat 13) EmptyString))
             :: lines_of parts'
      end
  end.
Definition lines (s : string) : list string := lines_of (split_on (Ascii.ascii_of_nat 10) s).

(** [s[start..end]] *)
Definition slice (s : string) (start end_ : nat) : string :=
  str_take (end_ - start) (str_drop start s).

Fixpoint has_char (c : Ascii.ascii) (s : string) : bool :=
  match s with
  | EmptyString => false
  | String d s => bool_decide (d = c) || has_char c s
  end.

Lemma has_char_spec c s : has_char c s = true ↔ occurs (String c "") s.
Proof.
  unfold occurs. split.
  - induction s as [|d s IH]; [done|]. cbn [has_char]. rewrite orb_true_iff, bool_decide_eq_true.
    intros [->|H]; [by exists "", s|]. destruct (IH H) as (a & b & ->). by exists (String d a), b.
  - intros (a & b & ->). induction a as [|d a IH]; simpl; [by rewrite bool_decide_true|].
    apply orb_true_iff. by right.
Qed.

(** *** Case and digits *)

Definition is_ascii (c : Ascii.ascii) : bool := (Ascii.N_of_ascii c <? 128)%N.

Fixpoint all_chars (p : Ascii.ascii → bool) (s : string) : bool :=
  match s with
  | EmptyString => true
  | String c s => p c && all_chars p s
  end.

Fixpoint map_chars (f : Ascii.ascii → Ascii.ascii) (s : string) : string :=
  match s with
  | EmptyString => EmptyString
  | String c s => String (f c) (map_chars f s)
  end.

Definition ascii_lower (c : Ascii.ascii) : Ascii.ascii :=
  let n := Ascii.N_of_ascii c in
  if (65 <=? n)%N && (n <=? 90)%N then Ascii.ascii_of_N (n + 32) else c.
Definition ascii_upper (c : Ascii.ascii) : Ascii.ascii :=
  let n := Ascii.N_of_ascii c in
  if (97 <=? n)%N && (n <=? 122)%N then Ascii.ascii_of_N (n - 32) else c.

Definition to_ascii_lowercase : string → string := map_chars ascii_lower.
Definition to_ascii_uppercase : string → string := map_chars ascii_upper.

(** [str::to_lowercase] and [str::to_uppercase] follow the Unicode tables;
    only their effect on ASCII text is fixed. *)
Class UnicodeCase := {
  to_lowercase : string → string;
  to_uppercase : string → string;
  to_lowercase_ascii : ∀ s, all_chars is_ascii s = true → to_lowercase s = to_ascii_lowercase s;
  to_uppercase_ascii : ∀ s, all_chars is_ascii s = true → to_uppercase s = to_ascii_uppercase s;
}.

Definition ascii_case : UnicodeCase := {|
  to_lowercase := to_ascii_lowercase; to_uppercase := to_ascii_uppercase;
  to_lowercase_ascii := λ s _, eq_refl; to_uppercase_ascii := λ s _, eq_refl |}.

Definition digit_value (c : Ascii.ascii) : option Z :=
  let n := Z.of_N (Ascii.N_of_ascii c) in
  if (48 <=? n)%Z && (n <=? 57)%Z then Some (n - 48)%Z else None.

Fixpoint parse_digits (max acc : Z) (s : string) : option Z :=
  match s with
  | EmptyString => Some acc
  | String c s =>
      match digit_value c with
      | Some d => let acc := (acc * 10 + d)%Z in
                  if (max <? acc)%Z then None else parse_digits max acc s
      | None => None
      end
  end.

(** [parse::<u64>()]: an optional plus sign and at least one digit. *)
Definition parse_unsigned (max : Z) (s : string) : option Z :=
  match default s (strip_prefix s "+") with
  | EmptyString => None
  | digits => parse_digits max 0 digits
  end.

(** ** White space *)

Definition byte (n : nat) : Ascii.ascii := Ascii.ascii_of_nat n.

(** Byte length of the white-space character (Unicode [White_Space]) a UTF-8
    string starts with, or zero when it starts with something else. *)
Definition ws_len (s : string) : nat :=
  match s with
  | "" => 0
  | String c s =>
      let n := Ascii.N_of_ascii c in
      if ((9 <=? n) && (n <=? 13))%N || (n =? 32)%N then 1
      else match s with
      | "" => 0
      | String d s =>
          let m := Ascii.N_of_ascii d in
          if (n =? 194)%N && ((m =? 133)%N || (m =? 160)%N) then 2
          else match s with
          | "" => 0
          | String e _ =>
              let k := Ascii.N_of_ascii e in
              if ((n =? 225) && (m =? 154) && (k =? 128))%N
                 || ((n =? 226) && (m =? 128)
                     && (((128 <=? k) && (k <=? 138)) || (k =? 168) || (k =? 169) || (k =? 175)))%N
                 || ((n =? 226) && (m =? 129) && (k =? 159))%N
                 || ((n =? 227) && (m =? 128) && (k =? 128))%N
              then 3 else 0
          end
      end
  end.

Fixpoint trim_start_fuel (fuel : nat) (s : string) : string :=
  match fuel with
  | 0 => s
  | S fuel =>
      match ws_len s with
      | 0 => s
      | n => trim_start_fuel fuel (str_drop n s)
      end
  end.

(** [str::trim_start]; every step drops at least one byte. *)
Definition trim_start (s : string) : string := trim_start_fuel (String.length s) s.

(** [str::trim_end]: drop the suffix that consists of white space only. *)
Fixpoint trim_end (s : string) : string :=
  match s with
  | "" => ""
  | String c s' =>
      if bool_decide (trim_start s = "") then "" else String c (trim_end s')
  end.

(** [str::trim] *)
Definition trim (s : string) : string := trim_end (trim_start s).

(** ** Character boundaries *)

(** UTF-8 continuation bytes are 0x80 to 0xBF. *)
Definition is_continuation (c : Ascii.ascii) : bool :=
  let n := Ascii.N_of_ascii c in (128 <=? n)%N && (n <=? 191)%N.

(** [str::is_char_boundary] *)
Definition is_char_boundary (s : string) (i : nat) : bool :=
  if (i =? 0) || (i =? String.length s) then true
  else match String.get i s with
       | Some c => negb (is_continuation c)
       | None => false
       end.

(** [while i > 0 && !s.is_char_boundary(i) { i -= 1 }] *)
Fixpoint back_to_boundary (s : string) (i : nat) : nat :=
  match i with
  | 0 => 0
  | S j => if is_char_boundary s i then i else back_to_boundary s j
  end.

Definition floor_char_boundary (s : string) (pos : nat) : nat :=
  if String.length s <=? pos then String.length s else back_to_boundary s pos.

Definition truncate_preview (s : string) (max_bytes : nat) : string :=
  if String.length s <=? max_bytes then s
  else
    let end_ := back_to_boundary s max_bytes in
    let result := str_take end_ s +:+ "..." in
    if starts_with s "<tool_output" && negb (ends_with result "</tool_output>")
    then result +:+ String (Ascii.ascii_of_nat 10) "</tool_output>"
    else result.

Definition truncate_for_preview (s : string) (max : nat) : string :=
  if String.length s <=? max then s
  else str_take (floor_char_boundary s max) s +:+ "...".

Lemma truncate_preview_short s n : String.length s ≤ n → truncate_preview s n = s.
Proof. intros H. unfold truncate_preview. apply Nat.leb_le in H. by rewrite H. Qed.

Lemma back_to_boundary_le s i : back_to_boundary s i ≤ i.
Proof. induction i; simpl; [done|]. case_match; lia. Qed.

Lemma back_to_boundary_ok s i : is_char_boundary s (back_to_boundary s i) = true.
Proof. induction i; cbn [back_to_boundary]; [done|]. by destruct (is_char_boundary s (S i)) eqn:?. Qed.

(** ** Characters

    [str::chars], each character as the string of its bytes: a byte and the
    continuation bytes that follow it. *)
Fixpoint chars (s : string) : list string :=
  match s with
  | EmptyString => []
  | String c s =>
      match chars s with
      | String d x :: l =>
          if is_continuation d then String c (String d x) :: l
          else String c EmptyString :: String d x :: l
      | l => String c EmptyString :: l
      end
  end.

Definition concat_all (l : list string) : string := foldr String.append EmptyString l.

(** [char::is_whitespace] *)
Definition is_whitespace (c : string) : bool := negb (ws_len c =? 0).

Definition dquote : string := String (byte 34) EmptyString.
Definition newline : string := String (byte 10) EmptyString.

(** [str::split_whitespace] *)
Fixpoint words_from (word : string) (cs : list string) : list string :=
  match cs with
  | [] => if bool_decide (word = EmptyString) then [] else [word]
  | c :: cs =>
      if is_whitespace c
      then (if bool_decide (word = EmptyString) then [] else [word]) ++ words_from EmptyString cs
      else words_from (word +:+ c) cs
  end.
Definition split_whitespace (s : string) : list string := words_from EmptyString (chars s).

(** [str::trim_matches] *)
Fixpoint drop_while {A} (p : A → bool) (l : list A) : list A :=
  match l with
  | [] => []
  | x :: l' => if p x then drop_while p l' else l
  end.
Definition trim_matches (p : string → bool) (s : string) : string :=
  concat_all (reverse (drop_while p (reverse (drop_while p (chars s))))).

(** [char::is_alphanumeric] follows the Unicode tables; only its value on
    ASCII characters is fixed. *)
Definition ascii_alphanumeric (c : Ascii.ascii) : bool :=
  let n := Ascii.N_of_ascii c in
  ((48 <=? n) && (n <=? 57) || (65 <=? n) && (n <=? 90) || (97 <=? n) && (n <=? 122))%N.

Class UnicodeAlnum := {
  is_alphanumeric : string → bool;
  is_alphanumeric_ascii : ∀ c, is_ascii c = true →
    is_alphanumeric (String c EmptyString) = ascii_alphanumeric c;
}.

Definition ascii_alnum : UnicodeAlnum := {|
  is_alphanumeric s := match s with String c EmptyString => ascii_alphanumeric c | _ => false end;
  is_alphanumeric_ascii := λ c _, eq_refl |}.

(** ** UTF-8 framing

    The number of continuation bytes a lead byte announces.  [utf8] strings
    are sequences of complete characters. *)

Definition continuation_count (c : Ascii.ascii) : option nat :=
  let n := Ascii.N_of_ascii c in
  if (n <=? 127)%N then Some 0
  else if (n <=? 191)%N then None
  else if (n <=? 223)%N then Some 1
  else if (n <=? 239)%N then Some 2
  else if (n <=? 247)%N then Some 3
  else None.

Fixpoint all_continuation (s : string) : bool :=
  match s with
  | "" => true
  | String c s => is_continuation c && all_continuation s
  end.

Inductive utf8 : string → Prop :=
| utf8_nil : utf8 ""
| utf8_char c conts s :
    continuation_count c = Some (String.length conts) →
    all_continuation conts = true →
    utf8 s →
    utf8 (String c (conts +:+ s)).

Lemma lead_not_continuation c n : continuation_count c = Some n → is_continuation c = false.
Proof.
  unfold continuation_count, is_continuation. intros H.
  destruct (128 <=? Ascii.N_of_ascii c)%N eqn:E1, (Ascii.N_of_ascii c <=? 191)%N eqn:E2; try done.
  destruct (Ascii.N_of_ascii c <=? 127)%N eqn:E3; [|done].
  apply N.leb_le in E1, E3. lia.
Qed.

Lemma ascii_utf8_char c : (Ascii.N_of_ascii c <=? 127)%N = true → continuation_count c = Some 0.
Proof. unfold continuation_count. by intros ->. Qed.

Lemma utf8_app s1 s2 : utf8 s1 → utf8 s2 → utf8 (s1 +:+ s2).
Proof.
  intros H1 H2. induction H1 as [|c conts s Hc Ha Hs IH]; [done|].
  rewrite str_app_cons, str_app_assoc. by constructor.
Qed.

(** Inside a run of continuation bytes every index but the ends is not a
    boundary. *)
Lemma get_continuation conts s i c :
  all_continuation conts = true → i < String.length conts →
  String.get i (conts +:+ s) = Some c → is_continuation c = true.
Proof.
  revert i. induction conts as [|d conts IH]; intros i Ha Hi; [simpl in Hi; lia|].
  simpl in Ha. apply andb_true_iff in Ha as [Hd Ha]. rewrite str_app_cons.
  destruct i; simpl; [by intros [= <-]|]. apply IH; [done|]. simpl in Hi. lia.
Qed.

Lemma get_app_r s1 s2 i : String.get (String.length s1 + i) (s1 +:+ s2) = String.get i s2.
Proof. by induction s1. Qed.

Lemma get_None s i : String.length s ≤ i → String.get i s = None.
Proof. revert i. induction s; intros i Hi; simpl in *; [done|]. destruct i; [lia|]. apply IHs. lia. Qed.

Lemma is_char_boundary_shift c conts s i :
  0 < i →
  is_char_boundary (String c (conts +:+ s)) (S (String.length conts + i)) = is_char_boundary s i.
Proof.
  intros Hi. unfold is_char_boundary. simpl. rewrite str_length_app, get_app_r.
  destruct (Nat.eqb_spec i 0); [lia|]. simpl.
  destruct (Nat.eqb_spec (String.length conts + i) (String.length conts + String.length s)),
    (Nat.eqb_spec i (String.length s)); try lia; done.
Qed.

(** Cutting a UTF-8 string at a boundary leaves a UTF-8 string. *)
Lemma utf8_take_boundary s i :
  utf8 s → is_char_boundary s i = true → utf8 (str_take i s).
Proof.
  intros Hs. revert i. induction Hs as [|c conts s Hc Ha Hs IH]; intros i Hi.
  - destruct i; constructor.
  - destruct i as [|i]; [constructor|]. simpl.
    destruct (decide (i < String.length conts)) as [Hlt|Hge].
    + exfalso. unfold is_char_boundary in Hi. simpl in Hi.
      destruct (Nat.eqb_spec i (String.length (conts +:+ s))) as [Heq|_].
      { rewrite str_length_app in Heq. lia. }
      destruct (String.get i (conts +:+ s)) as [d|] eqn:E; [|done].
      by rewrite (get_continuation _ _ _ _ Ha Hlt E) in Hi.
    + rewrite str_take_app_ge by lia. constructor; [done..|].
      destruct (decide (i - String.length conts = 0)) as [->|Hne]; [constructor|].
      apply IH. rewrite <-Hi. symmetry.
      replace i with (String.length conts + (i - String.length conts)) at 1 by lia.
      apply is_char_boundary_shift. lia.
Qed.

(** [truncate_preview] returns short inputs unchanged; from longer ones
    it keeps a prefix of at most [max_bytes] bytes followed by an ellipsis,
    so that at most [max_bytes + 18] bytes come back and a UTF-8 input gives
    a UTF-8 output, and an input that opens a [tool_output] element gives an
    output that closes it. *)
Theorem truncate_preview_spec s max_bytes :
  let out := truncate_preview s max_bytes in
  (String.length s ≤ max_bytes → out = s) ∧
  (max_bytes < String.length s →
     ∃ p r tail, s = p +:+ r ∧ out = p +:+ "..." +:+ tail ∧
       String.length p ≤ max_bytes ∧ String.length out ≤ max_bytes + 18 ∧
       (starts_with s "<tool_output" = true → ends_with out "</tool_output>" = true)) ∧
  (utf8 s → utf8 out).
Proof.
  unfold truncate_preview. destruct (Nat.leb_spec (String.length s) max_bytes) as [Hle|Hgt].
  { split_and!; [done|lia|done]. }
  pose proof (back_to_boundary_le s max_bytes) as Hb.
  pose proof (back_to_boundary_ok s max_bytes) as Hok.
  set (e := back_to_boundary s max_bytes) in *. cbv zeta.
  set (p := str_take e s). set (close := String (Ascii.ascii_of_nat 10) "</tool_output>").
  assert (String.length p ≤ max_bytes) as Hp by (unfold p; rewrite str_length_take; lia).
  split_and!; [lia| |].
  - intros _.
    destruct (starts_with s "<tool_output" && negb (ends_with (p +:+ "...") "</tool_output>"))
      eqn:E.
    + exists p, (str_drop e s), close.
      rewrite str_app_assoc. split_and!; [symmetry; apply str_take_drop|done|done| |].
      * rewrite !str_length_app. simpl. lia.
      * intros _. apply ends_with_spec.
        exists (p +:+ "..." +:+ String (Ascii.ascii_of_nat 10) "").
        by rewrite !str_app_assoc.
    + exists p, (str_drop e s), "". split_and!; [symmetry; apply str_take_drop|done|done| |].
      * rewrite str_length_app. simpl. lia.
      * intros Hs. rewrite Hs in E. simpl in E. by apply negb_false_iff in E.
  - intros Hu. assert (utf8 (p +:+ "...")) as Hpu.
    { apply utf8_app; [by apply utf8_take_boundary|].
      do 3 (apply (utf8_char _ ""); [done|done|]). constructor. }
    case_match; [|done]. apply utf8_app; [done|]. unfold close.
    do 15 (apply (utf8_char _ ""); [done|done|]). constructor.
Qed.
