(* ===== verification/Externals.v ===== *)
(** * Third-party code the runtime calls

    The repository calls crates that are not part of it.  What the modelled
    components use of them is an interface here, a type class with the
    operations the code calls and, as named laws, the documented behaviour
    it relies on:

    - [SerdeJson]: [serde_json::Value], its [String] and [Null] variants,
      its rendering and its parser;
    - [RustDecimal]: [rust_decimal::Decimal] and the arithmetic used for
      costs;
    - [RegexEngine]: [regex::Regex], its compilation, its test for a match,
      the ranges of its matches and their replacement;
    - [AhoCorasick]: [aho_corasick::AhoCorasick] with its standard match
      semantics;
    - [UuidText]: the text form of [uuid::Uuid].

    Definitions and theorems of the other files are stated for every
    instance; [json_lite], [dec_cents], [literal_regex], [naive_ac] and [uuid_bits]
    are small concrete instances on which witnesses evaluate. *)

From S2P Require Import Prelude Text.

(** ** serde_json *)

(** The constructors of [serde_json::Value]; a number is kept as its text. *)
Inductive JsonView (A : Type) :=
| VNull
| VBool (b : bool)
| VNumber (text : string)
| VString (s : string)
| VArray (items : list A)
| VObject (fields : list (string * A)).
Arguments VNull {A}.
Arguments VBool {A} b.
Arguments VNumber {A} text.
Arguments VString {A} s.
Arguments VArray {A} items.
Arguments VObject {A} fields.

Class SerdeJson := {
  json : Type;
  JNull : json;
  JString : string → json;
  (** [if let Value::String(s) = v] *)
  json_as_string : json → option string;
  (** [v.to_string()] *)
  json_to_string : json → string;
  (** [serde_json::from_str::<Value>(s).ok()] *)
  json_from_str : string → option json;
  (** [serde_json::from_str::<Vec<Value>>(s).ok()] *)
  json_array_from_str : string → option (list json);
  (** [v.get(key)] of an object *)
  json_get : json → string → option json;
  (** [if let Value::Object(m) = v { m.len() }] *)
  json_object_len : json → option nat;
  json_is_null : json → bool;
  (** [json!({})] *)
  json_empty : json;
  (** an object with the given members, whose names are distinct *)
  json_object : list (string * json) → json;
  (** [serde_json::to_string] of a [Vec<Value>] *)
  json_array_to_string : list json → string;
  (** matching on the constructors *)
  json_view : json → JsonView json;
  (** the nesting of arrays and objects *)
  json_depth : json → nat;
  (** [if let Some(obj) = v.as_object_mut() { obj.insert(key, x); }] *)
  json_set : json → string → json → json;
  json_view_string : ∀ v s, json_view v = VString s ↔ json_as_string v = Some s;
  json_view_object : ∀ v fields k, json_view v = VObject fields →
    json_get v k = (λ kv, kv.2.2) <$> list_find (λ kv, kv.1 = k) fields;
  json_view_other : ∀ v k, (∀ fields, json_view v ≠ VObject fields) →
    json_get v k = None ∧ ∀ x, json_set v k x = v;
  json_depth_array : ∀ v items x, json_view v = VArray items → x ∈ items →
    json_depth x < json_depth v;
  json_depth_object : ∀ v fields k x, json_view v = VObject fields → (k, x) ∈ fields →
    json_depth x < json_depth v;
  json_get_set : ∀ v fields k x k', json_view v = VObject fields →
    json_get (json_set v k x) k' = if bool_decide (k' = k) then Some x else json_get v k';
  json_set_object : ∀ v fields k x, json_view v = VObject fields →
    ∃ fields', json_view (json_set v k x) = VObject fields';
  json_as_string_JString : ∀ s, json_as_string (JString s) = Some s;
  json_get_object : ∀ fields k, NoDup fields.*1 →
    json_get (json_object fields) k = (λ kv, kv.2.2) <$> list_find (λ kv, kv.1 = k) fields;
}.

(** ** rust_decimal *)

Class RustDecimal := {
  dec : Type;
  dec_zero : dec;
  dec_one : dec;
  dec_add : dec → dec → dec;
  dec_mul : dec → dec → dec;
  dec_div : dec → dec → dec;
  dec_ltb : dec → dec → bool;
  dec_is_zero : dec → bool;
  (** [Decimal::from(n)] for an unsigned integer and [dec!(n)] *)
  dec_of_Z : Z → dec;
  (** the literal [dec!(m * 10^-scale)] *)
  dec_lit : Z → nat → dec;
  dec_trunc : dec → dec;
  dec_to_string : dec → string;
}.

(** ** regex *)

(** Spans (start, end) in order that do not overlap. *)
Inductive spans_from : nat → nat → list (nat * nat) → Prop :=
| spans_nil from len : spans_from from len []
| spans_cons from len a b l :
    from ≤ a → a ≤ b → b ≤ len → spans_from b len l → spans_from from len ((a, b) :: l).

Class RegexEngine := {
  regex : Type;
  (** [Regex::new], with the error as text *)
  regex_new : string → result regex string;
  regex_as_str : regex → string;
  is_match : regex → string → bool;
  (** [find_iter]: the byte ranges of the successive matches *)
  find_iter : regex → string → list (nat * nat);
  (** [replace_all(text, replacement)] *)
  replace_all : regex → string → string → string;
  regex_as_str_new : ∀ p r, regex_new p = Ok r → regex_as_str r = p;
  find_iter_ordered : ∀ r s, spans_from 0 (String.length s) (find_iter r s);
}.

(** ** aho_corasick

    The builder's standard match semantics: [find_iter] reports matches as
    they are seen, so each match ends first among those that begin at or
    after the end of the previous one. *)

Record AcMatch := { am_pattern : nat; am_start : nat; am_end : nat }.

Definition same_text (ascii_case_insensitive : bool) (a b : string) : bool :=
  if ascii_case_insensitive then bool_decide (to_ascii_lowercase a = to_ascii_lowercase b)
  else bool_decide (a = b).

Definition ac_occurs (ci : bool) (patterns : list string) (s : string) (m : AcMatch) : Prop :=
  ∃ p, patterns !! am_pattern m = Some p ∧ am_end m ≤ String.length s ∧
       am_end m = am_start m + String.length p ∧
       same_text ci (slice s (am_start m) (am_end m)) p = true.

Inductive standard_matches (ci : bool) (patterns : list string) (s : string) :
    nat → list AcMatch → Prop :=
| standard_nil from :
    (∀ m, ac_occurs ci patterns s m → from ≤ am_start m → False) →
    standard_matches ci patterns s from []
| standard_cons from m ms :
    ac_occurs ci patterns s m → from ≤ am_start m →
    (∀ m', ac_occurs ci patterns s m' → from ≤ am_start m' → am_end m ≤ am_end m') →
    standard_matches ci patterns s (am_end m) ms →
    standard_matches ci patterns s from (m :: ms).

Class AhoCorasick := {
  ac : Type;
  ac_build : bool → list string → option ac;
  ac_find_iter : ac → string → list AcMatch;
  ac_find_iter_standard : ∀ ci patterns a s, Forall (λ p, p ≠ "") patterns →
    ac_build ci patterns = Some a → standard_matches ci patterns s 0 (ac_find_iter a s);
}.

(** ** uuid *)

(** lower-case hexadecimal digits and the hyphen *)
Definition uuid_char (c : Ascii.ascii) : bool :=
  let n := Ascii.N_of_ascii c in
  ((48 <=? n) && (n <=? 57) || (97 <=? n) && (n <=? 102) || (n =? 45))%N.

Class UuidText := {
  (** [Uuid::parse_str(s).ok()] *)
  uuid_parse_str : string → option Uuid;
  uuid_to_string : Uuid → string;
  uuid_to_string_chars : ∀ u, all_chars uuid_char (uuid_to_string u) = true ∧ uuid_to_string u ≠ "";
  uuid_parse_to_string : ∀ u, uuid_parse_str (uuid_to_string u) = Some u;
}.

(** ** Facts about spans and matches *)

Lemma spans_from_mono from from' len len' l :
  from ≤ from' → len' ≤ len → spans_from from' len' l → spans_from from len l.
Proof.
  intros Hf Hl H. revert from Hf. induction H; intros from0 Hf; constructor; try lia.
  apply IHspans_from; lia.
Qed.

Lemma length_map_chars f s : String.length (map_chars f s) = String.length s.
Proof. induction s; simpl; [done|]. by rewrite IHs. Qed.

Lemma same_text_length ci a b : same_text ci a b = true → String.length a = String.length b.
Proof.
  unfold same_text. destruct ci; intros H%bool_decide_eq_true; [|by subst].
  apply (f_equal String.length) in H. unfold to_ascii_lowercase in H.
  by rewrite !length_map_chars in H.
Qed.

(** ** Concrete instances for evaluation *)

Inductive lite_json :=
| LNull
| LBool (b : bool)
| LString (s : string)
| LRaw (s : string)
| LArray (items : list lite_json)
| LObject (fields : list (string * lite_json)).

Definition lite_as_string (v : lite_json) : option string :=
  match v with LString s => Some s | _ => None end.

Definition lite_to_string (v : lite_json) : string :=
  match v with
  | LNull => "null"
  | LBool b => if b then "true" else "false"
  | LString s => s
  | LRaw s => s
  | LArray _ => "[..]"
  | LObject _ => "{..}"
  end.

Definition lite_get (v : lite_json) (key : string) : option lite_json :=
  match v with
  | LObject fields => (λ kv, kv.2.2) <$> list_find (λ kv, kv.1 = key) fields
  | _ => None
  end.

Definition lite_view (v : lite_json) : JsonView lite_json :=
  match v with
  | LNull => VNull
  | LBool b => VBool b
  | LString s => VString s
  | LRaw s => VNumber s
  | LArray items => VArray items
  | LObject fields => VObject fields
  end.

Fixpoint lite_depth (v : lite_json) : nat :=
  match v with
  | LArray items => S (foldr (λ x acc, Nat.max (lite_depth x) acc) 0 items)
  | LObject fields => S (foldr (λ kv acc, Nat.max (lite_depth kv.2) acc) 0 fields)
  | _ => 0
  end.

Definition lite_set (v : lite_json) (key : string) (x : lite_json) : lite_json :=
  match v with
  | LObject fields => LObject ((key, x) :: filter (λ kv, kv.1 ≠ key) fields)
  | _ => v
  end.

Lemma foldr_max_elem {A} (f : A → nat) (l : list A) x :
  x ∈ l → f x ≤ foldr (λ y acc, Nat.max (f y) acc) 0 l.
Proof. induction 1; simpl; lia. Qed.

Lemma list_find_other {A} (fields : list (string * A)) k k' :
  k' ≠ k →
  (λ kv, kv.2.2) <$> list_find (λ kv, kv.1 = k') (filter (λ kv, kv.1 ≠ k) fields) =
  (λ kv, kv.2.2) <$> list_find (λ kv, kv.1 = k') fields.
Proof.
  intros Hne. induction fields as [|[a x] fields IH]; [done|].
  rewrite filter_cons. cbn [fst]. case_decide as Ha; cbn [list_find fst].
  - case_decide; [done|]. rewrite <-!option_fmap_compose. exact IH.
  - case_decide; [congruence|]. rewrite <-!option_fmap_compose. exact IH.
Qed.

(** [parse] is how a text is read as an array. *)
Definition json_lite_with (parse : string → option (list lite_json)) : SerdeJson.
Proof.
  refine {|
    json := lite_json; JNull := LNull; JString := LString; json_as_string := lite_as_string;
    json_to_string := lite_to_string; json_from_str := λ s, Some (LRaw s);
    json_array_from_str := parse; json_get := lite_get;
    json_object_len := λ v, match v with LObject fields => Some (length fields) | _ => None end;
    json_is_null := λ v, match v with LNull => true | _ => false end;
    json_empty := LObject []; json_object := LObject;
    json_array_to_string := λ l, join "," (lite_to_string <$> l);
    json_view := lite_view; json_depth := lite_depth; json_set := lite_set;
  |}; try done.
  - intros v s; destruct v; simpl; naive_solver.
  - intros v fields k; destruct v; simpl; naive_solver.
  - intros v k H; destruct v as [| | | | |fields]; simpl; try done. by destruct (H fields).
  - intros v items x; destruct v; simpl; try done. intros [= <-] Hx%(foldr_max_elem lite_depth). lia.
  - intros v fields k x; destruct v; simpl; try done.
    intros [= <-] Hx%(foldr_max_elem (λ kv, lite_depth kv.2)). simpl in Hx. lia.
  - intros v fields k x k'; destruct v as [| | | | |fs]; simpl; try done. intros [= <-].
    case_bool_decide as Hk; [subst|]; (case_decide; [done || congruence|]); [done|].
    rewrite <-option_fmap_compose. by rewrite <-(list_find_other fs k k').
  - intros v fields k x; destruct v; simpl; naive_solver.
Defined.

Definition json_lite : SerdeJson := json_lite_with (λ s, Some [LRaw s]).

(** Amounts in cents: a fixed-point decimal with two digits. *)
Definition dec_cents : RustDecimal := {|
  dec := Z;
  dec_zero := 0%Z;
  dec_one := 100%Z;
  dec_add := Z.add;
  dec_mul := λ a b, (a * b / 100)%Z;
  dec_div := λ a b, (a * 100 / b)%Z;
  dec_ltb := Z.ltb;
  dec_is_zero := λ a, (a =? 0)%Z;
  dec_of_Z := λ n, (n * 100)%Z;
  dec_lit := λ m scale, (m * 100 / 10 ^ Z.of_nat scale)%Z;
  dec_trunc := λ a, (Z.quot a 100 * 100)%Z;
  dec_to_string := λ a, pretty (Z.quot a 100);
|}.

(** Patterns that are plain text. *)
Fixpoint find_literal (fuel : nat) (p s : string) (offset : nat) : list (nat * nat) :=
  match fuel with
  | 0 => []
  | S fuel =>
      match s with
      | EmptyString => []
      | String _ s' =>
          match strip_prefix s p with
          | Some rest =>
              (offset, offset + String.length p) :: find_literal fuel p rest (offset + String.length p)
          | None => find_literal fuel p s' (S offset)
          end
      end
  end.

Lemma find_literal_ordered fuel p s offset :
  spans_from offset (offset + String.length s) (find_literal fuel p s offset).
Proof.
  revert s offset. induction fuel as [|fuel IH]; intros [|c s'] offset; simpl; try constructor.
  destruct (strip_prefix (String c s') p) as [rest|] eqn:E.
  - apply strip_prefix_spec in E. apply (f_equal String.length) in E.
    rewrite str_length_app in E. simpl in E. constructor; [lia|lia|lia|].
    eapply spans_from_mono; [| |apply IH]; lia.
  - eapply spans_from_mono; [| |apply IH]; lia.
Qed.

Definition literal_regex : RegexEngine.
Proof.
  refine {|
    regex := string;
    regex_new := λ p, if bool_decide (p = "") then Err "empty" else Ok p;
    regex_as_str := λ p, p;
    is_match := λ p s, contains s p;
    find_iter := λ p s, find_literal (String.length s) p s 0;
    replace_all := λ p s r, str_replace s p r;
  |}.
  - intros p r. by case_bool_decide; [|intros [= ->]].
  - intros p s. apply (find_literal_ordered _ p s 0).
Defined.

(** A scanner that looks at the end positions one after the other. *)
Fixpoint ends_here (ci : bool) (patterns : list string) (i : nat) (s : string) (from e : nat) :
    option AcMatch :=
  match patterns with
  | [] => None
  | p :: patterns =>
      if bool_decide (from + String.length p ≤ e) && same_text ci (slice s (e - String.length p) e) p
      then Some {| am_pattern := i; am_start := e - String.length p; am_end := e |}
      else ends_here ci patterns (S i) s from e
  end.

Fixpoint scan_ends (fuel : nat) (ci : bool) (patterns : list string) (s : string) (from e : nat) :
    list AcMatch :=
  match fuel with
  | 0 => []
  | S fuel =>
      match ends_here ci patterns 0 s from e with
      | Some m => m :: scan_ends fuel ci patterns s e (S e)
      | None => scan_ends fuel ci patterns s from (S e)
      end
  end.

Lemma ends_here_Some ci ps i s from e m :
  ends_here ci ps i s from e = Some m →
  am_end m = e ∧ ∃ k p, ps !! k = Some p ∧ am_pattern m = i + k ∧ from ≤ am_start m ∧
    am_start m + String.length p = e ∧ same_text ci (slice s (am_start m) e) p = true.
Proof.
  revert i. induction ps as [|p ps IH]; intros i; simpl; [done|].
  destruct (bool_decide _ && _) eqn:E.
  - apply andb_true_iff in E as [Hle%bool_decide_eq_true Ht]. intros [= <-]. simpl.
    split; [done|]. exists 0, p. split_and!; [done|lia|lia|lia|done].
  - intros H. apply IH in H as (He & k & q & Hk & Hi & ?). split; [done|].
    exists (S k), q. split_and!; [done|lia|naive_solver..].
Qed.

Lemma ends_here_None ci ps i s from e k p :
  ends_here ci ps i s from e = None → ps !! k = Some p → from + String.length p ≤ e →
  same_text ci (slice s (e - String.length p) e) p = false.
Proof.
  revert i k. induction ps as [|q ps IH]; intros i k; simpl; [done|].
  destruct (bool_decide _ && _) eqn:E; [done|]. intros H Hk Hle.
  destruct k as [|k]; simplify_eq/=; [|by apply (IH (S i) k)].
  apply andb_false_iff in E as [E%bool_decide_eq_false|E]; [lia|done].
Qed.

Lemma scan_ends_standard fuel ci ps s from e :
  Forall (λ p, p ≠ "") ps → from ≤ e → String.length s < e + fuel →
  (∀ m, ac_occurs ci ps s m → from ≤ am_start m → e ≤ am_end m) →
  standard_matches ci ps s from (scan_ends fuel ci ps s from e).
Proof.
  intros Hne. revert from e. induction fuel as [|fuel IH]; intros from e Hfe Hl Hno; simpl.
  { constructor. intros m Hm Hf. specialize (Hno m Hm Hf). destruct Hm as (p & _ & ? & _). lia. }
  destruct (ends_here ci ps 0 s from e) as [m|] eqn:E.
  - apply ends_here_Some in E as (He & k & p & Hk & Hi & Hf & Hs & Ht). simpl in Hi.
    destruct (decide (String.length s < e)).
    { exfalso. (* past the end the slice is too short *)
      apply Forall_lookup_1 with (2 := Hk) in Hne as Hp.
      assert (String.length (slice s (am_start m) e) = String.length p) as Hlen
        by by eapply same_text_length.
      unfold slice in Hlen. rewrite str_length_take, str_length_drop in Hlen.
      destruct p; [done|]. simpl in *. lia. }
    constructor.
    + exists p. rewrite Hi, He. split_and!; [done|lia|lia|done].
    + done.
    + rewrite He. done.
    + rewrite He. apply IH; [lia|lia|].
      intros m' (p' & Hp' & Hle' & He' & _) Hf'. rewrite He'.
      apply Forall_lookup_1 with (2 := Hp') in Hne as Hp. destruct p'; [done|]. simpl. lia.
  - apply IH; [lia|lia|]. intros m Hm Hf. specialize (Hno m Hm Hf).
    destruct Hm as (p & Hk & Hle & He & Ht). destruct (decide (am_end m = e)) as [Heq|]; [|lia].
    assert (same_text ci (slice s (e - String.length p) e) p = false) as Hn.
    { eapply ends_here_None; [exact E|exact Hk|lia]. }
    replace (e - String.length p) with (am_start m) in Hn by lia. rewrite <-Heq in Hn. congruence.
Qed.

Definition naive_ac : AhoCorasick.
Proof.
  refine {|
    ac := bool * list string;
    ac_build := λ ci ps, Some (ci, ps);
    ac_find_iter := λ a s, scan_ends (S (String.length s)) a.1 a.2 s 0 0;
  |}.
  intros ci ps a s Hne [= <-]. apply scan_ends_standard; [done|lia|simpl; lia|lia].
Defined.

(** Identifiers as their binary digits, the lowest first, closed by a letter. *)
Fixpoint bits_text (p : positive) : string :=
  match p with
  | xH => "a"
  | xO p => String (byte 48) (bits_text p)
  | xI p => String (byte 49) (bits_text p)
  end.

Fixpoint text_bits (s : string) : option positive :=
  match s with
  | EmptyString => None
  | String c s =>
      if bool_decide (c = byte 97) then (if bool_decide (s = EmptyString) then Some xH else None)
      else if bool_decide (c = byte 48) then xO <$> text_bits s
      else if bool_decide (c = byte 49) then xI <$> text_bits s
      else None
  end.

Definition uuid_bits : UuidText.
Proof.
  refine {|
    uuid_parse_str := λ s, if bool_decide (s = "b") then Some 0%N else Npos <$> text_bits s;
    uuid_to_string := λ u, match u with N0 => "b" | Npos p => bits_text p end;
  |}.
  - intros [|p]; [done|]. split; [|by destruct p]. by induction p.
  - intros [|p]; [done|]. assert (text_bits (bits_text p) = Some p) as Hp.
    { induction p as [p IH|p IH|]; simpl; try rewrite IH; done. }
    case_bool_decide as Hb; [|by rewrite Hp]. rewrite Hb in Hp. done.
Defined.
