(* ===== verification/LlmTypes.v ===== *)
(** * LLM messages, errors and the provider interface

    Models [src/src/llm/provider/messages.rs] (roles, messages, their
    constructors and the repair of orphaned tool results),
    [src/src/llm/provider/requests.rs] (request and response records),
    [src/src/llm/error.rs] (the error enumeration) and
    [src/src/llm/provider.rs] (the [LlmProvider] trait, as the type class
    [LlmProvider]).  The decorators of [CircuitBreaker], [Retry],
    [Failover] and [ResponseCache] are proved against this class. *)

From S2P Require Import Prelude Externals.

(** ** Messages *)

Inductive Role := System | User | Assistant | Tool.

#[export] Instance Role_eq_dec : EqDecision Role.
Proof. solve_decision. Defined.

Record ImageUrl := { image_url_url : string; image_url_detail : option string }.

Inductive ContentPart :=
| PartText (text : string)
| PartImageUrl (image_url : ImageUrl).

Section Messages.
Context {J : SerdeJson}.

Record ToolCall := { tc_id : string; tc_name : string; tc_arguments : json }.

Record ChatMessage := {
  role : Role;
  content : string;
  content_parts : list ContentPart;
  tool_call_id : option string;
  name : option string;
  tool_calls : option (list ToolCall);
}.

Definition plain (r : Role) (c : string) : ChatMessage := {|
  role := r; content := c; content_parts := [];
  tool_call_id := None; name := None; tool_calls := None |}.

Definition msg_system (c : string) : ChatMessage := plain System c.
Definition msg_user (c : string) : ChatMessage := plain User c.
Definition msg_assistant (c : string) : ChatMessage := plain Assistant c.

Definition user_with_parts (c : string) (parts : list ContentPart) : ChatMessage := {|
  role := User; content := c; content_parts := parts;
  tool_call_id := None; name := None; tool_calls := None |}.

Definition assistant_with_tool_calls (c : option string) (calls : list ToolCall) :
    ChatMessage := {|
  role := Assistant; content := default "" c; content_parts := [];
  tool_call_id := None; name := None;
  tool_calls := match calls with [] => None | _ :: _ => Some calls end |}.

Definition tool_result (id nm c : string) : ChatMessage := {|
  role := Tool; content := c; content_parts := [];
  tool_call_id := Some id; name := Some nm; tool_calls := None |}.

(** ** Repair of orphaned tool results *)

(** The loop body of [known_tool_call_ids]. *)
Definition collect_call_ids (known : gset string) (msg : ChatMessage) : gset string :=
  if bool_decide (role msg = Assistant) then
    match tool_calls msg with
    | Some calls => foldl (λ known tc, {[tc_id tc]} ∪ known) known calls
    | None => known
    end
  else known.

Definition known_tool_call_ids (messages : list ChatMessage) : gset string :=
  foldl collect_call_ids ∅ messages.

Definition is_orphaned_tool_result (msg : ChatMessage) (known_ids : gset string) : bool :=
  match tool_call_id msg with
  | Some id => bool_decide (id ∉ known_ids)
  | None => true
  end.

Definition rewrite_as_user_message (msg : ChatMessage) : ChatMessage := {|
  role := User;
  content := "[Tool `" +:+ default "unknown" (name msg) +:+ "` returned: "
             +:+ content msg +:+ "]";
  content_parts := content_parts msg;
  tool_call_id := None; name := None; tool_calls := tool_calls msg |}.

Definition sanitize_tool_messages (messages : list ChatMessage) : list ChatMessage :=
  let known_ids := known_tool_call_ids messages in
  map (λ msg,
    if bool_decide (role msg = Tool) && is_orphaned_tool_result msg known_ids
    then rewrite_as_user_message msg else msg) messages.

(** ** Requests and responses *)

(** A temperature is kept as the bit pattern of its [f32]. *)
Record CompletionRequest := {
  req_messages : list ChatMessage;
  req_stop_sequences : option (list string);
  req_model : option string;
  req_max_tokens : option Z;
  req_temperature : option Z;
  req_metadata : gmap string string;
}.

Definition completion_request_new (messages : list ChatMessage) : CompletionRequest := {|
  req_messages := messages; req_stop_sequences := None; req_model := None;
  req_max_tokens := None; req_temperature := None; req_metadata := ∅ |}.

Record ToolDefinition := {
  td_name : string; td_description : string; td_parameters : json }.

Record ToolCompletionRequest := {
  treq_messages : list ChatMessage;
  treq_tools : list ToolDefinition;
  treq_tool_choice : option string;
  treq_model : option string;
  treq_max_tokens : option Z;
  treq_temperature : option Z;
  treq_metadata : gmap string string;
}.
End Messages.
Arguments ToolCall : clear implicits.
Arguments ToolCall {J}.
Arguments ChatMessage : clear implicits.
Arguments ChatMessage {J}.
Arguments CompletionRequest : clear implicits.
Arguments CompletionRequest {J}.
Arguments ToolCompletionRequest : clear implicits.
Arguments ToolCompletionRequest {J}.

Inductive FinishReason := Stop | Length | ToolUse | ContentFilter | UnknownReason.

Record CompletionResponse := {
  resp_content : string;
  resp_input_tokens : Z;
  resp_output_tokens : Z;
  resp_finish_reason : FinishReason;
  resp_cache_read_input_tokens : Z;
  resp_cache_creation_input_tokens : Z;
}.

Section MoreTypes.
Context {J : SerdeJson}.

Record ToolCompletionResponse := {
  tresp_content : option string;
  tresp_tool_calls : list ToolCall;
  tresp_input_tokens : Z;
  tresp_output_tokens : Z;
  tresp_finish_reason : FinishReason;
  tresp_cache_read_input_tokens : Z;
  tresp_cache_creation_input_tokens : Z;
}.
End MoreTypes.
Arguments ToolCompletionResponse : clear implicits.
Arguments ToolCompletionResponse {J}.

Record ModelMetadata := { mm_id : string; mm_context_length : option Z }.

(** ** Errors

    The payloads of [Http], [Json] and [Io] are errors of other crates;
    only their text is kept. *)
Inductive LlmError :=
| RequestFailed (provider reason : string)
| RateLimited (provider : string) (retry_after : option Duration)
| InvalidResponse (provider reason : string)
| ContextLengthExceeded (used limit : Z)
| ModelNotAvailable (provider model : string)
| AuthFailed (provider : string)
| SessionExpired (provider : string)
| SessionRenewalFailed (provider reason : string)
| HttpError (e : string)
| JsonError (e : string)
| IoError (e : string).

(** ** The provider interface

    A provider is a value of type [P].  A call that may change the provider
    or take time receives the clock and returns the provider and the clock
    after it. *)
Class LlmProvider {J : SerdeJson} {D : RustDecimal} (P : Type) := {
  model_name : P → string;
  cost_per_token : P → dec * dec;
  complete : P → Instant → CompletionRequest →
    P * Instant * result CompletionResponse LlmError;
  complete_with_tools : P → Instant → ToolCompletionRequest →
    P * Instant * result ToolCompletionResponse LlmError;
  list_models : P → P * result (list string) LlmError;
  model_metadata : P → P * result ModelMetadata LlmError;
  effective_model_name : P → option string → P * string;
  active_model_name : P → string;
  set_model : P → string → P * result unit LlmError;
  calculate_cost : P → Z → Z → dec;
  cache_write_multiplier : P → dec;
  cache_read_discount : P → dec;
}.

(** The trait's default methods. *)
Definition default_effective_model_name (active : string) (requested : option string) :
    string := default active requested.

Definition default_calculate_cost {D : RustDecimal} (cost : dec * dec)
    (input_tokens output_tokens : Z) : dec :=
  dec_add (dec_mul cost.1 (dec_of_Z input_tokens)) (dec_mul cost.2 (dec_of_Z output_tokens)).

(** A provider for evaluation: it answers each call after one second, with
    the errors of its list first and then always with success. *)
Definition canned_response : CompletionResponse := {|
  resp_content := "ok"; resp_input_tokens := 1; resp_output_tokens := 1;
  resp_finish_reason := Stop; resp_cache_read_input_tokens := 0;
  resp_cache_creation_input_tokens := 0 |}.

Definition canned_call {A} (a : A) (p : list LlmError) (now : Instant) :
    list LlmError * Instant * result A LlmError :=
  match p with
  | e :: p => (p, now + secs 1, Err e)%Z
  | [] => ([], now + secs 1, Ok a)%Z
  end.

Definition canned_provider {J : SerdeJson} {D : RustDecimal} : LlmProvider (list LlmError) := {|
  model_name _ := "canned";
  cost_per_token _ := (dec_zero, dec_zero);
  complete p now _ := canned_call canned_response p now;
  complete_with_tools p now _ :=
    canned_call {| tresp_content := Some "ok"; tresp_tool_calls := []; tresp_input_tokens := 1;
                   tresp_output_tokens := 1; tresp_finish_reason := Stop;
                   tresp_cache_read_input_tokens := 0;
                   tresp_cache_creation_input_tokens := 0 |} p now;
  list_models p := (p, Ok ["canned"]);
  model_metadata p := (p, Ok {| mm_id := "canned"; mm_context_length := None |});
  effective_model_name p requested := (p, default_effective_model_name "canned" requested);
  active_model_name _ := "canned";
  set_model p _ := (p, Err (RequestFailed "unknown"
    "Runtime model switching not supported by this provider"));
  calculate_cost _ := default_calculate_cost (dec_zero, dec_zero);
  cache_write_multiplier _ := dec_one;
  cache_read_discount _ := dec_one;
|}.

(** ** Properties *)

Section Sanitize.
Context {J : SerdeJson}.
Implicit Types (msg : ChatMessage) (messages : list ChatMessage).

(** The ids an assistant message announces. *)
Definition announces msg (id : string) : Prop :=
  role msg = Assistant ∧ ∃ calls, tool_calls msg = Some calls ∧ ∃ tc, tc ∈ calls ∧ tc_id tc = id.

Lemma fold_call_ids (calls : list ToolCall) (known : gset string) id :
  id ∈ foldl (λ known tc, {[tc_id tc]} ∪ known) known calls ↔
  id ∈ known ∨ ∃ tc, tc ∈ calls ∧ tc_id tc = id.
Proof.
  revert known. induction calls as [|tc calls IH]; intros known; simpl; [set_solver|].
  rewrite IH. set_solver.
Qed.

Lemma elem_of_collect_call_ids (known : gset string) msg id :
  id ∈ collect_call_ids known msg ↔ id ∈ known ∨ announces msg id.
Proof.
  unfold collect_call_ids, announces. case_bool_decide; [|naive_solver].
  destruct (tool_calls msg); [rewrite fold_call_ids|]; naive_solver.
Qed.

Lemma elem_of_known_ids messages id :
  id ∈ known_tool_call_ids messages ↔ ∃ msg, msg ∈ messages ∧ announces msg id.
Proof.
  unfold known_tool_call_ids.
  assert (∀ known : gset string, id ∈ foldl collect_call_ids known messages ↔
    id ∈ known ∨ ∃ msg, msg ∈ messages ∧ announces msg id) as H.
  { induction messages as [|m ms IH]; intros known; simpl; [set_solver|].
    rewrite IH, elem_of_collect_call_ids. setoid_rewrite elem_of_cons. naive_solver. }
  rewrite H. set_solver.
Qed.

Lemma announces_sanitized msg b id :
  announces (if bool_decide (role msg = Tool) && b then rewrite_as_user_message msg else msg) id
  ↔ announces msg id.
Proof.
  case_bool_decide; destruct b; simpl; try done.
  unfold announces, rewrite_as_user_message. simpl. split; intros [??]; congruence.
Qed.

Lemma known_ids_sanitize messages :
  known_tool_call_ids (sanitize_tool_messages messages) = known_tool_call_ids messages.
Proof.
  apply set_eq. intros id. rewrite !elem_of_known_ids. unfold sanitize_tool_messages.
  split.
  - intros (m & Hm & Ha). apply list_elem_of_fmap in Hm as (m0 & -> & Hm0).
    apply announces_sanitized in Ha. eauto.
  - intros (m & Hm & Ha). eexists. split; [by apply list_elem_of_fmap_2|].
    by apply announces_sanitized.
Qed.

(** After [sanitize_tool_messages] every tool-result message carries the
    id of a tool call announced by an assistant message of the list; the
    list keeps its length, every message that is not an orphaned tool result
    is unchanged, and sanitizing again changes nothing. *)
Theorem sanitize_no_orphans messages :
  let out := sanitize_tool_messages messages in
  length out = length messages ∧
  (∀ m, m ∈ out → role m = Tool →
     ∃ id a, tool_call_id m = Some id ∧ a ∈ out ∧ announces a id) ∧
  (∀ i m, messages !! i = Some m →
     (role m ≠ Tool ∨ is_orphaned_tool_result m (known_tool_call_ids messages) = false) →
     out !! i = Some m) ∧
  sanitize_tool_messages out = out.
Proof.
  intros out. split_and!.
  - apply length_fmap.
  - intros m Hm Hr. pose proof Hm as Hm'.
    apply list_elem_of_fmap in Hm as (m0 & -> & Hm0).
    case_bool_decide; [|done]. simpl in *.
    destruct (is_orphaned_tool_result _ _) eqn:Ho; [done|].
    unfold is_orphaned_tool_result in Ho. destruct (tool_call_id m0) as [id|] eqn:E; [|done].
    case_bool_decide as Hin; [done|].
    rewrite <-known_ids_sanitize in Hin. apply elem_of_known_ids in Hin as (a & ? & ?). eauto.
  - intros i m Hi Hm. unfold out, sanitize_tool_messages. rewrite list_lookup_fmap, Hi.
    simpl. case_bool_decide; [|done]. destruct Hm as [|Hm]; [done|]. by rewrite Hm.
  - unfold sanitize_tool_messages at 1. unfold out. rewrite known_ids_sanitize.
    rewrite <-(list_fmap_id (sanitize_tool_messages messages)) at 2.
    apply list_fmap_ext. intros i m Hm. apply list_elem_of_lookup_2 in Hm.
    apply list_elem_of_fmap in Hm as (m0 & -> & Hm0).
    destruct (bool_decide (role m0 = Tool) && is_orphaned_tool_result m0 _) eqn:E;
      [done|]. by rewrite E.
Qed.
End Sanitize.
