(* ===== verification/JobState.v ===== *)
(** * Jobs: the state machine and the job context

    Models [src/src/context/state/job_state.rs] (the [JobState]
    enumeration, its transition table and its string form) and
    [src/src/context/state.rs] (the [JobContext] record and every method
    that reads or changes it).  Readings of the clock and the fresh job id
    are arguments.  A method that takes [&mut self] and returns a [Result]
    becomes a function to the new context and the result. *)

From S2P Require Import Prelude Externals.

(** ** [JobState] *)

Inductive JobState :=
| Pending | InProgress | Completed | Submitted
| Accepted | Failed | Stuck | Cancelled.

#[export] Instance JobState_eq_dec : EqDecision JobState.
Proof. solve_decision. Defined.

Definition can_transition_to (self target : JobState) : bool :=
  match self, target with
  | Pending, InProgress | Pending, Cancelled
  | InProgress, Completed | InProgress, Failed
  | InProgress, Stuck | InProgress, Cancelled
  | Completed, Submitted | Completed, Failed
  | Submitted, Accepted | Submitted, Failed
  | Stuck, InProgress | Stuck, Failed | Stuck, Cancelled => true
  | _, _ => false
  end.

Definition is_terminal (s : JobState) : bool :=
  match s with Accepted | Failed | Cancelled => true | _ => false end.

Definition is_active (s : JobState) : bool := negb (is_terminal s).

Definition job_state_from_str (s : string) : result JobState unit :=
  if bool_decide (s = "pending") then Ok Pending
  else if bool_decide (s = "in_progress") then Ok InProgress
  else if bool_decide (s = "completed") then Ok Completed
  else if bool_decide (s = "submitted") then Ok Submitted
  else if bool_decide (s = "accepted") then Ok Accepted
  else if bool_decide (s = "failed") then Ok Failed
  else if bool_decide (s = "stuck") then Ok Stuck
  else if bool_decide (s = "cancelled") then Ok Cancelled
  else Err tt.

Definition job_state_display (s : JobState) : string :=
  match s with
  | Pending => "pending"
  | InProgress => "in_progress"
  | Completed => "completed"
  | Submitted => "submitted"
  | Accepted => "accepted"
  | Failed => "failed"
  | Stuck => "stuck"
  | Cancelled => "cancelled"
  end.

(** ** [JobContext] *)

Inductive JobRecoveryError :=
| NotStuck
| InvariantViolation (msg : string).

Record StateTransition := {
  tr_from : JobState;
  tr_to : JobState;
  tr_timestamp : Utc;
  tr_reason : option string;
}.

(** The states in which [completed_at] is maintained. *)
Definition marks_completion (s : JobState) : bool :=
  match s with Completed | Accepted | Failed | Cancelled => true | _ => false end.

Definition MAX_TRANSITIONS : nat := 200.

Section JobContext.
Context {J : SerdeJson} {D : RustDecimal}.

(** The HTTP interceptor is a shared object the context only refers to; the
    environment and the output stash are the maps behind their [Arc]s. *)
Record JobContext := {
  job_id : Uuid;
  state : JobState;
  user_id : string;
  conversation_id : option Uuid;
  title : string;
  description : string;
  category : option string;
  budget : option dec;
  budget_token : option string;
  bid_amount : option dec;
  estimated_cost : option dec;
  estimated_duration : option Duration;
  actual_cost : dec;
  total_tokens_used : Z;
  max_tokens : Z;
  created_at : Utc;
  started_at : option Utc;
  completed_at : option Utc;
  repair_attempts : Z;
  transitions : list StateTransition;
  metadata : json;
  extra_env : gmap string string;
  http_interceptor : option N;
  tool_output_stash : gmap string string;
  user_timezone : string;
}.

(** Field assignment, [self.f = v]. *)
Definition set_state (v : JobState) (c : JobContext) : JobContext := {|
  job_id := job_id c; state := v; user_id := user_id c;
  conversation_id := conversation_id c; title := title c;
  description := description c; category := category c; budget := budget c;
  budget_token := budget_token c; bid_amount := bid_amount c;
  estimated_cost := estimated_cost c;
  estimated_duration := estimated_duration c; actual_cost := actual_cost c;
  total_tokens_used := total_tokens_used c; max_tokens := max_tokens c;
  created_at := created_at c; started_at := started_at c;
  completed_at := completed_at c; repair_attempts := repair_attempts c;
  transitions := transitions c; metadata := metadata c;
  extra_env := extra_env c; http_interceptor := http_interceptor c;
  tool_output_stash := tool_output_stash c; user_timezone := user_timezone c |}.

Definition set_actual_cost (v : dec) (c : JobContext) : JobContext := {|
  job_id := job_id c; state := state c; user_id := user_id c;
  conversation_id := conversation_id c; title := title c;
  description := description c; category := category c; budget := budget c;
  budget_token := budget_token c; bid_amount := bid_amount c;
  estimated_cost := estimated_cost c;
  estimated_duration := estimated_duration c; actual_cost := v;
  total_tokens_used := total_tokens_used c; max_tokens := max_tokens c;
  created_at := created_at c; started_at := started_at c;
  completed_at := completed_at c; repair_attempts := repair_attempts c;
  transitions := transitions c; metadata := metadata c;
  extra_env := extra_env c; http_interceptor := http_interceptor c;
  tool_output_stash := tool_output_stash c; user_timezone := user_timezone c |}.

Definition set_total_tokens_used (v : Z) (c : JobContext) : JobContext := {|
  job_id := job_id c; state := state c; user_id := user_id c;
  conversation_id := conversation_id c; title := title c;
  description := description c; category := category c; budget := budget c;
  budget_token := budget_token c; bid_amount := bid_amount c;
  estimated_cost := estimated_cost c;
  estimated_duration := estimated_duration c; actual_cost := actual_cost c;
  total_tokens_used := v; max_tokens := max_tokens c;
  created_at := created_at c; started_at := started_at c;
  completed_at := completed_at c; repair_attempts := repair_attempts c;
  transitions := transitions c; metadata := metadata c;
  extra_env := extra_env c; http_interceptor := http_interceptor c;
  tool_output_stash := tool_output_stash c; user_timezone := user_timezone c |}.

Definition set_started_at (v : option Utc) (c : JobContext) : JobContext := {|
  job_id := job_id c; state := state c; user_id := user_id c;
  conversation_id := conversation_id c; title := title c;
  description := description c; category := category c; budget := budget c;
  budget_token := budget_token c; bid_amount := bid_amount c;
  estimated_cost := estimated_cost c;
  estimated_duration := estimated_duration c; actual_cost := actual_cost c;
  total_tokens_used := total_tokens_used c; max_tokens := max_tokens c;
  created_at := created_at c; started_at := v; completed_at := completed_at c;
  repair_attempts := repair_attempts c; transitions := transitions c;
  metadata := metadata c; extra_env := extra_env c;
  http_interceptor := http_interceptor c;
  tool_output_stash := tool_output_stash c; user_timezone := user_timezone c |}.

Definition set_completed_at (v : option Utc) (c : JobContext) : JobContext := {|
  job_id := job_id c; state := state c; user_id := user_id c;
  conversation_id := conversation_id c; title := title c;
  description := description c; category := category c; budget := budget c;
  budget_token := budget_token c; bid_amount := bid_amount c;
  estimated_cost := estimated_cost c;
  estimated_duration := estimated_duration c; actual_cost := actual_cost c;
  total_tokens_used := total_tokens_used c; max_tokens := max_tokens c;
  created_at := created_at c; started_at := started_at c; completed_at := v;
  repair_attempts := repair_attempts c; transitions := transitions c;
  metadata := metadata c; extra_env := extra_env c;
  http_interceptor := http_interceptor c;
  tool_output_stash := tool_output_stash c; user_timezone := user_timezone c |}.

Definition set_repair_attempts (v : Z) (c : JobContext) : JobContext := {|
  job_id := job_id c; state := state c; user_id := user_id c;
  conversation_id := conversation_id c; title := title c;
  description := description c; category := category c; budget := budget c;
  budget_token := budget_token c; bid_amount := bid_amount c;
  estimated_cost := estimated_cost c;
  estimated_duration := estimated_duration c; actual_cost := actual_cost c;
  total_tokens_used := total_tokens_used c; max_tokens := max_tokens c;
  created_at := created_at c; started_at := started_at c;
  completed_at := completed_at c; repair_attempts := v;
  transitions := transitions c; metadata := metadata c;
  extra_env := extra_env c; http_interceptor := http_interceptor c;
  tool_output_stash := tool_output_stash c; user_timezone := user_timezone c |}.

Definition set_transitions (v : list StateTransition) (c : JobContext) : JobContext := {|
  job_id := job_id c; state := state c; user_id := user_id c;
  conversation_id := conversation_id c; title := title c;
  description := description c; category := category c; budget := budget c;
  budget_token := budget_token c; bid_amount := bid_amount c;
  estimated_cost := estimated_cost c;
  estimated_duration := estimated_duration c; actual_cost := actual_cost c;
  total_tokens_used := total_tokens_used c; max_tokens := max_tokens c;
  created_at := created_at c; started_at := started_at c;
  completed_at := completed_at c; repair_attempts := repair_attempts c;
  transitions := v; metadata := metadata c; extra_env := extra_env c;
  http_interceptor := http_interceptor c;
  tool_output_stash := tool_output_stash c; user_timezone := user_timezone c |}.

Definition set_user_timezone (v : string) (c : JobContext) : JobContext := {|
  job_id := job_id c; state := state c; user_id := user_id c;
  conversation_id := conversation_id c; title := title c;
  description := description c; category := category c; budget := budget c;
  budget_token := budget_token c; bid_amount := bid_amount c;
  estimated_cost := estimated_cost c;
  estimated_duration := estimated_duration c; actual_cost := actual_cost c;
  total_tokens_used := total_tokens_used c; max_tokens := max_tokens c;
  created_at := created_at c; started_at := started_at c;
  completed_at := completed_at c; repair_attempts := repair_attempts c;
  transitions := transitions c; metadata := metadata c;
  extra_env := extra_env c; http_interceptor := http_interceptor c;
  tool_output_stash := tool_output_stash c; user_timezone := v |}.

Definition with_user (id : Uuid) (now : Utc) (uid ttl desc : string) : JobContext := {|
  job_id := id; state := Pending; user_id := uid; conversation_id := None;
  title := ttl; description := desc; category := None; budget := None;
  budget_token := None; bid_amount := None; estimated_cost := None;
  estimated_duration := None; actual_cost := dec_zero;
  total_tokens_used := 0; max_tokens := 0; created_at := now;
  started_at := None; completed_at := None; repair_attempts := 0;
  transitions := []; metadata := JNull; extra_env := ∅;
  http_interceptor := None; tool_output_stash := ∅; user_timezone := "UTC" |}.

Definition job_new (id : Uuid) (now : Utc) (ttl desc : string) : JobContext :=
  with_user id now "default" ttl desc.

Definition with_timezone (c : JobContext) (tz : string) : JobContext :=
  set_user_timezone tz c.

(** [drain(..drain_count)] keeps the newest [MAX_TRANSITIONS] entries. *)
Definition push_transition (c : JobContext) (t : StateTransition) : JobContext :=
  let ts := transitions c ++ [t] in
  let ts :=
    if bool_decide (MAX_TRANSITIONS < length ts)
    then drop (length ts - MAX_TRANSITIONS) ts else ts in
  set_transitions ts c.

(** The "update timestamps" match of [transition_to]. *)
Definition stamp (c : JobContext) (new_state : JobState) (now : Utc) : JobContext :=
  match new_state with
  | InProgress =>
      match started_at c with
      | None => set_started_at (Some now) c
      | Some _ => c
      end
  | Completed | Accepted | Failed | Cancelled => set_completed_at (Some now) c
  | _ => c
  end.

(** [now1] is the reading recorded in the history, [now2] the one recorded
    in [started_at] or [completed_at]. *)
Definition transition_to (c : JobContext) (new_state : JobState)
    (reason : option string) (now1 now2 : Utc) : JobContext * result unit string :=
  if negb (can_transition_to (state c) new_state) then
    (c, Err ("Cannot transition from " +:+ job_state_display (state c)
             +:+ " to " +:+ job_state_display new_state))
  else
    let t := {| tr_from := state c; tr_to := new_state;
                tr_timestamp := now1; tr_reason := reason |} in
    let c := push_transition c t in
    let c := set_state new_state c in
    (stamp c new_state now2, Ok tt).

Definition last_transition_matches_rollback (c : JobContext) (previous : JobState) : bool :=
  match last (transitions c) with
  | Some t => bool_decide (tr_from t = previous) && bool_decide (tr_to t = state c)
  | None => false
  end.

Definition set_state_rollback (c : JobContext) (previous : JobState) : JobContext :=
  if negb (last_transition_matches_rollback c previous) then c
  else
    let ts := take (length (transitions c) - 1) (transitions c) in
    let c := set_state previous (set_transitions ts c) in
    set_completed_at
      (if marks_completion (state c)
       then tr_timestamp <$> rfind (λ t, marks_completion (tr_to t)) (transitions c)
       else None) c.

Definition add_cost (c : JobContext) (cost : dec) : JobContext :=
  set_actual_cost (dec_add (actual_cost c) cost) c.

Definition add_tokens (c : JobContext) (tokens : Z) : JobContext * result unit string :=
  let c := set_total_tokens_used (wrap_u64 (total_tokens_used c + tokens)) c in
  if ((0 <? max_tokens c) && (max_tokens c <? total_tokens_used c))%Z then
    (c, Err ("Token budget exceeded: used " +:+ pretty (total_tokens_used c)
             +:+ " of " +:+ pretty (max_tokens c) +:+ " allowed tokens"))
  else (c, Ok tt).

Definition budget_exceeded (c : JobContext) : bool :=
  match budget c with
  | Some b => dec_ltb b (actual_cost c)
  | None => false
  end.

(** Whole seconds since the job started, clamped at zero. *)
Definition job_elapsed (c : JobContext) (now : Utc) : option Z :=
  (λ start, Z.max 0 (Z.quot (default now (completed_at c) - start) 1000000000))
    <$> started_at c.

Definition stuck_since (c : JobContext) : option Utc :=
  tr_timestamp <$> rfind (λ t, bool_decide (tr_to t = Stuck)) (transitions c).

Definition mark_stuck (c : JobContext) (reason : string) (now1 now2 : Utc) :
    JobContext * result unit string :=
  transition_to c Stuck (Some reason) now1 now2.

Definition attempt_recovery (c : JobContext) (now1 now2 : Utc) :
    JobContext * result unit JobRecoveryError :=
  if negb (bool_decide (state c = Stuck)) then (c, Err NotStuck)
  else
    let c := set_repair_attempts (wrap_u32 (repair_attempts c + 1)) c in
    match transition_to c InProgress (Some "Recovery attempt") now1 now2 with
    | (c, Ok tt) => (c, Ok tt)
    | (c, Err msg) => (c, Err (InvariantViolation msg))
    end.

(** ** The context as a state machine

    Every method that changes a context, as one labelled step. *)

Inductive JobOp :=
| OpTransition (new_state : JobState) (reason : option string) (now1 now2 : Utc)
| OpRollback (previous : JobState)
| OpMarkStuck (reason : string) (now1 now2 : Utc)
| OpRecover (now1 now2 : Utc)
| OpAddCost (cost : dec)
| OpAddTokens (tokens : Z)
| OpTimezone (tz : string).

Definition apply_op (c : JobContext) (op : JobOp) : JobContext :=
  match op with
  | OpTransition s r n1 n2 => (transition_to c s r n1 n2).1
  | OpRollback p => set_state_rollback c p
  | OpMarkStuck r n1 n2 => (mark_stuck c r n1 n2).1
  | OpRecover n1 n2 => (attempt_recovery c n1 n2).1
  | OpAddCost d => add_cost c d
  | OpAddTokens n => (add_tokens c n).1
  | OpTimezone tz => with_timezone c tz
  end.

Definition job_step (c c' : JobContext) : Prop := ∃ op, c' = apply_op c op.

(** A context as [with_user] builds it. *)
Definition job_initial (c : JobContext) : Prop :=
  ∃ id now uid ttl desc, c = with_user id now uid ttl desc.

Definition job_reachable (c : JobContext) : Prop :=
  ∃ c0, job_initial c0 ∧ rtc job_step c0 c.

(** ** Invariants *)

(** States from which work can still be done; a truncated history always
    starts in one of them. *)
Definition open_state (s : JobState) : Prop :=
  s = Pending ∨ s = InProgress ∨ s = Stuck.

(** [history_path s l s']: the recorded transitions [l] lead from [s] to
    [s'], each along an edge of the transition table. *)
Fixpoint history_path (s : JobState) (l : list StateTransition) (s' : JobState) : Prop :=
  match l with
  | [] => s = s'
  | t :: l =>
      tr_from t = s ∧ can_transition_to s (tr_to t) = true ∧ history_path (tr_to t) l s'
  end.

Lemma history_path_snoc s l t s1 :
  history_path s l (tr_from t) →
  can_transition_to (tr_from t) (tr_to t) = true →
  tr_to t = s1 →
  history_path s (l ++ [t]) s1.
Proof.
  revert s. induction l as [|u l IH]; simpl; intros s Hp Ht Hs.
  - by subst.
  - destruct Hp as (?&?&?); eauto.
Qed.

Lemma history_path_snoc_inv s l t s1 :
  history_path s (l ++ [t]) s1 →
  history_path s l (tr_from t) ∧ can_transition_to (tr_from t) (tr_to t) = true ∧ tr_to t = s1.
Proof.
  revert s. induction l as [|u l IH]; simpl; intros s.
  - intros (<-&?&?); eauto.
  - intros (?&?&Hp). apply IH in Hp as (?&?&?). eauto.
Qed.

(** At most two transitions follow a state that is not open. *)
Lemma history_path_closed_short s l s' :
  history_path s l s' → ¬ open_state s → length l ≤ 2.
Proof.
  unfold open_state. destruct l as [|t1 [|t2 [|t3 l]]]; simpl; try lia.
  intros (_&H1&_&H2&_&H3&_) Hs. exfalso.
  destruct s, (tr_to t1); try discriminate H1; try (apply Hs; by auto);
    destruct (tr_to t2); try discriminate H2; by destruct (tr_to t3).
Qed.

Lemma open_state_dec s : {open_state s} + {¬ open_state s}.
Proof. unfold open_state. destruct s; (left; by auto) || (right; naive_solver). Defined.

Lemma history_path_drop_head s t l s' :
  history_path s (t :: l) s' → 2 < length l → open_state (tr_to t).
Proof.
  intros (?&?&Hp) Hl. destruct (open_state_dec (tr_to t)) as [|Hn]; [done|].
  pose proof (history_path_closed_short _ _ _ Hp Hn). lia.
Qed.

Definition history_inv (c : JobContext) : Prop :=
  length (transitions c) ≤ MAX_TRANSITIONS ∧
  ∃ s0, open_state s0 ∧ history_path s0 (transitions c) (state c).

Definition ever_started (c : JobContext) : Prop :=
  (state c ≠ Pending ∧ state c ≠ Cancelled) ∨
  Exists (λ t, tr_from t ≠ Pending) (transitions c).

(** What [started_at] and [completed_at] say about the state. *)
Definition stamps_inv (c : JobContext) : Prop :=
  (ever_started c → is_Some (started_at c)) ∧
  (open_state (state c) → completed_at c = None) ∧
  (marks_completion (state c) = true → is_Some (completed_at c)).

Definition job_inv (c : JobContext) : Prop := history_inv c ∧ stamps_inv c.

Lemma push_transition_history c t :
  history_inv c → tr_from t = state c →
  can_transition_to (tr_from t) (tr_to t) = true →
  length (transitions (push_transition c t)) ≤ MAX_TRANSITIONS ∧
  ∃ s0, open_state s0 ∧ history_path s0 (transitions (push_transition c t)) (tr_to t).
Proof.
  intros (Hlen & s0 & Hopen & Hp) Hfrom Hcan. unfold push_transition. simpl.
  assert (history_path s0 (transitions c ++ [t]) (tr_to t)) as Hp'.
  { apply history_path_snoc; [by rewrite Hfrom|done..]. }
  case_bool_decide as Hlt; [|split; [lia|eauto]].
  rewrite length_app in Hlt |- *. simpl in Hlt |- *.
  assert (length (transitions c) = MAX_TRANSITIONS) as Heq by lia. rewrite Heq.
  destruct (transitions c ++ [t]) as [|u l] eqn:E; [by destruct (transitions c)|].
  apply (f_equal length) in E. rewrite length_app, Heq in E. simpl in E.
  simpl. rewrite drop_0. split; [unfold MAX_TRANSITIONS in *; lia|].
  exists (tr_to u). split; [|by destruct Hp' as (?&?&?)].
  eapply history_path_drop_head; [done|]. unfold MAX_TRANSITIONS in *. lia.
Qed.

Lemma transitions_stamp c s now : transitions (stamp c s now) = transitions c.
Proof. destruct s; simpl; repeat case_match; done. Qed.
Lemma state_stamp c s now : state (stamp c s now) = state c.
Proof. destruct s; simpl; repeat case_match; done. Qed.

Lemma push_transition_sub c t :
  Forall (λ u, u = t ∨ u ∈ transitions c) (transitions (push_transition c t)).
Proof.
  unfold push_transition. simpl. case_bool_decide; [apply Forall_drop|];
    apply Forall_forall; intros u; set_solver.
Qed.

Lemma last_push_transition c t : last (transitions (push_transition c t)) = Some t.
Proof.
  unfold push_transition. simpl. case_bool_decide; [|by rewrite last_snoc].
  rewrite last_drop; [by rewrite last_snoc|].
  rewrite length_app in *. unfold MAX_TRANSITIONS in *. simpl in *. lia.
Qed.

(** The [transition_to] method, on success. *)
Lemma transition_to_Ok c s r n1 n2 c' :
  transition_to c s r n1 n2 = (c', Ok tt) →
  can_transition_to (state c) s = true ∧
  c' = stamp (set_state s (push_transition c
    {| tr_from := state c; tr_to := s; tr_timestamp := n1; tr_reason := r |})) s n2.
Proof. unfold transition_to. destruct (can_transition_to _ _); simpl; naive_solver. Qed.

Lemma transition_to_Err c s r n1 n2 c' e :
  transition_to c s r n1 n2 = (c', Err e) → c' = c ∧ can_transition_to (state c) s = false.
Proof. unfold transition_to. destruct (can_transition_to _ _); simpl; naive_solver. Qed.

Lemma transition_to_inv c s r n1 n2 :
  job_inv c → job_inv (transition_to c s r n1 n2).1.
Proof.
  intros Hc. destruct (transition_to c s r n1 n2) as [c' [[]|e]] eqn:E; simpl;
    [|by apply transition_to_Err in E as [-> _]].
  apply transition_to_Ok in E as [Hcan ->].
  destruct Hc as [Hh (Hst & Hopen & Hcomp)].
  set (t := {| tr_from := state c; tr_to := s; tr_timestamp := n1; tr_reason := r |}).
  destruct (push_transition_history c t Hh eq_refl Hcan) as [Hlen Hpath].
  split.
  { unfold history_inv. rewrite transitions_stamp, state_stamp. done. }
  pose proof (push_transition_sub c t) as Hsub.
  assert (state c ≠ Pending → is_Some (started_at c)) as Hst1.
  { intros. apply Hst. left. split; [done|]. intros HC. rewrite HC in Hcan. by destruct s. }
  assert (Exists (λ t, tr_from t ≠ Pending) (transitions (push_transition c t)) →
          is_Some (started_at c)) as Hst2.
  { intros (u & Hin & Hne)%Exists_exists. rewrite Forall_forall in Hsub.
    apply Hsub in Hin as [->|Hin]; [by apply Hst1|].
    apply Hst. right. apply Exists_exists. eauto. }
  split_and!; unfold ever_started; rewrite ?transitions_stamp, ?state_stamp.
  - intros [[??]|Hex].
    + destruct s; simpl in *; repeat case_match; simplify_eq/=; try done; try (by eexists);
        apply Hst1; intros HP; rewrite HP in Hcan; done.
    + destruct s; simpl in *; repeat case_match; simplify_eq/=; eauto.
  - intros Ho. destruct s; simpl in *; repeat case_match; simpl;
      try (apply Hopen; destruct (state c); done || (unfold open_state; by auto));
      by destruct Ho as [?|[?|?]].
  - intros Hm. destruct s; simpl in *; repeat case_match; simpl; try done; by eexists.
Qed.

(** A history that ends in a completing state records when. *)
Lemma rfind_completion s0 l s :
  open_state s0 → history_path s0 l s → marks_completion s = true →
  is_Some (rfind (λ t, marks_completion (tr_to t)) l).
Proof.
  intros Ho Hp Hm. destruct l as [|t l _] using rev_ind.
  - simpl in Hp. subst. by destruct Ho as [?|[?|?]]; subst.
  - apply history_path_snoc_inv in Hp as (_&_&<-). rewrite rfind_snoc, Hm. by eexists.
Qed.

(** [set_state_rollback] either does nothing or undoes the newest entry. *)
Lemma set_state_rollback_cases c p :
  set_state_rollback c p = c ∨
  ∃ l t, transitions c = l ++ [t] ∧ tr_from t = p ∧ tr_to t = state c ∧
    set_state_rollback c p =
      set_completed_at
        (if marks_completion p
         then tr_timestamp <$> rfind (λ t, marks_completion (tr_to t)) l else None)
        (set_state p (set_transitions l c)).
Proof.
  unfold set_state_rollback, last_transition_matches_rollback.
  destruct (transitions c) as [|t l _] using rev_ind; [by left|].
  rewrite last_snoc. case_bool_decide as Hf; [|by left].
  case_bool_decide as Ht; [|by left]. right. exists l, t.
  simpl. rewrite length_app. simpl.
  replace (length l + 1 - 1) with (length l) by lia. rewrite take_app_length. done.
Qed.

Lemma rollback_inv c p : job_inv c → job_inv (set_state_rollback c p).
Proof.
  intros Hc. destruct (set_state_rollback_cases c p) as [->|(l&t&Hl&Hf&Ht&->)]; [done|].
  destruct Hc as [(Hlen & s0 & Ho & Hp) (Hst & _ & _)].
  rewrite Hl in Hlen, Hp. rewrite length_app in Hlen. simpl in Hlen.
  apply history_path_snoc_inv in Hp as (Hp & Hcan & _). rewrite Hf in Hp, Hcan.
  split; [split; [simpl; lia|]; by exists s0|].
  unfold stamps_inv, ever_started. simpl. split_and!.
  - intros [[??]|Hex]; apply Hst; right; rewrite Hl; apply Exists_app;
      [right; constructor; congruence|by left].
  - intros [->|[->| ->]]; done.
  - intros Hm. rewrite Hm. apply fmap_is_Some. by eapply rfind_completion.
Qed.

Lemma apply_op_inv c op : job_inv c → job_inv (apply_op c op).
Proof.
  intros Hc. destruct op; simpl; try (by apply transition_to_inv);
    try (by apply rollback_inv).
  - unfold attempt_recovery. case_bool_decide; simpl; [|done].
    pose proof (transition_to_inv (set_repair_attempts (wrap_u32 (repair_attempts c + 1)) c)
      InProgress (Some "Recovery attempt") now1 now2 Hc) as Hi.
    by destruct (transition_to _ _ _ _ _) as [? [[]|]].
  - done.
  - unfold add_tokens. by case_match.
  - done.
Qed.

Lemma job_initial_inv c : job_initial c → job_inv c.
Proof.
  intros (?&?&?&?&?&->). split.
  - split; [simpl; lia|]. exists Pending. split; [by left|done].
  - unfold stamps_inv, ever_started. simpl. split_and!; [|done..].
    intros [[]|H]; [done|]. by apply Exists_nil in H.
Qed.

Lemma job_reachable_inv c : job_reachable c → job_inv c.
Proof.
  intros (c0 & Hi & Hr). eapply rtc_invariant; [|by apply job_initial_inv|done].
  intros ?? H [op ->]. by apply apply_op_inv.
Qed.

End JobContext.
Arguments JobContext : clear implicits.
Arguments JobContext {J D}.

(** ** Properties *)

Section Properties.
Context {J : SerdeJson} {D : RustDecimal}.

(** C40. In every reachable context the history holds at most 200 entries
    and is a path of the transition table, from an open state to the
    current state, whatever transitions, rejections, rollbacks and
    recoveries happened. *)
Theorem job_history_invariant (c : JobContext) (H : job_reachable c) :
  length (transitions c) ≤ 200 ∧
  ∃ s0, open_state s0 ∧ history_path s0 (transitions c) (state c).
Proof. by destruct (job_reachable_inv c H) as [? _]. Qed.

(** In every reachable context the timestamps agree with the state: a
    job that has left [Pending] other than by cancellation has a start time,
    a completed, accepted, failed or cancelled job has a completion time,
    and a pending, running or stuck job has none. *)
Theorem job_timestamps_invariant (c : JobContext) (H : job_reachable c) :
  (state c ≠ Pending ∧ state c ≠ Cancelled → is_Some (started_at c)) ∧
  (marks_completion (state c) = true → is_Some (completed_at c)) ∧
  (open_state (state c) → completed_at c = None).
Proof.
  destruct (job_reachable_inv c H) as [_ (Hs & Ho & Hm)].
  split_and!; [|done..]. intros Hn. apply Hs. by left.
Qed.

(** The history without what the next entry pushes out: the oldest entry of a full
    one. *)
Definition kept_transitions (c : JobContext) : list StateTransition :=
  drop (length (transitions c) - 199) (transitions c).

Lemma push_transition_kept c t : push_transition c t = set_transitions (kept_transitions c ++ [t]) c.
Proof.
  unfold push_transition, kept_transitions, MAX_TRANSITIONS. cbv zeta. rewrite length_app. simpl. f_equal.
  case_bool_decide as Hb.
  - rewrite drop_app_le by lia. do 2 f_equal. lia.
  - replace (length (transitions c) - 199) with 0 by lia. done.
Qed.

(** Rolling back a transition out of an open state restores the context, except for
    what the transition pushed out of the history and for a start time it set. *)
Lemma rollback_restores (c c' : JobContext) s r n1 n2 :
  job_reachable c → open_state (state c) → transition_to c s r n1 n2 = (c', Ok tt) →
  set_state_rollback c' (state c) = set_started_at (started_at c') (set_transitions (kept_transitions c) c).
Proof.
  intros Hreach Hopen Hok. destruct (job_reachable_inv c Hreach) as [_ (_ & Hc & _)].
  specialize (Hc Hopen). apply transition_to_Ok in Hok as [Hcan ->].
  set (t := {| tr_from := state c; tr_to := s; tr_timestamp := n1; tr_reason := r |}).
  rewrite push_transition_kept. set (kept := kept_transitions c).
  destruct (set_state_rollback_cases
    (stamp (set_state s (set_transitions (kept ++ [t]) c)) s n2) (state c))
    as [Hno|(l&u&Hl&_&_&->)].
  - exfalso. apply (f_equal transitions) in Hno. revert Hno.
    unfold set_state_rollback, last_transition_matches_rollback.
    rewrite transitions_stamp, state_stamp. cbn [transitions set_state set_transitions].
    rewrite last_snoc. cbn [state]. rewrite !bool_decide_true by done. cbn.
    intros E%(f_equal length). rewrite length_take, length_app in E. simpl in E. lia.
  - rewrite transitions_stamp in Hl. cbn in Hl. apply app_inj_tail in Hl as [<- <-].
    assert (marks_completion (state c) = false) as ->
      by (by destruct Hopen as [->|[->| ->]]).
    clearbody kept. destruct c; destruct s; simpl in *; subst; repeat case_match; done.
Qed.

(** Rolling back a transition out of an open state restores the context
    exactly as it was, except that a start time set by the transition
    stays, as long as the history was not at its cap. *)
Theorem rollback_undoes_transition (c c' : JobContext) s r n1 n2
    (Hreach : job_reachable c) (Hopen : open_state (state c))
    (Hlen : length (transitions c) < 200)
    (Hok : transition_to c s r n1 n2 = (c', Ok tt)) :
  set_state_rollback c' (state c) = set_started_at (started_at c') c.
Proof.
  rewrite (rollback_restores _ _ _ _ _ _ Hreach Hopen Hok). f_equal. unfold kept_transitions.
  replace (length (transitions c) - 199) with 0 by lia. by destruct c.
Qed.

(** Rolling back a transition out of [Submitted] does not restore the
    context: the completion time recorded when the job completed is
    discarded. *)
Theorem rollback_to_submitted_drops_completion (c c' : JobContext) s r n1 n2 t0
    (Hst : state c = Submitted) (Hdone : completed_at c = Some t0)
    (Hok : transition_to c s r n1 n2 = (c', Ok tt)) :
  state (set_state_rollback c' Submitted) = Submitted ∧
  completed_at (set_state_rollback c' Submitted) = None.
Proof.
  apply transition_to_Ok in Hok as [Hcan ->]. rewrite Hst in *.
  unfold set_state_rollback, last_transition_matches_rollback.
  rewrite transitions_stamp, state_stamp. cbn [transitions set_state state].
  rewrite last_push_transition. cbn [tr_from tr_to]. by rewrite !bool_decide_true.
Qed.

(** [attempt_recovery] succeeds exactly on stuck jobs: it returns them
    to [InProgress], counts the attempt, appends one history entry and, on a
    reachable job, keeps the original start time.  On every other job it
    fails with [NotStuck] and changes nothing.  The [InvariantViolation]
    error cannot occur. *)
Theorem attempt_recovery_spec (c : JobContext) n1 n2 :
  match attempt_recovery c n1 n2 with
  | (c', Ok tt) =>
      state c = Stuck ∧ state c' = InProgress ∧
      repair_attempts c' = wrap_u32 (repair_attempts c + 1) ∧
      (tr_to <$> last (transitions c')) = Some InProgress ∧
      (job_reachable c → started_at c' = started_at c ∧ completed_at c' = None)
  | (c', Err e) => state c ≠ Stuck ∧ e = NotStuck ∧ c' = c
  end.
Proof.
  unfold attempt_recovery. case_bool_decide as Hs; cbn [negb]; [|done].
  unfold transition_to. cbn [state set_repair_attempts]. rewrite Hs.
  cbn [can_transition_to negb].
  split_and!; [done|by rewrite state_stamp| | |].
  - simpl. by case_match.
  - rewrite transitions_stamp. cbn [transitions set_state]. by rewrite last_push_transition.
  - intros Hr. destruct (job_reachable_inv c Hr) as [_ (Hst&Hc&_)].
    destruct Hst as [x Hx]; [left; by rewrite Hs|]. simpl. rewrite Hx. simpl. split; [done|].
    apply Hc. rewrite Hs. by right; right.
Qed.

End Properties.

(** A state is terminal exactly when the table has no edge out of it. *)
Lemma is_terminal_iff s : is_terminal s = true ↔ ∀ s', can_transition_to s s' = false.
Proof.
  split; [by intros; destruct s, s'|].
  intros H. destruct s; try done;
    [discriminate (H InProgress)|discriminate (H Completed)|discriminate (H Submitted)
    |discriminate (H Accepted)|discriminate (H Failed)].
Qed.

Lemma job_state_display_from_str s : job_state_from_str (job_state_display s) = Ok s.
Proof. by destruct s. Qed.

Lemma job_state_from_str_display str s :
  job_state_from_str str = Ok s → str = job_state_display s.
Proof.
  unfold job_state_from_str. intros H.
  repeat (case_bool_decide; [by simplify_eq/=|]). done.
Qed.

(** ** Witnesses *)

Definition demo_job : @JobContext json_lite dec_cents :=
  with_user 1 0 "default" "title" "description".

(** [demo_job] driven through a list of operations. *)
Definition demo_run (ops : list (@JobOp dec_cents)) : @JobContext json_lite dec_cents :=
  foldl apply_op demo_job ops.

Lemma demo_run_reachable ops : job_reachable (demo_run ops).
Proof.
  exists demo_job. split; [by repeat eexists|]. apply rtc_foldl.
Qed.

Definition demo_started := demo_run [OpTransition InProgress None 1%Z 2%Z].
Definition demo_submitted := demo_run
  [OpTransition InProgress None 1%Z 2%Z; OpTransition Completed None 3%Z 4%Z;
   OpTransition Submitted None 5%Z 6%Z].

Lemma job_history_invariant_witness :
  job_reachable demo_submitted ∧
  length (transitions demo_submitted) ≤ 200 ∧
  ∃ s0, open_state s0 ∧ history_path s0 (transitions demo_submitted) (state demo_submitted).
Proof.
  split; [apply demo_run_reachable|].
  apply job_history_invariant. apply demo_run_reachable.
Defined.

Lemma job_timestamps_invariant_witness :
  job_reachable demo_started ∧ state demo_started = InProgress ∧
  is_Some (started_at demo_started) ∧ completed_at demo_started = None.
Proof.
  split; [apply demo_run_reachable|].
  destruct (job_timestamps_invariant demo_started (demo_run_reachable _)) as (H1 & _ & H3).
  split; [reflexivity|]. split; [apply H1; split; discriminate|].
  apply H3. right; left; reflexivity.
Defined.

Lemma rollback_undoes_transition_witness :
  set_state_rollback (transition_to demo_started Failed None 7%Z 8%Z).1 InProgress
  = demo_started.
Proof.
  apply (rollback_undoes_transition demo_started
           (transition_to demo_started Failed None 7%Z 8%Z).1 Failed None 7%Z 8%Z).
  - apply demo_run_reachable.
  - right; left; reflexivity.
  - vm_compute; lia.
  - reflexivity.
Defined.

Lemma rollback_to_submitted_drops_completion_witness :
  completed_at demo_submitted = Some 4%Z ∧
  completed_at (set_state_rollback
    (transition_to demo_submitted Accepted None 7%Z 8%Z).1 Submitted) = None.
Proof.
  split; [reflexivity|].
  apply (rollback_to_submitted_drops_completion demo_submitted
           (transition_to demo_submitted Accepted None 7%Z 8%Z).1
           Accepted None 7%Z 8%Z 4%Z); reflexivity.
Defined.
