(* ===== verification/Session.v ===== *)
(** * Sessions, threads and turns

    Models [src/src/agent/session/turn.rs] (a turn and its tool-call
    records), [src/src/agent/session/thread.rs] (a thread, the messages it
    sends to the model and its life cycle), [src/src/agent/session/restore.rs]
    (rebuilding turns from checkpoint messages) and
    [src/src/agent/session.rs] (the session and its active thread). *)

From S2P Require Import Prelude Externals Text LlmTypes.

(** ** Turns *)

Inductive TurnState := TurnProcessing | TurnCompleted | TurnFailed | TurnInterrupted.

Inductive ToolCallIndexError := OutOfBounds (idx len : nat).

Section Turn.
Context {J : SerdeJson}.

Record TurnToolCall := {
  ttc_name : string;
  ttc_parameters : json;
  ttc_result : option json;
  ttc_error : option string;
}.

Record Turn := {
  turn_number : nat;
  user_input : string;
  response : option string;
  turn_tool_calls : list TurnToolCall;
  turn_state : TurnState;
  turn_started_at : Utc;
  turn_completed_at : option Utc;
  turn_error : option string;
  image_content_parts : list ContentPart;
}.

Definition turn_new (n : nat) (input : string) (now : Utc) : Turn := {|
  turn_number := n; user_input := input; response := None; turn_tool_calls := [];
  turn_state := TurnProcessing; turn_started_at := now; turn_completed_at := None;
  turn_error := None; image_content_parts := [] |}.

Definition set_turn_number (n : nat) (t : Turn) : Turn := {|
  turn_number := n; user_input := user_input t; response := response t;
  turn_tool_calls := turn_tool_calls t; turn_state := turn_state t;
  turn_started_at := turn_started_at t; turn_completed_at := turn_completed_at t;
  turn_error := turn_error t; image_content_parts := image_content_parts t |}.

Definition set_tool_calls (l : list TurnToolCall) (t : Turn) : Turn := {|
  turn_number := turn_number t; user_input := user_input t; response := response t;
  turn_tool_calls := l; turn_state := turn_state t;
  turn_started_at := turn_started_at t; turn_completed_at := turn_completed_at t;
  turn_error := turn_error t; image_content_parts := image_content_parts t |}.

Definition turn_complete (t : Turn) (resp : string) (now : Utc) : Turn := {|
  turn_number := turn_number t; user_input := user_input t; response := Some resp;
  turn_tool_calls := turn_tool_calls t; turn_state := TurnCompleted;
  turn_started_at := turn_started_at t; turn_completed_at := Some now;
  turn_error := turn_error t; image_content_parts := [] |}.

Definition turn_fail (t : Turn) (err : string) (now : Utc) : Turn := {|
  turn_number := turn_number t; user_input := user_input t; response := response t;
  turn_tool_calls := turn_tool_calls t; turn_state := TurnFailed;
  turn_started_at := turn_started_at t; turn_completed_at := Some now;
  turn_error := Some err; image_content_parts := [] |}.

Definition turn_interrupt (t : Turn) (now : Utc) : Turn := {|
  turn_number := turn_number t; user_input := user_input t; response := response t;
  turn_tool_calls := turn_tool_calls t; turn_state := TurnInterrupted;
  turn_started_at := turn_started_at t; turn_completed_at := Some now;
  turn_error := turn_error t; image_content_parts := [] |}.

(** [last_mut()] followed by an assignment. *)
Definition alter_last {A} (f : A → A) (l : list A) : list A :=
  match last l with
  | Some x => take (length l - 1) l ++ [f x]
  | None => l
  end.

Definition set_result (r : option json) (c : TurnToolCall) : TurnToolCall := {|
  ttc_name := ttc_name c; ttc_parameters := ttc_parameters c;
  ttc_result := r; ttc_error := ttc_error c |}.

Definition set_error (e : option string) (c : TurnToolCall) : TurnToolCall := {|
  ttc_name := ttc_name c; ttc_parameters := ttc_parameters c;
  ttc_result := ttc_result c; ttc_error := e |}.

Definition set_tool_outcome_at (t : Turn) (idx : nat) (r : option json)
    (e : option string) : Turn * result unit ToolCallIndexError :=
  match turn_tool_calls t !! idx with
  | None => (t, Err (OutOfBounds idx (length (turn_tool_calls t))))
  | Some c =>
      (set_tool_calls (<[idx := set_error e (set_result r c)]> (turn_tool_calls t)) t, Ok tt)
  end.

Definition record_tool_call (t : Turn) (nm : string) (params : json) : Turn :=
  set_tool_calls (turn_tool_calls t ++ [{| ttc_name := nm; ttc_parameters := params;
                                 ttc_result := None; ttc_error := None |}]) t.

Definition record_tool_result (t : Turn) (r : json) : Turn :=
  set_tool_calls (alter_last (set_result (Some r)) (turn_tool_calls t)) t.

Definition record_tool_result_at (t : Turn) (idx : nat) (r : json) :
    Turn * result unit ToolCallIndexError :=
  set_tool_outcome_at t idx (Some r) None.

(** The first byte of the trimmed text decides whether it is parsed. *)
Definition parse_tool_result (result_content : string) : json :=
  match trim_start result_content with
  | String c _ =>
      if bool_decide (c = byte 123) || bool_decide (c = byte 91)
      then default (JString result_content) (json_from_str result_content)
      else JString result_content
  | "" => JString result_content
  end.

Definition record_tool_result_content (t : Turn) (result_content : string) : Turn :=
  record_tool_result t (parse_tool_result result_content).

Definition record_tool_result_content_at (t : Turn) (idx : nat) (result_content : string) :
    Turn * result unit ToolCallIndexError :=
  record_tool_result_at t idx (parse_tool_result result_content).

Definition record_tool_error (t : Turn) (e : string) : Turn :=
  set_tool_calls (alter_last (set_error (Some e)) (turn_tool_calls t)) t.

Definition record_tool_error_at (t : Turn) (idx : nat) (e : string) :
    Turn * result unit ToolCallIndexError :=
  set_tool_outcome_at t idx None (Some e).
End Turn.
Arguments TurnToolCall : clear implicits.
Arguments TurnToolCall {J}.
Arguments Turn : clear implicits.
Arguments Turn {J}.

(** ** Threads *)

Inductive ThreadState := Idle | Processing | AwaitingApproval | ThreadCompleted | Interrupted.

#[export] Instance ThreadState_eq_dec : EqDecision ThreadState.
Proof. solve_decision. Defined.

Record PendingAuth := { extension_name : string }.

Section Thread.
Context {J : SerdeJson}.

Record PendingApproval := {
  pa_request_id : Uuid;
  pa_tool_name : string;
  pa_parameters : json;
  pa_display_parameters : json;
  pa_description : string;
  pa_tool_call_id : string;
  pa_context_messages : list ChatMessage;
  pa_deferred_tool_calls : list ToolCall;
  pa_user_timezone : option string;
}.

Record Thread := {
  th_id : Uuid;
  th_session_id : Uuid;
  th_state : ThreadState;
  turns : list Turn;
  th_created_at : Utc;
  th_updated_at : Utc;
  th_metadata : json;
  pending_approval : option PendingApproval;
  pending_auth : option PendingAuth;
  in_flight_auth : bool;
}.

(** Assignment of the fields the methods change. *)
Definition th_update (t : Thread) (st : ThreadState) (ts : list Turn)
    (pa : option PendingApproval) (au : option PendingAuth) (now : Utc) : Thread := {|
  th_id := th_id t; th_session_id := th_session_id t; th_state := st; turns := ts;
  th_created_at := th_created_at t; th_updated_at := now; th_metadata := th_metadata t;
  pending_approval := pa; pending_auth := au; in_flight_auth := in_flight_auth t |}.

Definition thread_init (session_id thread_id : Uuid) (now : Utc) : Thread := {|
  th_id := thread_id; th_session_id := session_id; th_state := Idle; turns := [];
  th_created_at := now; th_updated_at := now; th_metadata := JNull;
  pending_approval := None; pending_auth := None; in_flight_auth := false |}.

Definition thread_new (session_id fresh : Uuid) (now : Utc) : Thread :=
  thread_init session_id fresh now.

Definition thread_with_id (id session_id : Uuid) (now : Utc) : Thread :=
  thread_init session_id id now.

Definition thread_turn_number (t : Thread) : nat := length (turns t) + 1.

Definition start_turn (t : Thread) (input : string) (now1 now2 : Utc) : Thread :=
  th_update t Processing (turns t ++ [turn_new (length (turns t)) input now1])
    (pending_approval t) (pending_auth t) now2.

Definition complete_turn (t : Thread) (resp : string) (now1 now2 : Utc) : Thread :=
  th_update t Idle (alter_last (λ tn, turn_complete tn resp now1) (turns t))
    (pending_approval t) (pending_auth t) now2.

Definition fail_turn (t : Thread) (err : string) (now1 now2 : Utc) : Thread :=
  th_update t Idle (alter_last (λ tn, turn_fail tn err now1) (turns t))
    (pending_approval t) (pending_auth t) now2.

Definition await_approval (t : Thread) (pending : PendingApproval) (now : Utc) : Thread :=
  th_update t AwaitingApproval (turns t) (Some pending) (pending_auth t) now.

Definition take_pending_approval (t : Thread) : Thread * option PendingApproval :=
  (th_update t (th_state t) (turns t) None (pending_auth t) (th_updated_at t),
   pending_approval t).

Definition clear_pending_approval (t : Thread) (now : Utc) : Thread :=
  th_update t Idle (turns t) None (pending_auth t) now.

Definition enter_auth_mode (t : Thread) (ext : string) (now : Utc) : Thread :=
  th_update t (th_state t) (turns t) (pending_approval t)
    (Some {| extension_name := ext |}) now.

Definition take_pending_auth (t : Thread) : Thread * option PendingAuth :=
  (th_update t (th_state t) (turns t) (pending_approval t) None (th_updated_at t),
   pending_auth t).

Definition thread_interrupt (t : Thread) (now1 now2 : Utc) : Thread :=
  th_update t Interrupted (alter_last (λ tn, turn_interrupt tn now1) (turns t))
    (pending_approval t) (pending_auth t) now2.

Definition thread_resume (t : Thread) (now : Utc) : Thread :=
  if bool_decide (th_state t = Interrupted)
  then th_update t Idle (turns t) (pending_approval t) (pending_auth t) now
  else t.

Definition truncate_turns (t : Thread) (keep : nat) : Thread :=
  if bool_decide (keep < length (turns t)) then
    let ts := drop (length (turns t) - keep) (turns t) in
    th_update t (th_state t) (imap set_turn_number ts)
      (pending_approval t) (pending_auth t) (th_updated_at t)
  else t.

(** *** Messages for the model *)

Definition turn_user_message (tn : Turn) : ChatMessage :=
  match image_content_parts tn with
  | [] => msg_user (user_input tn)
  | parts => user_with_parts (user_input tn) parts
  end.

Definition turn_call_id (tn : Turn) (index : nat) : string :=
  "turn" +:+ pretty (turn_number tn) +:+ "_" +:+ pretty index.

Definition tool_result_content (tc : TurnToolCall) : string :=
  match ttc_error tc with
  | Some err => truncate_preview err 1000
  | None =>
      match ttc_result tc with
      | Some res => truncate_preview (default (json_to_string res) (json_as_string res)) 1000
      | None => "OK"
      end
  end.

Definition append_tool_call_messages (messages : list ChatMessage) (tn : Turn) :
    list ChatMessage :=
  match turn_tool_calls tn with
  | [] => messages
  | tcs =>
      messages
      ++ [assistant_with_tool_calls None
            (imap (λ i tc, {| tc_id := turn_call_id tn i; tc_name := ttc_name tc;
                              tc_arguments := ttc_parameters tc |}) tcs)]
      ++ imap (λ i tc, tool_result (turn_call_id tn i) (ttc_name tc)
                         (tool_result_content tc)) tcs
  end.

(** The loop body of [messages]. *)
Definition push_turn_messages (messages : list ChatMessage) (tn : Turn) : list ChatMessage :=
  let messages := messages ++ [turn_user_message tn] in
  let messages := append_tool_call_messages messages tn in
  match response tn with
  | Some resp => messages ++ [msg_assistant resp]
  | None => messages
  end.

Definition thread_messages (t : Thread) : list ChatMessage :=
  foldl push_turn_messages [] (turns t).

(** *** Restoring from messages

    The peekable iterator is the list of messages not yet consumed. *)

Definition next_opens_tool_call_round (iter : list ChatMessage) : bool :=
  match iter with
  | next :: _ => bool_decide (role next = Assistant) && bool_decide (is_Some (tool_calls next))
  | [] => false
  end.

Definition record_round_tool_calls (iter : list ChatMessage) (tn : Turn) :
    list ChatMessage * Turn :=
  match iter with
  | assistant_msg :: rest =>
      match tool_calls assistant_msg with
      | Some tcs =>
          (rest, foldl (λ tn tc, record_tool_call tn (tc_name tc) (tc_arguments tc)) tn tcs)
      | None => (rest, tn)
      end
  | [] => ([], tn)
  end.

(** The guard makes the index in range, so the store cannot panic. *)
Definition restore_tool_result (tn : Turn) (idx : nat) (tool_msg : ChatMessage) : Turn :=
  if bool_decide (length (turn_tool_calls tn) ≤ idx) then tn
  else set_tool_calls
    (alter (set_result (Some (JString (content tool_msg)))) idx (turn_tool_calls tn)) tn.

(** [idx] is [call_base_idx + pos]. *)
Fixpoint consume_tool_results (iter : list ChatMessage) (tn : Turn) (idx : nat) :
    list ChatMessage * Turn :=
  match iter with
  | tr :: rest =>
      if bool_decide (role tr = Tool)
      then consume_tool_results rest (restore_tool_result tn idx tr) (S idx)
      else (iter, tn)
  | [] => ([], tn)
  end.

Fixpoint consume_tool_call_rounds_fuel (fuel : nat) (iter : list ChatMessage) (tn : Turn) :
    list ChatMessage * Turn :=
  match fuel with
  | 0 => (iter, tn)
  | S fuel =>
      if next_opens_tool_call_round iter then
        let call_base_idx := length (turn_tool_calls tn) in
        let '(iter, tn) := record_round_tool_calls iter tn in
        let '(iter, tn) := consume_tool_results iter tn call_base_idx in
        consume_tool_call_rounds_fuel fuel iter tn
      else (iter, tn)
  end.

(** Every round consumes a message. *)
Definition consume_tool_call_rounds (iter : list ChatMessage) (tn : Turn) :
    list ChatMessage * Turn :=
  consume_tool_call_rounds_fuel (length iter) iter tn.

Definition consume_final_response (iter : list ChatMessage) (tn : Turn) (now : Utc) :
    list ChatMessage * Turn :=
  match iter with
  | n :: rest =>
      if bool_decide (role n = Assistant) && bool_decide (tool_calls n = None)
      then (rest, turn_complete tn (content n) now)
      else (iter, tn)
  | [] => ([], tn)
  end.

(** [clock n] are the readings taken when the [n]-th turn is created and
    when it is completed. *)
Fixpoint restore_turns_fuel (fuel : nat) (clock : nat → Utc * Utc)
    (iter : list ChatMessage) (n : nat) : list Turn :=
  match fuel, iter with
  | S fuel, msg :: iter =>
      if bool_decide (role msg ≠ User) then restore_turns_fuel fuel clock iter n
      else
        let tn := turn_new n (content msg) (clock n).1 in
        let '(iter, tn) := consume_tool_call_rounds iter tn in
        let '(iter, tn) := consume_final_response iter tn (clock n).2 in
        tn :: restore_turns_fuel fuel clock iter (S n)
  | _, _ => []
  end.

Definition restore_from_messages (t : Thread) (messages : list ChatMessage)
    (clock : nat → Utc * Utc) (now : Utc) : Thread :=
  th_update t Idle (restore_turns_fuel (length messages) clock messages 0)
    (pending_approval t) (pending_auth t) now.

(** *** The loops terminate with the fuel they are given *)

Lemma consume_tool_results_length iter tn idx :
  length (consume_tool_results iter tn idx).1 ≤ length iter.
Proof.
  revert tn idx. induction iter as [|m iter IH]; intros tn idx; simpl; [done|].
  case_bool_decide; simpl; [|lia]. etrans; [apply IH|lia].
Qed.

Lemma record_round_length iter tn :
  iter ≠ [] → length (record_round_tool_calls iter tn).1 < length iter.
Proof. destruct iter; [done|]. intros _. simpl. case_match; simpl; lia. Qed.

Lemma next_opens_nonempty iter : next_opens_tool_call_round iter = true → iter ≠ [].
Proof. by destruct iter. Qed.

Lemma consume_rounds_fuel_spec fuel iter tn :
  length iter ≤ fuel →
  length (consume_tool_call_rounds_fuel fuel iter tn).1 ≤ length iter ∧
  next_opens_tool_call_round (consume_tool_call_rounds_fuel fuel iter tn).1 = false.
Proof.
  revert iter tn. induction fuel as [|fuel IH]; intros iter tn Hl.
  { destruct iter; [done|simpl in Hl; lia]. }
  cbn [consume_tool_call_rounds_fuel].
  destruct (next_opens_tool_call_round iter) eqn:E; [|done].
  pose proof (record_round_length iter tn (next_opens_nonempty _ E)) as H1.
  destruct (record_round_tool_calls iter tn) as [i1 t1].
  pose proof (consume_tool_results_length i1 t1 (length (turn_tool_calls tn))) as H2.
  destruct (consume_tool_results i1 t1 _) as [i2 t2]. simpl in *.
  destruct (IH i2 t2) as [H3 H4]; [lia|]. split; [lia|done].
Qed.

Lemma consume_final_length iter tn now :
  length (consume_final_response iter tn now).1 ≤ length iter.
Proof. destruct iter; simpl; [done|]. case_match; simpl; lia. Qed.

Lemma restore_turns_fuel_enough fuel1 fuel2 clock iter n :
  length iter ≤ fuel1 → length iter ≤ fuel2 →
  restore_turns_fuel fuel1 clock iter n = restore_turns_fuel fuel2 clock iter n.
Proof.
  revert fuel2 iter n. induction fuel1 as [|f1 IH]; intros f2 iter n H1 H2.
  { destruct iter; [by destruct f2|simpl in H1; lia]. }
  destruct iter as [|m iter]; [by destruct f2|]. destruct f2 as [|f2]; [simpl in H2; lia|].
  simpl in *. case_bool_decide; [apply IH; lia|].
  unfold consume_tool_call_rounds.
  destruct (consume_rounds_fuel_spec (length iter) iter
    (turn_new n (content m) (clock n).1)) as [H3 _]; [done|].
  destruct (consume_tool_call_rounds_fuel _ _ _) as [i1 t1].
  pose proof (consume_final_length i1 t1 (clock n).2) as H4.
  destruct (consume_final_response i1 t1 (clock n).2) as [i2 t2]. simpl in *.
  f_equal. apply IH; lia.
Qed.

(** *** Messages, turn by turn *)

(** The messages of one turn. *)
Definition turn_block (tn : Turn) : list ChatMessage := push_turn_messages [] tn.

Lemma append_tool_call_messages_app ms tn :
  append_tool_call_messages ms tn = ms ++ append_tool_call_messages [] tn.
Proof. unfold append_tool_call_messages. case_match; [by rewrite app_nil_r|done]. Qed.

Lemma push_turn_messages_app ms tn : push_turn_messages ms tn = ms ++ turn_block tn.
Proof.
  unfold turn_block, push_turn_messages. cbv zeta.
  rewrite (append_tool_call_messages_app (ms ++ _)),
    (append_tool_call_messages_app ([] ++ _)).
  case_match; rewrite <-?(assoc_L (++)); done.
Qed.

Lemma thread_messages_concat t : thread_messages t = mjoin (turn_block <$> turns t).
Proof.
  unfold thread_messages. rewrite <-(app_nil_l (mjoin _)).
  generalize (@nil ChatMessage) as acc. induction (turns t) as [|tn l IH]; intros acc; simpl.
  - by rewrite app_nil_r.
  - by rewrite IH, push_turn_messages_app, <-(assoc_L (++)).
Qed.

(** What restoring makes of a recorded call and of a turn. *)
Definition blank_call (tc : TurnToolCall) : TurnToolCall := {|
  ttc_name := ttc_name tc; ttc_parameters := ttc_parameters tc;
  ttc_result := None; ttc_error := None |}.

Definition restored_call (tc : TurnToolCall) : TurnToolCall := {|
  ttc_name := ttc_name tc; ttc_parameters := ttc_parameters tc;
  ttc_result := Some (JString (tool_result_content tc)); ttc_error := None |}.

Definition restored_turn (n : nat) (c : Utc * Utc) (tn : Turn) : Turn :=
  let t := set_tool_calls (restored_call <$> turn_tool_calls tn)
             (turn_new n (user_input tn) c.1) in
  match response tn with Some r => turn_complete t r c.2 | None => t end.

(** Neither a tool result nor a tool-call round: where a turn's tool
    messages end. *)
Definition ends_tools (rest : list ChatMessage) : Prop :=
  match rest with
  | [] => True
  | m :: _ => role m ≠ Tool ∧ (role m = Assistant → tool_calls m = None)
  end.

Lemma ends_tools_no_round rest : ends_tools rest → next_opens_tool_call_round rest = false.
Proof.
  destruct rest as [|m rest]; simpl; [done|]. intros [_ H].
  case_bool_decide; [|done]. rewrite H by done. done.
Qed.

Lemma record_calls_fold (f : nat → TurnToolCall → string) tcs tn k :
  foldl (λ tn tc, record_tool_call tn (tc_name tc) (tc_arguments tc)) tn
    (imap (λ i tc, {| tc_id := f (k + i) tc; tc_name := ttc_name tc;
                      tc_arguments := ttc_parameters tc |}) tcs)
  = set_tool_calls (turn_tool_calls tn ++ (blank_call <$> tcs)) tn.
Proof.
  revert tn k. induction tcs as [|tc tcs IH]; intros tn k; simpl.
  - rewrite app_nil_r. by destruct tn.
  - unfold compose. erewrite imap_ext; [rewrite (IH _ (S k))|].
    + simpl. by rewrite <-(assoc_L (++)).
    + intros i x _. simpl. by rewrite Nat.add_succ_r.
Qed.

Lemma consume_results_block ms done todo tn rest :
  Forall2 (λ m tc, role m = Tool ∧ content m = tool_result_content tc) ms todo →
  ends_tools rest →
  turn_tool_calls tn = done ++ (blank_call <$> todo) →
  consume_tool_results (ms ++ rest) tn (length done) =
    (rest, set_tool_calls (done ++ (restored_call <$> todo)) tn).
Proof.
  intros HF Hr. revert done tn. induction HF as [|m tc ms todo [Hm Hc] HF IH]; intros dn tn Ht.
  - simpl in Ht |- *. rewrite app_nil_r in Ht |- *. rewrite <-Ht.
    replace (set_tool_calls (turn_tool_calls tn) tn) with tn by (by destruct tn).
    destruct rest as [|r rest]; [done|]. simpl in *. destruct Hr as [Hr _].
    by rewrite bool_decide_false.
  - simpl. rewrite bool_decide_true by done.
    assert (restore_tool_result tn (length dn) m =
            set_tool_calls (dn ++ restored_call tc :: (blank_call <$> todo)) tn) as ->.
    { unfold restore_tool_result. rewrite Ht. rewrite bool_decide_false.
      - f_equal. rewrite alter_app_r_alt by lia.
        rewrite Nat.sub_diag. cbn [fmap list_fmap alter list_alter]. unfold set_result. simpl.
        by rewrite Hc.
      - rewrite length_app. simpl. lia. }
    replace (S (length dn)) with (length (dn ++ [restored_call tc]))
      by (rewrite length_app; simpl; lia).
    rewrite IH by (simpl; by rewrite <-(assoc_L (++))).
    simpl. by rewrite <-(assoc_L (++)).
Qed.

Lemma consume_rounds_none fuel iter tn :
  next_opens_tool_call_round iter = false →
  consume_tool_call_rounds_fuel fuel iter tn = (iter, tn).
Proof. intros H. destruct fuel; simpl; [done|]. by rewrite H. Qed.

Lemma record_round_assistant c calls rest tn :
  record_round_tool_calls (assistant_with_tool_calls c calls :: rest) tn =
  (rest, foldl (λ tn tc, record_tool_call tn (tc_name tc) (tc_arguments tc)) tn calls).
Proof. by destruct calls. Qed.

(** The tool messages of a turn are consumed exactly and its calls
    rebuilt. *)
Lemma consume_rounds_block tn rest n now :
  ends_tools rest →
  consume_tool_call_rounds (append_tool_call_messages [] tn ++ rest)
    (turn_new n (user_input tn) now) =
  (rest, set_tool_calls (restored_call <$> turn_tool_calls tn) (turn_new n (user_input tn) now)).
Proof.
  intros Hrest. unfold consume_tool_call_rounds, append_tool_call_messages.
  destruct (turn_tool_calls tn) as [|tc tcs] eqn:Etcs.
  { rewrite consume_rounds_none; [done|]. by apply ends_tools_no_round. }
  rewrite app_nil_l, <-(assoc_L (++)). cbn [app length consume_tool_call_rounds_fuel].
  replace (next_opens_tool_call_round _) with true by done.
  rewrite record_round_assistant.
  rewrite (record_calls_fold (λ i _, turn_call_id tn i) (tc :: tcs) _ 0).
  cbn [turn_tool_calls turn_new app length].
  rewrite (consume_results_block _ [] (tc :: tcs)).
  - by rewrite consume_rounds_none by (by apply ends_tools_no_round).
  - apply Forall2_same_length_lookup. split.
    + by rewrite length_imap.
    + intros i m x Hm Hx. rewrite list_lookup_imap, Hx in Hm. by simplify_eq/=.
  - done.
  - done.
Qed.

(** The end of the list or the user message of the next turn. *)
Definition starts_turn (rest : list ChatMessage) : Prop :=
  match rest with [] => True | m :: _ => role m = User end.

Lemma consume_response_block tn rest t now :
  starts_turn rest →
  consume_final_response
    (match response tn with Some r => [msg_assistant r] | None => [] end ++ rest) t now =
  (rest, match response tn with Some r => turn_complete t r now | None => t end).
Proof.
  intros Hr. destruct (response tn) as [r|]; simpl; [done|].
  destruct rest as [|m rest]; simpl in *; [done|]. by rewrite Hr.
Qed.

Lemma turn_block_unfold tn :
  turn_block tn = turn_user_message tn :: append_tool_call_messages [] tn
    ++ match response tn with Some r => [msg_assistant r] | None => [] end.
Proof.
  unfold turn_block, push_turn_messages. cbv zeta. rewrite append_tool_call_messages_app.
  destruct (response tn); simpl; [done|by rewrite app_nil_r].
Qed.

Lemma turn_user_message_user tn :
  role (turn_user_message tn) = User ∧ content (turn_user_message tn) = user_input tn.
Proof. unfold turn_user_message. by case_match. Qed.

Lemma restore_turns_blocks fuel clock ts n :
  length (mjoin (turn_block <$> ts)) ≤ fuel →
  restore_turns_fuel fuel clock (mjoin (turn_block <$> ts)) n =
  imap (λ i tn, restored_turn (n + i) (clock (n + i)) tn) ts.
Proof.
  revert fuel n. induction ts as [|tn ts IH]; intros fuel n Hf; [by destruct fuel|].
  cbn [fmap list_fmap mjoin list_join] in Hf |- *.
  rewrite turn_block_unfold in Hf |- *. rewrite <-app_comm_cons in Hf |- *.
  rewrite <-(assoc_L (++)) in Hf |- *. destruct fuel as [|fuel]; [simpl in Hf; lia|].
  destruct (turn_user_message_user tn) as [Hr Hc].
  cbn [restore_turns_fuel length] in Hf |- *. rewrite bool_decide_false by (rewrite Hr; by intros []).
  assert (starts_turn (mjoin (turn_block <$> ts))) as Hst.
  { destruct ts as [|t2 ts]; [done|]. simpl. rewrite turn_block_unfold. simpl.
    apply turn_user_message_user. }
  rewrite Hc, consume_rounds_block, consume_response_block by
    (done || (destruct (response tn); simpl; [by split|]; revert Hst;
              destruct (mjoin _); simpl; [done|]; intros ->; by split)).
  cbn [imap]. rewrite Nat.add_0_r. f_equal.
  rewrite IH; [|rewrite !length_app in Hf; apply le_S_n in Hf; etrans; [|exact Hf];
    etrans; [|apply Nat.le_add_l]; etrans; [|apply Nat.le_add_l]; reflexivity].
  apply imap_ext. intros i x _. simpl.
  by rewrite Nat.add_succ_r.
Qed.

Lemma turns_restore t ts clock now :
  turns (restore_from_messages t (mjoin (turn_block <$> ts)) clock now) =
  imap (λ i tn, restored_turn i (clock i) tn) ts.
Proof. simpl. rewrite restore_turns_blocks by done. done. Qed.

(** *** The thread as a state machine *)

(** What callers do to the current turn through [last_turn_mut]. *)
Inductive TurnOp :=
| TRecordCall (nm : string) (params : json)
| TRecordResult (r : json)
| TRecordResultAt (idx : nat) (r : json)
| TRecordContent (c : string)
| TRecordContentAt (idx : nat) (c : string)
| TRecordError (e : string)
| TRecordErrorAt (idx : nat) (e : string).

Definition apply_turn_op (op : TurnOp) (tn : Turn) : Turn :=
  match op with
  | TRecordCall nm p => record_tool_call tn nm p
  | TRecordResult r => record_tool_result tn r
  | TRecordResultAt i r => (record_tool_result_at tn i r).1
  | TRecordContent c => record_tool_result_content tn c
  | TRecordContentAt i c => (record_tool_result_content_at tn i c).1
  | TRecordError e => record_tool_error tn e
  | TRecordErrorAt i e => (record_tool_error_at tn i e).1
  end.

Inductive ThreadOp :=
| TStart (input : string) (now1 now2 : Utc)
| TComplete (resp : string) (now1 now2 : Utc)
| TFail (err : string) (now1 now2 : Utc)
| TAwait (pending : PendingApproval) (now : Utc)
| TTakeApproval
| TClearApproval (now : Utc)
| TEnterAuth (ext : string) (now : Utc)
| TTakeAuth
| TInterrupt (now1 now2 : Utc)
| TResume (now : Utc)
| TTruncate (keep : nat)
| TRestore (messages : list ChatMessage) (clock : nat → Utc * Utc) (now : Utc)
| TLastTurn (op : TurnOp).

Definition apply_thread_op (t : Thread) (op : ThreadOp) : Thread :=
  match op with
  | TStart i n1 n2 => start_turn t i n1 n2
  | TComplete r n1 n2 => complete_turn t r n1 n2
  | TFail e n1 n2 => fail_turn t e n1 n2
  | TAwait p n => await_approval t p n
  | TTakeApproval => (take_pending_approval t).1
  | TClearApproval n => clear_pending_approval t n
  | TEnterAuth e n => enter_auth_mode t e n
  | TTakeAuth => (take_pending_auth t).1
  | TInterrupt n1 n2 => thread_interrupt t n1 n2
  | TResume n => thread_resume t n
  | TTruncate k => truncate_turns t k
  | TRestore ms clk n => restore_from_messages t ms clk n
  | TLastTurn op =>
      th_update t (th_state t) (alter_last (apply_turn_op op) (turns t))
        (pending_approval t) (pending_auth t) (th_updated_at t)
  end.

Definition thread_reachable (t : Thread) : Prop :=
  ∃ sid id now, rtc (λ t t', ∃ op, t' = apply_thread_op t op) (thread_init sid id now) t.

Definition well_numbered (ts : list Turn) : Prop :=
  ∀ i tn, ts !! i = Some tn → turn_number tn = i.

Lemma lookup_alter_last {A} (f : A → A) (l : list A) i x :
  alter_last f l !! i = Some x →
  l !! i = Some x ∨ ∃ y, l !! i = Some y ∧ x = f y.
Proof.
  unfold alter_last. destruct l as [|y l _] using rev_ind; [by left|].
  rewrite last_snoc, length_app. simpl. rewrite Nat.add_sub, take_app_length.
  rewrite !lookup_app. case_match; [by left|].
  destruct (i - length l) as [|k]; simpl; [|by left].
  intros [= <-]. right. eauto.
Qed.

Lemma well_numbered_alter_last f ts :
  (∀ tn, turn_number (f tn) = turn_number tn) →
  well_numbered ts → well_numbered (alter_last f ts).
Proof.
  intros Hf Hw i tn Hi. apply lookup_alter_last in Hi as [Hi|(y & Hi & ->)]; [by apply Hw|].
  rewrite Hf. by apply Hw.
Qed.

(** Restoring does not change the number a turn was created with. *)
Lemma turn_number_record_calls calls t :
  turn_number (foldl (λ tn tc, record_tool_call tn (tc_name tc) (tc_arguments tc)) t calls) =
  turn_number t.
Proof. revert t. induction calls as [|x l IH]; intros t; simpl; [done|]. by rewrite IH. Qed.

Lemma turn_number_results iter t k :
  turn_number (consume_tool_results iter t k).2 = turn_number t.
Proof.
  revert t k. induction iter as [|x l IH]; intros t k; simpl; [done|].
  case_bool_decide; [|done]. rewrite IH. unfold restore_tool_result. by case_bool_decide.
Qed.

Lemma turn_number_rounds fuel iter t :
  turn_number (consume_tool_call_rounds_fuel fuel iter t).2 = turn_number t.
Proof.
  revert iter t. induction fuel as [|fuel IH]; intros iter t; simpl; [done|].
  case_match; [|done].
  pose proof (turn_number_results (record_round_tool_calls iter t).1
    (record_round_tool_calls iter t).2 (length (turn_tool_calls t))) as Hr.
  assert (turn_number (record_round_tool_calls iter t).2 = turn_number t) as Hc.
  { unfold record_round_tool_calls. repeat case_match; simpl; try done.
    apply turn_number_record_calls. }
  destruct (record_round_tool_calls iter t) as [i1 t1]. simpl in *.
  destruct (consume_tool_results i1 t1 _) as [i2 t2]. simpl in *. rewrite IH. congruence.
Qed.

Lemma turn_number_final iter t now :
  turn_number (consume_final_response iter t now).2 = turn_number t.
Proof. destruct iter as [|??]; simpl; [done|]. by case_match. Qed.

Lemma well_numbered_restore fuel clock iter n i tn :
  restore_turns_fuel fuel clock iter n !! i = Some tn → turn_number tn = n + i.
Proof.
  revert iter n i. induction fuel as [|fuel IH]; intros [|m iter] n i; simpl; try done.
  case_bool_decide; [apply IH|]. unfold consume_tool_call_rounds.
  pose proof (turn_number_rounds (length iter) iter (turn_new n (content m) (clock n).1)) as H1.
  destruct (consume_tool_call_rounds_fuel _ _ _) as [i1 t1].
  pose proof (turn_number_final i1 t1 (clock n).2) as H2.
  destruct (consume_final_response i1 t1 _) as [i2 t2]. simpl in *.
  destruct i as [|i]; simpl; [intros [= <-]; lia|]. intros Hi. apply IH in Hi. lia.
Qed.

Lemma apply_turn_op_number op tn : turn_number (apply_turn_op op tn) = turn_number tn.
Proof.
  destruct op; simpl; try done;
    unfold record_tool_result_content_at, record_tool_result_at, record_tool_error_at,
      set_tool_outcome_at; by case_match.
Qed.

Lemma apply_thread_op_numbered t op :
  well_numbered (turns t) → well_numbered (turns (apply_thread_op t op)).
Proof.
  intros Hw. destruct op; simpl; try done;
    try (by apply well_numbered_alter_last; [intros; done|]).
  - intros i tn Hi. apply lookup_app_Some in Hi as [Hi|[Hl Hi]]; [by apply Hw|].
    destruct (i - length (turns t)) as [|k] eqn:E; simplify_eq/=. lia.
  - unfold thread_resume. by case_bool_decide.
  - unfold truncate_turns. case_bool_decide; [|done]. simpl. intros i tn Hi.
    rewrite list_lookup_imap in Hi. by destruct (drop _ _ !! i); simplify_eq/=.
  - intros i tn Hi. by apply well_numbered_restore in Hi.
  - apply well_numbered_alter_last; [apply apply_turn_op_number|done].
Qed.

Lemma thread_reachable_numbered t : thread_reachable t → well_numbered (turns t).
Proof.
  intros (sid & id & now & Hr).
  eapply (rtc_invariant _ (λ t, well_numbered (turns t))); [| |exact Hr].
  - intros ?? H [op ->]. by apply apply_thread_op_numbered.
  - intros i tn Hi. done.
Qed.

(** Turns whose messages carry everything restoring needs: no image parts
    and tool results within the preview limit. *)
Definition replayable (tn : Turn) : Prop :=
  image_content_parts tn = [] ∧
  Forall (λ tc, String.length (tool_result_content tc) ≤ 1000) (turn_tool_calls tn).

Lemma turn_block_restored i c tn :
  turn_number tn = i → replayable tn → turn_block (restored_turn i c tn) = turn_block tn.
Proof.
  intros Hn [Himg Hlen]. rewrite !turn_block_unfold.
  assert (turn_tool_calls (restored_turn i c tn) = restored_call <$> turn_tool_calls tn) as Htc
    by (unfold restored_turn; by destruct (response tn)).
  assert (response (restored_turn i c tn) = response tn) as ->
    by (unfold restored_turn; by destruct (response tn)).
  assert (turn_number (restored_turn i c tn) = i) as Hi
    by (unfold restored_turn; by destruct (response tn)).
  f_equal; [|f_equal].
  - unfold turn_user_message, restored_turn. rewrite Himg. by destruct (response tn).
  - unfold append_tool_call_messages. rewrite Htc.
    assert (∀ k, turn_call_id (restored_turn i c tn) k = turn_call_id tn k) as Hid
      by (intros k; unfold turn_call_id; by rewrite Hi, Hn).
    destruct (turn_tool_calls tn) as [|tc tcs]; [done|]. rewrite fmap_cons.
    cbn [app]. f_equal.
    + f_equal. rewrite <-fmap_cons, imap_fmap. apply imap_ext. intros k x _. simpl. by rewrite Hid.
    + rewrite <-fmap_cons, imap_fmap. apply imap_ext. intros k x Hx. simpl. rewrite Hid. f_equal.
      rewrite Forall_lookup in Hlen. specialize (Hlen k x Hx). unfold restored_call.
      unfold tool_result_content at 1. simpl. rewrite json_as_string_JString. simpl.
      by apply truncate_preview_short.
Qed.

End Thread.
Arguments PendingApproval : clear implicits.
Arguments PendingApproval {J}.
Arguments Thread : clear implicits.
Arguments Thread {J}.

(** ** Sessions *)

Section Session.
Context {J : SerdeJson}.

Record Session := {
  s_id : Uuid;
  s_user_id : string;
  active_thread : option Uuid;
  threads : gmap Uuid Thread;
  s_created_at : Utc;
  last_active_at : Utc;
  s_metadata : json;
  auto_approved_tools : gset string;
}.

Definition s_update (s : Session) (act : option Uuid) (ths : gmap Uuid Thread)
    (now : Utc) (tools : gset string) : Session := {|
  s_id := s_id s; s_user_id := s_user_id s; active_thread := act; threads := ths;
  s_created_at := s_created_at s; last_active_at := now; s_metadata := s_metadata s;
  auto_approved_tools := tools |}.

Definition session_new (fresh : Uuid) (uid : string) (now : Utc) : Session := {|
  s_id := fresh; s_user_id := uid; active_thread := None; threads := ∅;
  s_created_at := now; last_active_at := now; s_metadata := JNull;
  auto_approved_tools := ∅ |}.

Definition is_tool_auto_approved (s : Session) (tool : string) : bool :=
  bool_decide (tool ∈ auto_approved_tools s).

Definition auto_approve_tool (s : Session) (tool : string) : Session :=
  s_update s (active_thread s) (threads s) (last_active_at s)
    ({[tool]} ∪ auto_approved_tools s).

(** [entry(id).or_insert(thread)]: an existing entry is kept.  The returned
    reference is the id under which the thread is found. *)
Definition create_thread (s : Session) (fresh : Uuid) (now1 now2 : Utc) : Session * Uuid :=
  let thread := thread_new (s_id s) fresh now1 in
  let ths := match threads s !! fresh with
             | Some _ => threads s
             | None => <[fresh := thread]> (threads s)
             end in
  (s_update s (Some fresh) ths now2 (auto_approved_tools s), fresh).

(** [active_thread] and [active_thread_mut]. *)
Definition get_active_thread (s : Session) : option Thread :=
  id ← active_thread s; threads s !! id.

Definition get_or_create_thread (s : Session) (fresh : Uuid) (now1 now2 : Utc) :
    Session * Uuid :=
  match active_thread s with
  | None => create_thread s fresh now1 now2
  | Some id =>
      if bool_decide (is_Some (threads s !! id)) then (s, id)
      else create_thread s fresh now1 now2
  end.

Definition switch_thread (s : Session) (id : Uuid) (now : Utc) : Session * bool :=
  if bool_decide (is_Some (threads s !! id))
  then (s_update s (Some id) (threads s) now (auto_approved_tools s), true)
  else (s, false).

(** Operations of a session, including work on a thread through the
    reference it returned and the removal of a thread by its owner. *)
Inductive SessionOp :=
| SCreate (fresh : Uuid) (now1 now2 : Utc)
| SGetOrCreate (fresh : Uuid) (now1 now2 : Utc)
| SSwitch (id : Uuid) (now : Utc)
| SApproveTool (tool : string)
| SThread (id : Uuid) (op : ThreadOp)
| SRemoveThread (id : Uuid).

Definition apply_session_op (s : Session) (op : SessionOp) : Session :=
  match op with
  | SCreate f n1 n2 => (create_thread s f n1 n2).1
  | SGetOrCreate f n1 n2 => (get_or_create_thread s f n1 n2).1
  | SSwitch id n => (switch_thread s id n).1
  | SApproveTool tool => auto_approve_tool s tool
  | SThread id op =>
      s_update s (active_thread s) (alter (λ t, apply_thread_op t op) id (threads s))
        (last_active_at s) (auto_approved_tools s)
  | SRemoveThread id =>
      s_update s (active_thread s) (delete id (threads s)) (last_active_at s)
        (auto_approved_tools s)
  end.

Definition session_reachable (s : Session) : Prop :=
  ∃ id uid now, rtc (λ s s', ∃ op, s' = apply_session_op s op) (session_new id uid now) s.

(** Every thread is stored under its own id, belongs to the session and has
    its turns numbered from zero. *)
Definition session_inv (s : Session) : Prop :=
  map_Forall (λ id t, th_id t = id ∧ th_session_id t = s_id s ∧ well_numbered (turns t))
    (threads s).

Lemma create_thread_inv s f n1 n2 : session_inv s → session_inv (create_thread s f n1 n2).1.
Proof.
  intros H. unfold session_inv, create_thread. simpl. case_match; [done|].
  apply map_Forall_insert_2; [|done]. split_and!; [done|done|]. by intros i tn Hi.
Qed.

Lemma apply_thread_op_ids t op :
  th_id (apply_thread_op t op) = th_id t ∧
  th_session_id (apply_thread_op t op) = th_session_id t.
Proof.
  destruct op; simpl; try done.
  - unfold thread_resume. by case_bool_decide.
  - unfold truncate_turns. by case_bool_decide.
Qed.

Lemma apply_session_op_id s op : s_id (apply_session_op s op) = s_id s.
Proof.
  destruct op; simpl; try done.
  - unfold get_or_create_thread. by repeat case_match.
  - unfold switch_thread. by case_bool_decide.
Qed.

Lemma apply_session_op_inv s op : session_inv s → session_inv (apply_session_op s op).
Proof.
  intros H. destruct op; simpl; try done.
  - by apply create_thread_inv.
  - unfold get_or_create_thread. repeat case_match; simpl; try done; by apply create_thread_inv.
  - unfold switch_thread. by case_bool_decide.
  - intros i t Hi. cbn [threads s_update s_id] in *. rewrite lookup_alter in Hi.
    case_decide as Hid; [|by apply H].
    subst i. destruct (threads s !! id) as [t0|] eqn:E; [|done]. simplify_eq/=.
    destruct (H _ _ E) as (<- & <- & Hw).
    destruct (apply_thread_op_ids t0 op) as [-> ->].
    split_and!; [done..|]. by apply apply_thread_op_numbered.
  - intros i t Hi. cbn [threads s_update s_id] in *.
    apply lookup_delete_Some in Hi as [_ Hi]. by apply H.
Qed.

Lemma session_reachable_inv s : session_reachable s → session_inv s.
Proof.
  intros (id & uid & now & Hr). eapply (rtc_invariant _ session_inv); [| |exact Hr].
  - intros ?? H [op ->]. by apply apply_session_op_inv.
  - intros i t Hi. done.
Qed.

Lemma fmap_restored {B} (f : Turn → B) clock ts :
  (∀ i c tn, ts !! i = Some tn → f (restored_turn i c tn) = f tn) →
  f <$> imap (λ i tn, restored_turn i (clock i) tn) ts = f <$> ts.
Proof.
  intros H. rewrite fmap_imap, <-imap_const. apply imap_ext. intros i tn Hi. by apply H.
Qed.

(** ** Properties *)

(** Restoring a reachable thread's own messages into any thread rebuilds
    its conversation: the same user inputs, responses and tool calls, turn
    by turn, and, when no turn holds images and every tool result is within
    the 1000-byte preview limit, exactly the same message sequence. *)
Theorem restore_messages_roundtrip (t t' : Thread) clock now
    (Hreach : thread_reachable t) :
  let r := restore_from_messages t' (thread_messages t) clock now in
  user_input <$> turns r = user_input <$> turns t ∧
  response <$> turns r = response <$> turns t ∧
  (λ tn, (λ tc, (ttc_name tc, ttc_parameters tc)) <$> turn_tool_calls tn) <$> turns r =
  (λ tn, (λ tc, (ttc_name tc, ttc_parameters tc)) <$> turn_tool_calls tn) <$> turns t ∧
  (Forall replayable (turns t) → thread_messages r = thread_messages t).
Proof.
  intros r. pose proof (thread_reachable_numbered _ Hreach) as Hw.
  assert (turns r = imap (λ i tn, restored_turn i (clock i) tn) (turns t)) as Hr.
  { unfold r. rewrite thread_messages_concat. apply turns_restore. }
  rewrite (thread_messages_concat r), (thread_messages_concat t), Hr.
  split_and!; [apply fmap_restored; intros i c tn _..|intros HF; f_equal; apply fmap_restored].
  - unfold restored_turn. by destruct (response tn).
  - unfold restored_turn. by destruct (response tn) eqn:E.
  - unfold restored_turn. destruct (response tn); simpl; by rewrite <-list_fmap_compose.
  - intros i c tn Hi. apply turn_block_restored; [by apply Hw|].
    rewrite Forall_lookup in HF. eauto.
Qed.

(** In every reachable session, even after threads were removed,
    [get_or_create_thread] returns the id of a thread of the session, makes
    it the active one, keeps every other thread, and creates a thread only
    when the active one is missing; that thread is idle and empty. *)
Theorem get_or_create_thread_spec (s : Session) fresh n1 n2
    (Hreach : session_reachable s) (Hfresh : threads s !! fresh = None) :
  let '(s', id) := get_or_create_thread s fresh n1 n2 in
  active_thread s' = Some id ∧
  (∃ t, threads s' !! id = Some t ∧ get_active_thread s' = Some t ∧
        th_id t = id ∧ th_session_id t = s_id s ∧
        (get_active_thread s = None → th_state t = Idle ∧ turns t = []) ∧
        (∀ t0, get_active_thread s = Some t0 → t = t0 ∧ s' = s)) ∧
  (∀ id', id' ≠ id → threads s' !! id' = threads s !! id').
Proof.
  pose proof (session_reachable_inv _ Hreach) as Hinv.
  assert (let '(s', id) := create_thread s fresh n1 n2 in
    active_thread s' = Some id ∧
    (∃ t, threads s' !! id = Some t ∧ get_active_thread s' = Some t ∧
      th_id t = id ∧ th_session_id t = s_id s ∧ th_state t = Idle ∧ turns t = []) ∧
    (∀ id', id' ≠ id → threads s' !! id' = threads s !! id')) as Hcreate.
  { unfold create_thread, get_active_thread. rewrite Hfresh. simpl. split_and!; [done| |].
    - eexists. rewrite lookup_insert_eq. by split_and!.
    - intros id' Hne. by rewrite lookup_insert_ne. }
  unfold get_or_create_thread. unfold get_active_thread at 2 3.
  destruct (active_thread s) as [id|] eqn:Ea; cbn [mbind option_bind].
  - case_bool_decide as Hs.
    + destruct Hs as [t Ht]. destruct (Hinv _ _ Ht) as (? & ? & _).
      split_and!; [done| |done]. exists t. unfold get_active_thread. rewrite Ea. simpl.
      split_and!; try done; rewrite Ht; naive_solver.
    + apply eq_None_not_Some in Hs. rewrite Hs.
      destruct (create_thread s fresh n1 n2) as [s' id'].
      destruct Hcreate as (? & (t & ?) & ?). split_and!; [done| |done]. exists t. naive_solver.
  - destruct (create_thread s fresh n1 n2) as [s' id'].
    destruct Hcreate as (? & (t & ?) & ?). split_and!; [done| |done]. exists t. naive_solver.
Qed.
End Session.
Arguments Session : clear implicits.
Arguments Session {J}.

(** ** Witnesses *)

#[local] Existing Instance json_lite.

Definition demo_thread : Thread :=
  foldl apply_thread_op (thread_init 1 2 0%Z)
    [TStart "list files" 1%Z 1%Z; TLastTurn (TRecordCall "shell" JNull);
     TLastTurn (TRecordContent "a.txt"); TComplete "one file" 2%Z 2%Z;
     TStart "thanks" 3%Z 3%Z].

Lemma demo_thread_reachable : thread_reachable demo_thread.
Proof.
  exists 1%N, 2%N, 0%Z. apply rtc_foldl.
Qed.

Lemma restore_messages_roundtrip_witness :
  thread_messages (restore_from_messages (thread_init 1 2 0%Z) (thread_messages demo_thread)
                     (λ _, (5%Z, 5%Z)) 6%Z) = thread_messages demo_thread ∧
  length (thread_messages demo_thread) = 5.
Proof.
  split; [|reflexivity].
  apply (restore_messages_roundtrip demo_thread (thread_init 1 2 0%Z) (λ _, (5%Z, 5%Z)) 6%Z
           demo_thread_reachable).
  repeat constructor.
Defined.

Lemma get_or_create_thread_spec_witness :
  active_thread (get_or_create_thread (session_new 1 "u" 0%Z) 7 1%Z 2%Z).1
    = Some 7%N.
Proof.
  apply (get_or_create_thread_spec (session_new 1 "u" 0%Z) 7 1%Z 2%Z).
  - exists 1%N, "u", 0%Z. apply rtc_refl.
  - reflexivity.
Defined.
