(* ===== verification/Undo.v ===== *)
(** * Undo and redo

    Models [src/src/agent/undo.rs]: checkpoints, the [UndoManager] with its
    two stacks, and every method outside the test configuration.  The
    abstract specification is a timeline of snapshots with a cursor: undo
    and redo move the cursor and leave the timeline alone. *)

From S2P Require Import Prelude Externals Text LlmTypes.

Definition DEFAULT_MAX_CHECKPOINTS : nat := 20.

Section Undo.
Context {J : SerdeJson}.

Record Checkpoint := {
  cp_id : Uuid;
  cp_turn_number : nat;
  cp_messages : list ChatMessage;
  cp_description : string;
}.

Definition checkpoint_new (fresh : Uuid) (turn_number : nat) (messages : list ChatMessage)
    (description : string) : Checkpoint := {|
  cp_id := fresh; cp_turn_number := turn_number; cp_messages := messages;
  cp_description := description |}.

(** The front of [undo_stack] is its oldest entry; the end of [redo_stack]
    is the next state to redo. *)
Record UndoManager := {
  undo_stack : list Checkpoint;
  redo_stack : list Checkpoint;
  max_checkpoints : nat;
}.

Definition undo_manager_new : UndoManager := {|
  undo_stack := []; redo_stack := []; max_checkpoints := DEFAULT_MAX_CHECKPOINTS |}.

Definition set_stacks (u r : list Checkpoint) (m : UndoManager) : UndoManager := {|
  undo_stack := u; redo_stack := r; max_checkpoints := max_checkpoints m |}.

(** [while self.undo_stack.len() > self.max_checkpoints { pop_front() }] *)
Fixpoint trim_front {A} (max : nat) (l : list A) : list A :=
  match l with
  | [] => []
  | _ :: l' => if bool_decide (max < length l) then trim_front max l' else l
  end.

Definition push_undo (m : UndoManager) (cp : Checkpoint) : UndoManager :=
  set_stacks (trim_front (max_checkpoints m) (undo_stack m ++ [cp])) (redo_stack m) m.

Definition checkpoint (m : UndoManager) (fresh : Uuid) (turn_number : nat)
    (messages : list ChatMessage) (description : string) : UndoManager :=
  let m := set_stacks (undo_stack m) [] m in
  push_undo m (checkpoint_new fresh turn_number messages description).

Definition undo (m : UndoManager) (fresh : Uuid) (current_turn : nat)
    (current_messages : list ChatMessage) : UndoManager * option Checkpoint :=
  match undo_stack m with
  | [] => (m, None)
  | _ :: _ =>
      let current := checkpoint_new fresh current_turn current_messages
                       ("Turn " +:+ pretty current_turn) in
      let popped := last (undo_stack m) in
      (set_stacks (take (length (undo_stack m) - 1) (undo_stack m))
         (redo_stack m ++ [current]) m, popped)
  end.

Definition redo (m : UndoManager) (fresh : Uuid) (current_turn : nat)
    (current_messages : list ChatMessage) : UndoManager * option Checkpoint :=
  match redo_stack m with
  | [] => (m, None)
  | _ :: _ =>
      let current := checkpoint_new fresh current_turn current_messages
                       ("Turn " +:+ pretty current_turn) in
      let m := push_undo m current in
      let popped := last (redo_stack m) in
      (set_stacks (undo_stack m) (take (length (redo_stack m) - 1) (redo_stack m)) m, popped)
  end.

Definition can_undo (m : UndoManager) : bool := bool_decide (undo_stack m ≠ []).
Definition can_redo (m : UndoManager) : bool := bool_decide (redo_stack m ≠ []).
Definition undo_count (m : UndoManager) : nat := length (undo_stack m).
Definition redo_count (m : UndoManager) : nat := length (redo_stack m).

Definition undo_clear (m : UndoManager) : UndoManager := set_stacks [] [] m.

(** [while self.undo_stack.len() > pos + 1 { pop_back() }], then one more
    [pop_back]. *)
Definition restore (m : UndoManager) (checkpoint_id : Uuid) :
    UndoManager * option Checkpoint :=
  match position (λ c, bool_decide (cp_id c = checkpoint_id)) (undo_stack m) with
  | None => (m, None)
  | Some pos =>
      let u := take (pos + 1) (undo_stack m) in
      (set_stacks (take (length u - 1) u) [] m, last u)
  end.

(** ** The manager with the conversation it serves

    A conversation state is a turn number and its messages.  [use_undo] and
    [use_redo] are how callers use the manager: they pass the current state
    and adopt the one they get back. *)

Abbreviation snapshot := (nat * list ChatMessage)%type.

Definition snap (cp : Checkpoint) : snapshot := (cp_turn_number cp, cp_messages cp).

Definition use_undo (s : UndoManager * snapshot) (fresh : Uuid) : UndoManager * snapshot :=
  match undo s.1 fresh s.2.1 s.2.2 with
  | (m, Some cp) => (m, snap cp)
  | (m, None) => (m, s.2)
  end.

Definition use_redo (s : UndoManager * snapshot) (fresh : Uuid) : UndoManager * snapshot :=
  match redo s.1 fresh s.2.1 s.2.2 with
  | (m, Some cp) => (m, snap cp)
  | (m, None) => (m, s.2)
  end.

(** A new turn: the current state is checkpointed and the conversation moves
    on to [next]. *)
Definition use_checkpoint (s : UndoManager * snapshot) (fresh : Uuid) (desc : string)
    (next : snapshot) : UndoManager * snapshot :=
  (checkpoint s.1 fresh s.2.1 s.2.2 desc, next).

Definition use_restore (s : UndoManager * snapshot) (id : Uuid) : UndoManager * snapshot :=
  match restore s.1 id with
  | (m, Some cp) => (m, snap cp)
  | (m, None) => (m, s.2)
  end.

Inductive UndoOp :=
| UUndo (fresh : Uuid)
| URedo (fresh : Uuid)
| UCheckpoint (fresh : Uuid) (desc : string) (next : snapshot)
| URestore (id : Uuid)
| UClear.

Definition apply_undo_op (s : UndoManager * snapshot) (op : UndoOp) : UndoManager * snapshot :=
  match op with
  | UUndo f => use_undo s f
  | URedo f => use_redo s f
  | UCheckpoint f d nx => use_checkpoint s f d nx
  | URestore id => use_restore s id
  | UClear => (undo_clear s.1, s.2)
  end.

Definition undo_reachable (s : UndoManager * snapshot) : Prop :=
  ∃ s0, rtc (λ s s', ∃ op, s' = apply_undo_op s op) (undo_manager_new, s0) s.

(** The abstract state: every snapshot in order, and where the conversation
    stands among them. *)
Definition timeline (s : UndoManager * snapshot) : list snapshot :=
  (snap <$> undo_stack s.1) ++ s.2 :: reverse (snap <$> redo_stack s.1).
Definition cursor (s : UndoManager * snapshot) : nat := length (undo_stack s.1).

(** ** Lemmas *)

Lemma trim_front_last_n {A} max (l : list A) : trim_front max l = last_n max l.
Proof.
  induction l as [|x l IH]; [done|]. cbn [trim_front]. case_bool_decide as H.
  - rewrite IH. unfold last_n. simpl in H. rewrite length_cons.
    by replace (S (length l) - max) with (S (length l - max)) by lia.
  - symmetry. apply last_n_all. lia.
Qed.

Lemma take_pred_snoc {A} (l : list A) x : take (length (l ++ [x]) - 1) (l ++ [x]) = l.
Proof. rewrite length_app. simpl. by rewrite Nat.add_sub, take_app_length. Qed.

Definition undo_inv (m : UndoManager) : Prop :=
  max_checkpoints m = DEFAULT_MAX_CHECKPOINTS ∧
  undo_count m + redo_count m ≤ max_checkpoints m.

Lemma undo_cases m fresh turn msgs :
  (undo_stack m = [] ∧ undo m fresh turn msgs = (m, None)) ∨
  ∃ l cp, undo_stack m = l ++ [cp] ∧
    undo m fresh turn msgs =
      (set_stacks l (redo_stack m ++ [checkpoint_new fresh turn msgs
         ("Turn " +:+ pretty turn)]) m, Some cp).
Proof.
  unfold undo. destruct (undo_stack m) as [|x l0] eqn:E; [by left|]. right. rewrite <-E.
  destruct (undo_stack m) as [|cp l _] using rev_ind; [done|].
  exists l, cp. by rewrite take_pred_snoc, last_snoc.
Qed.

Lemma redo_cases m fresh turn msgs :
  undo_inv m →
  (redo_stack m = [] ∧ redo m fresh turn msgs = (m, None)) ∨
  ∃ l cp, redo_stack m = l ++ [cp] ∧
    redo m fresh turn msgs =
      (set_stacks (undo_stack m ++ [checkpoint_new fresh turn msgs
         ("Turn " +:+ pretty turn)]) l m, Some cp).
Proof.
  intros [_ Hinv]. unfold redo. destruct (redo_stack m) as [|x l0] eqn:E; [by left|]. right.
  destruct l0 as [|cp l1 _] using rev_ind.
  - exists [], x. split; [done|]. unfold push_undo. simpl. rewrite E. simpl.
    rewrite trim_front_last_n, last_n_all; [done|].
    unfold undo_count, redo_count in Hinv. rewrite E in Hinv. rewrite length_app. simpl in *. lia.
  - exists (x :: l1), cp. split; [done|]. unfold push_undo. cbn [redo_stack set_stacks undo_stack].
    rewrite E. rewrite app_comm_cons, take_pred_snoc, last_snoc.
    rewrite trim_front_last_n, last_n_all; [done|].
    unfold undo_count, redo_count in Hinv. rewrite E in Hinv. simpl in Hinv.
    rewrite !length_app in *. simpl in *. lia.
Qed.

Lemma position_lookup {A} (p : A → bool) l i :
  position p l = Some i →
  ∃ x, l !! i = Some x ∧ p x = true ∧ ∀ j y, j < i → l !! j = Some y → p y = false.
Proof.
  unfold position. destruct (list_find p l) as [[k x]|] eqn:E; [|done]. intros [= <-].
  apply list_find_Some in E as (Hk & Hp & Hmin). exists x. split_and!; [done| |].
  - by apply Is_true_true.
  - intros j y Hj Hy. apply not_true_is_false. intros Hpy. apply (Hmin j y Hy Hj).
    by apply Is_true_true.
Qed.

Lemma restore_cases m id :
  (restore m id = (m, None) ∧ Forall (λ c, cp_id c ≠ id) (undo_stack m)) ∨
  ∃ l cp l', undo_stack m = l ++ cp :: l' ∧ cp_id cp = id ∧
    Forall (λ c, cp_id c ≠ id) l ∧ restore m id = (set_stacks l [] m, Some cp).
Proof.
  unfold restore. destruct (position _ _) as [pos|] eqn:E.
  - right. apply position_lookup in E as (cp & Hl & Hp & Hmin).
    exists (take pos (undo_stack m)), cp, (drop (S pos) (undo_stack m)).
    rewrite take_drop_middle by done. split_and!; [done|by apply bool_decide_eq_true in Hp| |].
    + apply Forall_lookup. intros j c Hj. apply lookup_take_Some in Hj as [Hj Hlt].
      specialize (Hmin j c Hlt Hj). by apply bool_decide_eq_false in Hmin.
    + rewrite Nat.add_1_r, (take_S_r _ _ _ Hl), take_pred_snoc, last_snoc. done.
  - left. split; [done|]. unfold position in E. apply fmap_None in E.
    apply list_find_None in E. eapply Forall_impl; [exact E|]. intros c Hc Hid.
    apply Hc. by rewrite Is_true_true, bool_decide_eq_true.
Qed.

Lemma checkpoint_inv m fresh turn msgs desc :
  undo_inv m → undo_inv (checkpoint m fresh turn msgs desc).
Proof.
  intros [Hmax _]. split; [done|]. unfold undo_count, redo_count. simpl.
  rewrite trim_front_last_n, length_last_n. lia.
Qed.

Lemma use_undo_redo_inv s :
  undo_inv s.1 →
  (∀ f, undo_inv (use_undo s f).1 ∧ undo_count (use_undo s f).1 + redo_count (use_undo s f).1
        = undo_count s.1 + redo_count s.1) ∧
  (∀ f, undo_inv (use_redo s f).1 ∧ undo_count (use_redo s f).1 + redo_count (use_redo s f).1
        = undo_count s.1 + redo_count s.1).
Proof.
  intros Hinv. destruct s as [m [turn msgs]]. unfold use_undo, use_redo. simpl in *. split; intros f.
  - destruct (undo_cases m f turn msgs) as [[_ ->]|(l & cp & Hl & ->)]; [done|].
    destruct Hinv as [Hmax Hc]. unfold undo_inv, undo_count, redo_count in *. simpl.
    rewrite Hl in *. rewrite !length_app in *. simpl in *. lia.
  - destruct (redo_cases m f turn msgs Hinv) as [[_ ->]|(l & cp & Hl & ->)]; [done|].
    destruct Hinv as [Hmax Hc]. unfold undo_inv, undo_count, redo_count in *. simpl.
    rewrite Hl in *. rewrite !length_app in *. simpl in *. lia.
Qed.

Lemma apply_undo_op_inv s op : undo_inv s.1 → undo_inv (apply_undo_op s op).1.
Proof.
  intros Hinv. destruct (use_undo_redo_inv s Hinv) as [Hu Hr]. destruct op; simpl.
  - apply Hu.
  - apply Hr.
  - by apply checkpoint_inv.
  - unfold use_restore. destruct s as [m sn]. simpl in *.
    destruct (restore_cases m id) as [[-> _]|(l & cp & l' & Hl & _ & _ & ->)]; [done|].
    destruct Hinv as [Hmax Hc]. unfold undo_inv, undo_count, redo_count in *. simpl.
    rewrite Hl in *. rewrite !length_app in *. simpl in *. split; [done|lia].
  - destruct Hinv as [Hmax _]. split; [done|]. unfold undo_count, redo_count. simpl. lia.
Qed.

Lemma undo_reachable_inv s : undo_reachable s → undo_inv s.1.
Proof.
  intros (s0 & Hr). eapply (rtc_invariant _ (λ s, undo_inv s.1)); [| |exact Hr].
  - intros ?? H [op ->]. by apply apply_undo_op_inv.
  - split; [done|]. unfold undo_count, redo_count, DEFAULT_MAX_CHECKPOINTS. simpl. lia.
Qed.

(** ** Properties *)

(** C39. Undo and redo implement a cursor on a timeline.  In every reachable
    state they leave the timeline of snapshots as it is; undo moves the
    cursor one step back and redo one step forward, each does nothing
    exactly at its end of the timeline, and the conversation is always the
    snapshot under the cursor. *)
Theorem undo_redo_timeline s (Hreach : undo_reachable s) fresh :
  timeline s !! cursor s = Some s.2 ∧
  timeline (use_undo s fresh) = timeline s ∧
  cursor (use_undo s fresh) = cursor s - 1 ∧
  timeline (use_redo s fresh) = timeline s ∧
  cursor (use_redo s fresh) = min (cursor s + 1) (length (timeline s) - 1) ∧
  (cursor s ≠ 0 → (use_redo (use_undo s fresh) fresh).2 = s.2).
Proof.
  pose proof (undo_reachable_inv s Hreach) as Hinv.
  assert (∀ s', timeline s' !! cursor s' = Some s'.2) as Hcur.
  { intros s'. unfold timeline, cursor.
    rewrite lookup_app_r; rewrite length_fmap; [by rewrite Nat.sub_diag|done]. }
  assert (∀ s' f, undo_inv s'.1 → timeline (use_redo s' f) = timeline s' ∧
    cursor (use_redo s' f) = min (cursor s' + 1) (length (timeline s') - 1)) as Hredo.
  { intros [m [turn msgs]] f Hi. unfold use_redo, timeline, cursor. simpl.
    destruct (redo_cases m f turn msgs Hi) as [[E ->]|(l & cp & E & ->)]; simpl; rewrite ?E; simpl.
    - rewrite length_app, length_fmap. simpl. split; [done|lia].
    - rewrite fmap_app, <-(assoc_L (++)), fmap_app, reverse_app. simpl.
      rewrite !length_app. simpl. rewrite length_fmap, length_reverse. split; [done|lia]. }
  assert (timeline (use_undo s fresh) = timeline s ∧
          cursor (use_undo s fresh) = cursor s - 1) as [Hut Huc].
  { destruct s as [m [turn msgs]]. unfold use_undo, timeline, cursor. simpl.
    destruct (undo_cases m fresh turn msgs) as [[E ->]|(l & cp & E & ->)]; rewrite ?E; simpl.
    - by rewrite E.
    - rewrite !fmap_app, reverse_app, length_app, <-(assoc_L (++)). simpl.
      split; [done|lia]. }
  destruct (Hredo s fresh Hinv) as [??]. split_and!; try done.
  intros Hc. destruct (Hredo (use_undo s fresh) fresh) as [Ht Hc2].
  { by apply use_undo_redo_inv. }
  apply (inj Some). rewrite <-(Hcur (use_redo _ _)), <-(Hcur s), Ht, Hc2, Hut, Huc.
  f_equal. unfold timeline, cursor in *. rewrite length_app, length_fmap. simpl. lia.
Qed.

(** The number of stored checkpoints never exceeds the limit of 20, and
    undo and redo keep the total of both stacks constant. *)
Theorem undo_redo_bounded s (Hreach : undo_reachable s) fresh :
  undo_count s.1 + redo_count s.1 ≤ 20 ∧
  undo_count (use_undo s fresh).1 + redo_count (use_undo s fresh).1
    = undo_count s.1 + redo_count s.1 ∧
  undo_count (use_redo s fresh).1 + redo_count (use_redo s fresh).1
    = undo_count s.1 + redo_count s.1.
Proof.
  pose proof (undo_reachable_inv s Hreach) as Hinv.
  destruct (use_undo_redo_inv s Hinv) as [Hu Hr]. destruct Hinv as [Hmax Hc].
  rewrite Hmax in Hc. split_and!; [done|apply Hu|apply Hr].
Qed.
End Undo.

(** ** Witnesses *)

#[local] Existing Instance json_lite.

Definition demo_undo : UndoManager * (nat * list ChatMessage) :=
  foldl apply_undo_op (undo_manager_new, (0, []))
    [UCheckpoint 1 "Turn 0" (1, [msg_user "a"]); UCheckpoint 2 "Turn 1" (2, [msg_user "b"])].

Lemma demo_undo_reachable : undo_reachable demo_undo.
Proof. exists (0, []). apply rtc_foldl. Qed.

Lemma undo_redo_timeline_witness :
  cursor (use_undo demo_undo 3) = 1 ∧ (use_undo demo_undo 3).2 = (1, [msg_user "a"]) ∧
  (use_redo (use_undo demo_undo 3) 3).2 = demo_undo.2.
Proof.
  split; [|split; [reflexivity|]].
  - apply (undo_redo_timeline demo_undo demo_undo_reachable 3).
  - apply (undo_redo_timeline demo_undo demo_undo_reachable 3). vm_compute. lia.
Defined.

Lemma undo_redo_bounded_witness :
  undo_count demo_undo.1 = 2 ∧ undo_count demo_undo.1 + redo_count demo_undo.1 ≤ 20.
Proof.
  split; [reflexivity|]. apply (undo_redo_bounded demo_undo demo_undo_reachable 3).
Defined.
