(* ===== verification/JobManager.v ===== *)
(** * Job memory and the context manager

    Models [src/src/context/memory.rs] (action records, the bounded
    conversation, a job's memory) and [src/src/context/manager.rs] (the
    manager of all jobs).  The manager's two maps sit behind separate locks;
    the step relation at the end has one step per critical section, so that
    it covers every interleaving of concurrent callers. *)

From S2P Require Import Prelude Externals Text LlmTypes JobState.

(** ** Memory *)

Section Memory.
Context {J : SerdeJson} {D : RustDecimal}.

Record ActionRecord := {
  act_id : Uuid;
  sequence : Z;
  act_tool_name : string;
  act_input : json;
  output_raw : option string;
  output_sanitized : option json;
  sanitization_warnings : list string;
  act_cost : option dec;
  act_duration : Duration;
  success : bool;
  act_error : option string;
  executed_at : Utc;
}.

Definition action_new (fresh : Uuid) (seq : Z) (tool : string) (input : json) (now : Utc) :
    ActionRecord := {|
  act_id := fresh; sequence := seq; act_tool_name := tool; act_input := input;
  output_raw := None; output_sanitized := None; sanitization_warnings := [];
  act_cost := None; act_duration := 0; success := false; act_error := None;
  executed_at := now |}.

Definition action_succeed (a : ActionRecord) (raw : option string) (sanitized : json)
    (d : Duration) : ActionRecord := {|
  act_id := act_id a; sequence := sequence a; act_tool_name := act_tool_name a;
  act_input := act_input a; output_raw := raw; output_sanitized := Some sanitized;
  sanitization_warnings := sanitization_warnings a; act_cost := act_cost a;
  act_duration := d; success := true; act_error := act_error a;
  executed_at := executed_at a |}.

Definition action_fail (a : ActionRecord) (e : string) (d : Duration) : ActionRecord := {|
  act_id := act_id a; sequence := sequence a; act_tool_name := act_tool_name a;
  act_input := act_input a; output_raw := output_raw a;
  output_sanitized := output_sanitized a;
  sanitization_warnings := sanitization_warnings a; act_cost := act_cost a;
  act_duration := d; success := false; act_error := Some e; executed_at := executed_at a |}.

Definition with_warnings (a : ActionRecord) (w : list string) : ActionRecord := {|
  act_id := act_id a; sequence := sequence a; act_tool_name := act_tool_name a;
  act_input := act_input a; output_raw := output_raw a;
  output_sanitized := output_sanitized a; sanitization_warnings := w;
  act_cost := act_cost a; act_duration := act_duration a; success := success a;
  act_error := act_error a; executed_at := executed_at a |}.

Definition with_cost (a : ActionRecord) (c : dec) : ActionRecord := {|
  act_id := act_id a; sequence := sequence a; act_tool_name := act_tool_name a;
  act_input := act_input a; output_raw := output_raw a;
  output_sanitized := output_sanitized a;
  sanitization_warnings := sanitization_warnings a; act_cost := Some c;
  act_duration := act_duration a; success := success a; act_error := act_error a;
  executed_at := executed_at a |}.

Record ConversationMemory := {
  conv_messages : list ChatMessage;
  max_messages : nat;
}.

Definition conversation_new (max : nat) : ConversationMemory := {|
  conv_messages := []; max_messages := max |}.

(** The trimming loop of [add].  Each iteration removes one message or
    breaks, so the length of the list is enough fuel. *)
Fixpoint trim_messages (fuel : nat) (max : nat) (l : list ChatMessage) : list ChatMessage :=
  match fuel with
  | 0 => l
  | S fuel =>
      if bool_decide (max < length l) then
        match l with
        | m :: rest =>
            if bool_decide (role m = System) then
              match rest with
              | _ :: rest' => trim_messages fuel max (m :: rest')
              | [] => l
              end
            else trim_messages fuel max rest
        | [] => l
        end
      else l
  end.

Definition conversation_add (c : ConversationMemory) (m : ChatMessage) : ConversationMemory :=
  let l := conv_messages c ++ [m] in
  {| conv_messages := trim_messages (length l) (max_messages c) l;
     max_messages := max_messages c |}.

Definition conversation_last_n (c : ConversationMemory) (n : nat) : list ChatMessage :=
  drop (length (conv_messages c) - n) (conv_messages c).

Definition conversation_clear (c : ConversationMemory) : ConversationMemory := {|
  conv_messages := []; max_messages := max_messages c |}.

Record Memory := {
  mem_job_id : Uuid;
  conversation : ConversationMemory;
  actions : list ActionRecord;
  next_sequence : Z;
}.

Definition memory_new (id : Uuid) : Memory := {|
  mem_job_id := id; conversation := conversation_new 100; actions := [];
  next_sequence := 0 |}.

Definition add_message (m : Memory) (msg : ChatMessage) : Memory := {|
  mem_job_id := mem_job_id m; conversation := conversation_add (conversation m) msg;
  actions := actions m; next_sequence := next_sequence m |}.

Definition create_action (m : Memory) (fresh : Uuid) (tool : string) (input : json)
    (now : Utc) : Memory * ActionRecord :=
  let seq := next_sequence m in
  ({| mem_job_id := mem_job_id m; conversation := conversation m; actions := actions m;
      next_sequence := wrap_u32 (seq + 1) |},
   action_new fresh seq tool input now).

Definition record_action (m : Memory) (a : ActionRecord) : Memory := {|
  mem_job_id := mem_job_id m; conversation := conversation m; actions := actions m ++ [a];
  next_sequence := next_sequence m |}.

Definition total_cost (m : Memory) : dec :=
  foldl dec_add dec_zero (omap act_cost (actions m)).

Definition total_duration (m : Memory) : Duration :=
  foldl Z.add 0%Z (act_duration <$> actions m).

Definition successful_actions (m : Memory) : nat :=
  length (filter (λ a, success a = true) (actions m)).

Definition failed_actions (m : Memory) : nat :=
  length (filter (λ a, negb (success a) = true) (actions m)).

Definition last_action (m : Memory) : option ActionRecord := last (actions m).

Definition actions_by_tool (m : Memory) (tool : string) : list ActionRecord :=
  filter (λ a, act_tool_name a = tool) (actions m).

(** *** The bounded conversation *)

Lemma trim_messages_system fuel max m rest :
  role m = System → length rest < fuel →
  trim_messages fuel max (m :: rest) = m :: last_n (Nat.max max 1 - 1) rest.
Proof.
  intros Hm. revert rest. induction fuel as [|fuel IH]; intros rest Hf; [lia|].
  cbn [trim_messages]. rewrite (bool_decide_true (role m = System)) by done.
  case_bool_decide as Hlt; simpl in Hlt.
  - destruct rest as [|x rest']; [done|]. rewrite IH by (simpl in Hf; lia).
    f_equal. unfold last_n. simpl in *.
    by replace (S (length rest') - (Nat.max max 1 - 1))
      with (S (length rest' - (Nat.max max 1 - 1))) by lia.
  - f_equal. symmetry. apply last_n_all. lia.
Qed.

Lemma trim_messages_plain fuel max l :
  Forall (λ m, role m ≠ System) l → length l ≤ fuel →
  trim_messages fuel max l = last_n max l.
Proof.
  revert l. induction fuel as [|fuel IH]; intros l HF Hf.
  { destruct l; [done|simpl in Hf; lia]. }
  cbn [trim_messages]. case_bool_decide as Hlt.
  - destruct l as [|m rest]; [done|]. apply Forall_cons in HF as [Hm HF].
    rewrite bool_decide_false by done. simpl in *. rewrite IH by (done || lia).
    unfold last_n. simpl.
    by replace (S (length rest) - max) with (S (length rest - max)) by lia.
  - symmetry. apply last_n_all. lia.
Qed.

(** The conversations the manager builds: a system message only at the
    head. *)
Definition system_at_head (l : list ChatMessage) : Prop :=
  Forall (λ m, role m ≠ System) (tail l).

(** What [add] should leave: everything when it fits, otherwise the system
    message, if there is one, and the newest messages. *)
Definition keep_newest (max : nat) (l : list ChatMessage) : list ChatMessage :=
  match l with
  | m :: rest => if bool_decide (role m = System) then m :: last_n (max - 1) rest
                 else last_n max l
  | [] => []
  end.

Lemma conversation_add_keep c m :
  1 ≤ max_messages c → system_at_head (conv_messages c ++ [m]) →
  conv_messages (conversation_add c m) = keep_newest (max_messages c) (conv_messages c ++ [m]).
Proof.
  intros Hmax Hs. unfold conversation_add, keep_newest. cbn [conv_messages].
  destruct (conv_messages c ++ [m]) as [|h rest]; [done|]. unfold system_at_head in Hs. simpl in Hs.
  case_bool_decide as Hh.
  - rewrite trim_messages_system by (done || (simpl; lia)).
    by replace (Nat.max (max_messages c) 1) with (max_messages c) by lia.
  - apply trim_messages_plain; [by constructor|done].
Qed.

Lemma trim_messages_bound fuel max l :
  length l ≤ fuel → length (trim_messages fuel max l) ≤ Nat.max max 1.
Proof.
  revert l. induction fuel as [|fuel IH]; intros l Hf; [simpl; lia|].
  cbn [trim_messages]. case_bool_decide; [|lia].
  destruct l as [|m rest]; [simpl; lia|]. case_bool_decide.
  - destruct rest as [|x rest']; [simpl; lia|]. apply IH. simpl in *. lia.
  - apply IH. simpl in *. lia.
Qed.
End Memory.
Arguments ActionRecord : clear implicits.
Arguments ActionRecord {J D}.
Arguments ConversationMemory : clear implicits.
Arguments ConversationMemory {J}.
Arguments Memory : clear implicits.
Arguments Memory {J D}.

(** ** The context manager *)

Inductive JobError :=
| NotFound (id : Uuid)
| InvalidTransition (id : Uuid) (from_state target : JobState)
| JobFailed (id : Uuid) (reason : string)
| JobStuck (id : Uuid) (duration : Duration)
| MaxJobsExceeded (max : nat)
| ContextError (id : Uuid) (reason : string)
| PersistenceError (id : Uuid) (reason : string).

Section Manager.
Context {J : SerdeJson} {D : RustDecimal}.

Record ContextManager := {
  contexts : gmap Uuid JobContext;
  memories : gmap Uuid Memory;
  max_jobs : nat;
}.

Definition set_contexts (c : gmap Uuid JobContext) (m : ContextManager) : ContextManager := {|
  contexts := c; memories := memories m; max_jobs := max_jobs m |}.
Definition set_memories (x : gmap Uuid Memory) (m : ContextManager) : ContextManager := {|
  contexts := contexts m; memories := x; max_jobs := max_jobs m |}.

Definition manager_new (max : nat) : ContextManager := {|
  contexts := ∅; memories := ∅; max_jobs := max |}.

Definition active_count (m : ContextManager) : nat :=
  count_values (λ c, is_active (state c)) (contexts m).

(** The part of [create_job_for_user] under the lock on [contexts]. *)
Definition create_begin (m : ContextManager) (fresh : Uuid) (now : Utc)
    (uid ttl desc : string) : ContextManager * result Uuid JobError :=
  if bool_decide (max_jobs m ≤ active_count m) then (m, Err (MaxJobsExceeded (max_jobs m)))
  else
    let context := with_user fresh now uid ttl desc in
    (set_contexts (<[job_id context := context]> (contexts m)) m, Ok (job_id context)).

(** The part under the lock on [memories]. *)
Definition create_finish (m : ContextManager) (id : Uuid) : ContextManager :=
  set_memories (<[id := memory_new id]> (memories m)) m.

Definition create_job_for_user (m : ContextManager) (fresh : Uuid) (now : Utc)
    (uid ttl desc : string) : ContextManager * result Uuid JobError :=
  match create_begin m fresh now uid ttl desc with
  | (m, Ok id) => (create_finish m id, Ok id)
  | (m, Err e) => (m, Err e)
  end.

Definition create_job (m : ContextManager) (fresh : Uuid) (now : Utc) (ttl desc : string) :
    ContextManager * result Uuid JobError :=
  create_job_for_user m fresh now "default" ttl desc.

Definition get_context (m : ContextManager) (id : Uuid) : result JobContext JobError :=
  match contexts m !! id with Some c => Ok c | None => Err (NotFound id) end.

Definition update_context {R} (m : ContextManager) (id : Uuid)
    (f : JobContext → JobContext * R) : ContextManager * result R JobError :=
  match contexts m !! id with
  | Some c => let '(c', r) := f c in (set_contexts (<[id := c']> (contexts m)) m, Ok r)
  | None => (m, Err (NotFound id))
  end.

Definition get_memory (m : ContextManager) (id : Uuid) : result Memory JobError :=
  match memories m !! id with Some x => Ok x | None => Err (NotFound id) end.

Definition update_memory {R} (m : ContextManager) (id : Uuid)
    (f : Memory → Memory * R) : ContextManager * result R JobError :=
  match memories m !! id with
  | Some x => let '(x', r) := f x in (set_memories (<[id := x']> (memories m)) m, Ok r)
  | None => (m, Err (NotFound id))
  end.

(** Ids of the entries that satisfy a test, in some order. *)
Definition ids_where (p : JobContext → bool) (m : ContextManager) : list Uuid :=
  (filter (λ kv, p kv.2 = true) (map_to_list (contexts m))).*1.

Definition active_jobs (m : ContextManager) : list Uuid :=
  ids_where (λ c, is_active (state c)) m.
Definition all_jobs (m : ContextManager) : list Uuid := (map_to_list (contexts m)).*1.
Definition active_jobs_for (m : ContextManager) (uid : string) : list Uuid :=
  ids_where (λ c, bool_decide (user_id c = uid) && is_active (state c)) m.
Definition all_jobs_for (m : ContextManager) (uid : string) : list Uuid :=
  ids_where (λ c, bool_decide (user_id c = uid)) m.
Definition find_stuck_jobs (m : ContextManager) : list Uuid :=
  ids_where (λ c, bool_decide (state c = Stuck)) m.
Definition find_stuck_contexts (m : ContextManager) : list JobContext :=
  filter (λ c, state c = Stuck) (map_values (contexts m)).

(** The two critical sections of [remove_job]. *)
Definition remove_context (m : ContextManager) (id : Uuid) :
    ContextManager * result JobContext JobError :=
  match contexts m !! id with
  | Some c => (set_contexts (delete id (contexts m)) m, Ok c)
  | None => (m, Err (NotFound id))
  end.

Definition remove_memory (m : ContextManager) (id : Uuid) :
    ContextManager * result Memory JobError :=
  match memories m !! id with
  | Some x => (set_memories (delete id (memories m)) m, Ok x)
  | None => (m, Err (NotFound id))
  end.

Definition remove_job (m : ContextManager) (id : Uuid) :
    ContextManager * result (JobContext * Memory) JobError :=
  match remove_context m id with
  | (m, Err e) => (m, Err e)
  | (m, Ok c) =>
      match remove_memory m id with
      | (m, Err e) => (m, Err e)
      | (m, Ok x) => (m, Ok (c, x))
      end
  end.

Record ContextSummary := {
  sum_total : nat; sum_pending : nat; sum_in_progress : nat; sum_completed : nat;
  sum_submitted : nat; sum_accepted : nat; sum_failed : nat; sum_stuck : nat;
  sum_cancelled : nat;
}.

Definition summary_zero : ContextSummary := {|
  sum_total := 0; sum_pending := 0; sum_in_progress := 0; sum_completed := 0;
  sum_submitted := 0; sum_accepted := 0; sum_failed := 0; sum_stuck := 0;
  sum_cancelled := 0 |}.

Definition set_sum_total (n : nat) (s : ContextSummary) : ContextSummary := {|
  sum_total := n; sum_pending := sum_pending s; sum_in_progress := sum_in_progress s;
  sum_completed := sum_completed s; sum_submitted := sum_submitted s;
  sum_accepted := sum_accepted s; sum_failed := sum_failed s; sum_stuck := sum_stuck s;
  sum_cancelled := sum_cancelled s |}.

(** The [match ctx.state] of the summary loops. *)
Definition summary_count (s : ContextSummary) (st : JobState) : ContextSummary :=
  let bump (want : JobState) (n : nat) := if bool_decide (st = want) then n + 1 else n in {|
  sum_total := sum_total s;
  sum_pending := bump Pending (sum_pending s);
  sum_in_progress := bump InProgress (sum_in_progress s);
  sum_completed := bump Completed (sum_completed s);
  sum_submitted := bump Submitted (sum_submitted s);
  sum_accepted := bump Accepted (sum_accepted s);
  sum_failed := bump Failed (sum_failed s);
  sum_stuck := bump Stuck (sum_stuck s);
  sum_cancelled := bump Cancelled (sum_cancelled s) |}.

Definition summary (m : ContextManager) : ContextSummary :=
  let s := foldl (λ s c, summary_count s (state c)) summary_zero (map_values (contexts m)) in
  set_sum_total (size (contexts m)) s.

Definition summary_for (m : ContextManager) (uid : string) : ContextSummary :=
  let s := foldl (λ s c, summary_count s (state c)) summary_zero
             (filter (λ c, user_id c = uid) (map_values (contexts m))) in
  set_sum_total (sum_pending s + sum_in_progress s + sum_completed s + sum_submitted s
                 + sum_accepted s + sum_failed s + sum_stuck s + sum_cancelled s) s.

(** ** Concurrent use

    [creating] are the jobs between the two critical sections of
    [create_job_for_user], [removing] those between the two of
    [remove_job], [used] every id ever drawn. *)

Record MgrState := {
  mgr : ContextManager;
  creating : gset Uuid;
  removing : gset Uuid;
  used : gset Uuid;
}.

Inductive mgr_step (upd : JobContext → JobContext → Prop) : MgrState → MgrState → Prop :=
| step_create_begin s id now uid ttl desc m' :
    id ∉ used s →
    create_begin (mgr s) id now uid ttl desc = (m', Ok id) →
    mgr_step upd s {| mgr := m'; creating := {[id]} ∪ creating s;
                      removing := removing s; used := {[id]} ∪ used s |}
| step_create_finish s id :
    id ∈ creating s →
    mgr_step upd s {| mgr := create_finish (mgr s) id; creating := creating s ∖ {[id]};
                      removing := removing s; used := used s |}
| step_update_context s id (f : JobContext → JobContext * unit) :
    (∀ c, upd c (f c).1) →
    mgr_step upd s {| mgr := (update_context (mgr s) id f).1; creating := creating s;
                      removing := removing s; used := used s |}
| step_update_memory s id (f : Memory → Memory * unit) :
    mgr_step upd s {| mgr := (update_memory (mgr s) id f).1; creating := creating s;
                      removing := removing s; used := used s |}
| step_remove_context s id m' c :
    remove_context (mgr s) id = (m', Ok c) →
    mgr_step upd s {| mgr := m'; creating := creating s;
                      removing := {[id]} ∪ removing s; used := used s |}
| step_remove_memory s id :
    id ∈ removing s →
    mgr_step upd s {| mgr := (remove_memory (mgr s) id).1; creating := creating s;
                      removing := removing s ∖ {[id]}; used := used s |}.

Definition mgr_initial (max : nat) : MgrState := {|
  mgr := manager_new max; creating := ∅; removing := ∅; used := ∅ |}.

(** Updates that never bring a finished job back to life, such as every
    method of [JobContext] other than the rollback. *)
Definition no_revival (c c' : JobContext) : Prop :=
  is_active (state c') = true → is_active (state c) = true.

Lemma transition_to_no_revival c s r n1 n2 : no_revival c (transition_to c s r n1 n2).1.
Proof.
  unfold no_revival, transition_to. destruct (can_transition_to (state c) s) eqn:E; simpl; [|done].
  intros _. by destruct (state c).
Qed.

Lemma apply_op_no_revival c op :
  (∀ p, op ≠ OpRollback p) → no_revival c (apply_op c op).
Proof.
  intros Hop. destruct op; simpl; try (by apply transition_to_no_revival); unfold no_revival;
    try done.
  - by destruct (Hop previous).
  - unfold attempt_recovery. case_bool_decide as Hs; [|done]. by rewrite Hs.
  - unfold add_tokens. by case_match.
Qed.

(** *** Lemmas *)

Lemma max_jobs_step upd s s' : mgr_step upd s s' → max_jobs (mgr s') = max_jobs (mgr s).
Proof.
  destruct 1; simpl; try done;
    unfold create_begin, update_context, update_memory, remove_context, remove_memory in *;
    repeat case_match; by simplify_eq/=.
Qed.

(** Jobs are only added with fresh ids, and the two halves of creation and
    removal keep the maps in step. *)
Definition mgr_inv (s : MgrState) : Prop :=
  dom (contexts (mgr s)) ⊆ used s ∧
  creating s ⊆ used s ∧
  removing s ⊆ used s ∧
  dom (contexts (mgr s)) ⊆ dom (memories (mgr s)) ∪ creating s ∧
  dom (contexts (mgr s)) ## removing s.

Lemma mgr_step_inv upd s s' : mgr_inv s → mgr_step upd s s' → mgr_inv s'.
Proof.
  intros (H1 & H2 & H3 & H4 & H5) Hstep. unfold mgr_inv. destruct Hstep; simpl.
  - unfold create_begin in *. case_bool_decide; simplify_eq/=. rewrite dom_insert_L.
    set_solver.
  - rewrite dom_insert_L. split_and!; try done; [set_solver|].
    intros x Hx. destruct (decide (x = id)); set_solver.
  - unfold update_context. destruct (contexts (mgr s) !! id) as [c|] eqn:E; [|done].
    destruct (f c). simpl. rewrite dom_insert_lookup_L by eauto. done.
  - unfold update_memory. destruct (memories (mgr s) !! id) as [c|] eqn:E; [|done].
    destruct (f c). simpl. rewrite dom_insert_lookup_L by eauto. done.
  - unfold remove_context in *. destruct (contexts (mgr s) !! id) eqn:E; simplify_eq/=.
    rewrite dom_delete_L. apply elem_of_dom_2 in E. set_solver.
  - unfold remove_memory. destruct (memories (mgr s) !! id) as [c|] eqn:E; simpl.
    + rewrite dom_delete_L. split_and!; try done; [set_solver| |set_solver].
      intros x Hx. destruct (decide (x = id)); set_solver.
    + set_solver.
Qed.

Lemma mgr_step_active_count s s' :
  mgr_inv s → mgr_step no_revival s s' →
  active_count (mgr s) ≤ max_jobs (mgr s) → active_count (mgr s') ≤ max_jobs (mgr s').
Proof.
  intros Hinv Hstep Hle. pose proof (max_jobs_step _ _ _ Hstep) as Hmax.
  rewrite Hmax. destruct Hstep as [s id now uid ttl desc m' Hf Hc|s id Hin|s id f Hf|s id f
    |s id m' c Hr|s id Hin]; simpl in *.
  - unfold create_begin in Hc. case_bool_decide as Hn; simplify_eq/=.
    unfold active_count in *. simpl. rewrite count_values_insert; [simpl; lia|].
    destruct Hinv as (Hd & _). apply not_elem_of_dom. set_solver.
  - done.
  - unfold update_context. destruct (contexts (mgr s) !! id) as [c|] eqn:E; [|done].
    specialize (Hf c). destruct (f c) as [c' []] eqn:Ef. simpl in *.
    unfold active_count in *. simpl.
    pose proof (count_values_delete (λ c, is_active (state c)) _ _ _ E) as Hold.
    rewrite <-insert_delete_eq, count_values_insert by apply lookup_delete_eq.
    unfold no_revival in Hf. simpl in *. destruct (is_active (state c')); [|lia].
    rewrite Hf in Hold by done. simpl in Hold. lia.
  - unfold update_memory. case_match; [|done]. by destruct (f _).
  - unfold remove_context in Hr. destruct (contexts (mgr s) !! id) as [c0|] eqn:E; simplify_eq/=.
    unfold active_count in *. simpl.
    rewrite (count_values_delete _ _ _ _ E) in Hle. lia.
  - unfold remove_memory. by case_match.
Qed.

(** Counting by state. *)
Lemma summary_count_sum s st :
  sum_pending (summary_count s st) + sum_in_progress (summary_count s st)
  + sum_completed (summary_count s st) + sum_submitted (summary_count s st)
  + sum_accepted (summary_count s st) + sum_failed (summary_count s st)
  + sum_stuck (summary_count s st) + sum_cancelled (summary_count s st)
  = S (sum_pending s + sum_in_progress s + sum_completed s + sum_submitted s
       + sum_accepted s + sum_failed s + sum_stuck s + sum_cancelled s).
Proof. destruct st; simpl; lia. Qed.

(** The counter of a state. *)
Definition sum_field (st : JobState) (s : ContextSummary) : nat :=
  match st with
  | Pending => sum_pending s
  | InProgress => sum_in_progress s
  | Completed => sum_completed s
  | Submitted => sum_submitted s
  | Accepted => sum_accepted s
  | Failed => sum_failed s
  | Stuck => sum_stuck s
  | Cancelled => sum_cancelled s
  end.

Lemma sum_field_count st s st' :
  sum_field st (summary_count s st') = (if bool_decide (st' = st) then 1 else 0) + sum_field st s.
Proof. destruct st, st'; simpl; lia. Qed.

Lemma sum_field_fold st (l : list JobContext) s :
  sum_field st (foldl (λ s c, summary_count s (state c)) s l) =
  length (filter (λ c, state c = st) l) + sum_field st s.
Proof.
  revert s. induction l as [|c l IH]; intros s; simpl; [done|].
  rewrite IH, sum_field_count, filter_cons. case_bool_decide; case_decide; simpl; done || lia.
Qed.
End Manager.
Arguments ContextManager : clear implicits.
Arguments ContextManager {J D}.
Arguments MgrState : clear implicits.
Arguments MgrState {J D}.

(** ** Properties *)

Section Properties.
Context {J : SerdeJson} {D : RustDecimal}.

Lemma mgr_reachable_inv upd max (s : MgrState) :
  rtc (mgr_step upd) (mgr_initial max) s → mgr_inv s.
Proof.
  apply rtc_invariant; [intros; by eapply mgr_step_inv|].
  unfold mgr_inv, mgr_initial. simpl. set_solver.
Qed.

(** However creations, updates and removals interleave, the number of
    active jobs never exceeds the configured maximum, provided updates do
    not bring finished jobs back to life. *)
Theorem manager_job_cap max (s : MgrState)
    (Hreach : rtc (mgr_step no_revival) (mgr_initial max) s) :
  active_count (mgr s) ≤ max.
Proof.
  destruct (rtc_invariant (mgr_step no_revival)
    (λ s, mgr_inv s ∧ max_jobs (mgr s) = max ∧ active_count (mgr s) ≤ max_jobs (mgr s)))
    with (s := mgr_initial max) (s' := s) as (_ & Hm & Ha); [..|done|congruence].
  - intros s1 s2 (Hi & Hm & Ha) Hstep. split_and!.
    + by eapply mgr_step_inv.
    + by rewrite (max_jobs_step _ _ _ Hstep).
    + by eapply mgr_step_active_count.
  - split_and!; [|done|unfold active_count; simpl; rewrite count_values_empty; lia].
    unfold mgr_inv, mgr_initial. simpl. set_solver.
Qed.

(** However operations interleave, a job whose creation has finished
    and that is found has its memory, so removing it returns both. *)
Theorem manager_memory_present upd max (s : MgrState) id c
    (Hreach : rtc (mgr_step upd) (mgr_initial max) s)
    (Hctx : get_context (mgr s) id = Ok c) (Hdone : id ∉ creating s) :
  ∃ x, get_memory (mgr s) id = Ok x ∧ (remove_job (mgr s) id).2 = Ok (c, x) ∧
       get_context (remove_job (mgr s) id).1 id = Err (NotFound id).
Proof.
  destruct (mgr_reachable_inv _ _ _ Hreach) as (_ & _ & _ & Hd & _).
  unfold get_context in Hctx. destruct (contexts (mgr s) !! id) as [c0|] eqn:E; simplify_eq.
  assert (id ∈ dom (memories (mgr s))) as Hm by (apply elem_of_dom_2 in E; set_solver).
  apply elem_of_dom in Hm as [x Hx]. exists x.
  unfold get_memory, remove_job, remove_context, remove_memory, get_context.
  rewrite Hx, E. simpl. rewrite Hx. simpl. by rewrite lookup_delete_eq.
Qed.

(** The summary's counters are the numbers of jobs in each state, over
    all jobs and per user; the totals are their sums, the number of jobs,
    and the active jobs plus the three terminal counters. *)
Theorem summary_counts (m : ContextManager) uid :
  (∀ st, sum_field st (summary m) = count_values (λ c, bool_decide (state c = st)) (contexts m)) ∧
  (∀ st, sum_field st (summary_for m uid) =
         count_values (λ c, bool_decide (user_id c = uid) && bool_decide (state c = st)) (contexts m)) ∧
  sum_total (summary m) = size (contexts m) ∧
  sum_total (summary m) = active_count m + sum_accepted (summary m) + sum_failed (summary m)
                          + sum_cancelled (summary m) ∧
  sum_total (summary_for m uid) = length (all_jobs_for m uid).
Proof.
  assert (∀ st, sum_field st (summary m) =
    length (filter (λ c, state c = st) (map_values (contexts m)))) as Hf.
  { intros st. unfold summary. cbv zeta.
    replace (sum_field st (set_sum_total _ _)) with
      (sum_field st (foldl (λ s c, summary_count s (state c)) summary_zero
         (map_values (contexts m)))) by (by destruct st).
    rewrite sum_field_fold. destruct st; simpl; lia. }
  split_and!.
  - intros st. rewrite Hf. unfold count_values. f_equal. apply list_filter_iff.
    intros c. by rewrite bool_decide_eq_true.
  - intros st. unfold summary_for. cbv zeta.
    replace (sum_field st (set_sum_total _ _)) with
      (sum_field st (foldl (λ s c, summary_count s (state c)) summary_zero
         (filter (λ c, user_id c = uid) (map_values (contexts m))))) by (by destruct st).
    rewrite sum_field_fold, list_filter_filter. unfold count_values.
    replace (sum_field st summary_zero) with 0 by (by destruct st). rewrite Nat.add_0_r.
    f_equal. apply list_filter_iff. intros c.
    rewrite andb_true_iff, !bool_decide_eq_true. tauto.
  - done.
  - change (sum_accepted (summary m)) with (sum_field Accepted (summary m)).
    change (sum_failed (summary m)) with (sum_field Failed (summary m)).
    change (sum_cancelled (summary m)) with (sum_field Cancelled (summary m)).
    rewrite !Hf. unfold active_count, count_values. simpl.
    rewrite <-length_map_to_list, <-(length_fmap snd). fold (map_values (contexts m)).
    clear Hf. induction (map_values (contexts m)) as [|c l IH]; [done|].
    rewrite !filter_cons. simpl. rewrite IH.
    destruct (state c); repeat case_decide; simplify_eq/=; done || lia.
  - unfold summary_for, all_jobs_for, ids_where. cbv zeta. cbn [sum_total set_sum_total].
    rewrite length_fmap.
    assert (∀ (l : list JobContext) s,
      let r := foldl (λ s c, summary_count s (state c)) s l in
      sum_pending r + sum_in_progress r + sum_completed r + sum_submitted r + sum_accepted r
      + sum_failed r + sum_stuck r + sum_cancelled r =
      length l + (sum_pending s + sum_in_progress s + sum_completed s + sum_submitted s
      + sum_accepted s + sum_failed s + sum_stuck s + sum_cancelled s)) as Hsum.
    { intros l. induction l as [|c l IH]; intros s; simpl; [done|].
      rewrite IH, summary_count_sum. lia. }
    rewrite Hsum. simpl. rewrite Nat.add_0_r. unfold map_values.
    induction (map_to_list (contexts m)) as [|[k c] l IH]; [done|].
    rewrite fmap_cons, !filter_cons. simpl. case_bool_decide; repeat case_decide; simpl;
      try done; rewrite IH; done.
Qed.

(** Adding a message never leaves more than [max_messages] messages
    (one, if the limit is zero); when the only system message is at the
    head, the conversation keeps it and the newest other messages. *)
Theorem conversation_add_spec (c : ConversationMemory) msg :
  length (conv_messages (conversation_add c msg)) ≤ Nat.max (max_messages c) 1 ∧
  (1 ≤ max_messages c → system_at_head (conv_messages c ++ [msg]) →
   conv_messages (conversation_add c msg) =
     keep_newest (max_messages c) (conv_messages c ++ [msg]) ∧
   system_at_head (conv_messages (conversation_add c msg))).
Proof.
  split; [apply trim_messages_bound; done|].
  intros Hmax Hs. split; [by apply conversation_add_keep|].
  rewrite conversation_add_keep by done. unfold keep_newest, system_at_head in *.
  destruct (conv_messages c ++ [msg]) as [|h rest]; [done|]. simpl in Hs.
  case_bool_decide as Hh; simpl.
  - unfold last_n. by apply Forall_drop.
  - assert (Forall (λ m, role m ≠ System) (last_n (max_messages c) (h :: rest))) as HF
      by (apply Forall_drop; by constructor).
    by destruct HF.
Qed.
End Properties.

(** ** Witnesses *)

Section Witnesses.
#[local] Existing Instance json_lite.
#[local] Existing Instance dec_cents.

(** A manager with room for one job, in which one job was created. *)
Definition one_begun : MgrState := {|
  mgr := (create_begin (manager_new 1) 7 0 "u" "t" "d").1;
  creating := {[7%N]} ∪ ∅; removing := ∅; used := {[7%N]} ∪ ∅ |}.
Definition one_created : MgrState := {|
  mgr := create_finish (mgr one_begun) 7;
  creating := creating one_begun ∖ {[7%N]}; removing := ∅; used := used one_begun |}.

Lemma one_created_reachable upd : rtc (mgr_step upd) (mgr_initial 1) one_created.
Proof.
  apply rtc_l with one_begun.
  - apply (step_create_begin upd (mgr_initial 1) 7 0 "u" "t" "d"); [|reflexivity].
    simpl. set_solver.
  - apply rtc_once. apply (step_create_finish upd one_begun 7). simpl. set_solver.
Qed.

Lemma manager_job_cap_witness :
  active_count (mgr one_created) = 1 ∧ active_count (mgr one_created) ≤ 1.
Proof.
  split; [vm_compute; reflexivity|].
  exact (manager_job_cap 1 one_created (one_created_reachable no_revival)).
Defined.

Lemma manager_memory_present_witness :
  ∃ x, get_memory (mgr one_created) 7 = Ok x ∧
       (remove_job (mgr one_created) 7).2 = Ok (with_user 7 0 "u" "t" "d", x) ∧
       get_context (remove_job (mgr one_created) 7).1 7 = Err (NotFound 7).
Proof.
  apply (manager_memory_present no_revival 1 one_created 7);
    [apply one_created_reachable|reflexivity|].
  apply (bool_decide_eq_true_1 (7%N ∉ creating one_created)). vm_compute. reflexivity.
Defined.

(** With the rollback as an update the cap can be exceeded: after a job is
    cancelled its slot is taken by a new one, and rolling the cancellation
    back leaves two active jobs where one is allowed. *)
Lemma rollback_exceeds_cap :
  let run m id op := (update_context m id (λ c, (apply_op c op, tt))).1 in
  let m := (create_job (manager_new 1) 1 0 "t" "d").1 in
  let m := run m 1%N (OpTransition Cancelled None 1 1) in
  let m := (create_job m 2 2 "t" "d").1 in
  let m := run m 1%N (OpRollback Pending) in
  max_jobs m = 1 ∧ active_count m = 2.
Proof. vm_compute. done. Qed.
End Witnesses.
