(* ===== verification/CircuitBreaker.v ===== *)
(** * Circuit breaker

    Models [src/src/llm/circuit_breaker.rs]: the breaker's state machine
    (closed, open, half-open), the admission check and the two recording
    operations, and the provider that wraps another one with them.  Each of
    the three operations runs under the breaker's mutex, but the call in
    between does not hold it, so concurrent callers interleave: the step
    relation [cb_step] has one step per critical section. *)

From S2P Require Import Prelude Externals Text LlmTypes.

(** ** Data *)

Record CircuitBreakerConfig := {
  failure_threshold : Z;
  recovery_timeout : Duration;
  half_open_successes_needed : Z;
}.

Definition breaker_config_default : CircuitBreakerConfig := {|
  failure_threshold := 5; recovery_timeout := secs 30; half_open_successes_needed := 2 |}.

Inductive CircuitState := Closed | Open | HalfOpen.

#[export] Instance CircuitState_eq_dec : EqDecision CircuitState.
Proof. solve_decision. Defined.

Record BreakerState := {
  circuit : CircuitState;
  consecutive_failures : Z;
  opened_at : option Instant;
  half_open_successes : Z;
}.

Definition breaker_new : BreakerState := {|
  circuit := Closed; consecutive_failures := 0; opened_at := None; half_open_successes := 0 |}.

(** The state after [self.state = st] and the like. *)
Definition set_circuit (st : CircuitState) (b : BreakerState) : BreakerState := {|
  circuit := st; consecutive_failures := consecutive_failures b;
  opened_at := opened_at b; half_open_successes := half_open_successes b |}.

(** Rendering of a duration in whole seconds ([{:.0}] of [as_secs_f64]):
    nearest, ties to even. *)
Definition round_secs (d : Duration) : Z :=
  let q := (d / secs 1)%Z in
  let r := (d mod secs 1)%Z in
  if (2 * r <? secs 1)%Z then q
  else if (secs 1 <? 2 * r)%Z then (q + 1)%Z
  else if Z.even q then q else (q + 1)%Z.

(** ** Operations *)

Section Breaker.
Context (cfg : CircuitBreakerConfig).

(** [now1] and [now2] are the two readings of the clock. *)
Definition check_allowed (model : string) (now1 now2 : Instant) (b : BreakerState) :
    BreakerState * result unit LlmError :=
  match circuit b with
  | Closed | HalfOpen => (b, Ok tt)
  | Open =>
      match opened_at b with
      | Some at_ =>
          if (recovery_timeout cfg <=? elapsed now1 at_)%Z then
            ({| circuit := HalfOpen; consecutive_failures := consecutive_failures b;
                opened_at := opened_at b; half_open_successes := 0 |}, Ok tt)
          else
            let remaining := Z.max 0 (recovery_timeout cfg - elapsed now2 at_) in
            (b, Err (RequestFailed model
                 ("Circuit breaker open (" +:+ pretty (consecutive_failures b)
                  +:+ " consecutive failures, recovery in " +:+ pretty (round_secs remaining)
                  +:+ "s)")))
      | None => (set_circuit Closed b, Ok tt)
      end
  end.

Definition record_success (b : BreakerState) : BreakerState :=
  match circuit b with
  | Closed => {| circuit := Closed; consecutive_failures := 0; opened_at := opened_at b;
                 half_open_successes := half_open_successes b |}
  | HalfOpen =>
      let n := wrap_u32 (half_open_successes b + 1) in
      if (half_open_successes_needed cfg <=? n)%Z then
        {| circuit := Closed; consecutive_failures := 0; opened_at := None;
           half_open_successes := n |}
      else
        {| circuit := HalfOpen; consecutive_failures := consecutive_failures b;
           opened_at := opened_at b; half_open_successes := n |}
  | Open => {| circuit := Closed; consecutive_failures := 0; opened_at := None;
               half_open_successes := half_open_successes b |}
  end.

Definition is_transient (err : LlmError) : bool :=
  match err with
  | RequestFailed _ _ | RateLimited _ _ | InvalidResponse _ _ | SessionExpired _
  | SessionRenewalFailed _ _ | HttpError _ | IoError _ => true
  | _ => false
  end.

Definition record_failure (err : LlmError) (now : Instant) (b : BreakerState) : BreakerState :=
  if negb (is_transient err) then b
  else
    match circuit b with
    | Closed =>
        let n := wrap_u32 (consecutive_failures b + 1) in
        if (failure_threshold cfg <=? n)%Z then
          {| circuit := Open; consecutive_failures := n; opened_at := Some now;
             half_open_successes := half_open_successes b |}
        else
          {| circuit := Closed; consecutive_failures := n; opened_at := opened_at b;
             half_open_successes := half_open_successes b |}
    | HalfOpen => {| circuit := Open; consecutive_failures := consecutive_failures b;
                     opened_at := Some now; half_open_successes := 0 |}
    | Open => b
    end.

(** What a call reports to the breaker. *)
Definition record {A} (r : result A LlmError) (now : Instant) (b : BreakerState) :
    BreakerState :=
  match r with
  | Ok _ => record_success b
  | Err e => record_failure e now b
  end.
End Breaker.

(** ** The wrapping provider *)

Record CircuitBreakerProvider (P : Type) := {
  cb_inner : P;
  cb_state : BreakerState;
  cb_config : CircuitBreakerConfig;
}.
Arguments cb_inner {P}.
Arguments cb_state {P}.
Arguments cb_config {P}.

Section Provider.
Context {J : SerdeJson} {D : RustDecimal} {P : Type} `{!LlmProvider P}.

Definition circuit_breaker_new (inner : P) (cfg : CircuitBreakerConfig) :
    CircuitBreakerProvider P := {|
  cb_inner := inner; cb_state := breaker_new; cb_config := cfg |}.

Definition cb_set_state (p : CircuitBreakerProvider P) (b : BreakerState) :
    CircuitBreakerProvider P := {|
  cb_inner := cb_inner p; cb_state := b; cb_config := cb_config p |}.
Definition cb_set_inner (p : CircuitBreakerProvider P) (i : P) : CircuitBreakerProvider P := {|
  cb_inner := i; cb_state := cb_state p; cb_config := cb_config p |}.

(** The shared body of [complete] and [complete_with_tools]: check, call the
    wrapped provider, record the outcome. *)
Definition guarded {A} (call : P → Instant → P * Instant * result A LlmError)
    (p : CircuitBreakerProvider P) (now : Instant) :
    CircuitBreakerProvider P * Instant * result A LlmError :=
  match check_allowed (cb_config p) (model_name (cb_inner p)) now now (cb_state p) with
  | (b, Err e) => (cb_set_state p b, now, Err e)
  | (b, Ok _) =>
      let '(i, t, r) := call (cb_inner p) now in
      (cb_set_state (cb_set_inner p i) (record (cb_config p) r t b), t, r)
  end.

Definition breaker_provider : LlmProvider (CircuitBreakerProvider P) := {|
  model_name p := model_name (cb_inner p);
  cost_per_token p := cost_per_token (cb_inner p);
  complete p now req := guarded (λ i t, complete i t req) p now;
  complete_with_tools p now req := guarded (λ i t, complete_with_tools i t req) p now;
  list_models p := let '(i, r) := list_models (cb_inner p) in (cb_set_inner p i, r);
  model_metadata p := let '(i, r) := model_metadata (cb_inner p) in (cb_set_inner p i, r);
  effective_model_name p req :=
    let '(i, r) := effective_model_name (cb_inner p) req in (cb_set_inner p i, r);
  active_model_name p := active_model_name (cb_inner p);
  set_model p model := let '(i, r) := set_model (cb_inner p) model in (cb_set_inner p i, r);
  calculate_cost p := calculate_cost (cb_inner p);
  cache_write_multiplier p := cache_write_multiplier (cb_inner p);
  cache_read_discount p := cache_read_discount (cb_inner p);
|}.
End Provider.

(** ** Concurrent callers

    The breaker, the clock, and the number of admitted calls whose outcome
    is not recorded yet. *)

Record CbWorld := {
  breaker : BreakerState;
  clock : Instant;
  in_flight : nat;
}.

Inductive cb_step (cfg : CircuitBreakerConfig) : CbWorld → CbWorld → Prop :=
| cb_tick w t : (clock w <= t)%Z →
    cb_step cfg w {| breaker := breaker w; clock := t; in_flight := in_flight w |}
| cb_admit w model now2 b :
    check_allowed cfg model (clock w) now2 (breaker w) = (b, Ok tt) →
    cb_step cfg w {| breaker := b; clock := clock w; in_flight := S (in_flight w) |}
| cb_reject w model now2 b e :
    check_allowed cfg model (clock w) now2 (breaker w) = (b, Err e) →
    cb_step cfg w {| breaker := b; clock := clock w; in_flight := in_flight w |}
| cb_succeeded w n : in_flight w = S n →
    cb_step cfg w {| breaker := record_success cfg (breaker w); clock := clock w;
                     in_flight := n |}
| cb_failed w n e : in_flight w = S n →
    cb_step cfg w {| breaker := record_failure cfg e (clock w) (breaker w); clock := clock w;
                     in_flight := n |}
| cb_cancelled w n : in_flight w = S n →
    cb_step cfg w {| breaker := breaker w; clock := clock w; in_flight := n |}.

Definition cb_initial (t : Instant) : CbWorld := {|
  breaker := breaker_new; clock := t; in_flight := 0 |}.

(** ** Invariant *)

(** The counters stay below their thresholds while they count, hence never
    wrap, and an open circuit knows when it opened. *)
Definition breaker_inv (cfg : CircuitBreakerConfig) (now : Instant) (b : BreakerState) : Prop :=
  (0 <= consecutive_failures b <= Z.max 1 (failure_threshold cfg))%Z ∧
  (0 <= half_open_successes b <= Z.max 1 (half_open_successes_needed cfg))%Z ∧
  match circuit b with
  | Closed => (consecutive_failures b < Z.max 1 (failure_threshold cfg))%Z
  | Open => ∃ t, opened_at b = Some t ∧ (t <= now)%Z
  | HalfOpen => (half_open_successes b < Z.max 1 (half_open_successes_needed cfg))%Z
  end.

(** The configured thresholds are [u32] values. *)
Definition config_ok (cfg : CircuitBreakerConfig) : Prop :=
  (0 <= failure_threshold cfg <= u32_max ∧
   0 <= half_open_successes_needed cfg <= u32_max ∧ 0 <= recovery_timeout cfg)%Z.

Section Invariant.
Context (cfg : CircuitBreakerConfig) (Hcfg : config_ok cfg).

Lemma breaker_new_inv now : breaker_inv cfg now breaker_new.
Proof. unfold breaker_inv, breaker_new. simpl. lia. Qed.

Lemma breaker_inv_later now now' b :
  (now <= now')%Z → breaker_inv cfg now b → breaker_inv cfg now' b.
Proof.
  intros Hle (Hc & Hh & Hs). split; [done|]. split; [done|].
  destruct (circuit b); [done| |done].
  destruct Hs as (t & ? & ?). exists t. split; [done|lia].
Qed.

Lemma check_allowed_inv model now now2 b b' r :
  breaker_inv cfg now b → check_allowed cfg model now now2 b = (b', r) → breaker_inv cfg now b'.
Proof.
  intros (Hc & Hh & Hs). unfold check_allowed. destruct (circuit b) eqn:E.
  - intros. simplify_eq. unfold breaker_inv. by rewrite E.
  - destruct Hs as (t & Ht & Hle). rewrite Ht.
    destruct (_ <=? _)%Z eqn:El; intros; simplify_eq; unfold breaker_inv; simpl; [lia|].
    rewrite E. eauto.
  - intros. simplify_eq. unfold breaker_inv. by rewrite E.
Qed.

Lemma record_success_inv now b :
  breaker_inv cfg now b → breaker_inv cfg now (record_success cfg b).
Proof.
  destruct Hcfg as (? & ? & ?). unfold u32_max in *.
  intros (Hc & Hh & Hs). unfold record_success. destruct (circuit b) eqn:E;
    unfold breaker_inv; simpl; [lia|lia|].
  rewrite wrap_u32_small by (unfold u32_max; lia).
  destruct (half_open_successes_needed cfg <=? _)%Z eqn:El; zify_bool; simpl; lia.
Qed.

Lemma record_failure_inv e now b :
  breaker_inv cfg now b → breaker_inv cfg now (record_failure cfg e now b).
Proof.
  destruct Hcfg as (? & ? & ?). unfold u32_max in *.
  intros Hinv. unfold record_failure. destruct (is_transient e); [|done]. simpl.
  pose proof Hinv as (Hc & Hh & Hs). destruct (circuit b) eqn:E.
  - rewrite wrap_u32_small by (unfold u32_max; lia).
    destruct (failure_threshold cfg <=? _)%Z eqn:El; zify_bool; unfold breaker_inv; simpl;
      split_and!; try lia. by exists now.
  - done.
  - unfold breaker_inv. simpl. split_and!; try lia. by exists now.
Qed.

Lemma cb_step_inv w w' :
  breaker_inv cfg (clock w) (breaker w) → cb_step cfg w w' →
  breaker_inv cfg (clock w') (breaker w').
Proof.
  intros Hinv Hstep. destruct Hstep; simpl; try done.
  - by eapply breaker_inv_later.
  - by eapply check_allowed_inv.
  - by eapply check_allowed_inv.
  - by apply record_success_inv.
  - by apply record_failure_inv.
Qed.

Lemma cb_reachable_inv t w : rtc (cb_step cfg) (cb_initial t) w →
  breaker_inv cfg (clock w) (breaker w).
Proof.
  apply (rtc_invariant (cb_step cfg) (λ w, breaker_inv cfg (clock w) (breaker w))).
  - intros; by eapply cb_step_inv.
  - apply breaker_new_inv.
Qed.
End Invariant.

(** ** Sequences of outcomes *)

Inductive outcome := Succeeded | FailedWith (e : LlmError) (now : Instant).

Definition apply_outcome (cfg : CircuitBreakerConfig) (b : BreakerState) (o : outcome) :
    BreakerState :=
  match o with
  | Succeeded => record_success cfg b
  | FailedWith e now => record_failure cfg e now b
  end.

(** The number of transient failures since the last success: the quantity
    the breaker is meant to bound. *)
Definition count_outcome (n : Z) (o : outcome) : Z :=
  match o with
  | Succeeded => 0
  | FailedWith e _ => if is_transient e then (n + 1)%Z else n
  end.
Definition failure_run (outs : list outcome) : Z := foldl count_outcome 0%Z outs.

Section Outcomes.
Context (cfg : CircuitBreakerConfig) (Hcfg : config_ok cfg).
Implicit Types (outs : list outcome).

Abbreviation limit := (Z.max 1 (failure_threshold cfg)).

Lemma failure_run_snoc outs o : failure_run (outs ++ [o]) = count_outcome (failure_run outs) o.
Proof. unfold failure_run. by rewrite foldl_app. Qed.

Lemma failure_run_nonneg outs : (0 <= failure_run outs)%Z.
Proof.
  induction outs as [|o outs IH] using rev_ind; [done|].
  rewrite failure_run_snoc. destruct o; simpl; [lia|]. case_match; lia.
Qed.

Lemma record_failure_closed e now n oa h :
  is_transient e = true → (0 <= n < limit)%Z →
  record_failure cfg e now {| circuit := Closed; consecutive_failures := n;
                              opened_at := oa; half_open_successes := h |} =
  {| circuit := if (limit <=? n + 1)%Z then Open else Closed;
     consecutive_failures := n + 1;
     opened_at := if (limit <=? n + 1)%Z then Some now else oa;
     half_open_successes := h |}.
Proof.
  destruct Hcfg as (? & _). intros He Hn. unfold record_failure. rewrite He. simpl.
  rewrite wrap_u32_small by (unfold u32_max in *; lia).
  destruct (Z.leb_spec (failure_threshold cfg) (n + 1)), (Z.leb_spec limit (n + 1)); done || lia.
Qed.

Lemma closed_run outs :
  (∀ p, p `prefix_of` outs → (failure_run p < limit)%Z) →
  foldl (apply_outcome cfg) breaker_new outs =
  {| circuit := Closed; consecutive_failures := failure_run outs; opened_at := None;
     half_open_successes := 0 |}.
Proof.
  induction outs as [|o outs IH] using rev_ind; intros Hp; [done|].
  rewrite foldl_app, IH by (intros p Hpre; apply Hp; by apply prefix_app_r).
  pose proof (Hp (outs ++ [o]) (reflexivity _)) as Hlt.
  pose proof (failure_run_nonneg outs). rewrite failure_run_snoc in *.
  destruct o as [|e now]; simpl in *; [done|].
  destruct (is_transient e) eqn:E; [|by unfold record_failure; rewrite E].
  rewrite record_failure_closed by (done || lia).
  destruct (Z.leb_spec limit (failure_run outs + 1)); done || lia.
Qed.

Lemma half_open_run n fs oa :
  (Z.of_nat n < Z.max 1 (half_open_successes_needed cfg))%Z →
  foldl (apply_outcome cfg) {| circuit := HalfOpen; consecutive_failures := fs;
                               opened_at := oa; half_open_successes := 0 |}
    (replicate n Succeeded) =
  {| circuit := HalfOpen; consecutive_failures := fs; opened_at := oa;
     half_open_successes := Z.of_nat n |}.
Proof.
  destruct Hcfg as (_ & ? & _). induction n as [|n IH]; intros Hn; [done|].
  rewrite replicate_S_end, foldl_app, IH by lia. simpl. unfold record_success. simpl.
  rewrite wrap_u32_small by (unfold u32_max in *; lia).
  destruct (Z.leb_spec (half_open_successes_needed cfg) (Z.of_nat n + 1)); [lia|].
  f_equal. lia.
Qed.
End Outcomes.

(** ** Properties *)

(** However calls interleave, the counters stay within their
    thresholds (so they never wrap), an open circuit has its opening time,
    and a call is rejected exactly while the circuit is open and its
    recovery timeout has not elapsed; a rejection changes nothing, and the
    first call admitted after the timeout makes the circuit half-open. *)
Theorem breaker_gate cfg t w model now2
    (Hcfg : config_ok cfg) (Hreach : rtc (cb_step cfg) (cb_initial t) w) :
  let b := breaker w in
  let r := check_allowed cfg model (clock w) now2 b in
  breaker_inv cfg (clock w) b ∧
  (is_ok r.2 = false ↔
     circuit b = Open ∧ ∃ t0, opened_at b = Some t0 ∧ (clock w < t0 + recovery_timeout cfg)%Z) ∧
  (is_ok r.2 = false → r.1 = b) ∧
  (is_ok r.2 = true → circuit b = Open → circuit r.1 = HalfOpen ∧ half_open_successes r.1 = 0%Z).
Proof.
  intros b r. pose proof (cb_reachable_inv cfg Hcfg t w Hreach) as Hinv.
  split; [done|]. subst r. unfold check_allowed. fold b in Hinv.
  pose proof Hinv as (_ & _ & Hs). destruct (circuit b) eqn:E; [naive_solver| |naive_solver].
  destruct Hs as (t0 & Ht0 & Hle). rewrite Ht0. unfold elapsed.
  destruct (Z.leb_spec (recovery_timeout cfg) (Z.max 0 (clock w - t0))) as [Hl|Hl]; simpl;
    split_and!; try done; destruct Hcfg as (_ & _ & Hr).
  - split; [done|]. intros (_ & t1 & ? & ?). simplify_eq. lia.
  - split; [|done]. intros _. split; [done|]. exists t0. split; [done|lia].
Qed.

(** Starting closed, the circuit stays closed as long as no run of
    transient failures without a success between them reaches the
    threshold, counts exactly the current run, and the failure that makes
    the run reach the threshold opens it at that moment. *)
Theorem breaker_trips_exactly cfg outs e now
    (Hcfg : config_ok cfg)
    (Hbelow : ∀ p, p `prefix_of` outs →
       (failure_run p < Z.max 1 (failure_threshold cfg))%Z)
    (He : is_transient e = true) :
  let b := foldl (apply_outcome cfg) breaker_new outs in
  let b' := record_failure cfg e now b in
  circuit b = Closed ∧ consecutive_failures b = failure_run outs ∧
  (circuit b' = Open ↔ (failure_threshold cfg <= failure_run outs + 1)%Z) ∧
  (circuit b' = Open → opened_at b' = Some now).
Proof.
  intros b b'. subst b'. unfold b. rewrite closed_run by done.
  pose proof (failure_run_nonneg outs). pose proof (Hbelow outs (reflexivity _)).
  rewrite record_failure_closed by (done || lia). simpl.
  split_and!; [done|done| |];
    destruct (Z.leb_spec (Z.max 1 (failure_threshold cfg)) (failure_run outs + 1)); try done.
  - split; [lia|done].
  - split; [done|lia].
Qed.

(** Recovery: when the timeout of an open circuit has elapsed the next
    call is admitted as a probe; the circuit stays half-open until the
    configured number of probes succeeded and then is closed with cleared
    counters, and a transient failure before that reopens it with a new
    timeout. *)
Theorem breaker_recovers cfg model b t0 now now2 n e t1
    (Hcfg : config_ok cfg) (Hopen : circuit b = Open) (Hat : opened_at b = Some t0)
    (Helapsed : (t0 + recovery_timeout cfg <= now)%Z)
    (Hn : (Z.of_nat n < Z.max 1 (half_open_successes_needed cfg))%Z)
    (He : is_transient e = true) :
  let r := check_allowed cfg model now now2 b in
  let b' := foldl (apply_outcome cfg) r.1 (replicate n Succeeded) in
  r.2 = Ok tt ∧ circuit b' = HalfOpen ∧
  circuit (record_success cfg b') =
    (if (half_open_successes_needed cfg <=? Z.of_nat n + 1)%Z then Closed else HalfOpen) ∧
  (circuit (record_success cfg b') = Closed →
     consecutive_failures (record_success cfg b') = 0%Z ∧
     opened_at (record_success cfg b') = None) ∧
  circuit (record_failure cfg e t1 b') = Open ∧
  opened_at (record_failure cfg e t1 b') = Some t1.
Proof.
  intros r b'. pose proof Hcfg as (_ & Hu & Hr). unfold b', r, check_allowed.
  rewrite Hopen, Hat. unfold elapsed.
  destruct (Z.leb_spec (recovery_timeout cfg) (Z.max 0 (now - t0))); [|lia]. cbn [fst snd].
  rewrite half_open_run by done. unfold record_success, record_failure. simpl. rewrite He. simpl.
  rewrite wrap_u32_small by (unfold u32_max in *; lia).
  destruct (half_open_successes_needed cfg <=? Z.of_nat n + 1)%Z; by split_and!.
Qed.

(** With concurrent callers an open circuit does not always reject for
    the whole recovery timeout: a call admitted before the circuit opened
    that succeeds afterwards closes it at once, however long the timeout. *)
Theorem late_success_closes_open_circuit (timeout : Duration) (Hpos : (0 < timeout)%Z) :
  let cfg := {| failure_threshold := 1; recovery_timeout := timeout;
                half_open_successes_needed := 2 |} in
  ∃ w w' : CbWorld,
    rtc (cb_step cfg) (cb_initial 0) w ∧ cb_step cfg w w' ∧
    circuit (breaker w) = Open ∧ opened_at (breaker w) = Some (clock w) ∧
    clock w' = clock w ∧ circuit (breaker w') = Closed.
Proof.
  intros cfg.
  set (w k := {| breaker := breaker_new; clock := 0%Z; in_flight := k |}).
  set (err := RequestFailed "" "").
  set (o := {| breaker := record_failure cfg err 0 breaker_new; clock := 0%Z; in_flight := 1 |}).
  exists o, {| breaker := record_success cfg (breaker o); clock := 0%Z; in_flight := 0 |}.
  split_and!; try done.
  - apply rtc_l with (w 1); [by apply (cb_admit cfg (w 0) "" 0)|].
    apply rtc_l with (w 2); [by apply (cb_admit cfg (w 1) "" 0)|].
    apply rtc_once. by apply (cb_failed cfg (w 2) 1 err).
  - by apply (cb_succeeded cfg o 0).
Qed.

(** A rejected call does not reach the wrapped provider; an admitted one
    reaches it exactly once and returns its answer. *)
Lemma guarded_calls `{LlmProvider P} {A} (call : P → Instant → P * Instant * result A LlmError)
    (p : CircuitBreakerProvider P) now :
  let q := guarded call p now in
  if is_ok (check_allowed (cb_config p) (model_name (cb_inner p)) now now (cb_state p)).2
  then cb_inner q.1.1 = (call (cb_inner p) now).1.1 ∧ q.2 = (call (cb_inner p) now).2
  else cb_inner q.1.1 = cb_inner p ∧ is_ok q.2 = false.
Proof.
  cbv zeta. unfold guarded.
  destruct (check_allowed _ _ _ _ _) as [b [u|e]]; simpl; [|done].
  by destruct (call _ _) as [[i t] r].
Qed.

(** ** Witnesses *)

Definition demo_cfg : CircuitBreakerConfig := {|
  failure_threshold := 2; recovery_timeout := secs 30; half_open_successes_needed := 2 |}.

Lemma demo_cfg_ok : config_ok demo_cfg.
Proof. unfold config_ok, demo_cfg, u32_max, secs. simpl. lia. Qed.

Lemma breaker_gate_witness :
  breaker_inv demo_cfg 0 breaker_new ∧
  is_ok (check_allowed demo_cfg "m" 0 0 breaker_new).2 = true.
Proof.
  destruct (breaker_gate demo_cfg 0 (cb_initial 0) "m" 0 demo_cfg_ok (rtc_refl _ _)) as [Hi _].
  split; [exact Hi|reflexivity].
Defined.

Lemma breaker_trips_exactly_witness :
  circuit (record_failure demo_cfg (IoError "x") 9
    (foldl (apply_outcome demo_cfg) breaker_new [Succeeded; FailedWith (IoError "x") 8])) = Open.
Proof.
  apply (breaker_trips_exactly demo_cfg [Succeeded; FailedWith (IoError "x") 8] (IoError "x") 9
    demo_cfg_ok); [|reflexivity|vm_compute; discriminate].
  intros p Hp. destruct Hp as [k Hk].
  destruct p as [|? [|? [|? ?]]]; simplify_list_eq; vm_compute; reflexivity.
Defined.

Lemma breaker_recovers_witness :
  let b := {| circuit := Open; consecutive_failures := 2; opened_at := Some 0%Z;
              half_open_successes := 0 |} in
  circuit (record_success demo_cfg (foldl (apply_outcome demo_cfg)
    (check_allowed demo_cfg "m" (secs 30) (secs 30) b).1 (replicate 1 Succeeded))) = Closed.
Proof.
  intros b.
  destruct (breaker_recovers demo_cfg "m" b 0 (secs 30) (secs 30) 1 (IoError "x") 0 demo_cfg_ok
    eq_refl eq_refl ltac:(vm_compute; discriminate) ltac:(vm_compute; reflexivity) eq_refl)
    as (_ & _ & H & _).
  exact H.
Defined.

Lemma late_success_closes_open_circuit_witness :
  let cfg := {| failure_threshold := 1; recovery_timeout := secs 30;
                half_open_successes_needed := 2 |} in
  ∃ w w' : CbWorld,
    rtc (cb_step cfg) (cb_initial 0) w ∧ cb_step cfg w w' ∧
    circuit (breaker w) = Open ∧ opened_at (breaker w) = Some (clock w) ∧
    clock w' = clock w ∧ circuit (breaker w') = Closed.
Proof. exact (late_success_closes_open_circuit (secs 30) eq_refl). Defined.
