(* ===== verification/Retry.v ===== *)
(** * Retries with exponential backoff

    Models [src/src/llm/retry.rs]: which errors are worth retrying, the
    backoff delay on 64-bit integers, the retry loop and the provider that
    wraps another one with it.  The random jitter is an argument: [jitter a r]
    is the offset [gen_range(0..=r)] draws at attempt [a]. *)

From S2P Require Import Prelude Externals Text LlmTypes.

Definition is_retryable (err : LlmError) : bool :=
  match err with
  | RequestFailed _ _ | RateLimited _ _ | InvalidResponse _ _ | SessionRenewalFailed _ _
  | HttpError _ | IoError _ => true
  | _ => false
  end.

(** ** The delay *)

Definition base_ms (attempt : Z) : Z := sat_u64 (1000 * sat_u64 (2 ^ attempt)).

Definition retry_backoff_delay (offset : Z → Z) (attempt : Z) : Duration :=
  let base := base_ms attempt in
  let jitter_range := (base / 4)%Z in
  let jitter :=
    if (0 <? jitter_range)%Z
    then as_i64 (as_i64 (offset (jitter_range * 2)%Z) - as_i64 jitter_range)
    else 0%Z in
  let delay_ms := wrap_u64 (Z.max (as_i64 (as_i64 base + jitter)) 100) in
  millis delay_ms.

(** ** The loop *)

Record RetryConfig := { max_retries : Z }.
Definition retry_config_default : RetryConfig := {| max_retries := 3 |}.

Section Loop.
Context {J : SerdeJson} {D : RustDecimal} {P : Type} `{!LlmProvider P} {A : Type}.
Context (jitter : nat → Z → Z).
Context (op : P → Instant → P * Instant * result A LlmError).

Definition delay_after (attempt : nat) (err : LlmError) : Duration :=
  match err with
  | RateLimited _ (Some duration) => duration
  | _ => retry_backoff_delay (jitter attempt) (Z.of_nat attempt)
  end.

(** The [for] loop over the remaining attempts. *)
Fixpoint retry_attempts (max : nat) (attempts : list nat) (last_error : option LlmError)
    (p : P) (now : Instant) : P * Instant * result A LlmError :=
  match attempts with
  | [] => (p, now, Err (default (RequestFailed (model_name p) "retry loop exited unexpectedly")
                          last_error))
  | attempt :: rest =>
      match op p now with
      | (p, t, Ok resp) => (p, t, Ok resp)
      | (p, t, Err err) =>
          if negb (is_retryable err) || (attempt =? max) then (p, t, Err err)
          else retry_attempts max rest (Some err) p (t + delay_after attempt err)%Z
      end
  end.

Definition retry_loop (cfg : RetryConfig) (p : P) (now : Instant) :
    P * Instant * result A LlmError :=
  let max := Z.to_nat (max_retries cfg) in
  retry_attempts max (seq 0 (S max)) None p now.

(** ** What the loop does

    The provider and the clock when the [k]-th call starts, if all calls
    before it fail and are retried. *)
Fixpoint at_attempt (k : nat) (p : P) (now : Instant) : P * Instant :=
  match k with
  | 0 => (p, now)
  | S k =>
      let '(p, now) := at_attempt k p now in
      match op p now with
      | (p, t, Err err) => (p, t + delay_after k err)%Z
      | (p, t, Ok _) => (p, t)
      end
  end.

Definition call_at (k : nat) (p : P) (now : Instant) : P * Instant * result A LlmError :=
  let '(p, now) := at_attempt k p now in op p now.

Definition retried (r : result A LlmError) : Prop :=
  match r with Err e => is_retryable e = true | Ok _ => False end.

(** Reference: the answer of the first call that is not retried, and of the
    last one if all are. *)
Definition first_final (max : nat) (p : P) (now : Instant) (k : nat) : Prop :=
  k ≤ max ∧ (∀ i, i < k → retried (call_at i p now).2) ∧
  (k = max ∨ ¬ retried (call_at k p now).2).

Lemma retry_attempts_from max n k last p now :
  k + n = S max → 0 < n → (∀ i, i < k → retried (call_at i p now).2) →
  ∃ k', first_final max p now k' ∧
    (let '(p1, t1) := at_attempt k p now in retry_attempts max (seq k n) last p1 t1)
    = call_at k' p now.
Proof.
  revert k last. induction n as [|n IH]; intros k last Hk Hn Hbefore; [lia|].
  destruct (at_attempt k p now) as [p1 t1] eqn:Hat. cbn [seq retry_attempts].
  assert (call_at k p now = op p1 t1) as Hcall by (unfold call_at; by rewrite Hat).
  destruct (op p1 t1) as [[p2 t2] [resp|err]] eqn:Hop.
  - exists k. split; [|done]. split_and!; [lia|done|]. right. rewrite Hcall. by intros [].
  - destruct (negb (is_retryable err)) eqn:Hr; simpl.
    { exists k. split; [|done]. split_and!; [lia|done|]. right. rewrite Hcall. simpl.
      apply negb_true_iff in Hr. by rewrite Hr. }
    destruct (Nat.eqb_spec k max) as [->|Hne].
    { exists max. split; [|done]. split_and!; [lia|done|by left]. }
    destruct (IH (S k) (Some err)) as (k' & Hff & Heq); [lia|lia| |].
    { intros i Hi. destruct (decide (i = k)) as [->|]; [|apply Hbefore; lia].
      rewrite Hcall. simpl. by apply negb_false_iff in Hr. }
    exists k'. split; [done|]. rewrite <-Heq. cbn [at_attempt]. rewrite Hat, Hop. done.
Qed.
End Loop.

(** ** The wrapping provider *)

Record RetryProvider (P : Type) := {
  retry_inner : P;
  retry_config : RetryConfig;
}.
Arguments retry_inner {P}.
Arguments retry_config {P}.

Section Provider.
Context {J : SerdeJson} {D : RustDecimal} {P : Type} `{!LlmProvider P}.
Context (jitter : nat → Z → Z).

Definition retry_set_inner (p : RetryProvider P) (i : P) : RetryProvider P := {|
  retry_inner := i; retry_config := retry_config p |}.

Definition with_retries {A} (op : P → Instant → P * Instant * result A LlmError)
    (p : RetryProvider P) (now : Instant) : RetryProvider P * Instant * result A LlmError :=
  let '(i, t, r) := retry_loop jitter op (retry_config p) (retry_inner p) now in
  (retry_set_inner p i, t, r).

Definition retry_provider : LlmProvider (RetryProvider P) := {|
  model_name p := model_name (retry_inner p);
  cost_per_token p := cost_per_token (retry_inner p);
  complete p now req := with_retries (λ i t, complete i t req) p now;
  complete_with_tools p now req := with_retries (λ i t, complete_with_tools i t req) p now;
  list_models p := let '(i, r) := list_models (retry_inner p) in (retry_set_inner p i, r);
  model_metadata p := let '(i, r) := model_metadata (retry_inner p) in (retry_set_inner p i, r);
  effective_model_name p req :=
    let '(i, r) := effective_model_name (retry_inner p) req in (retry_set_inner p i, r);
  active_model_name p := active_model_name (retry_inner p);
  set_model p model := let '(i, r) := set_model (retry_inner p) model in (retry_set_inner p i, r);
  calculate_cost p := calculate_cost (retry_inner p);
  cache_write_multiplier p := cache_write_multiplier (retry_inner p);
  cache_read_discount p := cache_read_discount (retry_inner p);
|}.
End Provider.

(** ** Properties *)

(** The retry loop calls the provider at least once and at most
    [max_retries + 1] times, waiting between calls; it returns, with the
    provider and the clock as they then are, the answer of the first call
    that succeeds or fails with a non-retryable error, and the answer of the
    last permitted call otherwise. *)
Theorem retry_loop_spec `{LlmProvider P} {A} jitter
    (op : P → Instant → P * Instant * result A LlmError) cfg p now :
  ∃ k, first_final jitter op (Z.to_nat (max_retries cfg)) p now k ∧
       retry_loop jitter op cfg p now = call_at jitter op k p now.
Proof.
  unfold retry_loop.
  destruct (retry_attempts_from jitter op (Z.to_nat (max_retries cfg))
    (S (Z.to_nat (max_retries cfg))) 0 None p now) as (k & Hk & Heq);
    [lia|lia|intros; lia|]. by exists k.
Qed.

Lemma base_ms_small attempt :
  (0 <= attempt <= 52)%Z → base_ms attempt = (1000 * 2 ^ attempt)%Z ∧
  (1000 <= base_ms attempt <= 1000 * 2 ^ 52)%Z.
Proof.
  intros Ha. assert (2 ^ attempt <= 2 ^ 52)%Z by (apply Z.pow_le_mono_r; lia).
  assert (0 < 2 ^ attempt)%Z by (apply Z.pow_pos_nonneg; lia).
  unfold base_ms, sat_u64, u64_max. lia.
Qed.

(** Up to the 53rd attempt the backoff arithmetic does not overflow:
    the delay is [1000 * 2^attempt] ms moved by the drawn jitter, hence
    within 25% of it on either side. *)
Theorem retry_backoff_bounds offset attempt
    (Hattempt : (0 <= attempt <= 52)%Z)
    (Hgen : ∀ r, (0 <= r)%Z → (0 <= offset r <= r)%Z) :
  let base := (1000 * 2 ^ attempt)%Z in
  retry_backoff_delay offset attempt =
    millis (base - base / 4 + offset (base / 4 * 2))%Z ∧
  (millis (base - base / 4) <= retry_backoff_delay offset attempt <= millis (base + base / 4))%Z.
Proof.
  intros base. destruct (base_ms_small attempt Hattempt) as [Hb Hr]. fold base in Hb.
  assert (1000 <= base <= 1000 * 2 ^ 52)%Z as Hbase by lia. clear Hr.
  assert (retry_backoff_delay offset attempt =
    millis (base - base / 4 + offset (base / 4 * 2))%Z) as ->.
  { unfold retry_backoff_delay. rewrite Hb. cbv zeta.
    pose proof (Z.div_mod base 4 ltac:(lia)). pose proof (Z.mod_pos_bound base 4 ltac:(lia)).
    specialize (Hgen (base / 4 * 2)%Z ltac:(lia)).
    destruct (Z.ltb_spec 0 (base / 4)); [|lia].
    rewrite (as_i64_small base), (as_i64_small (base / 4)), (as_i64_small (offset _))
      by (unfold i64_max; lia).
    set (o := offset (base / 4 * 2)%Z) in *.
    assert (base + as_i64 (o - base / 4) = base - base / 4 + o)%Z as ->.
    { unfold as_i64, wrap_u64, i64_max. cbv zeta.
      destruct (Z_le_gt_dec (base / 4) o).
      - rewrite Z.mod_small by lia. case_match; zify_bool; lia.
      - rewrite <-(Z_mod_plus_full _ 1), Z.mod_small by lia. case_match; zify_bool; lia. }
    rewrite as_i64_small by (unfold i64_max; lia).
    rewrite Z.max_l by lia. by rewrite wrap_u64_small by (unfold u64_max; lia). }
  split; [done|]. assert (0 <= base / 4)%Z by (apply Z.div_pos; lia).
  specialize (Hgen (base / 4 * 2)%Z ltac:(lia)). unfold millis. split; apply Z.mul_le_mono_nonneg_r; lia.
Qed.

(** From the 56th attempt on the saturated base is [-1] as an [i64]: with
    the smallest jitter the delay collapses to 100 ms. *)
Lemma retry_backoff_collapses :
  retry_backoff_delay (λ _, 0%Z) 55 = millis 100 ∧
  retry_backoff_delay (λ _, 0%Z) 60 = millis 100.
Proof. by vm_compute. Qed.

(** ** Witnesses *)

Lemma retry_backoff_bounds_witness :
  (millis 3000 <= retry_backoff_delay (λ r, r / 3) 2 <= millis 5000)%Z.
Proof.
  apply (retry_backoff_bounds (λ r, r / 3)%Z 2); [lia|].
  intros r Hr. split; [apply Z.div_pos; lia|]. apply Z.div_le_upper_bound; lia.
Defined.
