(* ===== verification/Failover.v ===== *)
(** * Failover between providers

    Models [src/src/llm/failover.rs] and [src/src/llm/failover/cooldown.rs]:
    the per-provider cooldown counters on machine integers, the choice of
    the providers to try, the loop that tries them, and the provider that
    wraps a list of providers.

    The providers are values of one type; a call changes the entry at its
    index.  The current task's id, which keys the request-scoped provider
    index, is an argument.  An out-of-range index, a panic in Rust, reads as
    [None]; [failover_wf] excludes it and every operation keeps it. *)

From stdpp Require Import sorting.
From S2P Require Import Prelude Externals Text LlmTypes Retry.

(** ** Cooldown of one provider *)

Record CooldownConfig := {
  cooldown_duration : Duration;
  failure_threshold : Z;
}.

Definition cooldown_config_default : CooldownConfig := {|
  cooldown_duration := secs 300; failure_threshold := 3 |}.

(** [cooldown_activated_nanos = 0] means not in cooldown. *)
Record ProviderCooldown := {
  failure_count : Z;
  cooldown_activated_nanos : Z;
}.

Definition cooldown_new : ProviderCooldown := {|
  failure_count := 0; cooldown_activated_nanos := 0 |}.

Definition is_in_cooldown (now_nanos cooldown_nanos : Z) (c : ProviderCooldown) : bool :=
  let activated := cooldown_activated_nanos c in
  negb (activated =? 0)%Z && (Z.max 0 (now_nanos - activated) <? cooldown_nanos)%Z.

Definition cooldown_record_failure (threshold : Z) (c : ProviderCooldown) :
    ProviderCooldown * bool :=
  let prev := failure_count c in
  ({| failure_count := wrap_u32 (prev + 1);
      cooldown_activated_nanos := cooldown_activated_nanos c |},
   (threshold <=? wrap_u32 (prev + 1))%Z).

Definition activate_cooldown (now_nanos : Z) (c : ProviderCooldown) : ProviderCooldown := {|
  failure_count := failure_count c; cooldown_activated_nanos := Z.max now_nanos 1 |}.

Definition cooldown_reset (c : ProviderCooldown) : ProviderCooldown := cooldown_new.

(** ** The failover provider *)

Record FailoverProvider (P : Type) := {
  providers : list P;
  last_used : nat;
  cooldowns : list ProviderCooldown;
  epoch : Instant;
  cooldown_config : CooldownConfig;
  provider_for_task : gmap N nat;
}.
Arguments providers {P}.
Arguments last_used {P}.
Arguments cooldowns {P}.
Arguments epoch {P}.
Arguments cooldown_config {P}.
Arguments provider_for_task {P}.

Section Failover.
Context {J : SerdeJson} {D : RustDecimal} {P : Type} `{!LlmProvider P}.
Implicit Types (f : FailoverProvider P).

Definition no_providers_error : LlmError :=
  RequestFailed "failover" "FailoverProvider requires at least one provider".

Definition with_cooldown (ps : list P) (cfg : CooldownConfig) (now : Instant) :
    result (FailoverProvider P) LlmError :=
  match ps with
  | [] => Err no_providers_error
  | _ => Ok {| providers := ps; last_used := 0;
               cooldowns := (λ _, cooldown_new) <$> seq 0 (length ps);
               epoch := now; cooldown_config := cfg; provider_for_task := ∅ |}
  end.

Definition failover_new (ps : list P) (now : Instant) : result (FailoverProvider P) LlmError :=
  with_cooldown ps cooldown_config_default now.

Definition now_nanos f (now : Instant) : Z := wrap_u64 (elapsed now (epoch f)).

Definition set_providers (ps : list P) f : FailoverProvider P := {|
  providers := ps; last_used := last_used f; cooldowns := cooldowns f; epoch := epoch f;
  cooldown_config := cooldown_config f; provider_for_task := provider_for_task f |}.
Definition set_cooldowns (cs : list ProviderCooldown) f : FailoverProvider P := {|
  providers := providers f; last_used := last_used f; cooldowns := cs; epoch := epoch f;
  cooldown_config := cooldown_config f; provider_for_task := provider_for_task f |}.
Definition set_last_used (i : nat) f : FailoverProvider P := {|
  providers := providers f; last_used := i; cooldowns := cooldowns f; epoch := epoch f;
  cooldown_config := cooldown_config f; provider_for_task := provider_for_task f |}.
Definition set_tasks (m : gmap N nat) f : FailoverProvider P := {|
  providers := providers f; last_used := last_used f; cooldowns := cooldowns f; epoch := epoch f;
  cooldown_config := cooldown_config f; provider_for_task := m |}.

Definition bind_provider_to_current_task (task : option N) (i : nat) f : FailoverProvider P :=
  match task with
  | None => f
  | Some id => set_tasks (<[id := i]> (provider_for_task f)) f
  end.

Definition take_bound_provider_for_current_task (task : option N) f :
    FailoverProvider P * option nat :=
  match task with
  | None => (f, None)
  | Some id => (set_tasks (delete id (provider_for_task f)) f, provider_for_task f !! id)
  end.

Definition in_cooldown f (now : Instant) (i : nat) : bool :=
  from_option (is_in_cooldown (now_nanos f now)
                 (wrap_u64 (cooldown_duration (cooldown_config f)))) false (cooldowns f !! i).

Definition activated_at f (i : nat) : Z :=
  from_option cooldown_activated_nanos 0%Z (cooldowns f !! i).

(** The providers [try_providers] will call, in order. *)
Definition try_order f (now : Instant) : result (list nat) LlmError :=
  let all := seq 0 (length (providers f)) in
  let available := filter (λ i, negb (in_cooldown f now i) = true) all in
  match available with
  | [] => match min_by_key (activated_at f) all with
          | Some oldest => Ok [oldest]
          | None => Err no_providers_error
          end
  | _ => Ok available
  end.

(** The bookkeeping of a retryable failure of provider [i]. *)
Definition note_failure (i : nat) (now : Instant) f : FailoverProvider P :=
  match cooldowns f !! i with
  | Some c =>
      let '(c, tripped) := cooldown_record_failure (failure_threshold (cooldown_config f)) c in
      let c := if tripped then activate_cooldown (now_nanos f now) c else c in
      set_cooldowns (<[i := c]> (cooldowns f)) f
  | None => f
  end.

Definition note_success (i : nat) f : FailoverProvider P :=
  let f := set_last_used i f in
  set_cooldowns (alter cooldown_reset i (cooldowns f)) f.

Definition exhausted_error : LlmError :=
  RequestFailed "failover" "Invariant violated in FailoverProvider: providers were exhausted but no last_error was recorded (this branch should be unreachable; possible causes: no provider attempts were made or `available` was unexpectedly empty).".

Section Call.
Context {A : Type} (call : P → Instant → P * Instant * result A LlmError).

(** One call of provider [i]; its new state replaces the old one. *)
Definition call_provider (i : nat) f (now : Instant) :
    option (FailoverProvider P * Instant * result A LlmError) :=
  match providers f !! i with
  | Some p => let '(p, t, r) := call p now in
              Some (set_providers (<[i := p]> (providers f)) f, t, r)
  | None => None
  end.

(** The [for] loop over [available]; [None] is an index panic. *)
Fixpoint try_each (available : list nat) (last_error : option LlmError) f (now : Instant) :
    option (FailoverProvider P * Instant * result (nat * A) LlmError) :=
  match available with
  | [] => Some (f, now, Err (default exhausted_error last_error))
  | i :: rest =>
      match call_provider i f now with
      | Some (f, t, Ok response) => Some (note_success i f, t, Ok (i, response))
      | Some (f, t, Err err) =>
          if negb (is_retryable err) then Some (f, t, Err err)
          else try_each rest (Some err) (note_failure i t f) t
      | None => None
      end
  end.

Definition try_providers f (now : Instant) :
    option (FailoverProvider P * Instant * result (nat * A) LlmError) :=
  match try_order f now with
  | Ok available => try_each available None f now
  | Err e => Some (f, now, Err e)
  end.

(** [complete] and [complete_with_tools]. *)
Definition failover_call (task : option N) f (now : Instant) :
    option (FailoverProvider P * Instant * result A LlmError) :=
  match try_providers f now with
  | Some (f, t, Ok (i, response)) =>
      Some (bind_provider_to_current_task task i f, t, Ok response)
  | Some (f, t, Err e) => Some (f, t, Err e)
  | None => None
  end.
End Call.

(** The provider that served last. *)
Definition served f : option P := providers f !! last_used f.

(** [for provider in &self.providers { provider.set_model(model)?; }] *)
Fixpoint set_model_each (ps : list P) (model : string) : list P * result unit LlmError :=
  match ps with
  | [] => ([], Ok tt)
  | p :: ps =>
      match set_model p model with
      | (p, Err e) => (p :: ps, Err e)
      | (p, Ok _) => let '(ps, r) := set_model_each ps model in (p :: ps, r)
      end
  end.

Fixpoint list_models_each (ps : list P) : list P * list string :=
  match ps with
  | [] => ([], [])
  | p :: ps =>
      let '(p, r) := list_models p in
      let '(ps, rest) := list_models_each ps in
      (p :: ps, match r with Ok models => models ++ rest | Err _ => rest end)
  end.

(** [Vec::dedup]: consecutive repetitions are removed. *)
Fixpoint dedup (l : list string) : list string :=
  match l with
  | x :: l' => match l' with
               | y :: _ => if bool_decide (x = y) then dedup l' else x :: dedup l'
               | [] => [x]
               end
  | [] => []
  end.

Definition failover_list_models f : FailoverProvider P * result (list string) LlmError :=
  let '(ps, all_models) := list_models_each (providers f) in
  (set_providers ps f, Ok (dedup (merge_sort String.le all_models))).

Definition failover_set_model f (model : string) : FailoverProvider P * result unit LlmError :=
  let '(ps, r) := set_model_each (providers f) model in (set_providers ps f, r).

Definition failover_effective_model_name (task : option N) f (requested : option string) :
    FailoverProvider P * option string :=
  let '(f, bound) := take_bound_provider_for_current_task task f in
  let i := default (last_used f) bound in
  match providers f !! i with
  | Some p => let '(p, s) := effective_model_name p requested in
              (set_providers (<[i := p]> (providers f)) f, Some s)
  | None => (f, None)
  end.

Definition failover_model_metadata f :
    option (FailoverProvider P * result ModelMetadata LlmError) :=
  match served f with
  | Some p => let '(p, r) := model_metadata p in
              Some (set_providers (<[last_used f := p]> (providers f)) f, r)
  | None => None
  end.

Definition failover_model_name f : option string := model_name <$> served f.
Definition failover_active_model_name f : option string := active_model_name <$> served f.
Definition failover_cost_per_token f : option (dec * dec) := cost_per_token <$> served f.
Definition failover_calculate_cost f (i o : Z) : option dec :=
  (λ p, calculate_cost p i o) <$> served f.
End Failover.

(** ** Well-formedness *)

Section Wf.
Context {J : SerdeJson} {D : RustDecimal} {P : Type} `{!LlmProvider P}.
Implicit Types (f : FailoverProvider P).

Definition failover_wf f : Prop :=
  0 < length (providers f) ∧ length (cooldowns f) = length (providers f) ∧
  last_used f < length (providers f) ∧
  map_Forall (λ _ i, i < length (providers f)) (provider_for_task f).

Lemma with_cooldown_wf ps cfg now f : with_cooldown ps cfg now = Ok f → failover_wf f.
Proof.
  unfold with_cooldown. destruct ps as [|p ps]; [done|]. intros. simplify_eq.
  unfold failover_wf. simpl. rewrite length_fmap, length_seq.
  split_and!; [lia|done|lia|apply map_Forall_empty].
Qed.

Lemma note_failure_wf i t f : failover_wf f → failover_wf (note_failure i t f).
Proof.
  unfold note_failure. destruct (cooldowns f !! i) as [c|]; [|done].
  destruct (cooldown_record_failure _ c) as [c' tr]. unfold failover_wf. simpl.
  by rewrite length_insert.
Qed.

Lemma note_success_wf i f :
  i < length (providers f) → failover_wf f → failover_wf (note_success i f).
Proof.
  intros Hi (? & ? & ? & ?). unfold failover_wf. simpl. rewrite length_alter. done.
Qed.

Lemma set_providers_wf ps f :
  length ps = length (providers f) → failover_wf f → failover_wf (set_providers ps f).
Proof. intros Hl (? & ? & ? & ?). unfold failover_wf. simpl. by rewrite Hl. Qed.

Lemma bind_wf task i f :
  i < length (providers f) → failover_wf f →
  failover_wf (bind_provider_to_current_task task i f).
Proof.
  intros Hi (? & ? & ? & ?). destruct task as [id|]; simpl; [|done].
  unfold failover_wf. simpl. split_and!; try done. by apply map_Forall_insert_2.
Qed.

Lemma note_failure_providers i t f : providers (note_failure i t f) = providers f.
Proof.
  unfold note_failure. destruct (cooldowns f !! i) as [c|]; [|done].
  by destruct (cooldown_record_failure _ c).
Qed.

Lemma call_provider_some {A} (call : P → Instant → P * Instant * result A LlmError) i f now :
  i < length (providers f) → failover_wf f →
  ∃ f' t r, call_provider call i f now = Some (f', t, r) ∧ failover_wf f' ∧
    length (providers f') = length (providers f) ∧
    (∀ j, j ≠ i → providers f' !! j = providers f !! j).
Proof.
  intros Hi Hwf. unfold call_provider.
  destruct (lookup_lt_is_Some_2 (providers f) i Hi) as [p Hp]. rewrite Hp.
  destruct (call p now) as [[p' t] r]. eexists _, t, r. split; [done|]. simpl.
  split_and!.
  - apply set_providers_wf; [by rewrite length_insert|done].
  - by rewrite length_insert.
  - intros j Hj. by rewrite list_lookup_insert_ne.
Qed.

(** ** The order in which providers are tried *)

(** What the documentation promises of the providers to try. *)
Definition order_ok f now (order : list nat) : Prop :=
  order ≠ [] ∧ NoDup order ∧ Forall (λ i, i < length (providers f)) order ∧
  (∀ i, i < length (providers f) → in_cooldown f now i = false → i ∈ order) ∧
  (∀ i, i ∈ order → in_cooldown f now i = true →
     order = [i] ∧ (∀ j, j < length (providers f) →
       in_cooldown f now j = true ∧ (activated_at f i <= activated_at f j)%Z)) ∧
  (∀ i j a b, order !! i = Some a → order !! j = Some b → i < j → a < b).

Lemma filter_seq_sorted (Q : nat → Prop) `{∀ x, Decision (Q x)} s n i j a b :
  filter Q (seq s n) !! i = Some a → filter Q (seq s n) !! j = Some b → i < j → a < b.
Proof.
  revert s i j. induction n as [|n IH]; intros s i j; [done|].
  cbn [seq]. rewrite filter_cons. case_decide; [|apply IH].
  intros Ha Hb Hij. destruct j as [|j]; [lia|]. destruct i as [|i]; simplify_eq/=.
  - apply list_elem_of_lookup_2, list_elem_of_filter in Hb as [_ Hb].
    apply elem_of_seq in Hb. lia.
  - apply (IH (S s) i j Ha Hb). lia.
Qed.

Lemma try_order_ok f now :
  failover_wf f → ∃ order, try_order f now = Ok order ∧ order_ok f now order.
Proof.
  intros (Hlen & Hcd & _). unfold try_order. cbv zeta.
  set (n := length (providers f)) in *.
  assert (∀ i, i ∈ filter (λ i, negb (in_cooldown f now i) = true) (seq 0 n) ↔
    i < n ∧ in_cooldown f now i = false) as Hmem.
  { intros i. rewrite list_elem_of_filter, elem_of_seq, negb_true_iff.
    split; intros [? ?]; split; done || lia. }
  destruct (filter _ (seq 0 n)) as [|i0 av] eqn:Hav.
  - assert (∀ j, j < n → in_cooldown f now j = true) as Hall.
    { intros j Hj. destruct (in_cooldown f now j) eqn:E; [done|].
      pose proof (proj2 (Hmem j) (conj Hj E)) as Hin. by apply elem_of_nil in Hin. }
    destruct n as [|n'] eqn:Hn; [lia|]. cbn [seq].
    destruct (min_by_key_cons (activated_at f) 0 (seq 1 n')) as (b & -> & Hb & Hmin).
    change (0 :: seq 1 n') with (seq 0 (S n')) in *.
    exists [b]. split; [done|]. apply elem_of_seq in Hb.
    unfold order_ok. fold n. rewrite Hn. split_and!.
    + done.
    + apply NoDup_singleton.
    + apply Forall_singleton. lia.
    + intros i Hi E. by rewrite Hall in E.
    + intros i Hi E. apply list_elem_of_singleton in Hi as ->. split; [done|].
      intros j Hj. split; [by apply Hall|]. apply Hmin, elem_of_seq. lia.
    + intros [|i] [|j] a b' Ha Hb' Hij; simplify_eq/=; lia.
  - exists (i0 :: av). split; [done|]. rewrite <-Hav in *. split_and!.
    + by rewrite Hav.
    + apply NoDup_filter, NoDup_seq.
    + apply Forall_forall. intros i Hi. by apply Hmem in Hi as [? _].
    + intros i Hi E. by apply Hmem.
    + intros i Hi E. apply Hmem in Hi as [_ E']. congruence.
    + intros i j a b. apply filter_seq_sorted.
Qed.

(** ** The loop *)

Section Loop.
Context {A : Type} (call : P → Instant → P * Instant * result A LlmError).

(** Calling the providers of a list one after another, each failing with a
    retryable error. *)
Inductive failures : list nat → FailoverProvider P → Instant →
    FailoverProvider P → Instant → Prop :=
| failures_nil f t : failures [] f t f t
| failures_cons i l f t f1 t1 e f2 t2 :
    call_provider call i f t = Some (f1, t1, Err e) → is_retryable e = true →
    failures l (note_failure i t1 f1) t1 f2 t2 → failures (i :: l) f t f2 t2.

(** How a call that ends the loop is answered. *)
Definition ends_with_call (i : nat) (rest : list nat) f (now : Instant)
    (out : FailoverProvider P * Instant * result (nat * A) LlmError) : Prop :=
  ∃ f' t, 
    (∃ a, call_provider call i f now = Some (f', t, Ok a) ∧
          out = (note_success i f', t, Ok (i, a))) ∨
    (∃ e, call_provider call i f now = Some (f', t, Err e) ∧
          if is_retryable e then rest = [] ∧ out = (note_failure i t f', t, Err e)
          else out = (f', t, Err e)).

Lemma try_each_spec order last f now :
  failover_wf f → order ≠ [] → Forall (λ i, i < length (providers f)) order →
  ∃ tried i rest f1 t1 out, order = tried ++ i :: rest ∧ failures tried f now f1 t1 ∧
    ends_with_call i rest f1 t1 out ∧ try_each call order last f now = Some out ∧
    failover_wf out.1.1.
Proof.
  revert last f now. induction order as [|i order IH]; intros last f now Hwf Hne HF; [done|].
  apply Forall_cons in HF as [Hi HF].
  destruct (call_provider_some call i f now Hi Hwf) as (f' & t & r & Hcall & Hwf' & Hlen & _).
  cbn [try_each]. rewrite Hcall. destruct r as [a|e].
  { eexists [], i, order, f, now, _. split_and!; [done|constructor| |done|].
    - exists f', t. left. eauto.
    - apply note_success_wf; [lia|done]. }
  destruct (is_retryable e) eqn:He; simpl.
  2:{ eexists [], i, order, f, now, _. split_and!; [done|constructor| |done|done].
      exists f', t. right. exists e. by rewrite He. }
  destruct order as [|j order].
  - eexists [], i, [], f, now, _. split_and!; [done|constructor| |done|by apply note_failure_wf].
    exists f', t. right. exists e. by rewrite He.
  - destruct (IH (Some e) (note_failure i t f') t) as (tried & k & rest & f1 & t1 & out & Heq & Hfs & He' & Hout & Hwfo).
    + by apply note_failure_wf.
    + done.
    + rewrite note_failure_providers, Hlen. done.
    + exists (i :: tried), k, rest, f1, t1, out. split_and!; [by rewrite Heq| |done..].
      by eapply failures_cons.
Qed.
End Loop.
End Wf.

(** ** Properties *)

Section Properties.
Context {J : SerdeJson} {D : RustDecimal} {P : Type} `{!LlmProvider P}.
Implicit Types (f : FailoverProvider P).

(** For a well-formed failover provider a request never panics and is
    always answered by one of the wrapped providers: the providers to try
    are called in order, each after the previous one failed with a retryable
    error; the first success is returned, recorded as last used, and clears
    that provider's cooldown; a non-retryable error is returned at once; if
    all fail, the last one's error is returned.  The result is well-formed. *)
Theorem failover_first_success {A} (call : P → Instant → P * Instant * result A LlmError)
    f now (Hwf : failover_wf f) :
  ∃ order tried i rest f1 t1 out,
    try_order f now = Ok order ∧ order = tried ++ i :: rest ∧
    failures call tried f now f1 t1 ∧ ends_with_call call i rest f1 t1 out ∧
    try_providers call f now = Some out ∧ failover_wf out.1.1.
Proof.
  destruct (try_order_ok f now Hwf) as (order & Ho & Hok).
  pose proof Hok as (Hne & _ & HF & _).
  destruct (try_each_spec call order None f now Hwf Hne HF)
    as (tried & i & rest & f1 & t1 & out & Heq & Hfs & He & Hout & Hwfo).
  exists order, tried, i, rest, f1, t1, out. split_and!; try done.
  unfold try_providers. by rewrite Ho.
Qed.

(** The providers tried are in list order without repetition and
    contain every provider not in cooldown; one in cooldown is tried only
    when all are, and then alone, and its cooldown is the oldest. *)
Theorem failover_skips_cooled_down f now (Hwf : failover_wf f) :
  ∃ order, try_order f now = Ok order ∧ order_ok f now order.
Proof. by apply try_order_ok. Qed.

(** A retryable failure that makes the count reach the threshold puts
    the provider in cooldown for exactly the configured duration from that
    moment, no other provider is affected, and a success ends it. *)
Theorem failover_cooldown_window f i c t now
    (Hc : cooldowns f !! i = Some c)
    (Hcount : (0 <= failure_count c < u32_max)%Z)
    (Hreach : (failure_threshold (cooldown_config f) <= failure_count c + 1)%Z)
    (Hstart : (epoch f < t)%Z) (Hlater : (t <= now)%Z)
    (Hnow : (now - epoch f <= u64_max)%Z)
    (Hdur : (0 <= cooldown_duration (cooldown_config f) <= u64_max)%Z) :
  (in_cooldown (note_failure i t f) now i = true ↔
     (now < t + cooldown_duration (cooldown_config f))%Z) ∧
  (∀ j, j ≠ i → in_cooldown (note_failure i t f) now j = in_cooldown f now j) ∧
  in_cooldown (note_success i (note_failure i t f)) now i = false.
Proof.
  unfold note_failure. rewrite Hc. unfold cooldown_record_failure.
  rewrite wrap_u32_small by lia.
  destruct (Z.leb_spec (failure_threshold (cooldown_config f)) (failure_count c + 1)); [|lia].
  unfold in_cooldown, now_nanos, elapsed. simpl. rewrite !wrap_u64_small by lia.
  split_and!.
  - rewrite list_lookup_insert_eq by (by apply lookup_lt_Some in Hc). simpl.
    unfold is_in_cooldown. simpl. rewrite andb_true_iff, negb_true_iff, Z.eqb_neq, Z.ltb_lt. lia.
  - intros j Hj. by rewrite list_lookup_insert_ne.
  - rewrite list_lookup_alter_eq, list_lookup_insert_eq by (by apply lookup_lt_Some in Hc).
    done.
Qed.

(** Requests and model switches keep the provider well-formed. *)
Lemma failover_call_wf {A} (call : P → Instant → P * Instant * result A LlmError) task f now :
  failover_wf f → ∃ f' t r, failover_call call task f now = Some (f', t, r) ∧ failover_wf f'.
Proof.
  intros Hwf. destruct (try_order_ok f now Hwf) as (order & Ho & (Hne & _ & HF & _)).
  destruct (try_each_spec call order None f now Hwf Hne HF)
    as (tried & i & rest & f1 & t1 & [[f2 t2] r] & Heq & Hfs & He & Hout & Hwfo).
  unfold failover_call, try_providers. rewrite Ho, Hout.
  destruct r as [[j a]|e]; [|eauto]. eexists _, _, _. split; [done|].
  apply bind_wf; [|done]. simpl in Hwfo.
  destruct He as (f' & t & [(a' & _ & ?)|(e & _ & He)]); [|by case_match; naive_solver].
  simplify_eq. apply Hwfo.
Qed.
End Properties.

(** ** Witnesses *)

Section Witnesses.
#[local] Existing Instance json_lite.
#[local] Existing Instance dec_cents.
#[local] Existing Instance canned_provider.

(** A provider that fails once with an I/O error, and one that works. *)
Definition demo_failover : FailoverProvider (list LlmError) := {|
  providers := [[IoError "x"]; []]; last_used := 0;
  cooldowns := [cooldown_new; cooldown_new]; epoch := 0;
  cooldown_config := {| cooldown_duration := secs 300; failure_threshold := 1 |};
  provider_for_task := ∅ |}.

Lemma demo_failover_wf : failover_wf demo_failover.
Proof. unfold failover_wf, demo_failover. simpl. split_and!; [lia..|apply map_Forall_empty]. Qed.

Lemma failover_first_success_witness :
  ∃ out, try_providers (canned_call tt) demo_failover (secs 1) = Some out ∧
         failover_wf out.1.1 ∧ out.2 = Ok (1, tt).
Proof.
  destruct (failover_first_success (canned_call tt) demo_failover (secs 1) demo_failover_wf)
    as (order & tried & i & rest & f1 & t1 & out & _ & _ & _ & _ & Hout & Hwf).
  exists out. split; [exact Hout|]. split; [exact Hwf|].
  vm_compute in Hout. injection Hout as <-. reflexivity.
Defined.

Lemma failover_skips_cooled_down_witness :
  ∃ order, try_order demo_failover 5 = Ok order ∧ order_ok demo_failover 5 order.
Proof. exact (failover_skips_cooled_down demo_failover 5 demo_failover_wf). Defined.

Lemma failover_cooldown_window_witness :
  in_cooldown (note_failure 0 (secs 2) demo_failover) (secs 301) 0 = true.
Proof.
  apply (failover_cooldown_window demo_failover 0 cooldown_new (secs 2) (secs 301));
    vm_compute; (reflexivity || (split; (reflexivity || discriminate)) || discriminate).
Defined.
End Witnesses.
