(* ===== verification/ResponseCache.v ===== *)
(** * Response cache

    Models [src/src/llm/response_cache.rs]: the cache key, the lookup with
    expiry, the eviction of expired and least recently used entries, and the
    provider that answers [complete] from the cache.  The lookup and the
    store run under the cache's lock, the call between them does not:
    [cache_step] has one step per critical section.

    What the code takes from other crates is a parameter: the SHA-256 hash in
    hexadecimal, the JSON rendering of the messages, and the order in which a
    [HashMap] is iterated, of which only that it enumerates the entries is
    assumed. *)

From S2P Require Import Prelude Externals Text LlmTypes.

Record ResponseCacheConfig := {
  ttl : Duration;
  max_entries : nat;
}.

Definition cache_config_default : ResponseCacheConfig := {|
  ttl := secs 3600; max_entries := 1000 |}.

Record CacheEntry := {
  entry_response : CompletionResponse;
  created_at : Instant;
  last_accessed : Instant;
  hit_count : Z;
}.

Abbreviation Cache := (gmap string CacheEntry).

(** ** The cache key *)

Section Key.
Context {J : SerdeJson}.
Context (sha256_hex : string → string) (messages_json : list ChatMessage → option string).

(** [u32::to_le_bytes] and [f32::to_le_bytes] *)
Definition le_bytes (z : Z) : string :=
  let b k := byte (Z.to_nat (Z.land (Z.shiftr z k) 255)) in
  String (b 0%Z) (String (b 8%Z) (String (b 16%Z) (String (b 24%Z) ""))).

(** What is fed to the hasher. *)
Definition key_material (model : string) (request : CompletionRequest) : string :=
  model +:+ "|" +:+ default "" (messages_json (req_messages request))
  +:+ "|" +:+ from_option le_bytes "" (req_max_tokens request)
  +:+ "|" +:+ from_option le_bytes "" (req_temperature request)
  +:+ "|" +:+ foldr (λ s acc, s +:+ String (byte 0) acc) ""
                (default [] (req_stop_sequences request)).

Definition cache_key (model : string) (request : CompletionRequest) : string :=
  sha256_hex (key_material model request).
End Key.

(** ** The two critical sections *)

Section Cache.
Context (cfg : ResponseCacheConfig).
Context (iter : Cache → list (string * CacheEntry)).

Definition fresh_at (now : Instant) (e : CacheEntry) : bool :=
  (elapsed now (created_at e) <? ttl cfg)%Z.

Definition touch (now : Instant) (e : CacheEntry) : CacheEntry := {|
  entry_response := entry_response e; created_at := created_at e;
  last_accessed := now; hit_count := wrap_u64 (hit_count e + 1) |}.

Definition cache_lookup (key : string) (now : Instant) (m : Cache) :
    Cache * option CompletionResponse :=
  match m !! key with
  | Some e =>
      if fresh_at now e then (<[key := touch now e]> m, Some (entry_response e))
      else (delete key m, None)
  | None => (m, None)
  end.

(** The eviction loop; every iteration removes an entry or breaks, so the
    size of the cache is enough fuel. *)
Fixpoint evict_lru (fuel : nat) (m : Cache) : Cache :=
  match fuel with
  | 0 => m
  | S fuel =>
      if bool_decide (max_entries cfg ≤ size m) then
        match min_by_key (λ kv, last_accessed kv.2) (iter m) with
        | Some (k, _) => evict_lru fuel (delete k m)
        | None => m
        end
      else m
  end.

Definition cache_store (key : string) (now : Instant) (resp : CompletionResponse) (m : Cache) :
    Cache :=
  let live := filter (λ kv, fresh_at now kv.2 = true) m in
  let kept := evict_lru (size live) live in
  <[key := {| entry_response := resp; created_at := now; last_accessed := now;
              hit_count := 0 |}]> kept.

(** *** Lemmas *)

Hypothesis iter_perm : ∀ m, iter m ≡ₚ map_to_list m.

Lemma evict_lru_spec fuel m :
  size m ≤ fuel →
  evict_lru fuel m ⊆ m ∧
  size (evict_lru fuel m) ≤ max_entries cfg - 1 ∧
  (size m < max_entries cfg → evict_lru fuel m = m) ∧
  (∀ k e k' e', m !! k = Some e → evict_lru fuel m !! k = None →
     evict_lru fuel m !! k' = Some e' → (last_accessed e <= last_accessed e')%Z).
Proof.
  revert m. induction fuel as [|fuel IH]; intros m Hf; cbn [evict_lru].
  { assert (m = ∅) as -> by (apply map_size_empty_iff; lia).
    rewrite map_size_empty. split_and!; [done|lia|done|]. intros ????. by rewrite lookup_empty. }
  case_bool_decide as Hle.
  2:{ split_and!; [done|lia|done|]. intros. congruence. }
  destruct (iter m) as [|kv l] eqn:Hit.
  { pose proof (iter_perm m) as Hp. rewrite Hit in Hp. apply Permutation_nil_l in Hp.
    symmetry in Hp. apply map_to_list_empty_iff in Hp as ->. simpl.
    rewrite map_size_empty in *. split_and!; [done|lia|done|].
    intros ????. by rewrite lookup_empty. }
  destruct (min_by_key_cons (λ kv, last_accessed kv.2) kv l) as ([k e] & -> & Hin & Hmin).
  rewrite <-Hit in Hin, Hmin.
  assert (∀ x, x ∈ iter m ↔ m !! x.1 = Some x.2) as Hiter.
  { intros [x1 x2]. by rewrite iter_perm, elem_of_map_to_list. }
  apply Hiter in Hin. simpl in Hin.
  assert (size m = S (size (delete k m))) as Hsz.
  { rewrite <-(insert_delete_id m k e Hin) at 1.
    by rewrite map_size_insert_None by apply lookup_delete_eq. }
  destruct (IH (delete k m)) as (Hsub & Hsize & Hsame & Hold); [lia|].
  assert (evict_lru fuel (delete k m) ⊆ m) as Hsub'
    by (etrans; [exact Hsub|apply delete_subseteq]).
  split_and!; [done|done|lia|]. intros k1 e1 k2 e2 H1 Hnone H2.
  destruct (decide (k1 = k)) as [->|Hne].
  - simplify_eq. apply (Hmin (k2, e2)), Hiter. by eapply lookup_weaken.
  - apply (Hold k1 e1 k2 e2); [|done..]. by rewrite lookup_delete_ne.
Qed.

Lemma cache_lookup_hit key now m m' r :
  cache_lookup key now m = (m', Some r) →
  ∃ e, m !! key = Some e ∧ entry_response e = r ∧ (elapsed now (created_at e) < ttl cfg)%Z.
Proof.
  unfold cache_lookup. destruct (m !! key) as [e|]; [|done].
  destruct (fresh_at now e) eqn:E; [|done]. intros. simplify_eq.
  exists e. unfold fresh_at in E. zify_bool. done.
Qed.

(** A lookup only changes the bookkeeping of the entries it keeps. *)
Lemma cache_lookup_entries key now m k e :
  (cache_lookup key now m).1 !! k = Some e →
  ∃ e0, m !! k = Some e0 ∧ created_at e = created_at e0 ∧ entry_response e = entry_response e0.
Proof.
  unfold cache_lookup. destruct (m !! key) as [e0|] eqn:E; simpl; [|eauto].
  destruct (fresh_at now e0); simpl.
  - rewrite lookup_insert_Some. intros [[<- <-]|[? ?]]; eauto.
  - rewrite lookup_delete_Some. intros [? ?]. eauto.
Qed.

Lemma cache_lookup_size key now m : size (cache_lookup key now m).1 ≤ size m.
Proof.
  unfold cache_lookup. destruct (m !! key) as [e0|] eqn:E; simpl; [|done].
  destruct (fresh_at now e0); simpl.
  - by rewrite map_size_insert_Some.
  - rewrite map_size_delete. case_match; simpl; lia.
Qed.

Lemma cache_store_entries key now r m k e :
  cache_store key now r m !! k = Some e →
  (k = key ∧ created_at e = now ∧ entry_response e = r) ∨ m !! k = Some e.
Proof.
  unfold cache_store. rewrite lookup_insert_Some. intros [[<- <-]|[_ He]]; [by left|right].
  destruct (evict_lru_spec (size (filter (λ kv, fresh_at now kv.2 = true) m))
    (filter (λ kv, fresh_at now kv.2 = true) m)) as (Hsub & _); [done|].
  apply (lookup_weaken _ _ _ _ He) in Hsub. by apply map_lookup_filter_Some in Hsub as [? _].
Qed.

Lemma cache_store_size key now r m :
  size (cache_store key now r m) ≤ Nat.max 1 (max_entries cfg).
Proof.
  unfold cache_store. cbv zeta.
  destruct (evict_lru_spec (size (filter (λ kv, fresh_at now kv.2 = true) m))
    (filter (λ kv, fresh_at now kv.2 = true) m)) as (_ & Hsz & _); [done|].
  rewrite map_size_insert. case_match; simpl; lia.
Qed.
End Cache.

(** ** The wrapping provider *)

Record CachedProvider (P : Type) := {
  cached_inner : P;
  cache : Cache;
  cache_config : ResponseCacheConfig;
  request_count : Z;
  total_hit_count : Z;
}.
Arguments cached_inner {P}.
Arguments cache {P}.
Arguments cache_config {P}.
Arguments request_count {P}.
Arguments total_hit_count {P}.

Section Provider.
Context {J : SerdeJson} {D : RustDecimal} {P : Type} `{!LlmProvider P}.
Context (sha256_hex : string → string) (messages_json : list ChatMessage → option string).
Context (iter : Cache → list (string * CacheEntry)).

Definition cached_new (inner : P) (cfg : ResponseCacheConfig) : CachedProvider P := {|
  cached_inner := inner; cache := ∅; cache_config := cfg; request_count := 0;
  total_hit_count := 0 |}.

Definition cached_set_inner (c : CachedProvider P) (i : P) : CachedProvider P := {|
  cached_inner := i; cache := cache c; cache_config := cache_config c;
  request_count := request_count c; total_hit_count := total_hit_count c |}.

Definition cached_update (c : CachedProvider P) (i : P) (m : Cache) (reqs hits : Z) :
    CachedProvider P := {|
  cached_inner := i; cache := m; cache_config := cache_config c;
  request_count := reqs; total_hit_count := hits |}.

Definition cache_len (c : CachedProvider P) : nat := size (cache c).
Definition cache_clear (c : CachedProvider P) : CachedProvider P :=
  cached_update c (cached_inner c) ∅ (request_count c) (total_hit_count c).

Definition cached_complete (c : CachedProvider P) (now : Instant) (request : CompletionRequest) :
    CachedProvider P * Instant * result CompletionResponse LlmError :=
  let '(inner, effective_model) := effective_model_name (cached_inner c) (req_model request) in
  let key := cache_key sha256_hex messages_json effective_model request in
  let reqs := wrap_u64 (request_count c + 1) in
  match cache_lookup (cache_config c) key now (cache c) with
  | (m, Some cached_response) =>
      (cached_update c inner m reqs (wrap_u64 (total_hit_count c + 1)), now,
       Ok cached_response)
  | (m, None) =>
      match complete inner now request with
      | (inner, t, Err e) => (cached_update c inner m reqs (total_hit_count c), t, Err e)
      | (inner, t, Ok response) =>
          (cached_update c inner (cache_store (cache_config c) iter key now response m)
             reqs (total_hit_count c), t, Ok response)
      end
  end.

Definition cached_provider : LlmProvider (CachedProvider P) := {|
  model_name c := model_name (cached_inner c);
  cost_per_token c := cost_per_token (cached_inner c);
  complete := cached_complete;
  complete_with_tools c now req :=
    let '(i, t, r) := complete_with_tools (cached_inner c) now req in (cached_set_inner c i, t, r);
  list_models c := let '(i, r) := list_models (cached_inner c) in (cached_set_inner c i, r);
  model_metadata c := let '(i, r) := model_metadata (cached_inner c) in (cached_set_inner c i, r);
  effective_model_name c req :=
    let '(i, r) := effective_model_name (cached_inner c) req in (cached_set_inner c i, r);
  active_model_name c := active_model_name (cached_inner c);
  set_model c model := let '(i, r) := set_model (cached_inner c) model in (cached_set_inner c i, r);
  calculate_cost c := calculate_cost (cached_inner c);
  cache_write_multiplier c := cache_write_multiplier (cached_inner c);
  cache_read_discount c := cache_read_discount (cached_inner c);
|}.
End Provider.

(** ** Concurrent requests

    The cache, the clock, the requests between their two critical sections
    (key and the time they started) and the log of every answer the wrapped
    provider gave (key, start of the request, response). *)

Record CacheWorld := {
  w_cache : Cache;
  w_clock : Instant;
  w_pending : list (string * Instant);
  w_log : list (string * Instant * CompletionResponse);
}.

Section Concurrent.
Context (cfg : ResponseCacheConfig) (iter : Cache → list (string * CacheEntry)).

Inductive cache_step : CacheWorld → CacheWorld → Prop :=
| cache_tick w t : (w_clock w <= t)%Z →
    cache_step w {| w_cache := w_cache w; w_clock := t; w_pending := w_pending w;
                    w_log := w_log w |}
| cache_hit w key now m r : (now <= w_clock w)%Z →
    cache_lookup cfg key now (w_cache w) = (m, Some r) →
    cache_step w {| w_cache := m; w_clock := w_clock w; w_pending := w_pending w;
                    w_log := w_log w |}
| cache_miss w key now m : (now <= w_clock w)%Z →
    cache_lookup cfg key now (w_cache w) = (m, None) →
    cache_step w {| w_cache := m; w_clock := w_clock w;
                    w_pending := (key, now) :: w_pending w; w_log := w_log w |}
| cache_answered w key now rest r : w_pending w ≡ₚ (key, now) :: rest →
    cache_step w {| w_cache := cache_store cfg iter key now r (w_cache w);
                    w_clock := w_clock w; w_pending := rest;
                    w_log := (key, now, r) :: w_log w |}
| cache_failed w key now rest : w_pending w ≡ₚ (key, now) :: rest →
    cache_step w {| w_cache := w_cache w; w_clock := w_clock w; w_pending := rest;
                    w_log := w_log w |}
| cache_cleared w :
    cache_step w {| w_cache := ∅; w_clock := w_clock w; w_pending := w_pending w;
                    w_log := w_log w |}.

Definition cache_initial (t : Instant) : CacheWorld := {|
  w_cache := ∅; w_clock := t; w_pending := []; w_log := [] |}.

(** Every entry is an answer of the provider, and there are not too many. *)
Definition cache_inv (w : CacheWorld) : Prop :=
  (∀ k e, w_cache w !! k = Some e → (k, created_at e, entry_response e) ∈ w_log w) ∧
  size (w_cache w) ≤ Nat.max 1 (max_entries cfg).

Hypothesis iter_perm : ∀ m, iter m ≡ₚ map_to_list m.

Lemma cache_inv_lookup w key now m r :
  cache_inv w → cache_lookup cfg key now (w_cache w) = (m, r) →
  (∀ k e, m !! k = Some e → (k, created_at e, entry_response e) ∈ w_log w) ∧
  size m ≤ Nat.max 1 (max_entries cfg).
Proof.
  intros [He Hs] Hl. replace m with (cache_lookup cfg key now (w_cache w)).1 by (by rewrite Hl).
  split.
  - intros k e H. apply cache_lookup_entries in H as (e0 & H & -> & ->). by apply He.
  - etrans; [apply cache_lookup_size|done].
Qed.

Lemma cache_step_inv w w' : cache_inv w → cache_step w w' → cache_inv w'.
Proof.
  intros Hinv Hstep. pose proof Hinv as [He Hs].
  destruct Hstep as [w t Ht|w key now m r Hn Hl|w key now m Hn Hl|w key now rest r Hp
    |w key now rest Hp|w]; [done|by apply (cache_inv_lookup _ _ _ _ _ Hinv Hl)..| |done|].
  - split; simpl; [|by apply cache_store_size].
    intros k e Hk. apply (cache_store_entries cfg iter iter_perm) in Hk as [(-> & -> & ->)|Hk].
    + by left.
    + right. by apply He.
  - split; simpl; [intros k e; by rewrite lookup_empty|rewrite map_size_empty; lia].
Qed.

Lemma cache_reachable_inv t w : rtc cache_step (cache_initial t) w → cache_inv w.
Proof.
  apply (rtc_invariant cache_step cache_inv); [intros; by eapply cache_step_inv|].
  split; simpl; [intros k e; by rewrite lookup_empty|rewrite map_size_empty; lia].
Qed.
End Concurrent.

(** ** Properties *)

(** However requests interleave, the cache never holds more than
    [max_entries] entries (one, if that is zero), and an answer from the
    cache is one the wrapped provider gave to a request with the same key
    that started less than the time-to-live ago. *)
Theorem cache_hit_sound cfg iter t w key now m r
    (iter_perm : ∀ m, iter m ≡ₚ map_to_list m)
    (Hreach : rtc (cache_step cfg iter) (cache_initial t) w)
    (Hhit : cache_lookup cfg key now (w_cache w) = (m, Some r)) :
  size (w_cache w) ≤ Nat.max 1 (max_entries cfg) ∧
  ∃ started, (key, started, r) ∈ w_log w ∧ (elapsed now started < ttl cfg)%Z.
Proof.
  destruct (cache_reachable_inv cfg iter iter_perm t w Hreach) as [He Hs].
  split; [done|]. apply cache_lookup_hit in Hhit as (e & Hk & <- & Hlt).
  exists (created_at e). split; [by apply He|done].
Qed.

(** Storing an answer makes it available, keeps the limit, removes
    every expired entry and, of the others, only as many as needed and the
    least recently used first; entries that stay are unchanged. *)
Theorem cache_store_lru cfg iter key now r m
    (iter_perm : ∀ m, iter m ≡ₚ map_to_list m) :
  let m' := cache_store cfg iter key now r m in
  (∃ e, m' !! key = Some e ∧ entry_response e = r ∧ created_at e = now) ∧
  size m' ≤ Nat.max 1 (max_entries cfg) ∧
  (∀ k e, k ≠ key → m' !! k = Some e → m !! k = Some e ∧ (elapsed now (created_at e) < ttl cfg)%Z) ∧
  (size (filter (λ kv, fresh_at cfg now kv.2 = true) m) < max_entries cfg →
     ∀ k e, k ≠ key → m !! k = Some e → fresh_at cfg now e = true → m' !! k = Some e) ∧
  (∀ k e k' e', m !! k = Some e → fresh_at cfg now e = true → m' !! k = None →
     k' ≠ key → m' !! k' = Some e' → (last_accessed e <= last_accessed e')%Z).
Proof.
  intros m'. split; [eexists; split; [by apply lookup_insert_eq|done]|].
  split; [by apply cache_store_size|]. unfold m', cache_store. cbv zeta.
  set (live := filter (λ kv, fresh_at cfg now kv.2 = true) m).
  assert (∀ k e, live !! k = Some e ↔ m !! k = Some e ∧ fresh_at cfg now e = true) as Hlive
    by (intros; apply map_lookup_filter_Some).
  destruct (evict_lru_spec cfg iter iter_perm (size live) live) as (Hsub & _ & Hroom & Hlru);
    [done|]. split_and!.
  - intros k e Hk. rewrite lookup_insert_ne by done. intros Hke.
    apply (lookup_weaken _ _ _ _ Hke), Hlive in Hsub as [? Hf]. split; [done|].
    unfold fresh_at in Hf. by zify_bool.
  - intros Hlt k e Hk Hke Hf. rewrite lookup_insert_ne by done. rewrite Hroom by done.
    by apply Hlive.
  - intros k e k' e' Hke Hf. rewrite lookup_insert_None. intros [Hnone Hk] Hk'.
    rewrite lookup_insert_ne by done. intros Hke'.
    apply (Hlru k e k' e'); [by apply Hlive|done..].
Qed.

(** The separators of the key are not escaped: stop sequences that contain
    the separating NUL byte can give two different requests the same key. *)
Lemma cache_key_stop_collision `{SerdeJson} sha256_hex messages_json model ms :
  let req stops := {| req_messages := ms; req_stop_sequences := Some stops; req_model := None;
                      req_max_tokens := None; req_temperature := None; req_metadata := ∅ |} in
  let nul := String (byte 0) "" in
  cache_key sha256_hex messages_json model (req ["a" +:+ nul +:+ "b"]) =
  cache_key sha256_hex messages_json model (req ["a"; "b"]).
Proof. reflexivity. Qed.

(** ** Witnesses *)

Definition demo_cache_cfg : ResponseCacheConfig := {| ttl := secs 60; max_entries := 1 |}.

(** One request was answered and stored. *)
Definition demo_cache_world : CacheWorld := {|
  w_cache := cache_store demo_cache_cfg map_to_list "k" 0 canned_response ∅;
  w_clock := 0; w_pending := []; w_log := [("k", 0%Z, canned_response)] |}.

Lemma demo_cache_reachable :
  rtc (cache_step demo_cache_cfg map_to_list) (cache_initial 0) demo_cache_world.
Proof.
  eapply rtc_l; [by apply (cache_miss demo_cache_cfg map_to_list (cache_initial 0) "k" 0 ∅)|].
  apply rtc_once. simpl.
  by apply (cache_answered demo_cache_cfg map_to_list
    {| w_cache := ∅; w_clock := 0; w_pending := [("k", 0%Z)]; w_log := [] |}
    "k" 0 [] canned_response).
Qed.

Lemma cache_hit_sound_witness :
  size (w_cache demo_cache_world) ≤ 1 ∧
  ∃ started, ("k", started, canned_response) ∈ w_log demo_cache_world ∧
             (elapsed (secs 5) started < secs 60)%Z.
Proof.
  apply (cache_hit_sound demo_cache_cfg map_to_list 0 demo_cache_world "k" (secs 5)
    (cache_lookup demo_cache_cfg "k" (secs 5) (w_cache demo_cache_world)).1 canned_response);
    [intros; reflexivity|exact demo_cache_reachable|vm_compute; reflexivity].
Defined.

Lemma cache_store_lru_witness :
  size (cache_store demo_cache_cfg map_to_list "j" (secs 1) canned_response
          (w_cache demo_cache_world)) ≤ 1.
Proof.
  destruct (cache_store_lru demo_cache_cfg map_to_list "j" (secs 1) canned_response
    (w_cache demo_cache_world) ltac:(intros; reflexivity)) as (_ & H & _).
  exact H.
Defined.
