(* ===== verification/CostGuard.v ===== *)
(** * Cost guard

    Models [src/src/llm/costs.rs] (the price table), [src/src/agent/cost_guard.rs]
    (daily budget and hourly rate) and the guarded model call of
    [src/src/agent/dispatcher/delegate/loops.rs].  Each operation is one
    atomic step; the clock reading ([now], an [Instant] counted from the
    platform's origin) and the current UTC date ([today], a day number) are
    arguments. *)

From stdpp Require Import sorting.
From S2P Require Import Prelude Externals Text LlmTypes.

(** ** Prices *)

Section Costs.
Context {D : RustDecimal} {U : UnicodeCase}.

Definition is_free_model (model_id : string) : bool :=
  ends_with model_id ":free" || bool_decide (model_id = "openrouter/free")
  || bool_decide (model_id = "free").

Definition default_cost : dec * dec := (dec_lit 25 7, dec_lit 1 5).

Definition is_local_model (model_id : string) : bool :=
  let lower := to_lowercase model_id in
  existsb (starts_with lower)
    ["llama"; "mistral"; "mixtral"; "phi"; "gemma"; "qwen"; "codellama"; "deepseek";
     "starcoder"; "vicuna"; "yi"]
  || contains lower ":latest" || contains lower ":instruct".

(** The arms of the [match], in order. *)
Definition price_table : list (list string * (dec * dec)) := [
  (["gpt-5.3-codex"; "gpt-5.3-codex-spark"], (dec_lit 2 6, dec_lit 8 6));
  (["gpt-5.2-codex"; "gpt-5.2-pro"; "gpt-5.2"], (dec_lit 2 6, dec_lit 8 6));
  (["gpt-5.1-codex"; "gpt-5.1-codex-max"; "gpt-5.1"], (dec_lit 2 6, dec_lit 8 6));
  (["gpt-5.1-codex-mini"], (dec_lit 3 7, dec_lit 12 7));
  (["gpt-5-codex"; "gpt-5-pro"; "gpt-5"], (dec_lit 2 6, dec_lit 8 6));
  (["gpt-5-mini"; "gpt-5-nano"], (dec_lit 3 7, dec_lit 12 7));
  (["gpt-4.1"], (dec_lit 2 6, dec_lit 8 6));
  (["gpt-4.1-mini"], (dec_lit 4 7, dec_lit 16 7));
  (["gpt-4.1-nano"], (dec_lit 1 7, dec_lit 4 7));
  (["gpt-4o"; "gpt-4o-2024-11-20"; "gpt-4o-2024-08-06"], (dec_lit 25 7, dec_lit 1 5));
  (["gpt-4o-mini"; "gpt-4o-mini-2024-07-18"], (dec_lit 15 8, dec_lit 6 7));
  (["gpt-4-turbo"; "gpt-4-turbo-2024-04-09"], (dec_lit 1 5, dec_lit 3 5));
  (["gpt-4"; "gpt-4-0613"], (dec_lit 3 5, dec_lit 6 5));
  (["gpt-3.5-turbo"; "gpt-3.5-turbo-0125"], (dec_lit 5 7, dec_lit 15 7));
  (["o3"], (dec_lit 2 6, dec_lit 8 6));
  (["o3-mini"; "o3-mini-2025-01-31"], (dec_lit 11 7, dec_lit 44 7));
  (["o4-mini"], (dec_lit 11 7, dec_lit 44 7));
  (["o1"; "o1-2024-12-17"], (dec_lit 15 6, dec_lit 6 5));
  (["o1-mini"; "o1-mini-2024-09-12"], (dec_lit 3 6, dec_lit 12 6));
  (["claude-opus-4-6"; "claude-opus-4-5"; "claude-opus-4-5-20251101"; "claude-opus-4-1";
    "claude-opus-4-1-20250805"; "claude-opus-4-0"; "claude-opus-4-20250514";
    "claude-3-opus-20240229"; "claude-3-opus-latest"], (dec_lit 15 6, dec_lit 75 6));
  (["claude-sonnet-4-6"; "claude-sonnet-4-5"; "claude-sonnet-4-5-20250929";
    "claude-sonnet-4-0"; "claude-sonnet-4-20250514"; "claude-3-7-sonnet-20250219";
    "claude-3-7-sonnet-latest"; "claude-3-5-sonnet-20241022";
    "claude-3-5-sonnet-latest"], (dec_lit 3 6, dec_lit 15 6));
  (["claude-haiku-4-5"; "claude-haiku-4-5-20251001"; "claude-3-5-haiku-20241022";
    "claude-3-5-haiku-latest"], (dec_lit 8 7, dec_lit 4 6));
  (["claude-3-haiku-20240307"], (dec_lit 25 8, dec_lit 125 8)) ].

Definition model_cost (model_id : string) : option (dec * dec) :=
  if is_free_model model_id then Some (dec_zero, dec_zero)
  else
    let id := default model_id (after_last (byte 47) model_id) in
    match list_find (λ row, id ∈ row.1) price_table with
    | Some (_, row) => Some row.2
    | None => if is_local_model id then Some (dec_zero, dec_zero) else None
    end.
End Costs.

(** ** The guard *)

Record CostGuardConfig := {
  max_cost_per_day_cents : option Z;
  max_actions_per_hour : option Z;
}.

Inductive CostLimitExceeded :=
| DailyBudget (spent_cents limit_cents : Z)
| HourlyRate (actions limit : Z).

(** [{:.2}] of [cents as f64 / 100.0], for amounts an [f64] holds exactly. *)
Definition show_dollars (cents : Z) : string :=
  let r := (cents mod 100)%Z in
  pretty (cents / 100)%Z +:+ "." +:+ (if (r <? 10)%Z then "0" else "") +:+ pretty r.

Definition cost_limit_display (l : CostLimitExceeded) : string :=
  match l with
  | DailyBudget spent limit =>
      "Daily cost limit exceeded: spent $" +:+ show_dollars spent +:+ " of $"
      +:+ show_dollars limit +:+ " allowed"
  | HourlyRate actions limit =>
      "Hourly action limit exceeded: " +:+ pretty actions +:+ " actions of " +:+ pretty limit
      +:+ " allowed per hour"
  end.

Section Guard.
Context {D : RustDecimal} {U : UnicodeCase}.

Record ModelTokens := {
  mt_input_tokens : Z;
  mt_output_tokens : Z;
  mt_cost : dec;
}.

Definition model_tokens_default : ModelTokens := {|
  mt_input_tokens := 0; mt_output_tokens := 0; mt_cost := dec_zero |}.

Record DailyCost := {
  dc_total : dec;
  reset_date : Z;
}.

Record CostGuard := {
  guard_config : CostGuardConfig;
  daily_cost : DailyCost;
  action_window : list Instant;
  budget_exceeded : bool;
  model_tokens : gmap string ModelTokens;
}.

Definition cost_guard_new (cfg : CostGuardConfig) (today : Z) : CostGuard := {|
  guard_config := cfg; daily_cost := {| dc_total := dec_zero; reset_date := today |};
  action_window := []; budget_exceeded := false; model_tokens := ∅ |}.

Definition set_exceeded (b : bool) (g : CostGuard) : CostGuard := {|
  guard_config := guard_config g; daily_cost := daily_cost g;
  action_window := action_window g; budget_exceeded := b; model_tokens := model_tokens g |}.
Definition set_window (w : list Instant) (g : CostGuard) : CostGuard := {|
  guard_config := guard_config g; daily_cost := daily_cost g;
  action_window := w; budget_exceeded := budget_exceeded g; model_tokens := model_tokens g |}.

Definition to_cents (usd : dec) : Z :=
  default 0%Z (parse_unsigned u64_max (dec_to_string (dec_trunc (dec_mul usd (dec_of_Z 100))))).

(** [while window.front().is_some_and(|t| *t < cutoff) { pop_front }] *)
Fixpoint drain_before (cutoff : Instant) (w : list Instant) : list Instant :=
  match w with
  | t :: w' => if (t <? cutoff)%Z then drain_before cutoff w' else w
  | [] => []
  end.

(** [Instant::now().checked_sub(1 hour)] is [None] before the first hour. *)
Definition drain_hour (now : Instant) (w : list Instant) : list Instant :=
  if (secs 3600 <=? now)%Z then drain_before (now - secs 3600) w else w.

Definition cost_check_allowed (now : Instant) (g : CostGuard) :
    CostGuard * result unit CostLimitExceeded :=
  let spent := to_cents (dc_total (daily_cost g)) in
  if budget_exceeded g then
    (g, Err (DailyBudget spent (default 0%Z (max_cost_per_day_cents (guard_config g)))))
  else
    let over := match max_cost_per_day_cents (guard_config g) with
                | Some limit => if (limit <=? spent)%Z then Some limit else None
                | None => None
                end in
    match over with
    | Some limit => (set_exceeded true g, Err (DailyBudget spent limit))
    | None =>
        match max_actions_per_hour (guard_config g) with
        | Some limit =>
            let w := drain_hour now (action_window g) in
            let count := Z.of_nat (length w) in
            let g := set_window w g in
            if (limit <=? count)%Z then (g, Err (HourlyRate count limit)) else (g, Ok tt)
        | None => (g, Ok tt)
        end
    end.

(** Token counts and rates of one call. *)
Record Usage := {
  u_input : Z; u_output : Z; u_cache_read : Z; u_cache_creation : Z;
  u_read_discount : dec; u_write_multiplier : dec; u_rates : option (dec * dec);
}.

Definition call_cost (model : string) (u : Usage) : dec :=
  let '(input_rate, output_rate) :=
    match u_rates u with
    | Some r => r
    | None => default default_cost (model_cost model)
    end in
  let cached_total := sat_u32 (u_cache_read u + u_cache_creation u) in
  let uncached_input := Z.max 0 (u_input u - cached_total) in
  let effective_discount :=
    if dec_is_zero (u_read_discount u) then dec_one else u_read_discount u in
  let cache_read_cost :=
    dec_div (dec_mul input_rate (dec_of_Z (u_cache_read u))) effective_discount in
  let cache_write_cost :=
    dec_mul (dec_mul input_rate (dec_of_Z (u_cache_creation u))) (u_write_multiplier u) in
  dec_add (dec_add (dec_add (dec_mul input_rate (dec_of_Z uncached_input)) cache_read_cost)
             cache_write_cost)
    (dec_mul output_rate (dec_of_Z (u_output u))).

(** The block that updates the daily total.  The warning at 80% of the limit, which only logs, is
    left out with its arithmetic. *)
Definition add_daily (today : Z) (cost : dec) (g : CostGuard) : CostGuard :=
  let new_day := negb (today =? reset_date (daily_cost g))%Z in
  let total0 := if new_day then dec_zero else dc_total (daily_cost g) in
  let exceeded0 := if new_day then false else budget_exceeded g in
  let total := dec_add total0 cost in
  let exceeded := match max_cost_per_day_cents (guard_config g) with
                  | Some limit => if (limit <=? to_cents total)%Z then true else exceeded0
                  | None => exceeded0
                  end in
  {| guard_config := guard_config g;
     daily_cost := {| dc_total := total; reset_date := today |};
     action_window := action_window g; budget_exceeded := exceeded;
     model_tokens := model_tokens g |}.

Definition add_tokens_for (model : string) (u : Usage) (cost : dec)
    (m : gmap string ModelTokens) : gmap string ModelTokens :=
  let e := default model_tokens_default (m !! model) in
  <[model := {| mt_input_tokens := wrap_u64 (mt_input_tokens e + u_input u);
                mt_output_tokens := wrap_u64 (mt_output_tokens e + u_output u);
                mt_cost := dec_add (mt_cost e) cost |}]> m.

Definition record_llm_call (now : Instant) (today : Z) (model : string) (u : Usage)
    (g : CostGuard) : CostGuard * dec :=
  let cost := call_cost model u in
  let g := add_daily today cost g in
  let g := set_window (action_window g ++ [now]) g in
  ({| guard_config := guard_config g; daily_cost := daily_cost g;
      action_window := action_window g; budget_exceeded := budget_exceeded g;
      model_tokens := add_tokens_for model u cost (model_tokens g) |}, cost).

Definition daily_spend (today : Z) (g : CostGuard) : dec :=
  if negb (today =? reset_date (daily_cost g))%Z then dec_zero else dc_total (daily_cost g).

Definition actions_this_hour (now : Instant) (g : CostGuard) : CostGuard * Z :=
  let w := drain_hour now (action_window g) in
  (set_window w g, Z.of_nat (length w)).

Definition model_usage (g : CostGuard) : gmap string ModelTokens := model_tokens g.

(** ** The guarded call

    [call_llm] of the chat delegate: the guard is asked first, the model is
    called (a second time with compacted messages when the context was too
    long), and a success is recorded.  [r1] and [r2] are the answers of the
    two calls, [t_check] and [t_done] the clock before and after. *)
Definition call_llm (t_check t_done : Instant) (today : Z) (model : string)
    (r1 r2 : result Usage LlmError) (g : CostGuard) : CostGuard * result Usage LlmError :=
  match cost_check_allowed t_check g with
  | (g, Err limit) => (g, Err (InvalidResponse "agent" (cost_limit_display limit)))
  | (g, Ok _) =>
      let output := match r1 with
                    | Ok o => Ok o
                    | Err (ContextLengthExceeded _ _) => r2
                    | Err e => Err e
                    end in
      match output with
      | Ok u => ((record_llm_call t_done today model u g).1, Ok u)
      | Err e => (g, Err e)
      end
  end.
End Guard.
Arguments CostGuard : clear implicits.
Arguments CostGuard {D}.
Arguments Usage : clear implicits.
Arguments Usage {D}.

(** ** History

    The guard together with the clock, the date and the log of every
    recorded call: when, on which day, at what cost. *)

Section History.
Context {D : RustDecimal} {U : UnicodeCase}.

Record GuardWorld := {
  gw_guard : CostGuard;
  gw_clock : Instant;
  gw_today : Z;
  gw_log : list (Instant * Z * dec);
}.

(** The cost is not negative and the new total is still a [u64] of cents. *)
Definition cost_counts (g : CostGuard) (cost : dec) : Prop :=
  (to_cents (dc_total (daily_cost g)) <= to_cents (dec_add (dc_total (daily_cost g)) cost))%Z.

Inductive gw_step : GuardWorld → GuardWorld → Prop :=
| gw_check w now : (gw_clock w <= now)%Z →
    gw_step w {| gw_guard := (cost_check_allowed now (gw_guard w)).1; gw_clock := now;
                 gw_today := gw_today w; gw_log := gw_log w |}
| gw_read w now : (gw_clock w <= now)%Z →
    gw_step w {| gw_guard := (actions_this_hour now (gw_guard w)).1; gw_clock := now;
                 gw_today := gw_today w; gw_log := gw_log w |}
| gw_record w now today model u : (gw_clock w <= now)%Z → (gw_today w <= today)%Z →
    cost_counts (gw_guard w) (call_cost model u) →
    gw_step w {| gw_guard := (record_llm_call now today model u (gw_guard w)).1;
                 gw_clock := now; gw_today := today;
                 gw_log := gw_log w ++ [(now, today, call_cost model u)] |}.

Definition gw_initial (cfg : CostGuardConfig) (t : Instant) (today : Z) : GuardWorld := {|
  gw_guard := cost_guard_new cfg today; gw_clock := t; gw_today := today; gw_log := [] |}.

(** What the log says: the costs of a day, the times of the calls, the calls
    since a moment, and the last day on which a call was recorded. *)
Definition costs_on (day : Z) (log : list (Instant * Z * dec)) : list dec :=
  omap (λ e, if (e.1.2 =? day)%Z then Some e.2 else None) log.
Definition spent_on (day : Z) (log : list (Instant * Z * dec)) : dec :=
  foldl dec_add dec_zero (costs_on day log).
Definition times (log : list (Instant * Z * dec)) : list Instant := (λ e, e.1.1) <$> log.
Definition calls_since (t : Instant) (log : list (Instant * Z * dec)) : nat :=
  since t (times log).
Definition billing_day (day0 : Z) (log : list (Instant * Z * dec)) : Z :=
  from_option (λ e, e.1.2) day0 (last log).

(** What the guard is meant to decide from the log. *)
Definition guard_decision (cfg : CostGuardConfig) (spent : Z) (recent : Z) :
    result unit CostLimitExceeded :=
  match max_cost_per_day_cents cfg with
  | Some limit => if (limit <=? spent)%Z then Err (DailyBudget spent limit) else
      match max_actions_per_hour cfg with
      | Some l => if (l <=? recent)%Z then Err (HourlyRate recent l) else Ok tt
      | None => Ok tt
      end
  | None =>
      match max_actions_per_hour cfg with
      | Some l => if (l <=? recent)%Z then Err (HourlyRate recent l) else Ok tt
      | None => Ok tt
      end
  end.

(** *** The window *)

Lemma drain_before_sorted cutoff w :
  StronglySorted Z.le w → drain_before cutoff w = filter (λ x, (cutoff <=? x)%Z = true) w.
Proof.
  induction w as [|t w IH]; intros Hs; [done|].
  apply StronglySorted_cons in Hs as [HF Hs]. simpl. rewrite filter_cons.
  destruct (Z.ltb_spec t cutoff); case_decide as Hc; zify_bool; try lia; [by apply IH|].
  f_equal. symmetry. apply list_filter_all. intros x Hx. apply Z.leb_le.
  rewrite Forall_forall in HF. specialize (HF x Hx). simpl in HF. lia.
Qed.

Definition window_ok (now : Instant) (ts w : list Instant) : Prop :=
  StronglySorted Z.le ts ∧ Forall (λ t, (0 <= t <= now)%Z) ts ∧
  ∃ dropped, ts = dropped ++ w ∧ Forall (λ t, (t < now - secs 3600)%Z) dropped.

Lemma window_ok_later now now' ts w :
  (now <= now')%Z → window_ok now ts w → window_ok now' ts w.
Proof.
  intros Hle (Hs & HF & d & -> & Hd). split_and!; [done| |].
  - eapply Forall_impl; [done|]. simpl. lia.
  - exists d. split; [done|]. eapply Forall_impl; [done|]. simpl. lia.
Qed.

Lemma drain_hour_spec now ts w :
  window_ok now ts w →
  window_ok now ts (drain_hour now w) ∧
  drain_hour now w = filter (λ x, (now - secs 3600 <=? x)%Z = true) ts.
Proof.
  intros (Hs & HF & d & -> & Hd).
  assert (StronglySorted Z.le w) as Hw by (by eapply StronglySorted_app_1_r).
  assert (drain_hour now w = filter (λ x, (now - secs 3600 <=? x)%Z = true) w) as Hdr.
  { unfold drain_hour. destruct (Z.leb_spec (secs 3600) now); [by apply drain_before_sorted|].
    symmetry. apply list_filter_all. intros x Hx. apply Z.leb_le.
    rewrite Forall_forall in HF. specialize (HF x ltac:(set_solver)). simpl in HF. lia. }
  assert (filter (λ x, (now - secs 3600 <=? x)%Z = true) d = []) as Hdn.
  { apply list_filter_none. intros x Hx Hle. rewrite Forall_forall in Hd.
    specialize (Hd x Hx). simpl in Hd. zify_bool. lia. }
  rewrite filter_app, Hdn, Hdr. split; [|done]. split_and!; [done..|].
  exists (d ++ filter (λ x, ¬ (now - secs 3600 <=? x)%Z = true) w). split.
  - rewrite <-app_assoc. f_equal. clear -Hw. revert Hw. induction w as [|t w IH]; [done|].
    intros Hw. apply StronglySorted_cons in Hw as [HF Hw]. rewrite !filter_cons.
    destruct (decide ((now - secs 3600 <=? t)%Z = true)) as [Hc|Hc]; case_decide; try done.
    + rewrite (IH Hw) at 1.
      replace (filter (λ x, ¬ (now - secs 3600 <=? x)%Z = true) w) with (@nil Z); [done|].
      symmetry. apply list_filter_none. intros x Hx Hn. apply Hn. zify_bool. apply Z.leb_le.
      rewrite Forall_forall in HF. specialize (HF x Hx). simpl in HF. lia.
    + simpl. f_equal. by apply IH.
  - apply Forall_app_2; [done|]. apply Forall_forall. intros x Hx.
    apply list_elem_of_filter in Hx as [Hx _]. apply not_true_is_false in Hx. zify_bool. lia.
Qed.

Lemma window_ok_record now now' ts w :
  (now <= now')%Z → window_ok now ts w → (0 <= now')%Z → window_ok now' (ts ++ [now']) (w ++ [now']).
Proof.
  intros Hle Hw H0. pose proof (window_ok_later _ _ _ _ Hle Hw) as (Hs & HF & d & -> & Hd).
  split_and!.
  - apply StronglySorted_app_2; [|done|constructor; constructor].
    intros x y Hx Hy. apply list_elem_of_singleton in Hy as ->.
    rewrite Forall_forall in HF. by apply HF.
  - apply Forall_app_2; [done|]. constructor; [lia|constructor].
  - exists d. split; [by rewrite app_assoc|done].
Qed.

(** *** The invariant *)

Definition guard_inv (cfg : CostGuardConfig) (day0 : Z) (w : GuardWorld) : Prop :=
  let g := gw_guard w in
  guard_config g = cfg ∧ (0 <= gw_clock w)%Z ∧
  reset_date (daily_cost g) = billing_day day0 (gw_log w) ∧
  (reset_date (daily_cost g) <= gw_today w)%Z ∧
  Forall (λ e, (e.1.2 <= reset_date (daily_cost g))%Z) (gw_log w) ∧
  dc_total (daily_cost g) = spent_on (reset_date (daily_cost g)) (gw_log w) ∧
  (budget_exceeded g = true → ∃ limit, max_cost_per_day_cents cfg = Some limit ∧
     (limit <= to_cents (dc_total (daily_cost g)))%Z) ∧
  window_ok (gw_clock w) (times (gw_log w)) (action_window g).

Lemma costs_on_snoc day log t d c :
  costs_on day (log ++ [(t, d, c)]) = costs_on day log ++ (if (d =? day)%Z then [c] else []).
Proof. unfold costs_on. rewrite omap_app. simpl. by destruct (d =? day)%Z. Qed.

Lemma costs_on_later day log :
  Forall (λ e, (e.1.2 < day)%Z) log → costs_on day log = [].
Proof.
  induction 1 as [|[[t d] c] log Hd _ IH]; [done|]. unfold costs_on in *. simpl in *.
  destruct (Z.eqb_spec d day); [lia|done].
Qed.

Lemma guard_inv_check cfg day0 w now :
  guard_inv cfg day0 w → (gw_clock w <= now)%Z →
  guard_inv cfg day0 {| gw_guard := (cost_check_allowed now (gw_guard w)).1; gw_clock := now;
                        gw_today := gw_today w; gw_log := gw_log w |}.
Proof.
  intros (Hc & H0 & Hr & Ht & Hd & Htot & Hl & Hw) Hle.
  apply (window_ok_later _ _ _ _ Hle) in Hw. pose proof (drain_hour_spec _ _ _ Hw) as [Hw' _].
  unfold guard_inv, cost_check_allowed. simpl. rewrite Hc.
  destruct (budget_exceeded (gw_guard w)) eqn:Eb; simpl; [by split_and!; eauto; lia|].
  destruct (max_cost_per_day_cents cfg) as [limit|] eqn:El.
  - destruct (limit <=? to_cents (dc_total (daily_cost (gw_guard w))))%Z eqn:E; zify_bool; simpl.
    + split_and!; try done; try lia. eauto.
    + destruct (max_actions_per_hour cfg) as [l|]; [case_match|]; simpl; rewrite ?Eb;
        split_and!; done || lia.
  - destruct (max_actions_per_hour cfg) as [l|]; [case_match|]; simpl; rewrite ?Eb;
      split_and!; done || lia.
Qed.

Lemma guard_inv_record cfg day0 w now today model u :
  guard_inv cfg day0 w → (gw_clock w <= now)%Z → (gw_today w <= today)%Z →
  cost_counts (gw_guard w) (call_cost model u) →
  guard_inv cfg day0 {| gw_guard := (record_llm_call now today model u (gw_guard w)).1;
    gw_clock := now; gw_today := today;
    gw_log := gw_log w ++ [(now, today, call_cost model u)] |}.
Proof.
  intros (Hc & H0 & Hr & Ht & Hd & Htot & Hl & Hw) Hle Hday Hcc.
  unfold guard_inv. simpl. unfold billing_day. rewrite last_snoc. simpl.
  split_and!; try done; try lia.
  - apply Forall_app_2; [|constructor; [done|constructor]].
    eapply Forall_impl; [exact Hd|]. simpl. lia.
  - unfold spent_on. rewrite costs_on_snoc, Z.eqb_refl, foldl_app. simpl. f_equal.
    destruct (Z.eqb_spec today (reset_date (daily_cost (gw_guard w)))) as [->|Hne]; simpl.
    + exact Htot.
    + rewrite costs_on_later; [done|]. eapply Forall_impl; [exact Hd|]. simpl. lia.
  - rewrite Hc. destruct (max_cost_per_day_cents cfg) as [limit|].
    + destruct (limit <=? to_cents _)%Z eqn:E; zify_bool; [eauto|].
      destruct (negb (today =? _)%Z) eqn:En; [done|]. zify_bool. intros Hb.
      destruct (Hl Hb) as (l & ? & Hle'). simplify_eq. unfold cost_counts in Hcc. lia.
    + destruct (negb _); [done|]. intros Hb. by destruct (Hl Hb) as (? & ? & _).
  - unfold times. rewrite fmap_app. simpl. eapply window_ok_record; [done|exact Hw|lia].
Qed.
End History.

(** ** Properties *)

Section Properties.
Context {D : RustDecimal} {U : UnicodeCase}.

Lemma guard_inv_initial cfg t day0 :
  (0 <= t)%Z → guard_inv cfg day0 (gw_initial cfg t day0).
Proof.
  intros Ht. unfold guard_inv. simpl. split_and!; try done.
  split_and!; [constructor..|]. exists []. done.
Qed.

Lemma gw_step_inv cfg day0 w w' : guard_inv cfg day0 w → gw_step w w' → guard_inv cfg day0 w'.
Proof.
  intros Hinv Hstep. destruct Hstep as [w now Hle|w now Hle|w now today model u Hle Hday Hcc].
  - by apply guard_inv_check.
  - destruct Hinv as (Hc & H0 & Hr & Ht & Hd & Htot & Hl & Hw).
    apply (window_ok_later _ _ _ _ Hle) in Hw. apply drain_hour_spec in Hw as [Hw _].
    unfold guard_inv. simpl. split_and!; try done; lia.
  - by apply guard_inv_record.
Qed.

Lemma guard_reachable_inv cfg t day0 w :
  (0 <= t)%Z → rtc gw_step (gw_initial cfg t day0) w → guard_inv cfg day0 w.
Proof.
  intros Ht. apply (rtc_invariant gw_step (guard_inv cfg day0)).
  - intros; by eapply gw_step_inv.
  - by apply guard_inv_initial.
Qed.

(** On every reachable state the guard answers what the log says. *)
Lemma guard_check_decision cfg day0 w now :
  guard_inv cfg day0 w → (gw_clock w <= now)%Z →
  (cost_check_allowed now (gw_guard w)).2 =
    guard_decision cfg (to_cents (spent_on (billing_day day0 (gw_log w)) (gw_log w)))
      (Z.of_nat (calls_since (now - secs 3600) (gw_log w))).
Proof.
  intros (Hc & H0 & Hr & Ht & Hd & Htot & Hl & Hw) Hle.
  apply (window_ok_later _ _ _ _ Hle) in Hw. apply drain_hour_spec in Hw as [_ Hw].
  unfold cost_check_allowed, guard_decision. rewrite Hc, <-Hr, <-Htot. cbv zeta.
  rewrite Hw. unfold calls_since, since.
  destruct (budget_exceeded (gw_guard w)).
  { destruct (Hl eq_refl) as (limit & -> & Hle'). simpl.
    by destruct (Z.leb_spec limit (to_cents (dc_total (daily_cost (gw_guard w))))); [|lia]. }
  destruct (max_cost_per_day_cents cfg) as [limit|];
    [destruct (limit <=? _)%Z; [done|]|];
    (destruct (max_actions_per_hour cfg) as [l|]; [|done]); by destruct (l <=? _)%Z.
Qed.

(** The guard's answer is a function of the recorded history, as long as the
    recorded costs are valid amounts: the call is refused for the budget exactly
    when the costs recorded on the last day on which anything was recorded (which
    need not be the current one) reach the daily limit, else for the rate exactly
    when the calls recorded in the hour before the check reach the hourly limit,
    and allowed otherwise; the refusal carries these numbers. *)
Theorem guard_decides_from_history cfg t day0 w now
    (Ht : (0 <= t)%Z) (Hreach : rtc gw_step (gw_initial cfg t day0) w)
    (Hnow : (gw_clock w <= now)%Z) :
  (cost_check_allowed now (gw_guard w)).2 =
    guard_decision cfg (to_cents (spent_on (billing_day day0 (gw_log w)) (gw_log w)))
      (Z.of_nat (calls_since (now - secs 3600) (gw_log w))).
Proof. apply guard_check_decision; [by eapply guard_reachable_inv|done]. Qed.

(** *** The guarded agent *)

Record LlmCall := {
  lc_check : Instant; lc_done : Instant; lc_today : Z; lc_model : string;
  lc_first : result Usage LlmError; lc_retry : result Usage LlmError;
}.

Definition run_call (c : LlmCall) (g : CostGuard) : CostGuard * result Usage LlmError :=
  call_llm (lc_check c) (lc_done c) (lc_today c) (lc_model c) (lc_first c) (lc_retry c) g.

(** The budget never comes back: once the guard has latched, every
    later guarded call is refused and leaves the guard as it is, however
    many days pass, although the spend reported for a new day is zero. *)
Theorem blown_budget_is_permanent (g : CostGuard) (calls : list LlmCall) (c : LlmCall)
    (Hblown : budget_exceeded g = true) :
  let g' := foldl (λ g c, (run_call c g).1) g calls in
  g' = g ∧
  (run_call c g').2 = Err (InvalidResponse "agent" (cost_limit_display
    (DailyBudget (to_cents (dc_total (daily_cost g)))
       (default 0%Z (max_cost_per_day_cents (guard_config g)))))) ∧
  (∀ today, today ≠ reset_date (daily_cost g) → daily_spend today g' = dec_zero).
Proof.
  assert (∀ c, (run_call c g).1 = g ∧ (run_call c g).2 = Err (InvalidResponse "agent"
    (cost_limit_display (DailyBudget (to_cents (dc_total (daily_cost g)))
       (default 0%Z (max_cost_per_day_cents (guard_config g))))))) as Hone.
  { intros c'. unfold run_call, call_llm, cost_check_allowed. by rewrite Hblown. }
  intros g'. assert (g' = g) as ->.
  { unfold g'. clear g'. induction calls as [|c' calls IH]; simpl; [done|].
    by rewrite (proj1 (Hone c')). }
  split; [done|]. split; [apply Hone|].
  intros today Hd. unfold daily_spend. by destruct (Z.eqb_spec today (reset_date (daily_cost g))).
Qed.

(** A sequence of guarded calls, one after the other. *)
Inductive agent_step : GuardWorld → GuardWorld → Prop :=
| agent_refused w c : (gw_clock w <= lc_check c)%Z →
    is_ok (run_call c (gw_guard w)).2 = false →
    agent_step w {| gw_guard := (run_call c (gw_guard w)).1; gw_clock := lc_check c;
                    gw_today := gw_today w; gw_log := gw_log w |}
| agent_called w c u : (gw_clock w <= lc_check c <= lc_done c)%Z → (gw_today w <= lc_today c)%Z →
    (run_call c (gw_guard w)).2 = Ok u →
    cost_counts (gw_guard w) (call_cost (lc_model c) u) →
    agent_step w {| gw_guard := (run_call c (gw_guard w)).1; gw_clock := lc_done c;
                    gw_today := lc_today c;
                    gw_log := gw_log w ++ [(lc_done c, lc_today c, call_cost (lc_model c) u)] |}.

Lemma cost_check_daily now g : daily_cost (cost_check_allowed now g).1 = daily_cost g.
Proof. unfold cost_check_allowed. by repeat (case_match; simplify_eq/=). Qed.

Lemma run_call_ok c g u :
  (run_call c g).2 = Ok u →
  (cost_check_allowed (lc_check c) g).2 = Ok tt ∧
  (run_call c g).1 = (record_llm_call (lc_done c) (lc_today c) (lc_model c) u
                        (cost_check_allowed (lc_check c) g).1).1.
Proof.
  unfold run_call, call_llm. destruct (cost_check_allowed (lc_check c) g) as [g1 [[]|l]]; [|done].
  destruct (lc_first c) as [o|[]]; try done; simpl; intros; simplify_eq; try done.
  by destruct (lc_retry c); simplify_eq/=.
Qed.

Lemma run_call_refused c g :
  is_ok (run_call c g).2 = false → (run_call c g).1 = (cost_check_allowed (lc_check c) g).1.
Proof.
  unfold run_call, call_llm. destruct (cost_check_allowed (lc_check c) g) as [g1 [[]|l]]; [|done].
  destruct (lc_first c) as [o|[]]; try done; by destruct (lc_retry c).
Qed.

(** Every guarded call is a check followed by at most one record. *)
Lemma agent_step_inv cfg day0 w w' :
  guard_inv cfg day0 w → agent_step w w' → guard_inv cfg day0 w'.
Proof.
  intros Hinv Hstep. destruct Hstep as [w c Hle Hno|w c u Hle Hday Hok Hcc].
  - rewrite run_call_refused by done. by apply guard_inv_check.
  - apply run_call_ok in Hok as [Hok ->].
    pose proof (guard_inv_check _ _ _ (lc_check c) Hinv ltac:(lia)) as Hinv1.
    apply (guard_inv_record _ _ _ (lc_done c) (lc_today c) (lc_model c) u Hinv1); simpl; [lia|done|].
    unfold cost_counts in *. by rewrite cost_check_daily.
Qed.

Definition calls_between (t1 t2 : Instant) (log : list (Instant * Z * dec)) : nat :=
  between t1 t2 (times log).

(** An agent that makes its calls one after the other never gets more
    than the hourly limit of calls recorded within any period of an hour,
    wherever the period starts. *)
Theorem hourly_rate_holds cfg t day0 limit w from
    (Ht : (0 <= t)%Z) (Hlimit : max_actions_per_hour cfg = Some limit) (Hpos : (0 <= limit)%Z)
    (Hreach : rtc agent_step (gw_initial cfg t day0) w) :
  (Z.of_nat (calls_between from (from + secs 3600) (gw_log w)) <= limit)%Z.
Proof.
  enough (guard_inv cfg day0 w ∧ ∀ from,
    (Z.of_nat (calls_between from (from + secs 3600) (gw_log w)) <= limit)%Z) as [_ H] by apply H.
  revert Hreach. apply (rtc_invariant agent_step (λ w, guard_inv cfg day0 w ∧ ∀ from,
    (Z.of_nat (calls_between from (from + secs 3600) (gw_log w)) <= limit)%Z)); [clear w from|].
  - intros w w' [Hinv Hb] Hstep. split; [by eapply agent_step_inv|]. intros from.
    destruct Hstep as [w c Hle Hno|w c u Hle Hday Hok Hcc]; simpl; [apply Hb|].
    specialize (Hb from). unfold calls_between, times in *. rewrite fmap_app. cbn [fmap list_fmap].
    rewrite between_snoc. cbn [fst]. destruct (_ && _) eqn:E; [|lia].
    apply run_call_ok in Hok as [Hok _].
    rewrite (guard_check_decision cfg day0) in Hok by (done || lia).
    zify_bool. pose proof (between_since from (from + secs 3600)
      (lc_check c - secs 3600) (times (gw_log w))) as Hs.
    unfold guard_decision, calls_since in Hok. unfold times in *. rewrite Hlimit in Hok.
    destruct (max_cost_per_day_cents cfg) as [b|]; [destruct (b <=? _)%Z; [done|]|];
      destruct (limit <=? _)%Z eqn:El; try done; zify_bool; lia.
  - split; [by apply guard_inv_initial|]. done.
Qed.
End Properties.

(** ** Witnesses *)

Section Witnesses.
#[local] Existing Instance dec_cents.
#[local] Existing Instance ascii_case.

Definition demo_guard_cfg : CostGuardConfig := {|
  max_cost_per_day_cents := Some 500%Z; max_actions_per_hour := Some 2%Z |}.

(** One output token at three dollars. *)
Definition demo_usage : Usage := {|
  u_input := 0; u_output := 1; u_cache_read := 0; u_cache_creation := 0;
  u_read_discount := dec_one; u_write_multiplier := dec_one;
  u_rates := Some (0%Z, 300%Z) |}.

Definition demo_guard_world : GuardWorld := {|
  gw_guard := (record_llm_call 5 0 "m" demo_usage (cost_guard_new demo_guard_cfg 0)).1;
  gw_clock := 5; gw_today := 0; gw_log := [(5, 0, call_cost "m" demo_usage)]%Z |}.

Lemma demo_guard_reachable : rtc gw_step (gw_initial demo_guard_cfg 0 0) demo_guard_world.
Proof.
  apply rtc_once. apply (gw_record (gw_initial demo_guard_cfg 0 0) 5 0 "m" demo_usage);
    vm_compute; discriminate.
Qed.

Lemma guard_decides_from_history_witness :
  (cost_check_allowed 6 (gw_guard demo_guard_world)).2 =
    guard_decision demo_guard_cfg (to_cents (spent_on 0 (gw_log demo_guard_world)))
      (Z.of_nat (calls_since (6 - secs 3600) (gw_log demo_guard_world))) ∧
  to_cents (spent_on 0 (gw_log demo_guard_world)) = 300%Z.
Proof.
  split; [|vm_compute; reflexivity].
  apply (guard_decides_from_history demo_guard_cfg 0 0 demo_guard_world 6 (Z.le_refl 0)
    demo_guard_reachable).
  vm_compute. discriminate.
Defined.

(** Two such calls blow the budget of five dollars; a day later the next
    call is still refused. *)
Definition demo_call (t day : Z) : LlmCall := {|
  lc_check := t; lc_done := t; lc_today := day; lc_model := "m";
  lc_first := Ok demo_usage; lc_retry := Ok demo_usage |}.
Definition demo_blown : CostGuard :=
  foldl (λ g c, (run_call c g).1) (cost_guard_new demo_guard_cfg 0) [demo_call 1 0; demo_call 2 0].

Lemma blown_budget_is_permanent_witness :
  is_ok (run_call (demo_call (secs 86400) 1) demo_blown).2 = false ∧
  daily_spend 1 demo_blown = dec_zero.
Proof.
  destruct (blown_budget_is_permanent demo_blown [] (demo_call (secs 86400) 1) eq_refl)
    as (_ & He & Hd).
  split.
  - cbn [foldl] in He. rewrite He. reflexivity.
  - apply Hd. vm_compute. discriminate.
Defined.

Definition demo_agent_world : GuardWorld := {|
  gw_guard := (run_call (demo_call 5 0) (cost_guard_new demo_guard_cfg 0)).1;
  gw_clock := 5; gw_today := 0; gw_log := [(5, 0, call_cost "m" demo_usage)]%Z |}.

Lemma hourly_rate_holds_witness :
  (Z.of_nat (calls_between 0 (0 + secs 3600) (gw_log demo_agent_world)) <= 2)%Z.
Proof.
  apply (hourly_rate_holds demo_guard_cfg 0 0 2 demo_agent_world 0 (Z.le_refl 0) eq_refl
    ltac:(lia)).
  apply rtc_once.
  apply (agent_called (gw_initial demo_guard_cfg 0 0) (demo_call 5 0) demo_usage);
    vm_compute; (reflexivity || (split; discriminate) || discriminate).
Defined.
End Witnesses.
