(* ===== verification/RateLimiter.v ===== *)
(** * Tool rate limiter

    Models [src/src/tools/rate_limiter.rs]: one window per minute and one per
    hour for every (user, tool) pair.  A check runs under the write lock and
    is one step; the code reads the clock up to seven times during it, and
    the readings are a record of their own. *)

From S2P Require Import Prelude.

Record ToolRateLimitConfig := {
  requests_per_minute : Z;
  requests_per_hour : Z;
}.

Definition rate_limit_default : ToolRateLimitConfig := {|
  requests_per_minute := 60; requests_per_hour := 1000 |}.

Definition MINUTE_SECS : Z := 60.
Definition HOUR_SECS : Z := 3600.

Inductive LimitType := PerMinute | PerHour.

Definition limit_type_display (t : LimitType) : string :=
  match t with PerMinute => "per-minute" | PerHour => "per-hour" end.

Inductive RateLimitResult :=
| Allowed (remaining_minute remaining_hour : Z)
| Limited (retry_after : Duration) (limit_type : LimitType).

Definition is_allowed (r : RateLimitResult) : bool :=
  match r with Allowed _ _ => true | Limited _ _ => false end.

Record WindowState := {
  window_start : Instant;
  count : Z;
}.

Definition window_new (now : Instant) : WindowState := {| window_start := now; count := 0 |}.

(** [now] is the reading of [elapsed()], [restart] the one of [Instant::now()]. *)
Definition maybe_reset (dur : Duration) (now restart : Instant) (w : WindowState) : WindowState :=
  if (dur <=? elapsed now (window_start w))%Z then window_new restart else w.

Definition time_until_reset (dur : Duration) (now : Instant) (w : WindowState) : Duration :=
  let e := elapsed now (window_start w) in
  if (dur <=? e)%Z then 0%Z else (dur - e)%Z.

Definition window_hit (w : WindowState) : WindowState := {|
  window_start := window_start w; count := wrap_u32 (count w + 1) |}.

Record ToolRateLimitState := {
  minute_window : WindowState;
  hour_window : WindowState;
}.

Definition tool_state_new (now1 now2 : Instant) : ToolRateLimitState := {|
  minute_window := window_new now1; hour_window := window_new now2 |}.

Abbreviation Key := (string * string)%type.
Abbreviation RateLimiter := (gmap (string * string) ToolRateLimitState).

Definition rate_limiter_new : RateLimiter := ∅.

(** The readings of the clock during one check, in the order in which the
    code takes them; a branch uses those on its way. *)
Record Readings := {
  rd_new_minute : Instant; rd_new_hour : Instant;
  rd_minute : Instant; rd_minute_restart : Instant;
  rd_hour : Instant; rd_hour_restart : Instant;
  rd_end : Instant;
}.

Definition readings_ok (from : Instant) (r : Readings) : Prop :=
  (from <= rd_new_minute r <= rd_new_hour r ∧ rd_new_hour r <= rd_minute r <= rd_minute_restart r ∧
   rd_minute_restart r <= rd_hour r <= rd_hour_restart r ∧ rd_hour_restart r <= rd_end r)%Z.

Definition check_internal (key : Key) (cfg : ToolRateLimitConfig) (record : bool) (r : Readings)
    (s : RateLimiter) : RateLimiter * RateLimitResult :=
  let ts := default (tool_state_new (rd_new_minute r) (rd_new_hour r)) (s !! key) in
  let m := maybe_reset (secs MINUTE_SECS) (rd_minute r) (rd_minute_restart r) (minute_window ts) in
  let h := maybe_reset (secs HOUR_SECS) (rd_hour r) (rd_hour_restart r) (hour_window ts) in
  let s' := <[key := {| minute_window := m; hour_window := h |}]> s in
  if (requests_per_minute cfg <=? count m)%Z then
    (s', Limited (time_until_reset (secs MINUTE_SECS) (rd_end r) m) PerMinute)
  else if (requests_per_hour cfg <=? count h)%Z then
    (s', Limited (time_until_reset (secs HOUR_SECS) (rd_end r) h) PerHour)
  else
    let m := if record then window_hit m else m in
    let h := if record then window_hit h else h in
    (<[key := {| minute_window := m; hour_window := h |}]> s,
     Allowed (requests_per_minute cfg - count m) (requests_per_hour cfg - count h)).

Definition check_and_record (user tool : string) (cfg : ToolRateLimitConfig) (r : Readings)
    (s : RateLimiter) : RateLimiter * RateLimitResult :=
  check_internal (user, tool) cfg true r s.

Definition check (user tool : string) (cfg : ToolRateLimitConfig) (r : Readings)
    (s : RateLimiter) : RateLimiter * RateLimitResult :=
  check_internal (user, tool) cfg false r s.

Definition get_usage (user tool : string) (s : RateLimiter) : option (Z * Z) :=
  (λ ts, (count (minute_window ts), count (hour_window ts))) <$> s !! (user, tool).

Definition limiter_clear (user tool : string) (s : RateLimiter) : RateLimiter :=
  delete (user, tool) s.
Definition clear_all (s : RateLimiter) : RateLimiter := ∅.

Record RateLimitError := { err_retry_after : Duration; err_limit_type : LimitType }.

Definition rate_limit_result (r : RateLimitResult) : result unit RateLimitError :=
  match r with
  | Allowed _ _ => Ok tt
  | Limited retry ty => Err {| err_retry_after := retry; err_limit_type := ty |}
  end.

(** ** One window against the log of the requests it admitted *)

Definition hits (a b : Instant) (log : list Instant) : nat :=
  length (filter (λ t, (a <=? t)%Z && (t <? b)%Z = true) log).
Definition hits_from (a : Instant) (log : list Instant) : nat :=
  length (filter (λ t, (a <=? t)%Z = true) log).

Lemma hits_app a b l1 l2 : hits a b (l1 ++ l2) = hits a b l1 + hits a b l2.
Proof. unfold hits. by rewrite filter_app, length_app. Qed.
Lemma hits_from_app a l1 l2 : hits_from a (l1 ++ l2) = hits_from a l1 + hits_from a l2.
Proof. unfold hits_from. by rewrite filter_app, length_app. Qed.
Lemma hits_le_from a b l : hits a b l ≤ hits_from a l.
Proof.
  unfold hits, hits_from. induction l as [|t l IH]; [done|].
  rewrite !filter_cons. repeat case_decide; simpl; lia.
Qed.
Lemma hits_from_le a l : hits_from a l ≤ length l.
Proof. apply length_filter. Qed.
Lemma hits_from_none a l : Forall (λ t, (t < a)%Z) l → hits_from a l = 0.
Proof.
  intros HF. unfold hits_from. rewrite list_filter_none; [done|]. intros t Ht.
  rewrite Forall_forall in HF. specialize (HF t Ht). simpl in HF. lia.
Qed.
Lemma hits_none a b l : Forall (λ t, (b <= t)%Z) l → hits a b l = 0.
Proof.
  intros HF. unfold hits. rewrite list_filter_none; [done|]. intros t Ht.
  rewrite Forall_forall in HF. specialize (HF t Ht). simpl in HF. lia.
Qed.

(** The log splits into the requests before the current window started and
    the ones it counted. *)
Definition window_inv (dur : Duration) (limit : Z) (now : Instant) (w : WindowState)
    (log : list Instant) : Prop :=
  ∃ old cur, log = old ++ cur ∧ count w = Z.of_nat (length cur) ∧
    (Z.of_nat (length cur) <= limit)%Z ∧ (window_start w <= now)%Z ∧
    Forall (λ t, (window_start w <= t <= now)%Z) cur ∧
    Forall (λ t, (t <= window_start w)%Z) old ∧
    (∀ a, (window_start w - dur < a)%Z → (Z.of_nat (hits_from a old) <= limit)%Z) ∧
    (∀ a, (Z.of_nat (hits a (a + dur) old) <= 2 * limit)%Z).

Section Window.
Context (dur : Duration) (limit : Z) (Hdur : (0 < dur)%Z) (Hlimit : (0 <= limit <= u32_max)%Z).

Lemma window_inv_new now : window_inv dur limit now (window_new now) [].
Proof. exists [], []. split_and!; simpl; try done; try lia; intros; unfold hits, hits_from; simpl; lia. Qed.

Lemma window_inv_later now now' w log :
  (now <= now')%Z → window_inv dur limit now w log → window_inv dur limit now' w log.
Proof.
  intros Hle (old & cur & -> & Hc & Hl & Hs & Hcur & Hold & Hlast & Hj). exists old, cur.
  split_and!; try done; [lia|]. eapply Forall_impl; [exact Hcur|]. simpl. lia.
Qed.

(** At most twice the limit in any period of the window's length. *)
Lemma window_inv_burst now w log a :
  window_inv dur limit now w log → (Z.of_nat (hits a (a + dur) log) <= 2 * limit)%Z.
Proof.
  intros (old & cur & -> & Hc & Hl & Hs & Hcur & Hold & Hlast & Hj).
  rewrite hits_app. destruct (Z_lt_le_dec (window_start w - dur) a) as [Ha|Ha].
  - pose proof (hits_le_from a (a + dur) old). pose proof (hits_le_from a (a + dur) cur).
    pose proof (hits_from_le a cur). specialize (Hlast a Ha). lia.
  - rewrite (hits_none a (a + dur) cur); [specialize (Hj a); lia|].
    eapply Forall_impl; [exact Hcur|]. simpl. lia.
Qed.

Lemma window_inv_reset now restart w log :
  (now <= restart)%Z → window_inv dur limit now w log →
  window_inv dur limit restart (maybe_reset dur now restart w) log.
Proof.
  intros Hle Hinv. unfold maybe_reset, elapsed.
  destruct (Z.leb_spec dur (Z.max 0 (now - window_start w))) as [He|He];
    [|by eapply window_inv_later].
  pose proof (λ a, window_inv_burst now w log a Hinv) as Hburst.
  destruct Hinv as (old & cur & -> & Hc & Hl & Hs & Hcur & Hold & Hlast & Hj).
  exists (old ++ cur), []. rewrite app_nil_r. unfold window_new. simpl.
  split_and!; try done; try lia.
  - apply Forall_app_2.
    + eapply Forall_impl; [exact Hold|]. simpl. lia.
    + eapply Forall_impl; [exact Hcur|]. simpl. lia.
  - intros a Ha. rewrite hits_from_app, (hits_from_none a old).
    + pose proof (hits_from_le a cur). lia.
    + eapply Forall_impl; [exact Hold|]. simpl. lia.
Qed.

Lemma window_inv_hit now w log :
  window_inv dur limit now w log → (count w < limit)%Z →
  window_inv dur limit now (window_hit w) (log ++ [now]).
Proof.
  intros (old & cur & -> & Hc & Hl & Hs & Hcur & Hold & Hlast & Hj) Hlt.
  exists old, (cur ++ [now]). rewrite app_assoc. unfold window_hit. simpl.
  rewrite length_app, Hc in *. simpl. rewrite wrap_u32_small by lia.
  split_and!; try done; try lia. apply Forall_app_2; [done|]. constructor; [lia|constructor].
Qed.
End Window.

(** ** All pairs

    The limiter, the clock, and for every pair the times of the requests
    admitted since its state was last cleared.  The limits of a pair do not
    change. *)

Record LimiterWorld := {
  lw_limiter : RateLimiter;
  lw_clock : Instant;
  lw_log : gmap (string * string) (list Instant);
}.

Section World.
Context (cfg : Key → ToolRateLimitConfig).

Definition admitted (w : LimiterWorld) (key : Key) : list Instant := default [] (lw_log w !! key).

Inductive limiter_step : LimiterWorld → LimiterWorld → Prop :=
| limiter_check w key record rd : readings_ok (lw_clock w) rd →
    limiter_step w
      (let '(s, r) := check_internal key (cfg key) record rd (lw_limiter w) in
       {| lw_limiter := s; lw_clock := rd_end rd;
          lw_log := <[key := admitted w key ++
                        (if is_allowed r && record then [rd_end rd] else [])]> (lw_log w) |})
| limiter_cleared w user tool :
    limiter_step w {| lw_limiter := limiter_clear user tool (lw_limiter w);
                      lw_clock := lw_clock w; lw_log := delete (user, tool) (lw_log w) |}
| limiter_cleared_all w :
    limiter_step w {| lw_limiter := clear_all (lw_limiter w); lw_clock := lw_clock w;
                      lw_log := ∅ |}.

Definition limiter_initial (t : Instant) : LimiterWorld := {|
  lw_limiter := rate_limiter_new; lw_clock := t; lw_log := ∅ |}.

Definition limits_ok : Prop := ∀ key,
  (0 <= requests_per_minute (cfg key) <= u32_max ∧ 0 <= requests_per_hour (cfg key) <= u32_max)%Z.

Definition state_inv (key : Key) (now : Instant) (ts : ToolRateLimitState) (log : list Instant) :
    Prop :=
  window_inv (secs MINUTE_SECS) (requests_per_minute (cfg key)) now (minute_window ts) log ∧
  window_inv (secs HOUR_SECS) (requests_per_hour (cfg key)) now (hour_window ts) log.

Definition limiter_inv (w : LimiterWorld) : Prop :=
  ∀ key, match lw_limiter w !! key with
         | Some ts => state_inv key (lw_clock w) ts (admitted w key)
         | None => admitted w key = []
         end.

Hypothesis Hlimits : limits_ok.

Lemma minute_pos : (0 < secs MINUTE_SECS)%Z.
Proof. done. Qed.
Lemma hour_pos : (0 < secs HOUR_SECS)%Z.
Proof. done. Qed.

Lemma state_inv_later key now now' ts log :
  (now <= now')%Z → state_inv key now ts log → state_inv key now' ts log.
Proof. intros Hle [Hm Hh]. split; by eapply window_inv_later. Qed.

Lemma check_internal_inv key record now rd s log :
  readings_ok now rd →
  match s !! key with
  | Some ts => state_inv key now ts log
  | None => log = []
  end →
  let '(s', r) := check_internal key (cfg key) record rd s in
  ∃ ts', s' = <[key := ts']> s ∧
    state_inv key (rd_end rd) ts' (log ++ (if is_allowed r && record then [rd_end rd] else [])).
Proof.
  intros (R1 & R2 & R3 & R4) Hs. destruct (Hlimits key) as [Hm Hh].
  assert (state_inv key (rd_minute rd)
    (default (tool_state_new (rd_new_minute rd) (rd_new_hour rd)) (s !! key)) log) as [Im Ih].
  { destruct (s !! key) as [ts|]; [eapply state_inv_later; [|done]; lia|]. subst log.
    split; (eapply window_inv_later; [|by apply window_inv_new]); simpl; lia. }
  apply (window_inv_reset _ _ minute_pos Hm _ (rd_minute_restart rd)) in Im; [|lia].
  apply (window_inv_later _ _ _ (rd_hour rd)) in Ih; [|lia].
  apply (window_inv_reset _ _ hour_pos Hh _ (rd_hour_restart rd)) in Ih; [|lia].
  apply (window_inv_later _ _ _ (rd_end rd)) in Im, Ih; [|lia..].
  unfold check_internal.
  destruct (_ <=? count (maybe_reset (secs MINUTE_SECS) _ _ _))%Z eqn:Em; zify_bool.
  { eexists. split; [done|]. simpl. rewrite app_nil_r. done. }
  destruct (_ <=? count (maybe_reset (secs HOUR_SECS) _ _ _))%Z eqn:Eh; zify_bool.
  { eexists. split; [done|]. simpl. rewrite app_nil_r. done. }
  destruct record; (eexists; split; [done|]); simpl; [|by rewrite app_nil_r].
  split; simpl; by apply window_inv_hit.
Qed.

Lemma limiter_step_inv w w' : limiter_inv w → limiter_step w w' → limiter_inv w'.
Proof.
  intros Hinv Hstep. destruct Hstep as [w key record rd Hrd|w user tool|w].
  - pose proof (check_internal_inv key record _ rd (lw_limiter w) (admitted w key) Hrd) as Hci.
    destruct (check_internal key (cfg key) record rd (lw_limiter w)) as [s r].
    destruct Hci as (ts' & -> & Hts'); [apply Hinv|].
    assert (lw_clock w <= rd_end rd)%Z by (unfold readings_ok in Hrd; lia).
    intros k. simpl. unfold admitted. simpl. destruct (decide (k = key)) as [->|Hk].
    + by rewrite !lookup_insert_eq.
    + rewrite !lookup_insert_ne by done. specialize (Hinv k). unfold admitted in Hinv.
      destruct (lw_limiter w !! k); [|done]. by eapply state_inv_later.
  - intros k. specialize (Hinv k). unfold admitted, limiter_clear in *. simpl.
    destruct (decide (k = (user, tool))) as [->|Hk].
    + by rewrite !lookup_delete_eq.
    + by rewrite !lookup_delete_ne by done.
  - intros k. unfold admitted, clear_all. simpl. by rewrite !lookup_empty.
Qed.

Lemma limiter_reachable_inv t w : rtc limiter_step (limiter_initial t) w → limiter_inv w.
Proof.
  intros Hr. refine (rtc_invariant limiter_step limiter_inv _ _ _ _ Hr);
    [intros; by eapply limiter_step_inv|].
  intros k. unfold admitted. simpl. by rewrite !lookup_empty.
Qed.
End World.

(** ** Properties *)

(** However checks interleave, the number of requests of a user for a
    tool admitted in any period of a minute (an hour) is at most twice the
    limit per minute (hour), and the counters never exceed the limits, so
    they do not wrap. *)
Theorem rate_limit_holds cfg t w user tool a
    (Hlimits : limits_ok cfg) (Hreach : rtc (limiter_step cfg) (limiter_initial t) w) :
  let key := (user, tool) in
  (Z.of_nat (hits a (a + secs MINUTE_SECS) (admitted w key))
     <= 2 * requests_per_minute (cfg key))%Z ∧
  (Z.of_nat (hits a (a + secs HOUR_SECS) (admitted w key))
     <= 2 * requests_per_hour (cfg key))%Z ∧
  (∀ m h, get_usage user tool (lw_limiter w) = Some (m, h) →
     (0 <= m <= requests_per_minute (cfg key) ∧ 0 <= h <= requests_per_hour (cfg key))%Z).
Proof.
  intros key. pose proof (limiter_reachable_inv cfg Hlimits t w Hreach key) as Hinv.
  destruct (Hlimits key) as [Hm Hh]. unfold get_usage. fold key.
  destruct (lw_limiter w !! key) as [ts|].
  - destruct Hinv as [Im Ih]. split_and!.
    + by eapply window_inv_burst.
    + by eapply window_inv_burst.
    + intros m h ?. simplify_eq/=.
      destruct Im as (? & ? & _ & ? & ? & _), Ih as (? & ? & _ & ? & ? & _). lia.
  - rewrite Hinv. unfold hits. simpl. split_and!; [lia|lia|done].
Qed.

Lemma maybe_reset_start dur now restart w :
  (window_start w <= now <= restart)%Z → (window_start (maybe_reset dur now restart w) <= restart)%Z.
Proof. unfold maybe_reset. case_match; simpl; lia. Qed.

Lemma maybe_reset_live dur now restart w :
  (window_start w <= now < window_start w + dur)%Z → maybe_reset dur now restart w = w.
Proof.
  intros Hs. unfold maybe_reset, elapsed.
  destruct (Z.leb_spec dur (Z.max 0 (now - window_start w))); [lia|done].
Qed.

Lemma maybe_reset_over dur now restart w :
  (0 < dur)%Z → (window_start w + dur <= now)%Z → count (maybe_reset dur now restart w) = 0%Z.
Proof.
  intros Hd Hs. unfold maybe_reset, elapsed.
  destruct (Z.leb_spec dur (Z.max 0 (now - window_start w))); [done|lia].
Qed.

Lemma time_until_reset_spec dur now w :
  (window_start w <= now)%Z →
  time_until_reset dur now w = Z.max 0 (window_start w + dur - now).
Proof.
  intros Hs. unfold time_until_reset, elapsed. cbv zeta.
  destruct (Z.leb_spec dur (Z.max 0 (now - window_start w))); lia.
Qed.

(** What a refusal leaves behind: the exhausted window, which started before
    the end of the check, and the delay until it is over. *)
Lemma check_internal_limited key cfg record rd s s' d ty
    (Hpast : ∀ ts, s !! key = Some ts →
       (window_start (minute_window ts) <= rd_new_minute rd ∧
        window_start (hour_window ts) <= rd_new_minute rd)%Z)
    (Hrd : readings_ok (rd_new_minute rd) rd)
    (Hlimited : check_internal key cfg record rd s = (s', Limited d ty)) :
  ∃ m h, s' = <[key := {| minute_window := m; hour_window := h |}]> s ∧
    (window_start m <= rd_end rd ∧ window_start h <= rd_end rd)%Z ∧
    match ty with
    | PerMinute => (d = Z.max 0 (window_start m + secs MINUTE_SECS - rd_end rd) ∧
                    requests_per_minute cfg <= count m)%Z
    | PerHour => (d = Z.max 0 (window_start h + secs HOUR_SECS - rd_end rd) ∧
                  requests_per_hour cfg <= count h)%Z
    end.
Proof.
  unfold check_internal in Hlimited. cbv zeta in Hlimited. destruct Hrd as (R1 & R2 & R3 & R4).
  set (ts := default _ (s !! key)) in *.
  assert (window_start (minute_window ts) <= rd_new_hour rd ∧
          window_start (hour_window ts) <= rd_new_hour rd)%Z as [Hm Hh].
  { unfold ts. destruct (s !! key) as [ts0|] eqn:E; simpl; [destruct (Hpast _ eq_refl)|]; lia. }
  pose proof (maybe_reset_start (secs MINUTE_SECS) (rd_minute rd) (rd_minute_restart rd)
    (minute_window ts) ltac:(lia)) as Sm.
  pose proof (maybe_reset_start (secs HOUR_SECS) (rd_hour rd) (rd_hour_restart rd)
    (hour_window ts) ltac:(lia)) as Sh.
  set (m := maybe_reset (secs MINUTE_SECS) _ _ _) in *.
  set (h := maybe_reset (secs HOUR_SECS) _ _ _) in *. exists m, h.
  rewrite (time_until_reset_spec _ _ m), (time_until_reset_spec _ _ h) in Hlimited by lia.
  destruct (Z.leb_spec (requests_per_minute cfg) (count m)).
  { simplify_eq/=. split_and!; done || lia. }
  destruct (Z.leb_spec (requests_per_hour cfg) (count h)); [|done].
  simplify_eq/=. split_and!; done || lia.
Qed.

(** A refusal says exactly how long to wait, from the end of the check
    that refused: a check that ends before the announced delay has passed is
    refused, one that starts after it is not refused for the same limit, and
    the other pairs are not affected by the check. *)
Theorem retry_after_exact key cfg record rd s s' d ty rd' record'
    (Hpast : ∀ ts, s !! key = Some ts →
       (window_start (minute_window ts) <= rd_new_minute rd ∧
        window_start (hour_window ts) <= rd_new_minute rd)%Z)
    (Hrd : readings_ok (rd_new_minute rd) rd)
    (Hlimited : check_internal key cfg record rd s = (s', Limited d ty))
    (Hpos : (0 < requests_per_minute cfg ∧ 0 < requests_per_hour cfg)%Z)
    (Hlater : readings_ok (rd_end rd) rd') :
  (0 <= d)%Z ∧
  ((rd_end rd' < rd_end rd + d)%Z →
     is_allowed (check_internal key cfg record' rd' s').2 = false) ∧
  ((rd_end rd + d <= rd_new_minute rd')%Z →
     ∀ d', (check_internal key cfg record' rd' s').2 ≠ Limited d' ty) ∧
  (∀ key', key' ≠ key → s' !! key' = s !! key').
Proof.
  apply check_internal_limited in Hlimited as (m & h & -> & [Sm Sh] & Hty); [|done|done].
  destruct Hlater as (R1 & R2 & R3 & R4).
  split; [destruct ty; destruct Hty; lia|].
  unfold check_internal. rewrite lookup_insert_eq.
  cbn [from_option id minute_window hour_window]. cbv zeta. split_and!.
  - intros Hlt. destruct ty; destruct Hty as [-> Hc].
    + rewrite (maybe_reset_live _ (rd_minute rd') _ m) by lia.
      by destruct (Z.leb_spec (requests_per_minute cfg) (count m)); [|lia].
    + destruct (_ <=? count (maybe_reset (secs MINUTE_SECS) _ _ _))%Z; [done|].
      rewrite (maybe_reset_live _ (rd_hour rd') _ h) by lia.
      by destruct (Z.leb_spec (requests_per_hour cfg) (count h)); [|lia].
  - intros Hge d'. destruct ty; destruct Hty as [-> Hc].
    + pose proof (maybe_reset_over _ (rd_minute rd') (rd_minute_restart rd') m minute_pos
        ltac:(lia)) as Hz. rewrite Hz.
      destruct (Z.leb_spec (requests_per_minute cfg) 0); [lia|]. by case_match.
    + destruct (_ <=? count (maybe_reset (secs MINUTE_SECS) _ _ _))%Z; [done|].
      pose proof (maybe_reset_over _ (rd_hour rd') (rd_hour_restart rd') h hour_pos
        ltac:(lia)) as Hz. rewrite Hz.
      by destruct (Z.leb_spec (requests_per_hour cfg) 0); [lia|].
  - intros key' Hk. by rewrite lookup_insert_ne.
Qed.

(** A check during which the clock stands still. *)
Definition at_time (t : Instant) : Readings := Build_Readings t t t t t t t.

(** The factor of two is reached: the windows are fixed, so the limit can be
    used up at the end of one and again at the start of the next. *)
Lemma burst_of_twice_the_limit :
  let cfg := {| requests_per_minute := 2; requests_per_hour := 100 |} in
  let run s t := (check_and_record "u" "t" cfg (at_time t) s).1 in
  let s := (check "u" "t" cfg (at_time 0) rate_limiter_new).1 in
  let s1 := run (run s (secs 59)) (secs 59) in
  let s2 := run s1 (secs 60) in
  is_allowed (check_and_record "u" "t" cfg (at_time (secs 59)) (run s (secs 59))).2 = true ∧
  is_allowed (check_and_record "u" "t" cfg (at_time (secs 59)) s1).2 = false ∧
  is_allowed (check_and_record "u" "t" cfg (at_time (secs 60)) s1).2 = true ∧
  is_allowed (check_and_record "u" "t" cfg (at_time (secs 60)) s2).2 = true.
Proof. vm_compute. done. Qed.

(** ** Witnesses *)

Definition demo_limits : Key → ToolRateLimitConfig := λ _, {|
  requests_per_minute := 1; requests_per_hour := 10 |}.

Lemma demo_limits_ok : limits_ok demo_limits.
Proof. intros key. unfold demo_limits, u32_max. simpl. lia. Qed.

Definition demo_limiter_world : LimiterWorld := {|
  lw_limiter := (check_and_record "u" "t" (demo_limits ("u", "t")) (at_time 5) ∅).1;
  lw_clock := 5; lw_log := <[("u", "t") := [5%Z]]> ∅ |}.

Lemma rate_limit_holds_witness :
  (Z.of_nat (hits 0 (0 + secs MINUTE_SECS) (admitted demo_limiter_world ("u", "t"))) <= 2)%Z ∧
  hits 0 (0 + secs MINUTE_SECS) (admitted demo_limiter_world ("u", "t")) = 1.
Proof.
  split; [|vm_compute; reflexivity].
  apply (rate_limit_holds demo_limits 0 demo_limiter_world "u" "t" 0 demo_limits_ok).
  apply rtc_once.
  apply (limiter_check demo_limits (limiter_initial 0) ("u", "t") true (at_time 5)). unfold readings_ok. simpl. lia.
Defined.

Lemma retry_after_exact_witness :
  let s := lw_limiter demo_limiter_world in
  let r := check_and_record "u" "t" (demo_limits ("u", "t")) (at_time (secs 1)) s in
  r.2 = Limited (secs 59 + 5) PerMinute ∧
  is_allowed (check_and_record "u" "t" (demo_limits ("u", "t")) (at_time (secs 30)) r.1).2 = false.
Proof.
  split; [vm_compute; reflexivity|].
  apply (retry_after_exact ("u", "t") (demo_limits ("u", "t")) true (at_time (secs 1))
    (lw_limiter demo_limiter_world) _ (secs 59 + 5) PerMinute (at_time (secs 30)) true).
  - intros ts Hts. vm_compute in Hts. injection Hts as <-. vm_compute. split; discriminate.
  - vm_compute. repeat split; discriminate.
  - vm_compute. reflexivity.
  - vm_compute. split; reflexivity.
  - vm_compute. repeat split; discriminate.
  - vm_compute. reflexivity.
Defined.
