(* ===== verification/Allowlist.v ===== *)
(** * Network allowlists

    Models the two allowlists a tool's network access goes through:
    [src/src/tools/wasm/allowlist.rs] with the endpoint patterns of
    [src/src/tools/wasm/capabilities.rs] (requests of WASM tools), and
    [src/src/sandbox/proxy/allowlist.rs] with [src/src/sandbox/proxy/policy.rs]
    (the proxy of the sandbox, which also decides where credentials are
    injected).

    The URL parser and the percent-decoder are crates of their own and are
    parameters here. *)

From S2P Require Import Prelude Text.

(** What the code reads of a [url::Url]. *)
Record Url := {
  url_scheme : string;
  url_username : string;
  url_password : option string;
  url_host_str : option string;
  url_path : string;
  (** [port_or_known_default()] *)
  url_port : option Z;
}.

Class UrlCrates := {
  (** [url::Url::parse], with the error as text *)
  url_parse : string → result Url string;
  (** [urlencoding::decode]; [None] when the bytes are not UTF-8 *)
  url_decode : string → option string;
}.

Definition slash : Ascii.ascii := byte 47.
Definition backslash : Ascii.ascii := byte 92.

(** ** Endpoint patterns *)

Record EndpointPattern := {
  ep_host : string;
  path_prefix : option string;
  methods : list string;
}.

Definition endpoint_host (h : string) : EndpointPattern := {|
  ep_host := h; path_prefix := None; methods := [] |}.
Definition with_path_prefix (p : EndpointPattern) (prefix : string) : EndpointPattern := {|
  ep_host := ep_host p; path_prefix := Some prefix; methods := methods p |}.
Definition with_methods (p : EndpointPattern) (ms : list string) : EndpointPattern := {|
  ep_host := ep_host p; path_prefix := path_prefix p; methods := ms |}.

Definition wildcard_suffix_matches (host suffix : string) : bool :=
  let is_proper_suffix :=
    ends_with host suffix && (String.length suffix <? String.length host) in
  if negb is_proper_suffix then false
  else
    let prefix := str_take (String.length host - String.length suffix) host in
    ends_with prefix "." || bool_decide (prefix = "").

Definition host_matches (p : EndpointPattern) (host : string) : bool :=
  if bool_decide (ep_host p = host) then true
  else match strip_prefix (ep_host p) "*." with
       | Some suffix => wildcard_suffix_matches host suffix
       | None => false
       end.

Section Wasm.
Context {U : UnicodeCase} {X : UrlCrates}.

Definition endpoint_matches (p : EndpointPattern) (host path method : string) : bool :=
  if negb (host_matches p host) then false
  else if match path_prefix p with
          | Some prefix => negb (starts_with path prefix)
          | None => false
          end then false
  else
    match methods p with
    | [] => true
    | ms => existsb (λ m, bool_decide (to_uppercase m = to_uppercase method)) ms
    end.

(** ** Normalised URLs *)

Definition is_hex_digit (c : Ascii.ascii) : bool :=
  let n := Ascii.N_of_ascii c in
  ((48 <=? n) && (n <=? 57) || (65 <=? n) && (n <=? 70) || (97 <=? n) && (n <=? 102))%N.

(** Every [%] is followed by two hexadecimal digits. *)
Fixpoint has_valid_percent_encoding (s : string) : bool :=
  match s with
  | EmptyString => true
  | String c s' =>
      if bool_decide (c = byte 37) then
        match s' with
        | String a (String b s'') =>
            is_hex_digit a && is_hex_digit b && has_valid_percent_encoding s''
        | _ => false
        end
      else has_valid_percent_encoding s'
  end.

(** The loop over the raw segments. *)
Fixpoint resolve_segments (raw segments : list string) : result (list string) string :=
  match raw with
  | [] => Ok segments
  | raw_segment :: raw =>
      let invalid := Err ("Invalid percent-encoding in path segment: " +:+ raw_segment) in
      if negb (has_valid_percent_encoding raw_segment) then invalid
      else match url_decode raw_segment with
           | None => invalid
           | Some segment =>
               if has_char slash segment || has_char backslash segment
               then Err "Path segment contains encoded path separator"
               else if bool_decide (segment = "") || bool_decide (segment = ".")
               then resolve_segments raw segments
               else if bool_decide (segment = "..")
               then resolve_segments raw (removelast segments)
               else resolve_segments raw (segments ++ [segment])
           end
  end.

Definition needs_trailing_slash (path res : string) : bool :=
  let had_trailing_slash := (1 <? String.length path) && ends_with path "/" in
  had_trailing_slash && negb (ends_with res "/").

Definition normalize_path (path : string) : result string string :=
  match resolve_segments (split_on slash path) [] with
  | Err e => Err e
  | Ok segments =>
      let res := "/" +:+ join "/" segments in
      Ok (if needs_trailing_slash path res then res +:+ "/" else res)
  end.

(** Brackets of an IPv6 address are removed. *)
Definition unbracket (h : string) : string :=
  default h (match strip_prefix h "[" with
             | Some h => strip_suffix h "]"
             | None => None
             end).

Record ParsedUrl := {
  pu_scheme : string;
  pu_host : string;
  pu_path : string;
}.

Definition parse_url (url : string) : result ParsedUrl string :=
  match url_parse url with
  | Err e => Err ("URL parse failed: " +:+ e)
  | Ok parsed =>
      let scheme := to_lowercase (url_scheme parsed) in
      if negb (bool_decide (scheme = "http")) && negb (bool_decide (scheme = "https"))
      then Err ("Unsupported scheme: " +:+ scheme)
      else if negb (bool_decide (url_username parsed = "")) ||
              bool_decide (is_Some (url_password parsed))
      then Err "URL contains userinfo (@) which is not allowed"
      else match url_host_str parsed with
           | None => Err "Empty host"
           | Some host =>
               match normalize_path (url_path parsed) with
               | Err e => Err e
               | Ok path => Ok {| pu_scheme := scheme; pu_host := to_lowercase (unbracket host);
                                  pu_path := path |}
               end
           end
  end.

(** ** The validator *)

Inductive DenyReason :=
| InvalidUrl (e : string)
| HostNotAllowed (host : string)
| PathNotAllowed (host path : string)
| MethodNotAllowed (method host : string)
| EmptyAllowlist
| InsecureScheme (scheme : string).

Definition deny_reason_display (r : DenyReason) : string :=
  match r with
  | InvalidUrl url => "Invalid URL: " +:+ url
  | HostNotAllowed host => "Host not in allowlist: " +:+ host
  | PathNotAllowed host path => "Path not allowed for host " +:+ host +:+ ": " +:+ path
  | MethodNotAllowed method host => "Method " +:+ method +:+ " not allowed for host " +:+ host
  | EmptyAllowlist => "No endpoints in allowlist"
  | InsecureScheme scheme => "Insecure scheme: " +:+ scheme +:+ " (only HTTPS allowed)"
  end.

Inductive AllowlistResult := RequestAllowed | RequestDenied (r : DenyReason).

Record AllowlistValidator := {
  av_patterns : list EndpointPattern;
  require_https : bool;
}.

Definition validator_new (ps : list EndpointPattern) : AllowlistValidator := {|
  av_patterns := ps; require_https := true |}.
Definition allow_http (v : AllowlistValidator) : AllowlistValidator := {|
  av_patterns := av_patterns v; require_https := false |}.

Definition validate (v : AllowlistValidator) (url method : string) : AllowlistResult :=
  if bool_decide (av_patterns v = []) then RequestDenied EmptyAllowlist
  else
    match parse_url url with
    | Err e => RequestDenied (InvalidUrl e)
    | Ok parsed =>
        if require_https v && negb (bool_decide (pu_scheme parsed = "https"))
        then RequestDenied (InsecureScheme (pu_scheme parsed))
        else if existsb (λ p, endpoint_matches p (pu_host parsed) (pu_path parsed) method)
                  (av_patterns v)
        then RequestAllowed
        else
          let host_ok := List.filter (λ p, host_matches p (pu_host parsed)) (av_patterns v) in
          match host_ok with
          | [] => RequestDenied (HostNotAllowed (pu_host parsed))
          | _ =>
              let path_ok := List.filter (λ p,
                bool_decide (path_prefix p = None)
                || starts_with (pu_path parsed) (default "" (path_prefix p))) host_ok in
              match path_ok with
              | [] => RequestDenied (PathNotAllowed (pu_host parsed) (pu_path parsed))
              | _ => RequestDenied (MethodNotAllowed method (pu_host parsed))
              end
          end
    end.

Definition host_allowed (v : AllowlistValidator) (host : string) : bool :=
  existsb (λ p, host_matches p host) (av_patterns v).
Definition allowed_hosts (v : AllowlistValidator) : list string := ep_host <$> av_patterns v.
End Wasm.

(** ** The sandbox proxy *)

Section Proxy.
Context {U : UnicodeCase} {X : UrlCrates}.

Record DomainPattern := {
  dp_pattern : string;
  is_wildcard : bool;
  base_domain : string;
}.

Definition domain_pattern_new (pattern : string) : DomainPattern :=
  let w := starts_with pattern "*." in {|
  dp_pattern := pattern; is_wildcard := w;
  base_domain := if w then to_lowercase (str_drop 2 pattern) else to_lowercase pattern |}.

Definition domain_matches (p : DomainPattern) (host : string) : bool :=
  let host_lower := to_lowercase host in
  if is_wildcard p then
    bool_decide (host_lower = base_domain p) || ends_with host_lower ("." +:+ base_domain p)
  else bool_decide (host_lower = base_domain p).

Inductive DomainValidationResult := DomainAllowed | DomainDenied (reason : string).

Abbreviation DomainAllowlist := (list DomainPattern).

Definition domain_allowlist_new (domains : list string) : DomainAllowlist :=
  domain_pattern_new <$> domains.
Definition domain_allowlist_add (l : DomainAllowlist) (pattern : string) : DomainAllowlist :=
  l ++ [domain_pattern_new pattern].

Definition domain_is_allowed (l : DomainAllowlist) (host : string) : DomainValidationResult :=
  match l with
  | [] => DomainDenied "empty allowlist"
  | _ =>
      if existsb (λ p, domain_matches p host) l then DomainAllowed
      else DomainDenied ("host '" +:+ host +:+ "' not in allowlist: ["
                         +:+ join ", " (dp_pattern <$> l) +:+ "]")
  end.

Definition is_web (u : Url) : bool :=
  bool_decide (url_scheme u = "http") || bool_decide (url_scheme u = "https").

Definition extract_host (url : string) : option string :=
  match url_parse url with
  | Err _ => None
  | Ok parsed =>
      if negb (is_web parsed) then None
      else (λ h, to_lowercase (unbracket h)) <$> url_host_str parsed
  end.

Record NetworkRequest := {
  nr_method : string;
  nr_url : string;
  nr_host : string;
  nr_path : string;
}.

Definition from_url (method url : string) : option NetworkRequest :=
  match url_parse url with
  | Err _ => None
  | Ok parsed =>
      if negb (is_web parsed) then None
      else match url_host_str parsed with
           | None => None
           | Some host => Some {| nr_method := to_uppercase method; nr_url := url;
                                  nr_host := to_lowercase (unbracket host);
                                  nr_path := url_path parsed |}
           end
  end.

Inductive CredentialLocation :=
| AuthorizationBearer
| AuthorizationBasic (username : string)
| CredHeader (name : string) (prefix : option string)
| QueryParam (name : string)
| UrlPath (placeholder : string).

Record CredentialMapping := {
  secret_name : string;
  location : CredentialLocation;
  host_patterns : list string;
}.

Inductive NetworkDecision :=
| NetAllow
| AllowWithCredentials (secret : string) (loc : CredentialLocation)
| NetDeny (reason : string).

(** [HostPattern::matches]; [host] is already in lower case. *)
Definition host_pattern_matches (pattern host : string) : bool :=
  let pattern_lower := to_lowercase pattern in
  if bool_decide (pattern_lower = host) then true
  else match strip_prefix pattern_lower "*." with
       | Some suffix => wildcard_suffix_matches host suffix
       | None => false
       end.

Record DefaultPolicyDecider := {
  allowlist : DomainAllowlist;
  credential_mappings : list CredentialMapping;
}.

Definition find_credential (d : DefaultPolicyDecider) (host : string) :
    option CredentialMapping :=
  let host_lower := to_lowercase host in
  List.find (λ m, existsb (λ pattern, host_pattern_matches pattern host_lower) (host_patterns m))
    (credential_mappings d).

Definition decide_request (d : DefaultPolicyDecider) (r : NetworkRequest) : NetworkDecision :=
  match domain_is_allowed (allowlist d) (nr_host r) with
  | DomainDenied reason => NetDeny reason
  | DomainAllowed =>
      match find_credential d (nr_host r) with
      | Some m => AllowWithCredentials (secret_name m) (location m)
      | None => NetAllow
      end
  end.
End Proxy.

(** ** What the patterns mean *)

(** A pattern covers a host when they are equal, or when the pattern is
    [*.base] and the host ends in [.base]: a whole label boundary. *)
Definition host_covers (pattern host : string) : Prop :=
  pattern = host ∨ ∃ base sub, pattern = "*." +:+ base ∧ host = sub +:+ "." +:+ base.

Lemma wildcard_suffix_spec host suffix :
  wildcard_suffix_matches host suffix = true ↔ ∃ sub, host = sub +:+ "." +:+ suffix.
Proof.
  unfold wildcard_suffix_matches.
  destruct (ends_with host suffix) eqn:E; simpl.
  - apply ends_with_spec in E as [pre ->]. rewrite str_length_app.
    replace (String.length pre + String.length suffix - String.length suffix)
      with (String.length pre) by lia.
    rewrite str_take_app_ge, Nat.sub_diag by lia. simpl.
    rewrite str_app_nil_r.
    destruct (Nat.ltb_spec (String.length suffix) (String.length pre + String.length suffix));
      simpl.
    + rewrite orb_true_iff, ends_with_spec, bool_decide_eq_true. split.
      * intros [[sub ->]| ->]; [exists sub; by rewrite str_app_assoc|simpl in *; lia].
      * intros [sub Hs]. left. exists sub. rewrite <-str_app_assoc in Hs.
        apply str_app_inj_l in Hs as [-> _]; [done|].
        apply (f_equal String.length) in Hs. rewrite !str_length_app in Hs.
        rewrite str_length_app. lia.
    + split; [done|]. intros [sub Hs]. apply (f_equal String.length) in Hs.
      rewrite !str_length_app in Hs. simpl in Hs. lia.
  - split; [done|]. intros [sub ->].
    assert (ends_with (sub +:+ "." +:+ suffix) suffix = true); [|congruence].
    apply ends_with_spec. exists (sub +:+ "."). by rewrite str_app_assoc.
Qed.

Lemma covers_spec pattern host :
  (if bool_decide (pattern = host) then true
   else match strip_prefix pattern "*." with
        | Some suffix => wildcard_suffix_matches host suffix
        | None => false
        end) = true ↔ host_covers pattern host.
Proof.
  unfold host_covers. case_bool_decide as He; [by split; [left|]|].
  destruct (strip_prefix pattern "*.") as [suffix|] eqn:E.
  - apply strip_prefix_spec in E. subst pattern. rewrite wildcard_suffix_spec. split.
    + intros [sub ->]. right. eauto.
    + intros [?|(base & sub & Hb & ->)]; [done|]. exists sub.
      apply str_app_inj_l in Hb as [_ ->]; done.
  - split; [done|]. intros [?|(base & sub & -> & ->)]; [done|].
    assert (strip_prefix ("*." +:+ base) "*." = Some base) by (by apply strip_prefix_spec).
    congruence.
Qed.

Lemma host_matches_spec p host : host_matches p host = true ↔ host_covers (ep_host p) host.
Proof. apply covers_spec. Qed.

Definition path_allowed (p : EndpointPattern) (path : string) : Prop :=
  match path_prefix p with Some prefix => ∃ r, path = prefix +:+ r | None => True end.

Definition method_allowed `{UnicodeCase} (p : EndpointPattern) (method : string) : Prop :=
  methods p = [] ∨ ∃ m, m ∈ methods p ∧ to_uppercase m = to_uppercase method.

Lemma existsb_elem {A} (f : A → bool) l : existsb f l = true ↔ ∃ x, x ∈ l ∧ f x = true.
Proof. rewrite existsb_exists. by setoid_rewrite list_elem_of_In. Qed.

Section Specs.
Context {U : UnicodeCase} {X : UrlCrates}.

Lemma endpoint_matches_spec p host path method :
  endpoint_matches p host path method = true ↔
  host_covers (ep_host p) host ∧ path_allowed p path ∧ method_allowed p method.
Proof.
  unfold endpoint_matches, path_allowed, method_allowed. rewrite <-host_matches_spec.
  destruct (host_matches p host); simpl; [|naive_solver].
  assert ((match methods p with
           | [] => true
           | ms => existsb (λ m, bool_decide (to_uppercase m = to_uppercase method)) ms
           end) = true ↔
    (methods p = [] ∨ ∃ m, m ∈ methods p ∧ to_uppercase m = to_uppercase method)) as Hm.
  { destruct (methods p) as [|m ms]; [naive_solver|]. rewrite existsb_elem.
    setoid_rewrite bool_decide_eq_true. naive_solver. }
  rewrite <-Hm. destruct (path_prefix p) as [prefix|]; [|naive_solver].
  rewrite <-starts_with_spec. destruct (starts_with path prefix); simpl; naive_solver.
Qed.

Lemma path_filter_spec p path :
  bool_decide (path_prefix p = None) || starts_with path (default "" (path_prefix p)) = true ↔
  path_allowed p path.
Proof.
  unfold path_allowed. rewrite orb_true_iff, bool_decide_eq_true.
  destruct (path_prefix p) as [prefix|]; simpl; rewrite ?starts_with_spec; naive_solver.
Qed.

Lemma list_filter_nil {A} (f : A → bool) l :
  List.filter f l = [] ↔ ∀ x, x ∈ l → f x = false.
Proof.
  induction l as [|x l IH]; simpl; [split; [by intros _ x ?%elem_of_nil|done]|].
  destruct (f x) eqn:E.
  - split; [done|]. intros H. specialize (H x ltac:(by left)). congruence.
  - rewrite IH. split; intros H y Hy; [|apply H; by right].
    apply elem_of_cons in Hy as [->|Hy]; [done|by apply H].
Qed.

Lemma list_filter_nonnil {A} (f : A → bool) l x r :
  List.filter f l = x :: r → x ∈ l ∧ f x = true.
Proof.
  intros H. assert (In x (List.filter f l)) as Hin by (rewrite H; by left).
  apply filter_In in Hin. by rewrite list_elem_of_In.
Qed.

(** ** Normalised paths *)

Definition plain_segment (s : string) : Prop :=
  s ≠ "" ∧ s ≠ "." ∧ s ≠ ".." ∧ has_char slash s = false ∧ has_char backslash s = false.

Lemma resolve_segments_spec raw segs out :
  resolve_segments raw segs = Ok out → Forall plain_segment segs →
  Forall plain_segment out ∧
  (∀ s, s ∈ out → s ∈ segs ∨ ∃ r, r ∈ raw ∧ url_decode r = Some s).
Proof.
  revert segs. induction raw as [|r raw IH]; intros segs; simpl.
  { intros [= ->]. naive_solver. }
  destruct (negb _); [done|]. destruct (url_decode r) as [seg|] eqn:Er; [|done].
  destruct (has_char slash seg || has_char backslash seg) eqn:Es; [done|].
  apply orb_false_iff in Es as [E1 E2].
  destruct (bool_decide (seg = "") || bool_decide (seg = ".")) eqn:Ed.
  { intros H HF. destruct (IH _ H HF) as [HO Hs]. split; [done|].
    intros s Hs'. destruct (Hs s Hs') as [?|(r' & ? & ?)]; [by left|right].
    exists r'. split; [by right|done]. }
  destruct (bool_decide (seg = "..")) eqn:Edd.
  - intros H HF. destruct (IH _ H) as [HO Hs].
    { apply Forall_forall. intros s Hin. rewrite Forall_forall in HF. apply HF.
      by apply removelast_elem. }
    split; [done|]. intros s Hs'. destruct (Hs s Hs') as [Hin|(r' & ? & ?)].
    + left. by apply removelast_elem.
    + right. exists r'. split; [by right|done].
  - intros H HF. apply orb_false_iff in Ed as [Ed1 Ed2].
    apply bool_decide_eq_false in Ed1, Ed2, Edd. destruct (IH _ H) as [HO Hs].
    { apply Forall_app_2; [done|]. constructor; [by split_and!|constructor]. }
    split; [done|]. intros s Hs'. destruct (Hs s Hs') as [Hin|(r' & ? & ?)].
    + apply elem_of_app in Hin as [?|Hin]; [by left|].
      apply list_elem_of_singleton in Hin as ->. right. exists r. split; [by left|done].
    + right. exists r'. split; [by right|done].
Qed.

Lemma split_on_plain c x y :
  has_char c x = false → split_on c (x +:+ String c y) = x :: split_on c y.
Proof.
  induction x as [|d x IH]; intros Hx.
  - rewrite str_app_nil. cbn [split_on]. by rewrite bool_decide_true.
  - apply orb_false_iff in Hx as [Hd Hx]. rewrite str_app_cons. cbn [split_on].
    by rewrite Hd, IH.
Qed.

Lemma split_on_none c x : has_char c x = false → split_on c x = [x].
Proof.
  induction x as [|d x IH]; simpl; intros Hx; [done|].
  apply orb_false_iff in Hx as [-> Hx]. by rewrite IH.
Qed.

(** Reading a normalised path back gives its segments. *)
Lemma split_join_segments segs t :
  Forall plain_segment segs → t = "" ∨ t = "/" →
  filter (λ s, s ≠ "") (split_on slash (join "/" segs +:+ t)) = segs.
Proof.
  intros HF Ht. induction HF as [|x l (Hx & _ & _ & Hs & _) HF IH].
  { by destruct Ht as [->| ->]. }
  destruct l as [|y l].
  - simpl. destruct Ht as [->| ->].
    + rewrite str_app_nil_r, split_on_none by done. by rewrite filter_cons_True.
    + change "/" with (String slash ""). rewrite split_on_plain by done. simpl.
      by rewrite filter_cons_True.
  - cbn [join] in *. rewrite str_app_assoc, (str_app_assoc "/").
    change ("/" +:+ ?z) with (String slash z). rewrite split_on_plain by done.
    rewrite filter_cons_True by done. by rewrite IH.
Qed.
End Specs.

(** ** Properties *)

Section Properties.
Context {U : UnicodeCase} {X : UrlCrates}.

(** What each answer of the validator means. *)
Definition answer_means (v : AllowlistValidator) (url method : string) (a : AllowlistResult) :
    Prop :=
  match a with
  | RequestDenied EmptyAllowlist => av_patterns v = []
  | RequestDenied (InvalidUrl e) => av_patterns v ≠ [] ∧ parse_url url = Err e
  | RequestAllowed => ∃ u p, parse_url url = Ok u ∧ p ∈ av_patterns v ∧
      (require_https v = true → pu_scheme u = "https") ∧
      host_covers (ep_host p) (pu_host u) ∧ path_allowed p (pu_path u) ∧ method_allowed p method
  | RequestDenied (InsecureScheme s) =>
      require_https v = true ∧ s ≠ "https" ∧ ∃ u, parse_url url = Ok u ∧ pu_scheme u = s
  | RequestDenied (HostNotAllowed h) => ∃ u, parse_url url = Ok u ∧ pu_host u = h ∧
      ∀ p, p ∈ av_patterns v → ¬ host_covers (ep_host p) h
  | RequestDenied (PathNotAllowed h path) =>
      ∃ u, parse_url url = Ok u ∧ pu_host u = h ∧ pu_path u = path ∧
      (∃ p, p ∈ av_patterns v ∧ host_covers (ep_host p) h) ∧
      ∀ p, p ∈ av_patterns v → host_covers (ep_host p) h → ¬ path_allowed p path
  | RequestDenied (MethodNotAllowed m h) =>
      m = method ∧ ∃ u, parse_url url = Ok u ∧ pu_host u = h ∧
      (∃ p, p ∈ av_patterns v ∧ host_covers (ep_host p) h ∧ path_allowed p (pu_path u)) ∧
      ∀ p, p ∈ av_patterns v → host_covers (ep_host p) h → path_allowed p (pu_path u) →
        ¬ method_allowed p method
  end.

(** The validator is exact: a request is allowed only over HTTPS (when
    required) to a host, below a path and with a method that one pattern
    permits, wildcards matching whole labels only; and every denial names the
    first condition that no pattern satisfies. *)
Theorem validate_exact v url method : answer_means v url method (validate v url method).
Proof.
  unfold validate. case_bool_decide as He; [done|].
  destruct (parse_url url) as [u|e] eqn:Hu; [|by split].
  destruct (require_https v && negb (bool_decide (pu_scheme u = "https"))) eqn:Hs.
  { apply andb_true_iff in Hs as [? Hs]. apply negb_true_iff, bool_decide_eq_false in Hs.
    simpl. eauto. }
  destruct (existsb _ (av_patterns v)) eqn:Hx.
  { apply existsb_elem in Hx as (p & Hp & Hm). apply endpoint_matches_spec in Hm as (? & ? & ?).
    exists u, p. split_and!; try done. intros Hr. rewrite Hr in Hs. simpl in Hs.
    by apply negb_false_iff, bool_decide_eq_true in Hs. }
  assert (∀ p, p ∈ av_patterns v → host_covers (ep_host p) (pu_host u) →
    path_allowed p (pu_path u) → ¬ method_allowed p method) as Hno.
  { intros p Hp H1 H2 H3. apply not_true_iff_false in Hx. apply Hx, existsb_elem.
    exists p. split; [done|]. by apply endpoint_matches_spec. }
  destruct (List.filter (λ p, host_matches p (pu_host u)) (av_patterns v)) as [|p0 ps] eqn:Hh.
  { exists u. split_and!; try done. intros p Hp Hc. apply host_matches_spec in Hc.
    rewrite list_filter_nil in Hh. rewrite Hh in Hc by done. done. }
  pose proof (list_filter_nonnil _ _ _ _ Hh) as [Hp0 Hc0]. apply host_matches_spec in Hc0.
  assert (∀ p, p ∈ p0 :: ps ↔ p ∈ av_patterns v ∧ host_covers (ep_host p) (pu_host u)) as Hin.
  { intros p. rewrite <-Hh, list_elem_of_In, filter_In, <-list_elem_of_In.
    by rewrite host_matches_spec. }
  destruct (List.filter _ (p0 :: ps)) as [|p1 ps1] eqn:Hpf.
  - exists u. split_and!; eauto. intros p Hp Hc Hpa. apply path_filter_spec in Hpa.
    rewrite list_filter_nil in Hpf. rewrite Hpf in Hpa by (by apply Hin). done.
  - apply list_filter_nonnil in Hpf as [Hp1 Hpa]. apply path_filter_spec in Hpa.
    apply Hin in Hp1 as [Hp1 Hc1]. split; [done|]. exists u. split_and!; eauto.
Qed.

(** A URL the validator accepts for matching has scheme [http] or
    [https] and no user information, and its path is normalised: [/]
    followed by segments none of which is empty, [.] or [..] or contains a
    separator, each of them the decoding of a segment of the URL's path, and
    splitting the path again gives the same segments. *)
Theorem parse_url_normalised url u (Hok : parse_url url = Ok u) :
  (pu_scheme u = "http" ∨ pu_scheme u = "https") ∧
  ∃ parsed segs, url_parse url = Ok parsed ∧
    url_username parsed = "" ∧ url_password parsed = None ∧
    Forall plain_segment segs ∧
    (∀ s, s ∈ segs → ∃ raw, raw ∈ split_on slash (url_path parsed) ∧ url_decode raw = Some s) ∧
    (pu_path u = "/" +:+ join "/" segs ∨ pu_path u = "/" +:+ join "/" segs +:+ "/") ∧
    filter (λ s, s ≠ "") (split_on slash (pu_path u)) = segs.
Proof.
  unfold parse_url in Hok. destruct (url_parse url) as [parsed|e] eqn:Hp; [|done].
  destruct (negb _ && negb _) eqn:Hs; [done|].
  destruct (negb _ || _) eqn:Hui; [done|].
  destruct (url_host_str parsed) as [host|]; [|done].
  destruct (normalize_path (url_path parsed)) as [path|e] eqn:Hn; [|done].
  simplify_eq/=. split.
  { apply andb_false_iff in Hs as [Hs|Hs]; apply negb_false_iff, bool_decide_eq_true in Hs; auto. }
  apply orb_false_iff in Hui as [Hu Hpw].
  apply negb_false_iff, bool_decide_eq_true in Hu. apply bool_decide_eq_false in Hpw.
  unfold normalize_path in Hn.
  destruct (resolve_segments (split_on slash (url_path parsed)) []) as [segs|e] eqn:Hr; [|done].
  destruct (resolve_segments_spec _ _ _ Hr) as [HF Hdec]; [constructor|].
  exists parsed, segs. split_and!; try done.
  - by apply eq_None_not_Some.
  - intros s Hin. destruct (Hdec s Hin) as [Hnil|?]; [by apply elem_of_nil in Hnil|done].
  - injection Hn as <-. case_match; [right|by left]. by rewrite str_app_assoc.
  - assert (∃ t, (t = "" ∨ t = "/") ∧ path = String slash (join "/" segs +:+ t)) as (t & Ht & ->).
    { injection Hn as <-. case_match.
      - exists "/". split; [by right|]. done.
      - exists "". split; [by left|]. rewrite str_app_nil_r. done. }
    cbn [split_on]. rewrite bool_decide_true by done.
    rewrite filter_cons_False by (by intros H). by apply split_join_segments.
Qed.

(** The proxy injects a credential only into requests to a host that
    the domain allowlist permits and that one of the credential's own
    patterns covers, taking the first such mapping; a host the allowlist
    does not permit is always denied, and an empty allowlist denies
    everything. *)
Theorem policy_decision_exact d r :
  let host := nr_host r in
  let permitted := ∃ p, p ∈ allowlist d ∧ domain_matches p host = true in
  let covers m := ∃ pat, pat ∈ host_patterns m ∧
                         host_covers (to_lowercase pat) (to_lowercase host) in
  match decide_request d r with
  | NetDeny _ => ¬ permitted
  | NetAllow => permitted ∧ ∀ m, m ∈ credential_mappings d → ¬ covers m
  | AllowWithCredentials s loc => permitted ∧
      ∃ before m after, credential_mappings d = before ++ m :: after ∧
        secret_name m = s ∧ location m = loc ∧ covers m ∧
        ∀ m', m' ∈ before → ¬ covers m'
  end.
Proof.
  intros host permitted covers.
  assert (∀ m, existsb (λ pat, host_pattern_matches pat (to_lowercase host)) (host_patterns m)
    = true ↔ covers m) as Hcov.
  { intros m. rewrite existsb_elem. unfold host_pattern_matches. cbv zeta.
    by setoid_rewrite covers_spec. }
  unfold decide_request. fold host.
  assert (match domain_is_allowed (allowlist d) host with
          | DomainAllowed => permitted | DomainDenied _ => ¬ permitted end) as Hdom.
  { unfold domain_is_allowed, permitted. destruct (allowlist d) as [|p l].
    - intros (p & Hp & _). by apply elem_of_nil in Hp.
    - destruct (existsb _ (p :: l)) eqn:E; [by apply existsb_elem in E|].
      rewrite <-existsb_elem, E. done. }
  destruct (domain_is_allowed (allowlist d) host); [|done].
  unfold find_credential. cbv zeta.
  induction (credential_mappings d) as [|m ms IH].
  { simpl. split; [done|]. by intros m ?%elem_of_nil. }
  cbn [List.find]. destruct (existsb _ (host_patterns m)) eqn:E.
  - split; [done|]. exists [], m, ms. split_and!; try done; [by apply Hcov|].
    by intros m' ?%elem_of_nil.
  - assert (¬ covers m) as Hm by (rewrite <-Hcov, E; done).
    destruct (List.find _ ms) as [m0|].
    + destruct IH as [_ (before & m1 & after & -> & ? & ? & ? & Hb)]. split; [done|].
      exists (m :: before), m1, after. split_and!; try done.
      intros m' [->|?]%elem_of_cons; [done|by apply Hb].
    + destruct IH as [_ Hb]. split; [done|].
      intros m' [->|?]%elem_of_cons; [done|by apply Hb].
Qed.
End Properties.

(** ** Witnesses *)

Section Witnesses.
#[local] Existing Instance ascii_case.

(** A parser that knows one URL, and a decoder that leaves segments alone. *)
Definition one_url : UrlCrates := {|
  url_parse s := if bool_decide (s = "https://api.example.com/v1/../v2/x/") then
      Ok {| url_scheme := "https"; url_username := ""; url_password := None;
            url_host_str := Some "api.example.com"; url_path := "/v1/../v2/x/";
            url_port := Some 443%Z |}
    else Err "unknown";
  url_decode s := Some s |}.
#[local] Existing Instance one_url.

Lemma parse_url_normalised_witness :
  ∃ segs, Forall plain_segment segs ∧
    filter (λ s, s ≠ "") (split_on slash "/v2/x/") = segs.
Proof.
  assert (parse_url "https://api.example.com/v1/../v2/x/" =
    Ok {| pu_scheme := "https"; pu_host := "api.example.com"; pu_path := "/v2/x/" |}) as Hok
    by (vm_compute; reflexivity).
  destruct (parse_url_normalised "https://api.example.com/v1/../v2/x/" _ Hok)
    as (_ & parsed & segs & _ & _ & _ & HF & _ & _ & Hs).
  exists segs. split; [exact HF|exact Hs].
Defined.

(** A wildcard does not match the bare domain or another domain that merely
    ends in the same letters. *)
Lemma wildcard_labels :
  let v := validator_new [with_path_prefix (endpoint_host "*.example.com") "/v2/"] in
  validate v "https://api.example.com/v1/../v2/x/" "GET" = RequestAllowed ∧
  host_matches (endpoint_host "*.example.com") "example.com" = false ∧
  host_matches (endpoint_host "*.example.com") "notexample.com" = false.
Proof. vm_compute. done. Qed.
End Witnesses.
