(* ===== verification/Pairing.v ===== *)
(** * Pairing of senders

    Models [src/src/pairing/store.rs] and its modules [store/allow_from.rs],
    [store/codes.rs], [store/paths.rs] and [store/time.rs]: pending pairing
    requests, their approval, the list of allowed senders, and the rate limit
    on failed approvals.

    The state is the file system, a map from paths to contents.  An
    operation is one step: the theorems are about operations that run one
    after the other.  (The code locks the file it changes, but reads some
    files before it takes the lock, so concurrent processes are not covered.)
    Input/output errors other than a missing file are not modelled.  The
    JSON codecs ([serde_json]) and the RFC 3339 functions of [chrono] are
    parameters; the random draws and the time in seconds are arguments. *)

From stdpp Require Import sorting.
From S2P Require Import Prelude Externals Text.

Definition PAIRING_PENDING_MAX : nat := 3.
Definition PAIRING_APPROVE_RATE_LIMIT : nat := 10.
Definition PAIRING_APPROVE_RATE_WINDOW_SECS : Z := 5 * 60.
Definition PAIRING_PENDING_TTL_SECS : Z := 15 * 60.
Definition PAIRING_CODE_LENGTH : nat := 8.
Definition PAIRING_ALPHABET : string := "ABCDEFGHJKLMNPQRSTUVWXYZ23456789".

(** The operations below raise the first and the last: derived paths have a
    parent, and input/output and serialisation failures are not modelled. *)
Inductive PairingStoreError :=
| InvalidChannel (reason : string)
| InvalidPath (path : string)
| PairingIo (reason : string)
| PairingJson (reason : string)
| ApproveRateLimited.

(** ** Codes *)

(** [idx k] is the [k]-th index drawn. *)
Fixpoint random_chars (n : nat) (idx : nat → nat) : string :=
  match n with
  | 0 => ""
  | S n => String (default (byte 65) (String.get (idx 0 mod 32) PAIRING_ALPHABET))
             (random_chars n (λ k, idx (S k)))
  end.

Definition random_code (idx : nat → nat) : string := random_chars PAIRING_CODE_LENGTH idx.

(** [{:04}] *)
Definition pad4 (n : Z) : string :=
  (if (n <? 1000)%Z then "0" else "") +:+ (if (n <? 100)%Z then "0" else "")
  +:+ (if (n <? 10)%Z then "0" else "") +:+ pretty n.

(** The [for] loop, with the attempts left; [rng i] are the draws of the
    [i]-th attempt. *)
Fixpoint try_codes (tries i : nat) (rng : nat → nat → nat) (suffix : Z) (existing : gset string) :
    string :=
  match tries with
  | 0 => random_code (rng i) +:+ pad4 suffix
  | S tries =>
      let code := random_code (rng i) in
      if bool_decide (code ∈ existing) then try_codes tries (S i) rng suffix existing else code
  end.

Definition generate_unique_code (rng : nat → nat → nat) (suffix : Z) (existing : gset string) :
    string := try_codes 500 0 rng suffix existing.

(** ** Paths *)

Definition sanitize_char (c : Ascii.ascii) : Ascii.ascii :=
  let n := Ascii.nat_of_ascii c in
  if existsb (Nat.eqb n) [92; 47; 58; 42; 63; 34; 60; 62; 124] then byte 95 else c.

(** [s.replace("..", "_")] *)
Fixpoint replace_dots (s : string) : string :=
  match s with
  | String c s1 =>
      match s1 with
      | String d s2 =>
          if bool_decide (c = byte 46) && bool_decide (d = byte 46)
          then String (byte 95) (replace_dots s2) else String c (replace_dots s1)
      | EmptyString => String c EmptyString
      end
  | EmptyString => EmptyString
  end.

Section Paths.
Context {U : UnicodeCase}.

Definition safe_channel_key (channel : string) : result string PairingStoreError :=
  let raw := to_lowercase (trim channel) in
  if bool_decide (raw = "") then Err (InvalidChannel "empty")
  else
    let safe := replace_dots (map_chars sanitize_char raw) in
    if bool_decide (safe = "") || bool_decide (safe = "_") then Err (InvalidChannel channel)
    else Ok safe.

Definition file_path (suffix base channel : string) : result string PairingStoreError :=
  match safe_channel_key channel with
  | Ok key => Ok (base +:+ "/" +:+ key +:+ suffix)
  | Err e => Err e
  end.

Definition pairing_path := file_path "-pairing.json".
Definition allow_from_path := file_path "-allowFrom.json".
Definition approve_attempts_path := file_path "-approve-attempts.json".
End Paths.

(** ** Requests and files *)

Section Store.
Context {J : SerdeJson} {U : UnicodeCase}.

Record PairingRequest := {
  pr_id : string;
  pr_code : string;
  pr_created_at : string;
  pr_last_seen_at : string;
  pr_meta : option json;
}.

Record PairingStoreFile := { psf_version : Z; psf_requests : list PairingRequest }.
Record AllowFromStoreFile := { afs_version : Z; afs_allow_from : list string }.
Record ApproveAttemptsFile := { failed_at : list Z }.
End Store.
Arguments PairingRequest : clear implicits.
Arguments PairingRequest {J}.
Arguments PairingStoreFile : clear implicits.
Arguments PairingStoreFile {J}.

(** The codecs of the three files and of timestamps.  [meta] is optional: a
    JSON null in it is read back as absent. *)
Class PairingCodec {J : SerdeJson} := {
  pairing_json : PairingStoreFile → string;
  pairing_of_json : string → option PairingStoreFile;
  allow_json : AllowFromStoreFile → string;
  allow_of_json : string → option AllowFromStoreFile;
  attempts_json : ApproveAttemptsFile → string;
  attempts_of_json : string → option ApproveAttemptsFile;
  read_meta : option json → option json;
  read_request (r : PairingRequest) : PairingRequest := {|
    pr_id := pr_id r; pr_code := pr_code r; pr_created_at := pr_created_at r;
    pr_last_seen_at := pr_last_seen_at r; pr_meta := read_meta (pr_meta r) |};
  pairing_roundtrip : ∀ f, pairing_of_json (pairing_json f) =
    Some {| psf_version := psf_version f; psf_requests := read_request <$> psf_requests f |};
  allow_roundtrip : ∀ f, allow_of_json (allow_json f) = Some f;
  attempts_roundtrip : ∀ f, attempts_of_json (attempts_json f) = Some f;
  (** the empty string is not JSON *)
  allow_of_empty : allow_of_json "" = None;
  pairing_of_empty : pairing_of_json "" = None;
  attempts_of_empty : attempts_of_json "" = None;
  (** [DateTime::from_timestamp(n, 0).map(to_rfc3339)] and [parse_from_rfc3339] *)
  to_rfc3339 : Z → option string;
  parse_rfc3339 : string → option Z;
}.

Section Ops.
Context {J : SerdeJson} {U : UnicodeCase} {C : PairingCodec}.

Abbreviation Files := (gmap string string).

(** *** Time *)

Definition now_iso (now : Z) : string := default (pretty now) (to_rfc3339 now).

Definition parse_timestamp (value : string) : option Z :=
  match parse_rfc3339 value with
  | Some t => Some (wrap_u64 t)
  | None => parse_unsigned u64_max value
  end.

Definition is_expired (req : PairingRequest) (now : Z) : bool :=
  let created := default 0%Z (parse_timestamp (pr_created_at req)) in
  (PAIRING_PENDING_TTL_SECS <? Z.max 0 (now - created))%Z.

Definition drop_expired (now : Z) (l : list PairingRequest) : list PairingRequest :=
  filter (λ r, negb (is_expired r now) = true) l.

(** *** Pending requests *)

Definition requests_of (content : string) : list PairingRequest :=
  match pairing_of_json content with Some f => psf_requests f | None => [] end.

Definition write_pairing (path : string) (l : list PairingRequest) (fs : Files) : Files :=
  <[path := pairing_json {| psf_version := 1; psf_requests := l |}]> fs.

Definition list_pending (base channel : string) (now : Z) (fs : Files) :
    Files * result (list PairingRequest) PairingStoreError :=
  match pairing_path base channel with
  | Err e => (fs, Err e)
  | Ok path =>
      match fs !! path with
      | None => (fs, Ok [])
      | Some content =>
          let all := requests_of content in
          let requests := drop_expired now all in
          let fs := if bool_decide (length requests ≠ length all)
                    then write_pairing path requests fs else fs in
          (fs, Ok (merge_sort (λ a b, String.le (pr_created_at a) (pr_created_at b)) requests))
      end
  end.

Record UpsertResult := { ur_code : string; ur_created : bool }.

Definition existing_codes (l : list PairingRequest) : gset string :=
  list_to_set ((λ r, to_uppercase (pr_code r)) <$> l).

Definition touch_request (now : string) (code : string) (meta : option json)
    (r : PairingRequest) : PairingRequest := {|
  pr_id := pr_id r; pr_code := code; pr_created_at := pr_created_at r; pr_last_seen_at := now;
  pr_meta := match meta with Some m => Some m | None => pr_meta r end |}.

Definition upsert_request (base channel id : string) (meta : option json) (now : Z)
    (rng : nat → nat → nat) (suffix : Z) (fs : Files) :
    Files * result UpsertResult PairingStoreError :=
  match pairing_path base channel with
  | Err e => (fs, Err e)
  | Ok path =>
      (* the file is created when it does not exist *)
      let content := default "" (fs !! path) in
      let fs := <[path := content]> fs in
      let id := trim id in
      if bool_decide (id = "") then (fs, Err (InvalidChannel "empty id"))
      else
        let requests := drop_expired now (requests_of content) in
        let existing := existing_codes requests in
        match position (λ r, bool_decide (pr_id r = id)) requests with
        | Some idx =>
            let old := from_option pr_code "" (requests !! idx) in
            let code := if bool_decide (old = "") then generate_unique_code rng suffix existing
                        else old in
            let requests := alter (touch_request (now_iso now) code meta) idx requests in
            (write_pairing path requests fs, Ok {| ur_code := code; ur_created := false |})
        | None =>
            if bool_decide (PAIRING_PENDING_MAX ≤ length requests)
            then (fs, Ok {| ur_code := ""; ur_created := false |})
            else
              let code := generate_unique_code rng suffix existing in
              let req := {| pr_id := id; pr_code := code; pr_created_at := now_iso now;
                            pr_last_seen_at := now_iso now; pr_meta := meta |} in
              (write_pairing path (requests ++ [req]) fs,
               Ok {| ur_code := code; ur_created := true |})
        end
  end.

(** *** Allowed senders *)

Definition allowed_of (content : string) : list string :=
  match allow_of_json content with Some f => afs_allow_from f | None => [] end.

Definition read_allow_from (base channel : string) (fs : Files) :
    result (list string) PairingStoreError :=
  match allow_from_path base channel with
  | Err e => Err e
  | Ok path => Ok (from_option allowed_of [] (fs !! path))
  end.

Definition is_sender_allowed (base channel id : string) (username : option string) (fs : Files) :
    result bool PairingStoreError :=
  match read_allow_from base channel fs with
  | Err e => Err e
  | Ok allow =>
      let id := trim id in
      if existsb (λ e, bool_decide (trim e = id)) allow then Ok true
      else match username with
           | Some u =>
               let u := to_lowercase (trim u) in
               let u_norm := default u (strip_prefix u "@") in
               Ok (existsb (λ e, bool_decide (to_lowercase (trim e) = u) ||
                                 bool_decide (to_lowercase (trim e) = "@" +:+ u_norm)) allow)
           | None => Ok false
           end
  end.

(** The file is opened with [truncate(true)] before it is read. *)
Definition add_allow_from (base channel entry : string) (fs : Files) :
    Files * result unit PairingStoreError :=
  let entry := trim entry in
  if bool_decide (entry = "") then (fs, Ok tt)
  else
    match allow_from_path base channel with
    | Err e => (fs, Err e)
    | Ok path =>
        let fs := <[path := ""]> fs in
        let store := allowed_of (default "" (fs !! path)) in
        if existsb (λ e, bool_decide (to_lowercase e = to_lowercase entry)) store then (fs, Ok tt)
        else (<[path := allow_json {| afs_version := 1; afs_allow_from := store ++ [entry] |}]> fs,
              Ok tt)
    end.

(** *** Approval *)

Definition attempts_of (content : string) : list Z :=
  match attempts_of_json content with Some f => failed_at f | None => [] end.

Definition recent (now : Z) (l : list Z) : list Z :=
  let cutoff := Z.max 0 (now - PAIRING_APPROVE_RATE_WINDOW_SECS) in
  filter (λ t, (cutoff <=? t)%Z = true) l.

Definition is_approve_rate_limited (base channel : string) (now : Z) (fs : Files) :
    result bool PairingStoreError :=
  match approve_attempts_path base channel with
  | Err e => Err e
  | Ok path =>
      match fs !! path with
      | None => Ok false
      | Some content =>
          Ok (bool_decide (PAIRING_APPROVE_RATE_LIMIT ≤ length (recent now (attempts_of content))))
      end
  end.

Definition record_failed_approve (base channel : string) (now : Z) (fs : Files) :
    Files * result unit PairingStoreError :=
  match approve_attempts_path base channel with
  | Err e => (fs, Err e)
  | Ok path =>
      let data := attempts_of (default "" (fs !! path)) in
      (<[path := attempts_json {| failed_at := recent now (data ++ [now]) |}]> fs, Ok tt)
  end.

Definition approve (base channel code : string) (now : Z) (fs : Files) :
    Files * result (option PairingRequest) PairingStoreError :=
  let code := to_uppercase (trim code) in
  if bool_decide (code = "") then (fs, Ok None)
  else
    match is_approve_rate_limited base channel now fs with
    | Err e => (fs, Err e)
    | Ok true => (fs, Err ApproveRateLimited)
    | Ok false =>
        match pairing_path base channel with
        | Err e => (fs, Err e)
        | Ok path =>
            match fs !! path with
            | None => (fs, Err (InvalidChannel "no pairing file"))
            | Some content =>
                let requests := drop_expired now (requests_of content) in
                match position (λ r, bool_decide (to_uppercase (pr_code r) = code)) requests with
                | None =>
                    match record_failed_approve base channel now fs with
                    | (fs, Err e) => (fs, Err e)
                    | (fs, Ok _) => (fs, Ok None)
                    end
                | Some i =>
                    match requests !! i with
                    | None => (fs, Ok None)
                    | Some entry =>
                        let fs := write_pairing path (delete i requests) fs in
                        match add_allow_from base channel (pr_id entry) fs with
                        | (fs, Err e) => (fs, Err e)
                        | (fs, Ok _) => (fs, Ok (Some entry))
                        end
                    end
                end
            end
        end
    end.
End Ops.

(** ** Paths of different kinds are different *)

Section PathLemmas.
Context {U : UnicodeCase}.

Lemma file_path_inv suffix base channel path :
  file_path suffix base channel = Ok path → ∃ pre, path = pre +:+ suffix.
Proof.
  unfold file_path. destruct (safe_channel_key channel) as [key|]; [|done]. intros [= <-].
  exists (base +:+ "/" +:+ key). by rewrite !str_app_assoc.
Qed.

(** The last six characters tell the kinds apart. *)
Lemma file_kinds_differ p q (s1 s2 t1 t2 : string) :
  String.length t1 = String.length t2 → t1 ≠ t2 →
  p +:+ (s1 +:+ t1) ≠ q +:+ (s2 +:+ t2).
Proof.
  intros Hl Hne H. rewrite <-!str_app_assoc in H.
  by apply str_app_inj_r in H as [_ ?].
Qed.

Lemma pairing_not_allow base c c' p p' :
  pairing_path base c = Ok p → allow_from_path base c' = Ok p' → p ≠ p'.
Proof.
  intros [x ->]%file_path_inv [y ->]%file_path_inv.
  by apply (file_kinds_differ x y "-pairin" "-allowFro" "g.json" "m.json").
Qed.

Lemma pairing_not_attempts base c c' p p' :
  pairing_path base c = Ok p → approve_attempts_path base c' = Ok p' → p ≠ p'.
Proof.
  intros [x ->]%file_path_inv [y ->]%file_path_inv.
  by apply (file_kinds_differ x y "-pairin" "-approve-attempt" "g.json" "s.json").
Qed.

Lemma allow_not_attempts base c c' p p' :
  allow_from_path base c = Ok p → approve_attempts_path base c' = Ok p' → p ≠ p'.
Proof.
  intros [x ->]%file_path_inv [y ->]%file_path_inv.
  by apply (file_kinds_differ x y "-allowFro" "-approve-attempt" "m.json" "s.json").
Qed.

(** *** The channel key *)

Lemma replace_dots_cons a b s :
  replace_dots (String a (String b s)) =
  if bool_decide (a = byte 46) && bool_decide (b = byte 46)
  then String (byte 95) (replace_dots s) else String a (replace_dots (String b s)).
Proof. reflexivity. Qed.

(** Induction that follows the two-character steps of [replace_dots]. *)
Lemma replace_dots_ind (P : string → Prop) :
  P "" → (∀ a, P (String a "")) →
  (∀ a b s, P s → P (String b s) → P (String a (String b s))) → ∀ s, P s.
Proof.
  intros H0 H1 H2 s. enough (P s ∧ ∀ a, P (String a s)) as [? _] by done.
  induction s as [|b s [IH1 IH2]]; split; auto.
Qed.

Lemma has_char_replace_dots c s :
  c ≠ byte 95 → has_char c s = false → has_char c (replace_dots s) = false.
Proof.
  intros Hc. induction s as [|a|a b s IH1 IH2] using replace_dots_ind; [done|done|].
  intros Hs. rewrite replace_dots_cons. pose proof Hs as Hs'. cbn [has_char] in Hs'.
  apply orb_false_iff in Hs' as [Ha Hs']. pose proof Hs' as Hb.
  apply orb_false_iff in Hs' as [_ Hs'].
  destruct (bool_decide (a = byte 46) && bool_decide (b = byte 46)); cbn [has_char].
  - rewrite bool_decide_false by congruence. by apply IH1.
  - rewrite Ha. by apply IH2.
Qed.

Lemma replace_dots_head s d s' :
  replace_dots s = String d s' → d = byte 46 → ∃ s0, s = String d s0 ∧
    match s0 with String e _ => e ≠ byte 46 | EmptyString => True end.
Proof.
  destruct s as [|a [|b s2]]; [done|naive_solver|]. rewrite replace_dots_cons.
  destruct (bool_decide (a = byte 46) && bool_decide (b = byte 46)) eqn:E.
  - intros [= <- _] H. done.
  - intros [= <- _] ->. exists (String b s2). split; [done|].
    rewrite (bool_decide_true (byte 46 = byte 46)) in E by done. simpl in E.
    by apply bool_decide_eq_false in E.
Qed.

Lemma replace_dots_no_dots s : contains (replace_dots s) ".." = false.
Proof.
  induction s as [|a|a b s2 IH1 IH2] using replace_dots_ind; [done| |].
  { cbn [replace_dots contains starts_with]. by rewrite andb_false_r. }
  rewrite replace_dots_cons.
  destruct (bool_decide (a = byte 46) && bool_decide (b = byte 46)) eqn:E.
  - cbn [contains]. rewrite IH1. reflexivity.
  - cbn [contains]. rewrite IH2, orb_false_r. cbn [starts_with].
    destruct (bool_decide (_ = a)) eqn:Ea; [|done]. apply bool_decide_eq_true in Ea as <-.
    destruct (replace_dots (String b s2)) as [|d s'] eqn:Er; [done|]. simpl.
    destruct (bool_decide (_ = d)) eqn:Ed; [|done]. apply bool_decide_eq_true in Ed as <-.
    destruct (replace_dots_head _ _ _ Er eq_refl) as (s0 & [= -> _] & _).
    by rewrite !bool_decide_true in E.
Qed.

Lemma has_char_sanitized c s :
  existsb (Nat.eqb (Ascii.nat_of_ascii c)) [92; 47; 58; 42; 63; 34; 60; 62; 124] = true →
  has_char c (map_chars sanitize_char s) = false.
Proof.
  intros Hc. induction s as [|d s IH]; [done|]. cbn [map_chars has_char].
  rewrite IH, orb_false_r. apply bool_decide_eq_false. intros Hd. unfold sanitize_char in Hd.
  destruct (existsb (Nat.eqb (Ascii.nat_of_ascii d)) _) eqn:E; [|congruence].
  subst c. done.
Qed.
End PathLemmas.

(** ** Codes *)

Section Codes.
Context {U : UnicodeCase}.

Definition code_char (c : Ascii.ascii) : bool := is_ascii c && bool_decide (ascii_upper c = c).

Lemma alphabet_char k : code_char (default (byte 65) (String.get (k mod 32) PAIRING_ALPHABET)) = true.
Proof.
  assert (forallb (λ k, code_char (default (byte 65) (String.get k PAIRING_ALPHABET))) (seq 0 32)
    = true) as H by (vm_compute; reflexivity).
  rewrite forallb_forall in H. apply H, in_seq.
  pose proof (Nat.mod_upper_bound k 32). lia.
Qed.

Lemma upper_code s : all_chars code_char s = true → to_uppercase s = s.
Proof.
  intros Hs. rewrite to_uppercase_ascii.
  - induction s as [|c s IH]; [done|]. simpl in *. apply andb_true_iff in Hs as [Hc Hs].
    apply andb_true_iff in Hc as [_ Hc]. apply bool_decide_eq_true in Hc.
    unfold to_ascii_uppercase in *. simpl. by rewrite Hc, IH.
  - induction s as [|c s IH]; [done|]. simpl in *. apply andb_true_iff in Hs as [Hc Hs].
    apply andb_true_iff in Hc as [-> _]. by apply IH.
Qed.

Lemma random_chars_ok n idx : all_chars code_char (random_chars n idx) = true.
Proof.
  revert idx. induction n as [|n IH]; intros idx; [done|]. cbn [random_chars all_chars].
  by rewrite alphabet_char, IH.
Qed.

Lemma random_code_upper idx : to_uppercase (random_code idx) = random_code idx.
Proof. apply upper_code, random_chars_ok. Qed.

Lemma random_code_nonempty idx : random_code idx ≠ "".
Proof. done. Qed.

(** One of the 500 draws is not in use. *)
Definition some_draw_fresh (rng : nat → nat → nat) (existing : gset string) : Prop :=
  ∃ i, i < 500 ∧ random_code (rng i) ∉ existing.

Lemma try_codes_fresh tries i rng suffix existing :
  (∃ j, i ≤ j < i + tries ∧ random_code (rng j) ∉ existing) →
  ∃ j, try_codes tries i rng suffix existing = random_code (rng j) ∧
       random_code (rng j) ∉ existing.
Proof.
  revert i. induction tries as [|tries IH]; intros i (j & Hj & Hn); [lia|].
  cbn [try_codes]. case_bool_decide as Hin; [|eauto].
  apply IH. exists j. split; [|done]. destruct (decide (j = i)) as [->|]; [done|lia].
Qed.

Lemma generate_fresh rng suffix existing :
  some_draw_fresh rng existing →
  let code := generate_unique_code rng suffix existing in
  (code ∉ existing) ∧ code ≠ "" ∧ to_uppercase code = code.
Proof.
  intros (i & Hi & Hn) code.
  destruct (try_codes_fresh 500 0 rng suffix existing) as (j & Hj & Hf).
  { exists i. split; [lia|done]. }
  unfold code, generate_unique_code. rewrite Hj.
  split_and!; [done|apply random_code_nonempty|apply random_code_upper].
Qed.
End Codes.

(** ** The pending requests of a file *)

Section Pending.
Context {J : SerdeJson} {U : UnicodeCase} {C : PairingCodec}.
Implicit Types (fs : gmap string string) (l : list PairingRequest).

Definition codes_of l : list string := (λ r, to_uppercase (pr_code r)) <$> l.

Definition pending_ok l : Prop :=
  length l ≤ PAIRING_PENDING_MAX ∧ NoDup (pr_id <$> l) ∧ NoDup (codes_of l) ∧
  Forall (λ r, pr_code r ≠ "") l.

Lemma requests_of_written l :
  requests_of (pairing_json {| psf_version := 1; psf_requests := l |}) = read_request <$> l.
Proof. unfold requests_of. by rewrite pairing_roundtrip. Qed.

Lemma pending_ok_read l : pending_ok l → pending_ok (read_request <$> l).
Proof.
  intros (Hl & Hi & Hc & Hn). unfold pending_ok, codes_of in *.
  rewrite length_fmap, <-!list_fmap_compose, Forall_fmap. by split_and!.
Qed.

Lemma pending_ok_sublist l l' : l' `sublist_of` l → pending_ok l → pending_ok l'.
Proof.
  intros Hs (Hl & Hi & Hc & Hn). unfold codes_of in *. split_and!.
  - apply sublist_length in Hs. lia.
  - eapply sublist_NoDup; [exact Hi|]. by apply fmap_sublist.
  - eapply sublist_NoDup; [exact Hc|]. by apply fmap_sublist.
  - rewrite Forall_forall in *. intros x Hx. apply Hn. by eapply elem_of_sublist.
Qed.

Lemma pending_ok_drop now l : pending_ok l → pending_ok (drop_expired now l).
Proof. apply pending_ok_sublist, sublist_filter. Qed.

Lemma pending_ok_touch now meta l i r code :
  pending_ok l → l !! i = Some r →
  (code = pr_code r ∧ pr_code r ≠ "") ∨
  ((code ∉ existing_codes l) ∧ code ≠ "" ∧ to_uppercase code = code) →
  pending_ok (alter (touch_request now code meta) i l).
Proof.
  intros (Hl & Hi & Hc & Hn) Hr Hcode. unfold pending_ok, codes_of.
  rewrite length_alter. split_and!; [done| | |].
  - replace (pr_id <$> alter (touch_request now code meta) i l) with (pr_id <$> l); [done|].
    symmetry. by apply list_fmap_alter_id.
  - rewrite list_alter_fmap_to with (g := λ _, to_uppercase code) by done.
    rewrite (list_alter_insert _ i (to_uppercase (pr_code r))) by (by rewrite list_lookup_fmap, Hr).
    destruct Hcode as [[-> _]|(Hnew & _ & Hup)].
    + rewrite list_insert_id; [done|]. by rewrite list_lookup_fmap, Hr.
    + apply NoDup_insert; [done|]. rewrite Hup. intros Hin. apply Hnew.
      unfold existing_codes. by apply elem_of_list_to_set.
  - apply Forall_alter; [done|]. intros x Hx _. simplify_eq. simpl. naive_solver.
Qed.

Lemma pending_ok_push now l id code meta :
  pending_ok l → length l < PAIRING_PENDING_MAX → id ∉ pr_id <$> l →
  code ∉ existing_codes l → code ≠ "" → to_uppercase code = code →
  pending_ok (l ++ [{| pr_id := id; pr_code := code; pr_created_at := now;
                       pr_last_seen_at := now; pr_meta := meta |}]).
Proof.
  intros (Hl & Hi & Hc & Hn) Hlt Hid Hcode Hne Hup. unfold pending_ok, codes_of.
  rewrite length_app, !fmap_app. simpl. rewrite Hup. split_and!; [lia| | |].
  - apply NoDup_app. split_and!; [done| |apply NoDup_singleton].
    intros x Hx Hx'. apply list_elem_of_singleton in Hx' as ->. done.
  - apply NoDup_app. split_and!; [done| |apply NoDup_singleton].
    intros x Hx Hx'. apply list_elem_of_singleton in Hx' as ->. apply Hcode.
    unfold existing_codes. by apply elem_of_list_to_set.
  - apply Forall_app_2; [done|]. by constructor; [|constructor].
Qed.
End Pending.

(** ** Operations on the store *)

Section Steps.
Context {J : SerdeJson} {U : UnicodeCase} {C : PairingCodec}.
Context (base : string).
Implicit Types (fs : gmap string string) (l : list PairingRequest).

(** The pending requests of a channel as a list. *)
Definition pending_in fs (path : string) : list PairingRequest :=
  requests_of (default "" (fs !! path)).

Inductive pairing_step : gmap string string → gmap string string → Prop :=
| pairing_list fs channel now :
    pairing_step fs (list_pending base channel now fs).1
| pairing_upsert fs channel id meta now rng suffix :
    (∀ path, pairing_path base channel = Ok path →
       some_draw_fresh rng (existing_codes (drop_expired now (pending_in fs path)))) →
    pairing_step fs (upsert_request base channel id meta now rng suffix fs).1
| pairing_approve fs channel code now :
    pairing_step fs (approve base channel code now fs).1.

Definition store_inv fs : Prop :=
  ∀ channel path, pairing_path base channel = Ok path → pending_ok (pending_in fs path).

Lemma pending_ok_empty : pending_ok [].
Proof. split_and!; [simpl; lia|constructor..]. Qed.

Lemma store_inv_write fs path l :
  store_inv fs → pending_ok l → store_inv (write_pairing path l fs).
Proof.
  intros Hinv Hl c p Hp. unfold pending_in, write_pairing.
  destruct (decide (p = path)) as [->|Hne].
  - rewrite lookup_insert_eq. simpl. rewrite requests_of_written. by apply pending_ok_read.
  - rewrite lookup_insert_ne by done. by eapply Hinv.
Qed.

(** Creating the file when it is missing changes nothing. *)
Lemma store_inv_create fs path :
  store_inv fs → store_inv (<[path := default "" (fs !! path)]> fs).
Proof.
  intros Hinv c p Hp. unfold pending_in. destruct (decide (p = path)) as [->|Hne].
  - rewrite lookup_insert_eq. simpl. by eapply (Hinv c).
  - rewrite lookup_insert_ne by done. by eapply Hinv.
Qed.

Lemma store_inv_other fs path content :
  store_inv fs → (∀ c p, pairing_path base c = Ok p → p ≠ path) →
  store_inv (<[path := content]> fs).
Proof.
  intros Hinv Hne c p Hp. unfold pending_in. rewrite lookup_insert_ne; [by eapply Hinv|].
  intros ->. by eapply Hne.
Qed.

Lemma list_pending_inv channel now fs :
  store_inv fs → store_inv (list_pending base channel now fs).1.
Proof.
  intros Hinv. unfold list_pending. destruct (pairing_path base channel) as [path|] eqn:Hp; [|done].
  destruct (fs !! path) as [content|] eqn:Hc; [|done]. simpl. case_bool_decide; [|done].
  apply store_inv_write; [done|]. apply pending_ok_drop.
  specialize (Hinv channel path Hp). unfold pending_in in Hinv. by rewrite Hc in Hinv.
Qed.

Lemma upsert_request_inv channel id meta now rng suffix fs :
  store_inv fs →
  (∀ path, pairing_path base channel = Ok path →
     some_draw_fresh rng (existing_codes (drop_expired now (pending_in fs path)))) →
  store_inv (upsert_request base channel id meta now rng suffix fs).1.
Proof.
  intros Hinv Hrng. unfold upsert_request.
  destruct (pairing_path base channel) as [path|] eqn:Hp; [|done].
  specialize (Hrng path eq_refl). apply (generate_fresh _ suffix) in Hrng as (Hf & Hne & Hup).
  pose proof (Hinv channel path Hp) as Hok. apply (pending_ok_drop now) in Hok.
  change (requests_of (default "" (fs !! path))) with (pending_in fs path).
  set (l := drop_expired now (pending_in fs path)) in *.
  assert (store_inv (<[path := default "" (fs !! path)]> fs)) as Hinv' by by apply store_inv_create.
  case_bool_decide; [done|].
  destruct (position _ l) as [idx|] eqn:Hpos; cbn [fst].
  - apply position_Some in Hpos as (r & Hr & _). apply store_inv_write; [done|].
    rewrite Hr. simpl. eapply pending_ok_touch; [done..|].
    case_bool_decide; [right|left]; done.
  - case_bool_decide as Hlen; cbn [fst]; [done|]. apply store_inv_write; [done|].
    apply pending_ok_push; try done; [lia|].
    intros Hin. apply list_elem_of_fmap in Hin as (r & Hid & Hr).
    apply (position_None _ _ Hpos) in Hr. by apply bool_decide_eq_false in Hr.
Qed.

Lemma add_allow_from_inv channel entry fs :
  store_inv fs → store_inv (add_allow_from base channel entry fs).1.
Proof.
  intros Hinv. unfold add_allow_from. case_bool_decide; [done|].
  destruct (allow_from_path base channel) as [path|] eqn:Hp; [|done].
  assert (∀ c p, pairing_path base c = Ok p → p ≠ path) as Hne
    by (intros; by eapply pairing_not_allow).
  case_match; simpl; repeat apply store_inv_other; done.
Qed.

Lemma approve_inv channel code now fs :
  store_inv fs → store_inv (approve base channel code now fs).1.
Proof.
  intros Hinv. unfold approve. case_bool_decide; [done|].
  destruct (is_approve_rate_limited base channel now fs) as [[]|]; [done| |done].
  destruct (pairing_path base channel) as [path|] eqn:Hp; [|done].
  destruct (fs !! path) as [content|] eqn:Hc; [|done].
  pose proof (Hinv channel path Hp) as Hok. unfold pending_in in Hok. rewrite Hc in Hok.
  apply (pending_ok_drop now) in Hok. simpl in Hok.
  destruct (position _ _) as [i|].
  - destruct (drop_expired now (requests_of content) !! i) as [entry|] eqn:Hi; [|done].
    pose proof (add_allow_from_inv channel (pr_id entry)
      (write_pairing path (delete i (drop_expired now (requests_of content))) fs)) as Ha.
    destruct (add_allow_from _ _ _ _) as [fs' []]; apply Ha, store_inv_write; try done;
      (eapply pending_ok_sublist; [apply sublist_delete|done]).
  - unfold record_failed_approve.
    destruct (approve_attempts_path base channel) as [ap|] eqn:Hap; [|done].
    apply store_inv_other; [done|]. intros c p Hcp. by eapply pairing_not_attempts.
Qed.

Lemma pairing_step_inv fs fs' : store_inv fs → pairing_step fs fs' → store_inv fs'.
Proof.
  intros Hinv Hstep. destruct Hstep.
  - by apply list_pending_inv.
  - by apply upsert_request_inv.
  - by apply approve_inv.
Qed.

Lemma store_inv_empty : store_inv ∅.
Proof.
  intros c p Hp. unfold pending_in, requests_of. rewrite lookup_empty. simpl.
  rewrite pairing_of_empty. apply pending_ok_empty.
Qed.

(** Whatever operations are made on the store, a channel never has more
    than three pending requests, their senders are distinct, and their codes
    are non-empty and distinct up to case (as long as one of the 500 random
    draws for a new code is not in use), so that a code identifies one
    request. *)
Theorem pending_requests_invariant fs channel path
    (Hreach : rtc pairing_step ∅ fs) (Hpath : pairing_path base channel = Ok path) :
  let l := pending_in fs path in
  length l ≤ 3 ∧ NoDup (pr_id <$> l) ∧ NoDup (codes_of l) ∧ Forall (λ r, pr_code r ≠ "") l.
Proof.
  assert (store_inv fs) as Hinv.
  { refine (rtc_invariant pairing_step store_inv _ _ _ _ Hreach).
    - intros; by eapply pairing_step_inv.
    - apply store_inv_empty. }
  exact (Hinv channel path Hpath).
Qed.

(** A successful approval returns an unexpired pending request whose
    code matches and removes exactly that request; and it replaces the
    channel's list of allowed senders by that one sender: whoever was allowed
    before no longer is. *)
Theorem approve_success_replaces_allowed fs fs' channel code now entry path
    (Hpath : pairing_path base channel = Ok path)
    (Hok : approve base channel code now fs = (fs', Ok (Some entry)))
    (Hid : trim (pr_id entry) ≠ "") :
  let l := drop_expired now (pending_in fs path) in
  (∃ i, l !! i = Some entry ∧ to_uppercase (pr_code entry) = to_uppercase (trim code) ∧
        pending_in fs' path = read_request <$> delete i l) ∧
  read_allow_from base channel fs' = Ok [trim (pr_id entry)] ∧
  (∀ other, trim (trim (pr_id entry)) ≠ trim other →
     is_sender_allowed base channel other None fs' = Ok false).
Proof.
  intros l. unfold approve in Hok. case_bool_decide; [done|].
  destruct (is_approve_rate_limited base channel now fs) as [[]|]; [done| |done].
  rewrite Hpath in Hok. destruct (fs !! path) as [content|] eqn:Hc; [|done].
  assert (drop_expired now (requests_of content) = l) as Hl
    by (unfold l, pending_in; by rewrite Hc). rewrite Hl in Hok. clear Hl.
  clearbody l.
  destruct (position _ l) as [i|] eqn:Hpos.
  2:{ by destruct (record_failed_approve base channel now fs) as [? []]. }
  apply position_Some in Hpos as (r & Hi & Hcode). apply bool_decide_eq_true in Hcode.
  rewrite Hi in Hok.
  destruct (add_allow_from base channel (pr_id r) (write_pairing path (delete i l) fs))
    as [fs1 [[]|]] eqn:Ha; [|done]. simplify_eq/=.
  assert (∃ ap, allow_from_path base channel = Ok ap) as [ap Hap].
  { unfold pairing_path, allow_from_path, file_path in *.
    destruct (safe_channel_key channel); [eauto|done]. }
  unfold add_allow_from in Ha. rewrite bool_decide_false, Hap in Ha by done.
  rewrite lookup_insert_eq in Ha. simpl in Ha. unfold allowed_of in Ha at 1.
  rewrite allow_of_empty in Ha. simpl in Ha. unfold allowed_of in Ha. rewrite allow_of_empty in Ha.
  simpl in Ha. simplify_eq/=.
  assert (read_allow_from base channel
    (<[ap:=allow_json {| afs_version := 1; afs_allow_from := [trim (pr_id entry)] |}]>
       (<[ap:=""]> (write_pairing path (delete i l) fs))) = Ok [trim (pr_id entry)]) as Hread.
  { unfold read_allow_from. rewrite Hap, lookup_insert_eq. simpl. unfold allowed_of.
    by rewrite allow_roundtrip. }
  split_and!; [|done|].
  - exists i. split_and!; [done|done|]. unfold pending_in.
    pose proof (pairing_not_allow base channel channel path ap Hpath Hap).
    rewrite !lookup_insert_ne by done. unfold write_pairing. rewrite lookup_insert_eq. simpl.
    by rewrite requests_of_written.
  - intros other Hother. unfold is_sender_allowed. rewrite Hread. simpl.
    by rewrite bool_decide_false.
Qed.
End Steps.

(** ** Guessing codes

    The store, the clock, and the times of the failed approvals counted in
    one attempts file. *)

Section Attempts.
Context {J : SerdeJson} {U : UnicodeCase} {C : PairingCodec}.
Context (base ap : string).
Implicit Types (fs : gmap string string).

Record GuessWorld := {
  pw_fs : gmap string string;
  pw_clock : Z;
  pw_log : list Z;
}.

(** A guess that was compared with the pending codes and failed. *)
Definition wrong_guess (channel code : string)
    (out : result (option PairingRequest) PairingStoreError) : bool :=
  match out with
  | Ok None => bool_decide (to_uppercase (trim code) ≠ "") &&
               match approve_attempts_path base channel with
               | Ok p => bool_decide (p = ap)
               | Err _ => false
               end
  | _ => false
  end.

Inductive guess_step : GuessWorld → GuessWorld → Prop :=
| guess_list w channel now :
    guess_step w {| pw_fs := (list_pending base channel now (pw_fs w)).1;
                    pw_clock := pw_clock w; pw_log := pw_log w |}
| guess_upsert w channel id meta now rng suffix :
    guess_step w {| pw_fs := (upsert_request base channel id meta now rng suffix (pw_fs w)).1;
                    pw_clock := pw_clock w; pw_log := pw_log w |}
| guess_approve w channel code now : (pw_clock w <= now)%Z →
    guess_step w
      (let '(fs, out) := approve base channel code now (pw_fs w) in
       {| pw_fs := fs; pw_clock := now;
          pw_log := pw_log w ++ (if wrong_guess channel code out then [now] else []) |}).

Definition attempts_in fs : list Z := attempts_of (default "" (fs !! ap)).

Definition guess_inv (w : GuessWorld) : Prop :=
  Forall (λ t, (0 <= t <= pw_clock w)%Z) (pw_log w) ∧ (0 <= pw_clock w)%Z ∧
  ∀ cut, (Z.max 0 (pw_clock w - PAIRING_APPROVE_RATE_WINDOW_SECS) <= cut)%Z →
    filter (λ t, (cut <=? t)%Z = true) (attempts_in (pw_fs w)) =
    filter (λ t, (cut <=? t)%Z = true) (pw_log w).

Section Frame.
Context (c0 : string) (Hap : approve_attempts_path base c0 = Ok ap).

Lemma list_pending_attempts channel now fs :
  (list_pending base channel now fs).1 !! ap = fs !! ap.
Proof.
  unfold list_pending. destruct (pairing_path base channel) as [path|] eqn:Hp; [|done].
  destruct (fs !! path); [|done]. simpl. case_bool_decide; [|done].
  unfold write_pairing. rewrite lookup_insert_ne; [done|]. by eapply pairing_not_attempts.
Qed.

Lemma upsert_attempts channel id meta now rng suffix fs :
  (upsert_request base channel id meta now rng suffix fs).1 !! ap = fs !! ap.
Proof.
  unfold upsert_request. destruct (pairing_path base channel) as [path|] eqn:Hp; [|done].
  assert (path ≠ ap) by (by eapply pairing_not_attempts). unfold write_pairing.
  repeat (case_match; simpl); rewrite ?lookup_insert_ne by done; done.
Qed.

Lemma add_allow_from_attempts channel entry fs :
  (add_allow_from base channel entry fs).1 !! ap = fs !! ap.
Proof.
  unfold add_allow_from. case_bool_decide; [done|].
  destruct (allow_from_path base channel) as [path|] eqn:Hp; [|done].
  assert (path ≠ ap) by (by eapply allow_not_attempts).
  case_match; simpl; by rewrite ?lookup_insert_ne.
Qed.

(** An approval leaves the attempts file alone, or it was a wrong guess
    below the limit and adds its time. *)
Lemma approve_attempts channel code now fs fs' out :
  approve base channel code now fs = (fs', out) →
  (wrong_guess channel code out = false ∧ fs' !! ap = fs !! ap) ∨
  (wrong_guess channel code out = true ∧
   length (recent now (attempts_in fs)) < PAIRING_APPROVE_RATE_LIMIT ∧
   attempts_in fs' = recent now (attempts_in fs ++ [now])).
Proof.
  unfold approve, wrong_guess.
  destruct (bool_decide (to_uppercase (trim code) = "")) eqn:Hcode.
  { intros [= <- <-]. left. apply bool_decide_eq_true in Hcode.
    by rewrite bool_decide_false by (by intros []). }
  apply bool_decide_eq_false in Hcode.
  destruct (is_approve_rate_limited base channel now fs) as [[]|e] eqn:Hlim;
    [intros [= <- <-]; by left| |intros [= <- <-]; by left].
  destruct (pairing_path base channel) as [path|] eqn:Hp; [|intros [= <- <-]; by left].
  destruct (fs !! path) as [content|] eqn:Hc; [|intros [= <- <-]; by left].
  destruct (position _ _) as [i|] eqn:Hpos.
  - apply position_Some in Hpos as (r & Hi & _). rewrite Hi.
    pose proof (add_allow_from_attempts channel (pr_id r)
      (write_pairing path (delete i (drop_expired now (requests_of content))) fs)) as Ha.
    destruct (add_allow_from _ _ _ _) as [fs1 []]; intros [= <- <-]; left; (split; [done|]);
      simpl in Ha; rewrite Ha; unfold write_pairing; rewrite lookup_insert_ne; try done;
      by eapply pairing_not_attempts.
  - unfold record_failed_approve, is_approve_rate_limited in *.
    destruct (approve_attempts_path base channel) as [p|] eqn:Hpp; [|done].
    intros [= <- <-]. rewrite bool_decide_true by done. simpl.
    destruct (decide (p = ap)) as [->|Hne].
    + right. rewrite bool_decide_true by done. split_and!; [done| |].
      * unfold attempts_in. destruct (fs !! ap) as [content'|]; simpl.
        -- injection Hlim as Hlim. apply bool_decide_eq_false in Hlim. lia.
        -- unfold attempts_of. rewrite attempts_of_empty. simpl.
           unfold PAIRING_APPROVE_RATE_LIMIT. lia.
      * unfold attempts_in at 1. rewrite lookup_insert_eq. simpl. unfold attempts_of at 1.
        by rewrite attempts_roundtrip.
    + left. rewrite bool_decide_false by done. split; [done|]. by rewrite lookup_insert_ne.
Qed.
End Frame.
End Attempts.

(** However the operations of the store follow one another, at most ten
    wrong guesses of a pairing code are compared with the pending codes of a
    channel within any period of five minutes. *)
Theorem wrong_guesses_bounded `{PairingCodec} `{UnicodeCase} base channel ap t w from
    (Hap : approve_attempts_path base channel = Ok ap) (Ht : (0 <= t)%Z)
    (Hreach : rtc (guess_step base ap) {| pw_fs := ∅; pw_clock := t; pw_log := [] |} w) :
  between from (from + PAIRING_APPROVE_RATE_WINDOW_SECS) (pw_log w) ≤ PAIRING_APPROVE_RATE_LIMIT.
Proof.
  enough (guess_inv ap w ∧ ∀ from, between from (from + PAIRING_APPROVE_RATE_WINDOW_SECS)
    (pw_log w) ≤ PAIRING_APPROVE_RATE_LIMIT) as [_ ?] by done.
  refine (rtc_invariant (guess_step base ap) (λ w, guess_inv ap w ∧ ∀ from,
    between from (from + PAIRING_APPROVE_RATE_WINDOW_SECS) (pw_log w)
      ≤ PAIRING_APPROVE_RATE_LIMIT) _ _ _ _ Hreach); clear w Hreach from.
  - intros w w' [(HF & Hpos & Heq) Hb] Hstep.
    destruct Hstep as [w c now|w c id meta now rng sfx|w c code now Hle].
    + split; [|done]. split_and!; try done. simpl. unfold attempts_in in *.
      by rewrite (list_pending_attempts base ap channel Hap).
    + split; [|done]. split_and!; try done. simpl. unfold attempts_in in *.
      by rewrite (upsert_attempts base ap channel Hap).
    + destruct (approve base c code now (pw_fs w)) as [fs' out] eqn:Happ.
      assert (Forall (λ t, (0 <= t <= now)%Z) (pw_log w)) as HF'
        by (eapply Forall_impl; [exact HF|]; simpl; lia).
      destruct (approve_attempts base ap channel Hap _ _ _ _ _ _ Happ)
        as [[-> Hsame]|(-> & Hlim & Hnew)]; simpl.
      * rewrite app_nil_r. split; [|done]. split_and!; simpl; [done|lia|].
        unfold attempts_in. rewrite Hsame. intros cut Hcut. apply Heq. lia.
      * set (cutoff := Z.max 0 (now - PAIRING_APPROVE_RATE_WINDOW_SECS)) in *.
        assert (length (recent now (attempts_in ap (pw_fs w))) = since cutoff (pw_log w)) as Hlen.
        { unfold recent, since. cbv zeta. fold cutoff. rewrite Heq by lia. done. }
        split.
        -- split_and!; simpl; [apply Forall_app_2; [done|by constructor; [lia|constructor]]|lia|].
           intros cut Hcut. fold cutoff in Hcut. rewrite Hnew. unfold recent. cbv zeta.
           fold cutoff. rewrite list_filter_filter.
           rewrite (list_filter_iff _ (λ x, (cut <=? x)%Z = true)) by (intros x; lia).
           rewrite !filter_app. by rewrite Heq by lia.
        -- intros from. rewrite between_snoc. specialize (Hb from).
           destruct (_ && _) eqn:E; [|lia]. apply andb_true_iff in E as [E1 E2]. zify_bool.
           assert (between from (from + PAIRING_APPROVE_RATE_WINDOW_SECS) (pw_log w)
             ≤ since cutoff (pw_log w)) as Hs.
           { unfold between, since. subst cutoff. clear -HF' E1 E2.
             induction (pw_log w) as [|x l IH]; [done|]. apply Forall_cons in HF' as [Hx HF'].
             rewrite !filter_cons. specialize (IH HF'). repeat case_decide; simpl; lia. }
           lia.
  - split; [|intros from; apply Nat.le_0_l]. split_and!; simpl; [constructor|done|].
    intros cut _. unfold attempts_in, attempts_of. rewrite lookup_empty. simpl.
    by rewrite attempts_of_empty.
Qed.

(** The name of a channel cannot lead out of the pairing directory: the
    file name derived from it is not empty and contains no path separator
    and no [..]. *)
Theorem safe_channel_key_contained `{UnicodeCase} channel key
    (Hok : safe_channel_key channel = Ok key) :
  key ≠ "" ∧ has_char (byte 47) key = false ∧ has_char (byte 92) key = false ∧
  contains key ".." = false.
Proof.
  unfold safe_channel_key in Hok. case_bool_decide; [done|].
  destruct (bool_decide _ || bool_decide _) eqn:E; [done|].
  apply orb_false_iff in E as [E _]. apply bool_decide_eq_false in E. simplify_eq.
  split_and!; [done| | |apply replace_dots_no_dots];
    (apply has_char_replace_dots; [done|by apply has_char_sanitized]).
Qed.

(** ** Witnesses

    A concrete codec: the file's data encoded as a number and written in
    binary. *)

Fixpoint pos_bits (p : positive) : string :=
  match p with
  | xH => ""
  | xO p => String (byte 48) (pos_bits p)
  | xI p => String (byte 49) (pos_bits p)
  end.

Fixpoint bits_pos (s : string) : option positive :=
  match s with
  | EmptyString => Some xH
  | String c s =>
      p ← bits_pos s;
      if bool_decide (c = byte 48) then Some (xO p)
      else if bool_decide (c = byte 49) then Some (xI p) else None
  end.

Lemma bits_pos_bits p : bits_pos (pos_bits p) = Some p.
Proof. induction p as [p IH|p IH|]; cbn; [by rewrite IH..|done]. Qed.

Definition bits_json {A} `{Countable A} (x : A) : string :=
  String (byte 74) (pos_bits (encode x)).
Definition bits_of_json {A} `{Countable A} (s : string) : option A :=
  match s with
  | String c s => if bool_decide (c = byte 74) then bits_pos s ≫= decode else None
  | EmptyString => None
  end.

Lemma bits_roundtrip {A} `{Countable A} (x : A) : bits_of_json (bits_json x) = Some x.
Proof.
  unfold bits_of_json, bits_json. rewrite bool_decide_true by done.
  rewrite bits_pos_bits. cbn. apply decode_encode.
Qed.

Section Witnesses.
#[local] Existing Instance json_lite.
#[local] Existing Instance ascii_case.

(** Only requests without metadata occur below. *)
Definition request_tuple (r : PairingRequest) : string * string * string * string :=
  (pr_id r, pr_code r, pr_created_at r, pr_last_seen_at r).
Definition tuple_request (t : string * string * string * string) : PairingRequest :=
  let '(id, code, created, seen) := t in
  {| pr_id := id; pr_code := code; pr_created_at := created; pr_last_seen_at := seen;
     pr_meta := None |}.

Definition bits_codec : PairingCodec.
Proof.
  refine {|
    pairing_json f := bits_json (psf_version f, request_tuple <$> psf_requests f);
    pairing_of_json s := (λ t : Z * list (string * string * string * string),
      {| psf_version := t.1; psf_requests := tuple_request <$> t.2 |}) <$> bits_of_json s;
    allow_json f := bits_json (afs_version f, afs_allow_from f);
    allow_of_json s := (λ t : Z * list string,
      {| afs_version := t.1; afs_allow_from := t.2 |}) <$> bits_of_json s;
    attempts_json f := bits_json (failed_at f);
    attempts_of_json s := (λ l : list Z, {| failed_at := l |}) <$> bits_of_json s;
    read_meta _ := None;
    to_rfc3339 _ := None;
    parse_rfc3339 _ := None;
  |}; try reflexivity.
  - intros f. rewrite bits_roundtrip. cbn. by rewrite <-list_fmap_compose.
  - intros [v l]. by rewrite bits_roundtrip.
  - intros [l]. by rewrite bits_roundtrip.
Defined.
#[local] Existing Instance bits_codec.

Definition zero_rng : nat → nat → nat := λ _ _, 0.

Definition demo_upsert (id : string) (now : Z) (fs : gmap string string) : gmap string string :=
  (upsert_request "b" "telegram" id None now zero_rng 0 fs).1.
Definition demo_approve (now : Z) (fs : gmap string string) : gmap string string :=
  (approve "b" "telegram" "aaaaaaaa" now fs).1.

Lemma pending_requests_invariant_witness :
  let l := pending_in (demo_upsert "alice" 0 ∅) "b/telegram-pairing.json" in
  length l = 1 ∧ NoDup (codes_of l).
Proof.
  split; [vm_compute; reflexivity|].
  apply (pending_requests_invariant "b" (demo_upsert "alice" 0 ∅) "telegram").
  - apply rtc_once. apply (pairing_upsert "b" ∅ "telegram" "alice" None 0 zero_rng 0).
    intros path Hp. exists 0. split; [lia|].
    unfold pending_in, requests_of. rewrite lookup_empty, pairing_of_empty. apply not_elem_of_empty.
  - vm_compute. reflexivity.
Defined.

(** Bob is approved, then Alice: Bob is no longer allowed. *)
Definition demo_two_requests : gmap string string :=
  demo_upsert "alice" 2 (demo_approve 1 (demo_upsert "bob" 0 ∅)).

Definition demo_alice : PairingRequest := {|
  pr_id := "alice"; pr_code := "AAAAAAAA"; pr_created_at := "2"; pr_last_seen_at := "2";
  pr_meta := None |}.

Lemma approve_success_replaces_allowed_witness :
  is_sender_allowed "b" "telegram" "bob" None demo_two_requests = Ok true ∧
  is_sender_allowed "b" "telegram" "bob" None (demo_approve 3 demo_two_requests) = Ok false.
Proof.
  split; [vm_compute; reflexivity|].
  apply (approve_success_replaces_allowed "b" demo_two_requests (demo_approve 3 demo_two_requests)
    "telegram" "aaaaaaaa" 3 demo_alice "b/telegram-pairing.json").
  - vm_compute. reflexivity.
  - vm_compute. reflexivity.
  - vm_compute. discriminate.
  - vm_compute. discriminate.
Defined.

Definition demo_guess_world : GuessWorld := {|
  pw_fs := (approve "b" "telegram" "zzz" 5 (demo_upsert "alice" 0 ∅)).1;
  pw_clock := 5; pw_log := [5%Z] |}.

Lemma wrong_guesses_bounded_witness :
  between 0 (0 + PAIRING_APPROVE_RATE_WINDOW_SECS) (pw_log demo_guess_world) ≤ 10.
Proof.
  apply (wrong_guesses_bounded "b" "telegram" "b/telegram-approve-attempts.json" 0
    demo_guess_world 0).
  - vm_compute. reflexivity.
  - lia.
  - set (w1 := {| pw_fs := demo_upsert "alice" 0 ∅; pw_clock := 0; pw_log := [] |}).
    apply rtc_l with w1.
    { apply (guess_upsert "b" "b/telegram-approve-attempts.json"
        {| pw_fs := ∅; pw_clock := 0; pw_log := [] |} "telegram" "alice" None 0 zero_rng 0). }
    apply rtc_once.
    assert (demo_guess_world = let '(fs, out) := approve "b" "telegram" "zzz" 5 (pw_fs w1) in
      {| pw_fs := fs; pw_clock := 5; pw_log := pw_log w1 ++
           (if wrong_guess "b" "b/telegram-approve-attempts.json" "telegram" "zzz" out
            then [5%Z] else []) |}) as -> by (vm_compute; reflexivity).
    apply (guess_approve "b" "b/telegram-approve-attempts.json" w1 "telegram" "zzz" 5). simpl. lia.
Defined.

Lemma safe_channel_key_contained_witness :
  safe_channel_key "../Tele/gram" = Ok "__tele_gram" ∧ contains "__tele_gram" ".." = false.
Proof.
  split; [vm_compute; reflexivity|].
  apply (safe_channel_key_contained "../Tele/gram"). vm_compute. reflexivity.
Defined.
End Witnesses.
