(* ===== verification/AgenticLoop.v ===== *)
(** * The agentic loop

    Models [src/src/agent/agentic_loop.rs] (the loop shared by chat, jobs and
    containers), the types of [src/src/llm/reasoning/context.rs] it uses and
    the text heuristics of [src/src/llm/reasoning/intent.rs].

    The consumer is a [LoopDelegate], a type class with one state-passing
    method per method of the trait; the loop is defined and proved against
    the class.  [traced] turns any delegate into one that also writes down
    every call and its answer, and the theorems are about that trace. *)

From S2P Require Import Prelude Externals Text LlmTypes Session.

(** ** Intent in replies *)

Section Intent.
Context {U : UnicodeCase}.

Definition EXCLUSIONS : list string :=
  ["let me explain"; "let me know"; "let me think"; "let me summarize"; "let me clarify";
   "let me describe"; "let me help"; "let me understand"; "let me break"; "let me outline";
   "let me walk you"; "let me provide"; "let me suggest"; "let me elaborate";
   "let me start by"].

Definition PREFIXES : list string := ["let me "; "i'll "; "i will "; "i'm going to "].

Definition ACTION_VERBS : list string :=
  ["search"; "look up"; "check"; "fetch"; "find"; "read the"; "write the"; "create"; "run the";
   "execute"; "query"; "retrieve"; "add it"; "add the"; "add this"; "add that"; "update the";
   "delete"; "remove the"; "look into"].

Fixpoint strip_quoted (in_quote : bool) (prev : Ascii.ascii) (s : string) : string :=
  match s with
  | EmptyString => EmptyString
  | String ch s =>
      if bool_decide (ch = byte 34) && negb (bool_decide (prev = byte 92))
      then strip_quoted (negb in_quote) prev s
      else if in_quote then strip_quoted in_quote ch s
      else String ch (strip_quoted in_quote ch s)
  end.

Definition strip_quoted_strings (line : string) : string := strip_quoted false (byte 0) line.

(** [str::lines]: a line ends at a newline, with the carriage return before
    it; what follows the last newline is a line if it is not empty. *)
Fixpoint terminated_lines (parts : list string) : list string :=
  match parts with
  | [] => []
  | x :: rest =>
      match rest with
      | [] => if bool_decide (x = "") then [] else [x]
      | _ => default x (strip_suffix x (String (byte 13) "")) :: terminated_lines rest
      end
  end.

Definition lines (s : string) : list string := terminated_lines (split_on (byte 10) s).

Fixpoint strip_code_lines (in_fence : bool) (ls : list string) : string :=
  match ls with
  | [] => ""
  | line :: ls =>
      if starts_with (trim_start line) "```" then strip_code_lines (negb in_fence) ls
      else if in_fence then strip_code_lines in_fence ls
      else if starts_with line "    " || starts_with line (String (byte 9) "")
      then strip_code_lines in_fence ls
      else strip_quoted_strings line +:+ String (byte 10) (strip_code_lines in_fence ls)
  end.

Definition strip_code_blocks (text : string) : string := strip_code_lines false (lines text).

Definition action_verb_follows (after : string) : bool :=
  existsb (λ verb, starts_with after verb || contains after (" " +:+ verb)) ACTION_VERBS.

(** Whether an action verb follows an occurrence of [prefix]; the matches of
    [match_indices] do not overlap, so the search resumes after each one.
    The prefixes are not empty, so the length of the text is enough fuel. *)
Fixpoint intent_after (fuel : nat) (prefix lower : string) : bool :=
  match fuel with
  | 0 => false
  | S fuel =>
      match lower with
      | EmptyString => false
      | String _ rest =>
          match strip_prefix lower prefix with
          | Some after => action_verb_follows after || intent_after fuel prefix after
          | None => intent_after fuel prefix rest
          end
      end
  end.

Definition contains_intent_phrase (lower : string) : bool :=
  existsb (λ prefix, intent_after (String.length lower) prefix lower) PREFIXES.

Definition llm_signals_tool_intent (response : string) : bool :=
  let lower := to_lowercase (strip_code_blocks response) in
  if existsb (contains lower) EXCLUSIONS then false else contains_intent_phrase lower.

Definition SILENT_REPLY_TOKEN : string := "NO_REPLY".

Definition is_ascii_punctuation (c : Ascii.ascii) : bool :=
  let n := Ascii.N_of_ascii c in
  ((33 <=? n) && (n <=? 47) || (58 <=? n) && (n <=? 64) || (91 <=? n) && (n <=? 96)
   || (123 <=? n) && (n <=? 126))%N.

(** Every character is white space or ASCII punctuation. *)
Fixpoint only_padding (fuel : nat) (s : string) : bool :=
  match fuel, s with
  | _, EmptyString => true
  | 0, _ => false
  | S fuel, String c rest =>
      match ws_len s with
      | 0 => is_ascii_punctuation c && only_padding fuel rest
      | n => only_padding fuel (str_drop n s)
      end
  end.

Definition is_silent_reply (text : string) : bool :=
  let trimmed := trim text in
  bool_decide (trimmed = SILENT_REPLY_TOKEN)
  || starts_with trimmed SILENT_REPLY_TOKEN
     && (String.length trimmed <=? String.length SILENT_REPLY_TOKEN + 4)
     && only_padding (String.length trimmed) (str_drop (String.length SILENT_REPLY_TOKEN) trimmed).
End Intent.

Definition TOOL_INTENT_NUDGE : string :=
  "You said you would perform an action, but you did not include any tool calls."
  +:+ String (byte 10)
  ("Do NOT describe what you intend to do — actually call the tool now."
   +:+ String (byte 10) "Use the tool_calls mechanism to invoke the appropriate tool.").

(** ** The loop's types *)

Section Types.
Context {J : SerdeJson}.

Record ReasoningContext := {
  rc_messages : list ChatMessage;
  available_tools : list ToolDefinition;
  job_description : option string;
  current_state : option string;
  rc_metadata : gmap string string;
  force_text : bool;
  system_prompt : option string;
}.

Definition push_message (m : ChatMessage) (c : ReasoningContext) : ReasoningContext := {|
  rc_messages := rc_messages c ++ [m]; available_tools := available_tools c;
  job_description := job_description c; current_state := current_state c;
  rc_metadata := rc_metadata c; force_text := force_text c; system_prompt := system_prompt c |}.

Record TokenUsage := {
  tu_input : Z; tu_output : Z; tu_cache_read : Z; tu_cache_creation : Z;
}.

Inductive RespondResult :=
| RText (text : string)
| RToolCalls (tool_calls : list ToolCall) (content : option string).

Record RespondOutput := { ro_result : RespondResult; ro_usage : TokenUsage }.

Inductive LoopOutcome :=
| Response (text : string)
| Stopped
| MaxIterations
| NeedApproval (p : PendingApproval).

Inductive LoopSignal :=
| SigContinue
| SigStop
| InjectMessage (msg : string).

Inductive TextAction :=
| TextReturn (o : LoopOutcome)
| TextContinue.
End Types.
Arguments ReasoningContext : clear implicits.
Arguments ReasoningContext {J}.
Arguments RespondOutput : clear implicits.
Arguments RespondOutput {J}.
Arguments LoopOutcome : clear implicits.
Arguments LoopOutcome {J}.
Arguments TextAction : clear implicits.
Arguments TextAction {J}.

Record AgenticLoopConfig := {
  max_iterations : nat;
  enable_tool_intent_nudge : bool;
  max_tool_intent_nudges : Z;
}.

Definition loop_config_default : AgenticLoopConfig := {|
  max_iterations := 50; enable_tool_intent_nudge := true; max_tool_intent_nudges := 2 |}.

(** The trait; [D] is the delegate's state, [E] the error type. *)
Class LoopDelegate {J : SerdeJson} (D E : Type) := {
  check_signals : D → D * LoopSignal;
  before_llm_call : D → ReasoningContext → nat → D * ReasoningContext * option LoopOutcome;
  delegate_call_llm : D → ReasoningContext → nat →
    D * ReasoningContext * result RespondOutput E;
  handle_text_response : D → string → ReasoningContext → D * ReasoningContext * TextAction;
  execute_tool_calls : D → list ToolCall → option string → ReasoningContext →
    D * ReasoningContext * result (option LoopOutcome) E;
  on_tool_intent_nudge : D → string → ReasoningContext → D * ReasoningContext;
  after_iteration : D → nat → D;
}.

(** ** The loop *)

Section Loop.
Context {J : SerdeJson} {U : UnicodeCase} {D E : Type} `{!LoopDelegate D E}.
Context (config : AgenticLoopConfig).

Definition should_nudge_tool_intent (ctx : ReasoningContext) (nudges_so_far : Z) (text : string) :
    bool :=
  let nudging_enabled :=
    enable_tool_intent_nudge config && (nudges_so_far <? max_tool_intent_nudges config)%Z in
  let tools_expected := negb (bool_decide (available_tools ctx = [])) && negb (force_text ctx) in
  nudging_enabled && tools_expected && llm_signals_tool_intent text.

(** The body of the loop after the signal: it goes on with a nudge counter or
    returns. *)
Definition iteration_body (iteration : nat) (nudges : Z) (d : D) (ctx : ReasoningContext) :
    D * ReasoningContext * (Z + result LoopOutcome E) :=
  let '(d, ctx, early) := before_llm_call d ctx iteration in
  match early with
  | Some outcome => (d, ctx, inr (Ok outcome))
  | None =>
      let '(d, ctx, output) := delegate_call_llm d ctx iteration in
      match output with
      | Err e => (d, ctx, inr (Err e))
      | Ok out =>
          match ro_result out with
          | RText text =>
              if should_nudge_tool_intent ctx nudges text then
                let '(d, ctx) := on_tool_intent_nudge d text ctx in
                let ctx := push_message (msg_assistant text) ctx in
                let ctx := push_message (msg_user TOOL_INTENT_NUDGE) ctx in
                (after_iteration d iteration, ctx, inl (wrap_u32 (nudges + 1)))
              else
                let nudges := if negb (llm_signals_tool_intent text) then 0%Z else nudges in
                let '(d, ctx, action) := handle_text_response d text ctx in
                match action with
                | TextReturn outcome => (d, ctx, inr (Ok outcome))
                | TextContinue => (after_iteration d iteration, ctx, inl nudges)
                end
          | RToolCalls tool_calls content =>
              let '(d, ctx, r) := execute_tool_calls d tool_calls content ctx in
              match r with
              | Err e => (d, ctx, inr (Err e))
              | Ok (Some outcome) => (d, ctx, inr (Ok outcome))
              | Ok None => (after_iteration d iteration, ctx, inl 0%Z)
              end
          end
      end
  end.

Definition loop_iteration (iteration : nat) (nudges : Z) (d : D) (ctx : ReasoningContext) :
    D * ReasoningContext * (Z + result LoopOutcome E) :=
  let '(d, signal) := check_signals d in
  match signal with
  | SigContinue => iteration_body iteration nudges d ctx
  | SigStop => (d, ctx, inr (Ok Stopped))
  | InjectMessage msg => iteration_body iteration nudges d (push_message (msg_user msg) ctx)
  end.

Fixpoint loop_from (iterations : list nat) (nudges : Z) (d : D) (ctx : ReasoningContext) :
    D * ReasoningContext * result LoopOutcome E :=
  match iterations with
  | [] => (d, ctx, Ok MaxIterations)
  | i :: rest =>
      match loop_iteration i nudges d ctx with
      | (d, ctx, inl nudges) => loop_from rest nudges d ctx
      | (d, ctx, inr out) => (d, ctx, out)
      end
  end.

Definition run_agentic_loop (d : D) (ctx : ReasoningContext) :
    D * ReasoningContext * result LoopOutcome E :=
  loop_from (seq 1 (max_iterations config)) 0 d ctx.
End Loop.

(** ** Traces *)

Section Trace.
Context {J : SerdeJson} {U : UnicodeCase} {E : Type}.

(** The calls of the delegate and what they answered. *)
Inductive event :=
| EvSignal (s : LoopSignal)
| EvBefore (o : option LoopOutcome)
| EvLlm (iteration : nat) (r : result RespondOutput E)
| EvNudge
| EvText (a : TextAction)
| EvTools (r : result (option LoopOutcome) E)
| EvAfter (iteration : nat).

(** A delegate that also records the calls. *)
Definition traced {D} `{!LoopDelegate D E} : LoopDelegate (D * list event) E := {|
  check_signals s := let '(d, r) := check_signals s.1 in ((d, s.2 ++ [EvSignal r]), r);
  before_llm_call s ctx i := let '(d, ctx, r) := before_llm_call s.1 ctx i in
    ((d, s.2 ++ [EvBefore r]), ctx, r);
  delegate_call_llm s ctx i := let '(d, ctx, r) := delegate_call_llm s.1 ctx i in
    ((d, s.2 ++ [EvLlm i r]), ctx, r);
  handle_text_response s text ctx := let '(d, ctx, r) := handle_text_response s.1 text ctx in
    ((d, s.2 ++ [EvText r]), ctx, r);
  execute_tool_calls s calls content ctx :=
    let '(d, ctx, r) := execute_tool_calls s.1 calls content ctx in
    ((d, s.2 ++ [EvTools r]), ctx, r);
  on_tool_intent_nudge s text ctx := let '(d, ctx) := on_tool_intent_nudge s.1 text ctx in
    ((d, s.2 ++ [EvNudge]), ctx);
  after_iteration s i := (after_iteration s.1 i, s.2 ++ [EvAfter i]);
|}.

(** The answer with which an event ends the loop, if it does. *)
Definition exit_of (e : event) : option (result LoopOutcome E) :=
  match e with
  | EvSignal SigStop => Some (Ok Stopped)
  | EvBefore (Some o) => Some (Ok o)
  | EvLlm _ (Err e) => Some (Err e)
  | EvText (TextReturn o) => Some (Ok o)
  | EvTools (Err e) => Some (Err e)
  | EvTools (Ok (Some o)) => Some (Ok o)
  | _ => None
  end.

(** The iterations in which the delegate was asked for an answer of the model; a delegate may put
    more than one question to the model in such a call, as the chat delegate does after a context
    overflow. *)
Definition llm_calls (l : list event) : list nat :=
  omap (λ e, match e with EvLlm i _ => Some i | _ => None end) l.
Definition completed (l : list event) : list nat :=
  omap (λ e, match e with EvAfter i => Some i | _ => None end) l.

(** The nudges since the last tool call or reply without tool intent. *)
Definition count_nudge (n : Z) (e : event) : Z :=
  match e with
  | EvNudge => (n + 1)%Z
  | EvTools _ => 0%Z
  | EvLlm _ (Ok o) => match ro_result o with
                      | RText text => if llm_signals_tool_intent text then n else 0%Z
                      | RToolCalls _ _ => n
                      end
  | _ => n
  end.
Definition nudge_run (n : Z) (l : list event) : Z := foldl count_nudge n l.

Definition nudge_limit (config : AgenticLoopConfig) : Z :=
  if enable_tool_intent_nudge config then Z.max 0 (max_tool_intent_nudges config) else 0%Z.

(** The run stays within a limit at every point of the trace. *)
Fixpoint bounded (limit n : Z) (l : list event) : Prop :=
  (0 <= n <= limit)%Z ∧ match l with
                        | [] => True
                        | e :: l => bounded limit (count_nudge n e) l
                        end.

Lemma bounded_app limit n l1 l2 :
  bounded limit n l1 → bounded limit (nudge_run n l1) l2 → bounded limit n (l1 ++ l2).
Proof.
  revert n. induction l1 as [|e l1 IH]; intros n; simpl; [done|]. intros [? ?] ?. auto.
Qed.

Lemma bounded_prefix limit n l p :
  bounded limit n l → p `prefix_of` l → (0 <= nudge_run n p <= limit)%Z.
Proof.
  revert n p. induction l as [|e l IH]; intros n p [Hn Hl] Hp.
  - by apply prefix_nil_inv in Hp as ->.
  - destruct p as [|e' p]; [done|].
    apply prefix_cons_inv_1 in Hp as Heq. apply prefix_cons_inv_2 in Hp. subst e'.
    unfold nudge_run in *. simpl. by apply IH.
Qed.

(** What one iteration adds to the trace. *)
Definition iteration_events (config : AgenticLoopConfig) (i : nat) (n : Z) (evs : list event)
    (res : Z + result LoopOutcome E) : Prop :=
  bounded (nudge_limit config) n evs ∧
  match res with
  | inl n' => llm_calls evs = [i] ∧ completed evs = [i] ∧
              Forall (λ e, exit_of e = None) evs ∧ n' = nudge_run n evs
  | inr out => (llm_calls evs = [i] ∨ llm_calls evs = []) ∧ completed evs = [] ∧
      ∃ evs0 e, evs = evs0 ++ [e] ∧ Forall (λ e, exit_of e = None) evs0 ∧ exit_of e = Some out
  end.

Section Proofs.
Context {D : Type} `{!LoopDelegate D E} (config : AgenticLoopConfig).
Hypothesis Hmax : (max_tool_intent_nudges config <= u32_max)%Z.
#[local] Existing Instance traced | 0.

Lemma nudge_wraps ctx n text :
  (0 <= n <= nudge_limit config)%Z → should_nudge_tool_intent config ctx n text = true →
  wrap_u32 (n + 1) = (n + 1)%Z ∧ (n + 1 <= nudge_limit config)%Z ∧
  llm_signals_tool_intent text = true.
Proof.
  unfold should_nudge_tool_intent, nudge_limit. intros Hn Hs.
  apply andb_true_iff in Hs as [Hs ?]. apply andb_true_iff in Hs as [Hs _].
  apply andb_true_iff in Hs as [He Hs]. rewrite He in *. apply Z.ltb_lt in Hs.
  split_and!; [|lia|done]. apply wrap_u32_small. lia.
Qed.

(** A path of the body that adds the events [evs] and then [e], which ends
    the loop. *)
Ltac settle_exit evs e :=
  exists (evs ++ [e]); split; [by rewrite <-?app_assoc|];
  split; [simpl; repeat match goal with H : ro_result _ = _ |- _ => rewrite H end;
          repeat case_match; lia|];
  split_and!; [first [by left|by right]|done|
    exists evs, e; split_and!; [done|by repeat constructor|done]].

Lemma iteration_body_events i n d tr ctx d' tr' ctx' res :
  (0 <= n <= nudge_limit config)%Z →
  iteration_body (D := D * list event) config i n (d, tr) ctx = (d', tr', ctx', res) →
  ∃ evs, tr' = tr ++ evs ∧ iteration_events config i n evs res.
Proof.
  intros Hn. unfold iteration_body, iteration_events. cbn.
  destruct (before_llm_call d ctx i) as [[d1 ctx1] [early|]].
  { intros. simplify_eq/=. settle_exit (@nil event) (EvBefore (Some early)). }
  cbn. destruct (delegate_call_llm d1 ctx1 i) as [[d2 ctx2] [out|e]].
  2:{ intros. simplify_eq/=. settle_exit [EvBefore None] (EvLlm i (Err e)). }
  cbn. destruct (ro_result out) as [text|calls content] eqn:Hout.
  - destruct (should_nudge_tool_intent config ctx2 n text) eqn:Hs.
    + apply nudge_wraps in Hs as (Hw & Hle & Hi); [|done].
      cbn. destruct (on_tool_intent_nudge d2 text ctx2) as [d3 ctx3]. intros. simplify_eq/=.
      exists [EvBefore None; EvLlm i (Ok out); EvNudge; EvAfter i].
      split; [by rewrite <-!app_assoc|]. split; [simpl; rewrite Hout, Hi; lia|].
      unfold nudge_run. simpl. rewrite Hout, Hi.
      split_and!; [done|done|by repeat constructor|done].
    + cbn. destruct (handle_text_response d2 text ctx2) as [[d3 ctx3] [o|]]; intros; simplify_eq/=.
      * settle_exit [EvBefore None; EvLlm i (Ok out)] (EvText (TextReturn o) : event).
      * exists [EvBefore None; EvLlm i (Ok out); EvText TextContinue; EvAfter i].
        split; [by rewrite <-!app_assoc|]. split; [simpl; rewrite Hout; case_match; lia|].
        unfold nudge_run. simpl. rewrite Hout.
        split_and!; [done|done|by repeat constructor|by destruct (llm_signals_tool_intent text)].
  - cbn. destruct (execute_tool_calls d2 calls content ctx2) as [[d3 ctx3] [[o|]|e]];
      intros; simplify_eq/=.
    + settle_exit [EvBefore None; EvLlm i (Ok out)] (EvTools (Ok (Some o)) : event).
    + exists [EvBefore None; EvLlm i (Ok out); EvTools (Ok None); EvAfter i].
      split; [by rewrite <-!app_assoc|]. split; [simpl; rewrite Hout; lia|].
      unfold nudge_run. simpl. split_and!; [done|done|by repeat constructor|done].
    + settle_exit [EvBefore None; EvLlm i (Ok out)] (EvTools (Err e)).
Qed.

Lemma loop_iteration_events i n d tr ctx d' tr' ctx' res :
  (0 <= n <= nudge_limit config)%Z →
  loop_iteration (D := D * list event) config i n (d, tr) ctx = (d', tr', ctx', res) →
  ∃ evs, tr' = tr ++ evs ∧ iteration_events config i n evs res.
Proof.
  intros Hn. unfold loop_iteration. cbn.
  destruct (check_signals d) as [d1 sig].
  assert (∀ ctx1, exit_of (EvSignal sig) = None →
    iteration_body config i n (d1, tr ++ [EvSignal sig]) ctx1 = (d', tr', ctx', res) →
    ∃ evs, tr' = tr ++ evs ∧ iteration_events config i n evs res) as Hbody.
  { intros ctx1 Hsig Hb. apply iteration_body_events in Hb as (evs & -> & Hbd & Hres); [|done].
    exists (EvSignal sig :: evs). split; [by rewrite <-app_assoc|].
    split; [by split|]. destruct res as [n'|out].
    - destruct Hres as (Hl & Hc & Hf & ->). by split_and!; [..|constructor|].
    - destruct Hres as (Hl & Hc & evs0 & e & -> & Hf & He). split_and!; [done|done|].
      exists (EvSignal sig :: evs0), e. by split_and!; [|constructor|]. }
  destruct sig as [| |msg]; [by apply Hbody| |by apply Hbody].
  unfold iteration_events. intros. simplify_eq/=. settle_exit (@nil event) (EvSignal SigStop : event).
Qed.

(** ** The whole run *)

Definition run_events (first count : nat) (n : Z) (evs : list event)
    (out : result LoopOutcome E) : Prop :=
  bounded (nudge_limit config) n evs ∧
  ∃ calls dones, llm_calls evs = seq first calls ∧ completed evs = seq first dones ∧
    dones ≤ calls ≤ S dones ∧ calls ≤ count ∧
    ((dones = count ∧ out = Ok MaxIterations ∧ Forall (λ e, exit_of e = None) evs) ∨
     (dones < count ∧ ∃ evs0 e, evs = evs0 ++ [e] ∧ Forall (λ e, exit_of e = None) evs0 ∧
        exit_of e = Some out)).

Lemma loop_from_events count first n d tr ctx d' tr' ctx' out :
  (0 <= n <= nudge_limit config)%Z →
  loop_from (D := D * list event) config (seq first count) n (d, tr) ctx = (d', tr', ctx', out) →
  ∃ evs, tr' = tr ++ evs ∧ run_events first count n evs out.
Proof.
  revert first n d tr ctx. induction count as [|count IH]; intros first n d tr ctx Hn; simpl.
  { intros. simplify_eq. exists []. split; [by rewrite app_nil_r|]. split; [done|].
    exists 0, 0. split_and!; try done; try lia. left. split_and!; try done. }
  destruct (loop_iteration config first n (d, tr) ctx) as [[[d1 tr1] ctx1] res] eqn:Hit.
  apply loop_iteration_events in Hit as (evs1 & -> & Hb1 & Hres); [|done].
  destruct res as [n'|out1].
  - destruct Hres as (Hl & Hc & Hf & ->). intros Hrun.
    apply IH in Hrun as (evs2 & -> & Hb2 & calls & dones & Hl2 & Hc2 & ? & ? & Hout).
    2:{ by eapply bounded_prefix. }
    exists (evs1 ++ evs2). split; [by rewrite app_assoc|]. split; [by apply bounded_app|].
    exists (S calls), (S dones). unfold llm_calls, completed in *. rewrite !omap_app, Hl, Hc, Hl2, Hc2.
    split_and!; try done; try lia. destruct Hout as [(-> & -> & Hf2)|(? & evs0 & e & -> & Hf2 & He)].
    + left. split_and!; [done|done|by apply Forall_app_2].
    + right. split; [lia|]. exists (evs1 ++ evs0), e. rewrite app_assoc.
      split_and!; [done|by apply Forall_app_2|done].
  - intros. simplify_eq. destruct Hres as (Hl & Hc & Hexit).
    exists evs1. split; [done|]. split; [done|].
    destruct Hl as [Hl|Hl]; [exists 1, 0|exists 0, 0]; (split_and!; try done; try lia);
      right; (split; [lia|done]).
Qed.
End Proofs.

(** Recording the calls does not change the run. *)
Section Erase.
Context {D : Type} `{!LoopDelegate D E} (config : AgenticLoopConfig).

Definition untrace {R} (x : D * list event * ReasoningContext * R) : D * ReasoningContext * R :=
  (x.1.1.1, x.1.2, x.2).

Lemma iteration_body_erase i n d tr ctx :
  untrace (iteration_body (LoopDelegate0 := traced) config i n (d, tr) ctx) =
  iteration_body config i n d ctx.
Proof.
  unfold iteration_body. cbn. destruct (before_llm_call d ctx i) as [[d1 ctx1] [early|]]; [done|].
  cbn. destruct (delegate_call_llm d1 ctx1 i) as [[d2 ctx2] [out|e]]; [|done].
  cbn. destruct (ro_result out) as [text|calls content].
  - destruct (should_nudge_tool_intent config ctx2 n text); cbn.
    + by destruct (on_tool_intent_nudge d2 text ctx2).
    + by destruct (handle_text_response d2 text ctx2) as [[d3 ctx3] []].
  - cbn. by destruct (execute_tool_calls d2 calls content ctx2) as [[d3 ctx3] [[]|]].
Qed.

Lemma loop_iteration_erase i n d tr ctx :
  untrace (loop_iteration (LoopDelegate0 := traced) config i n (d, tr) ctx) =
  loop_iteration config i n d ctx.
Proof.
  unfold loop_iteration. cbn. destruct (check_signals d) as [d1 []];
    [apply iteration_body_erase|done|apply iteration_body_erase].
Qed.

Lemma loop_from_erase l n d tr ctx :
  untrace (loop_from (LoopDelegate0 := traced) config l n (d, tr) ctx) =
  loop_from config l n d ctx.
Proof.
  revert n d tr ctx. induction l as [|i l IH]; intros n d tr ctx; [done|]. cbn [loop_from].
  rewrite <-(loop_iteration_erase i n d tr ctx).
  destruct (loop_iteration config i n (d, tr) ctx) as [[[d1 tr1] ctx1] [n'|out]]; [|done].
  apply IH.
Qed.
End Erase.
End Trace.

(** ** Properties *)

(** C1. whatever the delegate does, the loop terminates.  It asks the model
    for the iterations 1, 2, ... in order, at most [max_iterations] times and
    at most once per iteration; it answers [MaxIterations] when every
    iteration was completed, and otherwise stops at the first call of the
    delegate that ends the run, with the answer of that call.  (The run is
    that of the recording delegate, which computes the same state, context
    and answer.) *)
Theorem agentic_loop_bounded {J : SerdeJson} {U : UnicodeCase} {D E : Type}
    `{!LoopDelegate D E} (config : AgenticLoopConfig) (d : D) (ctx : ReasoningContext) :
  (max_tool_intent_nudges config <= u32_max)%Z →
  ∃ d' evs ctx' out,
    run_agentic_loop (LoopDelegate0 := traced) config (d, []) ctx = (d', evs, ctx', out) ∧
    run_agentic_loop config d ctx = (d', ctx', out) ∧
    ∃ calls dones, llm_calls evs = seq 1 calls ∧ completed evs = seq 1 dones ∧
      dones ≤ calls ≤ S dones ∧ calls ≤ max_iterations config ∧
      ((dones = max_iterations config ∧ out = Ok MaxIterations ∧
        Forall (λ e, exit_of e = None) evs) ∨
       (dones < max_iterations config ∧ ∃ evs0 e, evs = evs0 ++ [e] ∧
        Forall (λ e, exit_of e = None) evs0 ∧ exit_of e = Some out)).
Proof.
  intros Hmax. unfold run_agentic_loop.
  destruct (loop_from (LoopDelegate0 := traced) config _ 0 (d, []) ctx)
    as [[[d' tr] ctx'] out] eqn:Hrun.
  exists d', tr, ctx', out. split; [done|]. split.
  { by rewrite <-(loop_from_erase config _ 0 d [] ctx), Hrun. }
  apply loop_from_events in Hrun as (evs & -> & _ & Hev); [done|done|].
  unfold nudge_limit. case_match; lia.
Qed.

(** at every point of a run, the number of nudges since the last tool
    call or reply without tool intent is at most [max_tool_intent_nudges],
    and no nudge is ever given when nudging is disabled. *)
Theorem nudges_bounded {J : SerdeJson} {U : UnicodeCase} {D E : Type}
    `{!LoopDelegate D E} (config : AgenticLoopConfig) (d d' : D) (ctx ctx' : ReasoningContext)
    (evs p : list event) (out : result LoopOutcome E) :
  (max_tool_intent_nudges config <= u32_max)%Z →
  run_agentic_loop (LoopDelegate0 := traced) config (d, []) ctx = (d', evs, ctx', out) →
  p `prefix_of` evs →
  (0 <= nudge_run 0 p <= nudge_limit config)%Z.
Proof.
  intros Hmax Hrun Hp. apply loop_from_events in Hrun as (evs' & -> & Hb & _); [|done|].
  - by eapply bounded_prefix.
  - unfold nudge_limit. case_match; lia.
Qed.

(** ** Witnesses *)

#[local] Existing Instance json_lite.
#[local] Existing Instance ascii_case.

(** A delegate that replays given replies and returns any text it is handed,
    and stops when the script has ended. *)
Definition scripted : LoopDelegate (list RespondResult) string := {|
  check_signals d := (d, if d is [] then SigStop else SigContinue);
  before_llm_call d ctx _ := (d, ctx, None);
  delegate_call_llm d ctx _ := match d with
    | [] => (d, ctx, Err "end of script")
    | r :: d => (d, ctx, Ok {| ro_result := r; ro_usage := Build_TokenUsage 0 0 0 0 |})
    end;
  handle_text_response d text ctx := (d, ctx, TextReturn (Response text));
  execute_tool_calls d _ _ ctx := (d, ctx, Ok None);
  on_tool_intent_nudge d _ ctx := (d, ctx);
  after_iteration d _ := d;
|}.
#[local] Existing Instance scripted.


Definition search_context : ReasoningContext := {|
  rc_messages := [msg_user "find it"];
  available_tools := [{| td_name := "search"; td_description := ""; td_parameters := LNull |}];
  job_description := None; current_state := None; rc_metadata := ∅; force_text := false;
  system_prompt := None |}.

Definition stubborn_script : list RespondResult :=
  [RText "Let me search for that."; RText "Let me search for that."; RText "Let me search for that.";
   RText "unused"].

(** The run: delegate with its trace, context and outcome. *)
Definition stubborn_run :=
  run_agentic_loop (LoopDelegate0 := traced) loop_config_default (stubborn_script, []) search_context.

(** The stubborn model is nudged twice; its third announcement is returned as
    the answer. *)
Lemma agentic_loop_bounded_witness :
  stubborn_run.2 = Ok (Response "Let me search for that.") ∧
  llm_calls stubborn_run.1.1.2 = [1; 2; 3] ∧ completed stubborn_run.1.1.2 = [1; 2] ∧
  length (rc_messages stubborn_run.1.2) = 5 ∧
  ∃ calls, llm_calls stubborn_run.1.1.2 = seq 1 calls ∧ calls ≤ max_iterations loop_config_default.
Proof.
  split_and!; [by vm_compute..|].
  destruct (agentic_loop_bounded loop_config_default stubborn_script search_context)
    as (d' & evs & ctx' & out & Hrun & _ & calls & dones & Hc & _ & _ & Hmax & _); [by vm_compute|].
  exists calls. unfold stubborn_run. rewrite Hrun. split; [exact Hc|exact Hmax].
Defined.

Lemma nudges_bounded_witness :
  nudge_run 0 (take 9 stubborn_run.1.1.2) = 2%Z ∧
  (0 <= nudge_run 0 (take 9 stubborn_run.1.1.2) <= nudge_limit loop_config_default)%Z.
Proof.
  split; [by vm_compute|].
  destruct stubborn_run as [[[d' evs] ctx'] out] eqn:Hrun. cbn [fst snd].
  refine (nudges_bounded loop_config_default _ _ _ _ evs (take 9 evs) _ _ Hrun _).
  - by vm_compute.
  - exists (drop 9 evs). by rewrite take_drop.
Defined.
