(* ===== verification/Hooks.v ===== *)
(** * Lifecycle hooks

    Models [src/src/hooks/hook.rs] (events, outcomes, errors and the [Hook]
    trait) and [src/src/hooks/registry.rs] (registration by name and
    priority, and the chain that runs the hooks of an event).

    The trait is a type class over the type [H] of hooks; running one changes
    a world [W] and either finishes within the hook's timeout or does not.
    The registry's list sits behind a lock that every operation takes once,
    except [run], which copies the matching hooks and releases it. *)

From S2P Require Import Prelude Text Externals.

Inductive HookPoint :=
| BeforeInbound | BeforeToolCall | BeforeOutbound | OnSessionStart | OnSessionEnd
| TransformResponse.

#[export] Instance hook_point_eq_dec : EqDecision HookPoint.
Proof. solve_decision. Defined.

Definition hook_point_str (p : HookPoint) : string :=
  match p with
  | BeforeInbound => "beforeInbound"
  | BeforeToolCall => "beforeToolCall"
  | BeforeOutbound => "beforeOutbound"
  | OnSessionStart => "onSessionStart"
  | OnSessionEnd => "onSessionEnd"
  | TransformResponse => "transformResponse"
  end.

Inductive HookOutcome :=
| HookContinue (modified : option string)
| HookReject (reason : string).

Definition outcome_ok : HookOutcome := HookContinue None.
Definition outcome_modify (value : string) : HookOutcome := HookContinue (Some value).
Definition outcome_reject (reason : string) : HookOutcome := HookReject reason.

Inductive HookFailureMode := FailOpen | FailClosed.

Inductive HookError :=
| ExecutionFailed (reason : string)
| HookTimedOut (timeout : Duration)
| HookRejected (reason : string).

(** [{:?}] of a [Duration]: the largest unit that is not zero, with the
    rest as a fraction without trailing zeros. *)
Fixpoint fraction_digits (digits : nat) (n : Z) : string :=
  match digits with
  | 0 => ""
  | S digits =>
      if (n =? 0)%Z then ""
      else pretty (n / 10 ^ Z.of_nat digits)%Z
           +:+ fraction_digits digits (n mod 10 ^ Z.of_nat digits)%Z
  end.

Definition decimal (int frac : Z) (digits : nat) (unit : string) : string :=
  pretty int +:+ (if (frac =? 0)%Z then "" else "." +:+ fraction_digits digits frac) +:+ unit.

Definition duration_debug (d : Duration) : string :=
  let nanos := (d mod 1000000000)%Z in
  if (0 <? d / 1000000000)%Z then decimal (d / 1000000000) nanos 9 "s"
  else if (1000000 <=? nanos)%Z then decimal (nanos / 1000000) (nanos mod 1000000) 6 "ms"
  else if (1000 <=? nanos)%Z then decimal (nanos / 1000) (nanos mod 1000) 3 "µs"
  else decimal nanos 0 1 "ns".

Definition hook_error_display (e : HookError) : string :=
  match e with
  | ExecutionFailed reason => "Hook execution failed: " +:+ reason
  | HookTimedOut d => "Hook timed out after " +:+ duration_debug d
  | HookRejected reason => "Hook rejected: " +:+ reason
  end.

Section Events.
Context {J : SerdeJson}.

Inductive HookEvent :=
| EvInbound (user_id channel content : string) (thread_id : option string)
| EvToolCall (tool_name : string) (parameters : json) (user_id context : string)
| EvOutbound (user_id channel content : string) (thread_id : option string)
| EvSessionStart (user_id session_id : string)
| EvSessionEnd (user_id session_id : string)
| EvResponseTransform (user_id thread_id response : string).

Definition hook_point (e : HookEvent) : HookPoint :=
  match e with
  | EvInbound _ _ _ _ => BeforeInbound
  | EvToolCall _ _ _ _ => BeforeToolCall
  | EvOutbound _ _ _ _ => BeforeOutbound
  | EvSessionStart _ _ => OnSessionStart
  | EvSessionEnd _ _ => OnSessionEnd
  | EvResponseTransform _ _ _ => TransformResponse
  end.

(** A replacement of tool parameters that is not JSON is ignored. *)
Definition apply_modification (modified : string) (e : HookEvent) : HookEvent :=
  match e with
  | EvInbound u c _ t => EvInbound u c modified t
  | EvOutbound u c _ t => EvOutbound u c modified t
  | EvToolCall n p u x => EvToolCall n (default p (json_from_str modified)) u x
  | EvResponseTransform u t _ => EvResponseTransform u t modified
  | EvSessionStart _ _ | EvSessionEnd _ _ => e
  end.

Definition extract_content (e : HookEvent) : string :=
  match e with
  | EvInbound _ _ content _ | EvOutbound _ _ content _ => content
  | EvToolCall _ parameters _ _ => json_to_string parameters
  | EvResponseTransform _ _ response => response
  | EvSessionStart _ session_id | EvSessionEnd _ session_id => session_id
  end.

Record HookContext := { hook_metadata : json }.
Definition hook_context_default : HookContext := {| hook_metadata := JNull |}.
End Events.
Arguments HookEvent : clear implicits.
Arguments HookEvent {J}.
Arguments HookContext : clear implicits.
Arguments HookContext {J}.

(** The trait.  [execute] answers [None] when the hook has not finished
    after [hook_timeout]. *)
Class Hook {J : SerdeJson} (W H : Type) := {
  hook_name : H → string;
  hook_points : H → list HookPoint;
  failure_mode : H → HookFailureMode;
  hook_timeout : H → Duration;
  execute : H → HookEvent → HookContext → W → W * option (result HookOutcome HookError);
}.

(** The defaults of the trait's provided methods. *)
Definition default_failure_mode : HookFailureMode := FailOpen.
Definition default_timeout : Duration := secs 5.

Record HookEntry (H : Type) := { entry_hook : H; entry_priority : Z }.
Arguments entry_hook {H}.
Arguments entry_priority {H}.
Abbreviation HookRegistry H := (list (HookEntry H)).

Section Registry.
Context {J : SerdeJson} {W H : Type} `{!Hook W H}.

Implicit Types r : HookRegistry H.

Definition registry_new : HookRegistry H := [].

Definition entry_name (e : HookEntry H) : string := hook_name (W := W) (entry_hook e).

Definition register_with_priority (h : H) (priority : Z) (r : HookRegistry H) : HookRegistry H :=
  let r := match position (λ e, bool_decide (entry_name e = hook_name (W := W) h)) r with
           | Some i => <[i := {| entry_hook := h; entry_priority := priority |}]> r
           | None => r ++ [{| entry_hook := h; entry_priority := priority |}]
           end in
  sort_by_key entry_priority r.

Definition register (h : H) (r : HookRegistry H) : HookRegistry H := register_with_priority h 100 r.

Definition unregister (name : string) (r : HookRegistry H) : HookRegistry H * bool :=
  let r' := filter (λ e, entry_name e ≠ name) r in
  (r', length r' <? length r).

Definition hook_list (r : HookRegistry H) : list string := entry_name <$> r.

Definition matching_hooks (point : HookPoint) (r : HookRegistry H) : list H :=
  entry_hook <$> filter (λ e, point ∈ hook_points (W := W) (entry_hook e)) r.

(** The loop over the matching hooks. *)
Fixpoint run_hooks (hooks : list H) (current : HookEvent) (w : W) :
    W * result HookEvent HookError :=
  match hooks with
  | [] => (w, Ok current)
  | h :: hooks =>
      let '(w, res) := execute h current hook_context_default w in
      match res with
      | Some (Ok (HookReject reason)) => (w, Err (HookRejected reason))
      | Some (Ok (HookContinue (Some value))) =>
          run_hooks hooks (apply_modification value current) w
      | Some (Ok (HookContinue None)) => run_hooks hooks current w
      | Some (Err err) =>
          match failure_mode (W := W) h with
          | FailOpen => run_hooks hooks current w
          | FailClosed =>
              (w, Err (ExecutionFailed ("Hook '" +:+ hook_name (W := W) h +:+ "' failed: "
                                        +:+ hook_error_display err)))
          end
      | None =>
          match failure_mode (W := W) h with
          | FailOpen => run_hooks hooks current w
          | FailClosed => (w, Err (HookTimedOut (hook_timeout (W := W) h)))
          end
      end
  end.

Definition run (r : HookRegistry H) (event : HookEvent) (w : W) : W * result HookOutcome HookError :=
  match matching_hooks (hook_point event) r with
  | [] => (w, Ok outcome_ok)
  | matching =>
      match run_hooks matching event w with
      | (w, Err e) => (w, Err e)
      | (w, Ok current) =>
          let modified := extract_content current in
          let original := extract_content event in
          (w, Ok (if bool_decide (modified ≠ original) then outcome_modify modified
                  else outcome_ok))
      end
  end.
End Registry.

(** ** The registry as a map

    Abstractly the registry is a map from names to hooks with a priority. *)

Section Refinement.
Context {J : SerdeJson} {W H : Type} `{!Hook W H}.
Local Abbreviation name_of := (entry_name (W := W) (H := H)).

Inductive RegistryOp :=
| OpRegister (h : H) (priority : Z)
| OpUnregister (name : string).

Definition apply_op (r : HookRegistry H) (op : RegistryOp) : HookRegistry H :=
  match op with
  | OpRegister h p => register_with_priority (W := W) h p r
  | OpUnregister name => (unregister (W := W) name r).1
  end.

Definition apply_abs (m : gmap string (HookEntry H)) (op : RegistryOp) :
    gmap string (HookEntry H) :=
  match op with
  | OpRegister h p => <[hook_name (W := W) h := {| entry_hook := h; entry_priority := p |}]> m
  | OpUnregister name => delete name m
  end.

Definition registry_inv (r : HookRegistry H) (m : gmap string (HookEntry H)) : Prop :=
  NoDup (name_of <$> r) ∧ sorted_by entry_priority r ∧
  ∀ e, e ∈ r ↔ m !! name_of e = Some e.

Lemma NoDup_names_eq (r : list (HookEntry H)) e e' :
  NoDup (name_of <$> r) → e ∈ r → e' ∈ r → name_of e = name_of e' → e = e'.
Proof.
  induction r as [|x r IH]; [by intros _ ?%elem_of_nil|].
  cbn. intros [Hx Hr]%NoDup_cons He He' Heq.
  apply elem_of_cons in He as [->|He]; apply elem_of_cons in He' as [->|He']; try done;
    [..|by apply IH].
  - destruct Hx. rewrite Heq. by apply list_elem_of_fmap_2.
  - destruct Hx. rewrite <-Heq. by apply list_elem_of_fmap_2.
Qed.

(** Replacing the entry of the same name, or adding one. *)
Lemma registry_inv_put r m h p :
  registry_inv r m →
  let e := {| entry_hook := h; entry_priority := p |} in
  let r' := match position (λ x, bool_decide (name_of x = name_of e)) r with
            | Some i => <[i := e]> r
            | None => r ++ [e]
            end in
  NoDup (name_of <$> r') ∧ ∀ x, x ∈ r' ↔ <[name_of e := e]> m !! name_of x = Some x.
Proof.
  intros (Hnd & _ & Hm) e r'. subst r'.
  destruct (position _ r) as [i|] eqn:Hpos.
  - apply position_Some in Hpos as (x & Hx & Hn). apply bool_decide_eq_true in Hn.
    assert (name_of <$> <[i := e]> r = name_of <$> r) as Heq.
    { rewrite list_fmap_insert. apply list_insert_id.
      rewrite list_lookup_fmap, Hx. simpl. by f_equal. }
    rewrite Heq. split; [done|]. intros y. destruct (decide (name_of y = name_of e)) as [Hy|Hy].
    + rewrite Hy, lookup_insert_eq. split; [|intros [= ->]].
      * intros Hin. f_equal. rewrite <-Heq in Hnd. symmetry.
        apply (NoDup_names_eq _ _ _ Hnd Hin); [|done].
        apply list_elem_of_lookup. exists i. apply list_lookup_insert_eq.
        by eapply lookup_lt_Some.
      * apply list_elem_of_lookup. exists i. apply list_lookup_insert_eq.
        by eapply lookup_lt_Some.
    + rewrite lookup_insert_ne by congruence. rewrite <-Hm. rewrite !list_elem_of_lookup.
      split; intros [j Hj]; exists j.
      * destruct (decide (i = j)) as [->|]; [|by rewrite list_lookup_insert_ne in Hj].
        rewrite list_lookup_insert_eq in Hj by (by eapply lookup_lt_Some). simplify_eq.
      * rewrite list_lookup_insert_ne; [done|]. intros ->. simplify_eq.
  - pose proof (position_None _ _ Hpos) as Hno. split.
    + rewrite fmap_app. apply NoDup_app. split_and!; [done| |apply NoDup_singleton].
      intros n Hn He. apply list_elem_of_singleton in He as ->.
      apply list_elem_of_fmap in Hn as (y & Hy & Hin).
      apply Hno in Hin. apply bool_decide_eq_false in Hin. congruence.
    + intros x. rewrite elem_of_app, list_elem_of_singleton, Hm.
      destruct (decide (name_of x = name_of e)) as [Hx|Hx].
      * rewrite Hx, lookup_insert_eq. split; [|intros [= ->]; by right].
        intros [Hin| ->]; [|done]. rewrite <-Hx in Hin. apply Hm, Hno in Hin.
        apply bool_decide_eq_false in Hin. done.
      * rewrite lookup_insert_ne by congruence. split; [|by left]. by intros [?| ->].
Qed.

Lemma registry_inv_op r m op : registry_inv r m → registry_inv (apply_op r op) (apply_abs m op).
Proof.
  intros Hinv. destruct op as [h p|name]; simpl.
  - destruct (registry_inv_put r m h p Hinv) as [Hnd Hm].
    unfold register_with_priority. split_and!.
    + by rewrite sort_by_key_perm.
    + apply sort_by_key_sorted.
    + intros e. rewrite sort_by_key_perm. apply Hm.
  - destruct Hinv as (Hnd & Hs & Hm). split_and!.
    + clear Hs Hm. simpl. induction r as [|x r IH]; [done|]. rewrite filter_cons.
      cbn in Hnd. apply NoDup_cons in Hnd as [Hx Hnd]. case_decide; [|by apply IH].
      cbn. apply NoDup_cons. split; [|by apply IH]. intros Hin. apply Hx.
      apply list_elem_of_fmap in Hin as (y & -> & Hy). apply list_elem_of_filter in Hy as [_ Hy].
      by apply list_elem_of_fmap_2.
    + by apply sorted_by_filter.
    + intros e. simpl. rewrite list_elem_of_filter, Hm. destruct (decide (name_of e = name)) as [<-|Hne].
      * rewrite lookup_delete_eq. naive_solver.
      * rewrite lookup_delete_ne by congruence. naive_solver.
Qed.

(** The map only holds entries under their own name. *)
Lemma registry_names ops name e :
  foldl apply_abs ∅ ops !! name = Some e → name_of e = name.
Proof.
  assert (∀ m, (∀ n e, m !! n = Some e → name_of e = n) →
    ∀ n e, foldl apply_abs m ops !! n = Some e → name_of e = n) as Hgen.
  { induction ops as [|op ops IH]; intros m Hm; simpl; [done|]. apply IH. intros n x.
    destruct op as [h p|nm]; simpl.
    - intros [[<- <-]|[_ ?]]%lookup_insert_Some; [done|by apply Hm].
    - intros [_ ?]%lookup_delete_Some. by apply Hm. }
  apply Hgen. intros n x. by rewrite lookup_empty.
Qed.

Lemma registry_inv_run ops :
  registry_inv (foldl apply_op registry_new ops) (foldl apply_abs ∅ ops).
Proof.
  assert (registry_inv registry_new ∅) as Hi.
  { split_and!; [constructor|constructor|]. intros e. rewrite lookup_empty.
    split; [by intros ?%elem_of_nil|done]. }
  revert Hi. generalize (registry_new (H := H)), (∅ : gmap string (HookEntry H)).
  induction ops as [|op ops IH]; intros r m Hi; simpl; [done|]. by apply IH, registry_inv_op.
Qed.
End Refinement.

(** ** The chain of hooks *)

Section Chain.
Context {J : SerdeJson} {W H : Type} `{!Hook W H}.

(** The error with which the answer of a hook ends the chain, if it does. *)
Definition veto (h : H) (answer : option (result HookOutcome HookError)) : option HookError :=
  match answer, failure_mode (W := W) h with
  | Some (Ok (HookReject reason)), _ => Some (HookRejected reason)
  | Some (Err err), FailClosed =>
      Some (ExecutionFailed ("Hook '" +:+ hook_name (W := W) h +:+ "' failed: "
                             +:+ hook_error_display err))
  | None, FailClosed => Some (HookTimedOut (hook_timeout (W := W) h))
  | _, _ => None
  end.

(** The event the next hook sees. *)
Definition edit (answer : option (result HookOutcome HookError)) (e : HookEvent) : HookEvent :=
  match answer with
  | Some (Ok (HookContinue (Some value))) => apply_modification value e
  | _ => e
  end.

(** [passed hooks e w e' w']: the hooks ran one after the other, none of them
    vetoed, and led from the event [e] in the world [w] to [e'] in [w']. *)
Inductive passed : list H → HookEvent → W → HookEvent → W → Prop :=
| passed_nil e w : passed [] e w e w
| passed_cons h hooks e w answer w1 e' w' :
    execute h e hook_context_default w = (w1, answer) → veto h answer = None →
    passed hooks (edit answer e) w1 e' w' →
    passed (h :: hooks) e w e' w'.

(** What a hook cannot change: the kind of the event and who it is about. *)
Definition envelope (e : HookEvent) : HookPoint * list string * option string :=
  (hook_point e,
   match e with
   | EvInbound u c _ _ | EvOutbound u c _ _ => [u; c]
   | EvToolCall n _ u x => [n; u; x]
   | EvSessionStart u s | EvSessionEnd u s => [u; s]
   | EvResponseTransform u t _ => [u; t]
   end,
   match e with EvInbound _ _ _ t | EvOutbound _ _ _ t => t | _ => None end).

Lemma edit_envelope answer e : envelope (edit answer e) = envelope e.
Proof. by destruct answer as [[[[v|]|]|]|], e. Qed.

Lemma passed_envelope hooks e w e' w' : passed hooks e w e' w' → envelope e' = envelope e.
Proof. induction 1 as [|h hooks e w a w1 e' w' _ _ _ IH]; [done|]. by rewrite IH, edit_envelope. Qed.

Lemma run_hooks_step h hooks e w :
  run_hooks (h :: hooks) e w =
  let '(w1, answer) := execute h e hook_context_default w in
  match veto h answer with
  | Some err => (w1, Err err)
  | None => run_hooks hooks (edit answer e) w1
  end.
Proof.
  simpl. unfold veto, edit. destruct (execute h e hook_context_default w) as [w1 answer].
  destruct answer as [[[[]|]|]|], (failure_mode h); done.
Qed.

Lemma run_hooks_spec hooks e w w' r :
  run_hooks hooks e w = (w', r) →
  match r with
  | Ok e' => passed hooks e w e' w'
  | Err err => ∃ before h after e1 w1 answer, hooks = before ++ h :: after ∧
      passed before e w e1 w1 ∧
      execute h e1 hook_context_default w1 = (w', answer) ∧ veto h answer = Some err
  end.
Proof.
  revert e w. induction hooks as [|h hooks IH]; intros e w.
  { simpl. intros [= <- <-]. constructor. }
  rewrite run_hooks_step. destruct (execute h e hook_context_default w) as [w1 answer] eqn:Hex.
  destruct (veto h answer) as [err|] eqn:Hv.
  - intros [= <- <-]. exists [], h, hooks, e, w, answer. split_and!; [done|constructor|done|done].
  - intros Hrun. apply IH in Hrun. destruct r as [e'|err].
    + by econstructor.
    + destruct Hrun as (before & h' & after & e1 & w2 & a2 & -> & Hp & Hex2 & Hv2).
      exists (h :: before), h', after, e1, w2, a2. split_and!; [done|by econstructor|done|done].
Qed.
End Chain.

(** ** Properties *)

(** Whatever is registered and unregistered, in whatever order, the
    registry implements a map from names to hooks: it holds one entry per
    name, the one registered last under that name, in the order of their
    priorities; entries of equal priority that are already there keep their
    order when another hook is added, and [unregister] reports whether the
    name was there. *)
Theorem hook_registry_refines_map {J : SerdeJson} {W H : Type} `{!Hook W H} (ops : list RegistryOp) :
  let r := foldl (apply_op (W := W) (H := H)) registry_new ops in
  let m := foldl (apply_abs (W := W)) ∅ ops in
  NoDup (hook_list (W := W) r) ∧ sorted_by entry_priority r ∧
  (∀ e, e ∈ r ↔ m !! entry_name (W := W) e = Some e) ∧
  (∀ name, (unregister (W := W) name r).2 = true ↔ is_Some (m !! name)) ∧
  (∀ h p k, hook_name (W := W) h ∉ hook_list (W := W) r →
     filter (λ e, entry_priority e = k) (register_with_priority (W := W) h p r) =
     filter (λ e, entry_priority e = k) r ++
       (if decide (p = k) then [{| entry_hook := h; entry_priority := p |}] else [])).
Proof.
  intros r m. destruct (registry_inv_run (W := W) ops) as (Hnd & Hs & Hm).
  split_and!; [done..| |].
  - intros name. simpl. rewrite Nat.ltb_lt. split.
    + intros Hlt. destruct (m !! name) as [e|] eqn:E; [done|].
      rewrite list_filter_all in Hlt; [lia|]. intros e He <-. apply Hm in He. subst m. congruence.
    + intros [e He]. assert (entry_name (W := W) e = name) as Hn by (by eapply registry_names).
      apply length_filter_lt with e; [|by intros []]. apply Hm. by rewrite Hn.
  - intros h p k Hnew. unfold register_with_priority.
    destruct (position _ r) as [i|] eqn:Hpos.
    { apply position_Some in Hpos as (x & Hx & Hn). apply bool_decide_eq_true in Hn.
      destruct Hnew. rewrite <-Hn. apply list_elem_of_fmap_2. by eapply list_elem_of_lookup_2. }
    by rewrite sort_by_key_stable, filter_app, filter_cons, filter_nil.
Qed.

(** C18. The chain of hooks of an event, exactly.  The hooks registered for
    its point run in order, each on the event as edited by those before it;
    the first veto ends the chain with its error (a rejection, or a failure
    or a timeout of a hook that fails closed), and later hooks do not run.
    Without a veto the answer is the edited content, if it changed.  No hook
    changes the kind of the event or who it is about. *)
Theorem hook_chain_exact {J : SerdeJson} {W H : Type} `{!Hook W H}
    (r : HookRegistry H) (event : HookEvent) (w w' : W) (out : result HookOutcome HookError)
    (Hrun : run r event w = (w', out)) :
  let hooks := matching_hooks (W := W) (hook_point event) r in
  match out with
  | Ok answer => ∃ e', passed hooks event w e' w' ∧ envelope e' = envelope event ∧
      answer = (if decide (extract_content e' = extract_content event) then HookContinue None
                else HookContinue (Some (extract_content e')))
  | Err err => ∃ before h after e1 w1 answer, hooks = before ++ h :: after ∧
      passed before event w e1 w1 ∧ envelope e1 = envelope event ∧
      execute h e1 hook_context_default w1 = (w', answer) ∧ veto (W := W) h answer = Some err
  end.
Proof.
  intros hooks. unfold run in Hrun. fold hooks in Hrun.
  assert ((w', out) = match run_hooks hooks event w with
    | (w, Err e) => (w, Err e)
    | (w, Ok current) => (w, Ok (if bool_decide (extract_content current ≠ extract_content event)
        then outcome_modify (extract_content current) else outcome_ok))
    end) as Hout.
  { destruct hooks; [|done]. simpl. simplify_eq. by rewrite bool_decide_eq_false_2 by auto. }
  clear Hrun. destruct (run_hooks hooks event w) as [w1 [e'|err]] eqn:Hrun;
    injection Hout as -> ->; apply run_hooks_spec in Hrun.
  - exists e'. split_and!; [done|by eapply passed_envelope|].
    case_decide; case_bool_decide; done.
  - destruct Hrun as (before & h & after & e1 & w2 & a & -> & Hp & Hex & Hv).
    exists before, h, after, e1, w2, a. split_and!; try done. by eapply passed_envelope.
Qed.

(** ** Witness *)

(** Hooks with a fixed answer that log their name. *)
Record FixedHook := {
  fh_name : string; fh_mode : HookFailureMode; fh_answer : option (result HookOutcome HookError) }.

Definition fixed_hook {J : SerdeJson} : Hook (list string) FixedHook := {|
  hook_name := fh_name; hook_points := λ _, [BeforeInbound]; failure_mode := fh_mode;
  hook_timeout := λ _, secs 5;
  execute := λ h _ _ log, (log ++ [fh_name h], fh_answer h) |}.

#[local] Existing Instance json_lite.
#[local] Existing Instance fixed_hook.

Definition demo_registry : HookRegistry FixedHook :=
  register_with_priority (W := list string)
    {| fh_name := "last"; fh_mode := FailOpen; fh_answer := Some (Ok outcome_ok) |} 300
  (register_with_priority (W := list string)
    {| fh_name := "strict"; fh_mode := FailClosed; fh_answer := None |} 200
  (register_with_priority (W := list string)
    {| fh_name := "edit"; fh_mode := FailOpen; fh_answer := Some (Ok (outcome_modify "hi")) |} 50
  (register (W := list string)
    {| fh_name := "lenient"; fh_mode := FailOpen; fh_answer := None |} registry_new))).

(** The lenient hook's timeout is ignored, the strict one's ends the chain. *)
Lemma hook_chain_exact_witness :
  run demo_registry (EvInbound "u" "repl" "hello" None) [] =
    (["edit"; "lenient"; "strict"], Err (HookTimedOut (secs 5))) ∧
  ∃ before h after, matching_hooks (W := list string) BeforeInbound demo_registry =
    before ++ h :: after ∧ fh_name h = "strict".
Proof.
  assert (run demo_registry (EvInbound "u" "repl" "hello" None) [] =
    (["edit"; "lenient"; "strict"], Err (HookTimedOut (secs 5)))) as Hrun by reflexivity.
  split; [exact Hrun|].
  destruct (hook_chain_exact _ _ _ _ _ Hrun) as (b & h & a & e1 & w1 & ans & Hh & _ & _ & Hex & _).
  exists b, h, a. split; [exact Hh|]. cbn in Hex. injection Hex as Hlog _.
  change ["edit"; "lenient"; "strict"] with (["edit"; "lenient"] ++ ["strict"]) in Hlog.
  by apply app_inj_tail in Hlog as [_ ->].
Defined.
