(* ===== verification/NetPolicy.v ===== *)
(** * Network policy of outbound webhooks

    Models [src/src/hooks/bundled/net_policy.rs]: which URLs, hosts, headers
    and addresses an outbound webhook may use, and the resolution of its
    host with every address screened and pinned.

    Addresses are those of [std::net]: an IPv4 address is four octets, an
    IPv6 address eight 16-bit segments.  The URL parser, the header types,
    the resolver and the HTTP client are parameters; the textual form of
    addresses ([FromStr] of [IpAddr]) is modelled. *)

From S2P Require Import Prelude Text Allowlist.

(** ** Addresses *)

Record Ipv4Addr := { v4_a : Z; v4_b : Z; v4_c : Z; v4_d : Z }.
Definition Ipv6Addr : Type := list Z.

Inductive IpAddr := V4 (a : Ipv4Addr) | V6 (a : Ipv6Addr).

Definition segment (a : Ipv6Addr) (i : nat) : Z := default 0%Z (a !! i).

(** The predicates of the standard library. *)
Definition is_private (a : Ipv4Addr) : bool :=
  (v4_a a =? 10)%Z || (v4_a a =? 172)%Z && (16 <=? v4_b a)%Z && (v4_b a <=? 31)%Z
  || (v4_a a =? 192)%Z && (v4_b a =? 168)%Z.
Definition is_loopback (a : Ipv4Addr) : bool := (v4_a a =? 127)%Z.
Definition is_link_local (a : Ipv4Addr) : bool := (v4_a a =? 169)%Z && (v4_b a =? 254)%Z.
Definition is_unspecified (a : Ipv4Addr) : bool :=
  (v4_a a =? 0)%Z && (v4_b a =? 0)%Z && (v4_c a =? 0)%Z && (v4_d a =? 0)%Z.
Definition is_broadcast (a : Ipv4Addr) : bool :=
  (v4_a a =? 255)%Z && (v4_b a =? 255)%Z && (v4_c a =? 255)%Z && (v4_d a =? 255)%Z.
Definition is_documentation (a : Ipv4Addr) : bool :=
  (v4_a a =? 192)%Z && (v4_b a =? 0)%Z && (v4_c a =? 2)%Z
  || (v4_a a =? 198)%Z && (v4_b a =? 51)%Z && (v4_c a =? 100)%Z
  || (v4_a a =? 203)%Z && (v4_b a =? 0)%Z && (v4_c a =? 113)%Z.
Definition is_multicast (a : Ipv4Addr) : bool := (224 <=? v4_a a)%Z && (v4_a a <=? 239)%Z.

Definition v6_is_loopback (a : Ipv6Addr) : bool := bool_decide (a = [0; 0; 0; 0; 0; 0; 0; 1]%Z).
Definition v6_is_unspecified (a : Ipv6Addr) : bool := bool_decide (a = [0; 0; 0; 0; 0; 0; 0; 0]%Z).
Definition v6_is_unique_local (a : Ipv6Addr) : bool := (Z.land (segment a 0) 0xfe00 =? 0xfc00)%Z.
Definition v6_is_unicast_link_local (a : Ipv6Addr) : bool :=
  (Z.land (segment a 0) 0xffc0 =? 0xfe80)%Z.
Definition v6_is_multicast (a : Ipv6Addr) : bool := (Z.shiftr (segment a 0) 8 =? 0xff)%Z.

(** ** The policy on addresses *)

Definition is_nonpublic_ipv4_class (v4 : Ipv4Addr) : bool :=
  let internal := is_private v4 || is_loopback v4 in
  let local := is_link_local v4 || is_unspecified v4 in
  let special := is_broadcast v4 || is_documentation v4 in
  let scoped := internal || local in
  let reserved := special || is_multicast v4 in
  scoped || reserved.

Definition is_forbidden_ipv4 (v4 : Ipv4Addr) : bool :=
  if is_nonpublic_ipv4_class v4 then true
  else if (v4_a v4 =? 100)%Z && ((64 <=? v4_b v4)%Z && (v4_b v4 <=? 127)%Z) then true
  else if (v4_a v4 =? 198)%Z && ((v4_b v4 =? 18)%Z || (v4_b v4 =? 19)%Z) then true
  else false.

Definition ipv6_mapped_ipv4 (v6 : Ipv6Addr) : option Ipv4Addr :=
  if bool_decide (take 5 v6 = [0; 0; 0; 0; 0]%Z) && (segment v6 5 =? 0xffff)%Z then
    Some {| v4_a := Z.land (Z.shiftr (segment v6 6) 8) 0xff; v4_b := Z.land (segment v6 6) 0xff;
            v4_c := Z.land (Z.shiftr (segment v6 7) 8) 0xff; v4_d := Z.land (segment v6 7) 0xff |}
  else None.

Definition is_link_or_multicast_ipv6 (v6 : Ipv6Addr) : bool :=
  let local := v6_is_unique_local v6 || v6_is_unicast_link_local v6 in
  local || v6_is_multicast v6.

Definition is_local_scope_ipv6 (v6 : Ipv6Addr) : bool :=
  let unbound := v6_is_loopback v6 || v6_is_unspecified v6 in
  unbound || is_link_or_multicast_ipv6 v6.

Definition is_forbidden_ip (ip : IpAddr) : bool :=
  match ip with
  | V4 v4 => is_forbidden_ipv4 v4
  | V6 v6 =>
      match ipv6_mapped_ipv4 v6 with
      | Some mapped => is_forbidden_ipv4 mapped
      | None =>
          if is_local_scope_ipv6 v6 then true
          else (segment v6 0 =? 0x2001)%Z && (segment v6 1 =? 0x0db8)%Z
      end
  end.

(** ** Parsing addresses

    [FromStr] of [IpAddr]: each reader takes the text from the cursor on and
    returns its value and the rest. *)

Definition to_digit (radix : Z) (c : Ascii.ascii) : option Z :=
  let n := Z.of_N (Ascii.N_of_ascii c) in
  let d := if (48 <=? n)%Z && (n <=? 57)%Z then (n - 48)%Z
           else if (97 <=? n)%Z && (n <=? 122)%Z then (n - 87)%Z
           else if (65 <=? n)%Z && (n <=? 90)%Z then (n - 55)%Z else radix in
  if (d <? radix)%Z then Some d else None.

Fixpoint read_digits (radix max : Z) (room : nat) (acc : Z) (count : nat) (s : string) {struct s} :
    option (Z * nat * string) :=
  match s with
  | String c s' =>
      match to_digit radix c, room with
      | None, _ => Some (acc, count, s)
      | Some _, 0 => None
      | Some d, S room =>
          let acc := (acc * radix + d)%Z in
          if (max <? acc)%Z then None else read_digits radix max room acc (S count) s'
      end
  | EmptyString => Some (acc, count, s)
  end.

Definition read_number (radix max : Z) (max_digits : nat) (allow_zero_prefix : bool) (s : string) :
    option (Z * string) :=
  let has_leading_zero := starts_with s "0" in
  match read_digits radix max max_digits 0 0 s with
  | None => None
  | Some (n, digit_count, rest) =>
      if digit_count =? 0 then None
      else if negb allow_zero_prefix && has_leading_zero && (1 <? digit_count) then None
      else Some (n, rest)
  end.

Definition read_separator {A} (sep : string) (index : nat) (inner : string → option (A * string))
    (s : string) : option (A * string) :=
  if index =? 0 then inner s
  else match strip_prefix s sep with Some s => inner s | None => None end.

Definition read_octet : string → option (Z * string) := read_number 10 255 3 false.

Definition read_ipv4_addr (s : string) : option (Ipv4Addr * string) :=
  match read_octet s with
  | Some (a, s) =>
      match read_separator "." 1 read_octet s with
      | Some (b, s) =>
          match read_separator "." 2 read_octet s with
          | Some (c, s) =>
              match read_separator "." 3 read_octet s with
              | Some (d, s) => Some ({| v4_a := a; v4_b := b; v4_c := c; v4_d := d |}, s)
              | None => None
              end
          | None => None
          end
      | None => None
      end
  | None => None
  end.

(** [read_groups] from index [i] on, with [room] slots left: the segments,
    whether they end in an IPv4 address, and the rest. *)
Fixpoint read_groups (room i : nat) (s : string) : list Z * bool * string :=
  match room with
  | 0 => ([], false, s)
  | S room' =>
      let ipv4 := if 1 <? room then read_separator ":" i read_ipv4_addr s else None in
      match ipv4 with
      | Some (a, s) => ([v4_a a * 256 + v4_b a; v4_c a * 256 + v4_d a]%Z, true, s)
      | None =>
          match read_separator ":" i (read_number 16 65535 4 true) s with
          | Some (g, s) =>
              let '(gs, v4, s) := read_groups room' (S i) s in (g :: gs, v4, s)
          | None => ([], false, s)
          end
      end
  end.

Definition read_ipv6_addr (s : string) : option (Ipv6Addr * string) :=
  let '(head, head_ipv4, s) := read_groups 8 0 s in
  if length head =? 8 then Some (head, s)
  else if head_ipv4 then None
  else match strip_prefix s "::" with
       | None => None
       | Some s =>
           let '(tail, _, s) := read_groups (8 - (length head + 1)) 0 s in
           Some (head ++ replicate (8 - length head - length tail) 0%Z ++ tail, s)
       end.

(** [parse::<IpAddr>()]; all of the text must be read. *)
Definition parse_ip (s : string) : option IpAddr :=
  match read_ipv4_addr s with
  | Some (a, rest) => if bool_decide (rest = "") then Some (V4 a) else None
  | None =>
      match read_ipv6_addr s with
      | Some (a, rest) => if bool_decide (rest = "") then Some (V6 a) else None
      | None => None
      end
  end.

(** ** Addresses in CIDR notation

    The reference: an address is a number, a block its first address and the
    number of leading bits its members share. *)

Definition v4_value (a : Ipv4Addr) : Z :=
  (((v4_a a * 256 + v4_b a) * 256 + v4_c a) * 256 + v4_d a)%Z.
Definition v6_value (a : Ipv6Addr) : Z := foldl (λ acc s, acc * 65536 + s)%Z 0%Z a.

Definition v4_wf (a : Ipv4Addr) : Prop :=
  (0 <= v4_a a <= 255 ∧ 0 <= v4_b a <= 255 ∧ 0 <= v4_c a <= 255 ∧ 0 <= v4_d a <= 255)%Z.
Definition v6_wf (a : Ipv6Addr) : Prop :=
  length a = 8 ∧ Forall (λ s, 0 <= s <= 65535)%Z a.
Definition ip_wf (ip : IpAddr) : Prop :=
  match ip with V4 a => v4_wf a | V6 a => v6_wf a end.

Definition in_block (bits : Z) (value : Z) (block : Z * Z) : bool :=
  (value / 2 ^ (bits - block.2) =? block.1 / 2 ^ (bits - block.2))%Z.

Definition v4 (a b c d : Z) : Z := (((a * 256 + b) * 256 + c) * 256 + d)%Z.

Definition v4_blocks : list (Z * Z) :=
  [(v4 10 0 0 0, 8); (v4 172 16 0 0, 12); (v4 192 168 0 0, 16); (v4 127 0 0 0, 8);
   (v4 169 254 0 0, 16); (v4 0 0 0 0, 32); (v4 255 255 255 255, 32); (v4 192 0 2 0, 24);
   (v4 198 51 100 0, 24); (v4 203 0 113 0, 24); (v4 224 0 0 0, 4); (v4 100 64 0 0, 10);
   (v4 198 18 0 0, 15)]%Z.

(** [::/128], [::1/128], [fc00::/7], [fe80::/10], [ff00::/8], [2001:db8::/32];
    the mapped addresses [::ffff:0:0/96] are those of IPv4. *)
Definition v6_blocks : list (Z * Z) :=
  [(0, 128); (1, 128); (0xfc00 * 2 ^ 112, 7); (0xfe80 * 2 ^ 112, 10); (0xff00 * 2 ^ 112, 8);
   (0x20010db8 * 2 ^ 96, 32)]%Z.

Definition forbidden_block (ip : IpAddr) : bool :=
  match ip with
  | V4 a => existsb (in_block 32 (v4_value a)) v4_blocks
  | V6 a =>
      if in_block 128 (v6_value a) (0xffff * 2 ^ 32, 96)%Z
      then existsb (in_block 32 (v6_value a mod 2 ^ 32)) v4_blocks
      else existsb (in_block 128 (v6_value a)) v6_blocks
  end.

(** ** The policy is the list of blocks *)

(** Equality of two boolean combinations of comparisons, by arithmetic. *)
Ltac bool_arith :=
  apply eq_true_iff_eq;
  rewrite ?andb_true_iff, ?orb_true_iff, ?Z.eqb_eq, ?Z.leb_le;
  Z.to_euclidean_division_equations; lia.

Section V4.
Context (a : Ipv4Addr) (Hwf : v4_wf a).

Lemma block_8 p : (0 <= p <= 255)%Z → in_block 32 (v4_value a) (v4 p 0 0 0, 8)%Z = (v4_a a =? p)%Z.
Proof.
  intros Hp. destruct Hwf as (Ha & Hb & Hc & Hd). unfold in_block, v4, v4_value. cbn [fst snd].
  change (2 ^ (32 - 8))%Z with 16777216%Z. bool_arith.
Qed.

Lemma block_16 p q : (0 <= p <= 255)%Z → (0 <= q <= 255)%Z →
  in_block 32 (v4_value a) (v4 p q 0 0, 16)%Z = (v4_a a =? p)%Z && (v4_b a =? q)%Z.
Proof.
  intros Hp Hq. destruct Hwf as (Ha & Hb & Hc & Hd). unfold in_block, v4, v4_value. cbn [fst snd].
  change (2 ^ (32 - 16))%Z with 65536%Z. bool_arith.
Qed.

Lemma block_24 p q r : (0 <= p <= 255)%Z → (0 <= q <= 255)%Z → (0 <= r <= 255)%Z →
  in_block 32 (v4_value a) (v4 p q r 0, 24)%Z =
  (v4_a a =? p)%Z && (v4_b a =? q)%Z && (v4_c a =? r)%Z.
Proof.
  intros Hp Hq Hr. destruct Hwf as (Ha & Hb & Hc & Hd). unfold in_block, v4, v4_value. cbn [fst snd].
  change (2 ^ (32 - 24))%Z with 256%Z. bool_arith.
Qed.

Lemma block_32 p q r t : (0 <= p <= 255)%Z → (0 <= q <= 255)%Z → (0 <= r <= 255)%Z →
  (0 <= t <= 255)%Z →
  in_block 32 (v4_value a) (v4 p q r t, 32)%Z =
  (v4_a a =? p)%Z && (v4_b a =? q)%Z && (v4_c a =? r)%Z && (v4_d a =? t)%Z.
Proof.
  intros Hp Hq Hr Ht. destruct Hwf as (Ha & Hb & Hc & Hd). unfold in_block, v4, v4_value.
  cbn [fst snd]. change (2 ^ (32 - 32))%Z with 1%Z. bool_arith.
Qed.

Lemma block_172_16 : in_block 32 (v4_value a) (v4 172 16 0 0, 12)%Z =
  (v4_a a =? 172)%Z && (16 <=? v4_b a)%Z && (v4_b a <=? 31)%Z.
Proof.
  destruct Hwf as (Ha & Hb & Hc & Hd). unfold in_block, v4, v4_value. cbn [fst snd].
  change (2 ^ (32 - 12))%Z with 1048576%Z. bool_arith.
Qed.

Lemma block_100_64 : in_block 32 (v4_value a) (v4 100 64 0 0, 10)%Z =
  (v4_a a =? 100)%Z && ((64 <=? v4_b a)%Z && (v4_b a <=? 127)%Z).
Proof.
  destruct Hwf as (Ha & Hb & Hc & Hd). unfold in_block, v4, v4_value. cbn [fst snd].
  change (2 ^ (32 - 10))%Z with 4194304%Z. bool_arith.
Qed.

Lemma block_198_18 : in_block 32 (v4_value a) (v4 198 18 0 0, 15)%Z =
  (v4_a a =? 198)%Z && ((v4_b a =? 18)%Z || (v4_b a =? 19)%Z).
Proof.
  destruct Hwf as (Ha & Hb & Hc & Hd). unfold in_block, v4, v4_value. cbn [fst snd].
  change (2 ^ (32 - 15))%Z with 131072%Z. bool_arith.
Qed.

Lemma block_224 : in_block 32 (v4_value a) (v4 224 0 0 0, 4)%Z =
  (224 <=? v4_a a)%Z && (v4_a a <=? 239)%Z.
Proof.
  destruct Hwf as (Ha & Hb & Hc & Hd). unfold in_block, v4, v4_value. cbn [fst snd].
  change (2 ^ (32 - 4))%Z with 268435456%Z. bool_arith.
Qed.

Lemma is_forbidden_ipv4_blocks : is_forbidden_ipv4 a = existsb (in_block 32 (v4_value a)) v4_blocks.
Proof.
  unfold v4_blocks. cbn [existsb].
  rewrite !block_8, !block_16, !block_24, !block_32 by lia.
  rewrite block_172_16, block_100_64, block_198_18, block_224.
  unfold is_forbidden_ipv4, is_nonpublic_ipv4_class, is_private, is_loopback, is_link_local,
    is_unspecified, is_broadcast, is_documentation, is_multicast. cbv zeta.
  repeat match goal with |- context [?x && ?y] =>
    let b := fresh "b" in set (b := x && y); clearbody b end.
  repeat match goal with |- context [(?x =? ?y)%Z] =>
    let b := fresh "b" in set (b := (x =? y)%Z); clearbody b end.
  repeat match goal with b : bool |- _ => destruct b; [by rewrite ?orb_true_r|] end. done.
Qed.
End V4.

(** Masking the high bits of a 16-bit number. *)
Lemma land_high_bits k x :
  (0 <= k <= 16)%Z → (0 <= x <= 65535)%Z →
  Z.land x (Z.shiftl (Z.ones (16 - k)) k) = (x / 2 ^ k * 2 ^ k)%Z.
Proof.
  intros Hk Hx. rewrite <-Z.shiftr_div_pow2, <-Z.shiftl_mul_pow2 by lia.
  assert (Z.shiftr x k = Z.land (Z.shiftr x k) (Z.ones (16 - k))) as ->.
  { rewrite Z.land_ones, Z.mod_small; [done| |lia]. rewrite Z.shiftr_div_pow2 by lia.
    split; [apply Z.div_pos; lia|]. apply Z.div_lt_upper_bound; [lia|].
    rewrite <-Z.pow_add_r by lia. replace (k + (16 - k))%Z with 16%Z by lia. lia. }
  apply Z.bits_inj'. intros n Hn. rewrite Z.land_spec.
  destruct (Z.lt_ge_cases n k) as [Hlt|Hge].
  - rewrite !Z.shiftl_spec_low by lia. apply andb_false_r.
  - rewrite !Z.shiftl_spec, Z.land_spec, Z.shiftr_spec by lia.
    by replace (n - k + k)%Z with n by lia.
Qed.

(** Digits in base 2^16 are determined by the number. *)
Lemma radix_inj x y r t :
  (0 <= r <= 65535)%Z → (0 <= t <= 65535)%Z → (x * 65536 + r = y * 65536 + t)%Z → x = y ∧ r = t.
Proof. lia. Qed.

Ltac radix H :=
  repeat (apply radix_inj in H; [|lia|lia]; let E := fresh "E" in destruct H as [H E]).

Section V6.
Context (s0 s1 s2 s3 s4 s5 s6 s7 : Z).
Context (H0 : (0 <= s0 <= 65535)%Z) (H1 : (0 <= s1 <= 65535)%Z) (H2 : (0 <= s2 <= 65535)%Z)
  (H3 : (0 <= s3 <= 65535)%Z) (H4 : (0 <= s4 <= 65535)%Z) (H5 : (0 <= s5 <= 65535)%Z)
  (H6 : (0 <= s6 <= 65535)%Z) (H7 : (0 <= s7 <= 65535)%Z).
Local Abbreviation a := [s0; s1; s2; s3; s4; s5; s6; s7].
Local Abbreviation v := (v6_value a).

Definition low112 : Z := foldl (λ acc s, acc * 65536 + s)%Z 0%Z [s1; s2; s3; s4; s5; s6; s7].

Lemma low112_range : (0 <= low112 < 2 ^ 112)%Z.
Proof using Type*. change (2 ^ 112)%Z with 5192296858534827628530496329220096%Z. cbv [low112 foldl]. lia. Qed.

Lemma v6_value_split : v = (s0 * 2 ^ 112 + low112)%Z.
Proof using Type.
  change (2 ^ 112)%Z with 5192296858534827628530496329220096%Z. cbv [v6_value low112 foldl]. lia.
Qed.

(** A block given by the high bits of the first segment. *)
Lemma v6_block_high base len :
  (0 <= len <= 16)%Z →
  in_block 128 v (base * 2 ^ 112, len)%Z =
  (s0 / 2 ^ (16 - len) =? base / 2 ^ (16 - len))%Z.
Proof using Type*.
  intros Hlen. unfold in_block. cbn [fst snd]. rewrite v6_value_split.
  pose proof low112_range as Hl.
  replace (128 - len)%Z with (112 + (16 - len))%Z by lia. rewrite Z.pow_add_r by lia.
  rewrite <-!Z.div_div by lia. rewrite Z.div_add_l, (Z.div_small low112), Z.add_0_r by lia.
  by rewrite Z.div_mul by lia.
Qed.

Lemma v6_unique_local_block : v6_is_unique_local a = in_block 128 v (0xfc00 * 2 ^ 112, 7)%Z.
Proof using Type*.
  rewrite v6_block_high by lia. unfold v6_is_unique_local. change (segment a 0) with s0.
  change 0xfe00%Z with (Z.shiftl (Z.ones (16 - 9)) 9). rewrite land_high_bits by lia.
  change (2 ^ (16 - 7))%Z with 512%Z. change (2 ^ 9)%Z with 512%Z. bool_arith.
Qed.

Lemma v6_link_local_block : v6_is_unicast_link_local a = in_block 128 v (0xfe80 * 2 ^ 112, 10)%Z.
Proof using Type*.
  rewrite v6_block_high by lia. unfold v6_is_unicast_link_local. change (segment a 0) with s0.
  change 0xffc0%Z with (Z.shiftl (Z.ones (16 - 6)) 6). rewrite land_high_bits by lia.
  change (2 ^ (16 - 10))%Z with 64%Z. change (2 ^ 6)%Z with 64%Z. bool_arith.
Qed.

Lemma v6_multicast_block : v6_is_multicast a = in_block 128 v (0xff00 * 2 ^ 112, 8)%Z.
Proof using Type*.
  rewrite v6_block_high by lia. unfold v6_is_multicast. change (segment a 0) with s0.
  rewrite Z.shiftr_div_pow2 by lia. done.
Qed.

Lemma v6_documentation_block :
  (s0 =? 0x2001)%Z && (s1 =? 0x0db8)%Z = in_block 128 v (0x20010db8 * 2 ^ 96, 32)%Z.
Proof using Type*.
  unfold in_block. cbn [fst snd]. change (2 ^ (128 - 32))%Z with 79228162514264337593543950336%Z.
  change (2 ^ 96)%Z with 79228162514264337593543950336%Z.
  rewrite Z.div_mul by lia. cbv [v6_value foldl]. bool_arith.
Qed.

Lemma v6_exact_block l :
  length l = 8 → Forall (λ s, 0 <= s <= 65535)%Z l →
  bool_decide (a = l) = in_block 128 v (v6_value l, 128)%Z.
Proof using Type*.
  intros Hlen Hl. destruct l as [|t0 [|t1 [|t2 [|t3 [|t4 [|t5 [|t6 [|t7 [|? ?]]]]]]]]]; try done.
  rewrite !Forall_cons in Hl. destruct Hl as (? & ? & ? & ? & ? & ? & ? & ? & _).
  unfold in_block. cbn [fst snd]. change (2 ^ (128 - 128))%Z with 1%Z. rewrite !Z.div_1_r.
  apply eq_true_iff_eq. rewrite bool_decide_eq_true, Z.eqb_eq. split; [by intros ->|].
  cbv [v6_value foldl]. intros Heq. radix Heq. by subst.
Qed.

Lemma v6_mapped_block :
  bool_decide (take 5 a = [0; 0; 0; 0; 0]%Z) && (s5 =? 0xffff)%Z =
  in_block 128 v (0xffff * 2 ^ 32, 96)%Z.
Proof using Type*.
  unfold in_block. cbn [fst snd]. change (2 ^ (128 - 96))%Z with 4294967296%Z.
  change (2 ^ 32)%Z with 4294967296%Z. rewrite Z.div_mul by lia. cbn [take].
  cbv [v6_value foldl]. apply eq_true_iff_eq.
  rewrite andb_true_iff, bool_decide_eq_true, !Z.eqb_eq. split.
  - intros [[= -> -> -> -> ->] ->]. Z.to_euclidean_division_equations. lia.
  - intros Heq.
    assert (s0 = 0 ∧ s1 = 0 ∧ s2 = 0 ∧ s3 = 0 ∧ s4 = 0 ∧ s5 = 65535)%Z
      as (-> & -> & -> & -> & -> & ->); [|done].
    revert Heq. match goal with |- (((?h * 65536 + s6) * 65536 + s7) / 4294967296 = _)%Z → _ =>
      replace ((h * 65536 + s6) * 65536 + s7)%Z with (h * 4294967296 + (s6 * 65536 + s7))%Z by ring
    end.
    rewrite Z.div_add_l, Z.div_small, Z.add_0_r by lia. lia.
Qed.

Lemma mapped_octets :
  let m := {| v4_a := Z.land (Z.shiftr s6 8) 0xff; v4_b := Z.land s6 0xff;
              v4_c := Z.land (Z.shiftr s7 8) 0xff; v4_d := Z.land s7 0xff |} in
  v4_wf m ∧ v4_value m = (v mod 2 ^ 32)%Z.
Proof using Type*.
  change 0xff%Z with (Z.ones 8). cbv zeta. unfold v4_wf, v4_value. cbn [v4_a v4_b v4_c v4_d].
  rewrite !Z.land_ones, !Z.shiftr_div_pow2 by lia. change (2 ^ 8)%Z with 256%Z.
  change (2 ^ 32)%Z with 4294967296%Z. cbv [v6_value foldl]. split.
  - Z.to_euclidean_division_equations. lia.
  - Z.to_euclidean_division_equations. lia.
Qed.
End V6.

Lemma is_forbidden_ip_blocks ip : ip_wf ip → is_forbidden_ip ip = forbidden_block ip.
Proof.
  destruct ip as [a|a]; simpl; [apply is_forbidden_ipv4_blocks|].
  intros [Hlen HF]. unfold Ipv6Addr in *.
  destruct a as [|s0 [|s1 [|s2 [|s3 [|s4 [|s5 [|s6 [|s7 [|? ?]]]]]]]]]; try done.
  rewrite !Forall_cons in HF. destruct HF as (H0 & H1 & H2 & H3 & H4 & H5 & H6 & H7 & _).
  rewrite <-v6_mapped_block by done. unfold ipv6_mapped_ipv4.
  change (segment _ 5) with s5. change (segment _ 6) with s6. change (segment _ 7) with s7.
  destruct (bool_decide _ && _).
  - destruct (mapped_octets s0 s1 s2 s3 s4 s5 s6 s7) as [Hwf Hval]; [done..|].
    rewrite is_forbidden_ipv4_blocks by done. by rewrite Hval.
  - unfold v6_blocks. cbn [existsb].
    change (0, 128)%Z with (v6_value [0; 0; 0; 0; 0; 0; 0; 0], 128)%Z.
    change (1, 128)%Z with (v6_value [0; 0; 0; 0; 0; 0; 0; 1], 128)%Z.
    rewrite <-!v6_exact_block, <-v6_unique_local_block, <-v6_link_local_block,
      <-v6_multicast_block, <-v6_documentation_block by (done || (repeat constructor; lia)).
    unfold is_local_scope_ipv6, is_link_or_multicast_ipv6, v6_is_loopback, v6_is_unspecified.
    change (segment _ 0) with s0. change (segment _ 1) with s1. cbv zeta.
    rewrite orb_false_r. set (doc := (_ =? 8193)%Z && _). clearbody doc.
    repeat (case_bool_decide; [by simplify_eq|]); simpl; try done.
    by destruct (v6_is_unique_local _), (v6_is_unicast_link_local _), (v6_is_multicast _).
Qed.

(** ** Hosts, URLs and headers *)

(** [trim_start_matches(c)] and [trim_end_matches(c)] *)
Fixpoint trim_start_char (c : Ascii.ascii) (s : string) : string :=
  match s with
  | String d s' => if bool_decide (d = c) then trim_start_char c s' else s
  | EmptyString => EmptyString
  end.

Fixpoint trim_end_char (c : Ascii.ascii) (s : string) : string :=
  match s with
  | EmptyString => EmptyString
  | String d s' =>
      if all_chars (λ x, bool_decide (x = c)) s then EmptyString else String d (trim_end_char c s')
  end.

Definition normalize_host (host : string) : string :=
  trim_end_char (byte 93) (trim_start_char (byte 91) host).

Definition is_forbidden_webhook_host (host : string) : bool :=
  let lower := to_ascii_lowercase host in
  bool_decide (lower = "localhost") || ends_with lower ".localhost"
  || bool_decide (lower = "host.docker.internal")
  || bool_decide (lower = "metadata.google.internal")
  || bool_decide (lower = "metadata.aws.internal").

Definition is_forbidden_header (name : string) : bool :=
  let lower := to_ascii_lowercase name in
  let exact := bool_decide (lower ∈ ["host"; "authorization"; "cookie"; "proxy-authorization";
                                     "forwarded"; "x-real-ip"; "transfer-encoding"; "connection"]) in
  exact || starts_with lower "x-forwarded-".

Inductive HookBundleError :=
| InvalidFormat (reason : string)
| MissingHookPoints (hook : string)
| InvalidRegex (hook pattern reason : string)
| InvalidTimeout (hook : string) (max_ms : Z)
| InvalidWebhookUrl (hook url : string)
| InvalidWebhookScheme (hook scheme : string)
| ForbiddenWebhookHost (hook host : string)
| InvalidWebhookHeader (hook header reason : string)
| ForbiddenWebhookHeader (hook header : string)
| InvalidWebhookMaxInFlight (hook : string).

Definition ensure_webhook_host_allowed (hook host : string) : result unit HookBundleError :=
  let normalized_host := normalize_host host in
  let forbidden := match parse_ip normalized_host with
                   | Some ip => is_forbidden_ip ip
                   | None => is_forbidden_webhook_host normalized_host
                   end in
  if forbidden then Err (ForbiddenWebhookHost hook normalized_host) else Ok tt.

Record SocketAddr := { addr_ip : IpAddr; addr_port : Z }.

(** [reqwest::Client]s: the one built with the hook, and one whose host name
    is pinned to resolved addresses; neither follows redirects. *)
Inductive Client :=
| BaseClient
| PinnedClient (timeout : Duration) (host : string) (addrs : list SocketAddr).

(** The resolver, the header types and the client builder. *)
Class WebhookNet := {
  (** [tokio::net::lookup_host((host, port))] *)
  lookup_host : string → Z → result (list SocketAddr) string;
  lookup_host_wf : ∀ h p addrs, lookup_host h p = Ok addrs → Forall (λ a, ip_wf (addr_ip a)) addrs;
  (** why a client cannot be built, if it cannot *)
  client_error : Duration → string → list SocketAddr → option string;
  (** [HeaderName::from_bytes] and [HeaderValue::from_str] *)
  header_name : string → result string string;
  header_value : string → result string string;
  (** [IpAddr::to_string] *)
  ip_display : IpAddr → string;
}.

Section Webhook.
Context {U : UrlCrates} {N : WebhookNet}.

Definition validate_webhook_url (hook url : string) : result Url HookBundleError :=
  match url_parse url with
  | Err _ => Err (InvalidWebhookUrl hook url)
  | Ok parsed =>
      if bool_decide (url_scheme parsed ≠ "https")
      then Err (InvalidWebhookScheme hook (url_scheme parsed))
      else if bool_decide (url_username parsed ≠ "") || bool_decide (is_Some (url_password parsed))
      then Err (InvalidWebhookUrl hook url)
      else
        match url_host_str parsed with
        | Some host =>
            match ensure_webhook_host_allowed hook host with
            | Err e => Err e
            | Ok _ => Ok parsed
            end
        | None => Ok parsed
        end
  end.

Fixpoint first_forbidden (addrs : list SocketAddr) : option IpAddr :=
  match addrs with
  | [] => None
  | a :: addrs => if is_forbidden_ip (addr_ip a) then Some (addr_ip a) else first_forbidden addrs
  end.

Definition resolve_and_screen (host : string) (port : Z) : result (list SocketAddr) string :=
  match lookup_host host port with
  | Err e => Err ("DNS resolution failed: " +:+ e)
  | Ok [] => Err "DNS resolution returned no addresses"
  | Ok addrs =>
      match first_forbidden addrs with
      | Some ip => Err ("Webhook target resolves to blocked IP " +:+ ip_display ip)
      | None => Ok addrs
      end
  end.

Definition build_pinned_client (timeout : Duration) (host : string) (addrs : list SocketAddr) :
    result Client string :=
  match client_error timeout host addrs with
  | Some e => Err ("Failed to build resolved webhook client: " +:+ e)
  | None => Ok (PinnedClient timeout host addrs)
  end.

Definition dispatch_client_for_target (url : string) (timeout : Duration) :
    result Client string :=
  match url_parse url with
  | Err e => Err ("Invalid URL: " +:+ e)
  | Ok parsed =>
      match url_host_str parsed with
      | None => Err "Webhook URL has no host"
      | Some host =>
          let normalized_host := normalize_host host in
          match parse_ip normalized_host with
          | Some ip =>
              if is_forbidden_ip ip
              then Err ("Webhook target resolves to blocked IP " +:+ ip_display ip)
              else Ok BaseClient
          | None =>
              match url_port parsed with
              | None => Err "Webhook URL has no valid port"
              | Some port =>
                  match resolve_and_screen normalized_host port with
                  | Err e => Err e
                  | Ok addrs => build_pinned_client timeout normalized_host addrs
                  end
              end
          end
      end
  end.

(** The loop over the map, [headers] in the order in which it is iterated. *)
Fixpoint validate_headers_from (hook : string) (validated : gmap string string)
    (headers : list (string * string)) : result (gmap string string) HookBundleError :=
  match headers with
  | [] => Ok validated
  | (name, value) :: headers =>
      match header_name name with
      | Err e => Err (InvalidWebhookHeader hook name e)
      | Ok hn =>
          if is_forbidden_header hn then Err (ForbiddenWebhookHeader hook name)
          else match header_value value with
               | Err e => Err (InvalidWebhookHeader hook name e)
               | Ok hv => validate_headers_from hook (<[hn := hv]> validated) headers
               end
      end
  end.

Definition validate_webhook_headers (hook : string) (headers : list (string * string)) :
    result (gmap string string) HookBundleError :=
  validate_headers_from hook ∅ headers.
End Webhook.

(** Parsed addresses are well formed. *)

Lemma to_digit_nonneg radix c d : (0 < radix)%Z → to_digit radix c = Some d → (0 <= d)%Z.
Proof.
  intros Hr. unfold to_digit. set (n := Z.of_N (Ascii.N_of_ascii c)). cbv zeta.
  destruct (Z.leb_spec 48 n), (Z.leb_spec n 57), (Z.leb_spec 97 n), (Z.leb_spec n 122),
    (Z.leb_spec 65 n), (Z.leb_spec n 90); simpl; case_match; intros Heq; simplify_eq; lia.
Qed.

Lemma read_digits_range radix max room acc count s n c rest :
  (0 < radix)%Z → (0 <= acc <= max)%Z →
  read_digits radix max room acc count s = Some (n, c, rest) → (0 <= n <= max)%Z.
Proof.
  intros Hr. revert room acc count. induction s as [|ch s IH]; intros room acc count Hacc; simpl.
  { intros Heq. simplify_eq. lia. }
  destruct (to_digit radix ch) as [d|] eqn:Hd; [|intros Heq; simplify_eq; lia].
  destruct room as [|room]; [done|]. destruct (Z.ltb_spec max (acc * radix + d)); [done|].
  apply IH. apply to_digit_nonneg in Hd; [nia|done].
Qed.

Lemma read_number_range radix max digits zeros s n rest :
  (0 < radix)%Z → (0 <= max)%Z →
  read_number radix max digits zeros s = Some (n, rest) → (0 <= n <= max)%Z.
Proof.
  intros Hr Hm. unfold read_number. cbv zeta.
  destruct (read_digits radix max digits 0 0 s) as [[[m c] r]|] eqn:E; [|done].
  apply read_digits_range in E; [|done|lia]. repeat case_match; intros Heq; simplify_eq; lia.
Qed.

Lemma read_separator_range {A} (P : A → Prop) sep i inner s x rest :
  (∀ s x rest, inner s = Some (x, rest) → P x) →
  read_separator sep i inner s = Some (x, rest) → P x.
Proof.
  intros Hi. unfold read_separator. case_match; [apply Hi|].
  destruct (strip_prefix s sep); [apply Hi|done].
Qed.

Lemma read_octet_range s n rest : read_octet s = Some (n, rest) → (0 <= n <= 255)%Z.
Proof. by apply read_number_range. Qed.

Lemma read_ipv4_wf s a rest : read_ipv4_addr s = Some (a, rest) → v4_wf a.
Proof.
  unfold read_ipv4_addr.
  destruct (read_octet s) as [[x s1]|] eqn:E1; [|done].
  destruct (read_separator _ 1 _ _) as [[y s2]|] eqn:E2; [|done].
  destruct (read_separator _ 2 _ _) as [[z s3]|] eqn:E3; [|done].
  destruct (read_separator _ 3 _ _) as [[t s4]|] eqn:E4; [|done].
  intros Heq. simplify_eq. apply read_octet_range in E1.
  apply (read_separator_range (λ n, 0 <= n <= 255)%Z) in E2, E3, E4; try apply read_octet_range.
  unfold v4_wf. simpl. lia.
Qed.

Lemma read_groups_wf room i s gs v4 rest :
  read_groups room i s = (gs, v4, rest) → length gs ≤ room ∧ Forall (λ g, 0 <= g <= 65535)%Z gs.
Proof.
  revert i s gs v4 rest. induction room as [|room IH]; intros i s gs v4 rest.
  { simpl. intros Heq. by simplify_eq. }
  cbn [read_groups]. destruct (if 1 <? S room then _ else None) as [[a s1]|] eqn:E4.
  { intros Heq. simplify_eq. destruct (Nat.ltb_spec 1 (S room)); [|done].
    apply (read_separator_range v4_wf) in E4 as (Ha & Hb & Hc & Hd); [|apply read_ipv4_wf].
    split; [simpl; lia|]. repeat constructor; lia. }
  destruct (read_separator ":" i (read_number 16 65535 4 true) s) as [[g s1]|] eqn:Eg.
  - apply (read_separator_range (λ n, 0 <= n <= 65535)%Z) in Eg;
      [|intros ???; by apply read_number_range].
    destruct (read_groups room (S i) s1) as [[gs' v4'] s2] eqn:E.
    apply IH in E as [Hl HF]. intros Heq. simplify_eq. split; [simpl; lia|by constructor].
  - intros Heq. simplify_eq. split; [simpl; lia|constructor].
Qed.

Lemma parse_ip_wf s ip : parse_ip s = Some ip → ip_wf ip.
Proof.
  unfold parse_ip. destruct (read_ipv4_addr s) as [[a r]|] eqn:E4.
  { case_bool_decide; [|done]. intros Heq. simplify_eq. by eapply read_ipv4_wf. }
  destruct (read_ipv6_addr s) as [[a r]|] eqn:E6; [|done].
  case_bool_decide; [|done]. intros Heq. simplify_eq. simpl. revert E6. unfold read_ipv6_addr.
  destruct (read_groups 8 0 s) as [[head h4] s1] eqn:Eh. apply read_groups_wf in Eh as [Hl HF].
  destruct (Nat.eqb_spec (length head) 8) as [H8|H8].
  { intros Heq. simplify_eq. by split. }
  destruct h4; [done|]. destruct (strip_prefix s1 "::") as [s2|]; [|done].
  destruct (read_groups (8 - (length head + 1)) 0 s2) as [[tl t4] s3] eqn:Et.
  apply read_groups_wf in Et as [Ht HFt]. intros Heq. simplify_eq. split.
  - rewrite !length_app, length_replicate. lia.
  - apply Forall_app_2; [done|]. apply Forall_app_2; [|done]. apply Forall_replicate. lia.
Qed.

(** ** Properties *)

(** The addresses a webhook may not reach are exactly those of a list of
    CIDR blocks: private, loopback, link-local, documentation, multicast,
    carrier-grade NAT, benchmarking and unspecified addresses, of IPv4 also
    in their IPv6-mapped form. *)
Theorem forbidden_ip_exact ip (Hwf : ip_wf ip) : is_forbidden_ip ip = forbidden_block ip.
Proof. by apply is_forbidden_ip_blocks. Qed.

Lemma first_forbidden_None addrs :
  first_forbidden addrs = None → Forall (λ a, is_forbidden_ip (addr_ip a) = false) addrs.
Proof.
  induction addrs as [|a addrs IH]; simpl; [constructor|].
  destruct (is_forbidden_ip (addr_ip a)) eqn:E; [done|]. constructor; auto.
Qed.

(** A webhook is only ever delivered to a public address.  When a client
    is handed out for a URL, the host is an address outside the forbidden
    blocks, or the client is pinned to the resolved addresses of the host, at
    least one, all outside the forbidden blocks; and a URL accepted by the
    configuration is HTTPS, has no user information, and names neither a
    forbidden address nor a local or metadata host. *)
Theorem webhook_targets_public {U : UrlCrates} {N : WebhookNet} hook url timeout parsed client
    (Hvalid : validate_webhook_url hook url = Ok parsed)
    (Hclient : dispatch_client_for_target url timeout = Ok client) :
  url_parse url = Ok parsed ∧ url_scheme parsed = "https" ∧
  url_username parsed = "" ∧ url_password parsed = None ∧
  ∃ host, url_host_str parsed = Some host ∧
    match client with
    | BaseClient => ∃ ip, parse_ip (normalize_host host) = Some ip ∧ forbidden_block ip = false
    | PinnedClient t h addrs => t = timeout ∧ h = normalize_host host ∧ addrs ≠ [] ∧
        is_forbidden_webhook_host h = false ∧
        (∃ port, lookup_host h port = Ok addrs) ∧
        Forall (λ a, forbidden_block (addr_ip a) = false) addrs
    end.
Proof.
  unfold validate_webhook_url in Hvalid. unfold dispatch_client_for_target in Hclient.
  destruct (url_parse url) as [p|] eqn:Hp; [|done].
  case_bool_decide as Hs; [done|].
  destruct (bool_decide (url_username p ≠ "") || _) eqn:Huser; [done|].
  apply orb_false_iff in Huser as [Hu Hpw]. apply bool_decide_eq_false in Hu, Hpw.
  apply dec_stable in Hu. apply eq_None_not_Some in Hpw.
  destruct (url_host_str p) as [host|] eqn:Hh; [|done].
  unfold ensure_webhook_host_allowed in Hvalid. cbv zeta in Hclient, Hvalid.
  destruct (parse_ip (normalize_host host)) as [ip|] eqn:Hip.
  - destruct (is_forbidden_ip ip) eqn:Hf; [done|]. simplify_eq. split_and!; try done.
    exists host. split; [done|]. exists ip. split; [done|].
    rewrite <-is_forbidden_ip_blocks; [done|]. by eapply parse_ip_wf.
  - destruct (is_forbidden_webhook_host (normalize_host host)) eqn:Hf; [done|].
    simplify_eq. destruct (url_port parsed) as [port|]; [|done].
    unfold resolve_and_screen in Hclient.
    destruct (lookup_host (normalize_host host) port) as [addrs|] eqn:Hl; [|done].
    pose proof (lookup_host_wf _ _ _ Hl) as Hwf.
    destruct addrs as [|a0 addrs']; [done|]. set (addrs := a0 :: addrs') in *.
    destruct (first_forbidden addrs) eqn:Hff; [done|].
    unfold build_pinned_client in Hclient. destruct (client_error _ _ _); [done|]. simplify_eq.
    split_and!; try done. exists host. split_and!; try done; [by exists port|].
    apply first_forbidden_None in Hff. rewrite Forall_forall in *. intros a Ha.
    rewrite <-is_forbidden_ip_blocks by auto. auto.
Qed.

(** ** Witnesses *)

(** [::ffff:10.0.0.1], a private address in its mapped form. *)
Lemma forbidden_ip_exact_witness :
  parse_ip "::ffff:10.0.0.1" = Some (V6 [0; 0; 0; 0; 0; 0xffff; 0x0a00; 1]%Z) ∧
  forbidden_block (V6 [0; 0; 0; 0; 0; 0xffff; 0x0a00; 1]%Z) = true.
Proof.
  split; [vm_compute; reflexivity|].
  rewrite <-forbidden_ip_exact.
  - vm_compute. reflexivity.
  - split; [reflexivity|]. repeat constructor; lia.
Defined.

Section Witnesses.
Definition hook_url : UrlCrates := {|
  url_parse s := if bool_decide (s = "https://hooks.example.com/x") then
      Ok {| url_scheme := "https"; url_username := ""; url_password := None;
            url_host_str := Some "hooks.example.com"; url_path := "/x"; url_port := Some 443%Z |}
    else Err "unknown";
  url_decode s := Some s |}.
#[local] Existing Instance hook_url.

Definition public_addr : SocketAddr := {|
  addr_ip := V4 {| v4_a := 93; v4_b := 184; v4_c := 216; v4_d := 34 |}; addr_port := 443 |}.

Lemma public_lookup_wf (h : string) (p : Z) addrs :
  (Ok [public_addr] : result _ string) = Ok addrs → Forall (λ a, ip_wf (addr_ip a)) addrs.
Proof. intros [= <-]. constructor; [|constructor]. simpl. unfold v4_wf. simpl. lia. Qed.

Definition public_net : WebhookNet := {|
  lookup_host _ _ := Ok [public_addr]; lookup_host_wf := public_lookup_wf;
  client_error _ _ _ := None; header_name n := Ok (to_ascii_lowercase n); header_value v := Ok v;
  ip_display _ := "" |}.
#[local] Existing Instance public_net.

Lemma webhook_targets_public_witness :
  dispatch_client_for_target "https://hooks.example.com/x" (secs 2) =
    Ok (PinnedClient (secs 2) "hooks.example.com" [public_addr]) ∧
  Forall (λ a, forbidden_block (addr_ip a) = false) [public_addr].
Proof.
  assert (dispatch_client_for_target "https://hooks.example.com/x" (secs 2) =
    Ok (PinnedClient (secs 2) "hooks.example.com" [public_addr])) as Hc by (vm_compute; reflexivity).
  split; [exact Hc|].
  assert (∃ parsed, validate_webhook_url "h" "https://hooks.example.com/x" = Ok parsed) as [parsed Hv]
    by (eexists; vm_compute; reflexivity).
  pose proof (webhook_targets_public "h" "https://hooks.example.com/x" (secs 2) parsed
    (PinnedClient (secs 2) "hooks.example.com" [public_addr]) Hv Hc) as Hp.
  destruct Hp as (_ & _ & _ & _ & host & _ & _ & _ & _ & _ & _ & HF). exact HF.
Defined.
End Witnesses.
