(* ===== verification/HookBundle.v ===== *)
(** * Bundled hooks

    Models [src/src/hooks/bundled.rs] and its modules [config.rs], [rule.rs]
    and [webhook.rs]: the built-in audit hook, rule hooks (guard, rejection,
    rewriting) and outbound webhooks compiled from a declarative bundle, and
    their registration.  [BundledHook] is an instance of the [Hook] interface
    of [Hooks], so the theorems on the registry and the chain apply to it.

    The world of the hooks has the time as text, the permits in use of each
    webhook's semaphore, and the deliveries handed to background tasks.  The
    requests themselves are not modelled beyond the client they get
    ([NetPolicy]). *)

From S2P Require Import Prelude Text Externals Allowlist NetPolicy Hooks.

(** ** Configuration *)

Record RegexReplacementConfig := { rc_pattern : string; rc_replacement : string }.

Record HookRuleConfig := {
  hr_name : string;
  hr_points : list HookPoint;
  hr_priority : option Z;
  hr_failure_mode : option HookFailureMode;
  hr_timeout_ms : option Z;
  hr_when_regex : option string;
  hr_reject_reason : option string;
  hr_replacements : list RegexReplacementConfig;
  hr_prepend : option string;
  hr_append : option string;
}.

(** [ow_headers] in the order in which the map is iterated. *)
Record OutboundWebhookConfig := {
  ow_name : string;
  ow_points : list HookPoint;
  ow_url : string;
  ow_headers : list (string * string);
  ow_timeout_ms : option Z;
  ow_priority : option Z;
  ow_max_in_flight : option nat;
}.

Record HookBundleConfig := {
  hb_rules : list HookRuleConfig;
  hb_outbound_webhooks : list OutboundWebhookConfig;
}.

Record HookRegistrationSummary := {
  hs_hooks : nat; hs_outbound_webhooks : nat; hs_errors : nat }.

Definition summary_default : HookRegistrationSummary := {|
  hs_hooks := 0; hs_outbound_webhooks := 0; hs_errors := 0 |}.
Definition total_registered (s : HookRegistrationSummary) : nat :=
  hs_hooks s + hs_outbound_webhooks s.
Definition summary_merge (s t : HookRegistrationSummary) : HookRegistrationSummary := {|
  hs_hooks := hs_hooks s + hs_hooks t;
  hs_outbound_webhooks := hs_outbound_webhooks s + hs_outbound_webhooks t;
  hs_errors := hs_errors s + hs_errors t |}.

Definition MAX_HOOK_TIMEOUT_MS : Z := 30000.

Definition timeout_from_ms (timeout_ms : option Z) (hook : string) :
    result Duration HookBundleError :=
  match timeout_ms with
  | Some ms =>
      if (ms =? 0)%Z || (MAX_HOOK_TIMEOUT_MS <? ms)%Z
      then Err (InvalidTimeout hook MAX_HOOK_TIMEOUT_MS)
      else Ok (millis ms)
  | None => Ok (secs 5)
  end.

(** ** Rule hooks *)

Definition DEFAULT_RULE_PRIORITY : Z := 100.
Definition ALL_HOOK_POINTS : list HookPoint :=
  [BeforeInbound; BeforeToolCall; BeforeOutbound; OnSessionStart; OnSessionEnd;
   TransformResponse].

Section Rule.
Context {J : SerdeJson} {R : RegexEngine}.

Record CompiledReplacement := { cr_regex : regex; cr_replacement : string }.

Record RuleHook := {
  rh_name : string;
  rh_points : list HookPoint;
  rh_failure_mode : HookFailureMode;
  rh_timeout : Duration;
  rh_when_regex : option regex;
  rh_reject_reason : option string;
  rh_replacements : list CompiledReplacement;
  rh_prepend : option string;
  rh_append : option string;
}.

Definition compile_when_regex (pattern : option string) (hook : string) :
    result (option regex) HookBundleError :=
  match pattern with
  | Some pattern => match regex_new pattern with
                    | Ok r => Ok (Some r)
                    | Err e => Err (InvalidRegex hook pattern e)
                    end
  | None => Ok None
  end.

Fixpoint compile_replacements (raw : list RegexReplacementConfig) (hook : string) :
    result (list CompiledReplacement) HookBundleError :=
  match raw with
  | [] => Ok []
  | c :: raw =>
      match regex_new (rc_pattern c) with
      | Err e => Err (InvalidRegex hook (rc_pattern c) e)
      | Ok r =>
          match compile_replacements raw hook with
          | Err e => Err e
          | Ok l => Ok ({| cr_regex := r; cr_replacement := rc_replacement c |} :: l)
          end
      end
  end.

Definition scoped_name (source name : string) : string := source +:+ "::" +:+ name.

Definition rule_from_config (source : string) (config : HookRuleConfig) :
    result (RuleHook * Z) HookBundleError :=
  let name := scoped_name source (hr_name config) in
  match hr_points config with
  | [] => Err (MissingHookPoints name)
  | _ :: _ =>
      match timeout_from_ms (hr_timeout_ms config) name with
      | Err e => Err e
      | Ok timeout =>
          match compile_when_regex (hr_when_regex config) name with
          | Err e => Err e
          | Ok when_regex =>
              match compile_replacements (hr_replacements config) name with
              | Err e => Err e
              | Ok replacements =>
                  Ok ({| rh_name := name; rh_points := hr_points config;
                         rh_failure_mode := default FailOpen (hr_failure_mode config);
                         rh_timeout := timeout; rh_when_regex := when_regex;
                         rh_reject_reason := hr_reject_reason config;
                         rh_replacements := replacements; rh_prepend := hr_prepend config;
                         rh_append := hr_append config |},
                      default DEFAULT_RULE_PRIORITY (hr_priority config))
              end
          end
      end
  end.

(** The text a rule rewrites a content to. *)
Definition rewrite_content (h : RuleHook) (content : string) : string :=
  let modified := foldl (λ s c, replace_all (cr_regex c) s (cr_replacement c)) content
                    (rh_replacements h) in
  let modified := match rh_prepend h with Some p => p +:+ modified | None => modified end in
  match rh_append h with Some s => modified +:+ s | None => modified end.

(** [extract_primary_content] of rule.rs is [extract_content] of the
    registry, word for word. *)
Definition rule_execute (h : RuleHook) (event : HookEvent) : HookOutcome :=
  let content := extract_content event in
  let guarded := match rh_when_regex h with
                 | Some guard => negb (is_match guard content)
                 | None => false
                 end in
  if guarded then outcome_ok
  else match rh_reject_reason h with
       | Some reason => outcome_reject reason
       | None =>
           let modified := rewrite_content h content in
           if bool_decide (modified ≠ content) then outcome_modify modified else outcome_ok
       end.
End Rule.

(** ** Webhooks *)

Definition DEFAULT_WEBHOOK_PRIORITY : Z := 300.
Definition DEFAULT_WEBHOOK_TIMEOUT_MS : Z := 2000.
Definition DEFAULT_WEBHOOK_MAX_IN_FLIGHT : nat := 32.

Inductive OutboundWebhookEventSummary :=
| SumInbound (channel : string) (has_thread_id : bool) (content_length : nat)
| SumToolCall (tool_name context : string) (parameter_count : nat)
| SumOutbound (channel : string) (has_thread_id : bool) (content_length : nat)
| SumSessionStart
| SumSessionEnd
| SumResponseTransform (response_length : nat).

Record OutboundWebhookPayload := {
  wp_hook : string;
  wp_point : string;
  wp_timestamp : string;
  wp_event : OutboundWebhookEventSummary;
  wp_metadata_present : bool;
}.

(** The semaphore is known by an identity. *)
Record OutboundWebhookHook := {
  wh_name : string;
  wh_points : list HookPoint;
  wh_url : string;
  wh_headers : gmap string string;
  wh_timeout : Duration;
  wh_semaphore : N;
  wh_permits : nat;
}.

Record HookWorld := {
  hw_now : string;
  hw_in_use : gmap N nat;
  hw_spawned : list (OutboundWebhookHook * OutboundWebhookPayload);
}.

Section Webhooks.
Context {J : SerdeJson} {R : RegexEngine} {U : UrlCrates} {N' : WebhookNet}.
(** [Url::to_string], and why the base client cannot be built, if it cannot *)
Context (url_display : Url → string) (base_client_error : Duration → option string).

Definition webhook_from_config (source : string) (config : OutboundWebhookConfig) (semaphore : N) :
    result (OutboundWebhookHook * Z) HookBundleError :=
  let name := scoped_name source (ow_name config) in
  match ow_points config with
  | [] => Err (MissingHookPoints name)
  | _ :: _ =>
      match validate_webhook_url name (ow_url config) with
      | Err e => Err e
      | Ok url =>
          match validate_webhook_headers name (ow_headers config) with
          | Err e => Err e
          | Ok headers =>
              match timeout_from_ms
                      (Some (default DEFAULT_WEBHOOK_TIMEOUT_MS (ow_timeout_ms config))) name with
              | Err e => Err e
              | Ok timeout =>
                  let max_in_flight :=
                    default DEFAULT_WEBHOOK_MAX_IN_FLIGHT (ow_max_in_flight config) in
                  if max_in_flight =? 0 then Err (InvalidWebhookMaxInFlight name)
                  else match base_client_error timeout with
                       | Some e => Err (InvalidFormat e)
                       | None =>
                           Ok ({| wh_name := name; wh_points := ow_points config;
                                  wh_url := url_display url; wh_headers := headers;
                                  wh_timeout := timeout; wh_semaphore := semaphore;
                                  wh_permits := max_in_flight |},
                               default DEFAULT_WEBHOOK_PRIORITY (ow_priority config))
                       end
              end
          end
      end
  end.

Definition summarize_webhook_event (event : HookEvent) : OutboundWebhookEventSummary :=
  match event with
  | EvInbound _ channel content t => SumInbound channel (bool_decide (is_Some t)) (String.length content)
  | EvToolCall n p _ x =>
      SumToolCall n x (match json_object_len p with
                       | Some len => len
                       | None => if json_is_null p then 0 else 1
                       end)
  | EvOutbound _ channel content t =>
      SumOutbound channel (bool_decide (is_Some t)) (String.length content)
  | EvSessionStart _ _ => SumSessionStart
  | EvSessionEnd _ _ => SumSessionEnd
  | EvResponseTransform _ _ response => SumResponseTransform (String.length response)
  end.

(** Permits in use of a webhook. *)
Definition in_use (h : OutboundWebhookHook) (w : HookWorld) : nat :=
  default 0 (hw_in_use w !! wh_semaphore h).

Definition webhook_execute (h : OutboundWebhookHook) (event : HookEvent) (ctx : HookContext)
    (w : HookWorld) : HookWorld * HookOutcome :=
  let payload := {|
    wp_hook := wh_name h; wp_point := hook_point_str (hook_point event);
    wp_timestamp := hw_now w; wp_event := summarize_webhook_event event;
    wp_metadata_present := negb (json_is_null (hook_metadata ctx)) |} in
  if in_use h w <? wh_permits h then
    ({| hw_now := hw_now w; hw_in_use := <[wh_semaphore h := S (in_use h w)]> (hw_in_use w);
        hw_spawned := hw_spawned w ++ [(h, payload)] |}, outcome_ok)
  else (w, outcome_ok).

(** The end of a delivery task drops its permit. *)
Definition delivery_done (h : OutboundWebhookHook) (w : HookWorld) : HookWorld := {|
  hw_now := hw_now w; hw_in_use := <[wh_semaphore h := in_use h w - 1]> (hw_in_use w);
  hw_spawned := hw_spawned w |}.

(** ** The bundled hooks as hooks *)

Inductive BundledHook :=
| AuditLogHook
| Rule (h : RuleHook)
| Webhook (h : OutboundWebhookHook).

(** None of them waits, so each finishes within its timeout. *)
#[export] Instance bundled_hook : Hook HookWorld BundledHook := {|
  hook_name b := match b with
    | AuditLogHook => "builtin.audit_log" | Rule h => rh_name h | Webhook h => wh_name h end;
  hook_points b := match b with
    | AuditLogHook => ALL_HOOK_POINTS | Rule h => rh_points h | Webhook h => wh_points h end;
  failure_mode b := match b with
    | AuditLogHook => default_failure_mode | Rule h => rh_failure_mode h
    | Webhook _ => default_failure_mode end;
  hook_timeout b := match b with
    | AuditLogHook => default_timeout | Rule h => rh_timeout h | Webhook h => wh_timeout h end;
  execute b event ctx w := match b with
    | AuditLogHook => (w, Some (Ok outcome_ok))
    | Rule h => (w, Some (Ok (rule_execute h event)))
    | Webhook h => let '(w, o) := webhook_execute h event ctx w in (w, Some (Ok o))
    end;
|}.

Definition register_bundled_hooks (r : HookRegistry BundledHook) :
    HookRegistry BundledHook * HookRegistrationSummary :=
  (register_with_priority (W := HookWorld) AuditLogHook 25 r,
   {| hs_hooks := 1; hs_outbound_webhooks := 0; hs_errors := 0 |}).

Definition register_rule (source : string) (acc : HookRegistry BundledHook * HookRegistrationSummary)
    (rule : HookRuleConfig) : HookRegistry BundledHook * HookRegistrationSummary :=
  let '(r, s) := acc in
  match rule_from_config source rule with
  | Ok (hook, priority) =>
      (register_with_priority (W := HookWorld) (Rule hook) priority r,
       {| hs_hooks := S (hs_hooks s); hs_outbound_webhooks := hs_outbound_webhooks s;
          hs_errors := hs_errors s |})
  | Err _ => (r, {| hs_hooks := hs_hooks s; hs_outbound_webhooks := hs_outbound_webhooks s;
                    hs_errors := S (hs_errors s) |})
  end.

Definition register_webhook (source : string)
    (acc : HookRegistry BundledHook * HookRegistrationSummary)
    (webhook : OutboundWebhookConfig * N) : HookRegistry BundledHook * HookRegistrationSummary :=
  let '(r, s) := acc in
  match webhook_from_config source webhook.1 webhook.2 with
  | Ok (hook, priority) =>
      (register_with_priority (W := HookWorld) (Webhook hook) priority r,
       {| hs_hooks := hs_hooks s; hs_outbound_webhooks := S (hs_outbound_webhooks s);
          hs_errors := hs_errors s |})
  | Err _ => (r, {| hs_hooks := hs_hooks s; hs_outbound_webhooks := hs_outbound_webhooks s;
                    hs_errors := S (hs_errors s) |})
  end.

(** [semaphores i] is the identity of the semaphore made for the [i]-th webhook. *)
Definition register_bundle (source : string) (bundle : HookBundleConfig) (semaphores : nat → N)
    (r : HookRegistry BundledHook) : HookRegistry BundledHook * HookRegistrationSummary :=
  let acc := foldl (register_rule source) (r, summary_default) (hb_rules bundle) in
  foldl (register_webhook source) acc
    (imap (λ i c, (c, semaphores i)) (hb_outbound_webhooks bundle)).

(** ** Proofs *)

Lemma timeout_from_ms_range ms hook t :
  match ms with Some ms => (0 <= ms)%Z | None => True end →
  timeout_from_ms ms hook = Ok t → (millis 1 <= t <= millis MAX_HOOK_TIMEOUT_MS)%Z.
Proof.
  unfold timeout_from_ms, MAX_HOOK_TIMEOUT_MS, millis, secs. destruct ms as [ms|]; intros Hms.
  - destruct (Z.eqb_spec ms 0); [done|]. destruct (Z.ltb_spec 30000 ms); [done|].
    simpl. intros Heq. simplify_eq. lia.
  - intros Heq. simplify_eq. lia.
Qed.

(** What holds of every hook a bundle adds. *)
Definition hook_bounded (b : BundledHook) : Prop :=
  hook_points (W := HookWorld) b ≠ [] ∧
  (millis 1 <= hook_timeout (W := HookWorld) b <= millis MAX_HOOK_TIMEOUT_MS)%Z ∧
  match b with
  | Webhook h => 0 < wh_permits h ∧ ∃ hook url parsed,
      validate_webhook_url hook url = Ok parsed ∧ wh_url h = url_display parsed
  | _ => True
  end.

Definition rule_ms_ok (c : HookRuleConfig) : Prop :=
  match hr_timeout_ms c with Some ms => (0 <= ms)%Z | None => True end.
Definition webhook_ms_ok (c : OutboundWebhookConfig) : Prop :=
  match ow_timeout_ms c with Some ms => (0 <= ms)%Z | None => True end.

Lemma rule_from_config_bounded source c h p :
  rule_ms_ok c → rule_from_config source c = Ok (h, p) → hook_bounded (Rule h).
Proof.
  unfold rule_from_config. intros Hms. destruct (hr_points c) as [|pt pts] eqn:Hp; [done|].
  destruct (timeout_from_ms _ _) as [t|] eqn:Ht; [|done].
  destruct (compile_when_regex _ _) as [w|]; [|done].
  destruct (compile_replacements _ _) as [l|]; [|done]. intros Heq. simplify_eq.
  apply timeout_from_ms_range in Ht; [|done]. split_and!; simpl; [by rewrite ?Hp|lia..|done].
Qed.

Lemma webhook_from_config_bounded source c sem h p :
  webhook_ms_ok c → webhook_from_config source c sem = Ok (h, p) → hook_bounded (Webhook h).
Proof.
  unfold webhook_from_config. intros Hms. destruct (ow_points c) as [|pt pts] eqn:Hp; [done|].
  destruct (validate_webhook_url _ _) as [u|] eqn:Hu; [|done].
  destruct (validate_webhook_headers _ _) as [hs|]; [|done].
  destruct (timeout_from_ms _ _) as [t|] eqn:Ht; [|done]. cbv zeta.
  destruct (Nat.eqb_spec (default DEFAULT_WEBHOOK_MAX_IN_FLIGHT (ow_max_in_flight c)) 0); [done|].
  destruct (base_client_error t); [done|]. intros Heq. simplify_eq.
  apply timeout_from_ms_range in Ht.
  - split_and!; simpl; [by rewrite ?Hp|lia..|]. by eauto.
  - unfold webhook_ms_ok in Hms. by destruct (ow_timeout_ms c).
Qed.

Lemma register_elem (h : BundledHook) p r e :
  e ∈ register_with_priority (W := HookWorld) h p r → e ∈ r ∨ entry_hook e = h.
Proof.
  unfold register_with_priority. rewrite sort_by_key_perm. destruct (position _ r).
  - intros [->|?]%elem_of_list_insert; [by right|by left].
  - rewrite elem_of_app, list_elem_of_singleton. intros [?| ->]; [by left|by right].
Qed.

(** A registration loop: the added hooks satisfy [P], and every configuration
    is counted once. *)
Lemma registration_loop {C} (step : _ → C → HookRegistry BundledHook * HookRegistrationSummary)
    (ok : C → Prop) (P : BundledHook → Prop) cs acc :
  (∀ r s c, ok c → let '(r', s') := step (r, s) c in
     total_registered s' + hs_errors s' = S (total_registered s + hs_errors s) ∧
     ∀ e, e ∈ r' → e ∈ r ∨ P (entry_hook e)) →
  Forall ok cs →
  let '(r', s') := foldl step acc cs in
  total_registered s' + hs_errors s' = length cs + (total_registered acc.2 + hs_errors acc.2) ∧
  ∀ e, e ∈ r' → e ∈ acc.1 ∨ P (entry_hook e).
Proof.
  intros Hstep. revert acc. induction cs as [|c cs IH]; intros [r s] Hok; simpl.
  { split; [done|by left]. }
  apply Forall_cons in Hok as [Hc Hok]. specialize (Hstep r s c Hc).
  destruct (step (r, s) c) as [r1 s1] eqn:Hs. destruct Hstep as [Hcnt Hel].
  specialize (IH (r1, s1) Hok). destruct (foldl step (r1, s1) cs) as [r2 s2]. simpl in IH.
  destruct IH as [Hcnt2 Hel2]. split; [lia|].
  intros e He. destruct (Hel2 e He) as [He1|]; [|by right]. by apply Hel.
Qed.

Lemma register_rule_step source r s c :
  rule_ms_ok c → let '(r', s') := register_rule source (r, s) c in
  total_registered s' + hs_errors s' = S (total_registered s + hs_errors s) ∧
  ∀ e, e ∈ r' → e ∈ r ∨ hook_bounded (entry_hook e).
Proof.
  intros Hms. unfold register_rule. destruct (rule_from_config source c) as [[h p]|] eqn:E.
  - split; [unfold total_registered; simpl; lia|]. intros e He.
    apply register_elem in He as [?| ->]; [by left|right]. by eapply rule_from_config_bounded.
  - split; [unfold total_registered; simpl; lia|by left].
Qed.

Lemma register_webhook_step source r s c :
  webhook_ms_ok c.1 → let '(r', s') := register_webhook source (r, s) c in
  total_registered s' + hs_errors s' = S (total_registered s + hs_errors s) ∧
  ∀ e, e ∈ r' → e ∈ r ∨ hook_bounded (entry_hook e).
Proof.
  intros Hms. unfold register_webhook.
  destruct (webhook_from_config source c.1 c.2) as [[h p]|] eqn:E.
  - split; [unfold total_registered; simpl; lia|]. intros e He.
    apply register_elem in He as [?| ->]; [by left|right]. by eapply webhook_from_config_bounded.
  - split; [unfold total_registered; simpl; lia|by left].
Qed.

Lemma register_bundle_bounded source bundle sems r :
  Forall rule_ms_ok (hb_rules bundle) → Forall webhook_ms_ok (hb_outbound_webhooks bundle) →
  let '(r', s) := register_bundle source bundle sems r in
  total_registered s + hs_errors s =
    length (hb_rules bundle) + length (hb_outbound_webhooks bundle) ∧
  ∀ e, e ∈ r' → e ∈ r ∨ hook_bounded (entry_hook e).
Proof.
  intros Hr Hw. unfold register_bundle.
  pose proof (registration_loop (register_rule source) rule_ms_ok hook_bounded (hb_rules bundle)
    (r, summary_default) (register_rule_step source) Hr) as H1.
  destruct (foldl (register_rule source) _ _) as [r1 s1]. destruct H1 as [Hc1 He1].
  pose proof (registration_loop (register_webhook source) (λ c, webhook_ms_ok c.1) hook_bounded
    (imap (λ i c, (c, sems i)) (hb_outbound_webhooks bundle)) (r1, s1)
    (register_webhook_step source)) as H2.
  destruct (foldl (register_webhook source) _ _) as [r2 s2]. destruct H2 as [Hc2 He2].
  { clear -Hw. revert sems. induction Hw as [|c l Hc Hl IH]; intros sems; [constructor|].
    rewrite imap_cons. constructor; [done|]. apply (IH (λ n, sems (S n))). }
  rewrite length_imap in Hc2. simpl in Hc1, Hc2, He1, He2.
  unfold total_registered in *. simpl in *. split; [lia|]. intros e He. destruct (He2 e He) as [?|]; [by apply He1|by right].
Qed.

(** *** Deliveries in flight *)

(** Interleavings of hook executions and ends of deliveries; the webhooks
    that share a semaphore have the same limit. *)
Inductive delivery_step (limit : N → nat) : HookWorld → HookWorld → Prop :=
| step_execute h event ctx w : wh_permits h = limit (wh_semaphore h) →
    delivery_step limit w (webhook_execute h event ctx w).1
| step_done h w : delivery_step limit w (delivery_done h w)
| step_clock now w : delivery_step limit w
    {| hw_now := now; hw_in_use := hw_in_use w; hw_spawned := hw_spawned w |}.

Lemma in_flight_bounded limit w w' sem :
  hw_in_use w = ∅ → rtc (delivery_step limit) w w' →
  default 0 (hw_in_use w' !! sem) ≤ limit sem.
Proof.
  intros Hw Hr. revert sem.
  refine (rtc_invariant (delivery_step limit) (λ w, ∀ sem,
    default 0 (hw_in_use w !! sem) ≤ limit sem) _ w w' _ Hr).
  - clear. intros w w' Hinv Hstep sem. destruct Hstep as [h event ctx w Hp|h w|now w]; simpl.
    + unfold webhook_execute, in_use. destruct (Nat.ltb_spec (default 0 (hw_in_use w !! wh_semaphore h))
        (wh_permits h)); simpl; [|apply Hinv].
      destruct (decide (sem = wh_semaphore h)) as [->|]; [rewrite lookup_insert_eq; simpl; lia|].
      rewrite lookup_insert_ne by done. apply Hinv.
    + unfold in_use. destruct (decide (sem = wh_semaphore h)) as [->|].
      * rewrite lookup_insert_eq. simpl. specialize (Hinv (wh_semaphore h)). lia.
      * rewrite lookup_insert_ne by done. apply Hinv.
    + apply Hinv.
  - intros sem. rewrite Hw, lookup_empty. simpl. lia.
Qed.

(** *** The answers of bundled hooks *)

Lemma bundled_veto b event ctx w w' answer err :
  execute b event ctx w = (w', answer) → veto (W := HookWorld) b answer = Some err →
  ∃ h reason, b = Rule h ∧ err = HookRejected reason ∧ rh_reject_reason h = Some reason ∧
    match rh_when_regex h with
    | Some guard => is_match guard (extract_content event) = true
    | None => True
    end.
Proof.
  destruct b as [|h|h]; simpl.
  - intros [= <- <-]. done.
  - intros [= <- <-]. unfold veto, rule_execute. cbv zeta. intros Hv. exists h.
    destruct (rh_when_regex h) as [g|]; [destruct (is_match g (extract_content event)) eqn:Hg; [|done]|];
      simpl in Hv; (destruct (rh_reject_reason h) as [reason|]; [|by case_bool_decide]);
      injection Hv as <-; by exists reason.
  - unfold webhook_execute. cbv zeta. destruct (_ <? wh_permits h); by intros [= <- <-].
Qed.
End Webhooks.

(** ** Properties *)

(** Registering a bundle counts every configuration exactly once, as
    registered or as an error, and every hook it adds to the registry has at
    least one hook point and a timeout between 1 ms and 30 s; a webhook it
    adds has at least one permit and a URL that passed the network policy. *)
Theorem bundle_registration_bounded {J : SerdeJson} {R : RegexEngine} {U : UrlCrates}
    {N' : WebhookNet} url_display base_client_error source bundle semaphores r
    (Hrules : Forall rule_ms_ok (hb_rules bundle))
    (Hwebhooks : Forall webhook_ms_ok (hb_outbound_webhooks bundle)) :
  let '(r', s) := register_bundle url_display base_client_error source bundle semaphores r in
  total_registered s + hs_errors s =
    length (hb_rules bundle) + length (hb_outbound_webhooks bundle) ∧
  ∀ e, e ∈ r' → e ∈ r ∨ hook_bounded url_display (entry_hook e).
Proof. by apply register_bundle_bounded. Qed.

(** With bundled hooks only, an event is refused in exactly one way: a
    rule hook of its point with a reject reason, whose guard matches the
    content as edited by the hooks before it (if it has a guard), rejects it
    with that reason.  No failure and no timeout ever blocks an event. *)
Theorem bundled_chain_only_rejects {J : SerdeJson} {R : RegexEngine}
    (r : HookRegistry BundledHook) (event : HookEvent) (w w' : HookWorld) (err : HookError)
    (Hrun : run r event w = (w', Err err)) :
  ∃ before h after e1 w1 reason,
    matching_hooks (W := HookWorld) (hook_point event) r = before ++ Rule h :: after ∧
    passed before event w e1 w1 ∧
    err = HookRejected reason ∧ rh_reject_reason h = Some reason ∧
    match rh_when_regex h with
    | Some guard => is_match guard (extract_content e1) = true
    | None => True
    end.
Proof.
  unfold run in Hrun.
  destruct (matching_hooks (hook_point event) r) as [|h0 hs] eqn:Hm; [done|].
  destruct (run_hooks (h0 :: hs) event w) as [w2 [e'|err']] eqn:Hrh; [done|]. simplify_eq.
  apply run_hooks_spec in Hrh as (before & b & after & e1 & w1 & ans & Heq & Hp & Hex & Hv).
  destruct (bundled_veto _ _ _ _ _ _ _ Hex Hv) as (h & reason & -> & -> & Hr & Hg).
  exists before, h, after, e1, w1, reason. by split_and!.
Qed.

(** ** Witnesses *)

Section Witnesses.
#[local] Existing Instance json_lite.
#[local] Existing Instance literal_regex.
#[local] Existing Instance hook_url.
#[local] Existing Instance public_net.

Definition demo_rule : HookRuleConfig := {|
  hr_name := "no-secrets"; hr_points := [BeforeOutbound]; hr_priority := None;
  hr_failure_mode := None; hr_timeout_ms := Some 100%Z; hr_when_regex := Some "secret";
  hr_reject_reason := Some "leak"; hr_replacements := []; hr_prepend := None; hr_append := None |}.

Definition demo_bundle : HookBundleConfig := {|
  hb_rules := [demo_rule; {| hr_name := "slow"; hr_points := [BeforeInbound]; hr_priority := None;
    hr_failure_mode := None; hr_timeout_ms := Some 60000%Z; hr_when_regex := None;
    hr_reject_reason := None; hr_replacements := []; hr_prepend := None; hr_append := None |}];
  hb_outbound_webhooks := [{| ow_name := "notify"; ow_points := [OnSessionEnd];
    ow_url := "https://hooks.example.com/x"; ow_headers := []; ow_timeout_ms := None;
    ow_priority := None; ow_max_in_flight := None |}] |}.

Definition demo_bundle_registry : HookRegistry BundledHook * HookRegistrationSummary :=
  register_bundle (λ _, "https://hooks.example.com/x") (λ _, None) "workspace" demo_bundle
    N.of_nat registry_new.

(** The second rule's timeout is out of range. *)
Lemma bundle_registration_bounded_witness :
  demo_bundle_registry.2 = {| hs_hooks := 1; hs_outbound_webhooks := 1; hs_errors := 1 |} ∧
  ∀ e, e ∈ demo_bundle_registry.1 → hook_bounded (λ _, "https://hooks.example.com/x") (entry_hook e).
Proof.
  split; [vm_compute; reflexivity|].
  pose proof (bundle_registration_bounded (λ _, "https://hooks.example.com/x") (λ _, None)
    "workspace" demo_bundle N.of_nat registry_new) as H.
  unfold demo_bundle_registry.
  destruct (register_bundle _ _ _ _ _ _) as [r' s]. destruct H as [_ H].
  - repeat constructor; discriminate.
  - repeat constructor.
  - intros e He. destruct (H e He) as [He'|]; [|assumption]. by apply elem_of_nil in He'.
Defined.

Definition demo_world : HookWorld := {| hw_now := ""; hw_in_use := ∅; hw_spawned := [] |}.

Lemma bundled_chain_only_rejects_witness :
  run demo_bundle_registry.1 (EvOutbound "u" "repl" "the secret" None) demo_world =
    (demo_world, Err (HookRejected "leak")) ∧
  ∃ before h after, matching_hooks (W := HookWorld) BeforeOutbound demo_bundle_registry.1 =
    before ++ Rule h :: after ∧ rh_reject_reason h = Some "leak".
Proof.
  assert (run demo_bundle_registry.1 (EvOutbound "u" "repl" "the secret" None) demo_world =
    (demo_world, Err (HookRejected "leak"))) as Hrun by (vm_compute; reflexivity).
  split; [exact Hrun|].
  destruct (bundled_chain_only_rejects _ _ _ _ _ Hrun)
    as (b & h & a & e1 & w1 & reason & Hm & _ & Heq & Hr & _).
  injection Heq as <-. by exists b, h, a.
Defined.
End Witnesses.
