(* ===== verification/Skills.v ===== *)
(** * Skills: selection and attenuation

    Models the types of [src/src/skills/mod.rs] and
    [src/src/skills/loaded_skill.rs], the deterministic prefilter of
    [src/src/skills/selector.rs] and the tool ceiling of
    [src/src/skills/attenuation.rs].  Regular expressions and the Unicode
    tables are parameters.  [usize] values from a manifest are [Z] at 64 bits. *)

From S2P Require Import Prelude Text Externals LlmTypes.

(** ** Types *)

Definition MAX_KEYWORDS_PER_SKILL : nat := 20.
Definition MAX_PATTERNS_PER_SKILL : nat := 5.
Definition MAX_TAGS_PER_SKILL : nat := 10.
Definition MIN_KEYWORD_TAG_LENGTH : nat := 3.
Definition MAX_PROMPT_FILE_SIZE : nat := 64 * 1024.

(** [^[a-zA-Z0-9][a-zA-Z0-9._-]{0,63}$] *)
Definition skill_name_char (c : Ascii.ascii) : bool :=
  ascii_alphanumeric c || bool_decide (c = byte 46) || bool_decide (c = byte 95)
  || bool_decide (c = byte 45).
Definition validate_skill_name (name : string) : bool :=
  match name with
  | EmptyString => false
  | String c rest => ascii_alphanumeric c && all_chars skill_name_char rest && (String.length rest <=? 63)
  end.

(** Ordered: [Installed] is below [Trusted]. *)
Inductive SkillTrust := Installed | Trusted.
#[export] Instance skill_trust_eq_dec : EqDecision SkillTrust.
Proof. solve_decision. Defined.
Definition trust_rank (t : SkillTrust) : Z := match t with Installed => 0 | Trusted => 1 end.

Definition skill_trust_display (t : SkillTrust) : string :=
  match t with Installed => "installed" | Trusted => "trusted" end.

Inductive SkillSource :=
| SrcWorkspace (path : string)
| SrcUser (path : string)
| SrcBundled (path : string).

Inductive SkillPackageKind := SingleFile | Bundle.
Definition package_kind_str (k : SkillPackageKind) : string :=
  match k with SingleFile => "single_file" | Bundle => "bundle" end.

Record LoadedSkillLocation := {
  loc_skill : string;
  loc_root : string;
  loc_entrypoint : string;
  loc_package_kind : SkillPackageKind;
}.

(** [Path::is_relative] on Unix *)
Definition path_is_relative (p : string) : bool := negb (starts_with p "/").

Definition location_new (skill root entrypoint : string) (kind : SkillPackageKind) :
    result LoadedSkillLocation string :=
  if negb (path_is_relative entrypoint) then Err "skill entrypoint must be bundle-relative"
  else Ok {| loc_skill := skill; loc_root := root; loc_entrypoint := entrypoint;
             loc_package_kind := kind |}.

Record ActivationCriteria := {
  ac_keywords : list string;
  ac_exclude_keywords : list string;
  ac_patterns : list string;
  ac_tags : list string;
  ac_max_context_tokens : Z;
}.

Definition long_enough (s : string) : bool := MIN_KEYWORD_TAG_LENGTH <=? String.length s.

Definition enforce_limits (a : ActivationCriteria) : ActivationCriteria := {|
  ac_keywords := take MAX_KEYWORDS_PER_SKILL (filter (λ k, long_enough k = true) (ac_keywords a));
  ac_exclude_keywords :=
    take MAX_KEYWORDS_PER_SKILL (filter (λ k, long_enough k = true) (ac_exclude_keywords a));
  ac_patterns := take MAX_PATTERNS_PER_SKILL (ac_patterns a);
  ac_tags := take MAX_TAGS_PER_SKILL (filter (λ t, long_enough t = true) (ac_tags a));
  ac_max_context_tokens := ac_max_context_tokens a |}.

Record GatingRequirements := {
  req_bins : list string; req_env : list string; req_config : list string }.
Record OpenClawMeta := { oc_requires : GatingRequirements }.
Record SkillMetadata := { sm_openclaw : option OpenClawMeta }.

Record SkillManifest := {
  mf_name : string;
  mf_version : string;
  mf_description : string;
  mf_activation : ActivationCriteria;
  mf_metadata : option SkillMetadata;
}.

Definition validate_location_matches_manifest (m : SkillManifest) (l : LoadedSkillLocation) :
    result unit string :=
  if bool_decide (mf_name m ≠ loc_skill l) then
    Err ("skill location identifier '" +:+ loc_skill l +:+ "' does not match manifest name '"
         +:+ mf_name m +:+ "'")
  else if negb (path_is_relative (loc_entrypoint l))
  then Err "skill entrypoint must be bundle-relative"
  else Ok tt.

Section Loaded.
Context {R : RegexEngine}.

Record LoadedSkill := {
  ls_manifest : SkillManifest;
  ls_prompt_content : string;
  ls_trust : SkillTrust;
  ls_source : SkillSource;
  ls_location : LoadedSkillLocation;
  ls_content_hash : string;
  ls_compiled_patterns : list regex;
  ls_lowercased_keywords : list string;
  ls_lowercased_exclude_keywords : list string;
  ls_lowercased_tags : list string;
}.

(** [LoadedSkillParts] has the same fields. *)
Definition loaded_skill_new (parts : LoadedSkill) : result LoadedSkill string :=
  match validate_location_matches_manifest (ls_manifest parts) (ls_location parts) with
  | Err e => Err e
  | Ok _ => Ok parts
  end.

Definition set_location (l : LoadedSkillLocation) (s : LoadedSkill) :
    LoadedSkill * result unit string :=
  match validate_location_matches_manifest (ls_manifest s) l with
  | Err e => (s, Err e)
  | Ok _ =>
      ({| ls_manifest := ls_manifest s; ls_prompt_content := ls_prompt_content s;
          ls_trust := ls_trust s; ls_source := ls_source s; ls_location := l;
          ls_content_hash := ls_content_hash s; ls_compiled_patterns := ls_compiled_patterns s;
          ls_lowercased_keywords := ls_lowercased_keywords s;
          ls_lowercased_exclude_keywords := ls_lowercased_exclude_keywords s;
          ls_lowercased_tags := ls_lowercased_tags s |}, Ok tt)
  end.

Definition skill_name (s : LoadedSkill) : string := mf_name (ls_manifest s).

(** Patterns that do not compile (or compile to more than 64 KiB) are dropped. *)
Definition compile_patterns (patterns : list string) : list regex :=
  omap (λ p, match regex_new p with Ok r => Some r | Err _ => None end) patterns.

(** ** Scoring *)

Definition MAX_SKILL_CONTEXT_TOKENS : Z := 4000.
Definition MAX_KEYWORD_SCORE : Z := 30.
Definition MAX_TAG_SCORE : Z := 15.
Definition MAX_REGEX_SCORE : Z := 40.

Context {A : UnicodeAlnum}.

(** What one keyword is worth: 10 as a word, 5 inside a word. *)
Definition keyword_points (message_lower kw : string) : Z :=
  if existsb (λ word, bool_decide (trim_matches (λ c, negb (is_alphanumeric c)) word = kw))
       (split_whitespace message_lower)
  then 10 else if contains message_lower kw then 5 else 0.

(** The counters are [u32]. *)
Definition add_points {B} (points : B → Z) (l : list B) : Z :=
  foldl (λ acc x, wrap_u32 (acc + points x)) 0%Z l.

Definition score_skill (skill : LoadedSkill) (message_lower message_original : string) : Z :=
  if existsb (contains message_lower) (ls_lowercased_exclude_keywords skill) then 0
  else
    let keyword_score := add_points (keyword_points message_lower) (ls_lowercased_keywords skill) in
    let score := Z.min keyword_score MAX_KEYWORD_SCORE in
    let tag_score := add_points (λ tag, if contains message_lower tag then 3 else 0)%Z
                       (ls_lowercased_tags skill) in
    let score := wrap_u32 (score + Z.min tag_score MAX_TAG_SCORE) in
    let regex_score := add_points (λ re, if is_match re message_original then 20 else 0)%Z
                         (ls_compiled_patterns skill) in
    wrap_u32 (score + Z.min regex_score MAX_REGEX_SCORE).

(** ** Selection *)

Record ScoredSkill := { ss_skill : LoadedSkill; ss_score : Z }.

(** [(len as f64 * 0.25) as usize]: exact, as no string reaches 2^53 bytes. *)
Definition approx_tokens (prompt : string) : Z := Z.of_nat (String.length prompt) / 4.

Definition token_cost (s : LoadedSkill) : Z :=
  let declared_tokens := ac_max_context_tokens (mf_activation (ls_manifest s)) in
  let approx := approx_tokens (ls_prompt_content s) in
  let raw_cost := if (wrap_u64 (declared_tokens * 2) <? approx)%Z then approx
                  else declared_tokens in
  Z.max raw_cost 1.

(** The loop over the ranked skills. *)
Fixpoint take_within (max_candidates : nat) (scored : list ScoredSkill) (chosen : list LoadedSkill)
    (budget_remaining : Z) : list LoadedSkill :=
  match scored with
  | [] => chosen
  | entry :: scored =>
      if max_candidates <=? length chosen then chosen
      else
        let cost := token_cost (ss_skill entry) in
        if (cost <=? budget_remaining)%Z
        then take_within max_candidates scored (chosen ++ [ss_skill entry]) (budget_remaining - cost)
        else take_within max_candidates scored chosen budget_remaining
  end.

Context {U : UnicodeCase}.

Definition rank_skills (message : string) (available : list LoadedSkill) : list ScoredSkill :=
  let message_lower := to_lowercase message in
  let scored := omap (λ skill, let score := score_skill skill message_lower message in
                        if (0 <? score)%Z then Some {| ss_skill := skill; ss_score := score |}
                        else None) available in
  sort_by_key (λ s, - ss_score s)%Z scored.

Definition prefilter_skills (message : string) (available : list LoadedSkill)
    (max_candidates : nat) (max_context_tokens : Z) : list LoadedSkill :=
  if bool_decide (available = []) || bool_decide (message = "") then []
  else take_within max_candidates (rank_skills message available) [] max_context_tokens.

(** ** Attenuation *)

Definition READ_ONLY_TOOLS : list string :=
  ["memory_search"; "memory_read"; "memory_tree"; "time"; "echo"; "json"; "skill_list";
   "skill_search"; "skill_read_file"].

Context {J : SerdeJson}.

Record AttenuationResult := {
  at_tools : list ToolDefinition;
  at_min_trust : SkillTrust;
  at_explanation : string;
  at_removed_tools : list string;
}.

(** [iter().map(|s| s.trust).min().unwrap_or(Trusted)] *)
Definition min_trust (active : list LoadedSkill) : SkillTrust :=
  default Trusted (min_by_key trust_rank (ls_trust <$> active)).

Fixpoint split_read_only (tools : list ToolDefinition) : list ToolDefinition * list string :=
  match tools with
  | [] => ([], [])
  | t :: tools =>
      let '(kept, removed) := split_read_only tools in
      if bool_decide (td_name t ∈ READ_ONLY_TOOLS) then (t :: kept, removed)
      else (kept, td_name t :: removed)
  end.

Definition attenuate_tools (tools : list ToolDefinition) (active : list LoadedSkill) :
    AttenuationResult :=
  if bool_decide (active = []) then
    {| at_tools := tools; at_min_trust := Trusted;
       at_explanation := "No skills active, all tools available"; at_removed_tools := [] |}
  else
    match min_trust active with
    | Trusted =>
        {| at_tools := tools; at_min_trust := Trusted;
           at_explanation := "All active skills are trusted (full trust), all tools available";
           at_removed_tools := [] |}
    | Installed =>
        let '(kept, removed) := split_read_only tools in
        {| at_tools := kept; at_min_trust := Installed;
           at_explanation :=
             "Installed skill present: restricted to read-only tools, removed "
             +:+ pretty (length removed) +:+ " tool(s): " +:+ join ", " removed;
           at_removed_tools := removed |}
    end.
End Loaded.

(** ** Proofs *)

Section Proofs.
Context {R : RegexEngine} {A : UnicodeAlnum} {U : UnicodeCase} {J : SerdeJson}.

(** *** Selection *)

Definition skills_cost (l : list LoadedSkill) : Z := foldr (λ s acc, token_cost s + acc)%Z 0%Z l.

Lemma skills_cost_app l1 l2 : skills_cost (l1 ++ l2) = (skills_cost l1 + skills_cost l2)%Z.
Proof. induction l1 as [|s l1 IH]; simpl; [done|]. rewrite IH. lia. Qed.

Lemma token_cost_pos s : (1 <= token_cost s)%Z.
Proof. unfold token_cost. cbv zeta. lia. Qed.

Lemma take_within_full k l chosen b :
  k ≤ length chosen → take_within k l chosen b = chosen.
Proof. intros Hk. destruct l; simpl; [done|]. by destruct (Nat.leb_spec k (length chosen)); [|lia]. Qed.

Lemma take_within_app k l1 l2 chosen b :
  take_within k (l1 ++ l2) chosen b =
  let c := take_within k l1 chosen b in
  take_within k l2 c (b - (skills_cost c - skills_cost chosen)).
Proof.
  revert chosen b. induction l1 as [|e l1 IH]; intros chosen b; cbv zeta; cbn [app take_within].
  { by rewrite Z.sub_diag, Z.sub_0_r. }
  destruct (Nat.leb_spec k (length chosen)).
  { by rewrite take_within_full. }
  cbv zeta. destruct (Z.leb_spec (token_cost (ss_skill e)) b); rewrite IH; cbv zeta; [|done].
  f_equal. rewrite (skills_cost_app chosen). simpl. lia.
Qed.

(** One more ranked skill: it is chosen exactly when there is room for it. *)
Lemma take_within_snoc k l e b :
  let c := take_within k l [] b in
  take_within k (l ++ [e]) [] b =
  c ++ (if decide (length c < k ∧ (token_cost (ss_skill e) <= b - skills_cost c)%Z)
        then [ss_skill e] else []).
Proof.
  cbv zeta. rewrite take_within_app. cbv zeta. cbn [take_within]. rewrite Z.sub_0_r.
  set (c := take_within k l [] b).
  destruct (Nat.leb_spec k (length c)).
  { rewrite decide_False by lia. by rewrite app_nil_r. }
  destruct (Z.leb_spec (token_cost (ss_skill e)) (b - skills_cost c)).
  - by rewrite decide_True by done.
  - rewrite decide_False by lia. by rewrite app_nil_r.
Qed.

Lemma take_within_bounds k l b :
  (0 <= b)%Z →
  let c := take_within k l [] b in
  length c ≤ k ∧ (skills_cost c <= b)%Z ∧ c `sublist_of` (ss_skill <$> l).
Proof.
  intros Hb. induction l as [|e l IH] using rev_ind; [cbv zeta; simpl; split_and!; [lia|done|constructor]|].
  cbv zeta in *. rewrite take_within_snoc. cbv zeta. set (c := take_within k l [] b) in *.
  destruct IH as (Hl & Hc & Hs). rewrite fmap_app. case_decide as Hd.
  - rewrite length_app, skills_cost_app. simpl. split_and!; [lia|lia|].
    by apply sublist_app.
  - rewrite app_nil_r. split_and!; [done|done|]. by apply sublist_inserts_r.
Qed.

(** *** Scores *)

Lemma add_points_nonneg {B} (points : B → Z) l : (0 <= add_points points l)%Z.
Proof.
  unfold add_points. destruct l as [|x l] using rev_ind; [done|].
  rewrite foldl_app. apply wrap_u32_range.
Qed.

Lemma score_skill_range s ml m : (0 <= score_skill s ml m <= 85)%Z.
Proof.
  unfold score_skill. case_match; [lia|]. cbv zeta.
  unfold MAX_KEYWORD_SCORE, MAX_TAG_SCORE, MAX_REGEX_SCORE.
  pose proof (add_points_nonneg (keyword_points ml) (ls_lowercased_keywords s)).
  pose proof (add_points_nonneg (λ tag, if contains ml tag then 3 else 0)%Z (ls_lowercased_tags s)).
  pose proof (add_points_nonneg (λ re, if is_match re m then 20 else 0)%Z (ls_compiled_patterns s)).
  rewrite (wrap_u32_small (Z.min _ 30 + _)) by (unfold u32_max; lia).
  rewrite wrap_u32_small by (unfold u32_max; lia). lia.
Qed.

Lemma rank_skills_elem message available e :
  e ∈ rank_skills message available →
  ss_skill e ∈ available ∧ (0 < ss_score e <= 85)%Z ∧
  ss_score e = score_skill (ss_skill e) (to_lowercase message) message ∧
  Forall (λ k, contains (to_lowercase message) k = false)
    (ls_lowercased_exclude_keywords (ss_skill e)).
Proof.
  unfold rank_skills. cbv zeta. rewrite sort_by_key_perm, list_elem_of_omap.
  intros (s & Hs & He). destruct (Z.ltb_spec 0 (score_skill s (to_lowercase message) message)); [|done].
  simplify_eq/=. split_and!; [done|lia|apply score_skill_range|done|].
  unfold score_skill in *. destruct (existsb _ _) eqn:Hex; [lia|].
  apply Forall_forall. intros k Hk. destruct (contains _ k) eqn:Hc; [|done].
  rewrite <-Hex. symmetry. apply existsb_exists. exists k. split; [|done].
  by apply list_elem_of_In.
Qed.

(** *** Attenuation *)

Lemma min_trust_spec active :
  min_trust active = Installed ↔ ∃ s, s ∈ active ∧ ls_trust s = Installed.
Proof.
  unfold min_trust. destruct active as [|s0 active].
  { simpl. split; [done|]. by intros (s & ?%elem_of_nil & _). }
  destruct (min_by_key_cons trust_rank (ls_trust s0) (ls_trust <$> active)) as (b & Hb & Hin & Hmin).
  cbn [fmap list_fmap]. rewrite Hb. simpl. split.
  - intros ->. change (ls_trust s0 :: (ls_trust <$> active)) with (ls_trust <$> s0 :: active) in Hin.
    apply list_elem_of_fmap in Hin as (s & Hs & Hin). by exists s.
  - intros (s & Hs & Ht). specialize (Hmin (ls_trust s)). rewrite Ht in Hmin.
    destruct b; [done|]. exfalso. enough (1 <= 0)%Z by lia. apply Hmin.
    rewrite <-Ht. change (ls_trust s0 :: (ls_trust <$> active)) with (ls_trust <$> s0 :: active).
    by apply list_elem_of_fmap_2.
Qed.

Lemma split_read_only_spec tools :
  split_read_only tools =
  (filter (λ t, td_name t ∈ READ_ONLY_TOOLS) tools,
   td_name <$> filter (λ t, td_name t ∉ READ_ONLY_TOOLS) tools).
Proof.
  induction tools as [|t tools IH]; simpl; [done|]. rewrite IH, !filter_cons.
  case_bool_decide; repeat case_decide; done.
Qed.

Lemma attenuate_tools_spec tools active :
  let r := attenuate_tools tools active in
  at_tools r = (if decide (min_trust active = Installed)
                then filter (λ t, td_name t ∈ READ_ONLY_TOOLS) tools else tools) ∧
  at_removed_tools r = (if decide (min_trust active = Installed)
                        then td_name <$> filter (λ t, td_name t ∉ READ_ONLY_TOOLS) tools else []) ∧
  at_min_trust r = min_trust active.
Proof.
  unfold attenuate_tools. cbv zeta. case_bool_decide as Ha; [by subst active|].
  destruct (min_trust active); [|done]. rewrite split_read_only_spec. done.
Qed.
End Proofs.

(** ** Properties *)

(** One installed skill among the active ones limits the model to the
    read-only tools, whatever else is active: exactly those of the offered
    tools stay, in their order, and the others are reported as removed.  With
    trusted skills only, or none, all tools stay.  Activating more skills
    never makes a tool available. *)
Theorem attenuation_ceiling {R : RegexEngine} {J : SerdeJson} (tools : list ToolDefinition)
    (active more : list LoadedSkill) :
  let r := attenuate_tools tools active in
  ((∃ s, s ∈ active ∧ ls_trust s = Installed) →
     at_tools r = filter (λ t, td_name t ∈ READ_ONLY_TOOLS) tools ∧
     at_removed_tools r = td_name <$> filter (λ t, td_name t ∉ READ_ONLY_TOOLS) tools ∧
     at_min_trust r = Installed) ∧
  ((∀ s, s ∈ active → ls_trust s = Trusted) →
     at_tools r = tools ∧ at_removed_tools r = [] ∧ at_min_trust r = Trusted) ∧
  at_tools (attenuate_tools tools (active ++ more)) `sublist_of` at_tools r.
Proof.
  intros r. destruct (attenuate_tools_spec tools active) as (Ht & Hr & Hm). fold r in Ht, Hr, Hm.
  split_and!.
  - intros Hi%min_trust_spec. rewrite Ht, Hr, Hm. by rewrite !decide_True by done.
  - intros Hall. assert (min_trust active ≠ Installed) as Hne.
    { intros (s & Hs & Hi)%min_trust_spec. apply Hall in Hs. congruence. }
    rewrite Ht, Hr, Hm. rewrite !decide_False by done. split_and!; try done.
    by destruct (min_trust active).
  - destruct (attenuate_tools_spec tools (active ++ more)) as (Ht' & _). rewrite Ht, Ht'.
    destruct (decide (min_trust active = Installed)) as [Hi|]; [|case_decide; [apply sublist_filter|done]].
    rewrite decide_True; [done|]. apply min_trust_spec in Hi as (s & Hs & Hi). apply min_trust_spec.
    exists s. split; [|done]. apply elem_of_app. by left.
Qed.

(** The prefilter takes at most the allowed number of skills, of a total
    estimated cost within the budget, from the available skills with a
    positive score (at most 85) that no exclude keyword vetoes, in the order
    of descending scores with ties in the order of availability.  It is
    greedy: going down the ranking, the next skill is taken exactly when a
    place is left and its cost fits into what remains of the budget. *)
Theorem prefilter_greedy_within_budget {R : RegexEngine} {A : UnicodeAlnum} {U : UnicodeCase}
    message (available : list LoadedSkill) k budget
    (Hmessage : message ≠ "") (Hbudget : (0 <= budget)%Z) :
  let ranked := rank_skills message available in
  let chosen := prefilter_skills message available k budget in
  length chosen ≤ k ∧ (skills_cost chosen <= budget)%Z ∧ chosen `sublist_of` (ss_skill <$> ranked) ∧
  (∀ e, e ∈ ranked → ss_skill e ∈ available ∧ (0 < ss_score e <= 85)%Z ∧
     Forall (λ kw, contains (to_lowercase message) kw = false)
       (ls_lowercased_exclude_keywords (ss_skill e))) ∧
  sorted_by (λ e, - ss_score e)%Z ranked ∧
  chosen = take_within k ranked [] budget ∧
  (∀ before e, let c := take_within k before [] budget in
     take_within k (before ++ [e]) [] budget =
     c ++ (if decide (length c < k ∧ (token_cost (ss_skill e) <= budget - skills_cost c)%Z)
           then [ss_skill e] else [])).
Proof.
  intros ranked chosen.
  assert (chosen = take_within k ranked [] budget) as Hchosen.
  { subst chosen ranked. unfold prefilter_skills. rewrite (bool_decide_eq_false_2 (message = "")) by done.
    case_bool_decide as Ha; [|done]. by subst available. }
  destruct (take_within_bounds k ranked budget Hbudget) as (Hl & Hc & Hs). rewrite <-Hchosen in Hl, Hc, Hs.
  split_and!; try done.
  - intros e He. apply rank_skills_elem in He as (? & ? & _ & ?). done.
  - apply sort_by_key_sorted.
  - intros before e. apply take_within_snoc.
Qed.

(** ** Witnesses *)

Section Witnesses.
#[local] Existing Instance literal_regex.
#[local] Existing Instance ascii_alnum.
#[local] Existing Instance ascii_case.

Definition demo_skill (name : string) (trust : SkillTrust) (keywords vetoes : list string)
    (tokens : Z) : LoadedSkill := {|
  ls_manifest := {| mf_name := name; mf_version := "1"; mf_description := "";
    mf_activation := {| ac_keywords := keywords; ac_exclude_keywords := vetoes; ac_patterns := [];
                        ac_tags := []; ac_max_context_tokens := tokens |};
    mf_metadata := None |};
  ls_prompt_content := "prompt"; ls_trust := trust; ls_source := SrcUser "skills";
  ls_location := {| loc_skill := name; loc_root := "skills"; loc_entrypoint := "SKILL.md";
                    loc_package_kind := SingleFile |};
  ls_content_hash := ""; ls_compiled_patterns := []; ls_lowercased_keywords := keywords;
  ls_lowercased_exclude_keywords := vetoes; ls_lowercased_tags := [] |}.

Definition demo_skills : list LoadedSkill :=
  [demo_skill "substring" Trusted ["mail"] [] 100;
   demo_skill "word" Installed ["email"] [] 1500;
   demo_skill "big" Trusted ["email"; "write"] [] 3000;
   demo_skill "vetoed" Trusted ["email"] ["draft"] 10].

(** The best match is too large for the budget and one skill is vetoed. *)
Lemma prefilter_greedy_within_budget_witness :
  skill_name <$> prefilter_skills "Write an email draft" demo_skills 3 2000 =
    ["word"; "substring"] ∧
  (skills_cost (prefilter_skills "Write an email draft" demo_skills 3 2000) <= 2000)%Z.
Proof.
  split; [vm_compute; reflexivity|].
  destruct (prefilter_greedy_within_budget "Write an email draft" demo_skills 3 2000)
    as (_ & H & _); [discriminate|discriminate|exact H].
Defined.
End Witnesses.
