(* ===== verification/Submission.v ===== *)
(** * Submissions: what the user asked for

    Models [src/src/agent/submission/types.rs] and
    [src/src/agent/submission/parser.rs]: the kinds of submissions, their
    results, and the chain of parsers that turns a message into one.  The
    serde parser of a structured submission and the text form of UUIDs are
    parameters. *)

From S2P Require Import Prelude Text Externals.

Inductive Submission :=
| UserInput (content : string)
| ExecApproval (request_id : Uuid) (approved always : bool)
| ApprovalResponse (approved always : bool)
| SInterrupt
| SCompact
| SUndo
| SRedo
| SResume (checkpoint_id : Uuid)
| SClear
| SwitchThread (thread_id : Uuid)
| NewThread
| SHeartbeat
| SSummarize
| SSuggest
| JobStatus (job_id : option string)
| JobCancel (job_id : string)
| SQuit
| SystemCommand (command : string) (args : list string).
#[export] Instance submission_eq_dec : EqDecision Submission.
Proof. solve_decision. Defined.

Definition is_control (s : Submission) : bool :=
  match s with
  | SInterrupt | SCompact | SUndo | SRedo | SClear | NewThread | SHeartbeat | SSummarize
  | SSuggest | JobStatus _ | JobCancel _ | SystemCommand _ _ => true
  | _ => false
  end.

Inductive SubmissionResult {J : SerdeJson} :=
| SubResponse (content : string)
| NeedApproval (request_id : Uuid) (tool_name description : string) (parameters : json)
| SubOk (message : option string)
| SubError (message : string)
| SubInterrupted.

Definition ok_with_message {J : SerdeJson} (m : string) : SubmissionResult := SubOk (Some m).

(** ** The parsers *)

(** A [match] on string literals, as the list of its arms. *)
Fixpoint arm {A} (key : string) (arms : list (string * A)) : option A :=
  match arms with
  | [] => None
  | (text, a) :: arms => if bool_decide (key = text) then Some a else arm key arms
  end.

Definition is_quit_command (lower : string) : bool :=
  bool_decide (lower ∈ ["/quit"; "/exit"; "/shutdown"]).

Definition parse_control_command (lower : string) : option Submission :=
  match arm lower [
    ("/undo", SUndo); ("/redo", SRedo); ("/interrupt", SInterrupt); ("/stop", SInterrupt);
    ("/compact", SCompact); ("/clear", SClear); ("/heartbeat", SHeartbeat);
    ("/summarize", SSummarize); ("/summary", SSummarize); ("/suggest", SSuggest);
    ("/thread new", NewThread); ("/new", NewThread)] with
  | Some s => Some s
  | None => if is_quit_command lower then Some SQuit else None
  end.

Definition command_args (trimmed : string) : list string := drop 1 (split_whitespace trimmed).

Definition parse_system_command (trimmed lower : string) : option Submission :=
  match arm lower [
    ("/help", "help"); ("/?", "help"); ("/version", "version"); ("/tools", "tools");
    ("/skills", "skills"); ("/ping", "ping"); ("/debug", "debug"); ("/restart", "restart")] with
  | Some command => Some (SystemCommand command [])
  | None =>
      if starts_with lower "/skills " then Some (SystemCommand "skills" (command_args trimmed))
      else if starts_with lower "/model" then Some (SystemCommand "model" (command_args trimmed))
      else None
  end.

(** [find_map]: the first prefix that fits. *)
Fixpoint after_prefix (s : string) (prefixes : list string) : option string :=
  match prefixes with
  | [] => None
  | p :: prefixes => match strip_prefix s p with
                     | Some rest => Some rest
                     | None => after_prefix s prefixes
                     end
  end.

Definition job_id_after (lower : string) (prefixes : list string) : option string :=
  rest ← after_prefix lower prefixes;
  let id := trim rest in
  if bool_decide (id = "") then None else Some id.

Definition parse_job_command (lower : string) : option Submission :=
  if bool_decide (lower ∈ ["/status"; "/progress"; "/list"]) then Some (JobStatus None)
  else match job_id_after lower ["/status "; "/progress "] with
       | Some id => Some (JobStatus (Some id))
       | None => match job_id_after lower ["/cancel "] with
                 | Some id => Some (JobCancel id)
                 | None => None
                 end
       end.

Definition YES_WORDS : list string := ["yes"; "y"; "approve"; "ok"; "/approve"; "/yes"; "/y"].
Definition ALWAYS_WORDS : list string :=
  ["always"; "a"; "yes always"; "approve always"; "/always"; "/a"].
Definition NO_WORDS : list string :=
  ["no"; "n"; "deny"; "reject"; "cancel"; "/deny"; "/no"; "/n"].

Definition parse_approval_response (lower : string) : option Submission :=
  if bool_decide (lower ∈ YES_WORDS) then Some (ApprovalResponse true false)
  else if bool_decide (lower ∈ ALWAYS_WORDS) then Some (ApprovalResponse true true)
  else if bool_decide (lower ∈ NO_WORDS) then Some (ApprovalResponse false false)
  else None.

Section Parser.
Context {T : UuidText} {U : UnicodeCase}.
(** [serde_json::from_str::<Submission>(s).ok()] *)
Context (submission_from_json : string → option Submission).

Definition parse_thread_command (lower : string) : option Submission :=
  let switch :=
    rest ← strip_prefix lower "/thread ";
    let rest := trim rest in
    if bool_decide (rest = "new") then None else SwitchThread <$> uuid_parse_str rest in
  match switch with
  | Some s => Some s
  | None => rest ← strip_prefix lower "/resume "; SResume <$> uuid_parse_str (trim rest)
  end.

Definition parse_exec_approval (trimmed : string) : option Submission :=
  if negb (starts_with trimmed "{") then None
  else match submission_from_json trimmed with
       | Some (ExecApproval r a al) => Some (ExecApproval r a al)
       | _ => None
       end.

Definition or_else {A} (o : option A) (next : option A) : option A :=
  match o with Some x => Some x | None => next end.

Definition parse (content : string) : Submission :=
  let trimmed := trim content in
  let lower := to_lowercase trimmed in
  default (UserInput content)
    (or_else (parse_control_command lower)
      (or_else (parse_system_command trimmed lower)
        (or_else (parse_job_command lower)
          (or_else (parse_thread_command lower)
            (or_else (parse_exec_approval trimmed) (parse_approval_response lower)))))).
End Parser.

(** ** Which parser produces what *)

Lemma arm_Some {A} key (arms : list (string * A)) a : arm key arms = Some a → (key, a) ∈ arms.
Proof.
  induction arms as [|[t b] arms IH]; simpl; [done|]. case_bool_decide; [|set_solver].
  intros [= ->]. subst. left.
Qed.

Lemma parse_control_kinds lower s :
  parse_control_command lower = Some s → is_control s = true ∨ (s = SQuit ∧ is_quit_command lower = true).
Proof.
  unfold parse_control_command. destruct (arm lower _) as [s'|] eqn:E.
  - intros [= <-]. left. apply arm_Some in E. repeat (apply elem_of_cons in E as [[= -> ->]|E]; [done|]).
    by apply elem_of_nil in E.
  - destruct (is_quit_command lower); [|done]. intros [= <-]. by right.
Qed.

Lemma parse_system_kinds trimmed lower s :
  parse_system_command trimmed lower = Some s → ∃ command args, s = SystemCommand command args.
Proof. unfold parse_system_command. repeat case_match; naive_solver. Qed.

Lemma parse_job_kinds lower s :
  parse_job_command lower = Some s → (∃ id, s = JobStatus id) ∨ ∃ id, s = JobCancel id.
Proof. unfold parse_job_command. repeat case_match; naive_solver. Qed.

Lemma parse_thread_kinds {T : UuidText} lower s :
  parse_thread_command lower = Some s → (∃ id, s = SwitchThread id) ∨ ∃ id, s = SResume id.
Proof.
  unfold parse_thread_command. cbv zeta. case_match eqn:E.
  - intros [= <-]. apply bind_Some in E as (rest & _ & E). case_bool_decide; [done|].
    apply fmap_Some in E as (id & _ & ->). eauto.
  - intros (rest & _ & (id & _ & ->)%fmap_Some)%bind_Some. eauto.
Qed.

Lemma parse_exec_kinds from_json trimmed s :
  parse_exec_approval from_json trimmed = Some s →
  starts_with trimmed "{" = true ∧ from_json trimmed = Some s ∧ ∃ r a al, s = ExecApproval r a al.
Proof.
  unfold parse_exec_approval. destruct (starts_with trimmed "{"); [|done]. simpl.
  repeat case_match; naive_solver.
Qed.

(** The word that stands for an approval. *)
Definition approval_words (approved always : bool) : list string :=
  match approved, always with
  | true, false => YES_WORDS
  | true, true => ALWAYS_WORDS
  | false, false => NO_WORDS
  | false, true => []
  end.

Lemma parse_approval_kinds lower s :
  parse_approval_response lower = Some s →
  ∃ a al, s = ApprovalResponse a al ∧ lower ∈ approval_words a al.
Proof. unfold parse_approval_response. repeat case_bool_decide; naive_solver. Qed.

(** ** Texts of commands *)

Lemma map_chars_id f s : all_chars (λ c, bool_decide (f c = c)) s = true → map_chars f s = s.
Proof.
  induction s as [|c s IH]; simpl; [done|].
  intros [Hc%bool_decide_eq_true Hs]%andb_true_iff. by rewrite Hc, IH.
Qed.

Lemma all_chars_impl (p q : Ascii.ascii → bool) s :
  (∀ c, p c = true → q c = true) → all_chars p s = true → all_chars q s = true.
Proof.
  intros H. induction s as [|c s IH]; simpl; [done|]. intros [? ?]%andb_true_iff. by rewrite H, IH.
Qed.

Lemma all_chars_app p s t : all_chars p (s +:+ t) = all_chars p s && all_chars p t.
Proof. induction s; simpl; [done|]. rewrite IHs. by rewrite andb_assoc. Qed.

(** ASCII without upper-case letters *)
Definition lower_char (c : Ascii.ascii) : bool := is_ascii c && bool_decide (ascii_lower c = c).

Lemma to_lowercase_lower {U : UnicodeCase} s : all_chars lower_char s = true → to_lowercase s = s.
Proof.
  intros Hs. rewrite to_lowercase_ascii.
  - apply map_chars_id. eapply all_chars_impl; [|exact Hs]. by intros c [_ ?]%andb_true_iff.
  - eapply all_chars_impl; [|exact Hs]. by intros c [? _]%andb_true_iff.
Qed.

Definition visible (c : Ascii.ascii) : bool :=
  let n := Ascii.N_of_ascii c in (33 <=? n)%N && (n <=? 126)%N.

(** Tests on character codes as inequalities. *)
Ltac char_bounds :=
  rewrite ?orb_true_iff, ?andb_true_iff, ?orb_true_iff, ?andb_true_iff, ?orb_true_iff, ?N.leb_le,
    ?N.eqb_eq in *; lia.

Lemma ws_len_visible_last x c : visible c = true → ws_len (x +:+ String c "") ≤ String.length x.
Proof.
  intros [H1%N.leb_le H2%N.leb_le]%andb_true_iff. unfold ws_len.
  destruct x as [|d x]; rewrite ?str_app_cons, ?str_app_nil.
  { repeat case_match; try done; exfalso; char_bounds. }
  simpl String.length. case_match; [lia|].
  destruct x as [|e x]; rewrite ?str_app_cons, ?str_app_nil.
  { repeat case_match; try lia; exfalso; char_bounds. }
  simpl String.length. case_match; [lia|].
  destruct x as [|g x]; rewrite ?str_app_cons, ?str_app_nil; [|simpl; repeat case_match; lia].
  repeat case_match; try lia. exfalso. char_bounds.
Qed.

Lemma trim_start_visible_last x c :
  visible c = true → ∃ x', trim_start (x +:+ String c "") = x' +:+ String c "".
Proof.
  intros Hc. unfold trim_start. generalize (String.length (x +:+ String c "")) as fuel. intros fuel.
  revert x. induction fuel as [|fuel IH]; intros x; cbn [trim_start_fuel]; [by exists x|].
  pose proof (ws_len_visible_last x c Hc) as Hle.
  destruct (ws_len (x +:+ String c "")) as [|n] eqn:E; [by exists x|].
  assert (str_drop (S n) (x +:+ String c "") = str_drop (S n) x +:+ String c "") as ->.
  { rewrite <-(str_take_drop (S n) x) at 1. rewrite str_app_assoc. apply str_drop_app.
    rewrite str_length_take. lia. }
  apply IH.
Qed.

Lemma trim_end_visible_last x c : visible c = true → trim_end (x +:+ String c "") = x +:+ String c "".
Proof.
  intros Hc. induction x as [|d x IH]; rewrite ?str_app_cons, ?str_app_nil; cbn [trim_end].
  - destruct (trim_start_visible_last "" c Hc) as [x' Hx]. rewrite str_app_nil in Hx. rewrite Hx.
    rewrite bool_decide_eq_false_2; [done|]. destruct x'; done.
  - destruct (trim_start_visible_last (String d x) c Hc) as [x' Hx]. rewrite str_app_cons in Hx.
    rewrite Hx. rewrite bool_decide_eq_false_2 by (by destruct x'). by rewrite IH.
Qed.

Lemma trim_visible c x d :
  visible c = true → visible d = true → trim (String c (x +:+ String d "")) = String c (x +:+ String d "").
Proof.
  intros Hc Hd. unfold trim. replace (trim_start (String c (x +:+ String d ""))) with (String c (x +:+ String d "")).
  - rewrite <-str_app_cons. by apply trim_end_visible_last.
  - unfold trim_start. cbn [String.length trim_start_fuel].
    replace (ws_len (String c (x +:+ String d ""))) with 0; [done|].
    apply andb_true_iff in Hc as [H1%N.leb_le H2%N.leb_le]. symmetry. unfold ws_len.
    repeat case_match; try done; exfalso; char_bounds.
Qed.

Lemma all_chars_last p s : s ≠ "" → all_chars p s = true → ∃ x d, s = x +:+ String d "" ∧ p d = true.
Proof.
  induction s as [|c s IH]; [done|]. intros _. simpl. intros [Hc Hs]%andb_true_iff.
  destruct s as [|e s]; [by exists "", c|]. destruct IH as (x & d & Hx & Hd); [done|done|].
  exists (String c x), d. by rewrite Hx.
Qed.

(** A literal that does not continue [p] with characters of an identifier. *)
Definition not_an_id (p t : string) : bool :=
  match strip_prefix t p with Some x => negb (all_chars uuid_char x) | None => true end.

Lemma not_an_id_ne p id t : all_chars uuid_char id = true → not_an_id p t = true → p +:+ id ≠ t.
Proof.
  intros Hid Hn <-. unfold not_an_id in Hn.
  assert (strip_prefix (p +:+ id) p = Some id) as Hs by by apply strip_prefix_spec.
  rewrite Hs, Hid in Hn. done.
Qed.

Lemma arm_id {A} p id (arms : list (string * A)) :
  all_chars uuid_char id = true → forallb (λ t, not_an_id p t.1) arms = true → arm (p +:+ id) arms = None.
Proof.
  intros Hid. induction arms as [|[t a] arms IH]; simpl; [done|].
  intros [Ht Harms]%andb_true_iff. rewrite bool_decide_eq_false_2 by by apply not_an_id_ne. auto.
Qed.

Lemma elem_id p id l :
  all_chars uuid_char id = true → forallb (not_an_id p) l = true → bool_decide (p +:+ id ∈ l) = false.
Proof.
  intros Hid Hl. apply bool_decide_eq_false_2. intros Hin. apply forallb_forall with (x := p +:+ id) in Hl.
  - by apply (not_an_id_ne p id (p +:+ id)).
  - by apply list_elem_of_In.
Qed.

Lemma uuid_char_props c : uuid_char c = true → lower_char c = true ∧ visible c = true.
Proof. destruct c as [[] [] [] [] [] [] [] []]; vm_compute; done. Qed.

(** A command word, a blank and an identifier. *)
Lemma command_with_id_text {U : UnicodeCase} c p id :
  visible c = true → all_chars lower_char (String c p) = true →
  all_chars uuid_char id = true → id ≠ "" →
  trim (String c p +:+ id) = String c p +:+ id ∧
  to_lowercase (String c p +:+ id) = String c p +:+ id ∧ trim id = id.
Proof.
  intros Hc Hp Hid Hne.
  destruct (all_chars_last _ _ Hne Hid) as (x & d & Hx & [_ Hd]%uuid_char_props). split_and!.
  - rewrite Hx, <-str_app_assoc, str_app_cons. by apply trim_visible.
  - apply to_lowercase_lower. rewrite all_chars_app, Hp. simpl.
    eapply all_chars_impl; [|exact Hid]. by intros e [? _]%uuid_char_props.
  - destruct id as [|e id]; [done|]. simpl in Hid. apply andb_true_iff in Hid as [[_ He]%uuid_char_props Hid'].
    destruct x as [|f x]; rewrite ?str_app_cons, ?str_app_nil in Hx; injection Hx as -> ->.
    + unfold trim, trim_start. simpl. clear Hne. destruct d as [[] [] [] [] [] [] [] []]; by vm_compute in Hd |- *.
    + by apply trim_visible.
Qed.

(** What a user types for a submission; identifiers are those the program
    prints. *)
Definition command_text {T : UuidText} (s : Submission) : option string :=
  match s with
  | SUndo => Some "/undo" | SRedo => Some "/redo" | SInterrupt => Some "/interrupt"
  | SCompact => Some "/compact" | SClear => Some "/clear" | SHeartbeat => Some "/heartbeat"
  | SSummarize => Some "/summarize" | SSuggest => Some "/suggest" | NewThread => Some "/new"
  | SQuit => Some "/quit"
  | JobStatus None => Some "/status"
  | JobStatus (Some id) =>
      if all_chars uuid_char id && negb (bool_decide (id = "")) then Some ("/status " +:+ id) else None
  | JobCancel id =>
      if all_chars uuid_char id && negb (bool_decide (id = "")) then Some ("/cancel " +:+ id) else None
  | SwitchThread id => Some ("/thread " +:+ uuid_to_string id)
  | SResume id => Some ("/resume " +:+ uuid_to_string id)
  | ApprovalResponse true false => Some "yes"
  | ApprovalResponse true true => Some "always"
  | ApprovalResponse false false => Some "no"
  | SystemCommand "help" [] => Some "/help" | SystemCommand "version" [] => Some "/version"
  | SystemCommand "tools" [] => Some "/tools" | SystemCommand "skills" [] => Some "/skills"
  | SystemCommand "ping" [] => Some "/ping" | SystemCommand "debug" [] => Some "/debug"
  | SystemCommand "restart" [] => Some "/restart"
  | _ => None
  end.

Abbreviation slash := (Ascii.Ascii true true true true false true false false).

Lemma strip_prefix_id p id : strip_prefix (p +:+ id) p = Some id.
Proof. by apply strip_prefix_spec. Qed.

Lemma parse_constant {T : UuidText} {U : UnicodeCase} from_json text s :
  trim text = text → all_chars lower_char text = true →
  or_else (parse_control_command text) (or_else (parse_system_command text text)
    (or_else (parse_job_command text) (or_else (parse_thread_command text)
      (or_else (parse_exec_approval from_json text) (parse_approval_response text))))) = Some s →
  parse from_json text = s.
Proof.
  intros Ht Hl H. unfold parse. cbv zeta. rewrite Ht, to_lowercase_lower by done. by rewrite H.
Qed.

Lemma parse_with_id {T : UuidText} {U : UnicodeCase} from_json c p id :
  visible c = true → all_chars lower_char (String c p) = true →
  all_chars uuid_char id = true → id ≠ "" →
  parse from_json (String c p +:+ id) =
  let text := String c p +:+ id in
  default (UserInput text)
    (or_else (parse_control_command text) (or_else (parse_system_command text text)
      (or_else (parse_job_command text) (or_else (parse_thread_command text)
        (or_else (parse_exec_approval from_json text) (parse_approval_response text)))))).
Proof.
  intros Hc Hp Hid Hne. destruct (command_with_id_text c p id) as (Ht & Hl & _); try done.
  unfold parse. cbv zeta. by rewrite Ht, Hl.
Qed.

Lemma control_id c p id :
  all_chars uuid_char id = true →
  forallb (not_an_id (String c p)) ["/undo"; "/redo"; "/interrupt"; "/stop"; "/compact"; "/clear";
    "/heartbeat"; "/summarize"; "/summary"; "/suggest"; "/thread new"; "/new"; "/quit"; "/exit";
    "/shutdown"] = true →
  parse_control_command (String c p +:+ id) = None.
Proof.
  intros Hid H. unfold parse_control_command, is_quit_command. rewrite arm_id, elem_id; try done.
  all: cbn [forallb fst] in H |- *; repeat (apply andb_true_iff in H as [? H]);
    repeat (apply andb_true_iff; split); first [assumption|reflexivity].
Qed.

Lemma system_id c p id :
  all_chars uuid_char id = true →
  forallb (not_an_id (String c p)) ["/help"; "/?"; "/version"; "/tools"; "/skills"; "/ping";
    "/debug"; "/restart"] = true →
  starts_with (String c p +:+ id) "/skills " = false → starts_with (String c p +:+ id) "/model" = false →
  parse_system_command (String c p +:+ id) (String c p +:+ id) = None.
Proof.
  intros Hid H H1 H2. unfold parse_system_command. rewrite arm_id; try done. by rewrite H1, H2.
Qed.

Lemma job_none c p id :
  all_chars uuid_char id = true →
  forallb (not_an_id (String c p)) ["/status"; "/progress"; "/list"] = true →
  strip_prefix (String c p +:+ id) "/status " = None → strip_prefix (String c p +:+ id) "/progress " = None →
  strip_prefix (String c p +:+ id) "/cancel " = None → parse_job_command (String c p +:+ id) = None.
Proof.
  intros Hid H H1 H2 H3. unfold parse_job_command. rewrite elem_id by done.
  unfold job_id_after. simpl after_prefix. by rewrite H1, H2, H3.
Qed.

(** ** Properties *)

(** Approvals are explicit.  A message is taken as a bare approval only
    if, trimmed and lowercased, it is one of the words for that answer; as an
    approval of a named request only if it is the JSON of one; as the quit
    command only for its three spellings.  Everything no parser recognises is
    user input with the text unchanged, and the words always work, unless the
    text opens with a brace. *)
Theorem approvals_explicit {T : UuidText} {U : UnicodeCase}
    (from_json : string → option Submission) (content : string) :
  let trimmed := trim content in
  let lower := to_lowercase trimmed in
  (∀ a al, parse from_json content = ApprovalResponse a al → lower ∈ approval_words a al) ∧
  (∀ r a al, parse from_json content = ExecApproval r a al →
     starts_with trimmed "{" = true ∧ from_json trimmed = Some (ExecApproval r a al)) ∧
  (parse from_json content = SQuit → is_quit_command lower = true) ∧
  (∀ t, parse from_json content = UserInput t → t = content) ∧
  (∀ a al, lower ∈ approval_words a al → starts_with trimmed "{" = false →
     parse from_json content = ApprovalResponse a al).
Proof.
  intros trimmed lower.
  assert (parse from_json content = UserInput content ∨
    is_control (parse from_json content) = true ∨
    (parse from_json content = SQuit ∧ is_quit_command lower = true) ∨
    (∃ id, parse from_json content = SwitchThread id) ∨ (∃ id, parse from_json content = SResume id) ∨
    (starts_with trimmed "{" = true ∧ from_json trimmed = Some (parse from_json content) ∧
       ∃ r a al, parse from_json content = ExecApproval r a al) ∨
    (∃ a al, parse from_json content = ApprovalResponse a al ∧ lower ∈ approval_words a al)) as Hkinds.
  { unfold parse. cbv zeta. fold trimmed lower.
    destruct (parse_control_command lower) as [s|] eqn:E1; simpl.
    { apply parse_control_kinds in E1 as [?|[-> ?]]; [by right; left|by right; right; left]. }
    destruct (parse_system_command trimmed lower) as [s|] eqn:E2; simpl.
    { apply parse_system_kinds in E2 as (? & ? & ->). by right; left. }
    destruct (parse_job_command lower) as [s|] eqn:E3; simpl.
    { apply parse_job_kinds in E3 as [[? ->]|[? ->]]; by right; left. }
    destruct (parse_thread_command lower) as [s|] eqn:E4; simpl.
    { apply parse_thread_kinds in E4 as [?|?]; [by do 3 right; left|by do 4 right; left]. }
    destruct (parse_exec_approval from_json trimmed) as [s|] eqn:E5; simpl.
    { apply parse_exec_kinds in E5. by do 5 right; left. }
    destruct (parse_approval_response lower) as [s|] eqn:E6; simpl; [|by left].
    apply parse_approval_kinds in E6. by do 6 right. }
  split_and!.
  - intros a al Hp. rewrite Hp in Hkinds. naive_solver.
  - intros r a al Hp. rewrite Hp in Hkinds. naive_solver.
  - intros Hp. rewrite Hp in Hkinds. naive_solver.
  - intros t Hp. rewrite Hp in Hkinds. naive_solver.
  - clear Hkinds. intros a al Hw Hb. unfold parse. cbv zeta. fold trimmed lower.
    generalize dependent lower. intros lower Hw. unfold parse_exec_approval. rewrite Hb.
    destruct a, al; simpl in Hw; [| |by apply elem_of_nil in Hw|];
      repeat (apply elem_of_cons in Hw as [->|Hw]; [reflexivity|]); by apply elem_of_nil in Hw.
Qed.

(** Every command the program tells the user to type parses back: for
    each submission with a command text, identifiers of threads, checkpoints
    and jobs included, parsing the text gives the submission. *)
Theorem command_roundtrip {T : UuidText} {U : UnicodeCase}
    (from_json : string → option Submission) (s : Submission) (text : string)
    (Htext : command_text s = Some text) : parse from_json text = s.
Proof.
  assert (∀ id, all_chars uuid_char id && negb (bool_decide (id = "")) = true →
    all_chars uuid_char id = true ∧ id ≠ "") as Hvalid.
  { intros id [? H%negb_true_iff%bool_decide_eq_false]%andb_true_iff. done. }
  destruct s as [|r a al|[] []| | | | |id| |id| | | | |[id|]|id| |command args]; simpl in Htext; try done;
    try (injection Htext as <-; apply parse_constant; reflexivity).
  - injection Htext as <-. destruct (uuid_to_string_chars id) as [Hid Hne].
    rewrite (parse_with_id from_json slash "resume ") by done. cbv zeta.
    rewrite control_id, system_id, job_none by done. simpl or_else.
    destruct (command_with_id_text slash "resume " (uuid_to_string id)) as (_ & _ & Ht); try done.
    unfold parse_thread_command. rewrite (strip_prefix_id "/resume ").
    change (strip_prefix (String slash "resume " +:+ uuid_to_string id) "/thread ") with (@None string).
    cbn [mbind option_bind]. by rewrite Ht, uuid_parse_to_string.
  - injection Htext as <-. destruct (uuid_to_string_chars id) as [Hid Hne].
    rewrite (parse_with_id from_json slash "thread ") by done. cbv zeta.
    rewrite control_id, system_id, job_none by done. simpl or_else.
    destruct (command_with_id_text slash "thread " (uuid_to_string id)) as (_ & _ & Ht); try done.
    unfold parse_thread_command. rewrite (strip_prefix_id "/thread ").
    cbn [mbind option_bind]. rewrite Ht.
    rewrite bool_decide_eq_false_2 by (intros Hnew; rewrite Hnew in Hid; done).
    by rewrite uuid_parse_to_string.
  - destruct (_ && _) eqn:E; [|done]. injection Htext as <-. destruct (Hvalid _ E) as [Hid Hne].
    rewrite (parse_with_id from_json slash "status ") by done. cbv zeta.
    rewrite control_id, system_id by done. simpl or_else. unfold parse_job_command.
    rewrite (elem_id (String slash "status ")) by done. unfold job_id_after. cbn [after_prefix].
    destruct (command_with_id_text slash "status " id) as (_ & _ & Ht); try done.
    rewrite (strip_prefix_id "/status "). cbn [mbind option_bind].
    by rewrite Ht, bool_decide_eq_false_2.
  - destruct (_ && _) eqn:E; [|done]. injection Htext as <-. destruct (Hvalid _ E) as [Hid Hne].
    rewrite (parse_with_id from_json slash "cancel ") by done. cbv zeta.
    rewrite control_id, system_id by done. simpl or_else. unfold parse_job_command.
    rewrite (elem_id (String slash "cancel ")) by done. unfold job_id_after. cbn [after_prefix].
    destruct (command_with_id_text slash "cancel " id) as (_ & _ & Ht); try done.
    change (strip_prefix (String slash "cancel " +:+ id) "/status ") with (@None string).
    change (strip_prefix (String slash "cancel " +:+ id) "/progress ") with (@None string).
    rewrite (strip_prefix_id "/cancel "). cbn [mbind option_bind].
    by rewrite Ht, bool_decide_eq_false_2.
  - repeat case_match; try done; simplify_eq; apply parse_constant; reflexivity.
Qed.

(** ** Witnesses *)

Section Witnesses.
#[local] Existing Instance uuid_bits.
#[local] Existing Instance ascii_case.

Lemma command_roundtrip_witness :
  command_text (SwitchThread 5%N) = Some "/thread 10a" ∧
  parse (λ _, None) "/thread 10a" = SwitchThread 5%N.
Proof. split; [reflexivity|]. apply command_roundtrip. reflexivity. Defined.
End Witnesses.
