(* ===== verification/SessionManager.v ===== *)
(** * The session manager

    Models [src/src/agent/session_manager.rs]: the sessions of all users, the
    map from channel conversations to threads, and the undo managers of the
    threads, composed with the sessions, the undo managers and the lifecycle
    hooks.

    Sessions and undo managers are shared ([Arc<Mutex<_>>]): the manager's maps
    hold addresses into a store, and a caller keeps an address after the entry
    is pruned.  An operation that releases its locks between phases is a
    program with one step per locked phase; the steps of several callers
    interleave ([sys_step]), and [resolve_thread] and [prune_stale_sessions]
    are the programs run without interruption. *)

From S2P Require Import Prelude Text Externals LlmTypes Session Undo Hooks.

Abbreviation Arc := nat.

Record ThreadKey := {
  tk_user_id : string;
  tk_channel : string;
  tk_external_thread_id : option string;
}.
#[export] Instance thread_key_eq_dec : EqDecision ThreadKey.
Proof. solve_decision. Defined.
#[export] Instance thread_key_countable : Countable ThreadKey.
Proof.
  refine (inj_countable' (λ k, (tk_user_id k, tk_channel k, tk_external_thread_id k))
    (λ '(u, c, e), {| tk_user_id := u; tk_channel := c; tk_external_thread_id := e |}) _).
  by intros [].
Defined.

Section Manager.
Context {J : SerdeJson} {T : UuidText}.

(** The manager's maps with the store they point into.  [sm_fired] lists the
    events handed to spawned hook runs, when a registry is attached. *)
Record SessionManager := {
  sm_sessions : gmap string Arc;
  sm_thread_map : gmap ThreadKey Uuid;
  sm_undo_managers : gmap Uuid Arc;
  sm_hooks : bool;
  sm_heap : gmap Arc Session;
  sm_undo_heap : gmap Arc UndoManager;
  sm_next : Arc;
  sm_fired : list HookEvent;
}.

Definition manager_new : SessionManager := {|
  sm_sessions := ∅; sm_thread_map := ∅; sm_undo_managers := ∅; sm_hooks := false;
  sm_heap := ∅; sm_undo_heap := ∅; sm_next := 0; sm_fired := [] |}.

Definition with_hooks (m : SessionManager) : SessionManager := {|
  sm_sessions := sm_sessions m; sm_thread_map := sm_thread_map m;
  sm_undo_managers := sm_undo_managers m; sm_hooks := true; sm_heap := sm_heap m;
  sm_undo_heap := sm_undo_heap m; sm_next := sm_next m; sm_fired := sm_fired m |}.

Definition set_thread_map (tm : gmap ThreadKey Uuid) (m : SessionManager) : SessionManager := {|
  sm_sessions := sm_sessions m; sm_thread_map := tm;
  sm_undo_managers := sm_undo_managers m; sm_hooks := sm_hooks m; sm_heap := sm_heap m;
  sm_undo_heap := sm_undo_heap m; sm_next := sm_next m; sm_fired := sm_fired m |}.

Definition set_sessions (ss : gmap string Arc) (m : SessionManager) : SessionManager := {|
  sm_sessions := ss; sm_thread_map := sm_thread_map m;
  sm_undo_managers := sm_undo_managers m; sm_hooks := sm_hooks m; sm_heap := sm_heap m;
  sm_undo_heap := sm_undo_heap m; sm_next := sm_next m; sm_fired := sm_fired m |}.

Definition set_undo_managers (um : gmap Uuid Arc) (m : SessionManager) : SessionManager := {|
  sm_sessions := sm_sessions m; sm_thread_map := sm_thread_map m;
  sm_undo_managers := um; sm_hooks := sm_hooks m; sm_heap := sm_heap m;
  sm_undo_heap := sm_undo_heap m; sm_next := sm_next m; sm_fired := sm_fired m |}.

(** Writing through a locked session. *)
Definition set_session (a : Arc) (s : Session) (m : SessionManager) : SessionManager := {|
  sm_sessions := sm_sessions m; sm_thread_map := sm_thread_map m;
  sm_undo_managers := sm_undo_managers m; sm_hooks := sm_hooks m; sm_heap := <[a := s]> (sm_heap m);
  sm_undo_heap := sm_undo_heap m; sm_next := sm_next m; sm_fired := sm_fired m |}.

Definition set_undo (a : Arc) (u : UndoManager) (m : SessionManager) : SessionManager := {|
  sm_sessions := sm_sessions m; sm_thread_map := sm_thread_map m;
  sm_undo_managers := sm_undo_managers m; sm_hooks := sm_hooks m; sm_heap := sm_heap m;
  sm_undo_heap := <[a := u]> (sm_undo_heap m); sm_next := sm_next m; sm_fired := sm_fired m |}.

(** [tokio::spawn] of a hook run for each event, if hooks are attached. *)
Definition fire (events : list HookEvent) (m : SessionManager) : SessionManager := {|
  sm_sessions := sm_sessions m; sm_thread_map := sm_thread_map m;
  sm_undo_managers := sm_undo_managers m; sm_hooks := sm_hooks m; sm_heap := sm_heap m;
  sm_undo_heap := sm_undo_heap m; sm_next := sm_next m;
  sm_fired := if sm_hooks m then sm_fired m ++ events else sm_fired m |}.

Definition alloc_next (m : SessionManager) : SessionManager := {|
  sm_sessions := sm_sessions m; sm_thread_map := sm_thread_map m;
  sm_undo_managers := sm_undo_managers m; sm_hooks := sm_hooks m; sm_heap := sm_heap m;
  sm_undo_heap := sm_undo_heap m; sm_next := S (sm_next m); sm_fired := sm_fired m |}.

(** ** Undo managers *)

(** [undo_managers.insert(id, new)] *)
Definition insert_undo_manager (id : Uuid) (m : SessionManager) : SessionManager :=
  let a := sm_next m in
  alloc_next (set_undo_managers (<[id := a]> (sm_undo_managers m)) (set_undo a undo_manager_new m)).

(** [undo_managers.entry(id).or_insert_with(new)] *)
Definition ensure_undo_manager (id : Uuid) (m : SessionManager) : SessionManager :=
  match sm_undo_managers m !! id with
  | Some _ => m
  | None => insert_undo_manager id m
  end.

Definition get_undo_manager (id : Uuid) (m : SessionManager) : SessionManager * Arc :=
  match sm_undo_managers m !! id with
  | Some a => (m, a)
  | None => (insert_undo_manager id m, sm_next m)
  end.

(** ** Resolving a conversation *)

(** What a caller has reached: waiting to run the phase named. *)
Inductive ResolveState :=
| RSession
| RSessionWrite
| RLookup (s : Arc)
| RAdoptCheck (s : Arc)
| RAdoptSession (s : Arc) (ext : Uuid)
| RAdoptWrite (s : Arc) (ext : Uuid)
| RAdoptUndo (s : Arc) (ext : Uuid)
| RCreate (s : Arc)
| RMap (s : Arc) (thread_id : Uuid)
| RUndo (s : Arc) (thread_id : Uuid)
| RDone (s : Arc) (thread_id : Uuid).

(** Random identifiers and clock readings a phase may use. *)
Record Inputs := {
  in_session_id : Uuid; in_thread_id : Uuid; in_now : Utc; in_now1 : Utc; in_now2 : Utc }.

(** The write phase of [get_or_create_session]. *)
Definition create_session (user : string) (i : Inputs) (m : SessionManager) : SessionManager * Arc :=
  match sm_sessions m !! user with
  | Some a => (m, a)
  | None =>
      let s := session_new (in_session_id i) user (in_now i) in
      let a := sm_next m in
      (fire [EvSessionStart user (uuid_to_string (s_id s))]
         (alloc_next (set_sessions (<[user := a]> (sm_sessions m)) (set_session a s m))), a)
  end.

Definition get_or_create_session (user : string) (i : Inputs) (m : SessionManager) :
    SessionManager * Arc :=
  match sm_sessions m !! user with
  | Some a => (m, a)
  | None => create_session user i m
  end.

Definition has_thread (m : SessionManager) (a : Arc) (id : Uuid) : bool :=
  match sm_heap m !! a with
  | Some s => bool_decide (is_Some (threads s !! id))
  | None => false
  end.

(** [thread_map.values().any(|&v| v == id)] *)
Definition is_mapped (m : SessionManager) (id : Uuid) : bool :=
  existsb (λ v, bool_decide (v = id)) (map_values (sm_thread_map m)).

Definition resolve_step (key : ThreadKey) (i : Inputs) (m : SessionManager) (st : ResolveState) :
    SessionManager * ResolveState :=
  match st with
  | RSession =>
      match sm_sessions m !! tk_user_id key with
      | Some a => (m, RLookup a)
      | None => (m, RSessionWrite)
      end
  | RSessionWrite => let '(m, a) := create_session (tk_user_id key) i m in (m, RLookup a)
  | RLookup s =>
      match sm_thread_map m !! key with
      | Some id => if has_thread m s id then (m, RDone s id) else (m, RAdoptCheck s)
      | None => (m, RAdoptCheck s)
      end
  | RAdoptCheck s =>
      match tk_external_thread_id key ≫= uuid_parse_str with
      | Some ext => if is_mapped m ext then (m, RCreate s) else (m, RAdoptSession s ext)
      | None => (m, RCreate s)
      end
  | RAdoptSession s ext => if has_thread m s ext then (m, RAdoptWrite s ext) else (m, RCreate s)
  | RAdoptWrite s ext =>
      if is_mapped m ext then (m, RCreate s)
      else (set_thread_map (<[key := ext]> (sm_thread_map m)) m, RAdoptUndo s ext)
  | RAdoptUndo s ext => (ensure_undo_manager ext m, RDone s ext)
  | RCreate s =>
      match sm_heap m !! s with
      | Some sess =>
          let '(sess, id) := create_thread sess (in_thread_id i) (in_now1 i) (in_now2 i) in
          (set_session s sess m, RMap s id)
      | None => (m, RCreate s)
      end
  | RMap s id => (set_thread_map (<[key := id]> (sm_thread_map m)) m, RUndo s id)
  | RUndo s id => (insert_undo_manager id m, RDone s id)
  | RDone _ _ => (m, st)
  end.

(** All phases without interruption; nine steps are enough. *)
Fixpoint run_resolve (fuel : nat) (key : ThreadKey) (i : Inputs) (m : SessionManager)
    (st : ResolveState) : SessionManager * ResolveState :=
  match fuel with
  | 0 => (m, st)
  | S fuel => let '(m, st) := resolve_step key i m st in run_resolve fuel key i m st
  end.

Definition resolve_thread (key : ThreadKey) (i : Inputs) (m : SessionManager) :
    SessionManager * option (Arc * Uuid) :=
  let '(m, st) := run_resolve 9 key i m RSession in
  (m, match st with RDone s id => Some (s, id) | _ => None end).

(** ** Registering a hydrated thread *)

Definition register_thread (user channel : string) (id : Uuid) (session : Arc)
    (m : SessionManager) : SessionManager :=
  let key := {| tk_user_id := user; tk_channel := channel;
                tk_external_thread_id := Some (uuid_to_string id) |} in
  let m := set_thread_map (<[key := id]> (sm_thread_map m)) m in
  let m := ensure_undo_manager id m in
  match sm_sessions m !! user with
  | Some _ => m
  | None => set_sessions (<[user := session]> (sm_sessions m)) m
  end.

(** ** Pruning *)

Inductive PruneState :=
| PFind
| PThreads (stale : list (string * Uuid))
| PRemove (stale : list (string * Uuid)) (ids : list Uuid)
| PMap (users : list string) (ids : list Uuid) (count : nat)
| PUndo (ids : list Uuid) (count : nat)
| PDone (count : nat).

(** [now - max_idle] in whole seconds, for idle times chrono can represent. *)
Definition prune_cutoff (now : Utc) (max_idle : Duration) : Utc :=
  (now - secs (as_i64 (max_idle / 1000000000)))%Z.

(** Users with an idle session that nobody holds locked, and its id. *)
Definition find_stale (locked : Arc → bool) (cutoff : Utc) (m : SessionManager) :
    list (string * Uuid) :=
  omap (λ '(user, a),
    if locked a then None
    else s ← sm_heap m !! a;
         if (last_active_at s <? cutoff)%Z then Some (user, s_id s) else None)
    (map_to_list (sm_sessions m)).

Definition stale_threads (locked : Arc → bool) (users : list string) (m : SessionManager) : list Uuid :=
  users ≫= λ user,
    match sm_sessions m !! user with
    | Some a => if locked a then []
                else match sm_heap m !! a with
                     | Some s => (map_to_list (threads s)).*1
                     | None => []
                     end
    | None => []
    end.

Definition prune_step (locked : Arc → bool) (cutoff : Utc) (m : SessionManager) (st : PruneState) :
    SessionManager * PruneState :=
  match st with
  | PFind =>
      let stale := find_stale locked cutoff m in
      if bool_decide (stale = []) then (m, PDone 0) else (m, PThreads stale)
  | PThreads stale =>
      (fire ((λ q, EvSessionEnd q.1 (uuid_to_string q.2)) <$> stale) m,
       PRemove stale (stale_threads locked stale.*1 m))
  | PRemove stale ids =>
      let left := foldl (λ ss user, delete user ss) (sm_sessions m) stale.*1 in
      (set_sessions left m, PMap stale.*1 ids (size (sm_sessions m) - size left))
  | PMap users ids count =>
      (set_thread_map (filter (λ kv, tk_user_id kv.1 ∉ users) (sm_thread_map m)) m, PUndo ids count)
  | PUndo ids count =>
      (set_undo_managers (foldl (λ um id, delete id um) (sm_undo_managers m) ids) m, PDone count)
  | PDone _ => (m, st)
  end.

Fixpoint run_prune (fuel : nat) (locked : Arc → bool) (cutoff : Utc) (m : SessionManager)
    (st : PruneState) : SessionManager * PruneState :=
  match fuel with
  | 0 => (m, st)
  | S fuel => let '(m, st) := prune_step locked cutoff m st in run_prune fuel locked cutoff m st
  end.

Definition prune_stale_sessions (locked : Arc → bool) (now : Utc) (max_idle : Duration)
    (m : SessionManager) : SessionManager * nat :=
  let '(m, st) := run_prune 5 locked (prune_cutoff now max_idle) m PFind in
  (m, match st with PDone n => n | _ => 0 end).
End Manager.
Arguments SessionManager : clear implicits.
Arguments SessionManager {J}.

(** ** Invariants of one phase *)

Section Invariants.
Context {J : SerdeJson} {T : UuidText}.

(** The store has a session of the user at the address. *)
Definition owns (m : SessionManager) (a : Arc) (user : string) : Prop :=
  ∃ s, sm_heap m !! a = Some s ∧ s_user_id s = user.
Definition holds (m : SessionManager) (a : Arc) (id : Uuid) : Prop :=
  ∃ s, sm_heap m !! a = Some s ∧ is_Some (threads s !! id).

Definition external_uuid (key : ThreadKey) : option Uuid :=
  tk_external_thread_id key ≫= uuid_parse_str.

Definition manager_ok (m : SessionManager) : Prop :=
  (∀ user a, sm_sessions m !! user = Some a → owns m a user) ∧
  (∀ a, is_Some (sm_heap m !! a) → a < sm_next m).

Definition state_ok (m : SessionManager) (key : ThreadKey) (st : ResolveState) : Prop :=
  match st with
  | RSession | RSessionWrite => True
  | RLookup a | RAdoptCheck a | RCreate a => owns m a (tk_user_id key)
  | RAdoptSession a ext => owns m a (tk_user_id key) ∧ external_uuid key = Some ext
  | RAdoptWrite a ext => owns m a (tk_user_id key) ∧ holds m a ext ∧ external_uuid key = Some ext
  | RAdoptUndo a id | RMap a id | RUndo a id | RDone a id =>
      owns m a (tk_user_id key) ∧ holds m a id
  end.

(** Sessions keep their user and their threads. *)
Definition grows (m m' : SessionManager) : Prop :=
  ∀ a s, sm_heap m !! a = Some s →
    ∃ s', sm_heap m' !! a = Some s' ∧ s_user_id s' = s_user_id s ∧
          ∀ id, is_Some (threads s !! id) → is_Some (threads s' !! id).

#[export] Instance grows_refl : Reflexive grows.
Proof. intros m a s Hs. eauto. Qed.

Lemma grows_same_heap m m' : sm_heap m' = sm_heap m → grows m m'.
Proof. intros H a s Hs. rewrite H. eauto. Qed.

Lemma grows_owns m m' a user : grows m m' → owns m a user → owns m' a user.
Proof. intros H (s & Hs & <-). destruct (H _ _ Hs) as (s' & ? & ? & _). by exists s'. Qed.

Lemma grows_holds m m' a id : grows m m' → holds m a id → holds m' a id.
Proof. intros H (s & Hs & Hid). destruct (H _ _ Hs) as (s' & ? & _ & Hk). exists s'. eauto. Qed.

Lemma grows_state_ok m m' key st : grows m m' → state_ok m key st → state_ok m' key st.
Proof. intros H. destruct st; simpl; naive_solver eauto using grows_owns, grows_holds. Qed.

Lemma has_thread_holds m a id : has_thread m a id = true ↔ holds m a id.
Proof.
  unfold has_thread, holds. destruct (sm_heap m !! a) as [s|].
  - rewrite bool_decide_eq_true. naive_solver.
  - naive_solver.
Qed.

Lemma is_mapped_spec m id : is_mapped m id = true ↔ ∃ k, sm_thread_map m !! k = Some id.
Proof.
  unfold is_mapped, map_values. rewrite existsb_exists. setoid_rewrite <-list_elem_of_In.
  setoid_rewrite bool_decide_eq_true. setoid_rewrite list_elem_of_fmap. split.
  - intros (v & ([k v'] & -> & Hin%elem_of_map_to_list) & <-). by exists k.
  - intros [k Hk]. exists id. split; [|done]. exists (k, id). split; [done|]. by apply elem_of_map_to_list.
Qed.

(** Phases that leave sessions and store alone. *)
Lemma manager_ok_same m m' :
  sm_sessions m' = sm_sessions m → sm_heap m' = sm_heap m → sm_next m ≤ sm_next m' →
  manager_ok m → manager_ok m'.
Proof.
  intros Hs Hh Hn [H1 H2]. split.
  - intros user a. rewrite Hs. intros H%H1. eapply grows_owns; [by apply grows_same_heap|done].
  - intros a. rewrite Hh. intros H%H2. lia.
Qed.

Lemma ensure_undo_same id m :
  let m' := ensure_undo_manager id m in
  sm_sessions m' = sm_sessions m ∧ sm_heap m' = sm_heap m ∧ sm_next m ≤ sm_next m' ∧
  sm_thread_map m' = sm_thread_map m.
Proof. unfold ensure_undo_manager, insert_undo_manager. case_match; simpl; split_and!; done || lia. Qed.

Lemma get_undo_manager_heap id m : sm_heap (get_undo_manager id m).1 = sm_heap m.
Proof. unfold get_undo_manager. by case_match. Qed.

Lemma create_session_ok user i m :
  manager_ok m →
  let r := create_session user i m in
  manager_ok r.1 ∧ owns r.1 r.2 user ∧ grows m r.1 ∧ sm_thread_map r.1 = sm_thread_map m ∧
  sm_sessions r.1 !! user = Some r.2.
Proof.
  intros [H1 H2]. unfold create_session.
  destruct (sm_sessions m !! user) as [a|] eqn:E; simpl.
  { split_and!; [by split|by apply H1|done|done|done]. }
  assert (sm_heap m !! sm_next m = None) as Hnew.
  { destruct (sm_heap m !! sm_next m) eqn:Hh; [|done]. exfalso. apply (Nat.lt_irrefl (sm_next m)), H2. eauto. }
  assert (grows m (fire [EvSessionStart user (uuid_to_string (in_session_id i))]
    (alloc_next (set_sessions (<[user := sm_next m]> (sm_sessions m))
      (set_session (sm_next m) (session_new (in_session_id i) user (in_now i)) m))))) as Hg.
  { intros a s Hs. simpl. rewrite lookup_insert_ne by congruence. eauto. }
  split_and!; [split| |done|done|].
  - intros user' a'. simpl. intros Ha. apply lookup_insert_Some in Ha as [[<- <-]|[_ Ha]].
    + eexists. simpl. rewrite lookup_insert_eq. done.
    + eapply grows_owns; [exact Hg|]. auto.
  - intros a'. simpl. intros [s Hs]. apply lookup_insert_Some in Hs as [[<- _]|[_ Hs]]; [lia|].
    enough (a' < sm_next m) by lia. apply H2. eauto.
  - eexists. simpl. by rewrite lookup_insert_eq.
  - simpl. by rewrite lookup_insert_eq.
Qed.

Lemma create_thread_holds s f n1 n2 :
  let r := create_thread s f n1 n2 in
  s_user_id r.1 = s_user_id s ∧ r.2 = f ∧ is_Some (threads r.1 !! f) ∧
  ∀ id, is_Some (threads s !! id) → is_Some (threads r.1 !! id).
Proof.
  unfold create_thread. simpl. destruct (threads s !! f) eqn:E; simpl.
  - split_and!; [done|done|by rewrite E|done].
  - split_and!; [done|done|by rewrite lookup_insert_eq|].
    intros id Hid. destruct (decide (id = f)) as [->|]; [by rewrite lookup_insert_eq|].
    by rewrite lookup_insert_ne.
Qed.

Lemma set_session_ok m a s s' :
  manager_ok m → sm_heap m !! a = Some s → s_user_id s' = s_user_id s →
  (∀ id, is_Some (threads s !! id) → is_Some (threads s' !! id)) →
  manager_ok (set_session a s' m) ∧ grows m (set_session a s' m).
Proof.
  intros [H1 H2] Hs Hu Hk.
  assert (grows m (set_session a s' m)) as Hg.
  { intros a' s0 Hs0. simpl. destruct (decide (a' = a)) as [->|].
    - rewrite lookup_insert_eq. simplify_eq. eauto.
    - rewrite lookup_insert_ne by done. eauto. }
  split; [split|done].
  - intros user a' Ha. eapply grows_owns; [exact Hg|]. auto.
  - intros a'. simpl. intros [s0 Hs0]. apply H2. apply lookup_insert_Some in Hs0 as [[<- _]|[_ ?]]; eauto.
Qed.

(** What one phase of a resolution does. *)
Lemma resolve_step_ok key i m st m' st' :
  manager_ok m → state_ok m key st → resolve_step key i m st = (m', st') →
  manager_ok m' ∧ state_ok m' key st' ∧ grows m m' ∧
  (sm_thread_map m' = sm_thread_map m ∨
   (∃ a id, sm_thread_map m' = <[key := id]> (sm_thread_map m) ∧
      (st = RMap a id ∨ st = RAdoptWrite a id ∧ is_mapped m id = false))) ∧
  (∀ a id, st' = RMap a id → st = RCreate a ∧ id = in_thread_id i ∧ sm_thread_map m' = sm_thread_map m).
Proof.
  intros Hm Hst. destruct st as [| |a|a|a ext|a ext|a ext|a|a id|a id|a id]; cbn [resolve_step].
  - destruct (sm_sessions m !! tk_user_id key) as [a|] eqn:E; intros [= <- <-];
      split_and!; try done; [|by left|by left]. by apply Hm.
  - destruct (create_session _ _ _) as [m1 a] eqn:E. intros [= <- <-].
    pose proof (create_session_ok (tk_user_id key) i m Hm) as H. rewrite E in H. simpl in H.
    destruct H as (? & ? & ? & ? & _). split_and!; try done. by left.
  - destruct (sm_thread_map m !! key) as [id|] eqn:E; [destruct (has_thread m a id) eqn:Eh|];
      intros [= <- <-]; split_and!; try done; try (by left). split; [done|by apply has_thread_holds].
  - fold (external_uuid key). destruct (external_uuid key) as [ext|] eqn:Ep; [destruct (is_mapped m ext)|];
      intros [= <- <-]; split_and!; try done; by left.
  - destruct Hst as [Ho He]. destruct (has_thread m a ext) eqn:Eh; intros [= <- <-];
      split_and!; try done; try (by left). split_and!; [done|by apply has_thread_holds|done].
  - destruct Hst as (Ho & Hh & He). destruct (is_mapped m ext) eqn:Em; intros [= <- <-].
    + split_and!; try done. by left.
    + split_and!; try done; [by apply grows_same_heap|].
      right. exists a, ext. split; [done|]. by right.
  - intros [= <- <-]. destruct (ensure_undo_same ext m) as (Hs & Hh & Hn & Ht).
    assert (grows m (ensure_undo_manager ext m)) by by apply grows_same_heap.
    split_and!; try done; [by eapply manager_ok_same|by eapply (grows_state_ok m _ key (RDone a ext))|by left].
  - destruct Hst as (s & Hs & Hu). rewrite Hs.
    pose proof (create_thread_holds s (in_thread_id i) (in_now1 i) (in_now2 i)) as H.
    destruct (create_thread _ _ _ _) as [s' id]. simpl in H. destruct H as (Hu' & -> & Hf & Hk).
    intros [= <- <-]. destruct (set_session_ok m a s s') as [Hm' Hg]; [done..|].
    split; [done|]. split; [|split; [done|split; [by left|by intros a' id' [= <- <-]]]].
    split; exists s'; simpl; rewrite lookup_insert_eq; by rewrite ?Hu'.
  - intros [= <- <-]. split_and!; try done; [by apply grows_same_heap|].
    right. exists a, id. split; [done|]. by left.
  - intros [= <- <-]. assert (grows m (insert_undo_manager id m)) by by apply grows_same_heap.
    split; [eapply manager_ok_same; [..|exact Hm]; [done|done|simpl; lia]|].
    split; [by eapply (grows_state_ok m _ key (RDone a id))|]. split_and!; try done. by left.
  - intros [= <- <-]. split_and!; try done; by left.
Qed.

Lemma prune_step_ok locked cutoff m st m' st' :
  manager_ok m → prune_step locked cutoff m st = (m', st') →
  manager_ok m' ∧ grows m m' ∧ sm_thread_map m' ⊆ sm_thread_map m.
Proof.
  intros Hm. assert (∀ m1, sm_sessions m1 ⊆ sm_sessions m → sm_heap m1 = sm_heap m →
    sm_next m1 = sm_next m → sm_thread_map m1 ⊆ sm_thread_map m →
    manager_ok m1 ∧ grows m m1 ∧ sm_thread_map m1 ⊆ sm_thread_map m) as Hsub.
  { intros m1 Hs Hh Hn Ht. assert (grows m m1) by by apply grows_same_heap. split_and!; try done.
    destruct Hm as [H1 H2]. split.
    - intros user a Ha. eapply grows_owns; [done|]. apply H1. by eapply lookup_weaken.
    - intros a. rewrite Hh, Hn. apply H2. }
  destruct st as [|stale|stale ids|users ids n|ids n|n]; simpl.
  - case_bool_decide; intros [= <- <-]; by apply Hsub.
  - intros [= <- <-]. by apply Hsub.
  - intros [= <- <-]. apply Hsub; simpl; try done.
    generalize stale.*1 as l, (sm_sessions m) as ss.
    induction l as [|u l IH]; intros ss; simpl; [done|]. etrans; [apply IH|apply delete_subseteq].
  - intros [= <- <-]. apply Hsub; simpl; try done. apply map_filter_subseteq.
  - intros [= <- <-]. by apply Hsub.
  - intros [= <- <-]. by apply Hsub.
Qed.
End Invariants.

(** ** One resolution without interruption *)

Section Sequential.
Context {J : SerdeJson} {T : UuidText}.

(** How many phases are left at most. *)
Definition phases_left (st : ResolveState) : nat :=
  match st with
  | RSession => 9 | RSessionWrite => 8 | RLookup _ => 7 | RAdoptCheck _ => 6
  | RAdoptSession _ _ => 5 | RAdoptWrite _ _ => 4 | RCreate _ => 3 | RMap _ _ => 2
  | RUndo _ _ => 1 | RAdoptUndo _ _ => 1 | RDone _ _ => 0
  end.

Lemma resolve_step_phases key i m st :
  state_ok m key st → phases_left (resolve_step key i m st).2 ≤ phases_left st - 1.
Proof.
  intros Hst. destruct st; cbn [resolve_step]; repeat case_match; simpl; try lia.
  destruct Hst as (s' & ? & _). congruence.
Qed.

(** The session a caller works with. *)
Definition working_on (st : ResolveState) : option Arc :=
  match st with
  | RSession | RSessionWrite => None
  | RLookup a | RAdoptCheck a | RCreate a | RAdoptSession a _ | RAdoptWrite a _
  | RAdoptUndo a _ | RMap a _ | RUndo a _ | RDone a _ => Some a
  end.

(** What holds between the phases of a caller that runs alone from [m0]. *)
Definition alone (m0 : SessionManager) (key : ThreadKey) (m : SessionManager) (st : ResolveState) : Prop :=
  manager_ok m ∧ state_ok m key st ∧ grows m0 m ∧
  (∀ a, working_on st = Some a → sm_sessions m !! tk_user_id key = Some a) ∧
  (∀ k, k ≠ key → sm_thread_map m !! k = sm_thread_map m0 !! k) ∧
  (∀ a id, st = RDone a id ∨ st = RUndo a id ∨ st = RAdoptUndo a id →
     sm_thread_map m !! key = Some id).

Lemma resolve_step_sessions key i m st a :
  manager_ok m →
  (∀ a, working_on st = Some a → sm_sessions m !! tk_user_id key = Some a) →
  working_on (resolve_step key i m st).2 = Some a →
  sm_sessions (resolve_step key i m st).1 !! tk_user_id key = Some a.
Proof.
  intros Hm Hw. destruct st; cbn [resolve_step working_on] in *.
  - destruct (sm_sessions m !! tk_user_id key) eqn:E; simpl; [by intros [= <-]|done].
  - destruct (create_session_ok (tk_user_id key) i m Hm) as (_ & _ & _ & _ & Hs).
    destruct (create_session _ _ _) as [m1 a1]. simpl in *. by intros [= <-].
  - repeat case_match; simpl; apply Hw.
  - repeat case_match; simpl; apply Hw.
  - repeat case_match; simpl; apply Hw.
  - repeat case_match; simpl; apply Hw.
  - simpl. destruct (ensure_undo_same ext m) as (-> & _). apply Hw.
  - destruct (sm_heap m !! s) as [s0|]; [|apply Hw].
    destruct (create_thread _ _ _ _) as [s1 id]. simpl. apply Hw.
  - simpl. apply Hw.
  - simpl. apply Hw.
  - simpl. apply Hw.
Qed.

Lemma resolve_step_mapped key i m st m' st' a id :
  resolve_step key i m st = (m', st') → state_ok m key st →
  (∀ a id, st = RDone a id ∨ st = RUndo a id ∨ st = RAdoptUndo a id → sm_thread_map m !! key = Some id) →
  st' = RDone a id ∨ st' = RUndo a id ∨ st' = RAdoptUndo a id → sm_thread_map m' !! key = Some id.
Proof.
  intros E Hst Hin Hout. destruct st; cbn [resolve_step] in E.
  - case_match; simplify_eq; naive_solver.
  - destruct (create_session _ _ _). simplify_eq. naive_solver.
  - repeat case_match; simplify_eq; naive_solver.
  - repeat case_match; simplify_eq; naive_solver.
  - repeat case_match; simplify_eq; naive_solver.
  - case_match; simplify_eq; [naive_solver|]. simpl. rewrite lookup_insert_eq. naive_solver.
  - simplify_eq. destruct (ensure_undo_same ext m) as (_ & _ & _ & ->).
    destruct Hout as [[= <- <-]|[?|?]]; try done. eapply Hin. eauto.
  - destruct (sm_heap m !! s); [|simplify_eq; naive_solver]. destruct (create_thread _ _ _ _).
    simplify_eq. naive_solver.
  - simplify_eq. simpl. rewrite lookup_insert_eq. naive_solver.
  - simplify_eq. simpl. destruct Hout as [[= <- <-]|[?|?]]; try done. eapply Hin. eauto.
  - simplify_eq. eapply Hin. eauto.
Qed.

Lemma resolve_step_alone m0 key i m st m' st' :
  alone m0 key m st → resolve_step key i m st = (m', st') → alone m0 key m' st'.
Proof.
  intros (Hm & Hst & Hg & Hw & Hk & Hmap) E.
  destruct (resolve_step_ok _ _ _ _ _ _ Hm Hst E) as (Hm' & Hst' & Hg' & Htm & _).
  split_and!; try done.
  - intros a s Hs. destruct (Hg a s Hs) as (s1 & Hs1 & Hu1 & Hk1).
    destruct (Hg' a s1 Hs1) as (s2 & Hs2 & Hu2 & Hk2). exists s2. split_and!; [done|congruence|auto].
  - intros a Ha. pose proof (resolve_step_sessions key i m st a Hm Hw) as H. rewrite E in H. auto.
  - intros k Hne. destruct Htm as [->|(a & id & -> & _)]; [auto|]. rewrite lookup_insert_ne by done. auto.
  - intros a id Hd. by eapply resolve_step_mapped.
Qed.

Lemma run_resolve_alone fuel m0 key i m st :
  phases_left st ≤ fuel → alone m0 key m st →
  ∃ m' a id, run_resolve fuel key i m st = (m', RDone a id) ∧ alone m0 key m' (RDone a id).
Proof.
  revert m st. induction fuel as [|fuel IH]; intros m st Hf Ha; cbn [run_resolve].
  { destruct st as [| | | | | | | | | |a id]; simpl in Hf; try lia. eauto. }
  destruct (resolve_step key i m st) as [m1 st1] eqn:E. apply IH.
  - pose proof (resolve_step_phases key i m st) as H. rewrite E in H. simpl in H.
    specialize (H (proj1 (proj2 Ha))). lia.
  - by eapply resolve_step_alone.
Qed.

End Sequential.

(** ** Interleavings *)

Section System.
Context {J : SerdeJson} {T : UuidText}.

Record Sys := {
  sys_m : SessionManager;
  sys_tasks : list (ThreadKey * ResolveState);
  sys_prunes : list PruneState;
}.

Definition sys_init (hooks : bool) : Sys := {|
  sys_m := if hooks then with_hooks manager_new else manager_new; sys_tasks := []; sys_prunes := [] |}.

(** The thread a caller has created and not yet entered in the map. *)
Definition pending_thread (st : ResolveState) : option Uuid :=
  match st with RMap _ id => Some id | _ => None end.

Definition is_pending (sys : Sys) (id : Uuid) : Prop :=
  ∃ q, q ∈ sys_tasks sys ∧ pending_thread q.2 = Some id.

(** A random identifier is none that is mapped, pending or named by a caller. *)
Definition fresh_thread_id (sys : Sys) (id : Uuid) : Prop :=
  is_mapped (sys_m sys) id = false ∧ ¬ is_pending sys id ∧
  ∀ q, q ∈ sys_tasks sys → external_uuid q.1 ≠ Some id.

(** Callers start, run a phase each, prune, work on sessions and hydrate
    threads, in any order.  A caller does not name a thread whose creation
    is still in progress, and a hydrated thread is not mapped under another
    key. *)
Inductive sys_step : Sys → Sys → Prop :=
| step_call sys key :
    (∀ id, external_uuid key = Some id → ¬ is_pending sys id) →
    sys_step sys {| sys_m := sys_m sys; sys_tasks := sys_tasks sys ++ [(key, RSession)];
                    sys_prunes := sys_prunes sys |}
| step_resolve sys j key st i m' st' :
    sys_tasks sys !! j = Some (key, st) → fresh_thread_id sys (in_thread_id i) →
    resolve_step key i (sys_m sys) st = (m', st') →
    sys_step sys {| sys_m := m'; sys_tasks := <[j := (key, st')]> (sys_tasks sys);
                    sys_prunes := sys_prunes sys |}
| step_prune_call sys :
    sys_step sys {| sys_m := sys_m sys; sys_tasks := sys_tasks sys;
                    sys_prunes := sys_prunes sys ++ [PFind] |}
| step_prune sys j st locked cutoff m' st' :
    sys_prunes sys !! j = Some st → prune_step locked cutoff (sys_m sys) st = (m', st') →
    sys_step sys {| sys_m := m'; sys_tasks := sys_tasks sys;
                    sys_prunes := <[j := st']> (sys_prunes sys) |}
| step_session sys a s s' :
    sm_heap (sys_m sys) !! a = Some s → s_user_id s' = s_user_id s →
    (∀ id, is_Some (threads s !! id) → is_Some (threads s' !! id)) →
    sys_step sys {| sys_m := set_session a s' (sys_m sys); sys_tasks := sys_tasks sys;
                    sys_prunes := sys_prunes sys |}
| step_register sys user channel id a :
    owns (sys_m sys) a user →
    (∀ k, sm_thread_map (sys_m sys) !! k = Some id →
       k = {| tk_user_id := user; tk_channel := channel;
              tk_external_thread_id := Some (uuid_to_string id) |}) →
    ¬ is_pending sys id →
    sys_step sys {| sys_m := register_thread user channel id a (sys_m sys);
                    sys_tasks := sys_tasks sys; sys_prunes := sys_prunes sys |}
| step_undo sys id :
    sys_step sys {| sys_m := (get_undo_manager id (sys_m sys)).1; sys_tasks := sys_tasks sys;
                    sys_prunes := sys_prunes sys |}.

Definition sys_reachable (sys : Sys) : Prop := ∃ hooks, rtc sys_step (sys_init hooks) sys.

Definition one_key_per_thread (tm : gmap ThreadKey Uuid) : Prop :=
  ∀ k k' id, tm !! k = Some id → tm !! k' = Some id → k = k'.

(** A pending thread is mapped nowhere, named by nobody and pending once. *)
Definition pending_ok (sys : Sys) : Prop :=
  ∀ j q id, sys_tasks sys !! j = Some q → pending_thread q.2 = Some id →
    (∀ k, sm_thread_map (sys_m sys) !! k ≠ Some id) ∧
    (∀ q', q' ∈ sys_tasks sys → external_uuid q'.1 ≠ Some id) ∧
    (∀ j' q', sys_tasks sys !! j' = Some q' → pending_thread q'.2 = Some id → j' = j).

Definition sys_inv (sys : Sys) : Prop :=
  manager_ok (sys_m sys) ∧
  (∀ q, q ∈ sys_tasks sys → state_ok (sys_m sys) q.1 q.2) ∧
  one_key_per_thread (sm_thread_map (sys_m sys)) ∧ pending_ok sys.

Lemma sys_inv_frame sys m' prunes :
  sys_inv sys → manager_ok m' → grows (sys_m sys) m' →
  sm_thread_map m' ⊆ sm_thread_map (sys_m sys) →
  sys_inv {| sys_m := m'; sys_tasks := sys_tasks sys; sys_prunes := prunes |}.
Proof.
  intros (_ & Hst & Hinj & Hpend) Hm Hg Htm. split_and!; simpl; [done| | |].
  - intros q Hq. eapply grows_state_ok; [exact Hg|]. auto.
  - intros k k' id Hk Hk'. eapply Hinj; by eapply lookup_weaken.
  - intros j q id Hj Hid. simpl in *. destruct (Hpend j q id Hj Hid) as (H1 & H2 & H3).
    split_and!; [|done|done]. intros k Hk. apply (H1 k). by eapply lookup_weaken.
Qed.

Lemma is_mapped_false m id : is_mapped m id = false → ∀ k, sm_thread_map m !! k ≠ Some id.
Proof.
  intros H k Hk. assert (is_mapped m id = true) by (apply is_mapped_spec; eauto). congruence.
Qed.

Lemma one_key_insert (tm : gmap ThreadKey Uuid) key id :
  one_key_per_thread tm → (∀ k, tm !! k = Some id → k = key) → one_key_per_thread (<[key := id]> tm).
Proof.
  intros Hinj Hid k k' x Hk Hk'.
  apply lookup_insert_Some in Hk as [[Hk Hx]|[? Hk]], Hk' as [[Hk' Hx']|[? Hk']]; subst; try done.
  - symmetry. by apply Hid.
  - by apply Hid.
  - by eapply Hinj.
Qed.

Lemma sys_inv_resolve sys j key st i m' st' :
  sys_inv sys → sys_tasks sys !! j = Some (key, st) → fresh_thread_id sys (in_thread_id i) →
  resolve_step key i (sys_m sys) st = (m', st') →
  sys_inv {| sys_m := m'; sys_tasks := <[j := (key, st')]> (sys_tasks sys);
             sys_prunes := sys_prunes sys |}.
Proof.
  intros (Hm & Hst & Hinj & Hpend) Hj (Hf1 & Hf2 & Hf3) Hstep.
  assert (state_ok (sys_m sys) key st) as Hstj by (apply (Hst (key, st)); by eapply list_elem_of_lookup_2).
  destruct (resolve_step_ok _ _ _ _ _ _ Hm Hstj Hstep) as (Hm' & Hst' & Hg & Htm & Hnew).
  assert (∀ a id, sm_thread_map m' = <[key := id]> (sm_thread_map (sys_m sys)) →
    st = RMap a id ∨ st = RAdoptWrite a id ∧ is_mapped (sys_m sys) id = false →
    ∀ k, sm_thread_map (sys_m sys) !! k ≠ Some id) as Hunmapped.
  { intros a id _ [->|[_ Hn]]; [|by apply is_mapped_false]. by apply (Hpend j _ id Hj). }
  assert (∀ q, q ∈ <[j := (key, st')]> (sys_tasks sys) → ∃ st0, (q.1, st0) ∈ sys_tasks sys) as Hkeys.
  { intros q [->|Hq]%elem_of_list_insert.
    - exists st. by eapply list_elem_of_lookup_2.
    - exists q.2. by destruct q. }
  split_and!; simpl; [done| | |].
  - intros q [->|Hq]%elem_of_list_insert; [done|]. eapply grows_state_ok; [exact Hg|]. auto.
  - destruct Htm as [->|(a & id & Htm & Hcase)]; [done|]. rewrite Htm.
    apply one_key_insert; [done|]. intros k Hk. by apply (Hunmapped a id Htm Hcase) in Hk.
  - intros j' q id Hj' Hid. simpl in *. apply list_lookup_insert_Some in Hj' as [(<- & <- & _)|[Hne Hj']].
    + (* the caller itself has just created a thread *)
      simpl in Hid. destruct st'; try done. injection Hid as ->.
      destruct (Hnew _ _ eq_refl) as (_ & -> & Htm'). rewrite Htm'. split_and!.
      * by apply is_mapped_false.
      * intros q' (st0 & Hq')%Hkeys. by apply (Hf3 (q'.1, st0)).
      * intros j'' q'' Hj'' Hid''. apply list_lookup_insert_Some in Hj'' as [(<- & _)|[Hne Hj'']]; [done|].
        exfalso. apply Hf2. exists q''. split; [by eapply list_elem_of_lookup_2|done].
    + destruct (Hpend j' q id Hj' Hid) as (H1 & H2 & H3). split_and!.
      * destruct Htm as [->|(a & id0 & -> & Hcase)]; [done|]. intros k Hk.
        apply lookup_insert_Some in Hk as [[_ ->]|[_ Hk]]; [|by apply (H1 k)].
        destruct Hcase as [->|[-> _]].
        -- apply Hne. symmetry. rewrite (H3 j _ Hj eq_refl). done.
        -- destruct Hstj as (_ & _ & He). apply (H2 (key, RAdoptWrite a id)); [|done].
           by eapply list_elem_of_lookup_2.
      * intros q' (st0 & Hq')%Hkeys. by apply (H2 (q'.1, st0)).
      * intros j'' q'' Hj'' Hid''. apply list_lookup_insert_Some in Hj'' as [(<- & <- & _)|[Hne' Hj'']].
        -- simpl in Hid''. destruct st'; try done. injection Hid'' as ->.
           destruct (Hnew _ _ eq_refl) as (_ & -> & _). exfalso. apply Hf2. exists q.
           split; [by eapply list_elem_of_lookup_2|done].
        -- by eapply H3.
Qed.

Lemma sys_step_inv sys sys' : sys_inv sys → sys_step sys sys' → sys_inv sys'.
Proof.
  intros Hinv Hstep. pose proof Hinv as (Hm & Hst & Hinj & Hpend).
  destruct Hstep as [sys key Hfree|sys j key st i m' st' Hj Hf Hs|sys|sys j st locked cutoff m' st' Hj Hs
    |sys a s s' Ha Hu Hk|sys user channel id a Ho Hk Hp|sys id].
  - split_and!; simpl; [done| |done|].
    + intros q [Hq| ->%list_elem_of_singleton]%elem_of_app; [auto|done].
    + intros j q id Hj Hid. simpl in *.
      apply lookup_app_Some in Hj as [Hj|[_ Hj]]; [|apply list_lookup_singleton_Some in Hj as [_ <-]; done].
      destruct (Hpend j q id Hj Hid) as (H1 & H2 & H3). split_and!; [done| |].
      * intros q' [Hq'| ->%list_elem_of_singleton]%elem_of_app; [auto|]. simpl. intros He.
        apply (Hfree id He). exists q. split; [by eapply list_elem_of_lookup_2|done].
      * intros j' q' Hj' Hid'. apply lookup_app_Some in Hj' as [Hj'|[_ Hj']]; [by eapply H3|].
        apply list_lookup_singleton_Some in Hj' as [_ <-]. done.
  - by eapply sys_inv_resolve.
  - by apply sys_inv_frame.
  - destruct (prune_step_ok _ _ _ _ _ _ Hm Hs) as (? & ? & ?). by apply sys_inv_frame.
  - destruct (set_session_ok _ _ _ _ Hm Ha Hu Hk) as [? ?]. by apply sys_inv_frame.
  - assert (sm_heap (register_thread user channel id a (sys_m sys)) = sm_heap (sys_m sys)) as Hh.
    { unfold register_thread, ensure_undo_manager. cbv zeta. repeat case_match; done. }
    assert (grows (sys_m sys) (register_thread user channel id a (sys_m sys))) as Hg
      by by apply grows_same_heap.
    assert (sm_thread_map (register_thread user channel id a (sys_m sys)) =
      <[{| tk_user_id := user; tk_channel := channel; tk_external_thread_id := Some (uuid_to_string id) |}
        := id]> (sm_thread_map (sys_m sys))) as Htm.
    { unfold register_thread, ensure_undo_manager. cbv zeta. repeat case_match; done. }
    split_and!; simpl; [split| | |].
    + intros u b Hb. eapply grows_owns; [exact Hg|].
      assert (sm_sessions (sys_m sys) !! u = Some b ∨ (u = user ∧ b = a)) as [Hb'|[-> ->]]; [|by apply Hm|done].
      revert Hb. unfold register_thread, ensure_undo_manager. cbv zeta.
      repeat case_match; simpl; try (by left); intros [[<- <-]|[_ ?]]%lookup_insert_Some; auto.
    + intros b. rewrite Hh. intros Hb%Hm. enough (sm_next (sys_m sys) ≤
        sm_next (register_thread user channel id a (sys_m sys))) by lia.
      unfold register_thread, ensure_undo_manager. cbv zeta. repeat case_match; simpl; lia.
    + intros q Hq. eapply grows_state_ok; [exact Hg|]. auto.
    + rewrite Htm. by apply one_key_insert.
    + intros j q id' Hj Hid. simpl in *. destruct (Hpend j q id' Hj Hid) as (H1 & H2 & H3).
      split_and!; [|done|done]. intros k. rewrite Htm. intros [[_ <-]|[_ Hk']]%lookup_insert_Some.
      * apply Hp. exists q. split; [by eapply list_elem_of_lookup_2|done].
      * by apply (H1 k).
  - apply sys_inv_frame; try done; unfold get_undo_manager; case_match; simpl; try done.
    + eapply manager_ok_same; [..|exact Hm]; [done|done|simpl; lia].
    + by apply grows_same_heap.
Qed.

Lemma sys_reachable_inv sys : sys_reachable sys → sys_inv sys.
Proof.
  intros [hooks H]. eapply (rtc_invariant sys_step sys_inv); [apply sys_step_inv| |exact H].
  split_and!.
  - split; destruct hooks; simpl; intros *; rewrite lookup_empty; [done|done|by intros []..].
  - by intros q ?%elem_of_nil.
  - intros k k' id. by destruct hooks; simpl; rewrite lookup_empty.
  - by intros j q id Hj.
Qed.
End System.

(** ** Properties *)

(** C15. Isolation under interleaving.  However resolutions, prunings, work on
    sessions and hydrations interleave phase by phase, the session stored for
    a user is that user's, every finished resolution returned a session of
    the asking user that has the thread, and no thread answers for two
    conversations: the map from (user, channel, external id) to threads is
    injective.  Assumed of the steps ([sys_step]): a random identifier of a thread
    is new; a caller does not name, as external id, a thread that another caller
    has created and not yet entered in the map (else two keys can lead to it); a
    hydrated thread is registered for a session of that user and is mapped under
    no other key and not in creation; and work on a session keeps its user and its
    threads. *)
Theorem conversations_isolated {J : SerdeJson} {T : UuidText} (sys : Sys)
    (Hreach : sys_reachable sys) :
  (∀ user a, sm_sessions (sys_m sys) !! user = Some a → owns (sys_m sys) a user) ∧
  (∀ key a id, (key, RDone a id) ∈ sys_tasks sys →
     owns (sys_m sys) a (tk_user_id key) ∧ holds (sys_m sys) a id) ∧
  (∀ key key' id, sm_thread_map (sys_m sys) !! key = Some id →
     sm_thread_map (sys_m sys) !! key' = Some id → key = key').
Proof.
  destruct (sys_reachable_inv sys Hreach) as ([H1 _] & H2 & H3 & _). split_and!; [done| |done].
  intros key a id Hq. exact (H2 _ Hq).
Qed.

(** Resolving a conversation always answers, with a session of the user
    that has the thread.  The answer is stable: resolving the same
    conversation again gives the same session and thread and changes nothing,
    whatever identifiers the generator would have drawn.  Other conversations
    keep their threads. *)
Theorem resolve_thread_stable {J : SerdeJson} {T : UuidText} (sys : Sys)
    (Hreach : sys_reachable sys) (key : ThreadKey) (i : Inputs) :
  let m := sys_m sys in
  let m' := (resolve_thread key i m).1 in
  ∃ a id, (resolve_thread key i m).2 = Some (a, id) ∧
    owns m' a (tk_user_id key) ∧ holds m' a id ∧ sm_sessions m' !! tk_user_id key = Some a ∧
    (∀ i', resolve_thread key i' m' = (m', Some (a, id))) ∧
    (∀ key', key' ≠ key → sm_thread_map m' !! key' = sm_thread_map m !! key').
Proof.
  intros m m'. destruct (sys_reachable_inv sys Hreach) as (Hm & _).
  destruct (run_resolve_alone 9 m key i m RSession) as (m1 & a & id & Hrun & Halone).
  { done. }
  { split_and!; try done. intros a id [?|[?|?]]; done. }
  assert (resolve_thread key i m = (m1, Some (a, id))) as Heq by (unfold resolve_thread; by rewrite Hrun).
  assert (m' = m1) as -> by (unfold m'; by rewrite Heq). rewrite Heq.
  destruct Halone as (_ & [Ho Hh] & _ & Hs & Hk & Hmap).
  specialize (Hs a eq_refl). specialize (Hmap a id (or_introl eq_refl)).
  exists a, id. split_and!; try done.
  intros i'. unfold resolve_thread. cbn [run_resolve resolve_step]. rewrite Hs.
  cbn [resolve_step]. by rewrite Hmap, (proj2 (has_thread_holds m1 a id) Hh).
Qed.

(** ** Witnesses and examples *)

Section Witnesses.
#[local] Existing Instance json_lite.
#[local] Existing Instance uuid_bits.

Definition demo_key (user channel : string) (ext : option string) : ThreadKey :=
  {| tk_user_id := user; tk_channel := channel; tk_external_thread_id := ext |}.

Definition demo_inputs (n : N) : Inputs := {|
  in_session_id := 1%N; in_thread_id := n; in_now := 0%Z; in_now1 := 0%Z; in_now2 := 0%Z |}.

Definition demo_sys : Sys := {|
  sys_m := (resolve_step (demo_key "u" "cli" None) (demo_inputs 7) manager_new RSessionWrite).1;
  sys_tasks := [(demo_key "u" "cli" None, RLookup 0)]; sys_prunes := [] |}.

Lemma demo_sys_reachable : sys_reachable demo_sys.
Proof.
  exists false. eapply rtc_l; [apply (step_call _ (demo_key "u" "cli" None)); done|].
  assert (∀ q st, fresh_thread_id {| sys_m := manager_new; sys_tasks := [(demo_key "u" "cli" None, st)];
    sys_prunes := q |} 7%N ∨ pending_thread st ≠ None) as Hfresh.
  { intros q st. destruct (pending_thread st) eqn:E; [right; done|left]. split_and!; [done| |].
    - intros (x & Hx%list_elem_of_singleton & Hp). subst. simpl in Hp. congruence.
    - intros x Hx%list_elem_of_singleton. by subst. }
  eapply rtc_l; [eapply (step_resolve _ 0 (demo_key "u" "cli" None) RSession (demo_inputs 7));
    [done| |reflexivity]|].
  { by destruct (Hfresh [] RSession). }
  eapply rtc_l; [eapply (step_resolve _ 0 (demo_key "u" "cli" None) RSessionWrite (demo_inputs 7));
    [done| |reflexivity]|].
  { by destruct (Hfresh [] RSessionWrite). }
  apply rtc_refl.
Qed.

Lemma conversations_isolated_witness :
  sm_sessions (sys_m demo_sys) !! "u" = Some 0 ∧ owns (sys_m demo_sys) 0 "u".
Proof.
  assert (sm_sessions (sys_m demo_sys) !! "u" = Some 0) as Hs by reflexivity.
  split; [exact Hs|]. exact (proj1 (conversations_isolated demo_sys demo_sys_reachable) _ _ Hs).
Defined.

Lemma resolve_thread_stable_witness :
  ∃ a id, (resolve_thread (demo_key "u" "web" None) (demo_inputs 8) (sys_m demo_sys)).2 = Some (a, id).
Proof.
  destruct (resolve_thread_stable demo_sys demo_sys_reachable (demo_key "u" "web" None) (demo_inputs 8))
    as (a & id & H & _).
  exists a, id. exact H.
Defined.

(** Two callers of the same new conversation both create a thread. *)
Lemma concurrent_first_messages_split :
  let key := demo_key "u" "cli" (Some "chat") in
  let '(m1, st1) := run_resolve 4 key (demo_inputs 7) manager_new RSession in
  let '(m2, st2) := run_resolve 9 key (demo_inputs 8) m1 RSession in
  let '(m3, st3) := run_resolve 9 key (demo_inputs 7) m2 st1 in
  st2 = RDone 0 8%N ∧ st3 = RDone 0 7%N.
Proof. by vm_compute. Qed.

(** The assumption on callers that name a thread in creation is needed. *)
Lemma naming_a_thread_in_creation :
  let key1 := demo_key "u" "cli" None in
  let key2 := demo_key "u" "web" (Some (uuid_to_string 7%N)) in
  let '(m1, st1) := run_resolve 5 key1 (demo_inputs 7) manager_new RSession in
  let '(m2, st2) := run_resolve 9 key2 (demo_inputs 8) m1 RSession in
  let '(m3, st3) := run_resolve 9 key1 (demo_inputs 7) m2 st1 in
  st1 = RMap 0 7%N ∧ sm_thread_map m3 !! key1 = Some 7%N ∧ sm_thread_map m3 !! key2 = Some 7%N.
Proof. by vm_compute. Qed.
End Witnesses.
