(* ===== verification/MessageRebuild.v ===== *)
(** * Persisting turns and rebuilding them from the database

    Models [src/src/agent/thread_ops/persistence.rs] (what a turn writes to the
    conversation store) and [src/src/agent/thread_ops/message_rebuild.rs] (how
    the rows become messages for the model again), with the store's trait of
    [src/src/db/traits/conversation.rs] as a type class.  Tool results pass the
    modelled safety layer. *)

From S2P Require Import Prelude Text Externals LlmTypes Session LeakDetector Safety.

(** ** The conversation store *)

Record ConversationMessage := {
  cm_id : Uuid;
  cm_role : string;
  cm_content : string;
  cm_created_at : Utc;
}.

(** The errors of the database drivers carry the text they display. *)
Inductive DatabaseError :=
| DbPool (e : string)
| DbQuery (e : string)
| DbNotFound (entity id : string)
| DbConstraint (e : string)
| DbMigration (e : string)
| DbSerialization (e : string)
| DbValidation (e : string)
| DbPostgres (e : string)
| DbPoolBuild (e : string)
| DbPoolRuntime (e : string)
| DbLibSql (e : string).

Record EnsureConversationParams := {
  ec_id : Uuid;
  ec_channel : string;
  ec_user_id : string;
  ec_thread_id : option string;
}.

(** The methods of the trait that threads use, over a database [W].  Laws:
    ensuring a conversation leaves what its owner reads as it is, and adding a
    message puts a row at the end. *)
Class ConversationStore (W : Type) := {
  ensure_conversation : EnsureConversationParams → W → W * result unit DatabaseError;
  add_conversation_message : Uuid → string → string → W → W * result Uuid DatabaseError;
  list_conversation_messages_scoped :
    Uuid → string → string → W → result (list ConversationMessage) DatabaseError;
  ensure_keeps_rows : ∀ p id user channel w rows,
    list_conversation_messages_scoped id user channel w = Ok rows →
    list_conversation_messages_scoped id user channel (ensure_conversation p w).1 = Ok rows;
  add_appends_row : ∀ id role content user channel w w' row_id rows,
    add_conversation_message id role content w = (w', Ok row_id) →
    list_conversation_messages_scoped id user channel w = Ok rows →
    ∃ now, list_conversation_messages_scoped id user channel w' =
      Ok (rows ++ [{| cm_id := row_id; cm_role := role; cm_content := content; cm_created_at := now |}]);
}.

Section Persistence.
Context {J : SerdeJson}.

Record TurnPersistContext := { tp_thread_id : Uuid; tp_user_id : string; tp_turn_number : nat }.

Definition value_to_preview (v : json) (limit : nat) : string :=
  match json_as_string v with
  | Some s => truncate_preview s limit
  | None => truncate_preview (json_to_string v) limit
  end.

Definition summarize_tool_call (turn_number i : nat) (tc : TurnToolCall) : json :=
  json_object
    ([("name", JString (ttc_name tc));
      ("call_id", JString ("turn" +:+ pretty turn_number +:+ "_" +:+ pretty i));
      ("parameters", ttc_parameters tc)]
     ++ match ttc_result tc with
        | Some result => [("result_preview", JString (value_to_preview result 500)); ("result", result)]
        | None => []
        end
     ++ match ttc_error tc with
        | Some error => [("error", JString error)]
        | None => []
        end).

Definition gateway_conversation_params (thread_id : Uuid) (user_id : string) :
    EnsureConversationParams :=
  {| ec_id := thread_id; ec_channel := "gateway"; ec_user_id := user_id; ec_thread_id := None |}.

Context {W : Type} {S : ConversationStore W}.

(** Every write ensures the conversation first and gives up on an error. *)
Definition persist_row (thread_id : Uuid) (user_id role content : string) (w : W) : W :=
  match ensure_conversation (gateway_conversation_params thread_id user_id) w with
  | (w, Err _) => w
  | (w, Ok _) => (add_conversation_message thread_id role content w).1
  end.

(** An agent without a store persists nothing. *)
Definition persist_user_message (thread_id : Uuid) (user_id user_input : string) (w : option W) :
    option W := persist_row thread_id user_id "user" user_input <$> w.

Definition persist_assistant_response (thread_id : Uuid) (user_id response : string)
    (w : option W) : option W := persist_row thread_id user_id "assistant" response <$> w.

Definition persist_tool_calls (ctx : TurnPersistContext) (tool_calls : list TurnToolCall)
    (w : option W) : option W :=
  if bool_decide (tool_calls = []) then w
  else
    let summaries := imap (λ i tc, summarize_tool_call (tp_turn_number ctx) i tc) tool_calls in
    persist_row (tp_thread_id ctx) (tp_user_id ctx) "tool_calls" (json_array_to_string summaries) <$> w.
End Persistence.

(** ** Rebuilding *)

Section Rebuild.
Context {J : SerdeJson} {R : RegexEngine} {C : AhoCorasick} {U : UnicodeCase}.

Record ParsedCall := {
  pc_call_id : string;
  pc_name : string;
  pc_arguments : json;
  pc_raw_entry : json;
}.

Inductive ToolResultKind :=
| KindError (s : string) | KindResult (s : string) | KindResultPreview (s : string) | KindOk.

(** [get(key).and_then(as_str).filter(|s| !s.trim().is_empty())] *)
Definition visible_member (entry : json) (key : string) : option string :=
  match json_get entry key ≫= json_as_string with
  | Some s => if bool_decide (trim s = "") then None else Some s
  | None => None
  end.

Definition parse_entry (call : json) : option ParsedCall :=
  match visible_member call "call_id", visible_member call "name" with
  | Some call_id, Some name =>
      Some {| pc_call_id := call_id; pc_name := name;
              pc_arguments := default json_empty (json_get call "parameters"); pc_raw_entry := call |}
  | _, _ => None
  end.

Fixpoint parse_entries (calls : list json) (idx : nat) (parsed : list ParsedCall)
    (invalid : list nat) : list ParsedCall * list nat :=
  match calls with
  | [] => (parsed, invalid)
  | call :: calls =>
      match parse_entry call with
      | Some pc => parse_entries calls (S idx) (parsed ++ [pc]) invalid
      | None => parse_entries calls (S idx) parsed (invalid ++ [idx])
      end
  end.

Definition parse_tool_call_entries (calls : list json) : result (list ParsedCall) (list nat) :=
  let '(parsed, invalid) := parse_entries calls 0 [] [] in
  if bool_decide (invalid = []) then Ok parsed else Err invalid.

Definition parse_calls_json (content : string) : option (list json) :=
  match json_array_from_str content with
  | Some calls => if bool_decide (calls = []) then None else Some calls
  | None => None
  end.

Definition build_tool_calls (parsed : list ParsedCall) : list ToolCall :=
  (λ pc, {| tc_id := pc_call_id pc; tc_name := pc_name pc; tc_arguments := pc_arguments pc |})
  <$> parsed.

Definition string_member (entry : json) (key : string) : option string :=
  json_get entry key ≫= json_as_string.

Definition classify_result_content (entry : json) : ToolResultKind :=
  match string_member entry "error" with
  | Some e => KindError e
  | None =>
      match string_member entry "result" with
      | Some r => KindResult r
      | None =>
          match string_member entry "result_preview" with
          | Some p => KindResultPreview p
          | None => KindOk
          end
      end
  end.

Definition raw_content (k : ToolResultKind) : string :=
  match k with
  | KindError e => "Error: " +:+ e
  | KindResult s | KindResultPreview s => s
  | KindOk => "OK"
  end.

Definition process_and_wrap (safety : SafetyLayer) (tool_name raw : string) : string :=
  let sanitized := process_tool_output safety tool_name raw in
  wrap_for_llm tool_name (so_content sanitized) (so_was_modified sanitized).

Definition rebuilt_result_content (safety : SafetyLayer) (entry : json) (tool_name : string) : string :=
  process_and_wrap safety tool_name (raw_content (classify_result_content entry)).

Definition handle_tool_calls_row (safety : SafetyLayer) (out : list ChatMessage)
    (message : ConversationMessage) : list ChatMessage :=
  match parse_calls_json (cm_content message) with
  | None => out
  | Some calls =>
      match parse_tool_call_entries calls with
      | Err _ => out
      | Ok parsed =>
          out ++ [assistant_with_tool_calls None (build_tool_calls parsed)]
          ++ ((λ pc, tool_result (pc_call_id pc) (pc_name pc)
                       (rebuilt_result_content safety (pc_raw_entry pc) (pc_name pc))) <$> parsed)
      end
  end.

Definition rebuild_row (safety : SafetyLayer) (out : list ChatMessage) (msg : ConversationMessage) :
    list ChatMessage :=
  if bool_decide (cm_role msg = "user") then out ++ [msg_user (cm_content msg)]
  else if bool_decide (cm_role msg = "assistant") then out ++ [msg_assistant (cm_content msg)]
  else if bool_decide (cm_role msg = "tool_calls") then handle_tool_calls_row safety out msg
  else out.

Definition rebuild_chat_messages_from_db (safety : SafetyLayer)
    (db_messages : list ConversationMessage) : list ChatMessage :=
  foldl (rebuild_row safety) [] db_messages.
End Rebuild.

(** ** Rows contribute one after the other *)

Section Rows.
Context {J : SerdeJson} {R : RegexEngine} {C : AhoCorasick} {U : UnicodeCase}.
Implicit Types (safety : SafetyLayer) (out : list ChatMessage).

Lemma rebuild_row_app safety out msg : rebuild_row safety out msg = out ++ rebuild_row safety [] msg.
Proof.
  unfold rebuild_row, handle_tool_calls_row. repeat case_match; by rewrite ?app_nil_r.
Qed.

Lemma rebuild_app safety rows1 rows2 :
  rebuild_chat_messages_from_db safety (rows1 ++ rows2) =
  rebuild_chat_messages_from_db safety rows1 ++ rebuild_chat_messages_from_db safety rows2.
Proof.
  unfold rebuild_chat_messages_from_db. rewrite foldl_app.
  generalize (foldl (rebuild_row safety) [] rows1) as out. intros out.
  assert (∀ out0, foldl (rebuild_row safety) out0 rows2 = out0 ++ foldl (rebuild_row safety) [] rows2) as H.
  { induction rows2 as [|row rows2 IH]; intros out0; simpl; [by rewrite app_nil_r|].
    rewrite IH, (IH (rebuild_row safety [] row)), rebuild_row_app. by rewrite app_assoc. }
  apply H.
Qed.

Lemma rebuild_cons safety row rows :
  rebuild_chat_messages_from_db safety (row :: rows) =
  rebuild_row safety [] row ++ rebuild_chat_messages_from_db safety rows.
Proof. change (row :: rows) with ([row] ++ rows). by rewrite rebuild_app. Qed.

Lemma parse_entries_spec calls idx parsed invalid :
  match mapM parse_entry calls with
  | Some ps => parse_entries calls idx parsed invalid = (parsed ++ ps, invalid)
  | None => length invalid < length (parse_entries calls idx parsed invalid).2
  end.
Proof.
  assert (∀ calls idx parsed invalid,
    length invalid ≤ length (parse_entries calls idx parsed invalid).2) as Hmono.
  { clear. induction calls as [|c calls IH]; intros; simpl; [done|]. case_match; [apply IH|].
    etrans; [|apply IH]. rewrite length_app. lia. }
  revert idx parsed invalid. induction calls as [|c calls IH]; intros idx parsed invalid; simpl.
  { by rewrite app_nil_r. }
  destruct (parse_entry c) as [pc|]; simpl.
  - specialize (IH (S idx) (parsed ++ [pc]) invalid). destruct (mapM parse_entry calls) as [ps|]; simpl; [|done].
    by rewrite IH, <-app_assoc.
  - eapply Nat.lt_le_trans; [|apply Hmono]. rewrite length_app. simpl. lia.
Qed.

(** All entries of a row are valid, or the row counts for nothing. *)
Lemma parse_tool_call_entries_spec calls ps :
  parse_tool_call_entries calls = Ok ps ↔ mapM parse_entry calls = Some ps.
Proof.
  unfold parse_tool_call_entries. pose proof (parse_entries_spec calls 0 [] []) as H.
  destruct (parse_entries calls 0 [] []) as [parsed invalid]. destruct (mapM parse_entry calls) as [ps'|].
  - simplify_eq/=. naive_solver.
  - simpl in H. case_bool_decide; [subst; simpl in H; lia|done].
Qed.

Lemma parse_entry_visible call pc :
  parse_entry call = Some pc → trim (pc_call_id pc) ≠ "" ∧ trim (pc_name pc) ≠ "".
Proof.
  unfold parse_entry, visible_member. repeat case_match; try done; intros [= <-]; simplify_eq/=.
  repeat case_bool_decide; naive_solver.
Qed.

(** Every tool result finds its call in the same list. *)
Definition self_contained (l : list ChatMessage) : Prop :=
  ∀ m, m ∈ l → role m = Tool → ∃ id a, tool_call_id m = Some id ∧ a ∈ l ∧ announces a id.

Lemma self_contained_app l1 l2 : self_contained l1 → self_contained l2 → self_contained (l1 ++ l2).
Proof.
  intros H1 H2 m [Hm|Hm]%elem_of_app Hr;
    [destruct (H1 m Hm Hr) as (id & a & ? & ? & ?)|destruct (H2 m Hm Hr) as (id & a & ? & ? & ?)];
    exists id, a; rewrite elem_of_app; auto.
Qed.

Lemma self_contained_sanitize l : self_contained l → sanitize_tool_messages l = l.
Proof.
  intros H. unfold sanitize_tool_messages. etrans; [|apply list_fmap_id].
  apply list_fmap_ext. intros i m Hm. apply list_elem_of_lookup_2 in Hm. simpl.
  case_bool_decide as Hr; [|done]. simpl. unfold is_orphaned_tool_result.
  destruct (H m Hm Hr) as (id & a & -> & Ha & Han).
  rewrite bool_decide_eq_false_2; [done|]. intros Hn. apply Hn, elem_of_known_ids. eauto.
Qed.

Lemma rebuild_row_self_contained safety row : self_contained (rebuild_row safety [] row).
Proof.
  unfold rebuild_row. case_bool_decide; [by intros m ->%list_elem_of_singleton|].
  case_bool_decide; [by intros m ->%list_elem_of_singleton|].
  case_bool_decide; [|by intros m ?%elem_of_nil].
  unfold handle_tool_calls_row. destruct (parse_calls_json _) as [calls|]; [|by intros m ?%elem_of_nil].
  destruct (parse_tool_call_entries calls) as [ps|]; [|by intros m ?%elem_of_nil].
  intros m Hm Hr. simpl in Hm. apply elem_of_cons in Hm as [->|Hm]; [done|].
  apply list_elem_of_fmap in Hm as (pc & -> & Hpc). simpl.
  exists (pc_call_id pc), (assistant_with_tool_calls None (build_tool_calls ps)).
  split_and!; [done|left|]. split; [done|]. exists (build_tool_calls ps).
  destruct ps as [|p ps]; [by apply elem_of_nil in Hpc|]. split; [done|].
  eexists. split; [by apply list_elem_of_fmap_2|]. done.
Qed.

Lemma rebuild_self_contained safety rows : self_contained (rebuild_chat_messages_from_db safety rows).
Proof.
  induction rows as [|row rows IH]; [by intros m ?%elem_of_nil|]. rewrite rebuild_cons.
  apply self_contained_app; [apply rebuild_row_self_contained|done].
Qed.
End Rows.

(** ** A persisted turn *)

Section Turns.
Context {J : SerdeJson} {R : RegexEngine} {C : AhoCorasick} {U : UnicodeCase}.

(** The messages of a turn with tool results rendered by [render]. *)
Definition turn_messages_with (render : TurnToolCall → string) (tn : Turn) : list ChatMessage :=
  turn_user_message tn ::
  match turn_tool_calls tn with
  | [] => []
  | tcs =>
      assistant_with_tool_calls None
        (imap (λ i tc, {| tc_id := turn_call_id tn i; tc_name := ttc_name tc;
                          tc_arguments := ttc_parameters tc |}) tcs)
      :: imap (λ i tc, tool_result (turn_call_id tn i) (ttc_name tc) (render tc)) tcs
  end
  ++ match response tn with Some resp => [msg_assistant resp] | None => [] end.

(** What the running thread sends has this form. *)
Lemma turn_block_messages tn : turn_block tn = turn_messages_with tool_result_content tn.
Proof.
  unfold turn_block, push_turn_messages, append_tool_call_messages, turn_messages_with.
  destruct (turn_tool_calls tn), (response tn); simpl; by rewrite ?app_nil_r.
Qed.

(** The text of a result after hydration. *)
Definition hydrated_text (tc : TurnToolCall) : string :=
  match ttc_error tc with
  | Some e => "Error: " +:+ e
  | None =>
      match ttc_result tc with
      | Some v => match json_as_string v with
                  | Some s => s
                  | None => truncate_preview (json_to_string v) 500
                  end
      | None => "OK"
      end
  end.

Lemma summary_members n i tc :
  let entry := summarize_tool_call n i tc in
  json_get entry "name" = Some (JString (ttc_name tc)) ∧
  json_get entry "call_id" = Some (JString ("turn" +:+ pretty n +:+ "_" +:+ pretty i)) ∧
  json_get entry "parameters" = Some (ttc_parameters tc) ∧
  json_get entry "result" = ttc_result tc ∧
  json_get entry "result_preview" = (λ v, JString (value_to_preview v 500)) <$> ttc_result tc ∧
  json_get entry "error" = JString <$> ttc_error tc.
Proof.
  cbv zeta. unfold summarize_tool_call.
  split_and!; (rewrite json_get_object; [by destruct (ttc_result tc), (ttc_error tc)|]);
    destruct (ttc_result tc), (ttc_error tc); simpl; repeat constructor; set_solver.
Qed.

Lemma summary_result n i tc : raw_content (classify_result_content (summarize_tool_call n i tc)) = hydrated_text tc.
Proof.
  destruct (summary_members n i tc) as (_ & _ & _ & Hr & Hp & He).
  unfold classify_result_content, string_member, hydrated_text. rewrite Hr, Hp, He.
  destruct (ttc_error tc); simpl; [by rewrite json_as_string_JString|].
  destruct (ttc_result tc) as [v|]; simpl; [|done].
  destruct (json_as_string v) eqn:Hs; simpl; [done|]. rewrite json_as_string_JString.
  unfold value_to_preview. by rewrite Hs.
Qed.

Abbreviation letter_t := (Ascii.Ascii false false true false true true true false).

Lemma trim_call_id (n i : nat) : trim ("turn" +:+ pretty n +:+ "_" +:+ pretty i) ≠ "".
Proof.
  unfold trim. assert (∀ s, trim_start (String letter_t s) = String letter_t s) as Hs.
  { intros s. unfold trim_start. simpl. destruct s as [|d [|e s]]; done. }
  change ("turn" +:+ pretty n +:+ "_" +:+ pretty i) with (String letter_t ("urn" +:+ pretty n +:+ "_" +:+ pretty i)).
  rewrite Hs. cbn [trim_end]. by rewrite Hs.
Qed.

Lemma summary_entry n i tc :
  trim (ttc_name tc) ≠ "" →
  parse_entry (summarize_tool_call n i tc) =
  Some {| pc_call_id := "turn" +:+ pretty n +:+ "_" +:+ pretty i; pc_name := ttc_name tc;
          pc_arguments := ttc_parameters tc; pc_raw_entry := summarize_tool_call n i tc |}.
Proof.
  intros Hname. destruct (summary_members n i tc) as (Hn & Hc & Hp & _).
  unfold parse_entry, visible_member. rewrite Hn, Hc, Hp. cbn [mbind option_bind].
  rewrite !json_as_string_JString, !bool_decide_eq_false_2; [done|done|apply trim_call_id].
Qed.

Lemma summary_entries n k tcs :
  Forall (λ tc, trim (ttc_name tc) ≠ "") tcs →
  mapM parse_entry (imap (λ i tc, summarize_tool_call n (k + i) tc) tcs) =
  Some (imap (λ i tc, {| pc_call_id := "turn" +:+ pretty n +:+ "_" +:+ pretty (k + i);
    pc_name := ttc_name tc; pc_arguments := ttc_parameters tc;
    pc_raw_entry := summarize_tool_call n (k + i) tc |}) tcs).
Proof.
  intros H. revert k. induction H as [|tc tcs Hn _ IH]; intros k; [done|].
  cbn [imap mapM]. rewrite summary_entry by done. simpl.
  specialize (IH (S k)). rewrite (imap_ext _ (λ i tc, summarize_tool_call n (k + S i) tc)) in IH
    by (intros; f_equal; lia).
  rewrite (imap_ext (λ i tc, {| pc_call_id := "turn" +:+ pretty n +:+ "_" +:+ pretty (S k + i); pc_name := _;
    pc_arguments := _; pc_raw_entry := _ |}) (λ i tc, {| pc_call_id := "turn" +:+ pretty n +:+ "_" +:+
    pretty (k + S i); pc_name := ttc_name tc; pc_arguments := ttc_parameters tc;
    pc_raw_entry := summarize_tool_call n (k + S i) tc |})) in IH
    by (intros i x _; by replace (S k + i) with (k + S i) by lia).
  unfold compose. by rewrite IH.
Qed.

(** The row of a turn's calls gives the announcement and its results. *)
Lemma tool_calls_row_rebuilds safety tn row :
  let summaries := imap (λ i tc, summarize_tool_call (turn_number tn) i tc) (turn_tool_calls tn) in
  turn_tool_calls tn ≠ [] → Forall (λ tc, trim (ttc_name tc) ≠ "") (turn_tool_calls tn) →
  cm_content row = json_array_to_string summaries →
  json_array_from_str (json_array_to_string summaries) = Some summaries →
  handle_tool_calls_row safety [] row =
    match turn_tool_calls tn with
    | [] => []
    | tcs => assistant_with_tool_calls None
        (imap (λ i tc, {| tc_id := turn_call_id tn i; tc_name := ttc_name tc;
                          tc_arguments := ttc_parameters tc |}) tcs)
      :: imap (λ i tc, tool_result (turn_call_id tn i) (ttc_name tc)
                 (process_and_wrap safety (ttc_name tc) (hydrated_text tc))) tcs
    end.
Proof.
  intros summaries Hne Hn Hc Hp. unfold handle_tool_calls_row, parse_calls_json. rewrite Hc, Hp.
  assert (summaries ≠ []) as Hs by (unfold summaries; by destruct (turn_tool_calls tn)).
  rewrite bool_decide_eq_false_2 by done.
  pose proof (summary_entries (turn_number tn) 0 (turn_tool_calls tn) Hn) as He.
  fold summaries in He. simpl in He.
  apply parse_tool_call_entries_spec in He. unfold summaries. rewrite He.
  destruct (turn_tool_calls tn) as [|tc tcs]; [done|]. cbn [app]. f_equal.
  - f_equal. unfold build_tool_calls. by rewrite fmap_imap.
  - rewrite fmap_imap. apply imap_ext. intros i x _. simpl.
    unfold rebuilt_result_content. by rewrite summary_result.
Qed.
End Turns.

(** The store answers for a conversation. *)
Definition store_up {W : Type} {S : ConversationStore W} (thread_id : Uuid) (user : string) : Prop :=
  (∀ w, ∃ w', ensure_conversation (gateway_conversation_params thread_id user) w = (w', Ok tt)) ∧
  (∀ role content w rows, list_conversation_messages_scoped thread_id user "gateway" w = Ok rows →
     ∃ w' id, add_conversation_message thread_id role content w = (w', Ok id)).

(** ** Properties *)

(** A persisted turn comes back.  When the store answers and its JSON can be
    read back, persisting the user message, the tool calls and the response of a
    completed turn without images and with visible tool names appends rows from
    which the messages of the turn are rebuilt: the same calls with the same ids,
    names and arguments as the running thread sends, each with the stored text of
    its result (a preview of 500 bytes if the result is not a text) passed through
    the safety layer, behind what the rows before gave. *)
Theorem persisted_turn_rebuilds {J : SerdeJson} {R : RegexEngine} {C : AhoCorasick} {U : UnicodeCase}
    {W : Type} {S : ConversationStore W} (safety : SafetyLayer) (thread_id : Uuid) (user : string)
    (tn : Turn) (resp : string) (w : W) (rows : list ConversationMessage)
    (Hrows : list_conversation_messages_scoped thread_id user "gateway" w = Ok rows)
    (Hup : store_up thread_id user)
    (Hresp : response tn = Some resp) (Himages : image_content_parts tn = [])
    (Hnames : Forall (λ tc, trim (ttc_name tc) ≠ "") (turn_tool_calls tn))
    (Hparse : let summaries := imap (λ i tc, summarize_tool_call (turn_number tn) i tc) (turn_tool_calls tn) in
      json_array_from_str (json_array_to_string summaries) = Some summaries) :
  let ctx := {| tp_thread_id := thread_id; tp_user_id := user; tp_turn_number := turn_number tn |} in
  let w1 := persist_user_message thread_id user (user_input tn) (Some w) in
  let w2 := persist_tool_calls ctx (turn_tool_calls tn) w1 in
  ∃ w3 rows', persist_assistant_response thread_id user resp w2 = Some w3 ∧
    list_conversation_messages_scoped thread_id user "gateway" w3 = Ok (rows ++ rows') ∧
    rebuild_chat_messages_from_db safety (rows ++ rows') =
      rebuild_chat_messages_from_db safety rows ++
      turn_messages_with (λ tc, process_and_wrap safety (ttc_name tc) (hydrated_text tc)) tn.
Proof.
  intros ctx w1 w2.
  assert (∀ role content w rows,
    list_conversation_messages_scoped thread_id user "gateway" w = Ok rows →
    ∃ row, list_conversation_messages_scoped thread_id user "gateway"
        (persist_row thread_id user role content w) = Ok (rows ++ [row]) ∧
      cm_role row = role ∧ cm_content row = content) as Hpersist.
  { intros role content w0 rows0 H0. unfold persist_row.
    destruct (proj1 Hup w0) as [we He]. rewrite He.
    pose proof (ensure_keeps_rows (gateway_conversation_params thread_id user) _ _ _ _ _ H0) as H1.
    rewrite He in H1. simpl in H1. destruct (proj2 Hup role content we rows0 H1) as (wa & id & Ha). rewrite Ha.
    destruct (add_appends_row _ _ _ _ _ _ _ _ _ Ha H1) as [now H2]. eexists. simpl. rewrite H2. split; [reflexivity|done]. }
  destruct (Hpersist "user" (user_input tn) w rows Hrows) as (row1 & H1 & Hr1 & Hc1).
  set (wu := persist_row thread_id user "user" (user_input tn) w) in *.
  assert (w1 = Some wu) as Hw1 by done.
  assert (∃ wt rowst, w2 = Some wt ∧
    list_conversation_messages_scoped thread_id user "gateway" wt = Ok ((rows ++ [row1]) ++ rowst) ∧
    rebuild_chat_messages_from_db safety rowst =
      match turn_tool_calls tn with
      | [] => []
      | tcs => assistant_with_tool_calls None
          (imap (λ i tc, {| tc_id := turn_call_id tn i; tc_name := ttc_name tc;
                            tc_arguments := ttc_parameters tc |}) tcs)
        :: imap (λ i tc, tool_result (turn_call_id tn i) (ttc_name tc)
                   (process_and_wrap safety (ttc_name tc) (hydrated_text tc))) tcs
      end) as (wt & rowst & Hw2 & Hrt & Hbt).
  { unfold w2, persist_tool_calls. case_bool_decide as Hnil.
    - exists wu, []. rewrite Hnil, app_nil_r. done.
    - rewrite Hw1. simpl fmap.
      destruct (Hpersist "tool_calls" (json_array_to_string
        (imap (λ i tc, summarize_tool_call (turn_number tn) i tc) (turn_tool_calls tn)))
        wu (rows ++ [row1]) H1) as (row2 & H2 & Hr2 & Hc2).
      eexists _, [row2]. split; [done|]. split; [exact H2|].
      rewrite rebuild_cons. unfold rebuild_row. rewrite Hr2. simpl. rewrite app_nil_r.
      by rewrite (tool_calls_row_rebuilds safety tn row2). }
  destruct (Hpersist "assistant" resp wt _ Hrt) as (row3 & H3 & Hr3 & Hc3).
  exists (persist_row thread_id user "assistant" resp wt), ([row1] ++ rowst ++ [row3]).
  split; [by rewrite Hw2|]. split; [by rewrite H3, <-!app_assoc|].
  rewrite !rebuild_app, Hbt. unfold turn_messages_with. rewrite Hresp. f_equal.
  unfold rebuild_chat_messages_from_db. simpl. unfold rebuild_row. rewrite Hr1, Hr3, Hc1, Hc3. simpl.
  unfold turn_user_message. by rewrite Himages.
Qed.

(** What is rebuilt needs no repair, whatever the rows are: repairing
    orphaned tool results changes nothing.  Rows contribute independently and
    in order, and a row of tool calls counts completely or not at all: it gives
    nothing, or one announcement of calls with visible ids and names followed
    by exactly their results in the same order. *)
Theorem rebuilt_messages_well_formed {J : SerdeJson} {R : RegexEngine} {C : AhoCorasick}
    {U : UnicodeCase} (safety : SafetyLayer) (rows rows' : list ConversationMessage)
    (row : ConversationMessage) :
  let rebuild := rebuild_chat_messages_from_db safety in
  sanitize_tool_messages (rebuild rows) = rebuild rows ∧
  rebuild (rows ++ rows') = rebuild rows ++ rebuild rows' ∧
  (cm_role row = "tool_calls" →
     rebuild [row] = [] ∨
     ∃ calls results, calls ≠ [] ∧
       rebuild [row] = assistant_with_tool_calls None calls :: results ∧
       (tool_call_id <$> results) = (Some ∘ tc_id <$> calls) ∧
       Forall (λ m, role m = Tool) results ∧
       Forall (λ c, trim (tc_id c) ≠ "" ∧ trim (tc_name c) ≠ "") calls).
Proof.
  intros rebuild. split_and!.
  - apply self_contained_sanitize, rebuild_self_contained.
  - apply rebuild_app.
  - intros Hrole. unfold rebuild, rebuild_chat_messages_from_db. simpl. unfold rebuild_row. rewrite Hrole. simpl.
    unfold handle_tool_calls_row, parse_calls_json.
    destruct (json_array_from_str (cm_content row)) as [calls|]; [|by left].
    case_bool_decide as Hne; [by left|].
    destruct (parse_tool_call_entries calls) as [ps|] eqn:Hps; [|by left]. right.
    apply parse_tool_call_entries_spec in Hps. apply mapM_Some in Hps.
    eexists _, _. split_and!; [|reflexivity|..].
    + destruct Hps; done.
    + unfold build_tool_calls. by rewrite <-!list_fmap_compose.
    + apply Forall_fmap, Forall_forall. done.
    + apply Forall_fmap. eapply Forall2_Forall_r; [exact Hps|]. apply Forall_forall. intros call _ pc Hpc.
      by apply (parse_entry_visible call).
Qed.

(** ** Witnesses and examples *)

(** Conversations with their owner, channel and rows. *)
Definition memory_store : ConversationStore (gmap Uuid (string * string * list ConversationMessage)).
Proof.
  refine {|
    ensure_conversation := λ p w,
      (match w !! ec_id p with
       | Some _ => w
       | None => <[ec_id p := (ec_user_id p, ec_channel p, [])]> w
       end, Ok tt);
    add_conversation_message := λ id role content w,
      match w !! id with
      | Some (user, channel, rows) =>
          (<[id := (user, channel, rows ++ [{| cm_id := 0%N; cm_role := role; cm_content := content;
                                              cm_created_at := 0%Z |}])]> w, Ok 0%N)
      | None => (w, Err (DbNotFound "conversation" ""))
      end;
    list_conversation_messages_scoped := λ id user channel w,
      match w !! id with
      | Some (user', channel', rows) =>
          if bool_decide (user = user' ∧ channel = channel') then Ok rows
          else Err (DbNotFound "conversation" "")
      | None => Err (DbNotFound "conversation" "")
      end;
  |}.
  - intros p id user channel w rows H. simpl. destruct (w !! ec_id p) eqn:E; [done|].
    destruct (decide (id = ec_id p)) as [->|]; [by rewrite E in H|]. by rewrite lookup_insert_ne.
  - intros id role content user channel w w' row_id rows Hadd Hlist.
    destruct (w !! id) as [[[u c] r]|] eqn:E; [|done]. injection Hadd as <- <-.
    exists 0%Z. rewrite lookup_insert_eq. case_bool_decide; [|done]. by injection Hlist as ->.
Defined.

Section Witnesses.
#[local] Existing Instance ascii_case.
#[local] Existing Instance literal_regex.
#[local] Existing Instance naive_ac.
#[local] Existing Instance memory_store.

Definition demo_call : TurnToolCall (J := json_lite) :=
  @Build_TurnToolCall json_lite "search" LNull (Some (LString "found")) None.

(** A parser that reads the one stored text back. *)
Definition json_stored : SerdeJson :=
  json_lite_with (λ _, Some [summarize_tool_call (J := json_lite) 0 0 demo_call]).
#[local] Existing Instance json_stored.

Definition demo_turn : Turn := {|
  turn_number := 0; user_input := "find"; response := Some "done";
  turn_tool_calls := [{| ttc_name := "search"; ttc_parameters := LNull;
                         ttc_result := Some (LString "found"); ttc_error := None |}];
  turn_state := TurnCompleted; turn_started_at := 0%Z; turn_completed_at := None;
  turn_error := None; image_content_parts := [] |}.

Definition demo_safety : SafetyLayer := {|
  sl_sanitizer := {| sz_pattern_matcher := None; sz_patterns := []; sz_regex_patterns := [] |};
  sl_validator := with_max_length validator_new 1000; sl_policy := [];
  sl_leak_detector := with_patterns []; sl_max_output_length := 1000 |}.

Lemma persisted_turn_rebuilds_witness :
  ∃ rows', (content <$> rebuild_chat_messages_from_db demo_safety rows') =
    (content <$> turn_messages_with (λ tc, process_and_wrap demo_safety (ttc_name tc) (hydrated_text tc)) demo_turn).
Proof.
  destruct (persisted_turn_rebuilds demo_safety 7%N "u" demo_turn "done" {[7%N := ("u", "gateway", [])]} [])
    as (w3 & rows' & _ & _ & H).
  - reflexivity.
  - split.
    + intros w. eexists. reflexivity.
    + intros role content w rows H. simpl in H |- *. destruct (w !! 7%N) as [[[u c] r]|]; [|discriminate].
      eexists _, _. reflexivity.
  - reflexivity.
  - reflexivity.
  - apply Forall_cons_2; [vm_compute; discriminate|apply Forall_nil_2].
  - reflexivity.
  - exists rows'. change rows' with ([] ++ rows') at 1. rewrite H. reflexivity.
Defined.

(** A structured result longer than the preview is cut when it comes back. *)
Lemma structured_result_truncated (tc : TurnToolCall) v :
  ttc_error tc = None → ttc_result tc = Some v → json_as_string v = None →
  hydrated_text tc = truncate_preview (json_to_string v) 500.
Proof. intros He Hr Hs. unfold hydrated_text. by rewrite He, Hr, Hs. Qed.
End Witnesses.
