(* ===== verification/Compaction.v ===== *)
(** * Context monitor and compaction

    Models [src/src/agent/context_monitor.rs] (token estimates and the choice
    of a strategy) and [src/src/agent/compaction.rs] (the three ways to shorten
    a thread).  The model call behind a summary and the workspace file system
    are functions on a world [W]; the texts of the date and the time come with
    the operation that reads the clock.

    The floating-point factors are written as fractions: [n * 1.3] truncated is
    [13 * n / 10], as the double nearest to 1.3 lies above it by less than one
    part in [2^53]; the same holds for the factor 0.8, and a quotient compares
    with 0.95 or 0.85 as the exact fractions do. *)

From S2P Require Import Prelude Text Externals LlmTypes Session.

Definition DEFAULT_CONTEXT_LIMIT : nat := Z.to_nat 100000.

Inductive CompactionStrategy :=
| Summarize (keep_recent : nat)
| Truncate (keep_recent : nat)
| MoveToWorkspace.

#[export] Instance compaction_strategy_eq_dec : EqDecision CompactionStrategy.
Proof. solve_decision. Defined.

Record ContextMonitor := { context_limit : nat }.

Definition with_limit (limit : nat) (m : ContextMonitor) : ContextMonitor :=
  {| context_limit := limit |}.

Definition estimate_text_tokens (text : string) : nat := 13 * length (split_whitespace text) / 10.

Section Compaction.
Context {J : SerdeJson}.

Definition estimate_message_tokens (m : ChatMessage) : nat := estimate_text_tokens (content m) + 4.

Definition estimate_tokens (messages : list ChatMessage) : nat :=
  sum_list_with estimate_message_tokens messages.

Definition threshold (m : ContextMonitor) : nat := 8 * context_limit m / 10.

Definition needs_compaction (m : ContextMonitor) (messages : list ChatMessage) : bool :=
  threshold m <=? estimate_tokens messages.

Definition suggest_compaction (m : ContextMonitor) (messages : list ChatMessage) :
    option CompactionStrategy :=
  if negb (needs_compaction m messages) then None
  else
    let tokens := estimate_tokens messages in
    if 95 * context_limit m <? 100 * tokens then Some (Truncate 3)
    else if 85 * context_limit m <? 100 * tokens then Some (Summarize 5)
    else Some MoveToWorkspace.

(** ** Sizes by role *)

Record ContextBreakdown := {
  total_tokens : nat;
  system_tokens : nat;
  user_tokens : nat;
  assistant_tokens : nat;
  tool_tokens : nat;
  message_count : nat;
}.

Definition add_message_tokens (b : ContextBreakdown) (m : ChatMessage) : ContextBreakdown :=
  let tokens := estimate_message_tokens m in
  {| total_tokens := total_tokens b + tokens;
     system_tokens := system_tokens b + match role m with System => tokens | _ => 0 end;
     user_tokens := user_tokens b + match role m with User => tokens | _ => 0 end;
     assistant_tokens := assistant_tokens b + match role m with Assistant => tokens | _ => 0 end;
     tool_tokens := tool_tokens b + match role m with Tool => tokens | _ => 0 end;
     message_count := message_count b |}.

Definition analyze (messages : list ChatMessage) : ContextBreakdown :=
  foldl add_message_tokens
    {| total_tokens := 0; system_tokens := 0; user_tokens := 0; assistant_tokens := 0;
       tool_tokens := 0; message_count := length messages |} messages.

(** ** Compaction *)

Record CompactionResult := {
  cr_turns_removed : nat;
  cr_tokens_before : nat;
  cr_tokens_after : nat;
  cr_summary_written : bool;
  cr_summary : option string;
}.

Record CompactionPartial := {
  cpa_turns_removed : nat;
  cpa_summary_written : bool;
  cpa_summary : option string;
}.

Definition partial_empty : CompactionPartial :=
  {| cpa_turns_removed := 0; cpa_summary_written := false; cpa_summary := None |}.

Definition compact_truncate (t : Thread) (keep_recent : nat) : Thread * CompactionPartial :=
  let t' := truncate_turns t keep_recent in
  (t', {| cpa_turns_removed := length (turns t) - length (turns t'); cpa_summary_written := false;
          cpa_summary := None |}).

Definition format_turn (tn : Turn) : string :=
  "**Turn " +:+ pretty (turn_number tn + 1) +:+ "**" +:+ newline
  +:+ "User: " +:+ user_input tn +:+ newline
  +:+ from_option (λ r, "Agent: " +:+ r +:+ newline) EmptyString (response tn)
  +:+ (if bool_decide (turn_tool_calls tn = []) then EmptyString
       else "Tools: " +:+ join ", " (ttc_name <$> turn_tool_calls tn) +:+ newline).

Definition format_turns_for_storage (ts : list Turn) : string :=
  join newline (format_turn <$> ts).

Definition format_for_summary (m : ChatMessage) : string :=
  match role m with
  | User => "User: " +:+ content m
  | Assistant => "Assistant: " +:+ content m
  | System => "System: " +:+ content m
  | Tool => "Tool " +:+ default "unknown" (name m) +:+ ": " +:+ content m
  end.

Definition SUMMARY_PROMPT : string :=
  "Summarize the following conversation concisely. Focus on:" +:+ newline
  +:+ "- Key decisions made" +:+ newline
  +:+ "- Important information exchanged" +:+ newline
  +:+ "- Actions taken" +:+ newline
  +:+ "- Outcomes achieved" +:+ newline +:+ newline
  +:+ "Be brief but capture all important details. Use bullet points.".

(** [0.3f32] *)
Definition SUMMARY_TEMPERATURE : Z := 1050253722.

Definition summary_request (messages : list ChatMessage) : CompletionRequest := {|
  req_messages :=
    [msg_system SUMMARY_PROMPT;
     msg_user ("Please summarize this conversation:" +:+ newline +:+ newline
               +:+ join (newline +:+ newline) (format_for_summary <$> messages))];
  req_stop_sequences := None; req_model := None; req_max_tokens := Some 1024%Z;
  req_temperature := Some SUMMARY_TEMPERATURE; req_metadata := ∅ |}.

Definition messages_to_summarize (old_turns : list Turn) : list ChatMessage :=
  mjoin ((λ tn, msg_user (user_input tn)
                :: from_option (λ r, [msg_assistant r]) [] (response tn)) <$> old_turns).

Section World.
Context {W E : Type}.

(** [Reasoning::complete] and [Workspace::append]. *)
Variable reasoning_complete : CompletionRequest → W → W * result string E.
Variable append : string → string → W → W * result unit E.

Record ClockText := { ct_date : string; ct_time : string }.

Definition generate_summary (messages : list ChatMessage) (w : W) : W * result string E :=
  reasoning_complete (summary_request messages) w.

Definition write_entry (heading : string) (ct : ClockText) (body : string) (w : W) :
    W * result unit E :=
  append ("daily/" +:+ ct_date ct +:+ ".md")
    (newline +:+ "## " +:+ heading +:+ " (" +:+ ct_time ct +:+ ")" +:+ newline +:+ newline
     +:+ body +:+ newline) w.

Definition write_summary_to_workspace := write_entry "Context Summary".
Definition write_context_to_workspace := write_entry "Archived Context".

Definition compact_with_summary (t : Thread) (keep_recent : nat) (workspace : bool)
    (ct : ClockText) (w : W) : W * (Thread * result CompactionPartial E) :=
  if length (turns t) <=? keep_recent then (w, (t, Ok partial_empty))
  else
    let turns_to_remove := length (turns t) - keep_recent in
    match generate_summary (messages_to_summarize (take turns_to_remove (turns t))) w with
    | (w, Err e) => (w, (t, Err e))
    | (w, Ok summary) =>
        let done written removed :=
          Ok {| cpa_turns_removed := removed; cpa_summary_written := written;
                cpa_summary := Some summary |} in
        if workspace then
          match write_summary_to_workspace ct summary w with
          | (w, Ok _) => (w, (truncate_turns t keep_recent, done true turns_to_remove))
          | (w, Err _) => (w, (t, done false 0))
          end
        else (w, (truncate_turns t keep_recent, done false turns_to_remove))
    end.

Definition compact_to_workspace (t : Thread) (workspace : bool) (ct : ClockText) (w : W) :
    W * (Thread * result CompactionPartial E) :=
  if negb workspace then let '(t, p) := compact_truncate t 5 in (w, (t, Ok p))
  else
    let keep_recent := 10 in
    if length (turns t) <=? keep_recent then (w, (t, Ok partial_empty))
    else
      let turns_to_remove := length (turns t) - keep_recent in
      let done written removed :=
        Ok {| cpa_turns_removed := removed; cpa_summary_written := written; cpa_summary := None |} in
      match write_context_to_workspace ct
              (format_turns_for_storage (take turns_to_remove (turns t))) w with
      | (w, Ok _) => (w, (truncate_turns t keep_recent, done true turns_to_remove))
      | (w, Err _) => (w, (t, done false 0))
      end.

(** The thread is updated in place, so it is returned on errors, too. *)
Definition compact (t : Thread) (strategy : CompactionStrategy) (workspace : bool)
    (ct : ClockText) (w : W) : W * (Thread * result CompactionResult E) :=
  let tokens_before := total_tokens (analyze (thread_messages t)) in
  let '(w, (t, r)) :=
    match strategy with
    | Summarize keep_recent => compact_with_summary t keep_recent workspace ct w
    | Truncate keep_recent => let '(t, p) := compact_truncate t keep_recent in (w, (t, Ok p))
    | MoveToWorkspace => compact_to_workspace t workspace ct w
    end in
  match r with
  | Err e => (w, (t, Err e))
  | Ok p =>
      (w, (t, Ok {| cr_turns_removed := cpa_turns_removed p; cr_tokens_before := tokens_before;
                    cr_tokens_after := total_tokens (analyze (thread_messages t));
                    cr_summary_written := cpa_summary_written p; cr_summary := cpa_summary p |}))
  end.

(** ** Properties *)

Lemma analyze_fold messages b :
  total_tokens (foldl add_message_tokens b messages) = total_tokens b + estimate_tokens messages.
Proof.
  revert b. unfold estimate_tokens. induction messages as [|m ms IH]; intros b; cbn [foldl sum_list_with].
  - lia.
  - rewrite IH. cbn [total_tokens add_message_tokens]. lia.
Qed.

Lemma analyze_total messages : total_tokens (analyze messages) = estimate_tokens messages.
Proof. unfold analyze. by rewrite analyze_fold. Qed.

Lemma analyze_by_role messages :
  let b := analyze messages in
  system_tokens b + user_tokens b + assistant_tokens b + tool_tokens b = total_tokens b ∧
  message_count b = length messages.
Proof.
  cbv zeta. unfold analyze.
  assert (∀ ms b, system_tokens b + user_tokens b + assistant_tokens b + tool_tokens b = total_tokens b →
    let b' := foldl add_message_tokens b ms in
    system_tokens b' + user_tokens b' + assistant_tokens b' + tool_tokens b' = total_tokens b' ∧
    message_count b' = message_count b) as H.
  { induction ms as [|m ms IH]; intros b Hb; simpl; [done|].
    destruct (IH (add_message_tokens b m)) as [H1 H2]; [|by rewrite H1, H2].
    simpl. destruct (role m); lia. }
  by apply H.
Qed.

Lemma sum_imap_ext {A B} (f : B → nat) (g h : nat → A → B) l :
  (∀ i x, f (g i x) = f (h i x)) → sum_list_with f (imap g l) = sum_list_with f (imap h l).
Proof.
  revert g h. induction l as [|x l IH]; intros g h Hgh; [done|].
  cbn [imap sum_list_with]. rewrite Hgh. f_equal. apply IH. intros. apply Hgh.
Qed.

(** A turn costs the same whatever its number is. *)
Lemma turn_tokens_renumber n tn :
  estimate_tokens (turn_block (set_turn_number n tn)) = estimate_tokens (turn_block tn).
Proof.
  rewrite !turn_block_unfold. unfold estimate_tokens, append_tool_call_messages.
  cbn [sum_list_with]. rewrite !sum_list_with_app. f_equal. f_equal.
  destruct tn as [k inp res tcs st sa ca er im]. cbn [turn_tool_calls set_turn_number].
  destruct tcs as [|tc tcs]; [done|]. cbn [app sum_list_with]. f_equal.
  by apply sum_imap_ext.
Qed.

Lemma estimate_thread t :
  estimate_tokens (thread_messages t) = sum_list_with (λ tn, estimate_tokens (turn_block tn)) (turns t).
Proof.
  rewrite thread_messages_concat. induction (turns t) as [|tn l IH]; [done|].
  cbn [fmap list_fmap mjoin list_join sum_list_with]. rewrite <-IH. apply sum_list_with_app.
Qed.

(** The turns that stay are the latest ones, renumbered from zero. *)
Definition latest (n : nat) (ts : list Turn) : list Turn := imap set_turn_number (drop n ts).

Lemma sum_imap_renumber ts k :
  sum_list_with (λ tn, estimate_tokens (turn_block tn)) (imap (λ i, set_turn_number (k + i)) ts) =
  sum_list_with (λ tn, estimate_tokens (turn_block tn)) ts.
Proof.
  revert k. induction ts as [|tn ts IH]; intros k; [done|].
  cbn [imap sum_list_with]. rewrite turn_tokens_renumber. f_equal.
  rewrite <-(IH (S k)). apply sum_imap_ext. intros i x. simpl. do 3 f_equal. lia.
Qed.

Lemma latest_cheaper n t t' :
  turns t' = latest n (turns t) →
  estimate_tokens (thread_messages t') ≤ estimate_tokens (thread_messages t).
Proof.
  intros H. rewrite !estimate_thread, H. unfold latest.
  rewrite (sum_imap_renumber _ 0). rewrite <-(take_drop n (turns t)) at 2.
  rewrite sum_list_with_app. lia.
Qed.

Lemma truncate_turns_spec t keep :
  keep < length (turns t) →
  turns (truncate_turns t keep) = latest (length (turns t) - keep) (turns t) ∧
  length (turns (truncate_turns t keep)) = keep.
Proof.
  intros H. unfold truncate_turns. rewrite bool_decide_true by done. simpl. split; [done|].
  rewrite length_imap, length_drop. lia.
Qed.

Lemma truncate_turns_short t keep : length (turns t) ≤ keep → truncate_turns t keep = t.
Proof. intros H. unfold truncate_turns. by rewrite bool_decide_false by lia. Qed.

(** How many turns a strategy keeps. *)
Definition keep_of (strategy : CompactionStrategy) (workspace : bool) : nat :=
  match strategy with
  | Summarize k | Truncate k => k
  | MoveToWorkspace => if workspace then 10 else 5
  end.

Lemma truncated_counts t keep :
  keep < length (turns t) →
  let t' := truncate_turns t keep in
  let removed := length (turns t) - keep in
  turns t' = latest removed (turns t) ∧ length (turns t') + removed = length (turns t) ∧
  0 < removed ∧ length (turns t') = keep ∧
  estimate_tokens (thread_messages t') ≤ estimate_tokens (thread_messages t).
Proof.
  intros H. destruct (truncate_turns_spec t keep H) as [E1 L]. cbv zeta.
  split_and!; try done; try lia. by apply (latest_cheaper (length (turns t) - keep)).
Qed.

(** The partial results that leave the thread alone and those that shorten it. *)
Definition partial_ok (t t' : Thread) (keep : nat) (p : CompactionPartial) : Prop :=
  (t' = t ∧ cpa_turns_removed p = 0 ∧ cpa_summary_written p = false) ∨
  (keep < length (turns t) ∧ t' = truncate_turns t keep ∧
   cpa_turns_removed p = length (turns t) - keep).

Lemma compact_truncate_partial t keep :
  let '(t', p) := compact_truncate t keep in
  partial_ok t t' keep p ∧ cpa_summary_written p = false.
Proof.
  unfold compact_truncate, partial_ok. simpl. split; [|done].
  destruct (decide (keep < length (turns t))) as [H|H].
  - right. split_and!; [done..|]. destruct (truncate_turns_spec t keep H) as [_ ->]. lia.
  - left. rewrite truncate_turns_short by lia. split_and!; [done|lia|done].
Qed.

(** What stands behind the flag that says something was archived. *)
Definition archived (t : Thread) (strategy : CompactionStrategy) (ct : ClockText)
    (p : CompactionPartial) (w' : W) : Prop :=
  ∃ w1, (strategy = MoveToWorkspace ∧
         write_context_to_workspace ct
           (format_turns_for_storage (take (cpa_turns_removed p) (turns t))) w1 = (w', Ok tt)) ∨
        (∃ k s, strategy = Summarize k ∧ cpa_summary p = Some s ∧
         write_summary_to_workspace ct s w1 = (w', Ok tt)).

Definition step_ok (t : Thread) (strategy : CompactionStrategy) (workspace : bool) (ct : ClockText)
    (w' : W) (t' : Thread) (r : result CompactionPartial E) : Prop :=
  match r with
  | Err _ => t' = t ∧ ∃ k, strategy = Summarize k
  | Ok p =>
      partial_ok t t' (keep_of strategy workspace) p ∧
      (cpa_summary_written p = true → archived t strategy ct p w') ∧
      (0 < cpa_turns_removed p → workspace = true → (∀ k, strategy ≠ Truncate k) →
       cpa_summary_written p = true)
  end.

Lemma compact_with_summary_ok t keep workspace ct w :
  let '(w', (t', r)) := compact_with_summary t keep workspace ct w in
  step_ok t (Summarize keep) workspace ct w' t' r.
Proof.
  unfold compact_with_summary, step_ok, partial_ok.
  destruct (Nat.leb_spec (length (turns t)) keep) as [H|H].
  { simpl. split_and!; [by left|done|lia]. }
  destruct (generate_summary _ w) as [w1 [summary|e]]; [|simpl; eauto].
  destruct workspace; simpl.
  - destruct (write_summary_to_workspace ct summary w1) as [w2 [[]|e]] eqn:Ew; simpl.
    + split_and!; [right; eauto|intros _; exists w1; right; eauto|done].
    + split_and!; [by left|done|lia].
  - split_and!; [right; eauto|done|done].
Qed.

Lemma compact_to_workspace_ok t workspace ct w :
  let '(w', (t', r)) := compact_to_workspace t workspace ct w in
  step_ok t MoveToWorkspace workspace ct w' t' r.
Proof.
  unfold compact_to_workspace. destruct workspace; simpl.
  - unfold partial_ok. destruct (Nat.leb_spec (length (turns t)) 10) as [H|H].
    { simpl. split_and!; [by left|done|lia]. }
    destruct (write_context_to_workspace ct _ w) as [w2 [[]|e]] eqn:Ew; simpl.
    + split_and!; [right; eauto|intros _; exists w; left; eauto|done].
    + split_and!; [by left|done|lia].
  - pose proof (compact_truncate_partial t 5) as [H _]. by split_and!.
Qed.

(** One step for all strategies. *)
Lemma compact_partial_ok t strategy workspace ct w :
  let '(w', (t', r)) :=
    match strategy with
    | Summarize keep_recent => compact_with_summary t keep_recent workspace ct w
    | Truncate keep_recent => let '(t, p) := compact_truncate t keep_recent in (w, (t, Ok p))
    | MoveToWorkspace => compact_to_workspace t workspace ct w
    end in step_ok t strategy workspace ct w' t' r.
Proof.
  destruct strategy as [k|k|]; [apply compact_with_summary_ok| |apply compact_to_workspace_ok].
  pose proof (compact_truncate_partial t k) as H. destruct (compact_truncate t k) as [t' p].
  destruct H as [H Hw]. simpl. split_and!; [done|by rewrite Hw|intros _ _ Hk; by destruct (Hk k)].
Qed.

(** The thread is left alone or truncated to what the strategy keeps. *)
Lemma compact_step_ok t strategy workspace ct w :
  let '(w', (t', r)) := compact t strategy workspace ct w in
  match r with
  | Err _ => t' = t
  | Ok _ => t' = t ∨
      (keep_of strategy workspace < length (turns t) ∧ t' = truncate_turns t (keep_of strategy workspace))
  end.
Proof.
  unfold compact. pose proof (compact_partial_ok t strategy workspace ct w) as H.
  destruct (match strategy with Summarize _ => _ | _ => _ end) as [w' [t' [p|e]]]; [|by destruct H].
  destruct H as ([(-> & _)|(Hk & -> & _)] & _); eauto.
Qed.

(** Compaction loses no recent turn and nothing unarchived.  The only error is
    that of a failed summary, which leaves the thread alone.  Otherwise the
    turns that stay are the latest ones in order, renumbered; the count of
    removed turns is exact; turns are removed only beyond the number the
    strategy keeps; the estimate does not grow; and with a workspace the
    summary or the removed turns were appended to it first, unless the strategy
    is plain truncation. *)
Theorem compaction_keeps_latest t strategy workspace ct w :
  let '(w', (t', r)) := compact t strategy workspace ct w in
  match r with
  | Err _ => t' = t ∧ ∃ k, strategy = Summarize k
  | Ok res =>
      let removed := cr_turns_removed res in
      turns t' = (if bool_decide (removed = 0) then turns t else latest removed (turns t)) ∧
      length (turns t') + removed = length (turns t) ∧
      (0 < removed → length (turns t') = keep_of strategy workspace) ∧
      cr_tokens_after res ≤ cr_tokens_before res ∧
      (0 < removed → workspace = true → (∀ k, strategy ≠ Truncate k) → cr_summary_written res = true) ∧
      (cr_summary_written res = true → ∃ w1,
         (strategy = MoveToWorkspace ∧
          write_context_to_workspace ct
            (format_turns_for_storage (take removed (turns t))) w1 = (w', Ok tt)) ∨
         (∃ k s, strategy = Summarize k ∧ cr_summary res = Some s ∧
          write_summary_to_workspace ct s w1 = (w', Ok tt)))
  end.
Proof.
  unfold compact.
  pose proof (compact_partial_ok t strategy workspace ct w) as H.
  destruct (match strategy with Summarize _ => _ | _ => _ end) as [w' [t' [p|e]]]; [|done].
  destruct H as (Hp & Ha & Hr). cbn -[estimate_tokens].
  rewrite !analyze_total.
  destruct Hp as [(-> & H0 & Hw)|(Hk & -> & Hn)].
  - rewrite H0, Hw. rewrite bool_decide_true by done. split_and!; try done; lia.
  - destruct (truncated_counts t _ Hk) as (E1 & E2 & E3 & E4 & E5). rewrite Hn.
    rewrite bool_decide_false by lia. split_and!; try done; [|].
    + intros H1. apply Hr. lia.
    + intros H1. destruct (Ha H1) as (w1 & Hw). rewrite Hn in Hw. by exists w1.
Qed.
End World.
End Compaction.
