(* ===== verification/ToolExec.v ===== *)
(** * Tools and their execution

    Models the tool trait with its errors ([src/src/tools/tool/traits.rs],
    [src/src/error/tool.rs], the top-level [src/src/error/mod.rs]), the approval
    policy of autonomous jobs ([tools/tool/approval_policy.rs]), the helpers on
    parameters ([tools/tool/schema_helpers.rs]), the check of all strings inside
    tool parameters ([safety/validator.rs]) and the execution path every caller
    shares ([tools/execute.rs]).

    A tool is an instance of the class [Tool]: executing it may change the world
    [W] in any way, and answers nothing when the time limit ends it. *)

From S2P Require Import Prelude Text Externals LlmTypes JobState JobManager RateLimiter Hooks.
From S2P Require Import LeakDetector Safety MessageRebuild.

(** ** Errors *)

(** The error of a tool itself ([tools/tool/traits/error.rs]). *)
Inductive ToolFailure :=
| TfInvalidParameters (s : string)
| TfExecutionFailed (s : string)
| TfTimeout (d : Duration)
| TfNotAuthorized (s : string)
| TfRateLimited (retry_after : option Duration)
| TfExternalService (s : string)
| TfSandbox (s : string).

Definition option_duration_debug (d : option Duration) : string :=
  match d with
  | Some d => "Some(" +:+ duration_debug d +:+ ")"
  | None => "None"
  end.

Definition tool_failure_display (e : ToolFailure) : string :=
  match e with
  | TfInvalidParameters s => "Invalid parameters: " +:+ s
  | TfExecutionFailed s => "Execution failed: " +:+ s
  | TfTimeout d => "Timeout after " +:+ duration_debug d
  | TfNotAuthorized s => "Not authorized: " +:+ s
  | TfRateLimited d => "Rate limited, retry after " +:+ option_duration_debug d
  | TfExternalService s => "External service error: " +:+ s
  | TfSandbox s => "Sandbox error: " +:+ s
  end.

(** The error of a tool call ([error/tool.rs]). *)
Inductive ToolError :=
| ToolNotFound (name : string)
| ToolExecutionFailed (name reason : string)
| ToolTimeout (name : string) (timeout : Duration)
| ToolInvalidParameters (name reason : string)
| ToolDisabled (name reason : string)
| ToolSandbox (name reason : string)
| ToolAuthRequired (name : string)
| ToolRateLimited (name : string) (retry_after : option Duration)
| ToolBuilderFailed (reason : string).

Definition tool_error_display (e : ToolError) : string :=
  match e with
  | ToolNotFound n => "Tool " +:+ n +:+ " not found"
  | ToolExecutionFailed n r => "Tool " +:+ n +:+ " execution failed: " +:+ r
  | ToolTimeout n d => "Tool " +:+ n +:+ " timed out after " +:+ duration_debug d
  | ToolInvalidParameters n r => "Invalid parameters for tool " +:+ n +:+ ": " +:+ r
  | ToolDisabled n r => "Tool " +:+ n +:+ " is disabled: " +:+ r
  | ToolSandbox n r => "Sandbox error for tool " +:+ n +:+ ": " +:+ r
  | ToolAuthRequired n => "Tool " +:+ n +:+ " requires authentication"
  | ToolRateLimited n d =>
      "Tool " +:+ n +:+ " is rate limited, retry after " +:+ option_duration_debug d
  | ToolBuilderFailed r => "Tool builder failed: " +:+ r
  end.

Definition database_error_display (e : DatabaseError) : string :=
  match e with
  | DbPool e => "Connection pool error: " +:+ e
  | DbQuery e => "Query failed: " +:+ e
  | DbNotFound entity id => "Entity not found: " +:+ entity +:+ " with id " +:+ id
  | DbConstraint e => "Constraint violation: " +:+ e
  | DbMigration e => "Migration failed: " +:+ e
  | DbSerialization e => "Serialization error: " +:+ e
  | DbValidation e => "Validation error: " +:+ e
  | DbPostgres e => "PostgreSQL error: " +:+ e
  | DbPoolBuild e => "Pool build error: " +:+ e
  | DbPoolRuntime e => "Pool runtime error: " +:+ e
  | DbLibSql e => "LibSQL error: " +:+ e
  end.

(** The variants of [error::Error] the modelled code builds; an error handed
    through from elsewhere carries the text it displays. *)
Inductive Error :=
| EDatabase (e : DatabaseError)
| EJob (e : JobError)
| ETool (e : ToolError)
| EOther (display : string).

Section Display.
Context {T : UuidText}.

Definition job_error_display (e : JobError) : string :=
  match e with
  | NotFound id => "Job " +:+ uuid_to_string id +:+ " not found"
  | InvalidTransition id from target =>
      "Job " +:+ uuid_to_string id +:+ " already in state " +:+ job_state_display from
      +:+ ", cannot transition to " +:+ job_state_display target
  | JobFailed id r => "Job " +:+ uuid_to_string id +:+ " failed: " +:+ r
  | JobStuck id d => "Job " +:+ uuid_to_string id +:+ " stuck for " +:+ duration_debug d
  | MaxJobsExceeded max => "Maximum parallel jobs (" +:+ pretty max +:+ ") exceeded"
  | ContextError id r => "Job " +:+ uuid_to_string id +:+ " context error: " +:+ r
  | PersistenceError id r => "Job " +:+ uuid_to_string id +:+ " persistence error: " +:+ r
  end.

Definition error_display (e : Error) : string :=
  match e with
  | EDatabase e => "Database error: " +:+ database_error_display e
  | EJob e => "Job error: " +:+ job_error_display e
  | ETool e => "Tool error: " +:+ tool_error_display e
  | EOther s => s
  end.
End Display.

(** ** Approval policy *)

Inductive ApprovalRequirement := ApprovalNever | UnlessAutoApproved | ApprovalAlways.

#[export] Instance approval_requirement_eq_dec : EqDecision ApprovalRequirement.
Proof. solve_decision. Defined.

Definition is_required (r : ApprovalRequirement) : bool :=
  match r with ApprovalNever => false | _ => true end.

Inductive ApprovalContext := Autonomous (allowed_tools : gset string).

Definition autonomous : ApprovalContext := Autonomous ∅.
Definition autonomous_with_tools (tools : list string) : ApprovalContext :=
  Autonomous (list_to_set tools).

Definition approval_is_blocked (c : ApprovalContext) (tool_name : string)
    (requirement : ApprovalRequirement) : bool :=
  match c with
  | Autonomous allowed_tools =>
      match requirement with
      | ApprovalNever => false
      | UnlessAutoApproved => false
      | ApprovalAlways => negb (bool_decide (tool_name ∈ allowed_tools))
      end
  end.

Definition is_blocked_or_default (c : option ApprovalContext) (tool_name : string)
    (requirement : ApprovalRequirement) : bool :=
  match c with
  | Some ctx => approval_is_blocked ctx tool_name requirement
  | None => is_required requirement
  end.

(** ** The tool trait *)

Section Tool.
Context {J : SerdeJson} {D : RustDecimal}.

Record ToolOutput := {
  to_result : json;
  to_cost : option dec;
  to_duration : Duration;
  to_raw : option string;
}.

Definition output_success (result : json) (duration : Duration) : ToolOutput :=
  {| to_result := result; to_cost := None; to_duration := duration; to_raw := None |}.
Definition output_text (text : string) (duration : Duration) : ToolOutput :=
  {| to_result := JString text; to_cost := None; to_duration := duration; to_raw := None |}.

(** [tool_execute] answers [None] when it does not finish within
    [execution_timeout]. *)
Class Tool (W A : Type) := {
  tool_name : A → string;
  tool_description : A → string;
  parameters_schema : A → json;
  requires_approval : A → json → ApprovalRequirement;
  execution_timeout : A → Duration;
  sensitive_params : A → list string;
  rate_limit_config : A → option ToolRateLimitConfig;
  tool_execute : A → json → JobContext → W → W * option (result ToolOutput ToolFailure);
}.

(** The answers of the trait's default methods. *)
Definition default_requires_approval (params : json) : ApprovalRequirement := ApprovalNever.
Definition default_execution_timeout : Duration := secs 60.
Definition default_sensitive_params : list string := [].
Definition default_rate_limit_config : option ToolRateLimitConfig := None.

Record ToolSchema := { ts_name : string; ts_description : string; ts_parameters : json }.

Definition tool_schema {W A} `{!Tool W A} (t : A) : ToolSchema :=
  {| ts_name := tool_name (W := W) t; ts_description := tool_description (W := W) t;
     ts_parameters := parameters_schema (W := W) t |}.
End Tool.

(** ** Parameters *)

Section Params.
Context {J : SerdeJson}.

Definition require_str (params : json) (name : string) : result string ToolFailure :=
  match json_get params name ≫= json_as_string with
  | Some s => Ok s
  | None => Err (TfInvalidParameters ("missing '" +:+ name +:+ "' parameter"))
  end.

Definition require_param (params : json) (name : string) : result json ToolFailure :=
  match json_get params name with
  | Some v => Ok v
  | None => Err (TfInvalidParameters ("missing '" +:+ name +:+ "' parameter"))
  end.

Definition redact_key (redacted : json) (key : string) : json :=
  if bool_decide (is_Some (json_get redacted key))
  then json_set redacted key (JString "[REDACTED]") else redacted.

Definition redact_params (params : json) (sensitive : list string) : json :=
  foldl redact_key params sensitive.

(** *** The strings inside the parameters *)

Context {U : UnicodeCase}.

Definition child_path (path key : string) : string :=
  if bool_decide (path = EmptyString) then key else path +:+ "." +:+ key.

(** The recursion descends into the value, so its depth bounds it. *)
Fixpoint check_strings (fuel : nat) (v : Validator) (value : json) (path : string)
    (result : ValidationResult) : ValidationResult :=
  match fuel with
  | 0 => result
  | S fuel =>
      match json_view value with
      | VString s =>
          merge result (if bool_decide (s = EmptyString) then vr_ok
                        else validate_non_empty_input v s path)
      | VArray arr =>
          foldl (λ result '(i, item), check_strings fuel v item
                   (path +:+ "[" +:+ pretty i +:+ "]") result)
            result (imap pair arr)
      | VObject obj =>
          foldl (λ result '(k, x), check_strings fuel v x (child_path path k) result) result obj
      | _ => result
      end
  end.

Definition validate_tool_params (v : Validator) (params : json) : ValidationResult :=
  check_strings (S (json_depth params)) v params EmptyString vr_ok.

Definition params_error_details (r : ValidationResult) : string :=
  join "; " ((λ e, ve_field e +:+ ": " +:+ ve_message e) <$> vr_errors r).
End Params.

(** ** Execution *)

Section Execute.
Context {J : SerdeJson} {D : RustDecimal} {R : RegexEngine} {C : AhoCorasick} {U : UnicodeCase}.
Context {W A : Type} `{!Tool W A}.

(** [serde_json::to_string_pretty], which succeeds on values. *)
Variable to_string_pretty : json → string.

Definition finalize_output (name : string) (res : option (result ToolOutput ToolFailure))
    (timeout : Duration) : result string ToolError :=
  match res with
  | None => Err (ToolTimeout name timeout)
  | Some (Err e) => Err (ToolExecutionFailed name (tool_failure_display e))
  | Some (Ok out) => Ok (to_string_pretty (to_result out))
  end.

Definition execute_tool_with_safety (tools : gmap string A) (safety : SafetyLayer) (name : string)
    (params : json) (job_ctx : JobContext) (w : W) : W * result string ToolError :=
  match tools !! name with
  | None => (w, Err (ToolNotFound name))
  | Some tool =>
      let validation := validate_tool_params (sl_validator safety) params in
      if negb (vr_is_valid validation) then
        (w, Err (ToolInvalidParameters name
                   ("Invalid tool parameters: " +:+ params_error_details validation)))
      else
        let '(w, res) := tool_execute tool params job_ctx w in
        (w, finalize_output name res (execution_timeout (W := W) tool))
  end.

(** The variant for the container runtime, with errors as their text. *)
Definition execute_tool_simple {T : UuidText} (tools : gmap string A) (safety : SafetyLayer) (name : string)
    (params : json) (job_ctx : JobContext) (w : W) : W * result string string :=
  let '(w, r) := execute_tool_with_safety tools safety name params job_ctx w in
  (w, match r with Ok s => Ok s | Err e => Err (error_display (ETool e)) end).

(** The text of an error is passed through the same pipeline. *)
Definition process_tool_result (safety : SafetyLayer) (name tool_call_id : string)
    (res : result string string) : string * ChatMessage :=
  let raw := match res with Ok output => output | Err e => "Error: " +:+ e end in
  let content := process_and_wrap safety name raw in
  (content, tool_result tool_call_id name content).
End Execute.

(** ** Properties of the parameters *)

Section ParamProofs.
Context {J : SerdeJson}.

Lemma json_get_object_view v k x : json_get v k = Some x → ∃ fields, json_view v = VObject fields.
Proof.
  intros H. destruct (json_view v) as [| | | | |fields] eqn:Ev; eauto.
  all: destruct (json_view_other v k) as [H' _]; [by rewrite Ev|congruence].
Qed.

Lemma redact_key_get v k k' :
  json_get (redact_key v k) k' =
  if bool_decide (k' = k) then (λ _, JString "[REDACTED]") <$> json_get v k else json_get v k'.
Proof.
  unfold redact_key. case_bool_decide as Hs.
  - destruct Hs as [x Hx]. destruct (json_get_object_view _ _ _ Hx) as [fields Hv].
    rewrite (json_get_set _ _ _ _ _ Hv), Hx. done.
  - apply eq_None_not_Some in Hs. case_bool_decide; subst; by rewrite ?Hs.
Qed.

Lemma redact_params_get params sensitive k :
  json_get (redact_params params sensitive) k =
  if bool_decide (k ∈ sensitive) then (λ _, JString "[REDACTED]") <$> json_get params k
  else json_get params k.
Proof.
  unfold redact_params. revert params. induction sensitive as [|a l IH]; intros params; [done|].
  cbn [foldl]. rewrite IH, !redact_key_get.
  destruct (decide (k = a)) as [->|Hne].
  - rewrite (bool_decide_true (a = a)), (bool_decide_true (a ∈ a :: l)) by set_solver.
    case_bool_decide; destruct (json_get params a); done.
  - rewrite (bool_decide_false (k = a)) by done.
    case_bool_decide; case_bool_decide; set_solver.
Qed.

Context {U : UnicodeCase}.

(** [s] is one of the strings inside the value. *)
Inductive string_inside : json → string → Prop :=
| inside_here v s : json_view v = VString s → string_inside v s
| inside_array v items x s :
    json_view v = VArray items → x ∈ items → string_inside x s → string_inside v s
| inside_object v fields k x s :
    json_view v = VObject fields → (k, x) ∈ fields → string_inside x s → string_inside v s.

Lemma vr_valid_merge_if b e r : vr_is_valid (merge_if b e r) = vr_is_valid r && negb b.
Proof. destruct b; simpl; [by rewrite andb_false_r|by rewrite andb_true_r]. Qed.

Lemma vr_valid_fold {A} (p : A → bool) (err : A → ValidationError) l r :
  vr_is_valid (foldl (λ r x, merge_if (p x) (err x) r) r l) =
  vr_is_valid r && forallb (λ x, negb (p x)) l.
Proof.
  revert r. induction l as [|x l IH]; intros r; simpl; [by rewrite andb_true_r|].
  by rewrite IH, vr_valid_merge_if, <-andb_assoc.
Qed.

(** The name of the field does not matter. *)
Lemma validate_field v s f1 f2 :
  vr_is_valid (validate_non_empty_input v s f1) = vr_is_valid (validate_non_empty_input v s f2).
Proof.
  unfold validate_non_empty_input. cbv zeta.
  destruct (has_excessive_repetition s), (mostly_whitespace s && (100 <? String.length s));
    cbn [vr_is_valid with_warning]; by rewrite !vr_valid_fold, !vr_valid_merge_if.
Qed.

Lemma valid_foldl {A} (f : ValidationResult → A → ValidationResult) (P : A → Prop) l r :
  (∀ x r, x ∈ l → vr_is_valid (f r x) = true ↔ vr_is_valid r = true ∧ P x) →
  vr_is_valid (foldl f r l) = true ↔ vr_is_valid r = true ∧ ∀ x, x ∈ l → P x.
Proof.
  revert r. induction l as [|x l IH]; intros r H; simpl; [set_solver|].
  rewrite IH by (intros; apply H; set_solver). rewrite (H x r) by set_solver. set_solver.
Qed.

Lemma elem_of_imap_pair {A} (l : list A) i x : (i, x) ∈ imap pair l → x ∈ l.
Proof. rewrite list_elem_of_lookup. intros (k & Hk). rewrite list_lookup_imap_Some in Hk.
  destruct Hk as (y & Hy & [= -> ->]). by eapply list_elem_of_lookup_2. Qed.

Lemma elem_imap_pair {A} (l : list A) x : x ∈ l → ∃ i, (i, x) ∈ imap pair l.
Proof.
  intros [i Hi]%list_elem_of_lookup. exists i. apply list_elem_of_lookup. exists i.
  rewrite list_lookup_imap, Hi. done.
Qed.

Definition param_ok (v : Validator) (s : string) : Prop :=
  s = EmptyString ∨ vr_is_valid (validate v s) = true.

Lemma check_strings_valid fuel v value path r :
  json_depth value < fuel →
  vr_is_valid (check_strings fuel v value path r) = true ↔
  vr_is_valid r = true ∧ ∀ s, string_inside value s → param_ok v s.
Proof.
  revert value path r. induction fuel as [|fuel IH]; intros value path r Hd; [lia|].
  cbn [check_strings]. destruct (json_view value) as [| | |s|items|fields] eqn:Ev.
  all: try (split; [intros H; split; [done|]; intros s Hs; inversion Hs; congruence|by intros [H _]]).
  - cbn [merge vr_is_valid]. rewrite andb_true_iff.
    assert (vr_is_valid (if bool_decide (s = EmptyString) then vr_ok
                         else validate_non_empty_input v s path) = true ↔ param_ok v s) as ->.
    { unfold param_ok, validate. case_bool_decide; [naive_solver|].
      rewrite (validate_field v s path "input"). naive_solver. }
    split; [|naive_solver eauto using inside_here]. intros [H1 H2]. split; [done|].
    intros s' Hs. inversion Hs; simplify_eq; congruence.
  - rewrite (valid_foldl _ (λ ix, ∀ s, string_inside ix.2 s → param_ok v s)).
    + split; intros [H1 H2]; split; try done.
      * intros s Hs. inversion Hs as [|? items' x ? Hv Hx Hi|]; simplify_eq; try congruence.
        rewrite Ev in Hv. injection Hv as <-. destruct (elem_imap_pair _ _ Hx) as [i Hix].
        by apply (H2 _ Hix).
      * intros [i x] Hx%elem_of_imap_pair s Hs. apply H2. by eapply inside_array.
    + intros [i x] r' Hx%elem_of_imap_pair. apply IH.
      pose proof (json_depth_array _ _ _ Ev Hx). cbn in *. lia.
  - rewrite (valid_foldl _ (λ kx, ∀ s, string_inside kx.2 s → param_ok v s)).
    + split; intros [H1 H2]; split; try done.
      * intros s Hs. inversion Hs as [| |? fields' k x ? Hv Hx Hi]; simplify_eq; try congruence.
        rewrite Ev in Hv. injection Hv as <-. by apply (H2 _ Hx).
      * intros [k x] Hx s Hs. apply H2. by eapply inside_object.
    + intros [k x] r' Hx. apply IH. pose proof (json_depth_object _ _ _ _ Ev Hx). cbn in *. lia.
Qed.

(** Every string inside the parameters of a call, at whatever depth, is
    checked: they are valid exactly if each of those strings is empty or would
    be accepted as user input. *)
Lemma tool_params_valid v params :
  vr_is_valid (validate_tool_params v params) = true ↔
  ∀ s, string_inside params s → param_ok v s.
Proof. unfold validate_tool_params. rewrite check_strings_valid by lia. naive_solver. Qed.
End ParamProofs.
