(* ===== verification/JobTools.v ===== *)
(** * Tool calls of background jobs

    Models [src/src/worker/job/tool_pipeline.rs] and
    [src/src/worker/job/tool_exec.rs]: the pipeline every tool call of a job
    passes (approval, rate limit, hook, cancellation, validation, execution,
    recording), composed from the tools, the rate limiter, the hook chain, the
    safety layer and the job manager, and the collection of parallel results in
    order.  Hooks and tools may change the whole world of the worker. *)

From S2P Require Import Prelude Text Externals LlmTypes JobState JobManager RateLimiter Hooks.
From S2P Require Import LeakDetector Safety MessageRebuild ToolExec.

(** ** Results of parallel calls

    [JoinSet] hands over the finished tasks in any order, each tagged with its
    index; a task that panicked or was cancelled is missing. *)

Section Collect.
Context {B : Type}.

Definition place (slots : list (option B)) (done : nat * B) : list (option B) :=
  <[done.1 := Some done.2]> slots.

Definition collect_ordered {S} (completed : list (nat * B)) (selections : list S)
    (failed : S → B) : list B :=
  zip_with (λ o s, default (failed s) o)
    (foldl place (replicate (length selections) None) completed) selections.

Lemma length_placed slots completed : length (foldl place slots completed) = length slots.
Proof.
  revert slots. induction completed as [|c l IH]; intros slots; [done|].
  cbn [foldl]. rewrite IH. apply length_insert.
Qed.

Lemma placed_lookup slots completed i :
  i < length slots → NoDup completed.*1 →
  foldl place slots completed !! i =
  match list_find (λ c, c.1 = i) completed with
  | Some (_, c) => Some (Some c.2)
  | None => slots !! i
  end.
Proof.
  revert slots. induction completed as [|[j b] l IH]; intros slots Hi Hnd; [done|].
  cbn [foldl list_find fst]. apply NoDup_cons in Hnd as [Hj Hnd].
  rewrite IH by (unfold place; rewrite ?length_insert; done).
  case_decide as Hji; [subst j|].
  - destruct (list_find _ l) as [[k c]|] eqn:Hf; [|by unfold place; rewrite list_lookup_insert_eq].
    apply list_find_Some in Hf as (Hk & <- & _). destruct Hj. apply list_elem_of_fmap.
    exists c. split; [done|]. by eapply list_elem_of_lookup_2.
  - destruct (list_find _ l) as [[k c]|] eqn:Hf; [done|]. simpl.
    unfold place. by rewrite list_lookup_insert_ne.
Qed.

(** Whatever the order of completion, result [i] is that of call [i], and a
    missing one is replaced by the failure of call [i]. *)
Lemma collect_ordered_spec {S} completed (selections : list S) failed :
  NoDup completed.*1 →
  length (collect_ordered completed selections failed) = length selections ∧
  ∀ i s, selections !! i = Some s →
    collect_ordered completed selections failed !! i =
    Some (match list_find (λ c, c.1 = i) completed with
          | Some (_, c) => c.2
          | None => failed s
          end).
Proof.
  intros Hnd. unfold collect_ordered. split.
  { rewrite length_zip_with, length_placed, length_replicate. lia. }
  intros i s Hs. assert (i < length selections) as Hi by by apply lookup_lt_Some in Hs.
  rewrite lookup_zip_with, placed_lookup by (rewrite ?length_replicate; done).
  rewrite Hs. destruct (list_find _ completed) as [[k c]|]; [done|].
  simpl. by rewrite lookup_replicate_2.
Qed.

Lemma placed_cases n completed i :
  i < n → ∃ o, foldl place (replicate n None) completed !! i = Some o ∧
    match o with Some b => (i, b) ∈ completed | None => ∀ b, (i, b) ∉ completed end.
Proof.
  intros Hi. induction completed as [|[j b] l IH] using rev_ind.
  { exists None. split; [by apply lookup_replicate_2|]. intros b. apply not_elem_of_nil. }
  rewrite foldl_snoc. unfold place at 1. cbn [fst snd]. destruct (decide (j = i)) as [->|Hne].
  - exists (Some b). rewrite list_lookup_insert_eq by (by rewrite length_placed, length_replicate). set_solver.
  - rewrite list_lookup_insert_ne by done. destruct IH as (o & Ho & Hc). exists o. split; [done|].
    destruct o; set_solver.
Qed.

(** Result [i] is one that a task of call [i] left, and the failure if none did. *)
Lemma collect_ordered_cases {S} completed (selections : list S) failed i s :
  selections !! i = Some s →
  ∃ b, collect_ordered completed selections failed !! i = Some b ∧
    ((i, b) ∈ completed ∨ b = failed s ∧ ∀ b', (i, b') ∉ completed).
Proof.
  intros Hs. assert (i < length selections) as Hi by by apply lookup_lt_Some in Hs.
  destruct (placed_cases (length selections) completed i Hi) as (o & Ho & Hc).
  unfold collect_ordered. rewrite lookup_zip_with, Ho, Hs. simpl. eexists. split; [done|]. destruct o; auto.
Qed.
End Collect.

(** ** The pipeline *)

Section World.
Context {J : SerdeJson} {D : RustDecimal}.

(** [jw_saved] lists the actions handed to spawned saves. *)
Record JobWorld (X : Type) := {
  jw_manager : ContextManager;
  jw_limiter : RateLimiter;
  jw_saved : list (Uuid * ActionRecord);
  jw_rest : X;
}.
End World.
Arguments jw_manager {J D X} _.
Arguments jw_limiter {J D X} _.
Arguments jw_saved {J D X} _.
Arguments jw_rest {J D X} _.
Arguments Build_JobWorld {J D X} _ _ _ _.

Section Pipeline.
Context {J : SerdeJson} {D : RustDecimal} {T : UuidText}.
Context {R : RegexEngine} {C : AhoCorasick} {U : UnicodeCase}.
Context {X H A : Type} {HH : Hook (JobWorld X) H} {HT : Tool (JobWorld X) A}.

Abbreviation W := (JobWorld X).

(** [serde_json::to_string_pretty] *)
Variable to_string_pretty : json → string.

Definition set_manager (m : ContextManager) (w : W) : W :=
  {| jw_manager := m; jw_limiter := jw_limiter w; jw_saved := jw_saved w; jw_rest := jw_rest w |}.
Definition set_limiter (l : RateLimiter) (w : W) : W :=
  {| jw_manager := jw_manager w; jw_limiter := l; jw_saved := jw_saved w; jw_rest := jw_rest w |}.
Definition push_saved (s : Uuid * ActionRecord) (w : W) : W :=
  {| jw_manager := jw_manager w; jw_limiter := jw_limiter w; jw_saved := jw_saved w ++ [s];
     jw_rest := jw_rest w |}.

Record WorkerDeps := {
  wd_tools : gmap string A;
  wd_safety : SafetyLayer;
  wd_hooks : HookRegistry H;
  wd_approval_context : option ApprovalContext;
  wd_http_interceptor : option N;
  wd_store : bool;
}.

(** What a call reads from the clock and the generator of identifiers. *)
Record CallInputs := {
  ci_limit : Readings; ci_action_id : Uuid; ci_now : Utc; ci_elapsed : Duration }.

Definition resolve_approved_tool (deps : WorkerDeps) (name : string) (params : json) :
    result A Error :=
  match wd_tools deps !! name with
  | None => Err (ETool (ToolNotFound name))
  | Some tool =>
      if is_blocked_or_default (wd_approval_context deps) name (requires_approval (W := W) tool params)
      then Err (ETool (ToolAuthRequired name)) else Ok tool
  end.

Definition set_http_interceptor (v : option N) (c : JobContext) : JobContext := {|
  job_id := job_id c; state := state c; user_id := user_id c;
  conversation_id := conversation_id c; title := title c;
  description := description c; category := category c; budget := budget c;
  budget_token := budget_token c; bid_amount := bid_amount c;
  estimated_cost := estimated_cost c;
  estimated_duration := estimated_duration c; actual_cost := actual_cost c;
  total_tokens_used := total_tokens_used c; max_tokens := max_tokens c;
  created_at := created_at c; started_at := started_at c;
  completed_at := completed_at c; repair_attempts := repair_attempts c;
  transitions := transitions c; metadata := metadata c;
  extra_env := extra_env c; http_interceptor := v;
  tool_output_stash := tool_output_stash c; user_timezone := user_timezone c |}.

Definition with_interceptor (i : option N) (c : JobContext) : JobContext :=
  match http_interceptor c with
  | Some _ => c
  | None => set_http_interceptor i c
  end.

Definition job_context_with_interceptor (deps : WorkerDeps) (id : Uuid) (w : W) :
    result JobContext Error :=
  match get_context (jw_manager w) id with
  | Ok c => Ok (with_interceptor (wd_http_interceptor deps) c)
  | Err e => Err (EJob e)
  end.

Definition check_tool_rate_limit (tool : A) (ctx : JobContext) (name : string) (rd : Readings)
    (w : W) : W * result unit Error :=
  match rate_limit_config (W := W) tool with
  | None => (w, Ok tt)
  | Some cfg =>
      let '(l, r) := check_and_record (user_id ctx) name cfg rd (jw_limiter w) in
      (set_limiter l w,
       match r with
       | Limited retry_after _ => Err (ETool (ToolRateLimited name (Some retry_after)))
       | Allowed _ _ => Ok tt
       end)
  end.

Definition call_event (tool : A) (name : string) (params : json) (ctx : JobContext)
    (job : Uuid) : HookEvent :=
  EvToolCall name (redact_params params (sensitive_params (W := W) tool)) (user_id ctx)
    ("job:" +:+ uuid_to_string job).

Definition apply_tool_call_hook (deps : WorkerDeps) (tool : A) (name : string) (params : json)
    (ctx : JobContext) (job : Uuid) (w : W) : W * result json Error :=
  match run (wd_hooks deps) (call_event tool name params ctx job) w with
  | (w, Err (HookRejected reason)) =>
      (w, Err (ETool (ToolExecutionFailed name ("Blocked by hook: " +:+ reason))))
  | (w, Err err) =>
      (w, Err (ETool (ToolExecutionFailed name
                        ("Blocked by hook failure mode: " +:+ hook_error_display err))))
  | (w, Ok (HookContinue (Some new_params))) =>
      (w, Ok (default params (json_from_str new_params)))
  | (w, Ok _) => (w, Ok params)
  end.

Definition validate_call_params (deps : WorkerDeps) (name : string) (params : json) :
    result unit Error :=
  let validation := validate_tool_params (sl_validator (wd_safety deps)) params in
  if vr_is_valid validation then Ok tt
  else Err (ETool (ToolInvalidParameters name
              ("Invalid tool parameters: " +:+ params_error_details validation))).

Inductive ActionOutcome :=
| OutcomeSuccess (output_str : option string) (result : json)
| OutcomeFailure (msg : string).

Definition summarize_outcome (deps : WorkerDeps) (name : string)
    (res : option (result ToolOutput ToolFailure)) : ActionOutcome :=
  match res with
  | Some (Ok output) =>
      OutcomeSuccess
        (Some (so_content (sanitize_tool_output (wd_safety deps) name
                             (to_string_pretty (to_result output)))))
        (to_result output)
  | Some (Err e) => OutcomeFailure (tool_failure_display e)
  | None => OutcomeFailure "Execution timeout"
  end.

Definition outcome_record (base : ActionRecord) (outcome : ActionOutcome) (elapsed : Duration) :
    ActionRecord :=
  match outcome with
  | OutcomeSuccess output_str result => action_succeed base output_str result elapsed
  | OutcomeFailure msg => action_fail base msg elapsed
  end.

Definition record_action_in_memory (job : Uuid) (name : string) (safe_params : json)
    (outcome : ActionOutcome) (ci : CallInputs) (w : W) : W * option ActionRecord :=
  let '(m, r) :=
    update_memory (jw_manager w) job (λ mem,
      let '(mem, base) := create_action mem (ci_action_id ci) name safe_params (ci_now ci) in
      let rec := outcome_record base outcome (ci_elapsed ci) in
      (record_action mem rec, rec)) in
  (set_manager m w, match r with Ok rec => Some rec | Err _ => None end).

(** The part behind the gates: execution, recording, saving. *)
Definition execute_and_record (deps : WorkerDeps) (tool : A) (ctx : JobContext) (job : Uuid)
    (name : string) (params : json) (ci : CallInputs) (w : W) : W * result string Error :=
  let safe_params := redact_params params (sensitive_params (W := W) tool) in
  let '(w, res) := tool_execute tool params ctx w in
  let '(w, action) := record_action_in_memory job name safe_params
                        (summarize_outcome deps name res) ci w in
  let w := match action with
           | Some action => if wd_store deps then push_saved (job, action) w else w
           | None => w
           end in
  (w, match finalize_output to_string_pretty name res (execution_timeout (W := W) tool) with
      | Ok s => Ok s
      | Err e => Err (ETool e)
      end).

Definition execute_tool_inner (deps : WorkerDeps) (job : Uuid) (name : string) (params : json)
    (ci : CallInputs) (w : W) : W * result string Error :=
  match resolve_approved_tool deps name params with
  | Err e => (w, Err e)
  | Ok tool =>
      match job_context_with_interceptor deps job w with
      | Err e => (w, Err e)
      | Ok ctx =>
          match check_tool_rate_limit tool ctx name (ci_limit ci) w with
          | (w, Err e) => (w, Err e)
          | (w, Ok _) =>
              match apply_tool_call_hook deps tool name params ctx job w with
              | (w, Err e) => (w, Err e)
              | (w, Ok params) =>
                  if bool_decide (state ctx = Cancelled) then
                    (w, Err (ETool (ToolExecutionFailed name "Job is cancelled")))
                  else
                    match validate_call_params deps name params with
                    | Err e => (w, Err e)
                    | Ok _ => execute_and_record deps tool ctx job name params ci w
                    end
              end
          end
      end
  end.

Record ToolSelection := { sel_tool_name : string; sel_parameters : json }.

Fixpoint execute_selections_sequentially (deps : WorkerDeps) (job : Uuid)
    (selections : list (ToolSelection * CallInputs)) (w : W) : W * list (result string Error) :=
  match selections with
  | [] => (w, [])
  | (s, ci) :: selections =>
      let '(w, r) := execute_tool_inner deps job (sel_tool_name s) (sel_parameters s) ci w in
      let '(w, rs) := execute_selections_sequentially deps job selections w in
      (w, r :: rs)
  end.

(** The results of parallel calls: [completed] are the tasks that finished, in
    the order in which they did. *)
Definition collect_ordered_results (completed : list (nat * result string Error))
    (selections : list ToolSelection) : list (result string Error) :=
  collect_ordered completed selections (λ s,
    Err (ETool (ToolExecutionFailed (sel_tool_name s) "Task failed during execution"))).

(** ** Properties *)

Lemma rate_limit_world tool ctx name rd w w' r :
  check_tool_rate_limit tool ctx name rd w = (w', r) → ∃ l, w' = set_limiter l w.
Proof.
  unfold check_tool_rate_limit. destruct (rate_limit_config tool) as [cfg|].
  - destruct (check_and_record _ _ _ _ _) as [l res]. intros [= <- <-]. by exists l.
  - intros [= <- <-]. exists (jw_limiter w). by destruct w.
Qed.

Lemma rate_limit_ok tool ctx name rd w w' u :
  check_tool_rate_limit tool ctx name rd w = (w', Ok u) →
  ∀ cfg, rate_limit_config (W := W) tool = Some cfg →
    is_allowed (check_and_record (user_id ctx) name cfg rd (jw_limiter w)).2 = true.
Proof.
  unfold check_tool_rate_limit. intros Hc cfg Hcfg. rewrite Hcfg in Hc.
  destruct (check_and_record _ _ _ _ _) as [l []]; [done|by injection Hc].
Qed.

(** The parameters a hook that lets a call through leaves it with. *)
Definition hooked_params (params : json) (out : HookOutcome) : json :=
  match out with
  | HookContinue (Some text) => default params (json_from_str text)
  | _ => params
  end.

Lemma hook_outcome deps tool name params ctx job w w' r :
  apply_tool_call_hook deps tool name params ctx job w = (w', r) →
  ∃ out, run (wd_hooks deps) (call_event tool name params ctx job) w = (w', out) ∧
    match out, r with
    | Ok out, Ok params' => params' = hooked_params params out
    | Err _, Err _ => True
    | _, _ => False
    end.
Proof.
  unfold apply_tool_call_hook.
  destruct (run _ _ w) as [w1 [[[m|]|reason]|[]]]; intros [= <- <-]; eexists; split; done.
Qed.

Lemma update_memory_recorded job name safe_params outcome ci w w' action :
  record_action_in_memory job name safe_params outcome ci w = (w', action) →
  (memories (jw_manager w) !! job = None ∧ action = None ∧ w' = w) ∨
  ∃ mem act, memories (jw_manager w) !! job = Some mem ∧ action = Some act ∧
    act = outcome_record (action_new (ci_action_id ci) (next_sequence mem) name safe_params (ci_now ci))
            outcome (ci_elapsed ci) ∧
    contexts (jw_manager w') = contexts (jw_manager w) ∧
    ∃ mem', memories (jw_manager w') = <[job := mem']> (memories (jw_manager w)) ∧
      actions mem' = actions mem ++ [act].
Proof.
  unfold record_action_in_memory, update_memory. destruct (memories (jw_manager w) !! job) as [mem|] eqn:Em.
  - intros [= <- <-]. right. exists mem. eexists. split_and!; [done..|]. eexists. done.
  - intros [= <- <-]. left. split_and!; [done..|]. by destruct w.
Qed.

(** What a call that ran leaves in the memory of the job. *)
Definition recorded_once (job : Uuid) (name : string) (tool : A) (params : json) (ok : bool)
    (w w' : W) : Prop :=
  match memories (jw_manager w) !! job with
  | None => jw_manager w' = jw_manager w
  | Some mem => ∃ mem' act,
      memories (jw_manager w') = <[job := mem']> (memories (jw_manager w)) ∧
      actions mem' = actions mem ++ [act] ∧
      act_tool_name act = name ∧ success act = ok ∧
      ∀ k, k ∈ sensitive_params (W := W) tool →
        json_get (act_input act) k = (λ _, JString "[REDACTED]") <$> json_get params k
  end.

Lemma execute_and_record_spec deps tool ctx job name params ci w w' r :
  execute_and_record deps tool ctx job name params ci w = (w', r) →
  ∃ w1 res, tool_execute tool params ctx w = (w1, res) ∧
    r = match finalize_output to_string_pretty name res (execution_timeout (W := W) tool) with
        | Ok s => Ok s
        | Err e => Err (ETool e)
        end ∧
    recorded_once job name tool params (is_ok r) w1 w' ∧
    jw_limiter w' = jw_limiter w1 ∧ jw_rest w' = jw_rest w1.
Proof.
  unfold execute_and_record. destruct (tool_execute tool params ctx w) as [w1 res] eqn:Et.
  destruct (record_action_in_memory _ _ _ _ _ w1) as [w2 action] eqn:Er. intros [= <- <-].
  exists w1, res. split_and!; try done.
  - unfold recorded_once. apply update_memory_recorded in Er as [(-> & -> & ->)|(mem & act & -> & -> & Ha & _ & mem' & Hm & Hacts)].
    { done. }
    exists mem', act. rewrite Ha in *. split_and!.
    + by destruct (wd_store deps).
    + done.
    + by destruct res as [[]|].
    + by destruct res as [[]|].
    + intros k Hk.
      assert (act_input (outcome_record (action_new (ci_action_id ci) (next_sequence mem) name
        (redact_params params (sensitive_params (W := W) tool)) (ci_now ci))
        (summarize_outcome deps name res) (ci_elapsed ci)) =
        redact_params params (sensitive_params (W := W) tool)) as ->
        by by destruct res as [[]|].
      rewrite redact_params_get. by rewrite bool_decide_true.
  - unfold record_action_in_memory in Er. destruct (update_memory _ _ _) as [m u]. injection Er as <- <-.
    destruct u; [destruct (wd_store deps)|]; done.
  - unfold record_action_in_memory in Er. destruct (update_memory _ _ _) as [m u]. injection Er as <- <-.
    destruct u; [destruct (wd_store deps)|]; done.
Qed.

(** The causes of a refusal, each with the world it leaves behind. *)
Definition refused (deps : WorkerDeps) (job : Uuid) (name : string) (params : json) (ci : CallInputs)
    (w w' : W) : Prop :=
  match wd_tools deps !! name, contexts (jw_manager w) !! job with
  | Some tool, Some ctx =>
      is_blocked_or_default (wd_approval_context deps) name (requires_approval (W := W) tool params) = true
        ∧ w' = w
      ∨ (∃ l cfg, rate_limit_config (W := W) tool = Some cfg ∧ w' = set_limiter l w ∧
           is_allowed (check_and_record (user_id ctx) name cfg (ci_limit ci) (jw_limiter w)).2 = false)
      ∨ (∃ l res, run (wd_hooks deps) (call_event tool name params ctx job) (set_limiter l w) = (w', res) ∧
           match res with
           | Err _ => True
           | Ok out => state ctx = Cancelled ∨
                       vr_is_valid (validate_tool_params (sl_validator (wd_safety deps))
                                      (hooked_params params out)) = false
           end)
  | _, _ => w' = w
  end.

Lemma rate_limit_err tool ctx name rd w w' e :
  check_tool_rate_limit tool ctx name rd w = (w', Err e) →
  ∃ cfg, rate_limit_config (W := W) tool = Some cfg ∧
    is_allowed (check_and_record (user_id ctx) name cfg rd (jw_limiter w)).2 = false.
Proof.
  unfold check_tool_rate_limit. destruct (rate_limit_config tool) as [cfg|]; [|done].
  intros Hc. exists cfg. split; [done|]. by destruct (check_and_record _ _ _ _ _) as [l []].
Qed.

(** C5. The gates of a job's tool call.  Either the call is refused, and then for
    one of the listed causes (no such tool or job, blocked by the approval
    context, over its rate limit, a hook failed or rejected it, the job is
    cancelled, a parameter is not acceptable) and with nothing run but the rate
    limiter and the hooks; or none of them holds, and every string inside the
    parameters the hooks left is acceptable input.  The tool then runs once on
    those, the answer is the outcome of that run, and exactly one action is
    added to the memory of the job (if it still has one), with the sensitive
    parameters redacted and the success flag that of the answer. *)
Theorem job_tool_gate (deps : WorkerDeps) (job : Uuid) (name : string) (params : json)
    (ci : CallInputs) (w : W) :
  let '(w', r) := execute_tool_inner deps job name params ci w in
  (is_ok r = false ∧ refused deps job name params ci w w') ∨
  ∃ tool ctx l out w1 w2 res,
    wd_tools deps !! name = Some tool ∧
    is_blocked_or_default (wd_approval_context deps) name (requires_approval (W := W) tool params) = false ∧
    contexts (jw_manager w) !! job = Some ctx ∧ state ctx ≠ Cancelled ∧
    (∀ cfg, rate_limit_config (W := W) tool = Some cfg →
       is_allowed (check_and_record (user_id ctx) name cfg (ci_limit ci) (jw_limiter w)).2 = true) ∧
    run (wd_hooks deps) (call_event tool name params ctx job) (set_limiter l w) = (w1, Ok out) ∧
    (∀ s, string_inside (hooked_params params out) s → param_ok (sl_validator (wd_safety deps)) s) ∧
    tool_execute tool (hooked_params params out) (with_interceptor (wd_http_interceptor deps) ctx) w1 = (w2, res) ∧
    r = match finalize_output to_string_pretty name res (execution_timeout (W := W) tool) with
        | Ok s => Ok s
        | Err e => Err (ETool e)
        end ∧
    recorded_once job name tool (hooked_params params out) (is_ok r) w2 w' ∧
    jw_limiter w' = jw_limiter w2 ∧ jw_rest w' = jw_rest w2.
Proof.
  unfold execute_tool_inner, resolve_approved_tool, job_context_with_interceptor, get_context, refused.
  destruct (wd_tools deps !! name) as [tool|] eqn:Etool; [|by left].
  destruct (contexts (jw_manager w) !! job) as [ctx|] eqn:Ectx;
    (destruct (is_blocked_or_default _ _ _) eqn:Eblock; [left; by auto|]); [|by left].
  set (ctx' := with_interceptor _ ctx).
  assert (user_id ctx' = user_id ctx ∧ state ctx' = state ctx) as [Eu Es].
  { unfold ctx', with_interceptor. by destruct (http_interceptor ctx). }
  destruct (check_tool_rate_limit tool ctx' name (ci_limit ci) w) as [w1 [[]|e]] eqn:Erate;
    destruct (rate_limit_world _ _ _ _ _ _ _ Erate) as [l ->].
  2: { apply rate_limit_err in Erate as (cfg & Hcfg & Hno). rewrite Eu in Hno. left. split; [done|].
       right. left. by exists l, cfg. }
  pose proof (rate_limit_ok _ _ _ _ _ _ _ Erate) as Hallowed.
  assert (call_event tool name params ctx' job = call_event tool name params ctx job) as Eev
    by (unfold call_event; by rewrite Eu).
  destruct (apply_tool_call_hook deps tool name params ctx' job _) as [w2 r2] eqn:Ehook.
  apply hook_outcome in Ehook as (out & Hrun & Hout). rewrite Eev in Hrun.
  destruct r2 as [params'|e]; [|left; split; [done|right; right; exists l, out; split; [done|by destruct out]]].
  destruct out as [out|]; [|done]. subst params'. rewrite Es.
  case_bool_decide as Hcancel; [left; split; [done|]; right; right; exists l, (Ok out); auto|].
  unfold validate_call_params. destruct (vr_is_valid _) eqn:Evalid;
    [|left; split; [done|]; right; right; exists l, (Ok out); auto].
  destruct (execute_and_record deps tool ctx' job name _ ci w2) as [w' r] eqn:Eexec.
  destruct (execute_and_record_spec _ _ _ _ _ _ _ _ _ _ Eexec) as (w3 & res & H1 & H2 & H3 & H4 & H5).
  right. exists tool, ctx, l, out, w2, w3, res. rewrite Eu in Hallowed.
  split_and!; try done. by apply tool_params_valid.
Qed.

(** What a hook returns replaces the parameters as a whole, and what it saw was
    redacted: a hook that keeps the fields it does not change hands the tool
    the placeholder instead of the secret. *)
Lemma hook_rewrite_replaces_secret deps tool name params ctx job w w' text params' k v :
  run (wd_hooks deps) (call_event tool name params ctx job) w = (w', Ok (HookContinue (Some text))) →
  json_from_str text = Some params' →
  k ∈ sensitive_params (W := W) tool → json_get params k = Some v →
  json_get params' k = json_get (redact_params params (sensitive_params (W := W) tool)) k →
  apply_tool_call_hook deps tool name params ctx job w = (w', Ok params') ∧
  json_get params' k = Some (JString "[REDACTED]").
Proof.
  intros Hrun Hparse Hk Hv Hkeep. unfold apply_tool_call_hook. rewrite Hrun, Hparse.
  split; [done|]. rewrite Hkeep, redact_params_get, bool_decide_true by done. by rewrite Hv.
Qed.

(** The record of a successful call has the sanitised text in the field for raw
    output and the value as the tool returned it in the field for sanitised
    output. *)
Lemma record_fields_swapped deps name out base elapsed :
  let rec := outcome_record base (summarize_outcome deps name (Some (Ok out))) elapsed in
  output_sanitized rec = Some (to_result out) ∧
  output_raw rec = Some (so_content (sanitize_tool_output (wd_safety deps) name
                                      (to_string_pretty (to_result out)))).
Proof. done. Qed.
End Pipeline.
