(* ===== verification/DocumentStore.v ===== *)
(** * Storing extracted documents

    Models [src/src/agent/thread_ops/document_store.rs]: which attachments are
    stored in the workspace, under which path and with which header.  File
    names come from the sender; the theorem is about the path they end up in. *)

From S2P Require Import Prelude Text Externals LlmTypes Allowlist Safety Submission Messages.

(** [trim_start_matches('.')] *)
Fixpoint trim_start_dots (s : string) : string :=
  match s with
  | String c s' => if bool_decide (c = byte 46) then trim_start_dots s' else s
  | EmptyString => EmptyString
  end.

(** A character is given as its bytes; the last five are U+2215, U+2216, U+29F5,
    U+FF0F and U+FF3C. *)
Definition UNSAFE_CHARS : list string :=
  ["/"; "\"; String nul ""; "∕"; "∖"; "⧵"; "／"; "＼"].

Definition sanitize_filename_char (c : string) : string :=
  if bool_decide (c ∈ UNSAFE_CHARS) then "_" else c.

Definition is_usable_extracted_text (t : string) : bool :=
  negb (starts_with t "[Failed") && negb (starts_with t "[Error") && negb (starts_with t "[Unsupported")
  && negb (starts_with t "[Document").

Definition get_valid_document_text (att : IncomingAttachment) : option string :=
  match at_extracted_text att with
  | Some t => if is_usable_extracted_text t then Some t else None
  | None => None
  end.

Definition sanitize_filename (raw : string) : string :=
  let filename := concat_all (sanitize_filename_char <$> chars raw) in
  let filename := str_replace filename ".." "__" in
  let filename := trim_start_dots filename in
  if bool_decide (filename = "") then "unnamed_document" else filename.

(** The date is its text, as chrono prints it. *)
Definition build_document_path (date : string) (index : nat) (message_id id filename : string) : string :=
  "documents/" +:+ date +:+ "/" +:+ pretty index +:+ "-" +:+ message_id +:+ "-" +:+ id +:+ "-" +:+ filename.

Definition build_header (filename user channel date mime : string) (size : Z) : string :=
  "# " +:+ filename +:+ newline +:+ newline +:+ "> Uploaded by **" +:+ user +:+ "** via **" +:+ channel
  +:+ "** on " +:+ date +:+ newline +:+ "> MIME: " +:+ mime +:+ " | Size: " +:+ pretty size +:+ " bytes"
  +:+ newline +:+ newline +:+ "---" +:+ newline +:+ newline.

Section Store.
Context {J : SerdeJson} {T : UuidText}.
Context {W : Type}.
(** [workspace.write(path, content)], whose errors are logged only. *)
Variable workspace_write : string → string → W → W.

Definition document_entry (date : string) (message : IncomingMessage) (index : nat) (att : IncomingAttachment) :
    option (string * string) :=
  if negb (bool_decide (at_kind att = Document)) then None
  else
    text ← get_valid_document_text att;
    let filename := sanitize_filename (default "unnamed_document" (at_filename att)) in
    let id := sanitize_filename (if bool_decide (at_id att = "") then "unnamed_id" else at_id att) in
    Some (build_document_path date index (sanitize_filename (uuid_to_string (im_id message))) id filename,
          build_header filename (im_user_id message) (im_channel message) date (at_mime_type att)
            (default 0%Z (at_size_bytes att)) +:+ text).

Fixpoint store_from (date : string) (message : IncomingMessage) (index : nat)
    (attachments : list IncomingAttachment) (w : W) : W :=
  match attachments with
  | [] => w
  | att :: attachments =>
      let w := match document_entry date message index att with
               | Some (path, content) => workspace_write path content w
               | None => w
               end in
      store_from date message (S index) attachments w
  end.

Definition store_extracted_documents (date : string) (message : IncomingMessage) (w : W) : W :=
  store_from date message 0 (im_attachments message) w.
End Store.

(** ** Names *)

Lemma has_char_concat c l : has_char c (concat_all l) = existsb (has_char c) l.
Proof. induction l as [|x l IH]; [done|]. cbn [concat_all foldr existsb]. rewrite has_char_app. by f_equal. Qed.

(** The bytes behind the first byte of a character are continuation bytes. *)
Definition well_formed (x : string) : Prop :=
  match x with EmptyString => False | String _ rest => all_chars is_continuation rest = true end.

Lemma chars_well_formed s x : x ∈ chars s → well_formed x.
Proof.
  revert x. induction s as [|c s IH]; intros x; simpl; [by intros ?%elem_of_nil|].
  destruct (chars s) as [|[|d y] l] eqn:E.
  - by intros ->%list_elem_of_singleton.
  - intros [->|Hx]%elem_of_cons; [done|]. by apply IH.
  - assert (well_formed (String d y)) as Hd by (apply IH; by left). simpl in Hd.
    destruct (is_continuation d) eqn:Ec.
    + intros [->|Hx]%elem_of_cons; [|apply IH; by right]. cbn [well_formed all_chars]. by rewrite Ec, Hd.
    + intros [->|Hx]%elem_of_cons; [done|]. by apply IH.
Qed.

(** An ASCII byte inside a character is the whole of it, up to what follows. *)
Lemma ascii_in_char c x :
  is_continuation c = false → well_formed x → has_char c x = true → ∃ rest, x = String c rest.
Proof.
  intros Hc. destruct x as [|d rest]; [done|]. intros Hw. cbn [has_char well_formed] in *.
  intros [->%bool_decide_eq_true|Hin]%orb_true_iff; [by exists rest|]. exfalso.
  induction rest as [|e rest IH]; [done|]. cbn [has_char all_chars] in *.
  apply andb_true_iff in Hw as [He Hw].
  apply orb_true_iff in Hin as [->%bool_decide_eq_true|Hin]; [congruence|by apply IH].
Qed.

(** As in every Rust string, an ASCII byte is not followed by a continuation
    byte. *)
Fixpoint ascii_alone (s : string) : bool :=
  match s with
  | String c ((String d _) as s') => negb (is_ascii c && is_continuation d) && ascii_alone s'
  | _ => true
  end.

Lemma chars_first e s : ∃ y l, chars (String e s) = String e y :: l.
Proof. simpl. repeat case_match; eauto. Qed.

Lemma chars_ascii_alone s c rest :
  ascii_alone s = true → is_ascii c = true → String c rest ∈ chars s → rest = "".
Proof.
  intros Hs Hc. revert Hs. induction s as [|d s IH]; intros Hs Hin; [by apply elem_of_nil in Hin|].
  destruct s as [|e s].
  { apply list_elem_of_singleton in Hin. by injection Hin. }
  change (negb (is_ascii d && is_continuation e) && ascii_alone (String e s) = true) in Hs.
  apply andb_true_iff in Hs as [Hd Hs]. destruct (chars_first e s) as (y & l & E).
  change (chars (String d (String e s))) with
    (match chars (String e s) with
     | String d' x :: l => if is_continuation d' then String d (String d' x) :: l
                           else String d EmptyString :: String d' x :: l
     | l => String d EmptyString :: l
     end) in Hin.
  rewrite E in Hin, IH. destruct (is_continuation e) eqn:Ee.
  - apply elem_of_cons in Hin as [[= <- ->]|Hin].
    + by rewrite Hc in Hd.
    + apply IH; [done|]. by right.
  - apply elem_of_cons in Hin as [[= _ ->]|Hin]; [done|]. by apply IH.
Qed.

(** No byte of [UNSAFE_CHARS] that is ASCII survives. *)
Lemma sanitized_has_no c raw :
  ascii_alone raw = true → c ∈ [byte 47; byte 92; byte 0] →
  has_char c (concat_all (sanitize_filename_char <$> chars raw)) = false.
Proof.
  intros Hraw Hc. rewrite has_char_concat. apply not_true_iff_false. intros Hex.
  apply existsb_exists in Hex as (y & Hin & Hy). apply list_elem_of_In, list_elem_of_fmap in Hin as (x & -> & Hx).
  assert (is_ascii c = true ∧ is_continuation c = false ∧ c ≠ byte 95 ∧ String c "" ∈ UNSAFE_CHARS)
    as (Ha & Hcont & H95 & Hunsafe).
  { rewrite !elem_of_cons, elem_of_nil in Hc. destruct Hc as [->|[->|[->|[]]]]; split_and!; try done;
      unfold UNSAFE_CHARS; set_solver. }
  unfold sanitize_filename_char in Hy. case_bool_decide as Hu.
  - cbn [has_char] in Hy. rewrite orb_false_r in Hy. apply bool_decide_eq_true in Hy. by destruct H95.
  - destruct (ascii_in_char c x Hcont (chars_well_formed raw x Hx) Hy) as [rest ->].
    rewrite (chars_ascii_alone raw c rest Hraw Ha Hx) in Hu. done.
Qed.

Lemma replace_fuel_dots_has_char fuel s c :
  c ≠ byte 95 → has_char c s = false → has_char c (replace_fuel fuel s ".." "__") = false.
Proof.
  intros Hc. revert s. induction fuel as [|fuel IH]; intros s Hs; [done|]. cbn [replace_fuel].
  destruct s as [|d s]; [done|]. destruct (strip_prefix (String d s) "..") as [rest|] eqn:E.
  - rewrite has_char_app, IH; [|apply strip_prefix_spec in E; rewrite E, has_char_app in Hs;
      by apply orb_false_iff in Hs as [_ ?]].
    cbn [has_char]. by rewrite bool_decide_false.
  - cbn [has_char] in *. apply orb_false_iff in Hs as [-> Hs]. by rewrite IH.
Qed.

Lemma trim_start_dots_has_char c s : has_char c s = false → has_char c (trim_start_dots s) = false.
Proof.
  induction s as [|d s IH]; [done|]. cbn [trim_start_dots]. intros Hs. case_bool_decide; [|done].
  cbn [has_char] in Hs. apply orb_false_iff in Hs as [_ Hs]. by apply IH.
Qed.

Lemma sanitize_filename_safe c raw :
  ascii_alone raw = true → c ∈ [byte 47; byte 92; byte 0] → has_char c (sanitize_filename raw) = false.
Proof.
  intros Hraw Hc. unfold sanitize_filename. case_bool_decide.
  - rewrite !elem_of_cons, elem_of_nil in Hc. by destruct Hc as [->|[->|[->|[]]]].
  - apply trim_start_dots_has_char, replace_fuel_dots_has_char; [|by apply sanitized_has_no].
    rewrite !elem_of_cons, elem_of_nil in Hc. by destruct Hc as [->|[->|[->|[]]]].
Qed.

Lemma count_char_has c s : count_char c s = 0 → has_char c s = false.
Proof.
  induction s as [|d s IH]; [done|]. cbn [has_char count_char]. intros H.
  case_bool_decide; [lia|]. by apply IH.
Qed.

(** Printed indexes are digits. *)
Lemma pretty_nat_no_char c (n : nat) : (∀ y, pretty_N_char y ≠ c) → has_char c (pretty n) = false.
Proof.
  intros Hc. apply count_char_has. unfold pretty, pretty_nat, pretty, pretty_N. case_decide.
  - cbn [count_char]. rewrite bool_decide_false; [done|]. apply (Hc 0%N).
  - by rewrite pretty_N_go_count.
Qed.

Lemma digit_not c : c ∈ [byte 45; byte 47] → ∀ y, pretty_N_char y ≠ c.
Proof. rewrite !elem_of_cons, elem_of_nil. intros [->|[->|[]]] y; unfold pretty_N_char; by repeat case_match. Qed.

Lemma uuid_char_ascii_alone s : all_chars uuid_char s = true → ascii_alone s = true.
Proof.
  assert (∀ d, uuid_char d = true → is_continuation d = false) as Hd.
  { intros [[] [] [] [] [] [] [] []]; by vm_compute. }
  induction s as [|c [|d s] IH]; [done|done|]. intros [Hc Hs]%andb_true_iff.
  change (negb (is_ascii c && is_continuation d) && ascii_alone (String d s) = true).
  rewrite IH by done. apply andb_true_iff in Hs as [Hx _]. rewrite (Hd d Hx). by rewrite andb_false_r.
Qed.

Section Paths.
Context {J : SerdeJson} {T : UuidText}.

(** The name of the file an attachment is stored in. *)
Definition document_name (message : IncomingMessage) (index : nat) (att : IncomingAttachment) : string :=
  pretty index +:+ "-" +:+ sanitize_filename (uuid_to_string (im_id message)) +:+ "-"
  +:+ sanitize_filename (if bool_decide (at_id att = "") then "unnamed_id" else at_id att)
  +:+ "-" +:+ sanitize_filename (default "unnamed_document" (at_filename att)).

(** What the sender chooses and Rust guarantees of it. *)
Definition names_are_text (att : IncomingAttachment) : Prop :=
  ascii_alone (at_id att) = true ∧ ascii_alone (default "" (at_filename att)) = true.

Lemma document_entry_path date message index att path content :
  document_entry date message index att = Some (path, content) →
  path = "documents/" +:+ date +:+ "/" +:+ document_name message index att.
Proof.
  unfold document_entry. case_match; [done|]. destruct (get_valid_document_text att); [|done].
  intros [= <- _]. reflexivity.
Qed.

Lemma document_name_no_slash message index att :
  names_are_text att → has_char slash (document_name message index att) = false.
Proof.
  intros [Hid Hfile]. unfold document_name. rewrite !has_char_app.
  rewrite pretty_nat_no_char by (apply digit_not; set_solver).
  rewrite !sanitize_filename_safe; try (by left); [done|..].
  - by destruct (at_filename att).
  - by case_bool_decide.
  - apply uuid_char_ascii_alone, uuid_to_string_chars.
Qed.

Lemma document_name_index message i j att att' :
  document_name message i att = document_name message j att' → i = j.
Proof.
  unfold document_name. change ("-" +:+ ?x) with (String (byte 45) x).
  intros E. apply (f_equal (split_on (byte 45))) in E.
  rewrite !(split_on_plain (byte 45)) in E by (apply pretty_nat_no_char, digit_not; by left).
  injection E as E _. by apply (inj (pretty (A := nat))) in E.
Qed.

(** A sender's file names and identifiers do not choose where a document is
    stored: the path has exactly the three segments [documents], the date and
    one name, that name is neither empty nor a dot segment, and two attachments of a message get different paths. *)
Theorem document_path_confined date message index att path content :
  has_char slash date = false → names_are_text att →
  document_entry date message index att = Some (path, content) →
  ∃ name,
    split_on slash path = ["documents"; date; name] ∧ (name ∉ [""; "."; ".."]) ∧
    (∀ index' att' path' content',
       document_entry date message index' att' = Some (path', content') → index' ≠ index → path' ≠ path).
Proof.
  intros Hdate Hatt E. apply document_entry_path in E as ->. exists (document_name message index att).
  split_and!.
  - change ("documents/" +:+ ?x) with ("documents" +:+ String slash x).
    rewrite split_on_plain by done.
    change ("/" +:+ ?x) with (String slash x). rewrite split_on_plain by done.
    by rewrite split_on_none by by apply document_name_no_slash.
  - intros Hin. assert (has_char (byte 45) (document_name message index att) = true) as Hdash.
    { unfold document_name. rewrite has_char_app. by rewrite orb_true_r. }
    rewrite !elem_of_cons, elem_of_nil in Hin. destruct Hin as [E|[E|[E|[]]]]; by rewrite E in Hdash.
  - intros i att' path' content' E Hne. apply document_entry_path in E as ->. intros Heq.
    apply Hne, (document_name_index message i index att' att).
    by do 3 apply (inj (String.append _)) in Heq.
Qed.
End Paths.

(** A name that tries to leave the directory. *)
Definition escaping_attachment : IncomingAttachment := {|
  at_id := "../x"; at_kind := Document; at_mime_type := "text/plain"; at_filename := Some "../../etc/passwd";
  at_size_bytes := Some 3%Z; at_source_url := None; at_storage_key := None;
  at_extracted_text := Some "abc"; at_data := ""; at_duration_secs := None |}.

Lemma document_path_confined_witness :
  let message := incoming_new (J := json_lite) 1%N "web" "u" "hi" 0%Z in
  sanitize_filename "../../etc/passwd" = "______etc_passwd" ∧
  ∃ path content,
    document_entry (J := json_lite) (T := uuid_bits) "2026-01-02" message 0 escaping_attachment
      = Some (path, content) ∧
    ∃ name, split_on slash path = ["documents"; "2026-01-02"; name] ∧ name ∉ [""; "."; ".."].
Proof.
  intros message. split; [by vm_compute|]. eexists _, _.
  assert (document_entry (J := json_lite) (T := uuid_bits) "2026-01-02" message 0 escaping_attachment
    = Some (_, _)) as E by reflexivity.
  split; [exact E|].
  destruct (document_path_confined (J := json_lite) (T := uuid_bits) "2026-01-02" message 0
              escaping_attachment _ _ ltac:(done) ltac:(by split) E) as (name & H1 & H2 & _).
  by exists name.
Defined.
