(* ===== verification/Turns.v ===== *)
(** * User turns

    Models how a user message becomes a turn:
    [src/src/agent/thread_ops/turn_preparation.rs],
    [turn_compaction_checkpointing.rs], [turn_result_finalization.rs] and
    [turn_execution.rs], composed from the session manager, the sessions, the
    undo managers, the safety layer, the hooks, the compactor and the
    conversation store.

    The world holds the session manager with its heap of sessions, the store and
    the statuses sent; the rest of it is arbitrary.  What the agent awaits while
    it holds no lock, that is the agentic loop, a hook, a command, a model call,
    may change the whole world, so whatever other tasks do meanwhile (an
    interrupt, another message) is covered; the steps between two such calls run
    without interruption. *)

From S2P Require Import Prelude Text Externals LlmTypes JobState JobManager Session Undo Hooks.
From S2P Require Import LeakDetector Safety Submission SessionManager MessageRebuild.
From S2P Require Import Compaction ToolExec Messages.

Section World.
Context {J : SerdeJson}.

Record World (St X : Type) := {
  w_manager : SessionManager;
  w_store : option St;
  w_sent : list (string * StatusUpdate);
  w_rest : X;
}.
End World.
Arguments w_manager {J St X} _.
Arguments w_store {J St X} _.
Arguments w_sent {J St X} _.
Arguments w_rest {J St X} _.
Arguments Build_World {J St X} _ _ _ _.

(** What an operation reads from the clock and the generator of identifiers,
    in the order in which it does. *)
Record Io := {
  io_now : nat → Utc;
  io_uuid : nat → Uuid;
  io_turn_clock : nat → Utc * Utc;
  io_text : ClockText;
}.

Section Lens.
Context {J : SerdeJson} {St X : Type}.
Abbreviation W := (World St X).

Definition set_w_manager (m : SessionManager) (w : W) : W := {|
  w_manager := m; w_store := w_store w; w_sent := w_sent w; w_rest := w_rest w |}.
Definition set_w_store (s : option St) (w : W) : W := {|
  w_manager := w_manager w; w_store := s; w_sent := w_sent w; w_rest := w_rest w |}.

(** [let _ = self.channels.send_status(channel, status, metadata).await] *)
Definition send_status (channel : string) (s : StatusUpdate) (w : W) : W := {|
  w_manager := w_manager w; w_store := w_store w; w_sent := w_sent w ++ [(channel, s)];
  w_rest := w_rest w |}.

Definition session_of (a : Arc) (w : W) : option Session := sm_heap (w_manager w) !! a.

(** [sess.threads.get(&thread_id)] of a locked session *)
Definition thread_of (a : Arc) (id : Uuid) (w : W) : option Thread :=
  s ← session_of a w; threads s !! id.

Definition put_session (a : Arc) (s : Session) (w : W) : W :=
  set_w_manager (set_session a s (w_manager w)) w.

Definition with_threads (ths : gmap Uuid Thread) (s : Session) : Session :=
  s_update s (active_thread s) ths (last_active_at s) (auto_approved_tools s).

(** Writing through [sess.threads.get_mut(&thread_id)]. *)
Definition put_thread (a : Arc) (id : Uuid) (t : Thread) (w : W) : W :=
  match session_of a w with
  | Some s => put_session a (with_threads (<[id := t]> (threads s)) s) w
  | None => w
  end.

Definition undo_of (a : Arc) (w : W) : option UndoManager := sm_undo_heap (w_manager w) !! a.
Definition put_undo (a : Arc) (u : UndoManager) (w : W) : W :=
  set_w_manager (set_undo a u (w_manager w)) w.

(** [session_manager.get_undo_manager(id)] and the lock on it. *)
Definition lock_undo_manager (id : Uuid) (w : W) : W * (Arc * UndoManager) :=
  let '(m, u) := get_undo_manager id (w_manager w) in
  let w := set_w_manager m w in
  (w, (u, default undo_manager_new (undo_of u w))).

(** The undo manager a handler sees. *)
Definition thread_undo (id : Uuid) (w : W) : UndoManager := (lock_undo_manager id w).2.2.

Lemma thread_of_put a id t t0 w :
  thread_of a id w = Some t0 → thread_of a id (put_thread a id t w) = Some t.
Proof.
  unfold thread_of, put_thread, session_of. destruct (sm_heap (w_manager w) !! a) as [s|] eqn:E; [|done].
  intros _. simpl. rewrite lookup_insert_eq. simpl. by rewrite lookup_insert_eq.
Qed.

Lemma lock_undo_manager_spec id w :
  let '(w', (u, mgr)) := lock_undo_manager id w in
  mgr = thread_undo id w ∧ w_store w' = w_store w ∧ w_sent w' = w_sent w ∧ w_rest w' = w_rest w ∧
  sm_heap (w_manager w') = sm_heap (w_manager w) ∧
  (∀ mgr', thread_undo id (put_undo u mgr' w') = mgr').
Proof.
  unfold thread_undo. unfold lock_undo_manager at 1 2. pose proof (get_undo_manager_heap id (w_manager w)) as Hh.
  unfold get_undo_manager in *.
  destruct (sm_undo_managers (w_manager w) !! id) as [u|] eqn:E; simpl; split_and!; try done; intros mgr';
    unfold lock_undo_manager, get_undo_manager, put_undo, undo_of; simpl.
  - rewrite E. simpl. by rewrite lookup_insert_eq.
  - rewrite lookup_insert_eq. simpl. by rewrite lookup_insert_eq.
Qed.

Lemma thread_of_heap a id w w' :
  sm_heap (w_manager w') = sm_heap (w_manager w) → thread_of a id w' = thread_of a id w.
Proof. unfold thread_of, session_of. by intros ->. Qed.
End Lens.

Definition not_found (id : Uuid) : Error := EJob (NotFound id).

Section Turns.
Context {J : SerdeJson} {T : UuidText} {R : RegexEngine} {C : AhoCorasick} {U : UnicodeCase}.
Context {St X H : Type} {CS : ConversationStore St} {HH : Hook (World St X) H}.
Abbreviation W := (World St X).

(** The agent's dependencies.  The calls that leave this code: the agentic loop
    of the dispatcher, the handlers of explicit commands, [Reasoning::complete]
    and [Workspace::append]; [ag_base64] and [ag_percent] are the encoding of
    image data and the text of a usage in percent. *)
Record Agent := {
  ag_safety : SafetyLayer;
  ag_hooks : HookRegistry H;
  ag_router : Router;
  ag_context_monitor : ContextMonitor;
  ag_workspace : bool;
  ag_run_agentic_loop :
    IncomingMessage → Arc → Uuid → list ChatMessage → W → W * result AgenticLoopResult Error;
  ag_handle_job_or_command : MessageIntent → IncomingMessage → W → W * result SubmissionResult Error;
  ag_complete : CompletionRequest → W → W * result string Error;
  ag_append : string → string → W → W * result unit Error;
  ag_base64 : string → string;
  ag_percent : nat → nat → string;
}.

Record UserTurnRequest := { ut_session : Arc; ut_thread_id : Uuid; ut_content : string }.

Inductive PrepareTurnResult :=
| Prepared (turn_messages : list ChatMessage)
| Rejected (r : SubmissionResult).

(** ** Preparation *)

Definition thread_state_submission_result (st : ThreadState) : option SubmissionResult :=
  match st with
  | Processing => Some (SubError "Turn in progress. Use /interrupt to cancel.")
  | AwaitingApproval => Some (SubError "Waiting for approval. Use /interrupt to cancel.")
  | ThreadCompleted => Some (SubError "Thread completed. Use /thread new.")
  | Idle | Interrupted => None
  end.

Definition check_thread_state (a : Arc) (id : Uuid) (w : W) :
    result (option SubmissionResult) Error :=
  match thread_of a id w with
  | None => Err (not_found id)
  | Some t => Ok (thread_state_submission_result (th_state t))
  end.

Definition validate_safety (s : SafetyLayer) (content : string) : option SubmissionResult :=
  let validation := validate_input s content in
  if negb (vr_is_valid validation) then
    Some (SubError ("Input rejected by safety validation: " +:+ params_error_details validation))
  else if any_action PBlock (check_policy s content) then
    Some (SubError "Input rejected by safety policy.")
  else SubError <$> scan_inbound_for_secrets s content.

Definition set_image_parts (parts : list ContentPart) (t : Turn) : Turn := {|
  turn_number := turn_number t; user_input := user_input t; response := response t;
  turn_tool_calls := turn_tool_calls t; turn_state := turn_state t;
  turn_started_at := turn_started_at t; turn_completed_at := turn_completed_at t;
  turn_error := turn_error t; image_content_parts := parts |}.

Definition set_turns (ts : list Turn) (t : Thread) : Thread :=
  th_update t (th_state t) ts (pending_approval t) (pending_auth t) (th_updated_at t).

Definition effective_content (ag : Agent) (message : IncomingMessage) (content : string) :
    string * list ContentPart :=
  match augment_with_attachments (ag_base64 ag) content (im_attachments message) with
  | Some a => (au_text a, au_image_parts a)
  | None => (content, [])
  end.

Definition prepare_turn (ag : Agent) (message : IncomingMessage) (req : UserTurnRequest) (io : Io)
    (w : W) : W * result PrepareTurnResult Error :=
  let '(content, image_parts) := effective_content ag message (ut_content req) in
  match validate_safety (ag_safety ag) content with
  | Some r => (w, Ok (Rejected r))
  | None =>
      match thread_of (ut_session req) (ut_thread_id req) w with
      | None => (w, Err (not_found (ut_thread_id req)))
      | Some t =>
          match thread_state_submission_result (th_state t) with
          | Some r => (w, Ok (Rejected r))
          | None =>
              let t := start_turn t content (io_now io 0) (io_now io 1) in
              let t := set_turns (alter_last (set_image_parts image_parts) (turns t)) t in
              let w := put_thread (ut_session req) (ut_thread_id req) t w in
              (set_w_store (persist_user_message (ut_thread_id req) (im_user_id message) content
                              (w_store w)) w,
               Ok (Prepared (thread_messages t)))
          end
      end
  end.

(** ** Compaction and checkpoint before the turn *)

Definition notify_compaction_status (message : IncomingMessage) (pct : string) (w : W) : W :=
  send_status (im_channel message) (Status ("Context at " +:+ pct +:+ "% capacity, compacting...")) w.

Definition try_compact_snapshot (ag : Agent) (snapshot : Thread) (strategy : CompactionStrategy)
    (io : Io) (w : W) : W * (Thread * bool) :=
  let '(w, (snapshot, r)) :=
    compact (ag_complete ag) (ag_append ag) snapshot strategy (ag_workspace ag) (io_text io) w in
  (w, (snapshot, is_ok r)).

Definition apply_compaction_if_fresh (a : Arc) (id : Uuid) (snapshot : Thread) (w : W) : W :=
  match thread_of a id w with
  | Some t =>
      if bool_decide (th_updated_at t = th_updated_at snapshot) &&
         bool_decide (length (turns t) = length (turns snapshot))
      then put_thread a id snapshot w else w
  | None => w
  end.

Definition maybe_compact_context (ag : Agent) (message : IncomingMessage) (a : Arc) (id : Uuid)
    (io : Io) (w : W) : W * result unit Error :=
  match thread_of a id w with
  | None => (w, Err (not_found id))
  | Some snapshot =>
      let messages := thread_messages snapshot in
      match suggest_compaction (ag_context_monitor ag) messages with
      | None => (w, Ok tt)
      | Some strategy =>
          let pct := ag_percent ag (estimate_tokens messages) (context_limit (ag_context_monitor ag)) in
          let w := notify_compaction_status message pct w in
          let '(w, (snapshot, compacted)) := try_compact_snapshot ag snapshot strategy io w in
          if compacted then (apply_compaction_if_fresh a id snapshot w, Ok tt) else (w, Ok tt)
      end
  end.

Definition checkpoint_before_turn (a : Arc) (id : Uuid) (io : Io) (w : W) : W * result unit Error :=
  let '(w, (u, mgr)) := lock_undo_manager id w in
  match thread_of a id w with
  | None => (w, Err (not_found id))
  | Some t =>
      let n := thread_turn_number t in
      (put_undo u (checkpoint mgr (io_uuid io 0) n (thread_messages t)
                     ("Before turn " +:+ pretty n)) w, Ok tt)
  end.

(** ** The result of the loop *)

Definition apply_response_transform_hook (ag : Agent) (user : string) (id : Uuid)
    (response : string) (w : W) : W * string :=
  match run (ag_hooks ag) (EvResponseTransform user (uuid_to_string id) response) w with
  | (w, Err (HookRejected reason)) => (w, "[Response filtered: " +:+ reason +:+ "]")
  | (w, Ok (HookReject reason)) => (w, "[Response filtered: " +:+ reason +:+ "]")
  | (w, Err _) => (w, response)
  | (w, Ok (HookContinue (Some new_response))) => (w, new_response)
  | (w, Ok (HookContinue None)) => (w, response)
  end.

Definition persist_completed (id : Uuid) (user response : string)
    (completion : nat * list TurnToolCall) (w : W) : W :=
  let ctx := {| tp_thread_id := id; tp_user_id := user; tp_turn_number := completion.1 |} in
  set_w_store (persist_assistant_response id user response
                 (persist_tool_calls ctx completion.2 (w_store w))) w.

Definition turn_summary (t : Thread) : option (nat * list TurnToolCall) :=
  (λ tn, (turn_number tn, turn_tool_calls tn)) <$> last (turns t).

Definition need_approval (p : PendingApproval) : SubmissionResult :=
  NeedApproval (pa_request_id p) (pa_tool_name p) (pa_description p) (pa_display_parameters p).

Definition interrupted (message : IncomingMessage) (w : W) : W * result SubmissionResult Error :=
  (send_status (im_channel message) (Status "Interrupted") w, Ok SubInterrupted).

Definition handle_response (ag : Agent) (message : IncomingMessage) (a : Arc) (id : Uuid)
    (response : string) (io : Io) (w : W) : W * result SubmissionResult Error :=
  let '(w, response) := apply_response_transform_hook ag (im_user_id message) id response w in
  match thread_of a id w with
  | None => (w, Err (not_found id))
  | Some t =>
      if bool_decide (th_state t = Interrupted) then interrupted message w
      else
        let t := complete_turn t response (io_now io 0) (io_now io 1) in
        let w := put_thread a id t w in
        match turn_summary t with
        | None => interrupted message w
        | Some completion =>
            let w := send_status (im_channel message) (Status "Done") w in
            (persist_completed id (im_user_id message) response completion w,
             Ok (SubResponse response))
        end
  end.

Definition handle_loop_result (ag : Agent) (message : IncomingMessage) (a : Arc) (id : Uuid)
    (res : result AgenticLoopResult Error) (io : Io) (w : W) : W * result SubmissionResult Error :=
  match thread_of a id w with
  | None => (w, Err (not_found id))
  | Some t =>
      if bool_decide (th_state t = Interrupted) then interrupted message w
      else
        match res with
        | Ok (LoopResponse response) => handle_response ag message a id response io w
        | Ok (LoopNeedApproval pending) =>
            let w := put_thread a id (await_approval t pending (io_now io 0)) w in
            (send_status (im_channel message) (Status "Awaiting approval") w,
             Ok (need_approval pending))
        | Err e =>
            let text := error_display e in
            let w := put_thread a id (fail_turn t text (io_now io 0) (io_now io 1)) w in
            (set_w_store (persist_assistant_response id (im_user_id message) text (w_store w)) w,
             Ok (SubError text))
        end
  end.

(** ** A user message *)

(** Separate readings for the phases. *)
Record TurnIo := { ti_compact : Io; ti_checkpoint : Io; ti_prepare : Io; ti_result : Io }.

Definition process_user_input (ag : Agent) (message : IncomingMessage) (req : UserTurnRequest)
    (ti : TurnIo) (w : W) : W * result SubmissionResult Error :=
  let a := ut_session req in
  let id := ut_thread_id req in
  match check_thread_state a id w with
  | Err e => (w, Err e)
  | Ok (Some r) => (w, Ok r)
  | Ok None =>
      match validate_safety (ag_safety ag) (ut_content req) with
      | Some r => (w, Ok r)
      | None =>
          match route_command (ag_router ag) (with_content (ut_content req) message) with
          | Some intent => ag_handle_job_or_command ag intent message w
          | None =>
              match maybe_compact_context ag message a id (ti_compact ti) w with
              | (w, Err e) => (w, Err e)
              | (w, Ok _) =>
                  match checkpoint_before_turn a id (ti_checkpoint ti) w with
                  | (w, Err e) => (w, Err e)
                  | (w, Ok _) =>
                      match prepare_turn ag message req (ti_prepare ti) w with
                      | (w, Err e) => (w, Err e)
                      | (w, Ok (Rejected r)) => (w, Ok r)
                      | (w, Ok (Prepared turn_messages)) =>
                          let w := send_status (im_channel message) (Thinking "Processing...") w in
                          let '(w, res) := ag_run_agentic_loop ag message a id turn_messages w in
                          handle_loop_result ag message a id res (ti_result ti) w
                      end
                  end
              end
          end
      end
  end.

(** ** Properties *)

Lemma put_thread_same a id t (w : W) :
  thread_of a id w = Some t → put_thread a id t w = w.
Proof.
  unfold thread_of, put_thread, session_of. destruct (sm_heap (w_manager w) !! a) as [s|] eqn:E; [|done].
  simpl. intros Ht. unfold put_session, with_threads. rewrite (insert_id _ _ _ Ht).
  assert (s_update s (active_thread s) (threads s) (last_active_at s) (auto_approved_tools s) = s) as ->
    by by destruct s.
  destruct w as [m st sent rest]. unfold set_w_manager, set_session. simpl in *.
  f_equal. rewrite (insert_id _ _ _ E). by destruct m.
Qed.

(** Calls that leave the session manager alone. *)
Definition keeps_manager {A B} (f : A → W → W * B) : Prop :=
  ∀ x w, w_manager (f x w).1 = w_manager w.

Lemma compact_keeps_manager ag t strategy ct w :
  keeps_manager (ag_complete ag) → (∀ p, keeps_manager (ag_append ag p)) →
  w_manager (compact (ag_complete ag) (ag_append ag) t strategy (ag_workspace ag) ct w).1 = w_manager w.
Proof.
  intros Hc Ha. unfold compact. destruct strategy as [k|k|].
  - unfold compact_with_summary. destruct (length (turns t) <=? k); [done|]. unfold generate_summary.
    match goal with |- context [ag_complete ag ?r w] =>
      pose proof (Hc r w) as E; destruct (ag_complete ag r w) as [w1 [s|e]] end; [|done].
    simpl in E. destruct (ag_workspace ag); [|done]. unfold write_summary_to_workspace, write_entry.
    match goal with |- context [ag_append ag ?p ?c w1] =>
      pose proof (Ha p c w1) as E'; destruct (ag_append ag p c w1) as [w2 [[]|e]] end; simpl in *; congruence.
  - done.
  - unfold compact_to_workspace. destruct (ag_workspace ag); cbn [negb]; [|done].
    destruct (length (turns t) <=? 10); [done|].
    unfold write_context_to_workspace, write_entry.
    match goal with |- context [ag_append ag ?p ?c w] =>
      pose proof (Ha p c w) as E'; destruct (ag_append ag p c w) as [w2 [[]|e]] end; simpl in *; congruence.
Qed.

Lemma truncated_updated_at t k : th_updated_at (truncate_turns t k) = th_updated_at t.
Proof. unfold truncate_turns. by case_bool_decide. Qed.

(** A compacted snapshot that has as many turns as the thread is the thread. *)
Lemma compact_same_length ag t strategy ct w w' t' r :
  compact (ag_complete ag) (ag_append ag) t strategy (ag_workspace ag) ct w = (w', (t', r)) →
  length (turns t') = length (turns t) → t' = t.
Proof.
  intros Hc Hlen. pose proof (compact_step_ok (ag_complete ag) (ag_append ag) t strategy (ag_workspace ag) ct w) as Hs.
  rewrite Hc in Hs. destruct r as [res|e]; [|done].
  destruct Hs as [->|(Hk & ->)]; [done|].
  destruct (truncate_turns_spec t _ Hk) as [_ Hl]. lia.
Qed.

Lemma last_alter_last {A} (f : A → A) l : last (alter_last f l) = f <$> last l.
Proof.
  unfold alter_last. destruct (last l) as [x|] eqn:El.
  - by rewrite last_snoc.
  - apply last_None in El as ->. done.
Qed.

(** The thread is idle again and its last turn, if it has one, ended as [P] says,
    with its input and its tool calls as they were. *)
Definition turn_ended (P : Turn → Prop) (t t' : Thread) : Prop :=
  th_state t' = Idle ∧
  match last (turns t) with
  | None => turns t' = []
  | Some tn => ∃ before tn', turns t = before ++ [tn] ∧ turns t' = before ++ [tn'] ∧
      user_input tn' = user_input tn ∧ turn_tool_calls tn' = turn_tool_calls tn ∧ P tn'
  end.

Lemma alter_last_ended (P : Turn → Prop) f t t' :
  th_state t' = Idle → turns t' = alter_last f (turns t) →
  (∀ tn, user_input (f tn) = user_input tn ∧ turn_tool_calls (f tn) = turn_tool_calls tn ∧ P (f tn)) →
  turn_ended P t t'.
Proof.
  intros Hs Ht Hf. split; [done|]. rewrite Ht. destruct (last (turns t)) as [tn|] eqn:El.
  - apply last_Some in El as [before ->]. exists before, (f tn). unfold alter_last. rewrite last_snoc.
    rewrite length_app, Nat.add_sub, take_app_length. split_and!; try done; apply Hf.
  - by apply last_None in El as ->.
Qed.

Lemma store_put_thread a id t (w : W) : w_store (put_thread a id t w) = w_store w.
Proof. unfold put_thread. by destruct (session_of _ _). Qed.

(** C14. What the loop answered is recorded in the thread and given to the channel.
    An interrupted thread keeps its state and its turns, nothing is stored and the
    interruption is reported; this is checked again after the hooks for the reply
    have run.  Otherwise a request for approval becomes the pending one of the
    waiting thread; an error becomes that of the failed last turn; and the reply,
    as the hooks left it, becomes the response of the completed last turn and is
    stored behind that turn's tool calls.  A thread without turns has
    nothing to complete: its reply is reported as an interruption, and not stored.  Only a missing thread is an error. *)
Theorem loop_result_recorded (ag : Agent) (message : IncomingMessage) (a : Arc) (id : Uuid)
    (res : result AgenticLoopResult Error) (io : Io) (w : W) :
  let '(w', r) := handle_loop_result ag message a id res io w in
  let user := im_user_id message in
  match thread_of a id w with
  | None => w' = w ∧ r = Err (not_found id)
  | Some t =>
      if bool_decide (th_state t = Interrupted)
      then r = Ok SubInterrupted ∧ thread_of a id w' = Some t ∧ w_store w' = w_store w
      else match res with
      | Ok (LoopNeedApproval p) =>
          r = Ok (need_approval p) ∧ w_store w' = w_store w ∧
          ∃ t', thread_of a id w' = Some t' ∧ th_state t' = AwaitingApproval ∧ pending_approval t' = Some p ∧
            turns t' = turns t
      | Err e =>
          let text := error_display e in
          r = Ok (SubError text) ∧ w_store w' = persist_assistant_response id user text (w_store w) ∧
          ∃ t', thread_of a id w' = Some t' ∧
            turn_ended (λ tn, turn_state tn = TurnFailed ∧ turn_error tn = Some text) t t'
      | Ok (LoopResponse raw) =>
          let '(w1, text) := apply_response_transform_hook ag user id raw w in
          match thread_of a id w1 with
          | None => w' = w1 ∧ r = Err (not_found id)
          | Some t1 =>
              if bool_decide (th_state t1 = Interrupted)
              then r = Ok SubInterrupted ∧ thread_of a id w' = Some t1 ∧ w_store w' = w_store w1
              else (∃ t', thread_of a id w' = Some t' ∧
                turn_ended (λ tn, turn_state tn = TurnCompleted ∧ response tn = Some text) t1 t') ∧
              match last (turns t1) with
              | None => r = Ok SubInterrupted ∧ w_store w' = w_store w1
              | Some tn => r = Ok (SubResponse text) ∧
                  w_store w' = persist_assistant_response id user text
                    (persist_tool_calls {| tp_thread_id := id; tp_user_id := user; tp_turn_number := turn_number tn |}
                       (turn_tool_calls tn) (w_store w1))
              end
          end
      end
  end.
Proof.
  unfold handle_loop_result. destruct (thread_of a id w) as [t|] eqn:Et; [|done].
  case_bool_decide as Hi; [done|]. destruct res as [[raw|p]|e].
  - unfold handle_response. destruct (apply_response_transform_hook _ _ _ _ w) as [w1 text].
    destruct (thread_of a id w1) as [t1|] eqn:Et1; [|done]. case_bool_decide as Hi1; [done|].
    set (t' := complete_turn t1 text (io_now io 0) (io_now io 1)).
    assert (turn_ended (λ tn, turn_state tn = TurnCompleted ∧ response tn = Some text) t1 t') as He
      by (by eapply alter_last_ended).
    assert (turn_summary t' = (λ tn, (turn_number tn, turn_tool_calls tn)) <$> last (turns t1)) as ->.
    { unfold turn_summary. cbn [turns complete_turn th_update t']. rewrite last_alter_last. by destruct (last (turns t1)). }
    destruct (last (turns t1)) as [tn|]; cbn [fmap option_fmap option_map]; (split; [exists t'; split; [|done]|]);
      try apply (thread_of_put _ _ _ _ _ Et1); (split; [done|]); cbn; by rewrite store_put_thread.
  - split_and!; [done|apply store_put_thread|]. eexists. split; [apply (thread_of_put _ _ _ _ _ Et)|]. done.
  - cbn zeta. split_and!; [done|cbn; by rewrite store_put_thread|].
    eexists. split; [apply (thread_of_put _ _ _ _ _ Et)|]. by eapply alter_last_ended.
Qed.

(** Input that is not accepted has no effect.  While the thread is processing,
    waiting for approval or completed, or when the safety layer rejects the
    text, the answer is an error and the world is as before: nothing is
    checkpointed, stored or sent to the model.  Text rejected only with its
    attachments leaves every session and the store as they were. *)
Theorem rejected_input_no_effect (ag : Agent) (message : IncomingMessage) (req : UserTurnRequest)
    (ti : TurnIo) (w : W) (t : Thread)
    (Ht : thread_of (ut_session req) (ut_thread_id req) w = Some t) :
  (thread_state_submission_result (th_state t) ≠ None ∨
   validate_safety (ag_safety ag) (ut_content req) ≠ None →
   ∃ text, process_user_input ag message req ti w = (w, Ok (SubError text))) ∧
  (validate_safety (ag_safety ag) (effective_content ag message (ut_content req)).1 ≠ None →
   route_command (ag_router ag) (with_content (ut_content req) message) = None →
   suggest_compaction (ag_context_monitor ag) (thread_messages t) = None →
   ∃ text w', process_user_input ag message req ti w = (w', Ok (SubError text)) ∧
     sm_heap (w_manager w') = sm_heap (w_manager w) ∧ w_store w' = w_store w ∧
     w_sent w' = w_sent w ∧ w_rest w' = w_rest w).
Proof.
  assert (∀ st r, thread_state_submission_result st = Some r → ∃ text, r = SubError text) as Hstate.
  { intros [] r; simpl; intros [= <-]; eauto. }
  assert (∀ c r, validate_safety (ag_safety ag) c = Some r → ∃ text, r = SubError text) as Hsafe.
  { intros c r. unfold validate_safety. repeat case_match; try (intros [= <-]; eauto).
    destruct (scan_inbound_for_secrets _ _); intros [= <-]; eauto. }
  unfold process_user_input, check_thread_state. rewrite Ht.
  destruct (thread_state_submission_result (th_state t)) as [r|] eqn:Es.
  { destruct (Hstate _ _ Es) as [text ->]. split; [eauto|]. intros _ _ _. by exists text, w. }
  destruct (validate_safety (ag_safety ag) (ut_content req)) as [r|] eqn:Ev.
  { destruct (Hsafe _ _ Ev) as [text ->]. split; [eauto|]. intros _ _ _. by exists text, w. }
  split; [by intros [[]|[]]|]. intros Heff Hroute Hsug. rewrite Hroute.
  unfold maybe_compact_context. rewrite Ht, Hsug. unfold checkpoint_before_turn.
  pose proof (lock_undo_manager_spec (ut_thread_id req) w) as Hlock.
  destruct (lock_undo_manager (ut_thread_id req) w) as [w1 [u mgr]].
  destruct Hlock as (_ & Hst & Hsent & Hrest & Hh & _).
  rewrite (thread_of_heap _ _ _ _ Hh), Ht. unfold prepare_turn.
  destruct (effective_content ag message (ut_content req)) as [content parts]. simpl in Heff.
  destruct (validate_safety (ag_safety ag) content) as [r|] eqn:Ec; [|done].
  destruct (Hsafe _ _ Ec) as [text ->]. do 2 eexists. by split_and!.
Qed.

(** Automatic compaction has no effect: as long as nothing else changes the
    sessions while the summary is written, the sessions are exactly as before,
    whatever the compactor did to its snapshot.  A snapshot that lost turns is
    taken for stale, because its length is compared after the compaction. *)
Theorem auto_compaction_discarded (ag : Agent) (message : IncomingMessage) (a : Arc) (id : Uuid)
    (io : Io) (w : W)
    (Hcomplete : keeps_manager (ag_complete ag)) (Happend : ∀ p, keeps_manager (ag_append ag p)) :
  w_manager (maybe_compact_context ag message a id io w).1 = w_manager w.
Proof.
  unfold maybe_compact_context. destruct (thread_of a id w) as [t|] eqn:Et; [|done].
  destruct (suggest_compaction _ _) as [strategy|]; [|done].
  unfold try_compact_snapshot.
  match goal with |- context [compact _ _ _ _ _ _ ?w0] => set (w1 := w0) end.
  pose proof (compact_keeps_manager ag t strategy (io_text io) w1 Hcomplete Happend) as Hm.
  destruct (compact _ _ _ _ _ _ w1) as [w2 [t' r]] eqn:Ec. simpl in Hm.
  assert (thread_of a id w2 = Some t) as Et2.
  { unfold thread_of, session_of. by rewrite Hm. }
  destruct (is_ok r); [|done]. simpl. unfold apply_compaction_if_fresh. rewrite Et2.
  destruct (bool_decide (th_updated_at t = th_updated_at t')); [|done]. simpl.
  case_bool_decide as Hlen; [|done].
  rewrite (compact_same_length _ _ _ _ _ _ _ _ Ec) by done. by rewrite put_thread_same.
Qed.
End Turns.

Section Witnesses.
#[local] Existing Instance json_lite.
#[local] Existing Instance uuid_bits.
#[local] Existing Instance literal_regex.
#[local] Existing Instance naive_ac.
#[local] Existing Instance ascii_case.
#[local] Existing Instance memory_store.

Abbreviation DemoWorld := (World (gmap Uuid (string * string * list ConversationMessage)) unit).

Definition no_hook : Hook DemoWorld Empty_set := {|
  hook_name := λ h : Empty_set, match h with end; hook_points := λ h : Empty_set, match h with end;
  failure_mode := λ h : Empty_set, match h with end; hook_timeout := λ h : Empty_set, match h with end;
  execute := λ h : Empty_set, match h with end |}.
#[local] Existing Instance no_hook.

(** An agent whose model echoes the last message. *)
Definition demo_agent : Agent (St := gmap Uuid (string * string * list ConversationMessage))
    (X := unit) (H := Empty_set) := {|
  ag_safety := demo_safety;
  ag_hooks := [];
  ag_router := router_new;
  ag_context_monitor := {| context_limit := 20 |};
  ag_workspace := true;
  ag_run_agentic_loop := λ _ _ _ messages w, (w, Ok (LoopResponse (default "" (content <$> last messages))));
  ag_handle_job_or_command := λ _ _ w, (w, Ok (SubOk None));
  ag_complete := λ _ w, (w, Ok "summary");
  ag_append := λ _ _ w, (w, Ok tt);
  ag_base64 := id;
  ag_percent := λ _ _, "90" |}.

Definition demo_turns (n : nat) : list Turn := (λ k, turn_new k "a long question" 0%Z) <$> seq 0 n.

Definition demo_thread (st : ThreadState) (n : nat) : Thread :=
  th_update (thread_with_id 7%N 1%N 0%Z) st (demo_turns n) None None 0%Z.

Definition demo_world (st : ThreadState) (n : nat) : DemoWorld := {|
  w_manager := {|
    sm_sessions := {["ann" := 0]}; sm_thread_map := ∅; sm_undo_managers := ∅; sm_hooks := false;
    sm_heap := {[0 := with_threads {[7%N := demo_thread st n]} (session_new 1%N "ann" 0%Z)]};
    sm_undo_heap := ∅; sm_next := 1; sm_fired := [] |};
  w_store := Some ∅; w_sent := []; w_rest := tt |}.

Definition demo_io : Io := {|
  io_now := λ _, 5%Z; io_uuid := λ _, 9%N; io_turn_clock := λ _, (5%Z, 5%Z);
  io_text := {| ct_date := "2025-01-01"; ct_time := "12:00" |} |}.

Definition demo_message : IncomingMessage := incoming_new 3%N "web" "ann" "hello" 5%Z.
Definition demo_request : UserTurnRequest := {|
  ut_session := 0; ut_thread_id := 7%N; ut_content := "hello" |}.
Definition demo_ti : TurnIo := {|
  ti_compact := demo_io; ti_checkpoint := demo_io; ti_prepare := demo_io; ti_result := demo_io |}.

Lemma rejected_input_no_effect_witness :
  thread_of 0 7%N (demo_world Processing 1) = Some (demo_thread Processing 1) ∧
  ∃ text, process_user_input demo_agent demo_message demo_request demo_ti (demo_world Processing 1) =
    (demo_world Processing 1, Ok (SubError text)).
Proof.
  assert (thread_of 0 7%N (demo_world Processing 1) = Some (demo_thread Processing 1)) as Ht by done.
  split; [exact Ht|].
  destruct (rejected_input_no_effect demo_agent demo_message demo_request demo_ti _ _ Ht) as [Hr _].
  apply Hr. by left.
Defined.

Lemma auto_compaction_discarded_witness :
  let w := demo_world Idle 8 in
  suggest_compaction {| context_limit := 20 |} (thread_messages (demo_thread Idle 8)) ≠ None ∧
  w_manager (maybe_compact_context demo_agent demo_message 0 7%N demo_io w).1 = w_manager w.
Proof.
  intros w. split; [by vm_compute|].
  by apply (auto_compaction_discarded demo_agent demo_message 0 7%N demo_io w).
Defined.
End Witnesses.
