(* ===== verification/ExtAuth.v ===== *)
(** * Authentication state of extensions

    Models [src/src/extensions/auth.rs] with the kind of an extension
    ([src/src/extensions/descriptor.rs]): the typed state, its constructors and
    accessors, and the flat form in which it is sent to the frontend and read
    back. *)

From S2P Require Import Prelude Text.

Inductive ExtensionKind := McpServer | WasmTool | WasmChannel | ChannelRelay.

#[export] Instance extension_kind_eq_dec : EqDecision ExtensionKind.
Proof. solve_decision. Defined.

Definition extension_kind_display (k : ExtensionKind) : string :=
  match k with
  | McpServer => "mcp_server"
  | WasmTool => "wasm_tool"
  | WasmChannel => "wasm_channel"
  | ChannelRelay => "channel_relay"
  end.

Inductive ToolAuthState := TaReady | TaNeedsAuth | TaNeedsSetup | TaNoAuth.

Inductive AuthStatus :=
| Authenticated
| NoAuthRequired
| AwaitingAuthorization (auth_url callback_type : string)
| AwaitingToken (instructions : string) (setup_url : option string)
| NeedsSetup (instructions : string) (setup_url : option string).

Module wire.
Definition AUTHENTICATED : string := "authenticated".
Definition NO_AUTH_REQUIRED : string := "no_auth_required".
Definition AWAITING_AUTHORIZATION : string := "awaiting_authorization".
Definition AWAITING_TOKEN : string := "awaiting_token".
Definition NEEDS_SETUP : string := "needs_setup".
End wire.

Definition auth_status_as_str (s : AuthStatus) : string :=
  match s with
  | Authenticated => wire.AUTHENTICATED
  | NoAuthRequired => wire.NO_AUTH_REQUIRED
  | AwaitingAuthorization _ _ => wire.AWAITING_AUTHORIZATION
  | AwaitingToken _ _ => wire.AWAITING_TOKEN
  | NeedsSetup _ _ => wire.NEEDS_SETUP
  end.

Record AuthResult := { ar_name : string; ar_kind : ExtensionKind; ar_status : AuthStatus }.

Definition authenticated (name : string) (kind : ExtensionKind) : AuthResult :=
  {| ar_name := name; ar_kind := kind; ar_status := Authenticated |}.
Definition no_auth_required (name : string) (kind : ExtensionKind) : AuthResult :=
  {| ar_name := name; ar_kind := kind; ar_status := NoAuthRequired |}.
Definition awaiting_authorization (name : string) (kind : ExtensionKind) (auth_url callback_type : string) :
    AuthResult :=
  {| ar_name := name; ar_kind := kind; ar_status := AwaitingAuthorization auth_url callback_type |}.
Definition awaiting_token (name : string) (kind : ExtensionKind) (instructions : string)
    (setup_url : option string) : AuthResult :=
  {| ar_name := name; ar_kind := kind; ar_status := AwaitingToken instructions setup_url |}.
Definition needs_setup (name : string) (kind : ExtensionKind) (instructions : string)
    (setup_url : option string) : AuthResult :=
  {| ar_name := name; ar_kind := kind; ar_status := NeedsSetup instructions setup_url |}.

Definition is_authenticated (r : AuthResult) : bool :=
  match ar_status r with Authenticated => true | _ => false end.
Definition ar_auth_url (r : AuthResult) : option string :=
  match ar_status r with AwaitingAuthorization url _ => Some url | _ => None end.
Definition ar_callback_type (r : AuthResult) : option string :=
  match ar_status r with AwaitingAuthorization _ c => Some c | _ => None end.
Definition ar_instructions (r : AuthResult) : option string :=
  match ar_status r with AwaitingToken i _ | NeedsSetup i _ => Some i | _ => None end.
Definition ar_setup_url (r : AuthResult) : option string :=
  match ar_status r with AwaitingToken _ u | NeedsSetup _ u => u | _ => None end.
Definition is_awaiting_token (r : AuthResult) : bool :=
  match ar_status r with AwaitingToken _ _ => true | _ => false end.
Definition status_str (r : AuthResult) : string := auth_status_as_str (ar_status r).

(** ** The flat form *)

Inductive WireValue := WString (s : string) | WBool (b : bool) | WNull.

(** The entries of the JSON object, in order. *)
Abbreviation WireMap := (list (string * WireValue)).

Definition serialize_opt_entry (key : string) (value : option string) : WireMap :=
  match value with Some v => [(key, WString v)] | None => [] end.

Definition serialize_auth_result (r : AuthResult) : WireMap :=
  [("name", WString (ar_name r)); ("kind", WString (extension_kind_display (ar_kind r)))]
  ++ serialize_opt_entry "auth_url" (ar_auth_url r)
  ++ serialize_opt_entry "callback_type" (ar_callback_type r)
  ++ serialize_opt_entry "instructions" (ar_instructions r)
  ++ serialize_opt_entry "setup_url" (ar_setup_url r)
  ++ [("awaiting_token", WBool (is_awaiting_token r)); ("status", WString (status_str r))].

(** The derived deserializer of [Raw]: unknown entries are ignored, an entry
    given twice is an error. *)
Definition entries (key : string) (m : WireMap) : list WireValue :=
  snd <$> filter (λ e, e.1 = key) m.

Definition required_string (key : string) (m : WireMap) : option string :=
  match entries key m with [WString s] => Some s | _ => None end.

(** [Option<String>] with [#[serde(default)]] *)
Definition optional_string (key : string) (m : WireMap) : option (option string) :=
  match entries key m with
  | [] | [WNull] => Some None
  | [WString s] => Some (Some s)
  | _ => None
  end.

(** [bool] with [#[serde(default)]] *)
Definition optional_bool (key : string) (m : WireMap) : option bool :=
  match entries key m with
  | [] => Some false
  | [WBool b] => Some b
  | _ => None
  end.

Definition extension_kind_from_str (s : string) : option ExtensionKind :=
  if bool_decide (s = "mcp_server") then Some McpServer
  else if bool_decide (s = "wasm_tool") then Some WasmTool
  else if bool_decide (s = "wasm_channel") then Some WasmChannel
  else if bool_decide (s = "channel_relay") then Some ChannelRelay
  else None.

Definition status_from_raw (status : string) (auth_url callback_type instructions setup_url : option string) :
    option AuthStatus :=
  let with_instructions to_status := to_status (default "" instructions) setup_url in
  if bool_decide (status = wire.AUTHENTICATED) then Some Authenticated
  else if bool_decide (status = wire.NO_AUTH_REQUIRED) then Some NoAuthRequired
  else if bool_decide (status = wire.AWAITING_AUTHORIZATION) then
    Some (AwaitingAuthorization (default "" auth_url) (default "" callback_type))
  else if bool_decide (status = wire.AWAITING_TOKEN) then Some (with_instructions AwaitingToken)
  else if bool_decide (status = wire.NEEDS_SETUP) then Some (with_instructions NeedsSetup)
  else None.

Definition deserialize_auth_result (m : WireMap) : option AuthResult :=
  name ← required_string "name" m;
  kind ← required_string "kind" m ≫= extension_kind_from_str;
  auth_url ← optional_string "auth_url" m;
  callback_type ← optional_string "callback_type" m;
  instructions ← optional_string "instructions" m;
  setup_url ← optional_string "setup_url" m;
  _ ← optional_bool "awaiting_token" m;
  status ← required_string "status" m;
  status ← status_from_raw status auth_url callback_type instructions setup_url;
  Some {| ar_name := name; ar_kind := kind; ar_status := status |}.

(** Reading back what was sent gives the same state, for every state; and two
    different states are never sent in the same form. *)
Theorem auth_result_roundtrip (r : AuthResult) :
  deserialize_auth_result (serialize_auth_result r) = Some r ∧
  (∀ r', serialize_auth_result r' = serialize_auth_result r → r' = r).
Proof.
  assert (∀ r, deserialize_auth_result (serialize_auth_result r) = Some r) as Hrt.
  { intros [name kind st]. unfold serialize_auth_result.
    assert (extension_kind_from_str (extension_kind_display kind) = Some kind) as Hk by by destruct kind.
    destruct st as [| |url cb|i [u|]|i [u|]]; vm_compute in Hk |- *; by rewrite Hk. }
  split; [apply Hrt|]. intros r' E. apply (f_equal deserialize_auth_result) in E.
  rewrite !Hrt in E. by injection E.
Qed.
