(* ===== verification/ChatTools.v ===== *)
(** * Tool calls of a chat turn

    Models [src/src/agent/dispatcher/delegate/tool_exec/]: the three phases in
    which the tool calls of one reply are handled (preflight with hooks and
    approval, execution alone or in parallel, postflight with recording), as
    composed by [execute_tool_calls].

    Hooks and tools may change the whole world; the registry of tools is read
    from the world each time.  Parallel tasks run in an arbitrary order of
    completion, given as an argument, and some may be lost. *)

From S2P Require Import Prelude Text Externals LlmTypes JobState JobManager Session Undo Hooks.
From S2P Require Import LeakDetector Safety Submission SessionManager MessageRebuild ToolExec.
From S2P Require Import Messages AgenticLoop Turns.

Section Params.
Context {J : SerdeJson}.

(** [restore_sensitive_fields] on an object. *)
Definition restore_sensitive_fields (obj original : json) (sensitive : list string) : json :=
  foldl (λ obj key, match json_get original key with Some v => json_set obj key v | None => obj end)
    obj sensitive.

Definition with_arguments (args : json) (tc : ToolCall) : ToolCall := {|
  tc_id := tc_id tc; tc_name := tc_name tc; tc_arguments := args |}.

(** [parsed.as_object_mut()] is [Some] for an object only. *)
Definition apply_hook_param_modification (tc original : ToolCall) (sensitive : list string)
    (new_params : string) : ToolCall :=
  match json_from_str new_params with
  | Some parsed =>
      with_arguments
        (match json_view parsed with
         | VObject _ => restore_sensitive_fields parsed (tc_arguments original) sensitive
         | _ => parsed
         end) tc
  | None => tc
  end.

(** ** Requests for authentication in results *)

Definition is_auth_barrier_tool (name : string) : bool :=
  bool_decide (name = "tool_auth") || bool_decide (name = "tool_activate").

Record AuthBarrierData := {
  ab_extension_name : string;
  ab_instructions : string;
  ab_auth_url : option string;
  ab_setup_url : option string;
}.

Definition parse_auth_barrier (name : string) (res : result string Error) : option AuthBarrierData :=
  if negb (is_auth_barrier_tool name) then None
  else
    output ← match res with Ok s => Some s | Err _ => None end;
    parsed ← json_from_str output;
    if negb (default false (json_is_true <$> json_get parsed "awaiting_token")) then None
    else
      extension ← json_get parsed "name" ≫= json_as_string;
      let member k := json_get parsed k ≫= json_as_string in
      Some {| ab_extension_name := extension;
              ab_instructions := default "Please provide your API token/key." (member "instructions");
              ab_auth_url := member "auth_url"; ab_setup_url := member "setup_url" |}.

Definition auth_barrier_required (name : string) (res : result string Error) :
    option (string * string) :=
  (λ b, (ab_extension_name b, ab_instructions b)) <$> parse_auth_barrier name res.

(** ** Generated images *)

Definition image_sentinel (output : string) : option json :=
  sentinel ← json_from_str output;
  if bool_decide (json_get sentinel "type" ≫= json_as_string = Some "image_generated")
  then Some sentinel else None.

Definition image_sentinel_summary (output : string) : option string :=
  sentinel ← image_sentinel output;
  let part label key := match json_get sentinel key ≫= json_as_string with
                        | Some v => [label +:+ v]
                        | None => []
                        end in
  Some (join " "
    ("[Image generated]" :: part "type=" "media_type" ++ part "size=" "size" ++
     match json_get sentinel "path" ≫= json_as_string with
     | Some path => ["path=" +:+ path]
     | None => part "source=" "source_path"
     end)).
End Params.

(** The result of a call as its text or the text of its error. *)
Definition shown {T : UuidText} (r : result string Error) : result string string :=
  match r with Ok s => Ok s | Err e => Err (error_display e) end.

Section ChatTools.
Context {J : SerdeJson} {T : UuidText} {D : RustDecimal}.
Context {R : RegexEngine} {C : AhoCorasick} {U : UnicodeCase}.
Context {St X H A : Type} {HH : Hook (World St X) H} {HT : Tool (World St X) A}.
Abbreviation W := (World St X).

(** What the chat dispatcher takes from the agent. *)
Record ChatDeps := {
  cx_safety : SafetyLayer;
  cx_hooks : HookRegistry H;
  cx_tools : W → gmap string A;
  cx_auto_approve_tools : bool;
  cx_to_string_pretty : json → string;
}.

(** The part of [ChatDelegate] the tool pipeline uses; its job context is
    shared with the tools, which see the stash of outputs. *)
Record ToolScope := {
  ts_session : Arc;
  ts_thread_id : Uuid;
  ts_message : IncomingMessage;
  ts_job_ctx : JobContext;
  ts_user_tz : string;
}.

Variable deps : ChatDeps.
Variable sc : ToolScope.

Definition notify (s : StatusUpdate) (w : W) : W := send_status (im_channel (ts_message sc)) s w.

Definition sensitive_of (tool : option A) : list string :=
  default [] (sensitive_params (W := W) <$> tool).

(** ** Preflight *)

Inductive PreflightOutcome := PfRejected (msg : string) | PfRunnable.

Record ApprovalCandidate := { ac_idx : nat; ac_tool_call : ToolCall; ac_tool : A }.

Definition run_before_tool_call_hook (tc : ToolCall) (sensitive : list string) (w : W) :
    W * (ToolCall * option string) :=
  let event := EvToolCall (tc_name tc) (redact_params (tc_arguments tc) sensitive)
                 (im_user_id (ts_message sc)) "chat" in
  match run (cx_hooks deps) event w with
  | (w, Err (HookRejected reason)) => (w, (tc, Some ("Tool call rejected by hook: " +:+ reason)))
  | (w, Err err) => (w, (tc, Some ("Tool call blocked by hook policy: " +:+ hook_error_display err)))
  | (w, Ok (HookContinue (Some new_params))) =>
      (w, (apply_hook_param_modification tc tc sensitive new_params, None))
  | (w, Ok _) => (w, (tc, None))
  end.

Definition tool_requires_approval (tool : A) (tc : ToolCall) (w : W) : bool :=
  match requires_approval (W := W) tool (tc_arguments tc) with
  | ApprovalNever => false
  | ApprovalAlways => true
  | UnlessAutoApproved =>
      match session_of (ts_session sc) w with
      | Some s => negb (is_tool_auto_approved s (tc_name tc))
      | None => true
      end
  end.

Definition approval_required_tool (tool : option A) (tc : ToolCall) (w : W) : option A :=
  if cx_auto_approve_tools deps then None
  else
    tool ← tool;
    if tool_requires_approval tool tc w then Some tool else None.

Inductive ToolCallOutcome :=
| CallRejected (msg : string)
| CallNeedsApproval (c : ApprovalCandidate)
| CallRunnable.

Definition classify_tool_call (idx : nat) (original : ToolCall) (w : W) :
    W * (ToolCall * ToolCallOutcome) :=
  let tool := cx_tools deps w !! tc_name original in
  let '(w, (tc, rejection)) := run_before_tool_call_hook original (sensitive_of tool) w in
  match rejection with
  | Some msg => (w, (tc, CallRejected msg))
  | None =>
      match approval_required_tool tool tc w with
      | Some tool => (w, (tc, CallNeedsApproval {| ac_idx := idx; ac_tool_call := tc; ac_tool := tool |}))
      | None => (w, (tc, CallRunnable))
      end
  end.

Record ToolBatch := {
  tb_preflight : list (ToolCall * PreflightOutcome);
  tb_runnable : list (nat * ToolCall);
}.

Definition push_preflight (tc : ToolCall) (o : PreflightOutcome) (b : ToolBatch) : ToolBatch := {|
  tb_preflight := tb_preflight b ++ [(tc, o)];
  tb_runnable := match o with
                 | PfRunnable => tb_runnable b ++ [(length (tb_preflight b), tc)]
                 | PfRejected _ => tb_runnable b
                 end |}.

Fixpoint group_from (idx : nat) (calls : list ToolCall) (b : ToolBatch) (w : W) :
    W * (ToolBatch * option ApprovalCandidate) :=
  match calls with
  | [] => (w, (b, None))
  | original :: calls =>
      let '(w, (tc, outcome)) := classify_tool_call idx original w in
      match outcome with
      | CallRejected msg => group_from (S idx) calls (push_preflight tc (PfRejected msg) b) w
      | CallNeedsApproval candidate => (w, (b, Some candidate))
      | CallRunnable => group_from (S idx) calls (push_preflight tc PfRunnable b) w
      end
  end.

Definition group_tool_calls (calls : list ToolCall) (w : W) :
    W * (ToolBatch * option ApprovalCandidate) :=
  group_from 0 calls {| tb_preflight := []; tb_runnable := [] |} w.

(** ** Execution *)

(** [Agent::execute_chat_tool] and [execute_chat_tool_standalone] *)
Definition execute_chat_tool (name : string) (params : json) (ctx : JobContext) (w : W) :
    W * result string Error :=
  let '(w, r) := execute_tool_with_safety (cx_to_string_pretty deps) (cx_tools deps w)
                   (cx_safety deps) name params ctx w in
  (w, match r with Ok s => Ok s | Err e => Err (ETool e) end).

Definition send_tool_started (name : string) (w : W) : W := notify (ToolStarted name) w.

Definition send_tool_completed (name : string) (r : result string Error) (arguments : json) (w : W) : W :=
  notify (tool_completed (cx_to_string_pretty deps) name (shown r) arguments
            (sensitive_params (W := W) <$> cx_tools deps w !! name)) w.

Definition execute_one_tool (tc : ToolCall) (w : W) : W * result string Error :=
  let w := send_tool_started (tc_name tc) w in
  let '(w, r) := execute_chat_tool (tc_name tc) (tc_arguments tc) (ts_job_ctx sc) w in
  (send_tool_completed (tc_name tc) r (tc_arguments tc) w, r).

Abbreviation Slots := (list (option (result string Error))).

(** [exec_results[pf_idx] = Some(result)] *)
Definition fill (i : nat) (r : result string Error) (slots : Slots) : Slots := <[i := Some r]> slots.

Fixpoint run_tool_batch_inline (batch : list (nat * ToolCall)) (slots : Slots) (w : W) : W * Slots :=
  match batch with
  | [] => (w, slots)
  | (i, tc) :: batch =>
      let '(w, r) := execute_one_tool tc w in
      run_tool_batch_inline batch (fill i r slots) w
  end.

(** The tasks of a batch in the order in which they end.  A task marked as lost
    panicked or was cancelled: what it did stays done, its result is not
    reported. *)
Fixpoint run_tasks (order : list (nat * bool)) (batch : list (nat * ToolCall)) (slots : Slots) (w : W) :
    W * Slots :=
  match order with
  | [] => (w, slots)
  | (k, lost) :: order =>
      match batch !! k with
      | None => run_tasks order batch slots w
      | Some (i, tc) =>
          if (lost : bool) then
            let w := send_tool_started (tc_name tc) w in
            let '(w, _) := execute_chat_tool (tc_name tc) (tc_arguments tc) (ts_job_ctx sc) w in
            run_tasks order batch slots w
          else
            let '(w, r) := execute_one_tool tc w in
            run_tasks order batch (fill i r slots) w
      end
  end.

Definition task_failed (tc : ToolCall) : result string Error :=
  Err (ETool (ToolExecutionFailed (tc_name tc) "Task failed during execution")).

Definition fill_failed (batch : list (nat * ToolCall)) (slots : Slots) : Slots :=
  foldl (λ slots '(i, tc), match slots !! i with
                           | Some None => fill i (task_failed tc) slots
                           | _ => slots
                           end) slots batch.

Definition run_tool_batch_parallel (order : list (nat * bool)) (batch : list (nat * ToolCall))
    (slots : Slots) (w : W) : W * Slots :=
  let '(w, slots) := run_tasks order batch slots w in (w, fill_failed batch slots).

(** The calls up to the next that may ask for authentication. *)
Fixpoint split_batch (runnable : list (nat * ToolCall)) : list (nat * ToolCall) * list (nat * ToolCall) :=
  match runnable with
  | [] => ([], [])
  | (i, tc) :: rest =>
      if is_auth_barrier_tool (tc_name tc) then ([], runnable)
      else let '(batch, rest) := split_batch rest in ((i, tc) :: batch, rest)
  end.

(** The loop over [runnable]; each round takes at least one call, so its length
    is enough fuel.  [orders] are the orders of completion of the batches. *)
Fixpoint run_phase2_from (fuel : nat) (orders : nat → list (nat * bool))
    (runnable : list (nat * ToolCall)) (slots : Slots) (w : W) : W * Slots :=
  match fuel, runnable with
  | 0, _ | _, [] => (w, slots)
  | S fuel, (i, tc) :: rest =>
      if is_auth_barrier_tool (tc_name tc) then
        let '(w, slots) := run_tool_batch_inline [(i, tc)] slots w in
        match slots !! i with
        | Some (Some r) =>
            match auth_barrier_required (tc_name tc) r with
            | Some _ => (w, slots)
            | None => run_phase2_from fuel orders rest slots w
            end
        | _ => run_phase2_from fuel orders rest slots w
        end
      else
        let '(batch, rest) := split_batch runnable in
        let '(w, slots) :=
          if length batch <=? 1 then run_tool_batch_inline batch slots w
          else run_tool_batch_parallel (orders fuel) batch slots w in
        run_phase2_from fuel orders rest slots w
  end.

Definition run_phase2 (orders : nat → list (nat * bool)) (preflight_len : nat)
    (runnable : list (nat * ToolCall)) (w : W) : W * Slots :=
  run_phase2_from (length runnable) orders runnable (replicate preflight_len None) w.

(** ** Recording *)

(** [threads.get_mut(id)] and [last_turn_mut()] of the session. *)
Definition alter_last_turn (f : Turn → Turn) (w : W) : W :=
  match thread_of (ts_session sc) (ts_thread_id sc) w with
  | Some t => put_thread (ts_session sc) (ts_thread_id sc) (set_turns (alter_last f (turns t)) t) w
  | None => w
  end.

Definition redact_single_tool_call (tc : ToolCall) (w : W) : json :=
  match cx_tools deps w !! tc_name tc with
  | Some tool => redact_params (tc_arguments tc) (sensitive_params (W := W) tool)
  | None => tc_arguments tc
  end.

Definition record_calls (calls : list (ToolCall * json)) (tn : Turn) : Turn :=
  foldl (λ tn '(tc, args), record_tool_call tn (tc_name tc) args) tn calls.

Definition record_redacted_tool_calls (calls : list ToolCall) (w : W) : W :=
  alter_last_turn (record_calls ((λ tc, (tc, redact_single_tool_call tc w)) <$> calls)) w.

Definition record_tool_outcome (idx : nat) (content : string) (is_error : bool) (w : W) : W :=
  alter_last_turn (λ tn, (if is_error then record_tool_error_at tn idx content
                          else record_tool_result_content_at tn idx content).1) w.

(** ** Postflight *)

(** Text for the preview and text for the model. *)
Definition sanitize_output (name output : string) : string * string :=
  let s := sanitize_tool_output (cx_safety deps) name output in
  (so_content s, wrap_for_llm name (so_content s) (so_was_modified s)).

Definition fold_into_context (idx : nat) (tc : ToolCall) (content : string) (is_error : bool)
    (ctx : ReasoningContext) (w : W) : W * ReasoningContext :=
  (record_tool_outcome idx content is_error w,
   push_message (tool_result (tc_id tc) (tc_name tc) content) ctx).

Definition handle_rejected_tool (idx : nat) (tc : ToolCall) (msg : string) (ctx : ReasoningContext)
    (w : W) : W * ReasoningContext :=
  fold_into_context idx tc msg true ctx w.

Definition maybe_emit_image_sentinel (name output : string) (w : W) : W * bool :=
  if negb (bool_decide (name = "image_generate") || bool_decide (name = "image_edit")) then (w, false)
  else
    match image_sentinel output with
    | None => (w, false)
    | Some sentinel =>
        let data_url := default "" (json_get sentinel "data" ≫= json_as_string) in
        if bool_decide (data_url = "") then (w, true)
        else (notify (ImageGenerated data_url (json_get sentinel "path" ≫= json_as_string)) w, true)
    end.

Definition handle_auth_barrier (tc : ToolCall) (r : result string Error) (now : Utc) (w : W) :
    W * option string :=
  match parse_auth_barrier (tc_name tc) r with
  | None => (w, None)
  | Some b =>
      let w := match thread_of (ts_session sc) (ts_thread_id sc) w with
               | Some t => put_thread (ts_session sc) (ts_thread_id sc)
                             (enter_auth_mode t (ab_extension_name b) now) w
               | None => w
               end in
      (notify (AuthRequired (ab_extension_name b) (Some (ab_instructions b)) (ab_auth_url b)
                 (ab_setup_url b)) w,
       Some (ab_instructions b))
  end.

Definition send_preview (name preview : string) (w : W) : W :=
  if bool_decide (preview = "") then w else notify (ToolResultStatus name preview) w.

(** The stash of raw outputs is shared with the tools of later calls. *)
Definition process_runnable_tool (idx : nat) (tc : ToolCall) (r : result string Error) (now : Utc)
    (ctx : ReasoningContext) (stash : gmap string string) (w : W) :
    W * ReasoningContext * gmap string string * option string :=
  match r with
  | Err e =>
      let '(preview_text, wrapped) :=
        sanitize_output (tc_name tc) ("Tool '" +:+ tc_name tc +:+ "' failed: " +:+ error_display e) in
      let '(w, ctx) := fold_into_context idx tc wrapped true ctx w in
      (send_preview (tc_name tc) (preview_line preview_text PREVIEW_MAX_CHARS) w, ctx, stash, None)
  | Ok output =>
      let '(w, is_image) := maybe_emit_image_sentinel (tc_name tc) output w in
      let text := if is_image then default "[Image generated]" (image_sentinel_summary output) else output in
      let '(preview_text, content) := sanitize_output (tc_name tc) text in
      let w := if is_image then w
               else send_preview (tc_name tc) (preview_line preview_text PREVIEW_MAX_CHARS) w in
      let '(w, instructions) := handle_auth_barrier tc r now w in
      let stash := <[tc_id tc := output]> stash in
      let '(w, ctx) := fold_into_context idx tc content false ctx w in
      (w, ctx, stash, instructions)
  end.

Definition no_result (tc : ToolCall) : result string Error :=
  Err (ETool (ToolExecutionFailed (tc_name tc) "No result available")).

Fixpoint run_postflight_from (idx : nat) (preflight : list (ToolCall * PreflightOutcome)) (slots : Slots)
    (now : Utc) (ctx : ReasoningContext) (stash : gmap string string) (w : W) :
    W * ReasoningContext * gmap string string * option string :=
  match preflight with
  | [] => (w, ctx, stash, None)
  | (tc, PfRejected msg) :: preflight =>
      let '(w, ctx) := handle_rejected_tool idx tc msg ctx w in
      run_postflight_from (S idx) preflight slots now ctx stash w
  | (tc, PfRunnable) :: preflight =>
      let r := match slots !! idx with Some (Some r) => r | _ => no_result tc end in
      match process_runnable_tool idx tc r now ctx stash w with
      | (w, ctx, stash, Some instructions) => (w, ctx, stash, Some instructions)
      | (w, ctx, stash, None) => run_postflight_from (S idx) preflight slots now ctx stash w
      end
  end.

(** ** The pipeline *)

(** Identifiers, clock readings and schedules of one round. *)
Record RoundInputs := {
  ri_request_id : Uuid; ri_now : Utc; ri_orders : nat → list (nat * bool) }.

Definition build_pending_approval (candidate : ApprovalCandidate) (calls : list ToolCall)
    (ctx : ReasoningContext) (ri : RoundInputs) : PendingApproval :=
  let tc := ac_tool_call candidate in {|
  pa_request_id := ri_request_id ri;
  pa_tool_name := tc_name tc;
  pa_parameters := tc_arguments tc;
  pa_display_parameters := redact_params (tc_arguments tc) (sensitive_params (W := W) (ac_tool candidate));
  pa_description := tool_description (W := W) (ac_tool candidate);
  pa_tool_call_id := tc_id tc;
  pa_context_messages := rc_messages ctx;
  pa_deferred_tool_calls := drop (S (ac_idx candidate)) calls;
  pa_user_timezone := Some (ts_user_tz sc) |}.

Definition effective_calls (b : ToolBatch) (approval : option ApprovalCandidate) : list ToolCall :=
  (tb_preflight b).*1 ++ match approval with Some c => [ac_tool_call c] | None => [] end.

Definition chat_execute_tool_calls (calls : list ToolCall) (content : option string) (ri : RoundInputs)
    (ctx : ReasoningContext) (stash : gmap string string) (w : W) :
    W * ReasoningContext * gmap string string * option LoopOutcome :=
  let '(w, (batch, approval)) := group_tool_calls calls w in
  let effective := effective_calls batch approval in
  let ctx := push_message (assistant_with_tool_calls content effective) ctx in
  let w := notify (Thinking ("Executing " +:+ pretty (length calls) +:+ " tool(s)...")) w in
  let w := record_redacted_tool_calls effective w in
  let '(w, slots) := run_phase2 (ri_orders ri) (length (tb_preflight batch)) (tb_runnable batch) w in
  match run_postflight_from 0 (tb_preflight batch) slots (ri_now ri) ctx stash w with
  | (w, ctx, stash, Some instructions) => (w, ctx, stash, Some (Response instructions))
  | (w, ctx, stash, None) =>
      (w, ctx, stash,
       match approval with
       | Some candidate =>
           Some (AgenticLoop.NeedApproval (build_pending_approval candidate calls ctx ri))
       | None => None
       end)
  end.

(** ** Every call is answered once, in order *)

(** What a hook cannot change of a call. *)
Definition call_sig (tc : ToolCall) : string * string := (tc_id tc, tc_name tc).

Definition answers (m : ChatMessage) (tc : ToolCall) : Prop :=
  role m = LlmTypes.Tool ∧ tool_call_id m = Some (tc_id tc) ∧ name m = Some (tc_name tc).

Lemma hook_keeps_sig tc sensitive w w' tc' r :
  run_before_tool_call_hook tc sensitive w = (w', (tc', r)) → call_sig tc' = call_sig tc.
Proof.
  unfold run_before_tool_call_hook, apply_hook_param_modification.
  destruct (run _ _ _) as [w1 [[[new|]|reason]|[]]]; try (by intros [= <- <- <-]).
  case_match; by intros [= <- <- <-].
Qed.

(** What the approval requirement of a call asks for is given. *)
Definition call_approved (req : ApprovalRequirement) (auto_approved : gset string) (name : string) : Prop :=
  match req with
  | ApprovalNever => True
  | UnlessAutoApproved => name ∈ auto_approved
  | ApprovalAlways => False
  end.

(** One run of the hooks. *)
Definition hook_step (w w' : W) : Prop := ∃ e, w' = (run (cx_hooks deps) e w).1.

(** A call may run in a round that starts in [w]: approval is switched off, or
    between runs of the hooks its tool was unknown or approved. *)
Definition cleared (w : W) (tc : ToolCall) : Prop :=
  cx_auto_approve_tools deps = true ∨
  ∃ w0 w1, rtc hook_step w w0 ∧ rtc hook_step w0 w1 ∧
    match cx_tools deps w0 !! tc_name tc with
    | None => True
    | Some tool =>
        call_approved (requires_approval (W := W) tool (tc_arguments tc))
          (default ∅ (auto_approved_tools <$> session_of (ts_session sc) w1)) (tc_name tc)
    end.

Lemma cleared_earlier w w' tc : rtc hook_step w w' → cleared w' tc → cleared w tc.
Proof.
  intros Hr [Ha|(w0 & w1 & H0 & H1 & Hc)]; [by left|]. right. exists w0, w1. split_and!; [by etrans|done|done].
Qed.

Lemma not_required_approved w0 w1 tc :
  approval_required_tool (cx_tools deps w0 !! tc_name tc) tc w1 = None →
  cx_auto_approve_tools deps = true ∨
  match cx_tools deps w0 !! tc_name tc with
  | None => True
  | Some tool =>
      call_approved (requires_approval (W := W) tool (tc_arguments tc))
        (default ∅ (auto_approved_tools <$> session_of (ts_session sc) w1)) (tc_name tc)
  end.
Proof.
  unfold approval_required_tool, tool_requires_approval. destruct (cx_auto_approve_tools deps); [by left|].
  right. destruct (cx_tools deps w0 !! tc_name tc) as [tool|]; [|done]. simpl in *.
  destruct (requires_approval tool _); [done| |done]. cbn [call_approved].
  destruct (session_of _ w1) as [x|]; [|done]. unfold is_tool_auto_approved in *. simpl.
  by case_bool_decide.
Qed.

Lemma hook_call_step tc sensitive w w' r :
  run_before_tool_call_hook tc sensitive w = (w', r) → hook_step w w'.
Proof.
  unfold run_before_tool_call_hook. set (e := EvToolCall _ _ _ _). intros E. exists e.
  destruct (run _ e w) as [w1 [[[new|]|reason]|[]]]; by injection E as <- _.
Qed.

Lemma classify_spec idx original w w' tc o :
  classify_tool_call idx original w = (w', (tc, o)) →
  call_sig tc = call_sig original ∧ hook_step w w' ∧
  match o with
  | CallRejected _ => True
  | CallNeedsApproval c => ac_idx c = idx ∧ ac_tool_call c = tc
  | CallRunnable => cleared w tc
  end.
Proof.
  unfold classify_tool_call.
  destruct (run_before_tool_call_hook _ _ w) as [w1 [tc1 rej]] eqn:Eh.
  pose proof (hook_call_step _ _ _ _ _ Eh) as Hstep. apply hook_keeps_sig in Eh.
  destruct rej as [msg|]; [by intros [= <- <- <-]|].
  destruct (approval_required_tool _ tc1 w1) as [tool|] eqn:Ea; intros [= <- <- <-]; [done|].
  split_and!; [done|done|]. injection Eh as _ En. rewrite <-En in Ea.
  destruct (not_required_approved w w1 tc1 Ea); [by left|right]. exists w, w1.
  split_and!; [done|by apply rtc_once|done].
Qed.

Fixpoint runnable_of (idx : nat) (pf : list (ToolCall * PreflightOutcome)) : list (nat * ToolCall) :=
  match pf with
  | [] => []
  | (tc, PfRunnable) :: pf => (idx, tc) :: runnable_of (S idx) pf
  | (tc, PfRejected _) :: pf => runnable_of (S idx) pf
  end.

(** The calls classified: those answered in this round, in order, and the one
    that waits for approval, behind which the rest is kept for later. *)
Lemma group_from_spec idx calls b w w' b' approval :
  group_from idx calls b w = (w', (b', approval)) → idx = length (tb_preflight b) →
  ∃ pf, tb_preflight b' = tb_preflight b ++ pf ∧
    tb_runnable b' = tb_runnable b ++ runnable_of idx pf ∧
    rtc hook_step w w' ∧ Forall (λ p, p.2 = PfRunnable → cleared w p.1) pf ∧
    match approval with
    | None => call_sig <$> pf.*1 = call_sig <$> calls
    | Some c => ac_idx c = idx + length pf ∧ length pf < length calls ∧
        call_sig <$> pf.*1 ++ [ac_tool_call c] = call_sig <$> take (S (length pf)) calls
    end.
Proof.
  revert idx b w. induction calls as [|original calls IH]; intros idx b w E Hidx; cbn [group_from] in E.
  { injection E as <- <- <-. exists []. by rewrite !app_nil_r. }
  destruct (classify_tool_call idx original w) as [w1 [tc o]] eqn:Ec.
  apply classify_spec in Ec as (Hsig & Hstep & Ho).
  assert (∀ pf, Forall (λ p : ToolCall * PreflightOutcome, p.2 = PfRunnable → cleared w1 p.1) pf →
    Forall (λ p, p.2 = PfRunnable → cleared w p.1) pf) as Hback.
  { intros pf Hf. eapply Forall_impl; [exact Hf|]. intros q Hq Hp.
    eapply cleared_earlier; [by apply rtc_once|auto]. }
  destruct o as [msg|c|].
  - apply IH in E as (pf & Hp & Hr & Hw & Hc & Ha); [|by simpl; rewrite length_app; simpl; lia].
    exists ((tc, PfRejected msg) :: pf). rewrite Hp, Hr. simpl. rewrite <-app_assoc.
    split_and!; [done|done|by eapply rtc_l|constructor; [done|by apply Hback]|]. destruct approval as [c|].
    + destruct Ha as (Hi & Hl & Hs). split_and!; [simpl; lia|simpl; lia|].
      simpl in *. rewrite Hsig. f_equal. exact Hs.
    + simpl. rewrite Hsig. f_equal. exact Ha.
  - injection E as <- <- <-. exists []. rewrite !app_nil_r. destruct Ho as [-> ->].
    simpl. split_and!; [done|done|by apply rtc_once|done|lia|lia|]. by rewrite Hsig.
  - apply IH in E as (pf & Hp & Hr & Hw & Hc & Ha); [|by simpl; rewrite length_app; simpl; lia].
    exists ((tc, PfRunnable) :: pf). rewrite Hp, Hr. simpl. rewrite <-!app_assoc, <-Hidx.
    split_and!; [done|done|by eapply rtc_l|constructor; [done|by apply Hback]|]. destruct approval as [c|].
    + destruct Ha as (Hi & Hl & Hs). split_and!; [simpl; lia|simpl; lia|].
      simpl in *. rewrite Hsig. f_equal. exact Hs.
    + simpl. rewrite Hsig. f_equal. exact Ha.
Qed.

Lemma process_runnable_answers idx tc r now ctx stash w w' ctx' stash' o :
  process_runnable_tool idx tc r now ctx stash w = (w', ctx', stash', o) →
  ∃ m, rc_messages ctx' = rc_messages ctx ++ [m] ∧ answers m tc.
Proof.
  unfold process_runnable_tool, fold_into_context. destruct r as [output|e].
  - destruct (maybe_emit_image_sentinel _ _ w) as [w1 img]. destruct (sanitize_output _ _) as [p c].
    destruct (handle_auth_barrier _ _ _ _) as [w2 i]. intros [= <- <- <- <-]. simpl. by eexists.
  - destruct (sanitize_output _ _) as [p c]. intros [= <- <- <- <-]. simpl. by eexists.
Qed.

Lemma postflight_answers idx pf slots now ctx stash w w' ctx' stash' o :
  run_postflight_from idx pf slots now ctx stash w = (w', ctx', stash', o) →
  ∃ ms k, rc_messages ctx' = rc_messages ctx ++ ms ∧ Forall2 answers ms (take k pf.*1) ∧
    (o = None → k = length pf) ∧ k ≤ length pf.
Proof.
  revert idx ctx stash w. induction pf as [|[tc [msg|]] pf IH]; intros idx ctx stash w E; cbn in E.
  - injection E as <- <- <- <-. exists [], 0. by rewrite app_nil_r.
  - apply IH in E as (ms & k & Hm & Ha & Hk & Hl). eexists (_ :: ms), (S k). rewrite Hm. simpl.
    rewrite <-app_assoc. split_and!; [done| |intros ->; by rewrite Hk|lia]. by constructor.
  - destruct (process_runnable_tool _ _ _ _ _ _ w) as [[[w1 ctx1] stash1] r] eqn:Ep.
    apply process_runnable_answers in Ep as (m & Hm1 & Ha1). destruct r as [i|].
    + injection E as <- <- <- <-. exists [m], 1. simpl. split_and!; [done| |done|lia].
      rewrite firstn_O. by constructor.
    + apply IH in E as (ms & k & Hm & Ha & Hk & Hl). exists (m :: ms), (S k). rewrite Hm, Hm1. simpl.
      rewrite <-app_assoc. split_and!; [done| |intros ->; by rewrite Hk|lia]. by constructor.
Qed.

Lemma runnable_cleared w idx pf :
  Forall (λ p, p.2 = PfRunnable → cleared w p.1) pf → Forall (λ p, cleared w p.2) (runnable_of idx pf).
Proof.
  revert idx. induction pf as [|[tc [msg|]] pf IH]; intros idx Hf; simpl; [done|..];
    apply Forall_cons in Hf as [Hc Hf]; [by apply IH|]. constructor; [by apply Hc|by apply IH].
Qed.


(** ** Only cleared calls run *)

(** A property of the world that statuses, hooks, work on the thread and the
    execution of calls cleared in a round from [w] keep. *)
Definition closed (w : W) (P : W → Prop) : Prop :=
  (∀ s w, P w → P (notify s w)) ∧
  (∀ e w, P w → P (run (cx_hooks deps) e w).1) ∧
  (∀ t w, P w → P (put_thread (ts_session sc) (ts_thread_id sc) t w)) ∧
  (∀ tc w', cleared w tc → P w' →
     P (execute_chat_tool (tc_name tc) (tc_arguments tc) (ts_job_ctx sc) w').1).

Section Closed.
Variable w_start : W.
Variable P : W → Prop.
Hypothesis Pclosed : closed w_start P.

Lemma closed_notify s w : P w → P (notify s w).
Proof. apply Pclosed. Qed.

Lemma closed_alter f w : P w → P (alter_last_turn f w).
Proof. intros Hw. unfold alter_last_turn. case_match; [|done]. by apply Pclosed. Qed.

Lemma closed_one tc w : cleared w_start tc → P w → P (execute_one_tool tc w).1.
Proof.
  intros Hc Hw. unfold execute_one_tool.
  pose proof (proj2 (proj2 (proj2 Pclosed)) tc (send_tool_started (tc_name tc) w) Hc) as He.
  destruct (execute_chat_tool _ _ _ _) as [w1 r]. simpl in *. apply closed_notify, He, closed_notify, Hw.
Qed.

Lemma closed_inline batch slots w :
  Forall (λ p, cleared w_start p.2) batch → P w → P (run_tool_batch_inline batch slots w).1.
Proof.
  revert slots w. induction batch as [|[i tc] batch IH]; intros slots w Hf Hw; [done|].
  apply Forall_cons in Hf as [Hc Hf]. cbn [run_tool_batch_inline].
  pose proof (closed_one tc w Hc Hw). destruct (execute_one_tool tc w) as [w1 r]. by apply IH.
Qed.

Lemma closed_tasks order batch slots w :
  Forall (λ p, cleared w_start p.2) batch → P w → P (run_tasks order batch slots w).1.
Proof.
  intros Hf. revert slots w. induction order as [|[k lost] order IH]; intros slots w Hw; [done|].
  cbn [run_tasks]. destruct (batch !! k) as [[i tc]|] eqn:Hk; [|by apply IH].
  rewrite Forall_forall in Hf. assert (cleared w_start tc) as Hc by by eapply (Hf (i, tc)), list_elem_of_lookup_2.
  destruct lost.
  - pose proof (proj2 (proj2 (proj2 Pclosed)) tc (send_tool_started (tc_name tc) w) Hc) as He.
    destruct (execute_chat_tool _ _ _ _) as [w1 r]. by apply IH, He, closed_notify.
  - pose proof (closed_one tc w Hc Hw). destruct (execute_one_tool tc w) as [w1 r]. by apply IH.
Qed.

Lemma split_batch_spec runnable batch rest :
  split_batch runnable = (batch, rest) → runnable = batch ++ rest.
Proof.
  revert batch. induction runnable as [|[i tc] l IH]; intros batch; simpl; [by intros [= <- <-]|].
  destruct (is_auth_barrier_tool _); [by intros [= <- <-]|].
  destruct (split_batch l) as [b r]. intros [= <- <-]. by rewrite (IH b).
Qed.

Lemma closed_phase2 fuel orders runnable slots w :
  Forall (λ p, cleared w_start p.2) runnable → P w → P (run_phase2_from fuel orders runnable slots w).1.
Proof.
  revert runnable slots w. induction fuel as [|fuel IH]; intros [|[i tc] rest] slots w Hf Hw; try done.
  cbn [run_phase2_from]. destruct (is_auth_barrier_tool (tc_name tc)).
  - apply Forall_cons in Hf as [Hc Hf].
    assert (Forall (λ p, cleared w_start p.2) [(i, tc)]) as H1 by by constructor.
    pose proof (closed_inline [(i, tc)] slots w H1 Hw).
    destruct (run_tool_batch_inline _ _ _) as [w1 slots1].
    repeat case_match; try done; by apply IH.
  - destruct (split_batch _) as [batch rest'] eqn:Es. apply split_batch_spec in Es.
    rewrite Es in Hf. apply Forall_app in Hf as [Hb Hr].
    assert (P (if length batch <=? 1 then run_tool_batch_inline batch slots w
               else run_tool_batch_parallel (orders fuel) batch slots w).1) as H1.
    { case_match; [by apply closed_inline|]. unfold run_tool_batch_parallel.
      pose proof (closed_tasks (orders fuel) batch slots w Hb Hw).
      by destruct (run_tasks _ _ _ _). }
    destruct (if length batch <=? 1 then _ else _) as [w1 slots1]. by apply IH.
Qed.

Lemma closed_group idx calls b w : P w → P (group_from idx calls b w).1.
Proof.
  revert idx b w. induction calls as [|original calls IH]; intros idx b w Hw; [done|]. cbn [group_from].
  assert (P (classify_tool_call idx original w).1) as Hc.
  { unfold classify_tool_call, run_before_tool_call_hook.
    match goal with |- context [run (cx_hooks deps) ?e w] =>
      pose proof (proj1 (proj2 Pclosed) e w Hw); destruct (run (cx_hooks deps) e w) as [w1 [[[]|]|[]]] end;
    simpl in *; repeat case_match; done. }
  destruct (classify_tool_call idx original w) as [w1 [tc [msg|c|]]]; simpl in *; by try apply IH.
Qed.

Lemma closed_postflight idx pf slots now ctx stash w :
  P w → P (run_postflight_from idx pf slots now ctx stash w).1.1.1.
Proof.
  revert idx ctx stash w. induction pf as [|[tc [msg|]] pf IH]; intros idx ctx stash w Hw; [done|..]; cbn.
  - by apply IH, closed_alter.
  - match goal with |- context [process_runnable_tool idx tc ?r now ctx stash w] =>
      assert (P (process_runnable_tool idx tc r now ctx stash w).1.1.1) as Hp;
        [generalize r; intros r0|destruct (process_runnable_tool idx tc r now ctx stash w) as [[[w1 c1] s1] [i|]]] end.
    + unfold process_runnable_tool, fold_into_context, send_preview. destruct r0 as [output|e].
      * assert (P (maybe_emit_image_sentinel (tc_name tc) output w).1) as H1.
        { unfold maybe_emit_image_sentinel. repeat case_match; try done. by apply closed_notify. }
        destruct (maybe_emit_image_sentinel _ _ _) as [w1 img]. destruct (sanitize_output _ _) as [p c].
        match goal with |- context [handle_auth_barrier tc ?r now ?w2] =>
          assert (P (handle_auth_barrier tc r now w2).1) as H2;
            [assert (P w2) as H3|destruct (handle_auth_barrier tc r now w2) as [w3 i]; by apply closed_alter] end.
        -- repeat case_match; try done; by apply closed_notify.
        -- unfold handle_auth_barrier. destruct (parse_auth_barrier _ _); [|done]. apply closed_notify.
           destruct (thread_of _ _ _); [|done]. by apply Pclosed.
      * destruct (sanitize_output _ _) as [p c]. simpl. case_match; [by apply closed_alter|].
        by apply closed_notify, closed_alter.
    + done.
    + by apply IH.
Qed.
End Closed.

(** C3. Tools that need approval do not run without it.  Whatever property of the
    world is kept by status messages, by hooks, by work on the thread and by
    every call that was cleared (its tool unknown, or not in need of approval
    for the arguments the hooks left, or approved for the session, or approval
    switched off for all), is kept by a whole round of tool calls, in any order of parallel tasks. *)
Theorem only_cleared_tools_run (P : W → Prop) (w : W) (Pclosed : closed w P) (calls : list ToolCall)
    (text : option string) (ri : RoundInputs) (ctx : ReasoningContext) (stash : gmap string string)
    (Hw : P w) :
  P (chat_execute_tool_calls calls text ri ctx stash w).1.1.1.
Proof.
  unfold chat_execute_tool_calls, group_tool_calls.
  pose proof (closed_group w P Pclosed 0 calls {| tb_preflight := []; tb_runnable := [] |} w Hw) as H1.
  destruct (group_from _ _ _ w) as [w1 [batch approval]] eqn:Eg. simpl in H1.
  apply group_from_spec in Eg as (pf & _ & Hr & _ & Hc & _); [|done]. simpl in Hr.
  unfold run_phase2.
  match goal with |- context [run_phase2_from ?f ?o ?r ?s ?w0] =>
    assert (P (run_phase2_from f o r s w0).1) as H2;
      [apply (closed_phase2 w P Pclosed)|destruct (run_phase2_from f o r s w0) as [w2 slots]] end.
  - rewrite Hr. by apply runnable_cleared.
  - by apply (closed_alter w P Pclosed), (closed_notify w P Pclosed).
  - simpl in H2.
    match goal with |- context [run_postflight_from ?i ?pf ?s ?n ?c ?st w2] =>
      pose proof (closed_postflight w P Pclosed i pf s n c st w2 H2) as H3;
        destruct (run_postflight_from i pf s n c st w2) as [[[w3 c3] s3] [ins|]] end; done.
Qed.

(** ** Recording of later rounds *)

Lemma thread_of_alter f w t :
  thread_of (ts_session sc) (ts_thread_id sc) w = Some t →
  thread_of (ts_session sc) (ts_thread_id sc) (alter_last_turn f w) =
    Some (set_turns (alter_last f (turns t)) t).
Proof. intros Ht. unfold alter_last_turn. rewrite Ht. by eapply thread_of_put. Qed.

(** The outcome of a round's first call is recorded at index 0 of the turn,
    which belongs to the first round: in a turn that already has calls, it
    replaces the result of the turn's first call, and the new call is left
    without result or error. *)
Theorem later_round_misrecorded (tc : ToolCall) (text : string) (is_error : bool)
    (ctx : ReasoningContext) (w : W) (t : Thread) (tn : Turn) (c0 : TurnToolCall) (cs : list TurnToolCall)
    (Ht : thread_of (ts_session sc) (ts_thread_id sc) w = Some t)
    (Htn : last (turns t) = Some tn) (Hcs : turn_tool_calls tn = c0 :: cs) :
  let w' := (fold_into_context 0 tc text is_error ctx (record_redacted_tool_calls [tc] w)).1 in
  ∃ t' tn', thread_of (ts_session sc) (ts_thread_id sc) w' = Some t' ∧ last (turns t') = Some tn' ∧
    turn_tool_calls tn' =
      {| ttc_name := ttc_name c0; ttc_parameters := ttc_parameters c0;
         ttc_result := if is_error then None else Some (parse_tool_result text);
         ttc_error := if is_error then Some text else None |} :: cs ++
      [{| ttc_name := tc_name tc; ttc_parameters := redact_single_tool_call tc w;
          ttc_result := None; ttc_error := None |}].
Proof.
  intros w'. unfold w', fold_into_context, record_tool_outcome, record_redacted_tool_calls. cbn [fst].
  pose proof (thread_of_alter (record_calls ((λ tc, (tc, redact_single_tool_call tc w)) <$> [tc])) w t Ht) as H1.
  pose proof (thread_of_alter (λ tn, (if is_error then record_tool_error_at tn 0 text
    else record_tool_result_content_at tn 0 text).1) _ _ H1) as H2.
  do 2 eexists. split; [exact H2|]. cbn [turns set_turns th_update]. rewrite !last_alter_last, Htn.
  split; [reflexivity|].
  destruct is_error; unfold record_tool_error_at, record_tool_result_content_at, record_tool_result_at,
    set_tool_outcome_at; simpl; by rewrite Hcs.
Qed.
End ChatTools.

(** ** Secrets and hooks *)

Section Secrets.
Context {J : SerdeJson}.

Lemma restore_get obj original sensitive key fields :
  json_view obj = VObject fields →
  json_get (restore_sensitive_fields obj original sensitive) key =
  if bool_decide (key ∈ sensitive)
  then match json_get original key with Some v => Some v | None => json_get obj key end
  else json_get obj key.
Proof.
  unfold restore_sensitive_fields. revert obj fields.
  induction sensitive as [|k ks IH]; intros obj fields Ho; simpl; [done|].
  destruct (json_get original k) as [v|] eqn:Ek.
  - destruct (json_set_object _ _ k v Ho) as [fields' Ho'].
    rewrite (IH _ _ Ho'), (json_get_set _ _ k v key Ho).
    destruct (decide (key = k)) as [->|Hne].
    + rewrite (bool_decide_eq_true_2 (k ∈ k :: ks)) by set_solver. rewrite Ek.
      case_bool_decide; [done|]. by rewrite bool_decide_eq_true_2.
    + rewrite (bool_decide_eq_false_2 (key = k)) by done.
      rewrite (bool_decide_ext (key ∈ k :: ks) (key ∈ ks)) by set_solver. done.
  - rewrite (IH _ _ Ho). destruct (decide (key = k)) as [->|Hne].
    + rewrite (bool_decide_eq_true_2 (k ∈ k :: ks)) by set_solver. rewrite Ek. by case_bool_decide.
    + rewrite (bool_decide_ext (key ∈ k :: ks) (key ∈ ks)) by set_solver. done.
Qed.

(** A hook on tool calls neither sees nor loses secrets.  It is shown the text
    [REDACTED] for every sensitive parameter; whatever it answers, the call then
    carries the secret as the model gave it, unless the hook replaced the
    parameters by a value that is not an object and has no parameters. *)
Theorem hook_rewrite_keeps_secrets (tc : ToolCall) (sensitive : list string) (new_params : string)
    (key : string) (v : json)
    (Hkey : key ∈ sensitive) (Hv : json_get (tc_arguments tc) key = Some v) :
  json_get (redact_params (tc_arguments tc) sensitive) key = Some (JString "[REDACTED]") ∧
  let tc' := apply_hook_param_modification tc tc sensitive new_params in
  call_sig tc' = call_sig tc ∧
  (json_get (tc_arguments tc') key = Some v ∨ ∀ k, json_get (tc_arguments tc') k = None).
Proof.
  split; [by rewrite redact_params_get, bool_decide_eq_true_2, Hv|].
  unfold apply_hook_param_modification. destruct (json_from_str new_params) as [parsed|]; [|by split; [|left]].
  split; [done|]. simpl. destruct (json_view parsed) as [| | | | |fields] eqn:Ev.
  6: { left. rewrite (restore_get _ _ _ _ _ Ev), bool_decide_eq_true_2 by done. by rewrite Hv. }
  all: right; intros k; destruct (json_get parsed k) eqn:E; [|done];
    apply json_get_object_view in E as [? E]; congruence.
Qed.
End Secrets.

Section Witnesses.
#[local] Existing Instance json_lite.
#[local] Existing Instance uuid_bits.
#[local] Existing Instance dec_cents.
#[local] Existing Instance literal_regex.
#[local] Existing Instance naive_ac.
#[local] Existing Instance ascii_case.

Definition no_chat_hook : Hook (World unit bool) Empty_set := {|
  hook_name := λ h : Empty_set, match h with end; hook_points := λ h : Empty_set, match h with end;
  failure_mode := λ h : Empty_set, match h with end; hook_timeout := λ h : Empty_set, match h with end;
  execute := λ h : Empty_set, match h with end |}.
#[local] Existing Instance no_chat_hook.

(** A tool that needs approval and marks the world. *)
Definition mark_tool : Tool (World unit bool) unit := {|
  tool_name := λ _, "mark"; tool_description := λ _, "marks the world"; parameters_schema := λ _, LNull;
  requires_approval := λ _ _, ApprovalAlways; execution_timeout := λ _, default_execution_timeout;
  sensitive_params := λ _, ["token"]; rate_limit_config := λ _, None;
  tool_execute := λ _ _ _ w, (Build_World (w_manager w) (w_store w) (w_sent w) true, None) |}.
#[local] Existing Instance mark_tool.

Definition demo_deps : ChatDeps (St := unit) (X := bool) (H := Empty_set) (A := unit) := {|
  cx_safety := demo_safety; cx_hooks := []; cx_tools := λ _, {["mark" := tt]};
  cx_auto_approve_tools := false; cx_to_string_pretty := λ _, "" |}.

Definition demo_scope : ToolScope := {|
  ts_session := 0; ts_thread_id := 7%N; ts_message := incoming_new 3%N "web" "ann" "hello" 5%Z;
  ts_job_ctx := with_user 1%N 0%Z "ann" "chat" ""; ts_user_tz := "UTC" |}.

Definition demo_chat_turn (calls : list TurnToolCall) : Turn := set_tool_calls calls (turn_new 0 "hi" 0%Z).

Definition demo_chat_world (calls : list TurnToolCall) : World unit bool := {|
  w_manager := {|
    sm_sessions := {["ann" := 0]}; sm_thread_map := ∅; sm_undo_managers := ∅; sm_hooks := false;
    sm_heap := {[0 := with_threads {[7%N := set_turns [demo_chat_turn calls] (thread_with_id 7%N 1%N 0%Z)]}
                        (session_new 1%N "ann" 0%Z)]};
    sm_undo_heap := ∅; sm_next := 1; sm_fired := [] |};
  w_store := None; w_sent := []; w_rest := false |}.

Definition demo_tool_call (name : string) : ToolCall := {|
  tc_id := "call_1"; tc_name := name; tc_arguments := LNull |}.

Definition demo_ri : RoundInputs := {| ri_request_id := 9%N; ri_now := 5%Z; ri_orders := λ _, [] |}.

Definition demo_ctx : ReasoningContext := {|
  rc_messages := []; available_tools := []; job_description := None; current_state := None;
  rc_metadata := ∅; force_text := false; system_prompt := None |}.

Lemma only_cleared_tools_run_witness :
  w_rest (chat_execute_tool_calls demo_deps demo_scope [demo_tool_call "mark"; demo_tool_call "none"] None
            demo_ri demo_ctx ∅ (demo_chat_world [])).1.1.1 = false.
Proof.
  apply (only_cleared_tools_run demo_deps demo_scope (λ w, w_rest w = false) (demo_chat_world [])); [|reflexivity].
  split_and!.
  - intros s w Hw. exact Hw.
  - intros e w Hw. exact Hw.
  - intros t w Hw. unfold put_thread. by destruct (session_of _ w).
  - intros tc w [Hc|(w0 & w1 & _ & _ & Hc)] Hw; [discriminate Hc|]. unfold execute_chat_tool, execute_tool_with_safety. cbn [cx_tools demo_deps] in *.
    destruct (decide (tc_name tc = "mark")) as [E|E].
    + rewrite E in Hc. destruct Hc.
    + by rewrite lookup_singleton_ne.
Defined.

Definition first_call : TurnToolCall := {|
  ttc_name := "search"; ttc_parameters := LNull; ttc_result := Some (LString "found"); ttc_error := None |}.

Lemma later_round_misrecorded_witness :
  ∃ t' tn', thread_of 0 7%N (fold_into_context demo_scope 0 (demo_tool_call "none") "second" false demo_ctx
      (record_redacted_tool_calls demo_deps demo_scope [demo_tool_call "none"] (demo_chat_world [first_call]))).1
    = Some t' ∧ last (turns t') = Some tn' ∧
    (ttc_result <$> turn_tool_calls tn') = [Some (LString "second"); None].
Proof.
  destruct (later_round_misrecorded demo_deps demo_scope (demo_tool_call "none") "second" false demo_ctx
    (demo_chat_world [first_call]) (set_turns [demo_chat_turn [first_call]] (thread_with_id 7%N 1%N 0%Z))
    (demo_chat_turn [first_call]) first_call []) as (t' & tn' & H1 & H2 & H3).
  - reflexivity.
  - reflexivity.
  - reflexivity.
  - exists t', tn'. split; [exact H1|]. split; [exact H2|]. rewrite H3. reflexivity.
Defined.

Lemma hook_rewrite_keeps_secrets_witness :
  let tc := {| tc_id := "1"; tc_name := "mark"; tc_arguments := LObject [("token", LString "s3cret")] |} in
  json_get (redact_params (tc_arguments tc) ["token"]) "token" = Some (LString "[REDACTED]").
Proof.
  intros tc.
  apply (hook_rewrite_keeps_secrets tc ["token"] "{}" "token" (LString "s3cret")).
  - set_solver.
  - reflexivity.
Defined.
End Witnesses.
