(* ===== verification/ChatDelegate.v ===== *)
(** * The chat dispatcher

    Models [src/src/agent/dispatcher/delegate/loops.rs], the delegate with which
    the agentic loop runs a chat turn, and
    [src/src/agent/dispatcher/core.rs], which prepares the run and turns its
    outcome into the result of the turn.

    The delegate is an instance of the loop's class [LoopDelegate], so what is
    proved of the loop against the class holds of chat turns.  The reasoning
    engine ([respond_with_tools]), the prompt it builds and the registry's
    definitions of tools are parameters; the cost guard is part of the world. *)

From S2P Require Import Prelude Text Externals LlmTypes JobState JobManager Session Undo.
From S2P Require Import CostGuard Hooks Skills LeakDetector Safety Submission SessionManager.
From S2P Require Import MessageRebuild ToolExec JobTools Messages AgenticLoop Turns ChatTools.

(** ** Thresholds *)

Record LoopThresholds := { lt_nudge_at : nat; lt_force_text_at : nat; lt_hard_ceiling : nat }.

(** [saturating_add] on the 64 bits of [usize]. *)
Definition usize_max : nat := Z.to_nat (2 ^ 64 - 1).

Definition compute_loop_thresholds (max_tool_iterations : nat) : LoopThresholds :=
  let m := max max_tool_iterations 1 in
  {| lt_nudge_at := m - 1; lt_force_text_at := m; lt_hard_ceiling := min (m + 1) usize_max |}.

Section Delegate.
Context {J : SerdeJson} {T : UuidText} {D : RustDecimal}.
Context {R : RegexEngine} {C : AhoCorasick} {U : UnicodeCase}.
Context {St X H A : Type} {HH : Hook (World St (CostGuard * X)) H} {HT : Tool (World St (CostGuard * X)) A}.
Abbreviation W := (World St (CostGuard * X)).

Definition guard_of (w : W) : CostGuard := (w_rest w).1.
Definition set_guard (g : CostGuard) (w : W) : W := {|
  w_manager := w_manager w; w_store := w_store w; w_sent := w_sent w; w_rest := (g, (w_rest w).2) |}.

(** The reasoning engine and the provider it asks. *)
Record Reasoner := {
  rs_respond : ReasoningContext → W → W * result RespondOutput LlmError;
  rs_model : string;
  rs_read_discount : dec;
  rs_write_multiplier : dec;
  rs_rates : dec * dec;
  rs_error_display : LlmError → string;
}.

Record ChatDelegate := {
  cd_scope : ToolScope;
  cd_active_skills : list LoadedSkill;
  cd_cached_prompt : string;
  cd_cached_prompt_no_tools : string;
  cd_nudge_at : nat;
  cd_force_text_at : nat;
}.

Variable deps : ChatDeps (St := St) (X := CostGuard * X) (H := H) (A := A).
Variable tool_definitions : W → list ToolDefinition.
Variable reasoner : Reasoner.
Variable cd : ChatDelegate.
Abbreviation sc := (cd_scope cd).

(** [Error::Llm] *)
Definition llm_error (e : LlmError) : Error := EOther ("LLM error: " +:+ rs_error_display reasoner e).

(** What a run reads from clock, generator and scheduler: one entry per round
    of tools and per model call. *)
Record LoopInputs := {
  li_round : nat → RoundInputs;
  li_check : nat → Instant;
  li_done : nat → Instant;
  li_today : nat → Z;
}.
Variable li : LoopInputs.

(** The state of a run: the world, the outputs kept for later tools and the
    number of tool rounds so far. *)
Record DelegateState := { ds_world : W; ds_stash : gmap string string; ds_round : nat }.
Definition set_ds_world (w : W) (s : DelegateState) : DelegateState :=
  {| ds_world := w; ds_stash := ds_stash s; ds_round := ds_round s |}.

Definition chat_check_signals (s : DelegateState) : DelegateState * LoopSignal :=
  (s, match thread_of (ts_session sc) (ts_thread_id sc) (ds_world s) with
      | Some t => if bool_decide (th_state t = Interrupted) then SigStop else SigContinue
      | None => SigContinue
      end).

Definition LIMIT_NUDGE : string :=
  "You are approaching the tool call limit. Provide your best final answer on the next response using the information you have gathered so far. Do not call any more tools.".

Definition with_iteration (tools : list ToolDefinition) (prompt : string) (force : bool)
    (c : ReasoningContext) : ReasoningContext := {|
  rc_messages := rc_messages c; available_tools := tools; job_description := job_description c;
  current_state := current_state c; rc_metadata := rc_metadata c; force_text := force;
  system_prompt := Some prompt |}.

Definition chat_before_llm_call (s : DelegateState) (ctx : ReasoningContext) (iteration : nat) :
    DelegateState * ReasoningContext * option LoopOutcome :=
  let ctx := if iteration =? cd_nudge_at cd then push_message (msg_system LIMIT_NUDGE) ctx else ctx in
  let force := cd_force_text_at cd <=? iteration in
  let tools := at_tools (attenuate_tools (tool_definitions (ds_world s)) (cd_active_skills cd)) in
  let prompt := if force then cd_cached_prompt_no_tools cd else cd_cached_prompt cd in
  (set_ds_world (notify sc (Thinking "Calling LLM...") (ds_world s)) s,
   with_iteration tools prompt force ctx, None).

Definition set_messages (ms : list ChatMessage) (c : ReasoningContext) : ReasoningContext := {|
  rc_messages := ms; available_tools := available_tools c; job_description := job_description c;
  current_state := current_state c; rc_metadata := rc_metadata c; force_text := force_text c;
  system_prompt := system_prompt c |}.
Definition clear_tools (c : ReasoningContext) : ReasoningContext := {|
  rc_messages := rc_messages c; available_tools := []; job_description := job_description c;
  current_state := current_state c; rc_metadata := rc_metadata c; force_text := force_text c;
  system_prompt := system_prompt c |}.

(** The messages and tools for the second try. *)
Definition retry_context (c : ReasoningContext) : ReasoningContext :=
  let c := set_messages (compact_messages_for_retry (rc_messages c)) c in
  if force_text c then clear_tools c else c.

Definition usage_of (u : TokenUsage) : Usage := {|
  u_input := tu_input u; u_output := tu_output u; u_cache_read := tu_cache_read u;
  u_cache_creation := tu_cache_creation u; u_read_discount := rs_read_discount reasoner;
  u_write_multiplier := rs_write_multiplier reasoner; u_rates := Some (rs_rates reasoner) |}.

Definition record_usage (out : RespondOutput) (now : Instant) (today : Z) (w : W) : W :=
  set_guard (record_llm_call now today (rs_model reasoner) (usage_of (ro_usage out)) (guard_of w)).1 w.

Definition chat_call_llm (s : DelegateState) (ctx : ReasoningContext) (iteration : nat) :
    DelegateState * ReasoningContext * result RespondOutput Error :=
  let w := ds_world s in
  match cost_check_allowed (li_check li iteration) (guard_of w) with
  | (g, Err limit) =>
      (set_ds_world (set_guard g w) s, ctx,
       Err (llm_error (InvalidResponse "agent" (cost_limit_display limit))))
  | (g, Ok _) =>
      let '(w, ctx, output) :=
        match rs_respond reasoner ctx (set_guard g w) with
        | (w, Ok output) => (w, ctx, Ok output)
        | (w, Err (ContextLengthExceeded _ _)) =>
            let ctx := retry_context ctx in
            let '(w, r) := rs_respond reasoner ctx w in (w, ctx, r)
        | (w, Err e) => (w, ctx, Err e)
        end in
      match output with
      | Ok out => (set_ds_world (record_usage out (li_done li iteration) (li_today li iteration) w) s,
                   ctx, Ok out)
      | Err e => (set_ds_world w s, ctx, Err (llm_error e))
      end
  end.

Definition chat_handle_text_response (s : DelegateState) (text : string) (ctx : ReasoningContext) :
    DelegateState * ReasoningContext * TextAction :=
  (s, ctx, TextReturn (Response (strip_internal_tool_call_text text))).

Definition set_tool_output_stash (v : gmap string string) (c : JobContext) : JobContext := {|
  job_id := job_id c; state := state c; user_id := user_id c;
  conversation_id := conversation_id c; title := title c;
  description := description c; category := category c; budget := budget c;
  budget_token := budget_token c; bid_amount := bid_amount c;
  estimated_cost := estimated_cost c;
  estimated_duration := estimated_duration c; actual_cost := actual_cost c;
  total_tokens_used := total_tokens_used c; max_tokens := max_tokens c;
  created_at := created_at c; started_at := started_at c;
  completed_at := completed_at c; repair_attempts := repair_attempts c;
  transitions := transitions c; metadata := metadata c;
  extra_env := extra_env c; http_interceptor := http_interceptor c;
  tool_output_stash := v; user_timezone := user_timezone c |}.

(** The tools of a round see the outputs stashed by the rounds before. *)
Definition scope_with_stash (stash : gmap string string) : ToolScope := {|
  ts_session := ts_session sc; ts_thread_id := ts_thread_id sc; ts_message := ts_message sc;
  ts_job_ctx := set_tool_output_stash stash (ts_job_ctx sc); ts_user_tz := ts_user_tz sc |}.

Definition chat_delegate_execute (s : DelegateState) (calls : list ToolCall) (content : option string)
    (ctx : ReasoningContext) : DelegateState * ReasoningContext * result (option LoopOutcome) Error :=
  let '(w, ctx, stash, out) :=
    chat_execute_tool_calls deps (scope_with_stash (ds_stash s)) calls content (li_round li (ds_round s))
      ctx (ds_stash s) (ds_world s) in
  ({| ds_world := w; ds_stash := stash; ds_round := S (ds_round s) |}, ctx, Ok out).

(** [on_tool_intent_nudge] and [after_iteration] are the trait's defaults. *)
#[local] Instance chat_delegate : LoopDelegate DelegateState Error := {|
  check_signals := chat_check_signals;
  before_llm_call := chat_before_llm_call;
  delegate_call_llm := chat_call_llm;
  handle_text_response := chat_handle_text_response;
  execute_tool_calls := chat_delegate_execute;
  on_tool_intent_nudge := λ s _ ctx, (s, ctx);
  after_iteration := λ s _, s |}.

(** ** The run *)

Definition loop_config (max_tool_iterations : nat) : AgenticLoopConfig := {|
  max_iterations := lt_hard_ceiling (compute_loop_thresholds max_tool_iterations);
  enable_tool_intent_nudge := true; max_tool_intent_nudges := 2 |}.

Definition initial_context (messages : list ChatMessage) (tools : list ToolDefinition) : ReasoningContext := {|
  rc_messages := messages; available_tools := tools; job_description := None; current_state := None;
  rc_metadata := {["thread_id" := uuid_to_string (ts_thread_id sc)]}; force_text := false;
  system_prompt := Some (cd_cached_prompt cd) |}.

Definition loop_result (max_tool_iterations : nat) (out : result LoopOutcome Error) :
    result AgenticLoopResult Error :=
  match out with
  | Ok (Response text) => Ok (LoopResponse text)
  | Ok Stopped => Err (EJob (ContextError (ts_thread_id sc) "Interrupted"))
  | Ok MaxIterations =>
      Err (llm_error (InvalidResponse "agent"
             ("Exceeded maximum tool iterations (" +:+ pretty max_tool_iterations +:+ ")")))
  | Ok (AgenticLoop.NeedApproval pending) => Ok (LoopNeedApproval pending)
  | Err e => Err e
  end.

Definition chat_run_agentic_loop (max_tool_iterations : nat) (messages : list ChatMessage) (w : W) :
    W * result AgenticLoopResult Error :=
  let tools := at_tools (attenuate_tools (tool_definitions w) (cd_active_skills cd)) in
  let '(s, _, out) :=
    run_agentic_loop (loop_config max_tool_iterations)
      {| ds_world := w; ds_stash := ∅; ds_round := 0 |} (initial_context messages tools) in
  (ds_world s, loop_result max_tool_iterations out).

(** ** Properties *)

(** A chat turn ends.  The delegate is called for the model in the iterations
    1, 2, ... in order, at most one more time than the tool iterations allowed (at
    least two times in all; a call may ask the model twice, when the context is too
    long), and the answer of the turn is that of the first event that ends the run,
    or the error that the iterations were used up. *)
Theorem chat_turn_bounded (max_tool_iterations : nat) (messages : list ChatMessage) (w : W) :
  ∃ s evs ctx out calls dones,
    run_agentic_loop (LoopDelegate0 := traced) (loop_config max_tool_iterations)
      ({| ds_world := w; ds_stash := ∅; ds_round := 0 |}, [])
      (initial_context messages (at_tools (attenuate_tools (tool_definitions w) (cd_active_skills cd)))) =
      (s, evs, ctx, out) ∧
    chat_run_agentic_loop max_tool_iterations messages w = (ds_world s, loop_result max_tool_iterations out) ∧
    llm_calls evs = seq 1 calls ∧ completed evs = seq 1 dones ∧ dones ≤ calls ≤ S dones ∧
    calls ≤ max max_tool_iterations 1 + 1 ∧
    (out = Ok MaxIterations ∨ ∃ e, last evs = Some e ∧ exit_of e = Some out).
Proof.
  unfold chat_run_agentic_loop, run_agentic_loop.
  set (ctx0 := initial_context _ _). set (s0 := {| ds_world := w |}).
  destruct (loop_from (LoopDelegate0 := traced) (loop_config max_tool_iterations) _ 0 (s0, []) ctx0)
    as [[[s evs] ctx] out] eqn:Hrun.
  pose proof (loop_from_erase (loop_config max_tool_iterations)
    (seq 1 (max_iterations (loop_config max_tool_iterations))) 0 s0 [] ctx0) as Herase.
  rewrite Hrun in Herase. unfold untrace in Herase. cbn [fst snd] in Herase.
  apply loop_from_events in Hrun as (evs' & -> & _ & calls & dones & Hl & Hc & Hd & Hle & Hout);
    [|done|unfold nudge_limit; simpl; lia].
  exists s, evs', ctx, out, calls, dones. rewrite app_nil_l. split; [done|]. split.
  { rewrite <-Herase. done. }
  split_and!; try done; try lia.
  - etrans; [exact Hle|]. cbn [max_iterations loop_config compute_loop_thresholds lt_hard_ceiling]. lia.
  - destruct Hout as [(_ & -> & _)|(_ & evs0 & e & -> & _ & He)]; [by left|right].
    exists e. by rewrite last_snoc.
Qed.

(** The model is asked only for a thread that is not interrupted and within the
    budget.  An iteration for an interrupted thread stops at once and changes
    nothing; one that the cost guard refuses ends the run with the guard's
    reason, without asking the model and without touching sessions or store. *)
Theorem chat_iteration_gates (config : AgenticLoopConfig) (i : nat) (nudges : Z) (s : DelegateState)
    (ctx : ReasoningContext) :
  let interrupted := match thread_of (ts_session sc) (ts_thread_id sc) (ds_world s) with
                     | Some t => bool_decide (th_state t = Interrupted)
                     | None => false
                     end in
  (interrupted = true → loop_iteration config i nudges s ctx = (s, ctx, inr (Ok Stopped))) ∧
  (∀ g limit, interrupted = false →
     cost_check_allowed (li_check li i) (guard_of (ds_world s)) = (g, Err limit) →
     ∃ ctx', loop_iteration config i nudges s ctx =
       (set_ds_world (set_guard g (notify sc (Thinking "Calling LLM...") (ds_world s))) s, ctx',
        inr (Err (llm_error (InvalidResponse "agent" (cost_limit_display limit)))))).
Proof.
  intros interrupted. unfold loop_iteration, check_signals, chat_delegate, chat_check_signals.
  subst interrupted. destruct (thread_of _ _ (ds_world s)) as [t|].
  - case_bool_decide; (split; [done|]); intros g limit ? Hg; [done|].
    unfold iteration_body. simpl. unfold chat_call_llm. simpl.
    unfold guard_of in Hg. unfold guard_of. simpl. rewrite Hg. by eexists.
  - split; [done|]. intros g limit _ Hg. unfold iteration_body. simpl. unfold chat_call_llm. simpl.
    unfold guard_of in Hg. unfold guard_of. simpl. rewrite Hg. by eexists.
Qed.

(** ** What the model was offered is not enforced *)

Definition offer (tools : list ToolDefinition) (c : ReasoningContext) : ReasoningContext := {|
  rc_messages := rc_messages c; available_tools := tools; job_description := job_description c;
  current_state := current_state c; rc_metadata := rc_metadata c; force_text := force_text c;
  system_prompt := system_prompt c |}.

Lemma runnable_ignores_offer scope tools idx tc r now ctx stash w :
  process_runnable_tool deps scope idx tc r now (offer tools ctx) stash w =
  let '(w, ctx, stash, o) := process_runnable_tool deps scope idx tc r now ctx stash w in
  (w, offer tools ctx, stash, o).
Proof.
  unfold process_runnable_tool, fold_into_context. destruct r as [output|e].
  - destruct (maybe_emit_image_sentinel _ _ _ w) as [w1 img]. destruct (sanitize_output _ _ _) as [p c].
    by destruct (handle_auth_barrier _ _ _ _ _) as [w2 i].
  - by destruct (sanitize_output _ _ _) as [p c].
Qed.

Lemma postflight_ignores_offer scope tools idx pf slots now ctx stash w :
  run_postflight_from deps scope idx pf slots now (offer tools ctx) stash w =
  let '(w, ctx, stash, o) := run_postflight_from deps scope idx pf slots now ctx stash w in
  (w, offer tools ctx, stash, o).
Proof.
  revert idx ctx stash w. induction pf as [|[tc [msg|]] pf IH]; intros idx ctx stash w; [done|..];
    cbn [run_postflight_from].
  - unfold handle_rejected_tool, fold_into_context. exact (IH _ (push_message _ ctx) _ _).
  - rewrite runnable_ignores_offer.
    destruct (process_runnable_tool deps scope idx tc _ now ctx stash w) as [[[w1 c1] s1] [i|]]; [done|].
    apply IH.
Qed.

(** The tools offered to the model, which active skills restrict, have no effect
    on the calls that are executed: a call of a tool that was withheld is
    handled like any other. *)
Lemma offer_not_enforced scope tools calls text ri ctx stash w :
  chat_execute_tool_calls deps scope calls text ri (offer tools ctx) stash w =
  let '(w, ctx, stash, o) := chat_execute_tool_calls deps scope calls text ri ctx stash w in
  (w, offer tools ctx, stash, o).
Proof.
  unfold chat_execute_tool_calls. destruct (group_tool_calls deps scope calls w) as [w1 [b ap]].
  destruct (run_phase2 _ _ _ _ _ _) as [w2 slots].
  set (m := assistant_with_tool_calls text (effective_calls b ap)).
  change (push_message m (offer tools ctx)) with (offer tools (push_message m ctx)).
  rewrite postflight_ignores_offer.
  destruct (run_postflight_from deps scope 0 (tb_preflight b) slots (ri_now ri) (push_message m ctx) stash w2)
    as [[[w3 c3] s3] [i|]]; [done|]. by destruct ap.
Qed.
End Delegate.

(** The documented order of the thresholds, and where it fails: with at most one
    tool iteration the nudge is due at iteration 0, which does not occur. *)
Lemma thresholds_ordered n :
  lt_nudge_at (compute_loop_thresholds n) ≤ lt_force_text_at (compute_loop_thresholds n) ∧
  (max n 1 < usize_max → lt_force_text_at (compute_loop_thresholds n) < lt_hard_ceiling (compute_loop_thresholds n)) ∧
  (lt_nudge_at (compute_loop_thresholds n) = 0 ↔ n ≤ 1).
Proof.
  unfold compute_loop_thresholds. cbn [lt_nudge_at lt_force_text_at lt_hard_ceiling].
  generalize usize_max. intros m. lia.
Qed.
