(* ===== verification/ThreadControl.v ===== *)
(** * Thread commands and hydration

    Models [src/src/agent/thread_ops/control.rs] (undo, redo, resume,
    interrupt, compact, clear, new thread, switch) and
    [src/src/agent/thread_ops/hydration.rs] over the world of [Turns].  These
    handlers release the session's lock between their steps; [others n] is
    whatever other tasks do to the world at the [n]th such point. *)

From S2P Require Import Prelude Text Externals LlmTypes JobState JobManager Session Undo Hooks.
From S2P Require Import LeakDetector Safety Submission SessionManager MessageRebuild.
From S2P Require Import Compaction ToolExec Messages Turns.

Inductive RewindOp := RewindUndo | RewindRedo.

Section Control.
Context {J : SerdeJson} {T : UuidText} {R : RegexEngine} {C : AhoCorasick} {U : UnicodeCase}.
Context {St X H : Type} {CS : ConversationStore St} {HH : Hook (World St X) H}.
Abbreviation W := (World St X).
Variable others : nat → W → W.

Definition availability_message (mgr : UndoManager) (op : RewindOp) : option string :=
  match op with
  | RewindUndo => if negb (can_undo mgr) then Some "Nothing to undo." else None
  | RewindRedo => if negb (can_redo mgr) then Some "Nothing to redo." else None
  end.

Definition failure_msg (op : RewindOp) : string :=
  match op with RewindUndo => "Undo failed." | RewindRedo => "Redo failed." end.

Definition success_msg (op : RewindOp) (turn undo_count : nat) : string :=
  match op with
  | RewindUndo => "Undone to turn " +:+ pretty turn +:+ "." +:+ newline +:+ pretty undo_count
                    +:+ " undo(s) remaining."
  | RewindRedo => "Redone to turn " +:+ pretty turn +:+ "."
  end.

Definition perform_rewind (mgr : UndoManager) (op : RewindOp) (fresh : Uuid) (turn : nat)
    (messages : list ChatMessage) : UndoManager * option Checkpoint :=
  match op with
  | RewindUndo => undo mgr fresh turn messages
  | RewindRedo => redo mgr fresh turn messages
  end.

Definition restored_thread (t : Thread) (messages : list ChatMessage) (io : Io) : Thread :=
  let t := restore_from_messages t messages (io_turn_clock io) (io_now io 0) in
  th_update t (th_state t) (turns t) (pending_approval t) (pending_auth t) (io_now io 1).

Definition restore_thread_from_checkpoint (a : Arc) (id : Uuid) (messages : list ChatMessage)
    (io : Io) (w : W) : W * result unit Error :=
  match thread_of a id w with
  | None => (w, Err (not_found id))
  | Some t => (put_thread a id (restored_thread t messages io) w, Ok tt)
  end.

Definition process_rewind (a : Arc) (id : Uuid) (op : RewindOp) (io : Io) (w : W) :
    W * result SubmissionResult Error :=
  match thread_of a id w with
  | None => (w, Err (not_found id))
  | Some t =>
      let turn := thread_turn_number t in
      let messages := thread_messages t in
      let '(w, (u, mgr)) := lock_undo_manager id (others 0 w) in
      match availability_message mgr op with
      | Some msg => (w, Ok (SubOk (Some msg)))
      | None =>
          match perform_rewind mgr op (io_uuid io 0) turn messages with
          | (mgr, None) => (put_undo u mgr w, Ok (SubError (failure_msg op)))
          | (mgr, Some cp) =>
              let msg := success_msg op (cp_turn_number cp) (undo_count mgr) in
              let w := others 1 (put_undo u mgr w) in
              match restore_thread_from_checkpoint a id (cp_messages cp) io w with
              | (w, Err e) => (w, Err e)
              | (w, Ok _) => (w, Ok (SubOk (Some msg)))
              end
          end
      end
  end.

Definition process_undo (a : Arc) (id : Uuid) (io : Io) (w : W) := process_rewind a id RewindUndo io w.
Definition process_redo (a : Arc) (id : Uuid) (io : Io) (w : W) := process_rewind a id RewindRedo io w.

Definition process_interrupt (a : Arc) (id : Uuid) (io : Io) (w : W) :
    W * result SubmissionResult Error :=
  match thread_of a id w with
  | None => (w, Err (not_found id))
  | Some t =>
      match th_state t with
      | Processing | AwaitingApproval =>
          (put_thread a id (thread_interrupt t (io_now io 0) (io_now io 1)) w,
           Ok (SubOk (Some "Interrupted.")))
      | _ => (w, Ok (SubOk (Some "Nothing to interrupt.")))
      end
  end.

(** The model and the workspace may be asked while the snapshot is compacted:
    those calls are steps of the world too.  [percent] prints a usage with one
    decimal. *)
Definition process_compact (ag : Agent (St := St) (X := X) (H := H)) (percent : nat → nat → string) (a : Arc) (id : Uuid) (io : Io)
    (w : W) : W * result SubmissionResult Error :=
  match thread_of a id w with
  | None => (w, Err (not_found id))
  | Some original =>
      let messages := thread_messages original in
      let usage := percent (estimate_tokens messages) (context_limit (ag_context_monitor ag)) in
      let strategy := default (Summarize 5) (suggest_compaction (ag_context_monitor ag) messages) in
      let '(w, (snapshot, r)) :=
        compact (ag_complete ag) (ag_append ag) original strategy (ag_workspace ag) (io_text io) w in
      match r with
      | Err e => (w, Ok (SubError ("Compaction failed: " +:+ error_display e)))
      | Ok res =>
          match thread_of a id w with
          | None => (w, Err (not_found id))
          | Some t =>
              if bool_decide (th_updated_at t ≠ th_updated_at original) ||
                 bool_decide (length (turns t) ≠ length (turns original))
              then (w, Ok (SubError "Thread changed while compaction was running. Please retry."))
              else
                let t := th_update t (th_state t) (turns snapshot) (pending_approval t)
                           (pending_auth t) (io_now io 0) in
                let msg := "Compacted: " +:+ pretty (cr_turns_removed res) +:+ " turns removed, "
                  +:+ pretty (cr_tokens_before res) +:+ " → " +:+ pretty (cr_tokens_after res)
                  +:+ " tokens (was " +:+ usage +:+ "% full)" in
                let msg := if cr_summary_written res
                           then msg +:+ ", summary saved to workspace" else msg in
                (put_thread a id t w, Ok (SubOk (Some msg)))
          end
      end
  end.

Definition cleared_thread (t : Thread) (now : Utc) : Thread := {|
  th_id := th_id t; th_session_id := th_session_id t; th_state := Idle; turns := [];
  th_created_at := th_created_at t; th_updated_at := now; th_metadata := th_metadata t;
  pending_approval := None; pending_auth := None; in_flight_auth := false |}.

Definition process_clear (a : Arc) (id : Uuid) (io : Io) (w : W) :
    W * result SubmissionResult Error :=
  match thread_of a id w with
  | None => (w, Err (not_found id))
  | Some t =>
      let w := others 0 (put_thread a id (cleared_thread t (io_now io 0)) w) in
      let '(w, (u, mgr)) := lock_undo_manager id w in
      (put_undo u (undo_clear mgr) w, Ok (SubOk (Some "Thread cleared.")))
  end.

(** [get_or_create_session].  The pointer it returns is never dangling, so the
    branches below for a missing session are not reached. *)
Definition lock_session (user : string) (i : Inputs) (w : W) : W * Arc :=
  let '(m, a) := get_or_create_session user i (w_manager w) in (set_w_manager m w, a).

Definition process_new_thread (message : IncomingMessage) (i : Inputs) (w : W) :
    W * result SubmissionResult Error :=
  let '(w, a) := lock_session (im_user_id message) i w in
  let w := others 0 w in
  match session_of a w with
  | Some s =>
      let '(s, id) := create_thread s (in_thread_id i) (in_now1 i) (in_now2 i) in
      (put_session a s w, Ok (SubOk (Some ("New thread: " +:+ uuid_to_string id))))
  | None => (w, Ok (SubError ""))
  end.

Definition process_switch_thread (message : IncomingMessage) (target : Uuid) (i : Inputs) (w : W) :
    W * result SubmissionResult Error :=
  let '(w, a) := lock_session (im_user_id message) i w in
  let w := others 0 w in
  match session_of a w with
  | Some s =>
      let '(s, found) := switch_thread s target (in_now1 i) in
      (put_session a s w,
       Ok (if found then SubOk (Some ("Switched to thread " +:+ uuid_to_string target))
           else SubError "Thread not found."))
  | None => (w, Ok (SubError ""))
  end.

Definition process_resume (a : Arc) (id checkpoint_id : Uuid) (io : Io) (w : W) :
    W * result SubmissionResult Error :=
  match thread_of a id w with
  | None => (w, Err (not_found id))
  | Some original =>
      let '(w, (u, mgr)) := lock_undo_manager id (others 0 w) in
      match restore mgr checkpoint_id with
      | (mgr, None) => (put_undo u mgr w, Ok (SubError "Checkpoint not found."))
      | (mgr, Some cp) =>
          let w := others 1 (put_undo u mgr w) in
          match thread_of a id w with
          | None => (w, Err (not_found id))
          | Some t =>
              if bool_decide (th_updated_at t ≠ th_updated_at original) ||
                 bool_decide (length (turns t) ≠ length (turns original))
              then (w, Ok (SubError "Thread changed while resume was running. Please retry."))
              else (put_thread a id (restored_thread t (cp_messages cp) io) w,
                    Ok (SubOk (Some ("Resumed from checkpoint: " +:+ cp_description cp))))
          end
      end
  end.

(** ** Hydration *)

(** The rows of the conversation, as messages. *)
Definition load_history (ag : Agent (St := St) (X := X) (H := H)) (id : Uuid) (message : IncomingMessage) (w : W) :
    result (list ChatMessage) Error :=
  match w_store w with
  | None => Ok []
  | Some store =>
      match list_conversation_messages_scoped id (im_user_id message) (im_channel message) store with
      | Err e => Err (EDatabase e)
      | Ok rows => Ok (rebuild_chat_messages_from_db (ag_safety ag) rows)
      end
  end.

Definition hydrated_thread (id session_id : Uuid) (messages : list ChatMessage) (io : Io) : Thread :=
  let t := thread_with_id id session_id (io_now io 0) in
  match messages with
  | [] => t
  | _ :: _ => restore_from_messages t messages (io_turn_clock io) (io_now io 1)
  end.

Definition activate_thread (id : Uuid) (t : Thread) (now : Utc) (s : Session) : Session :=
  s_update s (Some id) (<[id := t]> (threads s)) now (auto_approved_tools s).

Definition maybe_hydrate_thread (ag : Agent (St := St) (X := X) (H := H)) (message : IncomingMessage) (external : string)
    (i : Inputs) (io : Io) (w : W) : W * result unit Error :=
  match uuid_parse_str external with
  | None => (w, Ok tt)
  | Some id =>
      let '(w, a) := lock_session (im_user_id message) i w in
      let w := others 0 w in
      if has_thread (w_manager w) a id then (w, Ok tt)
      else
        let w := others 1 w in
        match load_history ag id message w with
        | Err e => (w, Err e)
        | Ok messages =>
            let w := others 2 w in
            match session_of a w with
            | None => (w, Ok tt)
            | Some s0 =>
                let t := hydrated_thread id (s_id s0) messages io in
                let w := others 3 w in
                match session_of a w with
                | None => (w, Ok tt)
                | Some s =>
                    if has_thread (w_manager w) a id then (w, Ok tt)
                    else
                      let w := others 4 (put_session a (activate_thread id t (io_now io 2) s) w) in
                      (set_w_manager (register_thread (im_user_id message) (im_channel message) id a
                                        (w_manager w)) w, Ok tt)
                end
            end
        end
  end.

Definition message_key (message : IncomingMessage) : ThreadKey := {|
  tk_user_id := im_user_id message; tk_channel := im_channel message;
  tk_external_thread_id := im_thread_id message |}.

(** Resolving ends in a session and a thread ([SessionManager.resolve_thread]);
    the value for no answer is not reached. *)
Definition hydrate_and_resolve_session_thread (ag : Agent (St := St) (X := X) (H := H)) (message : IncomingMessage) (i j : Inputs)
    (io : Io) (w : W) : W * result (Arc * Uuid) Error :=
  let '(w, r) :=
    match im_thread_id message with
    | Some external => maybe_hydrate_thread ag message external i io w
    | None => (w, Ok tt)
    end in
  match r with
  | Err e => (w, Err e)
  | Ok _ =>
      let w := others 5 w in
      let '(m, resolved) := resolve_thread (message_key message) j (w_manager w) in
      (set_w_manager m w,
       match resolved with Some x => Ok x | None => Err (EOther "unresolved") end)
  end.

(** ** Undo and redo of a turn *)

(** Other tasks leave the session manager alone. *)
Hypothesis others_quiet : ∀ n w, w_manager (others n w) = w_manager w.

Lemma others_thread n a id w : thread_of a id (others n w) = thread_of a id w.
Proof. apply thread_of_heap. by rewrite others_quiet. Qed.

Lemma others_undo n id w : thread_undo id (others n w) = thread_undo id w.
Proof. unfold thread_undo, lock_undo_manager. rewrite others_quiet. by destruct (get_undo_manager _ _). Qed.

Lemma undo_put_thread id a id' t (w : W) : thread_undo id (put_thread a id' t w) = thread_undo id w.
Proof.
  unfold put_thread. destruct (session_of a w) as [s|]; [|done].
  unfold thread_undo, lock_undo_manager, get_undo_manager, undo_of. simpl.
  by destruct (sm_undo_managers (w_manager w) !! id).
Qed.

Lemma rewind_available mgr op fresh n msgs mgr' cp :
  perform_rewind mgr op fresh n msgs = (mgr', Some cp) → availability_message mgr op = None.
Proof.
  destruct op; cbn [perform_rewind availability_message].
  - unfold undo, can_undo. by destruct (undo_stack mgr).
  - unfold redo, can_redo. by destruct (redo_stack mgr).
Qed.

(** A rewind that finds a checkpoint restores it into the thread. *)
Lemma rewind_restores a id op io w t mgr' cp :
  thread_of a id w = Some t →
  perform_rewind (thread_undo id w) op (io_uuid io 0) (thread_turn_number t) (thread_messages t) =
    (mgr', Some cp) →
  ∃ w', process_rewind a id op io w =
      (w', Ok (SubOk (Some (success_msg op (cp_turn_number cp) (undo_count mgr'))))) ∧
    thread_of a id w' = Some (restored_thread t (cp_messages cp) io) ∧ thread_undo id w' = mgr'.
Proof.
  intros Ht Hp. unfold process_rewind. rewrite Ht.
  pose proof (lock_undo_manager_spec id (others 0 w)) as Hlock.
  destruct (lock_undo_manager id (others 0 w)) as [w1 [u mgr]].
  destruct Hlock as (-> & _ & _ & _ & Hh & Hput). rewrite others_undo in *.
  rewrite (rewind_available _ _ _ _ _ _ _ Hp), Hp. unfold restore_thread_from_checkpoint.
  assert (thread_of a id (others 1 (put_undo u mgr' w1)) = Some t) as Ht2.
  { rewrite others_thread. rewrite <-Ht, <-(others_thread 0 a id w). by apply thread_of_heap. }
  rewrite Ht2. eexists. split; [done|]. split; [by eapply thread_of_put|].
  by rewrite undo_put_thread, others_undo, Hput.
Qed.

Lemma checkpoint_before_turn_spec a id io (w : W) t :
  thread_of a id w = Some t →
  ∃ w', checkpoint_before_turn a id io w = (w', Ok tt) ∧ thread_of a id w' = Some t ∧
    thread_undo id w' = checkpoint (thread_undo id w) (io_uuid io 0) (thread_turn_number t)
      (thread_messages t) ("Before turn " +:+ pretty (thread_turn_number t)).
Proof.
  intros Ht. unfold checkpoint_before_turn.
  pose proof (lock_undo_manager_spec id w) as Hlock.
  destruct (lock_undo_manager id w) as [w1 [u mgr]]. destruct Hlock as (-> & _ & _ & _ & Hh & Hput).
  rewrite (thread_of_heap _ _ _ _ Hh), Ht. eexists. split; [done|]. split; [|apply Hput].
  rewrite <-Ht. by apply thread_of_heap.
Qed.

Lemma restored_messages t t' io :
  well_numbered (turns t) → Forall replayable (turns t) →
  thread_messages (restored_thread t' (thread_messages t) io) = thread_messages t.
Proof.
  intros Hw HF. rewrite (thread_messages_concat t) at 2. rewrite thread_messages_concat. f_equal.
  cbn [turns restored_thread th_update]. rewrite (thread_messages_concat t), turns_restore.
  apply fmap_restored. intros i c tn Hi. apply turn_block_restored; [by apply Hw|].
  rewrite Forall_lookup in HF. eauto.
Qed.

Lemma undo_after_checkpoint m fresh n msgs desc fresh' n' msgs' :
  undo_inv m →
  ∃ m', undo (checkpoint m fresh n msgs desc) fresh' n' msgs' =
      (m', Some (checkpoint_new fresh n msgs desc)) ∧ undo_inv m' ∧
    redo_stack m' = [checkpoint_new fresh' n' msgs' ("Turn " +:+ pretty n')].
Proof.
  intros Hinv. pose proof (checkpoint_inv m fresh n msgs desc Hinv) as Hinv'.
  destruct (undo_cases (checkpoint m fresh n msgs desc) fresh' n' msgs') as [[He _]|(l & cp & He & ->)];
    simpl in He; rewrite trim_front_last_n in He.
  - apply (f_equal length) in He. rewrite length_last_n, length_app in He. simpl in He.
    destruct Hinv as [Hmax _]. rewrite Hmax in He. unfold DEFAULT_MAX_CHECKPOINTS in He. lia.
  - assert (cp = checkpoint_new fresh n msgs desc) as ->.
    { apply (f_equal last) in He. rewrite last_snoc in He.
      assert (∃ k, last_n (max_checkpoints m) (undo_stack m ++ [checkpoint_new fresh n msgs desc]) =
        k ++ [checkpoint_new fresh n msgs desc]) as [k Hk].
      { unfold last_n. rewrite length_app. simpl. rewrite drop_app_le; [by eexists|].
        destruct Hinv as [Hmax _]. rewrite Hmax. unfold DEFAULT_MAX_CHECKPOINTS. lia. }
      rewrite Hk, last_snoc in He. by simplify_eq. }
    eexists. split; [done|]. split; [|done]. destruct Hinv' as [Hmax Hn]. split; [done|].
    unfold undo_count, redo_count in *. simpl in *. rewrite trim_front_last_n, He, length_app in Hn.
    simpl in *. lia.
Qed.

Lemma redo_after_undo m cp fresh n msgs :
  undo_inv m → redo_stack m = [cp] →
  ∃ m', redo m fresh n msgs = (m', Some cp).
Proof.
  intros Hinv Hr. destruct (redo_cases m fresh n msgs Hinv) as [[He _]|(l & cp' & He & ->)].
  - congruence.
  - rewrite Hr in He. apply (app_inj_tail [] l) in He as [_ ->]. eauto.
Qed.

(** C37. Undo after a turn.  Whatever the turn did to the thread since its
    checkpoint, [/undo] gives the conversation before the turn back and frees
    the thread, and [/redo] then gives back the conversation as the turn left
    it.  Turns with images or with tool results over the preview limit are
    rebuilt without them, so the messages are compared for the others. *)
Theorem undo_redo_turn (a : Arc) (id : Uuid) (io1 io2 io3 : Io) (w w1 w2 : W) (t t2 : Thread)
    (Ht : thread_of a id w = Some t) (Hinv : undo_inv (thread_undo id w))
    (Hcheck : checkpoint_before_turn a id io1 w = (w1, Ok tt))
    (Ht2 : thread_of a id w2 = Some t2) (Hundo : thread_undo id w2 = thread_undo id w1)
    (Hw : well_numbered (turns t)) (Hr : Forall replayable (turns t))
    (Hw2 : well_numbered (turns t2)) (Hr2 : Forall replayable (turns t2)) :
  ∃ w3 t3 w4 t4 msg msg',
    process_undo a id io2 w2 = (w3, Ok (SubOk (Some msg))) ∧ thread_of a id w3 = Some t3 ∧
    th_state t3 = Idle ∧ thread_messages t3 = thread_messages t ∧
    process_redo a id io3 w3 = (w4, Ok (SubOk (Some msg'))) ∧ thread_of a id w4 = Some t4 ∧
    th_state t4 = Idle ∧ thread_messages t4 = thread_messages t2.
Proof.
  destruct (checkpoint_before_turn_spec a id io1 w t Ht) as (w1' & E & _ & Hu1).
  assert (w1' = w1) as -> by congruence. rewrite Hu1 in Hundo.
  destruct (undo_after_checkpoint (thread_undo id w) (io_uuid io1 0) (thread_turn_number t)
    (thread_messages t) ("Before turn " +:+ pretty (thread_turn_number t))
    (io_uuid io2 0) (thread_turn_number t2) (thread_messages t2) Hinv) as (m' & Hp & Hinv' & Hredo).
  rewrite <-Hundo in Hp.
  destruct (rewind_restores a id RewindUndo io2 w2 t2 _ _ Ht2 Hp) as (w3 & Hs3 & Ht3 & Hu3).
  rewrite <-Hu3 in Hinv', Hredo.
  destruct (redo_after_undo _ _ (io_uuid io3 0)
    (thread_turn_number (restored_thread t2 (thread_messages t) io2))
    (thread_messages (restored_thread t2 (thread_messages t) io2)) Hinv' Hredo) as (m'' & Hp').
  destruct (rewind_restores a id RewindRedo io3 w3 _ _ _ Ht3 Hp') as (w4 & Hs4 & Ht4 & _).
  do 6 eexists. split_and!; [exact Hs3|exact Ht3|done|by apply restored_messages
    |exact Hs4|exact Ht4|done|by apply restored_messages].
Qed.

(** ** Interrupting *)

(** What the preparation of a turn adds to the messages of the thread. *)
Lemma start_turn_messages t content parts n1 n2 :
  thread_messages (set_turns (alter_last (set_image_parts parts) (turns (start_turn t content n1 n2)))
                     (start_turn t content n1 n2)) =
  thread_messages t ++ [turn_user_message (set_image_parts parts (turn_new (length (turns t)) content n1))].
Proof.
  rewrite !thread_messages_concat. cbn [turns start_turn set_turns th_update].
  unfold alter_last. rewrite last_snoc, length_app. simpl. rewrite Nat.add_sub, take_app_length.
  rewrite fmap_app, join_app. done.
Qed.

(** Interrupting frees a busy thread.  A thread that is processing or waiting
    for approval accepts input again right after [/interrupt]: text that the
    safety layer lets pass starts a turn whose messages are those of the thread
    followed by the text.  As long as no such turn has been started, the result of
    the interrupted run of the loop changes nothing but the status shown. *)
Theorem interrupt_releases_thread (ag : Agent) (message : IncomingMessage) (req : UserTurnRequest)
    (io io' : Io) (w : W) (t : Thread)
    (Ht : thread_of (ut_session req) (ut_thread_id req) w = Some t)
    (Hbusy : th_state t = Processing ∨ th_state t = AwaitingApproval)
    (Hsafe : validate_safety (ag_safety ag) (effective_content ag message (ut_content req)).1 = None) :
  let w' := (process_interrupt (ut_session req) (ut_thread_id req) io w).1 in
  check_thread_state (ut_session req) (ut_thread_id req) w' = Ok None ∧
  (∃ w'' messages user_message,
     prepare_turn ag message req io' w' = (w'', Ok (Prepared (messages ++ [user_message]))) ∧
     (∃ t', thread_of (ut_session req) (ut_thread_id req) w' = Some t' ∧ messages = thread_messages t') ∧
     role user_message = User ∧
     content user_message = (effective_content ag message (ut_content req)).1) ∧
  (∀ res, handle_loop_result ag message (ut_session req) (ut_thread_id req) res io' w' =
     (send_status (im_channel message) (Status "Interrupted") w', Ok SubInterrupted)).
Proof.
  assert ((process_interrupt (ut_session req) (ut_thread_id req) io w).1 =
    put_thread (ut_session req) (ut_thread_id req) (thread_interrupt t (io_now io 0) (io_now io 1)) w) as ->.
  { unfold process_interrupt. rewrite Ht. by destruct Hbusy as [-> | ->]. }
  intros w'. pose proof (thread_of_put _ _ (thread_interrupt t (io_now io 0) (io_now io 1)) _ _ Ht) as Hw'.
  fold w' in Hw'. split_and!.
  - unfold check_thread_state. by rewrite Hw'.
  - unfold prepare_turn. destruct (effective_content ag message (ut_content req)) as [text parts].
    simpl in Hsafe. rewrite Hsafe, Hw'. cbn [th_state thread_interrupt th_update thread_state_submission_result].
    rewrite start_turn_messages. do 3 eexists. split_and!; [done|by eauto|apply turn_user_message_user..].
  - intros res. unfold handle_loop_result. by rewrite Hw'.
Qed.

(** ** Routing *)

Lemma resolve_mapped key (i : Inputs) m a id :
  sm_sessions m !! tk_user_id key = Some a → sm_thread_map m !! key = Some id →
  has_thread m a id = true → resolve_thread key i m = (m, Some (a, id)).
Proof.
  intros Hs Hm Ht. unfold resolve_thread. cbn [run_resolve resolve_step]. rewrite Hs.
  cbn [run_resolve resolve_step]. rewrite Hm, Ht. done.
Qed.

(** The answer to [/thread new] names a thread that the next message of the
    conversation does not reach. *)
Lemma new_thread_not_routed message (i j : Inputs) w a id :
  sm_sessions (w_manager w) !! im_user_id message = Some a →
  sm_thread_map (w_manager w) !! message_key message = Some id →
  has_thread (w_manager w) a id = true →
  let '(w', r) := process_new_thread message i w in
  r = Ok (SubOk (Some ("New thread: " +:+ uuid_to_string (in_thread_id i)))) ∧
  (resolve_thread (message_key message) j (w_manager w')).2 = Some (a, id).
Proof.
  intros Hs Hm Ht. unfold process_new_thread, lock_session, get_or_create_session. rewrite Hs.
  unfold session_of. rewrite others_quiet. unfold has_thread in Ht. simpl.
  destruct (sm_heap (w_manager w) !! a) as [s|] eqn:Ha; [|done]. simpl. split; [done|].
  rewrite (resolve_mapped _ _ _ a id); simpl; try (by rewrite others_quiet); [done|].
  unfold has_thread. simpl. rewrite others_quiet, lookup_insert_eq. simpl.
  apply bool_decide_eq_true in Ht. apply bool_decide_eq_true. case_match; [done|].
  destruct (decide (in_thread_id i = id)) as [->|Hne]; [rewrite lookup_insert_eq; eauto|].
  by rewrite lookup_insert_ne.
Qed.

(** ** Hydration *)

Hypothesis others_store : ∀ n w, w_store (others n w) = w_store w.

(** The user's session has the thread. *)
Definition user_has_thread (user : string) (id : Uuid) (w : W) : bool :=
  match sm_sessions (w_manager w) !! user with
  | Some a => has_thread (w_manager w) a id
  | None => false
  end.

Lemma lock_session_spec user i id (w : W) :
  manager_ok (w_manager w) →
  let '(w', a) := lock_session user i w in
  sm_sessions (w_manager w') !! user = Some a ∧ w_store w' = w_store w ∧
  owns (w_manager w') a user ∧ has_thread (w_manager w') a id = user_has_thread user id w.
Proof.
  intros Hm. unfold lock_session, get_or_create_session, user_has_thread.
  destruct (sm_sessions (w_manager w) !! user) as [a|] eqn:E; simpl.
  - split_and!; try done. by apply Hm.
  - destruct (create_session_ok user i (w_manager w) Hm) as (_ & Ho & _ & _ & Hs).
    unfold create_session in *. rewrite E in *. simpl in *. split_and!; try done.
    unfold has_thread. simpl. by rewrite lookup_insert_eq.
Qed.

Lemma turns_hydrated id sid messages io :
  turns (hydrated_thread id sid messages io) =
  restore_turns_fuel (length messages) (io_turn_clock io) messages 0.
Proof. by destruct messages. Qed.

Lemma has_thread_spec m a id :
  has_thread m a id = bool_decide (is_Some (sm_heap m !! a ≫= λ s, threads s !! id)).
Proof. unfold has_thread. by destruct (sm_heap m !! a). Qed.

(** A stored conversation is found again.  A message that names a thread by its
    UUID, when the user's session does not have it, is answered in a thread of
    the user with exactly that UUID, idle, whose turns are those rebuilt from
    the stored rows; when the store refuses, because the conversation is
    missing or not the user's, the error is passed on and no session gains the
    thread. *)
Theorem hydration_finds_thread (ag : Agent) (message : IncomingMessage) (id : Uuid) (i j : Inputs)
    (io : Io) (w : W)
    (Hext : im_thread_id message = Some (uuid_to_string id))
    (Hm : manager_ok (w_manager w)) (Hnew : user_has_thread (im_user_id message) id w = false) :
  let '(w', r) := hydrate_and_resolve_session_thread ag message i j io w in
  match load_history ag id message w with
  | Ok messages => ∃ a t,
      r = Ok (a, id) ∧ owns (w_manager w') a (im_user_id message) ∧ thread_of a id w' = Some t ∧
      th_id t = id ∧ th_state t = Idle ∧
      turns t = restore_turns_fuel (length messages) (io_turn_clock io) messages 0
  | Err e => r = Err e ∧ user_has_thread (im_user_id message) id w' = false
  end.
Proof.
  unfold hydrate_and_resolve_session_thread, maybe_hydrate_thread. rewrite Hext, uuid_parse_to_string.
  pose proof (lock_session_spec (im_user_id message) i id w Hm) as Hl.
  destruct (lock_session (im_user_id message) i w) as [w1 a]. destruct Hl as (Hs & Hst & (s & Hh & Hu) & Hno).
  rewrite Hnew in Hno. rewrite others_quiet, Hno.
  assert (load_history ag id message (others 1 (others 0 w1)) = load_history ag id message w) as ->.
  { unfold load_history. by rewrite !others_store, Hst. }
  destruct (load_history ag id message w) as [messages|e].
  - unfold session_of. rewrite !others_quiet, Hh, Hno.
    set (w2 := put_session a _ _). cbn beta iota zeta.
    assert (sm_sessions (w_manager w2) = sm_sessions (w_manager w1) ∧
            sm_heap (w_manager w2) !! a =
              Some (activate_thread id (hydrated_thread id (s_id s) messages io) (io_now io 2) s)) as [Hs2 Hh2].
    { unfold w2. simpl. by rewrite !others_quiet, lookup_insert_eq. }
    clearbody w2. set (m2 := register_thread _ _ _ _ _).
    assert (sm_sessions m2 !! im_user_id message = Some a ∧ sm_heap m2 = sm_heap (w_manager w2) ∧
            sm_thread_map m2 !! message_key message = Some id) as (Hs3 & Hh3 & Hk3).
    { unfold m2, register_thread, message_key. rewrite others_quiet, Hext.
      match goal with |- context [ensure_undo_manager id ?m] => destruct (ensure_undo_same id m) as (Hes & Heh & _ & Htm) end.
      rewrite Hes. simpl. rewrite Hs2, Hs, Hes, Heh, Htm. simpl. by rewrite Hs2, lookup_insert_eq. }
    rewrite (resolve_mapped (message_key message) j _ a id); simpl; rewrite ?others_quiet; simpl; try done.
    + exists a. eexists. split; [done|]. unfold owns, thread_of, session_of. simpl.
      rewrite Hh3, Hh2. split; [by eexists|]. simpl. rewrite lookup_insert_eq. split; [done|].
      rewrite turns_hydrated. by destruct messages.
    + unfold has_thread. rewrite Hh3, Hh2. simpl. rewrite lookup_insert_eq. by apply bool_decide_eq_true.
  - split; [done|]. unfold user_has_thread. by rewrite !others_quiet, Hs.
Qed.
End Control.

Section Witnesses.
#[local] Existing Instance json_lite.
#[local] Existing Instance uuid_bits.
#[local] Existing Instance literal_regex.
#[local] Existing Instance naive_ac.
#[local] Existing Instance ascii_case.
#[local] Existing Instance memory_store.
#[local] Existing Instance no_hook.

Definition quiet (_ : nat) (w : World (gmap Uuid (string * string * list ConversationMessage)) unit) := w.

Lemma demo_turns_ok n : well_numbered (demo_turns n) ∧ Forall replayable (demo_turns n).
Proof.
  unfold demo_turns. split.
  - intros i tn Hi. apply list_lookup_fmap_Some in Hi as (k & -> & Hk). apply lookup_seq in Hk as [-> _]. done.
  - apply Forall_forall. intros tn (k & -> & _)%list_elem_of_fmap. split; [done|]. constructor.
Qed.

Lemma undo_redo_turn_witness :
  ∃ w1 w3 t3, checkpoint_before_turn 0 7%N demo_io (demo_world Idle 2) = (w1, Ok tt) ∧
    (∃ msg, process_undo quiet 0 7%N demo_io (put_thread 0 7%N (demo_thread Processing 3) w1) =
       (w3, Ok (SubOk (Some msg)))) ∧
    thread_of 0 7%N w3 = Some t3 ∧ thread_messages t3 = thread_messages (demo_thread Idle 2).
Proof.
  destruct (demo_turns_ok 2) as [Hw2 Hr2]. destruct (demo_turns_ok 3) as [Hw3 Hr3].
  destruct (checkpoint_before_turn_spec 0 7%N demo_io (demo_world Idle 2) (demo_thread Idle 2) eq_refl)
    as (w1 & Hc & Ht & _).
  destruct (undo_redo_turn quiet (λ _ _, eq_refl) 0 7%N demo_io demo_io demo_io (demo_world Idle 2) w1
    (put_thread 0 7%N (demo_thread Processing 3) w1) (demo_thread Idle 2) (demo_thread Processing 3)
    eq_refl) as (w3 & t3 & w4 & t4 & msg & msg' & H1 & H2 & H3 & H4 & _).
  - split; [reflexivity|]. vm_compute. lia.
  - exact Hc.
  - exact (thread_of_put _ _ _ _ _ Ht).
  - apply undo_put_thread.
  - exact Hw2.
  - exact Hr2.
  - exact Hw3.
  - exact Hr3.
  - exists w1, w3, t3. split; [exact Hc|]. split; [exists msg; exact H1|]. split; [exact H2|exact H4].
Defined.

Lemma interrupt_releases_thread_witness :
  let w' := (process_interrupt 0 7%N demo_io (demo_world AwaitingApproval 1)).1 in
  check_thread_state 0 7%N w' = Ok None.
Proof.
  intros w'.
  apply (interrupt_releases_thread demo_agent demo_message demo_request demo_io demo_io
    (demo_world AwaitingApproval 1) (demo_thread AwaitingApproval 1)).
  - reflexivity.
  - by right.
  - vm_compute. reflexivity.
Defined.

Definition stored_message : IncomingMessage := {|
  im_id := 3%N; im_channel := "gateway"; im_user_id := "ann"; im_user_name := None;
  im_content := "hello"; im_thread_id := Some (uuid_to_string 8%N); im_received_at := 5%Z;
  im_metadata := LNull; im_timezone := None; im_attachments := [] |}.

Definition stored_row (role content : string) : ConversationMessage := {|
  cm_id := 1%N; cm_role := role; cm_content := content; cm_created_at := 1%Z |}.

Definition stored_world : World (gmap Uuid (string * string * list ConversationMessage)) unit :=
  set_w_store (Some {[8%N := ("ann", "gateway", [stored_row "user" "hi"; stored_row "assistant" "hello"])]})
    (demo_world Idle 1).

Definition demo_fresh : Inputs := {|
  in_session_id := 20%N; in_thread_id := 21%N; in_now := 5%Z; in_now1 := 5%Z; in_now2 := 5%Z |}.

Lemma hydration_finds_thread_witness :
  let '(w', r) := hydrate_and_resolve_session_thread quiet demo_agent stored_message demo_fresh
                    demo_fresh demo_io stored_world in
  ∃ a t, r = Ok (a, 8%N) ∧ thread_of a 8%N w' = Some t ∧ th_state t = Idle ∧
    (user_input <$> turns t) = ["hi"].
Proof.
  pose proof (hydration_finds_thread quiet (λ _ _, eq_refl) (λ _ _, eq_refl) demo_agent stored_message
    8%N demo_fresh demo_fresh demo_io stored_world) as H.
  destruct (hydrate_and_resolve_session_thread quiet _ _ _ _ _ _) as [w' r].
  destruct H as (a & t & -> & _ & Ht & _ & Hi & Hturns).
  - reflexivity.
  - split.
    + intros user a. simpl. intros [<- <-]%lookup_singleton_Some. eexists. split; reflexivity.
    + intros a [s Hs]. simpl in *. apply lookup_singleton_Some in Hs as [<- _]. lia.
  - reflexivity.
  - exists a, t. split_and!; [done|done|done|]. rewrite Hturns. vm_compute. reflexivity.
Defined.
End Witnesses.
