(* ===== verification/Approval.v ===== *)
(** * Approval and authentication of tools in a chat

    Models [src/src/agent/thread_ops/approval/]: a decision on the pending tool
    call ([primary.rs]), the calls deferred behind it ([deferred_preflight.rs],
    [deferred_exec.rs], [deferred_flow.rs]), the end of the turn
    ([turn_flow.rs]), requests for a token and the token itself ([auth.rs]).

    The extension manager is a parameter: what it does with a token is not part
    of this code. *)

From S2P Require Import Prelude Text Externals LlmTypes JobState JobManager Session Undo Hooks.
From S2P Require Import LeakDetector Safety Submission SessionManager MessageRebuild.
From S2P Require Import Compaction ToolExec JobTools Messages AgenticLoop Turns ExtAuth.
From S2P Require Import ChatTools.

Section Approval.
Context {J : SerdeJson} {T : UuidText} {D : RustDecimal}.
Context {R : RegexEngine} {C : AhoCorasick} {U : UnicodeCase}.
Context {St X H A : Type} {CS : ConversationStore St}.
Context {HH : Hook (World St X) H} {HT : Tool (World St X) A}.
Abbreviation W := (World St X).

Record MsgEnv := {
  me_channel : string;
  me_user_id : string;
  me_metadata : json;
  me_timezone : option string;
  me_content : string;
}.

Definition msg_env_of (m : IncomingMessage) : MsgEnv := {|
  me_channel := im_channel m; me_user_id := im_user_id m; me_metadata := im_metadata m;
  me_timezone := im_timezone m; me_content := im_content m |}.

Record TurnScope := { sp_session : Arc; sp_thread_id : Uuid; sp_env : MsgEnv }.

Definition turn_scope_new (a : Arc) (id : Uuid) (m : IncomingMessage) : TurnScope :=
  {| sp_session := a; sp_thread_id := id; sp_env := msg_env_of m |}.

Definition to_message (sc : TurnScope) (fresh : Uuid) (now : Utc) : IncomingMessage := {|
  im_id := fresh; im_channel := me_channel (sp_env sc); im_user_id := me_user_id (sp_env sc);
  im_user_name := None; im_content := me_content (sp_env sc); im_thread_id := None;
  im_received_at := now; im_metadata := me_metadata (sp_env sc);
  im_timezone := me_timezone (sp_env sc); im_attachments := [] |}.

Record ApprovalParams := {
  ap_request_id : option Uuid;
  ap_approved : bool;
  ap_always : bool;
}.

(** [auth(name, token)] and [activate(name)], which lists the tools loaded;
    errors as their text. *)
Record ExtensionManager := {
  em_auth : string → option string → W → W * result AuthResult string;
  em_activate : string → W → W * result (list string) string;
}.

Record ApprovalDeps := {
  ad_agent : Agent (St := St) (X := X) (H := H);
  ad_chat : ChatDeps (St := St) (X := X) (H := H) (A := A);
  ad_http_interceptor : option N;
  ad_valid_timezone : string → bool;
  ad_extensions : option ExtensionManager;
}.

Variable deps : ApprovalDeps.
Abbreviation safety := (cx_safety (ad_chat deps)).
Abbreviation pretty_json := (cx_to_string_pretty (ad_chat deps)).

(** [if let Some(thread) = sess.threads.get_mut(&id)] *)
Definition alter_thread (a : Arc) (id : Uuid) (f : Thread → Thread) (w : W) : W :=
  match thread_of a id w with
  | Some t => put_thread a id (f t) w
  | None => w
  end.

Definition on_last_turn (f : Turn → Turn) (t : Thread) : Thread := set_turns (alter_last f (turns t)) t.

Definition tell (sc : TurnScope) (s : StatusUpdate) (w : W) : W :=
  send_status (me_channel (sp_env sc)) s w.

(** ** The end of a turn *)

(** [unwrap_or_default] when the thread has no turn. *)
Definition turn_summary_or (t : Thread) : nat * list TurnToolCall := default (0, []) (turn_summary t).

Definition finalize_turn_and_persist_response (sc : TurnScope) (response : string) (io : Io) (w : W) :
    W * result unit Error :=
  match thread_of (sp_session sc) (sp_thread_id sc) w with
  | None => (w, Err (not_found (sp_thread_id sc)))
  | Some t =>
      if bool_decide (th_state t = Interrupted) then (w, Ok tt)
      else
        let t := complete_turn t response (io_now io 0) (io_now io 1) in
        let w := put_thread (sp_session sc) (sp_thread_id sc) t w in
        let w := persist_completed (sp_thread_id sc) (me_user_id (sp_env sc)) response
                   (turn_summary_or t) w in
        (tell sc (Status "Done") w, Ok tt)
  end.

Definition enter_awaiting_approval_and_notify (sc : TurnScope) (p : PendingApproval) (io : Io) (w : W) :
    W * result SubmissionResult Error :=
  match thread_of (sp_session sc) (sp_thread_id sc) w with
  | None => (w, Err (not_found (sp_thread_id sc)))
  | Some t =>
      let w := put_thread (sp_session sc) (sp_thread_id sc) (await_approval t p (io_now io 0)) w in
      (tell sc (Status "Awaiting approval") w, Ok (need_approval p))
  end.

Definition fail_turn_and_error (sc : TurnScope) (error : string) (io : Io) (w : W) :
    W * result SubmissionResult Error :=
  match thread_of (sp_session sc) (sp_thread_id sc) w with
  | None => (w, Err (not_found (sp_thread_id sc)))
  | Some t =>
      let w := put_thread (sp_session sc) (sp_thread_id sc)
                 (fail_turn t error (io_now io 0) (io_now io 1)) w in
      (set_w_store (persist_assistant_response (sp_thread_id sc) (me_user_id (sp_env sc)) error
                      (w_store w)) w,
       Ok (SubError error))
  end.

Definition continue_loop_after_tool (sc : TurnScope) (messages : list ChatMessage) (io : Io) (w : W) :
    W * result SubmissionResult Error :=
  let '(w, r) := ag_run_agentic_loop (ad_agent deps) (to_message sc (io_uuid io 0) (io_now io 2))
                   (sp_session sc) (sp_thread_id sc) messages w in
  match r with
  | Ok (LoopResponse response) =>
      let '(w, response) := apply_response_transform_hook (ad_agent deps) (me_user_id (sp_env sc))
                              (sp_thread_id sc) response w in
      match finalize_turn_and_persist_response sc response io w with
      | (w, Err e) => (w, Err e)
      | (w, Ok _) => (w, Ok (SubResponse response))
      end
  | Ok (LoopNeedApproval p) => enter_awaiting_approval_and_notify sc p io w
  | Err e => fail_turn_and_error sc (error_display e) io w
  end.

Definition rejection_text (tool : string) : string :=
  "Tool '" +:+ tool +:+ "' was rejected. The agent will not execute this tool." +:+ newline +:+ newline
  +:+ "You can continue the conversation or try a different approach.".

Definition complete_rejection_and_persist (sc : TurnScope) (p : PendingApproval) (io : Io) (w : W) :
    W * result SubmissionResult Error :=
  let rejection := rejection_text (pa_tool_name p) in
  let w := alter_thread (sp_session sc) (sp_thread_id sc) (λ t,
             complete_turn (clear_pending_approval t (io_now io 0)) rejection (io_now io 1) (io_now io 2)) w in
  let w := set_w_store (persist_assistant_response (sp_thread_id sc) (me_user_id (sp_env sc)) rejection
                          (w_store w)) w in
  (tell sc (Status "Rejected") w, Ok (SubResponse rejection)).

(** ** Requests for a token *)

Definition handle_auth_intercept (sc : TurnScope) (r : result string Error)
    (ext_name instructions : string) (pending : option PendingApproval) (io : Io) (w : W) : W :=
  let auth_data := parse_auth_result r in
  let '(w, (n, calls)) :=
    match thread_of (sp_session sc) (sp_thread_id sc) w with
    | Some t =>
        let t := complete_turn t instructions (io_now io 0) (io_now io 1) in
        let t := match pending with Some p => await_approval t p (io_now io 2) | None => t end in
        let t := enter_auth_mode t ext_name (io_now io 3) in
        (put_thread (sp_session sc) (sp_thread_id sc) t w, turn_summary_or t)
    | None => (w, (0, []))
    end in
  let w :=
    if n =? 0 then w
    else set_w_store (persist_tool_calls {| tp_thread_id := sp_thread_id sc;
                                            tp_user_id := me_user_id (sp_env sc); tp_turn_number := n |}
                        calls (w_store w)) w in
  let w := set_w_store (persist_assistant_response (sp_thread_id sc) (me_user_id (sp_env sc)) instructions
                          (w_store w)) w in
  tell sc (AuthRequired ext_name (Some instructions) (pad_auth_url auth_data) (pad_setup_url auth_data)) w.

Definition tools_loaded_text (tools : list string) : string :=
  match tools with
  | [] => ""
  | _ => newline +:+ newline +:+ "Tools: " +:+ join ", " tools
  end.

Definition activate_extension_and_notify (sc : TurnScope) (ext : string) (w : W) : W * option string :=
  match ad_extensions deps with
  | None => (w, Some (ext +:+ " authenticated, but extension manager is unavailable."))
  | Some mgr =>
      match em_activate mgr ext w with
      | (w, Ok tools) =>
          let msg := ext +:+ " authenticated and activated (" +:+ pretty (length tools)
                     +:+ " tools loaded)." +:+ tools_loaded_text tools in
          (tell sc (AuthCompleted ext true msg) w, Some msg)
      | (w, Err e) =>
          let msg := ext +:+ " authenticated successfully, but activation failed: " +:+ e
                     +:+ ". Try activating manually." in
          (tell sc (AuthCompleted ext false msg) w, Some msg)
      end
  end.

Definition reenter_auth_mode_and_notify (sc : TurnScope) (ext instructions : string)
    (auth_url setup_url : option string) (now : Utc) (w : W) : W :=
  let w := alter_thread (sp_session sc) (sp_thread_id sc) (λ t, enter_auth_mode t ext now) w in
  tell sc (AuthRequired ext (Some instructions) auth_url setup_url) w.

(** [thread.pending_auth = v] *)
Definition set_pending_auth (v : option PendingAuth) (t : Thread) : Thread :=
  th_update t (th_state t) (turns t) (pending_approval t) v (th_updated_at t).

Definition process_auth_token (sc : TurnScope) (pending : PendingAuth) (token : string) (io : Io) (w : W) :
    W * result (option string) Error :=
  let token := trim token in
  let ext := extension_name pending in
  match ad_extensions deps with
  | None => (w, Ok (Some "Extension manager not available."))
  | Some mgr =>
      match em_auth mgr ext (Some token) w with
      | (w, Ok result) =>
          if is_authenticated result then
            let w := alter_thread (sp_session sc) (sp_thread_id sc) (λ t,
                       clear_pending_approval (set_pending_auth None t) (io_now io 0)) w in
            let '(w, msg) := activate_extension_and_notify sc ext w in
            (w, Ok msg)
          else
            let instructions := default "Invalid token. Please try again." (ar_instructions result) in
            (reenter_auth_mode_and_notify sc ext instructions (ar_auth_url result) (ar_setup_url result)
               (io_now io 0) w, Ok None)
      | (w, Err e) =>
          let msg := "Authentication failed for " +:+ ext +:+ ": " +:+ e in
          let w := alter_thread (sp_session sc) (sp_thread_id sc) (set_pending_auth (Some pending)) w in
          (reenter_auth_mode_and_notify sc ext (msg +:+ " Please try again.") None None (io_now io 0) w,
           Ok None)
      end
  end.

(** ** Deferred calls: preflight *)

Inductive DeferredPreflight :=
| DpRejected (tc : ToolCall) (msg : string)
| DpNeedsApproval (idx : nat) (tc : ToolCall) (tool : A)
| DpRunnable (tc : ToolCall).

Definition run_before_tool_call_hook_for_deferred (user : string) (original : ToolCall)
    (sensitive : list string) (w : W) : W * (ToolCall * option string) :=
  let event := EvToolCall (tc_name original) (redact_params (tc_arguments original) sensitive) user "chat" in
  match run (cx_hooks (ad_chat deps)) event w with
  | (w, Err (HookRejected reason)) =>
      (w, (original, Some ("Tool call rejected by hook: " +:+ reason)))
  | (w, Err err) =>
      (w, (original, Some ("Tool call blocked by hook policy: " +:+ hook_error_display err)))
  | (w, Ok (HookContinue (Some new_params))) =>
      (w, (apply_hook_param_modification original original sensitive new_params, None))
  | (w, Ok _) => (w, (original, None))
  end.

Definition approval_required_deferred_tool (auto_approved : gset string) (tc : ToolCall) (w : W) : option A :=
  tool ← cx_tools (ad_chat deps) w !! tc_name tc;
  let needs_approval :=
    match requires_approval (W := W) tool (tc_arguments tc) with
    | ApprovalNever => false
    | UnlessAutoApproved => negb (bool_decide (tc_name tc ∈ auto_approved))
    | ApprovalAlways => true
    end in
  if needs_approval then Some tool else None.

Definition classify_deferred_tool_call (user : string) (auto_approved : gset string) (idx : nat)
    (original : ToolCall) (w : W) : W * DeferredPreflight :=
  let tool := cx_tools (ad_chat deps) w !! tc_name original in
  let '(w, (tc, rejection)) :=
    run_before_tool_call_hook_for_deferred user original (sensitive_of tool) w in
  match rejection with
  | Some msg => (w, DpRejected tc msg)
  | None =>
      match approval_required_deferred_tool auto_approved tc w with
      | Some tool => (w, DpNeedsApproval idx tc tool)
      | None => (w, DpRunnable tc)
      end
  end.

Record DeferredBatch := {
  db_preflight : list (ToolCall * PreflightOutcome);
  db_runnable : list ToolCall;
}.

Fixpoint preflight_from (user : string) (auto_approved : gset string) (idx : nat) (calls : list ToolCall)
    (b : DeferredBatch) (w : W) : W * (DeferredBatch * option (nat * ToolCall * A)) :=
  match calls with
  | [] => (w, (b, None))
  | original :: calls =>
      let '(w, outcome) := classify_deferred_tool_call user auto_approved idx original w in
      match outcome with
      | DpRejected tc msg =>
          preflight_from user auto_approved (S idx) calls
            {| db_preflight := db_preflight b ++ [(tc, PfRejected msg)]; db_runnable := db_runnable b |} w
      | DpNeedsApproval idx tc tool => (w, (b, Some (idx, tc, tool)))
      | DpRunnable tc =>
          preflight_from user auto_approved (S idx) calls
            {| db_preflight := db_preflight b ++ [(tc, PfRunnable)];
               db_runnable := db_runnable b ++ [tc] |} w
      end
  end.

Definition preflight_deferred_tools (sc : TurnScope) (deferred : list ToolCall) (w : W) :
    W * (DeferredBatch * option (nat * ToolCall * A)) :=
  let auto_approved := default ∅ (auto_approved_tools <$> session_of (sp_session sc) w) in
  preflight_from (me_user_id (sp_env sc)) auto_approved 0 deferred
    {| db_preflight := []; db_runnable := [] |} w.

(** ** Deferred calls: execution *)

Definition run_deferred_one (sc : TurnScope) (job_ctx : JobContext) (tc : ToolCall) (w : W) :
    W * result string Error :=
  let w := tell sc (ToolStarted (tc_name tc)) w in
  let '(w, r) := execute_chat_tool (ad_chat deps) (tc_name tc) (tc_arguments tc) job_ctx w in
  (tell sc (tool_completed pretty_json (tc_name tc) (shown r) (tc_arguments tc)
              (sensitive_params (W := W) <$> cx_tools (ad_chat deps) w !! tc_name tc)) w, r).

(** The tasks that end, in that order; a lost one leaves no result. *)
Fixpoint run_deferred_tasks (sc : TurnScope) (job_ctx : JobContext) (order : list (nat * bool))
    (runnable : list ToolCall) (w : W) : W * list (nat * result string Error) :=
  match order with
  | [] => (w, [])
  | (k, lost) :: order =>
      match runnable !! k with
      | None => run_deferred_tasks sc job_ctx order runnable w
      | Some tc =>
          if (lost : bool) then
            let w := tell sc (ToolStarted (tc_name tc)) w in
            let '(w, _) := execute_chat_tool (ad_chat deps) (tc_name tc) (tc_arguments tc) job_ctx w in
            run_deferred_tasks sc job_ctx order runnable w
          else
            let '(w, r) := run_deferred_one sc job_ctx tc w in
            let '(w, rest) := run_deferred_tasks sc job_ctx order runnable w in
            (w, (k, r) :: rest)
      end
  end.

(** The calls come with their results in the same order, so a list of results
    is enough. *)
Definition execute_runnable_deferred (sc : TurnScope) (job_ctx : JobContext) (order : list (nat * bool))
    (runnable : list ToolCall) (w : W) : W * list (result string Error) :=
  match runnable with
  | [] => (w, [])
  | [tc] => let '(w, r) := run_deferred_one sc job_ctx tc w in (w, [r])
  | _ =>
      let '(w, completed) := run_deferred_tasks sc job_ctx order runnable w in
      (w, collect_ordered completed runnable task_failed)
  end.

(** ** Deferred calls: postflight *)

(** [turn.record_tool_error] or [turn.record_tool_result_content] *)
Definition record_outcome (content : string) (is_error : bool) (tn : Turn) : Turn :=
  if is_error then record_tool_error tn content else record_tool_result_content tn content.

Definition record_in_turn (sc : TurnScope) (content : string) (is_error : bool) (w : W) : W :=
  alter_thread (sp_session sc) (sp_thread_id sc) (on_last_turn (record_outcome content is_error)) w.

Definition send_result_preview (sc : TurnScope) (name content : string) (w : W) : W :=
  if bool_decide (content = "") then w
  else tell sc (ToolResultStatus name (preview_line content PREVIEW_MAX_CHARS)) w.

Definition auth_pending (p : PendingApproval) (tc : ToolCall) (messages : list ChatMessage) :
    PendingApproval := {|
  pa_request_id := pa_request_id p; pa_tool_name := tc_name tc; pa_parameters := tc_arguments tc;
  pa_display_parameters := redact_params (tc_arguments tc) [];
  pa_description := "Authenticate to continue with " +:+ tc_name tc;
  pa_tool_call_id := tc_id tc; pa_context_messages := messages; pa_deferred_tool_calls := [];
  pa_user_timezone := pa_user_timezone p |}.

Fixpoint postflight_deferred (sc : TurnScope) (p : PendingApproval)
    (preflight : list (ToolCall * PreflightOutcome)) (results : list (result string Error))
    (messages : list ChatMessage) (auth : option string) (io : Io) (w : W) :
    W * (list ChatMessage * option string) :=
  match preflight with
  | [] => (w, (messages, auth))
  | (tc, PfRejected msg) :: preflight =>
      let w := record_in_turn sc msg true w in
      postflight_deferred sc p preflight results
        (messages ++ [tool_result (tc_id tc) (tc_name tc) msg]) auth io w
  | (tc, PfRunnable) :: preflight =>
      let r := default (no_result tc) (head results) in
      let results := tail results in
      let content := (process_tool_result safety (tc_name tc) (tc_id tc) (shown r)).1 in
      let w := if is_ok r then send_result_preview sc (tc_name tc) content w else w in
      let w := record_in_turn sc content (negb (is_ok r)) w in
      let '(w, auth) :=
        match auth, check_auth_required (tc_name tc) r with
        | None, Some (ext, instructions) =>
            (handle_auth_intercept sc r ext instructions (Some (auth_pending p tc messages)) io w,
             Some instructions)
        | _, _ => (w, auth)
        end in
      postflight_deferred sc p preflight results
        (messages ++ [tool_result (tc_id tc) (tc_name tc) content]) auth io w
  end.

Definition enter_deferred_approval_and_notify (sc : TurnScope) (idx : nat) (tc : ToolCall) (tool : A)
    (deferred : list ToolCall) (messages : list ChatMessage) (p : PendingApproval) (io : Io) (w : W) :
    W * SubmissionResult :=
  let np := {|
    pa_request_id := io_uuid io 1; pa_tool_name := tc_name tc; pa_parameters := tc_arguments tc;
    pa_display_parameters := redact_params (tc_arguments tc) (sensitive_params (W := W) tool);
    pa_description := tool_description (W := W) tool; pa_tool_call_id := tc_id tc;
    pa_context_messages := messages; pa_deferred_tool_calls := drop (S idx) deferred;
    pa_user_timezone := pa_user_timezone p |} in
  let w := alter_thread (sp_session sc) (sp_thread_id sc) (λ t, await_approval t np (io_now io 0)) w in
  (tell sc (Status "Awaiting approval") w, need_approval np).

Definition handle_deferred_tools_flow (sc : TurnScope) (job_ctx : JobContext) (p : PendingApproval)
    (messages : list ChatMessage) (deferred : list ToolCall) (order : list (nat * bool)) (io : Io) (w : W) :
    W * (list ChatMessage * option SubmissionResult) :=
  let '(w, (batch, approval_needed)) := preflight_deferred_tools sc deferred w in
  let '(w, results) := execute_runnable_deferred sc job_ctx order (db_runnable batch) w in
  let '(w, (messages, auth)) := postflight_deferred sc p (db_preflight batch) results messages None io w in
  match auth with
  | Some instructions => (w, (messages, Some (SubResponse instructions)))
  | None =>
      match approval_needed with
      | Some (idx, tc, tool) =>
          let '(w, r) := enter_deferred_approval_and_notify sc idx tc tool deferred messages p io w in
          (w, (messages, Some r))
      | None => (w, (messages, None))
      end
  end.

(** ** The decision *)

Definition take_pending_approval_if_awaiting (a : Arc) (id : Uuid) (now : Utc) (w : W) :
    W * result (option PendingApproval) Error :=
  match thread_of a id w with
  | None => (w, Err (not_found id))
  | Some t =>
      if negb (bool_decide (th_state t = AwaitingApproval)) then (w, Ok None)
      else
        let '(t, pending) := take_pending_approval t in
        match pending with
        | None => (put_thread a id t w, Ok None)
        | Some p =>
            (put_thread a id (th_update t Processing (turns t) (pending_approval t) (pending_auth t) now) w,
             Ok (Some p))
        end
  end.

Definition restage_on_request_id_mismatch (sc : TurnScope) (provided : option Uuid) (p : PendingApproval)
    (now : Utc) (w : W) : W * option SubmissionResult :=
  match provided with
  | Some rid =>
      if bool_decide (rid = pa_request_id p) then (w, None)
      else (alter_thread (sp_session sc) (sp_thread_id sc) (λ t, await_approval t p now) w,
            Some (SubError "Request ID mismatch. Use the correct request ID."))
  | None => (w, None)
  end.

Definition auto_approve_if_always (a : Arc) (always : bool) (tool : string) (w : W) : W :=
  if always then
    match session_of a w with
    | Some s => put_session a (auto_approve_tool s tool) w
    | None => w
    end
  else w.

Definition build_job_context_for_approval (env : MsgEnv) (p : PendingApproval) (fresh : Uuid) (now : Utc) :
    JobContext :=
  let ctx := with_user fresh now (me_user_id env) "chat" "Interactive chat session" in
  let ctx := set_http_interceptor (ad_http_interceptor deps) ctx in
  let tz := match me_timezone env with
            | Some tz => if ad_valid_timezone deps tz then Some tz else pa_user_timezone p
            | None => pa_user_timezone p
            end in
  match tz with Some tz => set_user_timezone tz ctx | None => ctx end.

Definition execute_primary_tool_and_notify (sc : TurnScope) (p : PendingApproval) (job_ctx : JobContext)
    (w : W) : W * result string Error :=
  let w := tell sc (ToolStarted (pa_tool_name p)) w in
  let '(w, r) := execute_chat_tool (ad_chat deps) (pa_tool_name p) (pa_parameters p) job_ctx w in
  let w := tell sc (tool_completed pretty_json (pa_tool_name p) (shown r) (pa_display_parameters p)
                      (sensitive_params (W := W) <$> cx_tools (ad_chat deps) w !! pa_tool_name p)) w in
  let w := if is_ok r
           then send_result_preview sc (pa_tool_name p)
                  (process_tool_result safety (pa_tool_name p) (pa_tool_call_id p) (shown r)).1 w
           else w in
  (w, r).

Definition record_sanitized_primary_result (sc : TurnScope) (p : PendingApproval) (r : result string Error)
    (w : W) : W * string :=
  let content := (process_tool_result safety (pa_tool_name p) (pa_tool_call_id p) (shown r)).1 in
  (record_in_turn sc content (negb (is_ok r)) w, content).

Definition build_context_and_notify_for_deferred (sc : TurnScope) (p : PendingApproval) (content : string)
    (w : W) : W * list ChatMessage :=
  let messages := pa_context_messages p
                  ++ [tool_result (pa_tool_call_id p) (pa_tool_name p) content] in
  (match pa_deferred_tool_calls p with
   | [] => w
   | calls => tell sc (Thinking ("Executing " +:+ pretty (length calls) +:+ " deferred tool(s)...")) w
   end, messages).

(** From the approval on: steps (e) to (h) of [process_approval]. *)
Definition run_approved (sc : TurnScope) (p : PendingApproval) (order : list (nat * bool)) (io : Io) (w : W) :
    W * result SubmissionResult Error :=
  let job_ctx := build_job_context_for_approval (sp_env sc) p (io_uuid io 2) (io_now io 4) in
  let '(w, r) := execute_primary_tool_and_notify sc p job_ctx w in
  let '(w, content) := record_sanitized_primary_result sc p r w in
  match check_auth_required (pa_tool_name p) r with
  | Some (ext, instructions) =>
      (handle_auth_intercept sc r ext instructions (Some p) io w, Ok (SubResponse instructions))
  | None =>
      let '(w, messages) := build_context_and_notify_for_deferred sc p content w in
      let '(w, (messages, outcome)) :=
        handle_deferred_tools_flow sc job_ctx p messages (pa_deferred_tool_calls p) order io w in
      match outcome with
      | Some result => (w, Ok result)
      | None => continue_loop_after_tool sc messages io w
      end
  end.

Definition process_approval (sc : TurnScope) (params : ApprovalParams) (order : list (nat * bool)) (io : Io)
    (w : W) : W * result SubmissionResult Error :=
  match take_pending_approval_if_awaiting (sp_session sc) (sp_thread_id sc) (io_now io 5) w with
  | (w, Err e) => (w, Err e)
  | (w, Ok None) => (w, Ok (SubOk (Some "")))
  | (w, Ok (Some p)) =>
      match restage_on_request_id_mismatch sc (ap_request_id params) p (io_now io 6) w with
      | (w, Some res) => (w, Ok res)
      | (w, None) =>
          if negb (ap_approved params) then complete_rejection_and_persist sc p io w
          else
            let w := auto_approve_if_always (sp_session sc) (ap_always params) (pa_tool_name p) w in
            run_approved sc p order io w
      end
  end.

(** ** Properties *)

Lemma put_thread_twice a id t t' (w : W) :
  put_thread a id t' (put_thread a id t w) = put_thread a id t' w.
Proof.
  unfold put_thread. destruct (session_of a w) as [s|] eqn:E; [|by rewrite E].
  unfold session_of, put_session, set_w_manager, set_session. simpl. rewrite lookup_insert_eq.
  unfold with_threads, s_update. simpl. by rewrite !insert_insert_eq.
Qed.

Lemma thread_of_tell sc' s a id w : thread_of a id (tell sc' s w) = thread_of a id w.
Proof. done. Qed.

Lemma session_of_put a id t (w : W) s :
  session_of a w = Some s →
  session_of a (put_thread a id t w) = Some (with_threads (<[id := t]> (threads s)) s).
Proof. intros E. unfold put_thread. rewrite E. unfold session_of. simpl. by rewrite lookup_insert_eq. Qed.

Lemma thread_of_session a id (w : W) t :
  thread_of a id w = Some t → ∃ s, session_of a w = Some s ∧ threads s !! id = Some t.
Proof. unfold thread_of. destruct (session_of a w) as [s|]; simpl; [eauto|done]. Qed.

(** The request id given does not name the pending call. *)
Definition wrong_request (provided : option Uuid) (p : PendingApproval) : bool :=
  match provided with Some rid => negb (bool_decide (rid = pa_request_id p)) | None => false end.

(** The thread once its pending call is taken for execution. *)
Definition taken (t : Thread) (now : Utc) : Thread :=
  th_update t Processing (turns t) None (pending_auth t) now.

Lemma auto_approve_world a always tool w id t :
  thread_of a id w = Some t →
  let w' := auto_approve_if_always a always tool w in
  thread_of a id w' = Some t ∧ w_store w' = w_store w ∧ w_sent w' = w_sent w ∧ w_rest w' = w_rest w ∧
  (∀ s, session_of a w = Some s → ∃ s', session_of a w' = Some s' ∧
     auto_approved_tools s' = if always then {[tool]} ∪ auto_approved_tools s else auto_approved_tools s).
Proof.
  intros Ht. unfold auto_approve_if_always. destruct always; [|naive_solver].
  destruct (thread_of_session _ _ _ _ Ht) as (s & Hs & Hth). rewrite Hs. simpl.
  split_and!; try done; unfold thread_of, session_of; simpl; rewrite lookup_insert_eq; [done|].
  intros s' [= <-]. by eexists.
Qed.

Lemma take_nothing t : pending_approval t = None → (take_pending_approval t).1 = t.
Proof. destruct t. simpl. by intros ->. Qed.

Lemma rejection_completes sc p io w t :
  thread_of (sp_session sc) (sp_thread_id sc) w = Some t →
  ∃ w' t', complete_rejection_and_persist sc p io w = (w', Ok (SubResponse (rejection_text (pa_tool_name p)))) ∧
    thread_of (sp_session sc) (sp_thread_id sc) w' = Some t' ∧ th_state t' = Idle ∧
    pending_approval t' = None ∧ w_rest w' = w_rest w ∧
    (∀ tn, last (turns t') = Some tn → response tn = Some (rejection_text (pa_tool_name p))).
Proof.
  intros Ht. unfold complete_rejection_and_persist, alter_thread. rewrite Ht. do 2 eexists. split; [done|].
  split; [apply (thread_of_put _ _ _ _ _ Ht)|]. split_and!; try done.
  - simpl. unfold put_thread. by destruct (session_of _ _).
  - simpl. rewrite last_alter_last. intros tn. destruct (last (turns t)); [|done]. by intros [= <-].
Qed.

(** A decision on a thread that is not waiting. *)
Lemma decision_ignored sc params order io w t :
  thread_of (sp_session sc) (sp_thread_id sc) w = Some t → th_state t ≠ AwaitingApproval →
  process_approval sc params order io w = (w, Ok (SubOk (Some ""))).
Proof.
  intros Ht Hs. unfold process_approval, take_pending_approval_if_awaiting. rewrite Ht.
  by rewrite bool_decide_eq_false_2.
Qed.

(** What [process_approval] does once the pending call is taken. *)
Lemma process_taken sc params order io w t p :
  thread_of (sp_session sc) (sp_thread_id sc) w = Some t → th_state t = AwaitingApproval →
  pending_approval t = Some p →
  let w1 := put_thread (sp_session sc) (sp_thread_id sc) (taken t (io_now io 5)) w in
  process_approval sc params order io w =
  if wrong_request (ap_request_id params) p then
    (put_thread (sp_session sc) (sp_thread_id sc) (await_approval t p (io_now io 6)) w,
     Ok (SubError "Request ID mismatch. Use the correct request ID."))
  else if negb (ap_approved params) then complete_rejection_and_persist sc p io w1
  else run_approved sc p order io
         (auto_approve_if_always (sp_session sc) (ap_always params) (pa_tool_name p) w1).
Proof.
  intros Ht Hs Hp w1. unfold process_approval, take_pending_approval_if_awaiting. rewrite Ht, Hs. simpl.
  rewrite Hp. unfold restage_on_request_id_mismatch, wrong_request. fold (taken t (io_now io 5)). fold w1.
  destruct (ap_request_id params) as [rid|]; [|done]. case_bool_decide; [done|]. simpl.
  unfold alter_thread. rewrite (thread_of_put _ _ _ _ _ Ht). unfold w1. by rewrite put_thread_twice.
Qed.

Lemma approval_starts sc params io w t p :
  thread_of (sp_session sc) (sp_thread_id sc) w = Some t →
  let w1 := auto_approve_if_always (sp_session sc) (ap_always params) (pa_tool_name p)
              (put_thread (sp_session sc) (sp_thread_id sc) (taken t (io_now io 5)) w) in
  ∃ s, thread_of (sp_session sc) (sp_thread_id sc) w1 = Some (taken t (io_now io 5)) ∧
    w_store w1 = w_store w ∧ w_sent w1 = w_sent w ∧ w_rest w1 = w_rest w ∧
    session_of (sp_session sc) w = Some s ∧
    (∃ s1, session_of (sp_session sc) w1 = Some s1 ∧ auto_approved_tools s1 =
       if ap_always params then {[pa_tool_name p]} ∪ auto_approved_tools s else auto_approved_tools s).
Proof.
  intros Ht w1. destruct (thread_of_session _ _ _ _ Ht) as (s & Hs & _). exists s.
  destruct (auto_approve_world (sp_session sc) (ap_always params) (pa_tool_name p) _ _ _
    (thread_of_put _ _ (taken t (io_now io 5)) _ _ Ht)) as (H1 & H2 & H3 & H4 & H5).
  split_and!; try done; unfold w1; rewrite ?H2, ?H3, ?H4;
    try (unfold put_thread; by rewrite Hs).
  apply (H5 _ (session_of_put _ _ _ _ _ Hs)).
Qed.

(** C2. A tool waiting for approval runs on a matching approval only.  A decision
    for a thread that does not wait, or that has nothing pending, is ignored.
    One with another request id leaves the same call waiting.  A rejection ends
    the turn with the rejection as its response and nothing pending.  Only an
    approval starts the pending call, from a world in which the thread is
    processing and nothing is pending any more, so that the same decision, sent
    again, is ignored; the session approves the tool for good exactly when asked
    to. *)
Theorem approval_gate (sc : TurnScope) (params : ApprovalParams) (order : list (nat * bool)) (io : Io) (w : W)
    (t : Thread) (Ht : thread_of (sp_session sc) (sp_thread_id sc) w = Some t) :
  match th_state t, pending_approval t with
  | AwaitingApproval, Some p =>
      if wrong_request (ap_request_id params) p then
        process_approval sc params order io w =
          (put_thread (sp_session sc) (sp_thread_id sc) (await_approval t p (io_now io 6)) w,
           Ok (SubError "Request ID mismatch. Use the correct request ID."))
      else if negb (ap_approved params) then
        ∃ w' t', process_approval sc params order io w = (w', Ok (SubResponse (rejection_text (pa_tool_name p)))) ∧
          thread_of (sp_session sc) (sp_thread_id sc) w' = Some t' ∧ th_state t' = Idle ∧
          pending_approval t' = None ∧ w_rest w' = w_rest w ∧
          (∀ tn, last (turns t') = Some tn → response tn = Some (rejection_text (pa_tool_name p)))
      else
        ∃ w1 s, process_approval sc params order io w = run_approved sc p order io w1 ∧
          thread_of (sp_session sc) (sp_thread_id sc) w1 = Some (taken t (io_now io 5)) ∧
          w_store w1 = w_store w ∧ w_sent w1 = w_sent w ∧ w_rest w1 = w_rest w ∧
          session_of (sp_session sc) w = Some s ∧
          (∃ s1, session_of (sp_session sc) w1 = Some s1 ∧ auto_approved_tools s1 =
             if ap_always params then {[pa_tool_name p]} ∪ auto_approved_tools s else auto_approved_tools s) ∧
          (∀ params' order' io', process_approval sc params' order' io' w1 = (w1, Ok (SubOk (Some ""))))
  | _, _ => process_approval sc params order io w = (w, Ok (SubOk (Some "")))
  end.
Proof.
  destruct (th_state t) eqn:Est; try (by eapply decision_ignored; [exact Ht|rewrite Est]).
  destruct (pending_approval t) as [p|] eqn:Ep.
  2: { unfold process_approval, take_pending_approval_if_awaiting. rewrite Ht, Est. simpl. rewrite Ep.
       f_equal. pose proof (take_nothing t Ep) as Htn. simpl in Htn. rewrite Htn.
       by apply put_thread_same. }
  rewrite (process_taken sc params order io w t p Ht Est Ep).
  destruct (wrong_request _ p); [done|]. destruct (ap_approved params); simpl.
  - destruct (approval_starts sc params io w t p Ht) as (s & H1 & H2 & H3 & H4 & H5 & H6).
    do 2 eexists. split; [reflexivity|]. split_and!; try done. intros params' order' io'.
    by eapply decision_ignored.
  - destruct (rejection_completes sc p io _ _ (thread_of_put _ _ (taken t (io_now io 5)) _ _ Ht))
      as (w' & t' & H1 & H2 & H3 & H4 & H5 & H6).
    exists w', t'. split_and!; try done. rewrite H5. unfold put_thread. by destruct (session_of _ _).
Qed.

(** ** Deferred calls *)

Lemma deferred_hook_sig user tc sensitive w w' tc' r :
  run_before_tool_call_hook_for_deferred user tc sensitive w = (w', (tc', r)) → call_sig tc' = call_sig tc.
Proof.
  unfold run_before_tool_call_hook_for_deferred, apply_hook_param_modification.
  destruct (run _ _ _) as [w1 [[[new|]|reason]|[]]]; try (by intros [= <- <- <-]).
  case_match; by intros [= <- <- <-].
Qed.

(** With the arguments the hooks left it, and some runs of the hooks after [w],
    the tool of the call was unknown or approved. *)
Definition deferred_cleared (w : W) (auto_approved : gset string) (tc : ToolCall) : Prop :=
  ∃ w0, rtc (hook_step (ad_chat deps)) w w0 ∧
    match cx_tools (ad_chat deps) w0 !! tc_name tc with
    | None => True
    | Some tool => call_approved (requires_approval (W := W) tool (tc_arguments tc)) auto_approved (tc_name tc)
    end.

Lemma deferred_cleared_earlier w w' auto tc :
  rtc (hook_step (ad_chat deps)) w w' → deferred_cleared w' auto tc → deferred_cleared w auto tc.
Proof. intros Hr (w0 & H0 & Hc). exists w0. split; [by etrans|done]. Qed.

Lemma deferred_not_required w auto tc :
  approval_required_deferred_tool auto tc w = None → deferred_cleared w auto tc.
Proof.
  unfold approval_required_deferred_tool. intros Ha. exists w. split; [done|].
  destruct (cx_tools (ad_chat deps) w !! tc_name tc) as [tool|]; [|done]. simpl in *.
  destruct (requires_approval tool _); [done| |done]. cbn [call_approved]. by case_bool_decide.
Qed.

Lemma deferred_hook_step user tc sensitive w w' r :
  run_before_tool_call_hook_for_deferred user tc sensitive w = (w', r) → hook_step (ad_chat deps) w w'.
Proof.
  unfold run_before_tool_call_hook_for_deferred. set (e := EvToolCall _ _ _ _). intros E. exists e.
  destruct (run _ e w) as [w1 [[[new|]|reason]|[]]]; by injection E as <- _.
Qed.

Lemma classify_deferred_spec user auto idx original w w' o :
  classify_deferred_tool_call user auto idx original w = (w', o) →
  hook_step (ad_chat deps) w w' ∧
  match o with
  | DpRejected tc _ => call_sig tc = call_sig original
  | DpNeedsApproval i tc _ => call_sig tc = call_sig original ∧ i = idx
  | DpRunnable tc => call_sig tc = call_sig original ∧ deferred_cleared w' auto tc
  end.
Proof.
  unfold classify_deferred_tool_call.
  destruct (run_before_tool_call_hook_for_deferred _ _ _ w) as [w1 [tc rej]] eqn:Eh.
  pose proof (deferred_hook_step _ _ _ _ _ _ Eh) as Hstep.
  apply deferred_hook_sig in Eh. destruct rej as [msg|]; [by intros [= <- <-]|].
  destruct (approval_required_deferred_tool auto tc w1) eqn:Ea; intros [= <- <-]; [done|].
  split_and!; [done|done|]. by apply deferred_not_required.
Qed.

Lemma preflight_from_spec user auto idx calls b w w' b' approval :
  preflight_from user auto idx calls b w = (w', (b', approval)) → idx = length (db_preflight b) →
  ∃ pf, db_preflight b' = db_preflight b ++ pf ∧
    db_runnable b' = db_runnable b ++ (runnable_of idx pf).*2 ∧
    rtc (hook_step (ad_chat deps)) w w' ∧ Forall (deferred_cleared w auto) (runnable_of idx pf).*2 ∧
    match approval with
    | None => call_sig <$> pf.*1 = call_sig <$> calls
    | Some (i, tc, _) => i = idx + length pf ∧ length pf < length calls ∧
        call_sig <$> pf.*1 ++ [tc] = call_sig <$> take (S (length pf)) calls
    end.
Proof.
  revert idx b w. induction calls as [|original calls IH]; intros idx b w E Hidx; cbn [preflight_from] in E.
  { injection E as <- <- <-. exists []. by rewrite !app_nil_r. }
  destruct (classify_deferred_tool_call user auto idx original w) as [w1 o] eqn:Ec.
  apply classify_deferred_spec in Ec as [Hstep Ec].
  assert (∀ l, Forall (deferred_cleared w1 auto) l → Forall (deferred_cleared w auto) l) as Hback.
  { intros l Hf. eapply Forall_impl; [exact Hf|]. intros tc. by apply deferred_cleared_earlier, rtc_once. }
  destruct o as [tc msg|i tc tool|tc].
  - apply IH in E as (pf & Hp & Hr & Hw & Hc & Ha); [|by simpl; rewrite length_app; simpl; lia].
    exists ((tc, PfRejected msg) :: pf). rewrite Hp, Hr. simpl. rewrite <-app_assoc.
    split_and!; [done|done|by eapply rtc_l|by apply Hback|]. destruct approval as [[[i tc'] tool]|].
    + destruct Ha as (Hi & Hl & Hs). split_and!; [lia|lia|]. rewrite Ec. f_equal. exact Hs.
    + rewrite Ec. f_equal. exact Ha.
  - injection E as <- <- <-. exists []. rewrite !app_nil_r. destruct Ec as [Ec ->].
    simpl. split_and!; [done|done|by apply rtc_once|done|lia|lia|]. by rewrite Ec.
  - destruct Ec as [Ec Hcl].
    apply IH in E as (pf & Hp & Hr & Hw & Hc & Ha); [|by simpl; rewrite length_app; simpl; lia].
    exists ((tc, PfRunnable) :: pf). rewrite Hp, Hr. simpl. rewrite <-!app_assoc.
    split_and!; [done|done|by eapply rtc_l|apply Hback; by constructor|]. destruct approval as [[[i tc'] tool]|].
    + destruct Ha as (Hi & Hl & Hs). split_and!; [lia|lia|]. rewrite Ec. f_equal. exact Hs.
    + rewrite Ec. f_equal. exact Ha.
Qed.

Lemma postflight_deferred_answers sc p pf results messages auth io w w' messages' auth' :
  postflight_deferred sc p pf results messages auth io w = (w', (messages', auth')) →
  ∃ ms, messages' = messages ++ ms ∧ Forall2 answers ms pf.*1.
Proof.
  revert results messages auth w.
  induction pf as [|[tc [msg|]] pf IH]; intros results messages auth w E; cbn [postflight_deferred] in E.
  - injection E as <- <- <-. exists []. by rewrite app_nil_r.
  - apply IH in E as (ms & -> & Hf). eexists (_ :: ms). rewrite <-app_assoc. split; [done|]. by constructor.
  - match type of E with (let '(_, _) := ?e in _) = _ => destruct e as [w1 auth1] end.
    apply IH in E as (ms & -> & Hf). eexists (_ :: ms). rewrite <-app_assoc. split; [done|]. by constructor.
Qed.

Lemma runnable_sublist idx (pf : list (ToolCall * PreflightOutcome)) : sublist (runnable_of idx pf).*2 pf.*1.
Proof.
  revert idx. induction pf as [|[tc [msg|]] pf IH]; intros k; simpl; [constructor|..].
  - apply sublist_cons, IH.
  - apply sublist_skip, IH.
Qed.

(** An authentication that ends the flow was asked for by the result of a call that ran. *)
Lemma postflight_deferred_auth sc p pf results messages auth io w w' messages' ins k :
  postflight_deferred sc p pf results messages auth io w = (w', (messages', Some ins)) →
  auth = Some ins ∨
  ∃ tc r ext, tc ∈ (runnable_of k pf).*2 ∧ check_auth_required (tc_name tc) r = Some (ext, ins).
Proof.
  revert results messages auth w k.
  induction pf as [|[tc [msg|]] pf IH]; intros results messages auth w k E; cbn [postflight_deferred] in E.
  - injection E as <- <- ->. by left.
  - by apply (IH _ _ _ _ (S k)) in E.
  - set (r := default (no_result tc) (head results)) in E. clearbody r. simpl.
    match type of E with (let '(_, _) := ?e in _) = _ => destruct e as [w1 auth1] eqn:Ea end.
    apply (IH _ _ _ _ (S k)) in E as [->|(tc' & r' & ext & Hin & Hc)].
    + destruct auth as [a|]; [injection Ea as _ ->; by left|].
      destruct (check_auth_required (tc_name tc) r) as [[ext ins']|] eqn:Ec; [|done].
      injection Ea as _ ->. right. exists tc, r, ext. split; [by left|done].
    + right. exists tc', r', ext. split; [by right|done].
Qed.

Lemma handled_prefix (pf : list (ToolCall * PreflightOutcome)) deferred (approval : option (nat * ToolCall * A)) :
  match approval with
  | None => call_sig <$> pf.*1 = call_sig <$> deferred
  | Some (i, tc, _) => i = 0 + length pf ∧ length pf < length deferred ∧
      call_sig <$> pf.*1 ++ [tc] = call_sig <$> take (S (length pf)) deferred
  end →
  call_sig <$> pf.*1 = call_sig <$> take (length pf.*1) deferred ∧ length pf.*1 ≤ length deferred.
Proof.
  rewrite length_fmap. destruct approval as [[[i tc] tool]|].
  - intros (_ & Hl & Hs). split; [|lia]. apply (f_equal (take (length pf))) in Hs.
    rewrite <-!fmap_take, take_app_le, take_ge, take_take in Hs by (rewrite ?length_fmap; lia).
    rewrite Hs. f_equal. f_equal. lia.
  - intros Ha. rewrite Ha. apply (f_equal length) in Ha. rewrite !length_fmap in Ha. split; [|lia].
    by rewrite take_ge by lia.
Qed.

(** A property of the world that statuses, the store, hooks, work on the thread
    and the execution of the calls [ran] keep. *)
Definition keeps (sc : TurnScope) (job_ctx : JobContext) (ran : list ToolCall) (P : W → Prop) : Prop :=
  (∀ s w, P w → P (tell sc s w)) ∧ (∀ st w, P w → P (set_w_store st w)) ∧
  (∀ e w, P w → P (run (cx_hooks (ad_chat deps)) e w).1) ∧
  (∀ t w, P w → P (put_thread (sp_session sc) (sp_thread_id sc) t w)) ∧
  (∀ tc w, tc ∈ ran → P w →
     P (execute_chat_tool (ad_chat deps) (tc_name tc) (tc_arguments tc) job_ctx w).1).

Section Keeps.
Variable sc : TurnScope.
Variable job_ctx : JobContext.
Variable ran : list ToolCall.
Variable P : W → Prop.
Hypothesis Pkeeps : keeps sc job_ctx ran P.

Lemma keeps_alter f w : P w → P (alter_thread (sp_session sc) (sp_thread_id sc) f w).
Proof. intros Hw. unfold alter_thread. case_match; [|done]. by apply Pkeeps. Qed.

Lemma keeps_hooks w w' : rtc (hook_step (ad_chat deps)) w w' → P w → P w'.
Proof. induction 1 as [|w w1 w2 [e ->] _ IH]; [done|]. intros Hw. by apply IH, Pkeeps. Qed.

Lemma keeps_one tc w : tc ∈ ran → P w → P (run_deferred_one sc job_ctx tc w).1.
Proof.
  destruct Pkeeps as (Ht & _ & _ & _ & He). intros Hin Hw. unfold run_deferred_one.
  pose proof (He tc (tell sc (ToolStarted (tc_name tc)) w) Hin (Ht _ _ Hw)) as H1.
  destruct (execute_chat_tool _ _ _ _ _) as [w1 r]. by apply Ht.
Qed.

Lemma keeps_tasks order w : P w → P (run_deferred_tasks sc job_ctx order ran w).1.
Proof.
  destruct Pkeeps as (Ht & _ & _ & _ & He).
  revert w. induction order as [|[k lost] order IH]; intros w Hw; [done|]. cbn [run_deferred_tasks].
  destruct (ran !! k) as [tc|] eqn:Hk; [|by apply IH]. apply list_elem_of_lookup_2 in Hk. destruct lost.
  - pose proof (He tc (tell sc (ToolStarted (tc_name tc)) w) Hk (Ht _ _ Hw)) as H1.
    destruct (execute_chat_tool _ _ _ _ _) as [w1 r]. by apply IH.
  - pose proof (keeps_one tc w Hk Hw) as H1. destruct (run_deferred_one _ _ _ _) as [w1 r]. simpl in H1.
    specialize (IH w1 H1). by destruct (run_deferred_tasks _ _ _ _ w1).
Qed.

Lemma keeps_execute order w : P w → P (execute_runnable_deferred sc job_ctx order ran w).1.
Proof.
  intros Hw. pose proof (keeps_tasks order w Hw) as Hall. pose proof (λ tc, keeps_one tc w) as Hone.
  unfold execute_runnable_deferred. destruct ran as [|tc [|tc' l]]; [done|..].
  - specialize (Hone tc). destruct (run_deferred_one _ _ _ _). apply Hone; [|done]. set_solver.
  - by destruct (run_deferred_tasks _ _ _ _ _).
Qed.

Lemma keeps_intercept r ext ins p io w : P w → P (handle_auth_intercept sc r ext ins p io w).
Proof.
  destruct Pkeeps as (Ht & Hst & _ & Hp & _). intros Hw. unfold handle_auth_intercept.
  destruct (thread_of _ _ w); [destruct (turn_summary_or _) as [n calls]; case_match|]; auto.
Qed.

Lemma keeps_postflight p pf results messages auth io w :
  P w → P (postflight_deferred sc p pf results messages auth io w).1.
Proof.
  assert (∀ n c w, P w → P (send_result_preview sc n c w)) as Hprev.
  { intros n c w0 H0. unfold send_result_preview. case_bool_decide; [done|]. by apply Pkeeps. }
  revert results messages auth w.
  induction pf as [|[tc [msg|]] pf IH]; intros results messages auth w Hw; cbn [postflight_deferred]; [done|..].
  - by apply IH, keeps_alter.
  - match goal with |- context [let '(_, _) := ?e in _] => assert (P e.1) as H1; [|destruct e as [w1 a1]] end.
    + repeat case_match; simpl; try apply keeps_intercept; by apply keeps_alter; auto.
    + by apply IH.
Qed.
End Keeps.


(** ** Deviations *)

(** Turns are numbered from 0, so the tool calls of a thread's first turn are
    not stored when the turn ends in a request for a token. *)
Lemma first_turn_calls_not_stored sc r ext instructions p io w t tn :
  thread_of (sp_session sc) (sp_thread_id sc) w = Some t → last (turns t) = Some tn → turn_number tn = 0 →
  w_store (handle_auth_intercept sc r ext instructions p io w) =
  persist_assistant_response (sp_thread_id sc) (me_user_id (sp_env sc)) instructions (w_store w).
Proof.
  intros Ht Hl Hn. unfold handle_auth_intercept. rewrite Ht.
  assert (∀ t' : Thread, turns t' = alter_last (λ tn, turn_complete tn instructions (io_now io 0)) (turns t) →
    (turn_summary_or t').1 = 0) as Hs.
  { intros t' E. unfold turn_summary_or, turn_summary. rewrite E, last_alter_last, Hl. done. }
  set (t' := enter_auth_mode _ _ _). specialize (Hs t').
  destruct (turn_summary_or t') as [n calls]. simpl in Hs.
  rewrite Hs by (unfold t'; by destruct p). simpl. unfold put_thread. by destruct (session_of _ w).
Qed.

(** The pending call kept for the time after authentication is dropped when the
    token is accepted. *)
Lemma accepted_token_drops_pending sc pending token io w w' mgr result t :
  ad_extensions deps = Some mgr →
  em_auth mgr (extension_name pending) (Some (trim token)) w = (w', Ok result) →
  is_authenticated result = true →
  (∀ e w, w_manager (em_activate mgr e w).1 = w_manager w) →
  thread_of (sp_session sc) (sp_thread_id sc) w' = Some t →
  ∃ t', thread_of (sp_session sc) (sp_thread_id sc) (process_auth_token sc pending token io w).1 = Some t' ∧
    pending_approval t' = None ∧ pending_auth t' = None ∧ th_state t' = Idle.
Proof.
  intros Hm Ha Hr Hq Ht. unfold process_auth_token. rewrite Hm, Ha, Hr. unfold alter_thread. rewrite Ht.
  unfold activate_extension_and_notify. rewrite Hm.
  match goal with |- context [em_activate mgr ?e ?w0] =>
    pose proof (Hq e w0) as Hw; destruct (em_activate mgr e w0) as [w1 [tools|err]] end; simpl in *;
  eexists; (split; [rewrite <-(thread_of_put _ _ (clear_pending_approval (set_pending_auth None t) (io_now io 0)) _ _ Ht);
    apply thread_of_heap; simpl; by rewrite Hw|done]).
Qed.

(** An interrupted continuation is not recorded, but its reply is sent. *)
Lemma interrupted_continuation_answers sc messages io w w' response w2 text t :
  ag_run_agentic_loop (ad_agent deps) (to_message sc (io_uuid io 0) (io_now io 2)) (sp_session sc)
    (sp_thread_id sc) messages w = (w', Ok (LoopResponse response)) →
  apply_response_transform_hook (ad_agent deps) (me_user_id (sp_env sc)) (sp_thread_id sc) response w' =
    (w2, text) →
  thread_of (sp_session sc) (sp_thread_id sc) w2 = Some t → th_state t = Interrupted →
  continue_loop_after_tool sc messages io w = (w2, Ok (SubResponse text)).
Proof.
  intros Hrun Hh Ht Hs. unfold continue_loop_after_tool. rewrite Hrun, Hh.
  unfold finalize_turn_and_persist_response. rewrite Ht. by rewrite bool_decide_eq_true_2.
Qed.
End Approval.

Section Witnesses.
#[local] Existing Instance json_lite.
#[local] Existing Instance uuid_bits.
#[local] Existing Instance dec_cents.
#[local] Existing Instance literal_regex.
#[local] Existing Instance naive_ac.
#[local] Existing Instance ascii_case.
#[local] Existing Instance memory_store.
#[local] Existing Instance no_hook.

Abbreviation DemoStore := (gmap Uuid (string * string * list ConversationMessage)).

Definition echo_tool : Tool (World DemoStore unit) unit := {|
  tool_name := λ _, "echo"; tool_description := λ _, "echoes"; parameters_schema := λ _, LNull;
  requires_approval := λ _ _, ApprovalAlways; execution_timeout := λ _, default_execution_timeout;
  sensitive_params := λ _, []; rate_limit_config := λ _, None;
  tool_execute := λ _ _ _ w, (w, Some (Ok (output_text "echo" 0%Z))) |}.
#[local] Existing Instance echo_tool.

(** An extension manager that accepts the token "good". *)
Definition demo_extensions : ExtensionManager (St := DemoStore) (X := unit) := {|
  em_auth := λ name token w,
    (w, Ok (if bool_decide (token = Some "good") then authenticated name McpServer
            else awaiting_token name McpServer "Paste the token" None));
  em_activate := λ _ w, (w, Ok ["search"]) |}.

Definition demo_approval_deps : ApprovalDeps (St := DemoStore) (X := unit) (H := Empty_set) (A := unit) := {|
  ad_agent := demo_agent;
  ad_chat := {| cx_safety := demo_safety; cx_hooks := []; cx_tools := λ _, {["echo" := tt]};
                cx_auto_approve_tools := false; cx_to_string_pretty := λ _, "" |};
  ad_http_interceptor := None; ad_valid_timezone := λ _, true; ad_extensions := Some demo_extensions |}.

Definition demo_pending : PendingApproval := {|
  pa_request_id := 9%N; pa_tool_name := "echo"; pa_parameters := LNull; pa_display_parameters := LNull;
  pa_description := "echoes"; pa_tool_call_id := "call_1"; pa_context_messages := [];
  pa_deferred_tool_calls := []; pa_user_timezone := None |}.

Definition waiting_thread : Thread := await_approval (demo_thread Processing 1) demo_pending 0%Z.

Definition waiting_world : World DemoStore unit := put_thread 0 7%N waiting_thread (demo_world Processing 1).

Lemma approval_gate_witness :
  let sc := turn_scope_new 0 7%N demo_message in
  process_approval demo_approval_deps sc
    {| ap_request_id := Some 8%N; ap_approved := true; ap_always := false |} [] demo_io waiting_world =
  (put_thread 0 7%N (await_approval waiting_thread demo_pending 5%Z) waiting_world,
   Ok (SubError "Request ID mismatch. Use the correct request ID.")).
Proof.
  intros sc.
  exact (approval_gate demo_approval_deps sc
    {| ap_request_id := Some 8%N; ap_approved := true; ap_always := false |} [] demo_io waiting_world
    waiting_thread eq_refl).
Defined.
End Witnesses.
