(* ===== verification/HandleMessage.v ===== *)
(** * Handling a message

    Models [src/src/agent/thread_ops.rs] and
    [src/src/agent/thread_ops/dispatch.rs]: from a message to the answer, by way
    of hydration, the interception of tokens, the inbound hook and the handler
    of the submission; and the body of the agent's main loop
    ([src/src/agent/agent_loop.rs], [agent_loop/notifications.rs]), which sends
    the answer and stops on a shutdown. *)

From S2P Require Import Prelude Text Externals LlmTypes JobState JobManager Session Undo Hooks.
From S2P Require Import LeakDetector Safety Submission SessionManager MessageRebuild.
From S2P Require Import Compaction ToolExec JobTools Messages AgenticLoop DocumentStore Turns.
From S2P Require Import ExtAuth ChatTools ThreadControl Approval.

Section Handle.
Context {J : SerdeJson} {T : UuidText} {D : RustDecimal}.
Context {R : RegexEngine} {C : AhoCorasick} {U : UnicodeCase}.
Context {St X H A : Type} {CS : ConversationStore St}.
Context {HH : Hook (World St X) H} {HT : Tool (World St X) A}.
Abbreviation W := (World St X).
Abbreviation Reply := (result SubmissionResult Error).

(** The agent with the handlers of the commands in [agent/commands.rs], the
    channels, the text forms it uses, and what the main loop calls around a
    message: the two middlewares, the workspace and the routine engine. *)
Record Handlers := {
  hd_approval : ApprovalDeps (St := St) (X := X) (H := H) (A := A);
  hd_json_submission : string → option Submission;
  hd_set_message_tool_context : string → string → W → W;
  hd_send_status : string → StatusUpdate → W → W * result unit string;
  hd_respond : IncomingMessage → string → W → W;
  hd_system_command : string → list string → string → W → W * Reply;
  hd_heartbeat : W → W * Reply;
  hd_summarize : Arc → Uuid → W → W * Reply;
  hd_suggest : Arc → Uuid → W → W * Reply;
  hd_job_status : string → option string → W → W * Reply;
  hd_job_cancel : string → string → W → W * Reply;
  hd_percent : nat → nat → string;
  hd_transcription : option (IncomingMessage → W → W * IncomingMessage);
  hd_document_extraction : option (IncomingMessage → W → W * IncomingMessage);
  hd_workspace_write : option (string → string → W → W);
  hd_event_triggers : option (IncomingMessage → W → W);
}.

(** What the handling of one message reads from the clock, the generator of
    identifiers and the scheduler; [mi_others] is what other tasks do while a
    lock is released. *)
Record MessageInputs := {
  mi_session : Inputs;
  mi_thread : Inputs;
  mi_command : Inputs;
  mi_io : Io;
  mi_turn : TurnIo;
  mi_order : list (nat * bool);
  mi_others : nat → W → W;
  mi_date : string;
}.

Variable hd : Handlers.
Abbreviation agent := (ad_agent (hd_approval hd)).

Definition parse_submission (content : string) : Submission := parse (hd_json_submission hd) content.

(** ** Tokens *)

Definition set_in_flight (b : bool) (t : Thread) : Thread := {|
  th_id := th_id t; th_session_id := th_session_id t; th_state := th_state t; turns := turns t;
  th_created_at := th_created_at t; th_updated_at := th_updated_at t; th_metadata := th_metadata t;
  pending_approval := pending_approval t; pending_auth := pending_auth t; in_flight_auth := b |}.

(** The pending request is claimed under the lock. *)
Definition claim_pending_auth (a : Arc) (id : Uuid) (w : W) : W * option PendingAuth :=
  match thread_of a id w with
  | Some t =>
      if in_flight_auth t then (w, None)
      else match pending_auth t with
           | None => (w, None)
           | Some p => (put_thread a id (set_in_flight true t) w, Some p)
           end
  | None => (w, None)
  end.

Definition check_auth_mode_intercept (message : IncomingMessage) (submission : Submission) (a : Arc) (id : Uuid)
    (io : Io) (w : W) : W * option (result (option string) Error) :=
  match claim_pending_auth a id w with
  | (w, None) => (w, None)
  | (w, Some pending) =>
      match submission with
      | UserInput content =>
          let '(w, r) := process_auth_token (hd_approval hd) (turn_scope_new a id message) pending content io w in
          let r := match r with Ok None => Ok (Some "") | r => r end in
          (alter_thread a id (set_in_flight false) w, Some r)
      | _ =>
          (alter_thread a id (λ t, set_pending_auth None (set_in_flight false t)) w, None)
      end
  end.

Definition set_tool_context_for_message (message : IncomingMessage) (w : W) : W :=
  let target :=
    match json_get (im_metadata message) "signal_target" ≫= json_as_string with
    | Some s => if bool_decide (s = "") then None else Some s
    | None => None
    end in
  let target := match target with
                | Some s => Some s
                | None => if bool_decide (im_user_id message = "") then None else Some (im_user_id message)
                end in
  match target with
  | Some target => hd_set_message_tool_context hd (im_channel message) target w
  | None => w
  end.

(** ** Dispatch *)

Definition apply_inbound_hook (message : IncomingMessage) (submission : Submission) (w : W) :
    W * result Submission string :=
  let event := EvInbound (im_user_id message) (im_channel message) (im_content message) (im_thread_id message) in
  match run (ag_hooks agent) event w with
  | (w, Err (HookRejected reason)) => (w, Err ("[Message rejected: " +:+ reason +:+ "]"))
  | (w, Err _) => (w, Ok submission)
  | (w, Ok (HookContinue (Some new_content))) => (w, Ok (parse_submission new_content))
  | (w, Ok (HookContinue None)) => (w, Ok submission)
  | (w, Ok (HookReject reason)) => (w, Err ("[Message rejected: " +:+ reason +:+ "]"))
  end.

Definition map_submission_result (message : IncomingMessage) (r : SubmissionResult) (w : W) :
    W * result (option string) Error :=
  match r with
  | SubResponse content => (w, Ok (Some (if is_silent_reply content then "" else content)))
  | SubOk m => (w, Ok m)
  | SubError m => (w, Ok (Some ("Error: " +:+ m)))
  | SubInterrupted => (w, Ok (Some "Interrupted."))
  | Submission.NeedApproval request_id tool description parameters =>
      match hd_send_status hd (im_channel message)
              (ApprovalNeeded (uuid_to_string request_id) tool description parameters) w with
      | (w, Err _) => (w, Ok (Some ("Approval required for `" +:+ tool +:+ "`: " +:+ description)))
      | (w, Ok _) => (w, Ok (Some ""))
      end
  end.

Definition dispatch_approval (message : IncomingMessage) (a : Arc) (id : Uuid) (params : ApprovalParams)
    (mi : MessageInputs) (w : W) : W * Reply :=
  process_approval (hd_approval hd) (turn_scope_new a id message) params (mi_order mi) (mi_io mi) w.

Definition dispatch_submission (message : IncomingMessage) (a : Arc) (id : Uuid) (s : Submission)
    (mi : MessageInputs) (w : W) : W * Reply :=
  match s with
  | UserInput content =>
      process_user_input agent message {| ut_session := a; ut_thread_id := id; ut_content := content |}
        (mi_turn mi) w
  | SystemCommand command args => hd_system_command hd command args (im_channel message) w
  | SUndo => process_undo (mi_others mi) a id (mi_io mi) w
  | SRedo => process_redo (mi_others mi) a id (mi_io mi) w
  | SInterrupt => process_interrupt a id (mi_io mi) w
  | SCompact => process_compact agent (hd_percent hd) a id (mi_io mi) w
  | SClear => process_clear (mi_others mi) a id (mi_io mi) w
  | NewThread => process_new_thread (mi_others mi) message (mi_command mi) w
  | SHeartbeat => hd_heartbeat hd w
  | SSummarize => hd_summarize hd a id w
  | SSuggest => hd_suggest hd a id w
  | JobStatus job_id => hd_job_status hd (im_user_id message) job_id w
  | JobCancel job_id => hd_job_cancel hd (im_user_id message) job_id w
  | SQuit => (w, Ok (SubOk None))
  | SwitchThread target => process_switch_thread (mi_others mi) message target (mi_command mi) w
  | SResume checkpoint_id => process_resume (mi_others mi) a id checkpoint_id (mi_io mi) w
  | ExecApproval request_id approved always =>
      dispatch_approval message a id
        {| ap_request_id := Some request_id; ap_approved := approved; ap_always := always |} mi w
  | ApprovalResponse approved always =>
      dispatch_approval message a id
        {| ap_request_id := None; ap_approved := approved; ap_always := always |} mi w
  end.

(** [None] is the signal to shut down. *)
Definition handle_message (message : IncomingMessage) (mi : MessageInputs) (w : W) :
    W * result (option string) Error :=
  let submission := parse_submission (im_content message) in
  match hydrate_and_resolve_session_thread (mi_others mi) agent message (mi_session mi) (mi_thread mi)
          (mi_io mi) w with
  | (w, Err e) => (w, Err e)
  | (w, Ok (a, id)) =>
      match check_auth_mode_intercept message submission a id (mi_io mi) w with
      | (w, Some r) => (w, r)
      | (w, None) =>
          let w := set_tool_context_for_message message w in
          match apply_inbound_hook message submission w with
          | (w, Err msg) => (w, Ok (Some msg))
          | (w, Ok submission) =>
              if bool_decide (submission = SQuit) then (w, Ok None)
              else
                match dispatch_submission message a id submission mi w with
                | (w, Err e) => (w, Err e)
                | (w, Ok r) => map_submission_result message r w
                end
          end
      end
  end.

(** ** The main loop *)

Definition apply_before_outbound_hooks (message : IncomingMessage) (content : string) (w : W) :
    W * option string :=
  let event := EvOutbound (im_user_id message) (im_channel message) content (im_thread_id message) in
  match run (ag_hooks agent) event w with
  | (w, Err (HookRejected _)) => (w, None)
  | (w, Err _) => (w, Some content)
  | (w, Ok (HookContinue (Some new_content))) => (w, Some new_content)
  | (w, Ok (HookContinue None)) => (w, Some content)
  | (w, Ok (HookReject _)) => (w, None)
  end.

(** Transcription and document extraction rewrite the message; the texts
    extracted are stored. *)
Definition prepare_message (message : IncomingMessage) (mi : MessageInputs) (w : W) : W * IncomingMessage :=
  let '(w, message) :=
    match hd_transcription hd with Some process => process message w | None => (w, message) end in
  let '(w, message) :=
    match hd_document_extraction hd with Some process => process message w | None => (w, message) end in
  (match hd_workspace_write hd with
   | Some write => store_extracted_documents write (mi_date mi) message w
   | None => w
   end, message).

(** Sends what [handle_message] answered; the flag says whether the loop goes
    on. *)
Definition deliver (message : IncomingMessage) (answer : result (option string) Error) (w : W) : W * bool :=
  match answer with
  | Ok (Some response) =>
      if bool_decide (response = "") then (w, true)
      else
        match apply_before_outbound_hooks message response w with
        | (w, Some response) => (hd_respond hd message response w, true)
        | (w, None) => (w, true)
        end
  | Ok None => (w, false)
  | Err e => (hd_respond hd message ("Error: " +:+ error_display e) w, true)
  end.

(** One message of [Agent::run]. *)
Definition agent_step (message : IncomingMessage) (mi : MessageInputs) (w : W) : W * bool :=
  let '(w, message) := prepare_message message mi w in
  let '(w, answer) := handle_message message mi w in
  match deliver message answer w with
  | (w, true) => (match hd_event_triggers hd with Some fire => fire message w | None => w end, true)
  | (w, false) => (w, false)
  end.

(** Messages are handled one after the other. *)
Fixpoint agent_run (messages : list (IncomingMessage * MessageInputs)) (w : W) : W :=
  match messages with
  | [] => w
  | (message, mi) :: messages =>
      match agent_step message mi w with
      | (w, true) => agent_run messages w
      | (w, false) => w
      end
  end.

(** ** Tokens stay out of the conversation *)

(** A step that keeps the sessions and the store. *)
Definition private {B} (f : W → W * B) : Prop :=
  ∀ w, w_manager (f w).1 = w_manager w ∧ w_store (f w).1 = w_store w.

Definition private_manager (mgr : ExtensionManager) : Prop :=
  (∀ e token, private (em_auth mgr e token)) ∧ (∀ e, private (em_activate mgr e)).

(** Threads that differ in the markers of authentication only. *)
Definition same_turns (t t' : Thread) : Prop := turns t' = turns t ∧ th_id t' = th_id t.

Lemma put_thread_keeps a id t (w : W) :
  w_store (put_thread a id t w) = w_store w ∧ w_rest (put_thread a id t w) = w_rest w.
Proof. unfold put_thread. by destruct (session_of a w). Qed.

Lemma alter_thread_some a id f (w : W) t :
  thread_of a id w = Some t →
  thread_of a id (alter_thread a id f w) = Some (f t) ∧ w_store (alter_thread a id f w) = w_store w.
Proof.
  intros Ht. unfold alter_thread. rewrite Ht. split; [by eapply thread_of_put|apply put_thread_keeps].
Qed.

(** What the check of a token by the extension manager leads to: an accepted one
    ends the waiting and is answered with a message, any other is answered with
    the empty text and the thread goes on waiting. *)
Definition token_checked (pending : PendingAuth) (token : string) (w : W) (r : result (option string) Error)
    (t' : Thread) : Prop :=
  match ad_extensions (hd_approval hd) with
  | None => r = Ok (Some "Extension manager not available.")
  | Some mgr =>
      match (em_auth mgr (extension_name pending) (Some (trim token)) w).2 with
      | Ok result =>
          if is_authenticated result then pending_auth t' = None ∧ ∃ msg, r = Ok (Some msg)
          else pending_auth t' = Some pending ∧ r = Ok (Some "")
      | Err _ => pending_auth t' = Some pending ∧ r = Ok (Some "")
      end
  end.

Lemma process_auth_token_private sc pending token io w t :
  (∀ mgr, ad_extensions (hd_approval hd) = Some mgr → private_manager mgr) →
  thread_of (sp_session sc) (sp_thread_id sc) w = Some t →
  let '(w', r) := process_auth_token (hd_approval hd) sc pending token io w in
  ∃ t', thread_of (sp_session sc) (sp_thread_id sc) w' = Some t' ∧ same_turns t t' ∧ w_store w' = w_store w ∧
    token_checked pending token w (match r with Ok None => Ok (Some "") | r => r end) t'.
Proof.
  intros Hpriv Ht. unfold token_checked, process_auth_token, activate_extension_and_notify, reenter_auth_mode_and_notify.
  destruct (ad_extensions (hd_approval hd)) as [mgr|]; [|by exists t].
  destruct (Hpriv mgr eq_refl) as [Hauth Hact].
  destruct (Hauth (extension_name pending) (Some (trim token)) w) as [Hm Hs].
  destruct (em_auth _ _ _ w) as [w1 [result|e]]; simpl in Hm, Hs;
    (assert (thread_of (sp_session sc) (sp_thread_id sc) w1 = Some t) as Ht1
       by (rewrite <-Ht; apply thread_of_heap; by rewrite Hm)); cbn [snd].
  - destruct (is_authenticated result).
    + destruct (alter_thread_some _ _ (λ t, clear_pending_approval (set_pending_auth None t) (io_now io 0)) _ _ Ht1)
        as [Ht2 Hs2].
      match goal with |- context [em_activate mgr ?e ?w0] =>
        destruct (Hact e w0) as [Hm3 Hs3]; destruct (em_activate mgr e w0) as [w3 [tools|err]] end;
      simpl in *; eexists; (split; [erewrite <-Ht2; apply thread_of_heap; simpl; by rewrite Hm3|]);
      (split; [done|split; [simpl; congruence|split; [done|by eexists]]]).
    + destruct (alter_thread_some _ _ (λ t, enter_auth_mode t (extension_name pending) (io_now io 0)) _ _ Ht1)
        as [Ht2 Hs2].
      eexists. split; [exact Ht2|]. split; [done|]. split; [simpl; congruence|]. by destruct pending.
  - destruct (alter_thread_some _ _ (set_pending_auth (Some pending)) _ _ Ht1) as [Ht2 Hs2].
    destruct (alter_thread_some _ _ (λ t, enter_auth_mode t (extension_name pending) (io_now io 0)) _ _ Ht2)
      as [Ht3 Hs3].
    eexists. split; [exact Ht3|]. split; [done|]. split; [simpl; congruence|]. by destruct pending.
Qed.

(** C16. A token stays out of the conversation.  While a thread waits for a token and
    no other is being checked, the handling of a plain text gives the trimmed text
    to the extension manager's check for the awaited extension, and its verdict
    alone decides: an accepted token ends the waiting, any other leaves the thread
    waiting, without an extension manager the answer says so.  As long as the
    extension manager keeps to itself, the turns of the thread and the store are as
    before, and the claim is released again; the text reaches no hook, no other
    handler and not the model, since the answer and the world are those of the
    interception alone.  (Outside of this handling, the main loop of the agent
    shows every message, this one too, to the event triggers of the routines.) *)
Theorem auth_token_confined (message : IncomingMessage) (mi : MessageInputs) (w w1 : W) (a : Arc) (id : Uuid)
    (t : Thread) (pending : PendingAuth) (text : string)
    (Hresolve : hydrate_and_resolve_session_thread (mi_others mi) agent message (mi_session mi) (mi_thread mi)
                  (mi_io mi) w = (w1, Ok (a, id)))
    (Ht : thread_of a id w1 = Some t) (Hpending : pending_auth t = Some pending)
    (Hfree : in_flight_auth t = false) (Htext : parse_submission (im_content message) = UserInput text)
    (Hpriv : ∀ mgr, ad_extensions (hd_approval hd) = Some mgr → private_manager mgr) :
  ∃ w' r t', handle_message message mi w = (w', r) ∧
    check_auth_mode_intercept message (UserInput text) a id (mi_io mi) w1 = (w', Some r) ∧
    token_checked pending text (put_thread a id (set_in_flight true t) w1) r t' ∧
    w_store w' = w_store w1 ∧ thread_of a id w' = Some t' ∧ turns t' = turns t ∧ in_flight_auth t' = false.
Proof.
  unfold handle_message. rewrite Hresolve, Htext. unfold check_auth_mode_intercept, claim_pending_auth.
  rewrite Ht, Hfree, Hpending.
  set (w2 := put_thread a id (set_in_flight true t) w1).
  pose proof (process_auth_token_private (turn_scope_new a id message) pending text (mi_io mi) w2
    (set_in_flight true t) Hpriv (thread_of_put _ _ _ _ _ Ht)) as Hp.
  destruct (process_auth_token _ _ _ _ _ w2) as [w3 r]. destruct Hp as (t3 & Ht3 & [Hturns _] & Hs3 & Hchecked).
  simpl in Ht3, Hs3. destruct (alter_thread_some _ _ (set_in_flight false) _ _ Ht3) as [Ht4 Hs4].
  eexists _, _, (set_in_flight false t3). split; [reflexivity|]. split; [reflexivity|]. split; [exact Hchecked|].
  split; [rewrite Hs4, Hs3; apply put_thread_keeps|]. split; [exact Ht4|]. split; [exact Hturns|done].
Qed.

(** A second token, sent while the first is being checked, is not intercepted. *)
Lemma second_token_not_intercepted message s a id io w t :
  thread_of a id w = Some t → in_flight_auth t = true →
  check_auth_mode_intercept message s a id io w = (w, None).
Proof. intros Ht Hf. unfold check_auth_mode_intercept, claim_pending_auth. by rewrite Ht, Hf. Qed.

(** ** Shutdown *)

Definition answers_something (r : Reply) : Prop := r ≠ Ok (SubOk None).

(** The commands handled elsewhere always say something. *)
Definition commands_answer : Prop :=
  (∀ intent m w, answers_something (ag_handle_job_or_command agent intent m w).2) ∧
  (∀ c args ch w, answers_something (hd_system_command hd c args ch w).2) ∧
  (∀ w, answers_something (hd_heartbeat hd w).2) ∧
  (∀ a id w, answers_something (hd_summarize hd a id w).2) ∧
  (∀ a id w, answers_something (hd_suggest hd a id w).2) ∧
  (∀ u j w, answers_something (hd_job_status hd u j w).2) ∧
  (∀ u j w, answers_something (hd_job_cancel hd u j w).2).

Lemma loop_result_answers message a id res io (w : W) :
  answers_something (handle_loop_result agent message a id res io w).2.
Proof.
  unfold handle_loop_result. destruct (thread_of a id w); [|done].
  case_bool_decide; [done|]. destruct res as [[response|p]|e]; [|done|done].
  unfold handle_response. destruct (apply_response_transform_hook _ _ _ _ w) as [w1 text].
  destruct (thread_of a id w1); [|done]. case_bool_decide; [done|]. by destruct (turn_summary _).
Qed.

Lemma user_input_answers message req ti w :
  commands_answer → answers_something (process_user_input agent message req ti w).2.
Proof.
  intros [Hc _]. unfold process_user_input.
  assert (∀ st r, thread_state_submission_result st = Some r → answers_something (Ok r)) as Hst.
  { intros [] r; simpl; by intros [= <-]. }
  assert (∀ c r, validate_safety (ag_safety agent) c = Some r → answers_something (Ok r)) as Hsafe.
  { intros c r. unfold validate_safety. repeat case_match; try (by intros [= <-]).
    destruct (scan_inbound_for_secrets _ _); by intros [= <-]. }
  unfold check_thread_state. destruct (thread_of _ _ w) as [t|]; [|done].
  destruct (thread_state_submission_result _) eqn:E1; [by eapply Hst|].
  destruct (validate_safety _ _) eqn:E2; [by eapply Hsafe|]. destruct (route_command _ _); [apply Hc|].
  destruct (maybe_compact_context _ _ _ _ _ w) as [w1 [[]|e]]; [|done].
  destruct (checkpoint_before_turn _ _ _ w1) as [w2 [[]|e]]; [|done].
  unfold prepare_turn. destruct (effective_content _ _ _) as [text parts].
  destruct (validate_safety (ag_safety agent) text) eqn:E3; [by eapply Hsafe|].
  destruct (thread_of _ _ w2) as [t2|]; [|done].
  destruct (thread_state_submission_result (th_state t2)) eqn:E4; [by eapply Hst|].
  destruct (ag_run_agentic_loop _ _ _ _ _ _) as [w3 res]. apply loop_result_answers.
Qed.

Lemma approval_answers sc params order io w :
  answers_something (process_approval (hd_approval hd) sc params order io w).2.
Proof.
  unfold process_approval. destruct (take_pending_approval_if_awaiting _ _ _ w) as [w1 [[p|]|e]]; [|done|done].
  unfold restage_on_request_id_mismatch.
  assert (∀ w, answers_something (run_approved (hd_approval hd) sc p order io w).2) as Hrun.
  { clear. intros w. unfold run_approved. destruct (execute_primary_tool_and_notify _ _ _ _ w) as [w1 r].
    destruct (record_sanitized_primary_result _ _ _ _ w1) as [w2 c].
    destruct (check_auth_required _ r) as [[ext ins]|]; [done|].
    destruct (build_context_and_notify_for_deferred _ _ _ w2) as [w3 ms].
    unfold handle_deferred_tools_flow. destruct (preflight_deferred_tools _ _ _ w3) as [w4 [b ap]].
    destruct (execute_runnable_deferred _ _ _ _ _ w4) as [w5 rs].
    destruct (postflight_deferred _ _ _ _ _ _ _ _ w5) as [w6 [ms' [ins|]]]; [done|].
    destruct ap as [[[i tc] tool]|]; [done|].
    unfold continue_loop_after_tool. destruct (ag_run_agentic_loop _ _ _ _ _ w6) as [w7 [[resp|q]|e]].
    - destruct (apply_response_transform_hook _ _ _ _ w7) as [w8 text].
      by destruct (finalize_turn_and_persist_response _ _ _ w8) as [w9 [[]|e]].
    - unfold enter_awaiting_approval_and_notify. by destruct (thread_of _ _ w7).
    - unfold fail_turn_and_error. by destruct (thread_of _ _ w7). }
  destruct (ap_request_id params) as [rid|]; [case_bool_decide; [|done]|];
    (destruct (ap_approved params); [apply Hrun|done]).
Qed.

Lemma rewind_answers others a id op io (w : W) :
  answers_something (process_rewind others a id op io w).2.
Proof.
  unfold process_rewind. destruct (thread_of a id w); [|done].
  destruct (lock_undo_manager id _) as [w1 [u mgr]]. destruct (availability_message mgr op); [done|].
  destruct (perform_rewind _ _ _ _ _) as [mgr' [cp|]]; [|done].
  by destruct (restore_thread_from_checkpoint _ _ _ _ _) as [w2 [[]|e]].
Qed.

Lemma compact_answers percent a id io w : answers_something (process_compact agent percent a id io w).2.
Proof.
  unfold process_compact. destruct (thread_of a id w) as [t|]; [|done].
  destruct (compact _ _ _ _ _ _ w) as [w1 [t' [res|e]]]; [|done].
  destruct (thread_of a id w1); [|done]. by case_match.
Qed.

Lemma resume_answers others a id cp io (w : W) : answers_something (process_resume others a id cp io w).2.
Proof.
  unfold process_resume. destruct (thread_of a id w); [|done].
  destruct (lock_undo_manager id _) as [w1 [u mgr]]. destruct (restore mgr cp) as [mgr' [c|]]; [|done].
  destruct (thread_of a id _); [|done]. by case_match.
Qed.

Lemma dispatch_answers message a id s mi w :
  commands_answer → s ≠ SQuit → answers_something (dispatch_submission message a id s mi w).2.
Proof.
  intros Hc Hs. pose proof Hc as (_ & H1 & H2 & H3 & H4 & H5 & H6).
  destruct s; cbn [dispatch_submission]; auto using user_input_answers, compact_answers, resume_answers.
  - apply approval_answers.
  - apply approval_answers.
  - unfold process_interrupt. destruct (thread_of a id w) as [t|]; [|done]. by destruct (th_state t).
  - apply rewind_answers.
  - apply rewind_answers.
  - unfold process_clear. destruct (thread_of a id w); [|done]. by destruct (lock_undo_manager id _) as [w1 [u m]].
  - unfold process_switch_thread. destruct (lock_session _ _ w) as [w1 b]. destruct (session_of b _) as [x|]; [|done].
    by destruct (switch_thread x _ _) as [x' []].
  - unfold process_new_thread. destruct (lock_session _ _ w) as [w1 b]. by destruct (session_of b _).
  - by destruct Hs.
Qed.

Lemma deliver_stops message answer w w' :
  deliver message answer w = (w', false) → answer = Ok None ∧ w' = w.
Proof.
  unfold deliver. destruct answer as [[r|]|e]; [|by intros [= <-]|done]. case_bool_decide; [done|].
  by destruct (apply_before_outbound_hooks _ _ _) as [w5 []].
Qed.

Lemma handle_message_stops message mi w w' :
  commands_answer → handle_message message mi w = (w', Ok None) →
  ∃ w0, apply_inbound_hook message (parse_submission (im_content message)) w0 = (w', Ok SQuit).
Proof.
  intros Hcommands Hstop. unfold handle_message in Hstop.
  destruct (hydrate_and_resolve_session_thread _ _ _ _ _ _ w) as [w1 [[a id]|e]]; [|done].
  destruct (check_auth_mode_intercept _ _ a id _ w1) as [w2 [r|]] eqn:Ea.
  { exfalso. unfold check_auth_mode_intercept in Ea. destruct (claim_pending_auth a id w1) as [w3 [p|]]; [|done].
    destruct (parse_submission _); try done. destruct (process_auth_token _ _ _ _ _ w3) as [w4 r4].
    injection Ea as <- <-. by destruct r4 as [[m|]|e]. }
  destruct (apply_inbound_hook _ _ _) as [w3 [s|m]] eqn:Eh; [|done].
  case_bool_decide as Hq; [subst s; injection Hstop as <-; eauto|]. exfalso.
  pose proof (dispatch_answers message a id s mi w3 Hcommands Hq) as Hd.
  destruct (dispatch_submission message a id s mi w3) as [w4 [r|e]]; [|done]. simpl in Hd.
  unfold map_submission_result in Hstop.
  destruct r as [c|rid tool desc params|[m|]|m|]; try done; repeat case_match; done.
Qed.

(** C17. Only a quit stops the agent.  As long as the commands handled elsewhere
    always answer with some text, a message shuts the agent down only when it is
    a request to quit, as it came (behind the two middlewares) or as a hook
    rewrote it; no token, approval,
    thread command, failure or reply of the model does. *)
Theorem only_quit_stops (message : IncomingMessage) (mi : MessageInputs) (w w' : W)
    (Hcommands : commands_answer) (Hstop : agent_step message mi w = (w', false)) :
  let m := (prepare_message message mi w).2 in
  ∃ w0, apply_inbound_hook m (parse_submission (im_content m)) w0 = (w', Ok SQuit).
Proof.
  unfold agent_step in Hstop. destruct (prepare_message message mi w) as [wp m]. cbn zeta.
  destruct (handle_message m mi wp) as [w1 answer] eqn:Em. destruct (deliver m answer w1) as [w2 []] eqn:Ed; [done|].
  injection Hstop as <-. destruct (deliver_stops _ _ _ _ Ed) as [-> ->]. by eapply handle_message_stops.
Qed.
End Handle.

Section Witnesses.
#[local] Existing Instance json_lite.
#[local] Existing Instance uuid_bits.
#[local] Existing Instance dec_cents.
#[local] Existing Instance literal_regex.
#[local] Existing Instance naive_ac.
#[local] Existing Instance ascii_case.
#[local] Existing Instance memory_store.
#[local] Existing Instance no_hook.
#[local] Existing Instance echo_tool.

Abbreviation DemoStore := (gmap Uuid (string * string * list ConversationMessage)).

Definition demo_handlers : Handlers (St := DemoStore) (X := unit) (H := Empty_set) (A := unit) := {|
  hd_approval := demo_approval_deps;
  hd_json_submission := λ _, None;
  hd_set_message_tool_context := λ _ _ w, w;
  hd_send_status := λ c s w, (send_status c s w, Ok tt);
  hd_respond := λ _ _ w, w;
  hd_system_command := λ _ _ _ w, (w, Ok (SubResponse "pong!"));
  hd_heartbeat := λ w, (w, Ok (SubResponse "ok"));
  hd_summarize := λ _ _ w, (w, Ok (SubResponse "ok"));
  hd_suggest := λ _ _ w, (w, Ok (SubResponse "ok"));
  hd_job_status := λ _ _ w, (w, Ok (SubResponse "ok"));
  hd_job_cancel := λ _ _ w, (w, Ok (SubResponse "ok"));
  hd_percent := λ _ _, "0.0";
  hd_transcription := None; hd_document_extraction := None; hd_workspace_write := None;
  hd_event_triggers := None |}.

(** The agent of the demonstration answers commands with text. *)
Definition answering_handlers : Handlers := {|
  hd_approval := {| ad_agent := {|
      ag_safety := demo_safety; ag_hooks := []; ag_router := router_new;
      ag_context_monitor := {| context_limit := 20 |}; ag_workspace := true;
      ag_run_agentic_loop := ag_run_agentic_loop demo_agent;
      ag_handle_job_or_command := λ _ _ w, (w, Ok (SubResponse "ok"));
      ag_complete := ag_complete demo_agent; ag_append := ag_append demo_agent;
      ag_base64 := id; ag_percent := λ _ _, "90" |};
    ad_chat := ad_chat demo_approval_deps; ad_http_interceptor := None; ad_valid_timezone := λ _, true;
    ad_extensions := Some demo_extensions |};
  hd_json_submission := hd_json_submission demo_handlers;
  hd_set_message_tool_context := hd_set_message_tool_context demo_handlers;
  hd_send_status := hd_send_status demo_handlers; hd_respond := hd_respond demo_handlers;
  hd_system_command := hd_system_command demo_handlers; hd_heartbeat := hd_heartbeat demo_handlers;
  hd_summarize := hd_summarize demo_handlers; hd_suggest := hd_suggest demo_handlers;
  hd_job_status := hd_job_status demo_handlers; hd_job_cancel := hd_job_cancel demo_handlers;
  hd_percent := hd_percent demo_handlers; hd_transcription := None; hd_document_extraction := None;
  hd_workspace_write := None; hd_event_triggers := None |}.

Definition demo_mi : MessageInputs (St := DemoStore) (X := unit) := {|
  mi_session := demo_fresh; mi_thread := demo_fresh; mi_command := demo_fresh; mi_io := demo_io;
  mi_turn := demo_ti; mi_order := []; mi_others := quiet;
  mi_date := "2026-01-02" |}.

Definition text_message (text : string) : IncomingMessage := incoming_new 3%N "web" "ann" text 5%Z.

(** The conversation of the user is mapped to the thread, which waits for a
    token. *)
Definition token_thread : Thread := enter_auth_mode (demo_thread Idle 1) "notion" 0%Z.

Definition token_world : World DemoStore unit :=
  let w := put_thread 0 7%N token_thread (demo_world Idle 1) in
  set_w_manager (set_thread_map {[message_key (text_message "good") := 7%N]} (w_manager w)) w.

Lemma auth_token_confined_witness :
  ∃ w' r t', handle_message demo_handlers (text_message "good") demo_mi token_world = (w', r) ∧
    w_store w' = w_store token_world ∧ thread_of 0 7%N w' = Some t' ∧ turns t' = turns token_thread ∧
    pending_auth t' = None.
Proof.
  destruct (auth_token_confined demo_handlers (text_message "good") demo_mi token_world token_world 0 7%N
    token_thread {| extension_name := "notion" |} "good") as (w' & r & t' & H1 & _ & Hc & H2 & H3 & H4 & _).
  - unfold hydrate_and_resolve_session_thread. cbn [im_thread_id text_message incoming_new].
    rewrite (resolve_mapped _ _ _ 0 7%N) by reflexivity. reflexivity.
  - reflexivity.
  - reflexivity.
  - reflexivity.
  - vm_compute. reflexivity.
  - intros mgr [= <-]. split; intros; split; reflexivity.
  - exists w', r, t'. split; [exact H1|]. split; [exact H2|]. split; [exact H3|]. split; [exact H4|].
    unfold token_checked in Hc. simpl in Hc. apply Hc.
Defined.

Lemma only_quit_stops_witness :
  ∃ w' w0, agent_step answering_handlers (text_message "/quit") demo_mi token_world = (w', false) ∧
    apply_inbound_hook answering_handlers (text_message "/quit") SQuit w0 = (w', Ok SQuit).
Proof.
  set (w' := (agent_step answering_handlers (text_message "/quit") demo_mi token_world).1).
  assert (agent_step answering_handlers (text_message "/quit") demo_mi token_world = (w', false)) as Hs.
  { unfold w'. rewrite (surjective_pairing (agent_step _ _ _ _)) at 1. f_equal; vm_compute; reflexivity. }
  destruct (only_quit_stops answering_handlers (text_message "/quit") demo_mi token_world w') as [w0 H0].
  - repeat split; intros; discriminate.
  - exact Hs.
  - exists w', w0. split; [exact Hs|exact H0].
Defined.
End Witnesses.
