(* ===== verification/Paths.v ===== *)
(** * Paths of file tools

    Models [src/src/tools/builtin/path_utils.rs]: the lexical normalisation of a
    path and the check that a path stays inside the directory a tool is
    confined to.  A path is the list of its components, as [std::path] compares,
    joins and cuts paths (on Unix); the file system is three functions, with the
    documented form of canonical paths as a hypothesis. *)

From S2P Require Import Prelude Text Externals Allowlist ToolExec.

(** ** std::path *)

Inductive Component :=
| RootDir
| CurDir
| ParentDir
| Normal (name : string).

#[global] Instance Component_eq_dec : EqDecision Component.
Proof. solve_decision. Defined.

Abbreviation Path := (list Component).

(** A dot is a component at the start of a relative path only. *)
Definition component_of (first : bool) (segment : string) : option Component :=
  if bool_decide (segment = "") then None
  else if bool_decide (segment = ".") then (if first then Some CurDir else None)
  else if bool_decide (segment = "..") then Some ParentDir
  else Some (Normal segment).

(** [PathBuf::from] *)
Definition path_from (s : string) : Path :=
  match s with
  | EmptyString => []
  | String c rest =>
      if bool_decide (c = slash) then RootDir :: omap (component_of false) (split_on slash rest)
      else match split_on slash s with
           | [] => []
           | segment :: segments =>
               option_list (component_of true segment) ++ omap (component_of false) segments
           end
  end.

Definition is_absolute (p : Path) : bool := bool_decide (head p = Some RootDir).

(** [base.join(p)] *)
Definition path_join (base p : Path) : Path :=
  if is_absolute p then p
  else base ++ match base, p with
               | _ :: _, CurDir :: p => p
               | _, _ => p
               end.

Definition file_name (p : Path) : option string :=
  match last p with
  | Some (Normal name) => Some name
  | _ => None
  end.

Definition path_parent (p : Path) : option Path :=
  match last p with
  | None | Some RootDir => None
  | Some _ => Some (removelast p)
  end.

(** The text of a path put together from components. *)
Definition component_text (c : Component) : string :=
  match c with RootDir => "/" | CurDir => "." | ParentDir => ".." | Normal name => name end.

Definition path_text (p : Path) : string :=
  match p with
  | RootDir :: p => "/" +:+ join "/" (component_text <$> p)
  | p => join "/" (component_text <$> p)
  end.

(** ** Normalisation *)

Definition is_normal (c : Component) : bool :=
  match c with Normal _ => true | _ => false end.

Definition push_component (components : Path) (c : Component) : Path :=
  match c with
  | ParentDir =>
      if from_option is_normal false (last components) then removelast components else components
  | CurDir => components
  | other => components ++ [other]
  end.

Definition normalize_lexical (path : Path) : Path := foldl push_component [] path.

(** ** Checks on the text *)

Definition has_encoded_traversal (lower : string) : bool :=
  contains lower "%2e" || (contains lower "%2f" || contains lower "%5c").

Section Text.
Context {U : UnicodeCase}.

Definition is_path_safe_basic (path : string) : bool :=
  negb (contains path "..") && negb (has_char (byte 0) path)
  && negb (has_encoded_traversal (to_lowercase path)).

Definition is_path_safe_minimal (path : string) : bool :=
  negb (has_char (byte 0) path) && negb (has_encoded_traversal (to_lowercase path)).
End Text.

(** ** The file system *)

Record FileSystem := {
  (** [path.canonicalize().ok()] *)
  fs_canonicalize : Path → option Path;
  (** [path.exists()] *)
  fs_exists : Path → bool;
  (** [std::env::current_dir().ok()] *)
  fs_current_dir : option Path;
}.

Section Validate.
Context {U : UnicodeCase}.
Variable fs : FileSystem.

Definition canonical_or_lexical (p : Path) : Path :=
  default (normalize_lexical p) (fs_canonicalize fs p).

Definition canonical_or_self (p : Path) : Path := default p (fs_canonicalize fs p).

(** The loop over the ancestors; the ancestor is given by its components in
    reverse, [tail] by the names cut off so far, in order. *)
Fixpoint nearest_ancestor (resolved : Path) (rev_ancestor : Path) (tail : list string) : Path :=
  let ancestor := reverse rev_ancestor in
  if fs_exists fs ancestor then canonical_or_self ancestor ++ (Normal <$> tail)
  else
    match rev_ancestor with
    | [] | RootDir :: _ => resolved
    | Normal name :: rest => nearest_ancestor resolved rest (name :: tail)
    | _ :: rest => nearest_ancestor resolved rest tail
    end.

Definition check_path (resolved : Path) : Path :=
  if fs_exists fs resolved then canonical_or_self resolved
  else nearest_ancestor resolved (reverse resolved) [].

Definition resolve_path (path : Path) (base_dir : option Path) : Path :=
  if is_absolute path then canonical_or_lexical path
  else match base_dir with
       | Some base => canonical_or_lexical (path_join base path)
       | None => normalize_lexical (path_join (default [CurDir] (fs_current_dir fs)) path)
       end.

Definition validate_path (path_str : string) (base_dir : option Path) : result Path ToolFailure :=
  if negb (is_path_safe_minimal path_str) then
    Err (TfNotAuthorized ("Path contains forbidden characters or sequences: " +:+ path_str))
  else
    let resolved := resolve_path (path_from path_str) base_dir in
    match base_dir with
    | Some base =>
        if bool_decide (canonical_or_lexical base `prefix_of` check_path resolved) then Ok resolved
        else Err (TfNotAuthorized ("Path escapes sandbox: " +:+ path_str))
    | None => Ok resolved
    end.
End Validate.

(** ** Properties *)

(** Names only, behind the root if there is one: no component that moves up or
    stays. *)
Definition clean (p : Path) : Prop :=
  match p with
  | [] => True
  | c :: p => (c = RootDir ∨ is_normal c = true) ∧ Forall (λ c, is_normal c = true) p
  end.

Lemma clean_snoc p c : clean p → is_normal c = true → clean (p ++ [c]).
Proof.
  destruct p as [|d p]; simpl; [by auto|]. intros [Hd Hp] Hc. split; [done|]. apply Forall_app. by auto.
Qed.

Lemma clean_removelast p : clean p → clean (removelast p).
Proof.
  destruct p as [|c p]; [done|]. intros [Hc Hp]. destruct p as [|d p]; [done|].
  change (clean (c :: removelast (d :: p))). split; [done|]. rewrite Forall_forall in *.
  intros x Hx. by apply Hp, removelast_elem.
Qed.

Lemma clean_push p c : clean p → c ≠ RootDir → clean (push_component p c).
Proof.
  intros Hp Hc. destruct c; simpl; [done|done| |by apply clean_snoc].
  case_match; [by apply clean_removelast|done].
Qed.

Lemma normalize_clean p : RootDir ∉ tail p → clean (normalize_lexical p).
Proof.
  assert (∀ p acc, clean acc → RootDir ∉ p → clean (foldl push_component acc p)) as Hfold.
  { clear p. induction p as [|c p IH]; intros acc Hacc Hin; [done|]. apply not_elem_of_cons in Hin as [Hc Hin].
    by apply IH; [apply clean_push|]. }
  destruct p as [|c p]; [done|]. simpl. intros Hp. apply (Hfold p (push_component [] c)); [|done].
  destruct c as [| | |n]; simpl; [by split; [left|]|done|done|by split; [right|]].
Qed.

(** A clean path is its own normal form. *)
Lemma normalize_id p : clean p → normalize_lexical p = p.
Proof.
  assert (∀ p acc, Forall (λ c, is_normal c = true) p → foldl push_component acc p = acc ++ p) as Hfold.
  { clear p. induction p as [|c p IH]; intros acc Hp; [by rewrite app_nil_r|]. apply Forall_cons in Hp as [Hc Hp].
    simpl. rewrite IH by done. destruct c; try done. simpl. by rewrite <-app_assoc. }
  destruct p as [|c p]; [done|]. intros [Hc Hp]. unfold normalize_lexical. simpl. rewrite Hfold by done.
  destruct Hc as [->|Hc]; [done|]. by destruct c.
Qed.

Lemma path_from_root s : (RootDir ∉ tail (path_from s)) ∧ (is_absolute (path_from s) = false → (RootDir ∉ path_from s)).
Proof.
  assert (∀ b (l : list string), RootDir ∉ omap (component_of b) l) as Hom.
  { intros b l (x & _ & Hx)%list_elem_of_omap. unfold component_of in Hx. by repeat case_match. }
  destruct s as [|c s]; [by split; [|intros _]; apply not_elem_of_nil|]. unfold path_from.
  case_bool_decide; [by split; [apply Hom|]|].
  assert (RootDir ∉ match split_on slash (String c s) with
                    | [] => []
                    | segment :: segments =>
                        option_list (component_of true segment) ++ omap (component_of false) segments
                    end) as Hno.
  { destruct (split_on slash (String c s)) as [|seg segs]; [apply not_elem_of_nil|].
    rewrite elem_of_app. intros [Hin|Hin]; [|by apply Hom in Hin].
    unfold component_of in Hin. repeat case_match; simpl in Hin; set_solver. }
  split; [|done]. intros Hin. apply Hno. destruct (match split_on slash _ with [] => _ | _ => _ end); [done|]. by right.
Qed.

Lemma join_root base p :
  RootDir ∉ tail base → RootDir ∉ tail p → (is_absolute p = false → RootDir ∉ p) → RootDir ∉ tail (path_join base p).
Proof.
  intros Hb Ht Hp. unfold path_join. destruct (is_absolute p); [done|]. specialize (Hp eq_refl).
  destruct base as [|b base]; [done|]. simpl in *. rewrite elem_of_app. intros [Hin|Hin]; [done|].
  destruct p as [|[] p]; try done; by apply Hp; right.
Qed.

Section Contained.
Context {U : UnicodeCase}.
Variable fs : FileSystem.
(** [canonicalize] gives the absolute form with all intermediate components
    normalised. *)
Hypothesis canonical_absolute : ∀ p c, fs_canonicalize fs p = Some c → ∃ names, c = RootDir :: (Normal <$> names).

Lemma canonical_clean p c : fs_canonicalize fs p = Some c → clean c.
Proof.
  intros (names & ->)%canonical_absolute. split; [by left|]. apply Forall_fmap, Forall_forall. done.
Qed.

Lemma canonical_or_lexical_clean p : RootDir ∉ tail p → clean (canonical_or_lexical fs p).
Proof.
  unfold canonical_or_lexical. destruct (fs_canonicalize fs p) as [c|] eqn:E; [by intros _; eapply canonical_clean|].
  apply normalize_clean.
Qed.

Lemma resolve_clean s base : RootDir ∉ tail base → clean (resolve_path fs (path_from s) (Some base)).
Proof.
  intros Hb. destruct (path_from_root s) as [H1 H2]. unfold resolve_path.
  destruct (is_absolute (path_from s)) eqn:E; apply canonical_or_lexical_clean; [done|]. by apply join_root; rewrite ?E.
Qed.

(** Where the operating system finds a path [p]: behind the links of its longest
    prefix that exists, followed by the names that do not exist yet. *)
Definition located (p c : Path) : Prop :=
  (∃ a tail, p = a ++ (Normal <$> tail) ∧ fs_exists fs a = true ∧ c = canonical_or_self fs a ++ (Normal <$> tail) ∧
     (∀ t t', tail = t ++ t' → t ≠ [] → fs_exists fs (a ++ (Normal <$> t)) = false)) ∨
  (c = p ∧ ∀ a, a `prefix_of` p → a ≠ [] → fs_exists fs a = false).

Lemma nearest_ancestor_located resolved ra tail :
  clean (reverse ra) → resolved = reverse ra ++ (Normal <$> tail) →
  (∀ t t', tail = t ++ t' → t ≠ [] → fs_exists fs (reverse ra ++ (Normal <$> t)) = false) →
  located resolved (nearest_ancestor fs resolved ra tail).
Proof.
  revert tail. induction ra as [|c ra IH]; intros tail Hp Hr Hlong; cbn [nearest_ancestor].
  - destruct (fs_exists fs (reverse [])) eqn:E.
    + left. exists (reverse []), tail. by split_and!.
    + right. split; [done|]. intros a [k Ha] Hne. rewrite Hr in Ha. simpl in Ha.
      apply fmap_app_inv in Ha as (t & t' & -> & -> & ->). apply (Hlong t t'); [done|]. by intros ->.
  - destruct (fs_exists fs (reverse (c :: ra))) eqn:E.
    { left. exists (reverse (c :: ra)), tail. by split_and!. }
    pose proof (clean_removelast _ Hp) as Hp'. rewrite reverse_cons, removelast_last in Hp'.
    rewrite reverse_cons in Hp, Hr, Hlong, E. destruct c as [| | |n].
    + right. split; [done|]. assert (reverse ra = []) as Hra.
      { destruct (reverse ra) as [|x l] eqn:El; [done|]. destruct Hp as [_ Hf]. apply Forall_app in Hf as [_ Hf].
        by apply Forall_cons in Hf as [? _]. }
      rewrite Hra in *. intros a Ha Hne. rewrite Hr in Ha.
      destruct a as [|x a]; [done|]. simpl in Ha. apply prefix_cons_inv_1 in Ha as Hx. subst x.
      apply prefix_cons_inv_2 in Ha as [k Ha].
      apply fmap_app_inv in Ha as (t & t' & -> & -> & ->). destruct t as [|n t]; [done|].
      by apply (Hlong (n :: t) t').
    + exfalso. destruct (reverse ra); simpl in Hp; [naive_solver|]. destruct Hp as [_ Hf].
      apply Forall_app in Hf as [_ Hf]. by apply Forall_cons in Hf as [? _].
    + exfalso. destruct (reverse ra); simpl in Hp; [naive_solver|]. destruct Hp as [_ Hf].
      apply Forall_app in Hf as [_ Hf]. by apply Forall_cons in Hf as [? _].
    + apply IH; [done|by rewrite Hr, <-app_assoc|].
      intros [|x t] t' Ht Hne; [done|]. simpl in Ht. injection Ht as <- ->. destruct t as [|y t]; [done|].
      specialize (Hlong (y :: t) t' eq_refl). rewrite <-app_assoc in Hlong. by apply Hlong.
Qed.

Lemma check_path_located p : clean p → located p (check_path fs p).
Proof.
  intros Hp. unfold check_path. destruct (fs_exists fs p) eqn:E.
  - left. exists p, []. rewrite !app_nil_r. split_and!; try done. intros t t' Ht. by destruct t.
  - apply nearest_ancestor_located; rewrite ?reverse_involutive; try done; [by rewrite app_nil_r|].
    intros t t' Ht. by destruct t.
Qed.

Lemma validate_path_ok path_str base_str p :
  validate_path fs path_str (Some (path_from base_str)) = Ok p →
  clean p ∧ ∃ c, located p c ∧ canonical_or_lexical fs (path_from base_str) `prefix_of` c.
Proof.
  unfold validate_path. destruct (is_path_safe_minimal path_str); [|done]. simpl.
  case_bool_decide as Hpre; [|done]. intros [= <-].
  assert (clean (resolve_path fs (path_from path_str) (Some (path_from base_str)))) as Hp
    by apply resolve_clean, path_from_root.
  split; [done|]. eexists. split; [by apply check_path_located|done].
Qed.

(** C19. A path a tool may use stays in its directory.  If a path is accepted for a
    directory, it has no component that moves up, and the place where the
    operating system finds it (behind the links of the part that exists) lies
    in the canonical form of the directory.  A path that is refused leads
    outside or contains a null byte or an encoded separator. *)
Theorem path_contained (path_str base_str : string) :
  let base := path_from base_str in
  let p := resolve_path fs (path_from path_str) (Some base) in
  clean p ∧
  ∃ c, located p c ∧
    match validate_path fs path_str (Some base) with
    | Ok p' => p' = p ∧ canonical_or_lexical fs base `prefix_of` c ∧ is_path_safe_minimal path_str = true
    | Err _ => ¬ canonical_or_lexical fs base `prefix_of` c ∨ is_path_safe_minimal path_str = false
    end.
Proof.
  intros base p. assert (clean p) as Hp by apply resolve_clean, path_from_root.
  split; [done|]. exists (check_path fs p). split; [by apply check_path_located|].
  unfold validate_path. fold base. fold p. destruct (is_path_safe_minimal path_str); [|by right].
  simpl. case_bool_decide; [done|by left].
Qed.
End Contained.

(** A directory [/work] with a link [out] to [/etc] and a dangling link [new]. *)
Definition linked_fs : FileSystem := {|
  fs_canonicalize p :=
    if bool_decide (p = path_from "/work") then Some (path_from "/work")
    else if bool_decide (p = path_from "/work/out") then Some (path_from "/etc")
    else None;
  fs_exists p := bool_decide (p ∈ [path_from "/"; path_from "/work"; path_from "/work/out"; path_from "/etc"]);
  fs_current_dir := None |}.

Lemma linked_fs_canonical p c :
  fs_canonicalize linked_fs p = Some c → ∃ names, c = RootDir :: (Normal <$> names).
Proof. simpl. repeat case_bool_decide; intros [= <-]; by eexists [_]. Qed.

Lemma path_contained_witness :
  let U := ascii_case in
  (∃ c, located linked_fs (path_from "/work/out/passwd") c ∧
     ¬ canonical_or_lexical linked_fs (path_from "/work") `prefix_of` c) ∧
  validate_path linked_fs "out/passwd" (Some (path_from "/work")) =
    Err (TfNotAuthorized "Path escapes sandbox: out/passwd") ∧
  validate_path linked_fs "a/../b" (Some (path_from "/work")) = Ok (path_from "/work/b").
Proof.
  intros U. split_and!; [|by vm_compute..].
  destruct (path_contained linked_fs linked_fs_canonical "out/passwd" "/work") as (_ & c & Hc & H).
  exists c. split; [exact Hc|]. destruct H as [H|H]; [exact H|by vm_compute in H].
Defined.
