(* ===== verification/SandboxProxy.v ===== *)
(** * The network proxy of the sandbox

    Models [src/src/sandbox/config.rs], [src/src/sandbox/proxy/http.rs],
    [http/handlers.rs] and [proxy/mod.rs], and the remaining deciders of
    [proxy/policy.rs]: the configuration of the sandbox and of its proxy, and the
    handling of one request a container sends to the proxy, from the policy
    decision over the injection of a credential to the answer.

    The HTTP crates are parameters: hyper gives a request as [Request], reqwest
    sends what the calls on its builder ([RequestBuilder]) have collected, and
    its answer may depend on everything sent before.  The client is built with
    [reqwest::Client::new], whose documented default is to follow redirects, so
    [send] also gives the requests it made by itself before its answer.  Every
    request that is sent and every tunnel that is opened is an entry of the list
    of [Outgoing]s. *)

From S2P Require Import Prelude Text Allowlist.

(** ** Configuration ([src/src/sandbox/config.rs]) *)

Inductive SandboxPolicy := ReadOnly | WorkspaceWrite | FullAccess.

#[global] Instance SandboxPolicy_eq_dec : EqDecision SandboxPolicy.
Proof. solve_decision. Defined.

Definition allows_writes (p : SandboxPolicy) : bool :=
  match p with WorkspaceWrite | FullAccess => true | ReadOnly => false end.
Definition has_full_network (p : SandboxPolicy) : bool :=
  match p with FullAccess => true | _ => false end.
Definition is_sandboxed (p : SandboxPolicy) : bool :=
  match p with FullAccess => false | _ => true end.

Definition policy_from_str `{UnicodeCase} (s : string) : result SandboxPolicy string :=
  let lower := to_lowercase s in
  if bool_decide (lower ∈ ["readonly"; "read_only"; "ro"]) then Ok ReadOnly
  else if bool_decide (lower ∈ ["workspacewrite"; "workspace_write"; "rw"]) then Ok WorkspaceWrite
  else if bool_decide (lower ∈ ["fullaccess"; "full_access"; "full"; "none"]) then Ok FullAccess
  else Err ("invalid sandbox policy '" +:+ s
            +:+ "', expected 'readonly', 'workspace_write', or 'full_access'").

Definition default_allowlist : list string :=
  ["crates.io"; "static.crates.io"; "index.crates.io"; "registry.npmjs.org"; "proxy.golang.org"; "pypi.org";
   "files.pythonhosted.org"; "docs.rs"; "doc.rust-lang.org"; "nodejs.org"; "go.dev"; "docs.python.org";
   "github.com"; "raw.githubusercontent.com"; "api.github.com"; "codeload.github.com";
   "api.openai.com"; "api.anthropic.com"; "api.near.ai"].

Definition mapping_bearer (secret host : string) : CredentialMapping :=
  {| secret_name := secret; location := AuthorizationBearer; host_patterns := [host] |}.
Definition mapping_header (secret header host : string) : CredentialMapping :=
  {| secret_name := secret; location := CredHeader header None; host_patterns := [host] |}.

Definition default_credential_mappings : list CredentialMapping :=
  [mapping_bearer "OPENAI_API_KEY" "api.openai.com";
   mapping_header "ANTHROPIC_API_KEY" "x-api-key" "api.anthropic.com";
   mapping_bearer "NEARAI_API_KEY" "api.near.ai"].

Record SandboxConfig := {
  sc_enabled : bool;
  sc_policy : SandboxPolicy;
  sc_timeout : Duration;
  sc_memory_limit_mb : Z;
  sc_cpu_shares : Z;
  sc_network_allowlist : list string;
  sc_image : string;
  sc_auto_pull_image : bool;
  sc_proxy_port : Z;
}.

Definition sandbox_config_default : SandboxConfig := {|
  sc_enabled := true; sc_policy := ReadOnly; sc_timeout := secs 120; sc_memory_limit_mb := 2048;
  sc_cpu_shares := 1024; sc_network_allowlist := default_allowlist; sc_image := "axinite-worker:latest";
  sc_auto_pull_image := true; sc_proxy_port := 0 |}.

(** ** Deciders and resolvers *)

Inductive PolicyDecider :=
| DefaultDecider (d : DefaultPolicyDecider)
| AllowAllDecider
| DenyAllDecider (reason : string).

(** The two resolvers: the environment of the process, and none. *)
Inductive CredentialResolver := EnvCredentialResolver | NoCredentialResolver.

Definition resolve (env : string → option string) (r : CredentialResolver) (name : string) : option string :=
  match r with
  | EnvCredentialResolver => env name
  | NoCredentialResolver => None
  end.

(** ** Requests and responses *)

Abbreviation Headers := (list (string * string)).

(** The host and the text of the authority of a URI. *)
Record Authority := { au_host : string; au_text : string }.

Record Request := {
  rq_method : string;
  rq_uri : string;
  rq_authority : option Authority;
  rq_headers : Headers;
  (** the body, or the failure to read it *)
  rq_body : result string string;
}.

(** A request of reqwest: headers and query parameters are appended. *)
Record RequestBuilder := {
  rb_method : string;
  rb_url : string;
  rb_headers : Headers;
  rb_query : list (string * string);
  rb_body : option string;
}.

Definition rb_header (name value : string) (b : RequestBuilder) : RequestBuilder :=
  {| rb_method := rb_method b; rb_url := rb_url b; rb_headers := rb_headers b ++ [(name, value)];
     rb_query := rb_query b; rb_body := rb_body b |}.

Definition rb_add_query (name value : string) (b : RequestBuilder) : RequestBuilder :=
  {| rb_method := rb_method b; rb_url := rb_url b; rb_headers := rb_headers b;
     rb_query := rb_query b ++ [(name, value)]; rb_body := rb_body b |}.

Definition rb_set_body (body : string) (b : RequestBuilder) : RequestBuilder :=
  {| rb_method := rb_method b; rb_url := rb_url b; rb_headers := rb_headers b;
     rb_query := rb_query b; rb_body := Some body |}.

Record Response := { rs_status : Z; rs_headers : Headers; rs_body : string }.

(** The answer of a server: the status, the headers, and the body or the failure
    to read it. *)
Record Upstream := { us_status : Z; us_headers : Headers; us_body : result string string }.

Inductive Outgoing :=
| Forwarded (b : RequestBuilder)
| Tunnel (target : string)
| Redirected (b : RequestBuilder).

(** ** Responses *)

Definition make_response (status : Z) : Response :=
  {| rs_status := status; rs_headers := []; rs_body := "" |}.

Definition error_response (status : Z) (message : string) : Response :=
  {| rs_status := status; rs_headers := [("Content-Type", "text/plain")]; rs_body := message |}.

Section Handlers.
Context {U : UnicodeCase} {X : UrlCrates}.

Definition decide_with (d : PolicyDecider) (r : NetworkRequest) : NetworkDecision :=
  match d with
  | DefaultDecider d => decide_request d r
  | AllowAllDecider => NetAllow
  | DenyAllDecider reason => NetDeny reason
  end.

Definition is_hop_by_hop_header (name : string) : bool :=
  bool_decide (to_lowercase name ∈ ["connection"; "keep-alive"; "proxy-authenticate"; "proxy-authorization";
                                    "te"; "trailers"; "transfer-encoding"; "upgrade"]).

(** [HeaderValue::to_str]: visible ASCII characters and tabs only. *)
Definition header_text (value : string) : option string :=
  if all_chars (λ c, let n := Ascii.N_of_ascii c in ((32 <=? n) && (n <? 127) || (n =? 9))%N) value
  then Some value else None.

(** ** The server *)

Record ProxyState := {
  decider : PolicyDecider;
  credential_resolver : CredentialResolver;
  request_count : Z;
}.

Variable env : string → option string.
(** [builder.send()], after what was sent before: the requests the client made to
    follow redirects, and the last answer *)
Variable send : list Outgoing → RequestBuilder → list RequestBuilder * result Upstream string.

Definition base_forward_builder (req : Request) : RequestBuilder :=
  {| rb_method := rq_method req; rb_url := rq_uri req;
     rb_headers := omap (λ h, if is_hop_by_hop_header h.1 then None else pair h.1 <$> header_text h.2)
                     (rq_headers req);
     rb_query := []; rb_body := None |}.

Definition apply_credential_location (b : RequestBuilder) (loc : CredentialLocation) (credential : string) :
    RequestBuilder :=
  match loc with
  | AuthorizationBearer => rb_header "Authorization" ("Bearer " +:+ credential) b
  | CredHeader name prefix =>
      rb_header name (match prefix with Some p => p +:+ credential | None => credential end) b
  | QueryParam name => rb_add_query name credential b
  | AuthorizationBasic _ | UrlPath _ => b
  end.

Definition inject_credentials (st : ProxyState) (b : RequestBuilder) (decision : NetworkDecision) :
    RequestBuilder :=
  match decision with
  | AllowWithCredentials secret loc =>
      match resolve env (credential_resolver st) secret with
      | Some credential => apply_credential_location b loc credential
      | None => b
      end
  | _ => b
  end.

Definition send_and_relay (log : list Outgoing) (b : RequestBuilder) : list Outgoing * Response :=
  (log ++ Forwarded b :: (Redirected <$> (send log b).1),
   match (send log b).2 with
   | Err e => error_response 502 ("Request failed: " +:+ e)
   | Ok response =>
       match us_body response with
       | Err _ => error_response 502 "Failed to read response"
       | Ok body =>
           {| rs_status := us_status response;
              rs_headers := filter (λ h, is_hop_by_hop_header h.1 = false) (us_headers response);
              rs_body := body |}
       end
   end).

Definition forward_request (st : ProxyState) (log : list Outgoing) (req : Request) (decision : NetworkDecision) :
    list Outgoing * Response :=
  let builder := inject_credentials st (base_forward_builder req) decision in
  match rq_body req with
  | Err _ => (log, error_response 500 "Failed to read body")
  | Ok body => send_and_relay log (if bool_decide (body = "") then builder else rb_set_body body builder)
  end.

Definition handle_connect (st : ProxyState) (log : list Outgoing) (req : Request) : list Outgoing * Response :=
  match rq_authority req with
  | None => (log, error_response 400 "Missing host")
  | Some authority =>
      let host := au_host authority in
      let network_req := {| nr_method := "CONNECT"; nr_url := "https://" +:+ host; nr_host := host;
                            nr_path := "/" |} in
      match decide_with (decider st) network_req with
      | NetDeny reason => (log, error_response 403 reason)
      | _ => (log ++ [Tunnel (au_text authority)], make_response 200)
      end
  end.

Definition count_request (st : ProxyState) : ProxyState :=
  {| decider := decider st; credential_resolver := credential_resolver st;
     request_count := wrap_u64 (request_count st + 1) |}.

Definition handle_request (st : ProxyState) (log : list Outgoing) (req : Request) :
    ProxyState * (list Outgoing * Response) :=
  let st := count_request st in
  (st,
   if bool_decide (rq_method req = "CONNECT") then handle_connect st log req
   else match from_url (rq_method req) (rq_uri req) with
        | None => (log, error_response 400 "Invalid URL")
        | Some network_req =>
            let decision := decide_with (decider st) network_req in
            match decision with
            | NetDeny reason => (log, error_response 403 reason)
            | _ => forward_request st log req decision
            end
        end).
End Handlers.

(** ** The builder *)

Section Builder.
Context {U : UnicodeCase}.

Record NetworkProxyBuilder := {
  pb_allowlist : list string;
  pb_credential_mappings : list CredentialMapping;
  pb_credential_resolver : CredentialResolver;
  pb_policy : SandboxPolicy;
}.

Definition proxy_builder_new : NetworkProxyBuilder := {|
  pb_allowlist := default_allowlist; pb_credential_mappings := default_credential_mappings;
  pb_credential_resolver := EnvCredentialResolver; pb_policy := ReadOnly |}.

Definition from_config (config : SandboxConfig) : NetworkProxyBuilder := {|
  pb_allowlist := sc_network_allowlist config; pb_credential_mappings := default_credential_mappings;
  pb_credential_resolver := EnvCredentialResolver; pb_policy := sc_policy config |}.

Definition allow_domain (domain : string) (b : NetworkProxyBuilder) : NetworkProxyBuilder := {|
  pb_allowlist := pb_allowlist b ++ [domain]; pb_credential_mappings := pb_credential_mappings b;
  pb_credential_resolver := pb_credential_resolver b; pb_policy := pb_policy b |}.

Definition proxy_build (b : NetworkProxyBuilder) : ProxyState := {|
  decider :=
    if has_full_network (pb_policy b) then AllowAllDecider
    else DefaultDecider {| allowlist := domain_allowlist_new (pb_allowlist b);
                           credential_mappings := pb_credential_mappings b |};
  credential_resolver := pb_credential_resolver b;
  request_count := 0 |}.
End Builder.

(** ** Properties *)

Section Gate.
Context {U : UnicodeCase} {X : UrlCrates}.
Implicit Types (domains : list string) (host : string).

(** What an entry of the configured list covers: a domain only itself, and
    [*.base] the domain [base] and everything below it. *)
Definition domain_covers (domain host : string) : Prop :=
  match strip_prefix domain "*." with
  | Some base => to_lowercase host = to_lowercase base ∨
                 ∃ sub, to_lowercase host = sub +:+ "." +:+ to_lowercase base
  | None => to_lowercase host = to_lowercase domain
  end.

Lemma domain_matches_spec domain host :
  domain_matches (domain_pattern_new domain) host = true ↔ domain_covers domain host.
Proof.
  unfold domain_matches, domain_pattern_new, domain_covers, strip_prefix. cbv zeta. cbn [is_wildcard base_domain].
  destruct (starts_with domain "*."); [|apply bool_decide_eq_true].
  by rewrite orb_true_iff, bool_decide_eq_true, ends_with_spec.
Qed.

Definition host_permitted domains host : Prop := ∃ domain, domain ∈ domains ∧ domain_covers domain host.

Lemma permitted_spec domains host :
  (∃ p, p ∈ domain_allowlist_new domains ∧ domain_matches p host = true) ↔ host_permitted domains host.
Proof.
  unfold domain_allowlist_new, host_permitted. setoid_rewrite list_elem_of_fmap. setoid_rewrite <-domain_matches_spec.
  split; [intros (? & (d & -> & ?) & ?); eauto|intros (d & ? & ?); eauto 10].
Qed.

(** The mapping of a credential covers a host. *)
Definition mapping_covers (m : CredentialMapping) host : Prop :=
  ∃ pattern, pattern ∈ host_patterns m ∧ host_covers (to_lowercase pattern) (to_lowercase host).

Definition proxied (b : NetworkProxyBuilder) (host : string) (d : NetworkDecision) : Prop :=
  match d with
  | NetDeny _ => ¬ host_permitted (pb_allowlist b) host
  | NetAllow => host_permitted (pb_allowlist b) host ∧ ∀ m, m ∈ pb_credential_mappings b → ¬ mapping_covers m host
  | AllowWithCredentials s loc => host_permitted (pb_allowlist b) host ∧
      ∃ m, m ∈ pb_credential_mappings b ∧ secret_name m = s ∧ location m = loc ∧ mapping_covers m host
  end.

Lemma decide_proxied b r :
  has_full_network (pb_policy b) = false → proxied b (nr_host r) (decide_with (decider (proxy_build b)) r).
Proof.
  intros Hp. unfold proxy_build. simpl. rewrite Hp. simpl.
  pose proof (policy_decision_exact {| allowlist := domain_allowlist_new (pb_allowlist b);
    credential_mappings := pb_credential_mappings b |} r) as H. cbv zeta in H. simpl in H.
  destruct (decide_request _ r) as [|s loc|reason]; simpl; rewrite <-permitted_spec.
  - done.
  - destruct H as (? & before & m & after & -> & Hs & Hl & Hc & _). split; [done|].
    exists m. split_and!; try done. set_solver.
  - done.
Qed.

Variable send : list Outgoing → RequestBuilder → list RequestBuilder * result Upstream string.

(** The request that reaches a server is the container's own, but for the
    hop-by-hop headers and the credential. *)
Definition own_request (req : Request) (b : RequestBuilder) : Prop :=
  ∃ body, rq_body req = Ok body ∧
    b = if bool_decide (body = "") then base_forward_builder req else rb_set_body body (base_forward_builder req).

Definition credential_request (req : Request) (loc : CredentialLocation) (credential : string) (b : RequestBuilder) :
    Prop :=
  ∃ body, rq_body req = Ok body ∧
    let with_credential := apply_credential_location (base_forward_builder req) loc credential in
    b = if bool_decide (body = "") then with_credential else rb_set_body body with_credential.

(** What the proxy may send for a request of a container. *)
Definition outgoing_allowed (env : string → option string) (b : NetworkProxyBuilder) (req : Request) (o : Outgoing) : Prop :=
  match o with
  | Tunnel target =>
      rq_method req = "CONNECT" ∧
      ∃ a, rq_authority req = Some a ∧ target = au_text a ∧ host_permitted (pb_allowlist b) (au_host a)
  | Forwarded out =>
      ∃ r, from_url (rq_method req) (rq_uri req) = Some r ∧ host_permitted (pb_allowlist b) (nr_host r) ∧
        (own_request req out ∨
         ∃ m credential, m ∈ pb_credential_mappings b ∧ mapping_covers m (nr_host r) ∧
           resolve env (pb_credential_resolver b) (secret_name m) = Some credential ∧
           credential_request req (location m) credential out)
  | Redirected _ => False
  end.

(** C8. Nothing is sent for a request to a host outside the allowlist.  Whatever a
    container asks of a proxy that is not in full-access mode, the proxy sends at most one request
    or opens one tunnel, to a host the list covers; a request carries a
    credential only if a mapping of that credential covers the host, and is
    otherwise the container's own; a tunnel carries none.  The only other
    requests are those the HTTP client makes by itself when that request is
    answered with a redirect; where these go is not checked, so a host of the
    list can lead the client to one that is not.  When nothing is sent the answer
    is 400, 403 or 500, and it does not depend on the secrets. *)
Theorem proxy_gate env (b : NetworkProxyBuilder) (n : Z) (log : list Outgoing) (req : Request)
    (Hpolicy : is_sandboxed (pb_policy b) = true) :
  let st := {| decider := decider (proxy_build b); credential_resolver := pb_credential_resolver b;
               request_count := n |} in
  let out := handle_request env send st log req in
  let log' := out.2.1 in
  let response := out.2.2 in
  decider out.1 = decider st ∧ credential_resolver out.1 = credential_resolver st ∧
  ((∃ o, log' = log ++ o :: match o with Forwarded b => Redirected <$> (send log b).1 | _ => [] end ∧
         outgoing_allowed env b req o) ∨
   (log' = log ∧ rs_status response ∈ [400; 403; 500]%Z ∧
    ∀ env', (handle_request env' send st log req).2 = out.2)).
Proof.
  intros st. assert (has_full_network (pb_policy b) = false) as Hp by (by destruct (pb_policy b)).
  assert (∀ x, decide_with (decider st) x = decide_with (decider (proxy_build b)) x) as Hd by done.
  cbv zeta. split; [done|]. split; [done|]. unfold handle_request. cbv zeta. cbn [snd].
  assert (∀ (l : list Outgoing) (r : Response), rs_status r ∈ [400; 403; 500]%Z → l = log →
    l = log ∧ rs_status r ∈ [400; 403; 500]%Z ∧ ∀ env' : string → option string, (l, r) = (l, r)) as refused
    by (by intros l r Hr ->).
  assert (400 ∈ [400; 403; 500] ∧ 403 ∈ [400; 403; 500] ∧ 500 ∈ [400; 403; 500])%Z as (H400 & H403 & H500)
    by set_solver.
  case_bool_decide as Hm.
  - unfold handle_connect. destruct (rq_authority req) as [a|] eqn:Ea; [|right; by apply refused].
    cbv zeta. match goal with |- context [decide_with _ ?r] => pose proof (decide_proxied b r Hp) as H end.
    cbn [decider count_request] in *. rewrite Hd in *. simpl nr_host in H.
    destruct (decide_with _ _) as [|s loc|reason]; [| |right; by apply refused].
    all: left; eexists (Tunnel _); split; [done|]; split; [done|]; exists a; split_and!; [done..|apply H].
  - destruct (from_url _ _) as [r|] eqn:Er; [|right; by apply refused].
    pose proof (decide_proxied b r Hp) as H. cbn [decider count_request]. rewrite Hd.
    destruct (decide_with _ r) as [|s loc|reason]; [| |right; by apply refused].
    all: unfold forward_request; destruct (rq_body req) as [body|e] eqn:Eb; [|right; by apply refused].
    all: left; eexists (Forwarded _); split; [done|]; exists r; split; [done|]; split; [apply H|].
    + left. exists body. by split.
    + simpl. destruct H as (_ & m & Hin & <- & <- & Hc).
      destruct (resolve env (pb_credential_resolver b) (secret_name m)) as [credential|] eqn:Ec.
      * right. exists m, credential. split_and!; try done. exists body. by split.
      * left. exists body. by split.
Qed.
End Gate.

(** A tunnel to a host of the default list, and one to another host. *)
Definition connect_to (host text : string) : Request :=
  {| rq_method := "CONNECT"; rq_uri := text; rq_authority := Some {| au_host := host; au_text := text |};
     rq_headers := []; rq_body := Ok "" |}.

Lemma proxy_gate_witness :
  let U := ascii_case in
  let X := one_url in
  let st := proxy_build proxy_builder_new in
  let run req := (handle_request (λ _, None) (λ _ _, ([], Err "offline")) st [] req).2.1 in
  run (connect_to "github.com" "github.com:443") = [Tunnel "github.com:443"] ∧
  host_permitted default_allowlist "github.com" ∧
  run (connect_to "example.org" "example.org:443") = [].
Proof.
  intros U X st run. split_and!; [by vm_compute| |by vm_compute].
  destruct (proxy_gate (λ _ _, ([], Err "offline")) (λ _, None) proxy_builder_new 0 []
    (connect_to "github.com" "github.com:443") eq_refl) as (_ & _ & [(o & Ho & Hok)|(Ho & _)]).
  - destruct o as [b| |b]; vm_compute in Ho; [discriminate Ho| |discriminate Ho].
    injection Ho as <-. destruct Hok as (_ & a & [= <-] & _ & H). exact H.
  - by vm_compute in Ho.
Defined.
