(* ===== verification/Sandbox.v ===== *)
(** * Containers

    Models [src/src/sandbox/container.rs], [container_docker.rs],
    [container_connection.rs], [docker.rs], [error.rs] and [manager.rs]: the
    connection to Docker, the containers commands run in, and the manager that
    starts the proxy and decides where a command runs.  Built with the [docker]
    feature, which is on by default, on Unix.

    The Docker daemon, the operating system that runs a process on the host, and
    the socket of the proxy are the parameter [Daemon]: the reply to a call may
    depend on every call before it, and a caller may be gone before the reply
    comes, because a deadline set around the call expired ([Stopped]).  Every
    call is recorded, with the reply where a property needs it. *)

From stdpp Require Import sorting.
From S2P Require Import Prelude Text Hooks Failover.
From S2P Require Import Allowlist Paths SandboxProxy.

(** ** Errors *)

Inductive SandboxError :=
| DockerNotAvailable (reason : string)
| ContainerCreationFailed (reason : string)
| ContainerStartFailed (reason : string)
| SbExecutionFailed (reason : string)
| SbTimeout (d : Duration)
| ResourceLimitExceeded (resource limit : string)
| ProxyError (reason : string)
| NetworkBlocked (reason : string)
| CredentialInjectionFailed (domain reason : string)
| DockerApi (e : string)
| SbIo (e : string)
| SbConfig (reason : string).

Definition sandbox_error_display (e : SandboxError) : string :=
  match e with
  | DockerNotAvailable reason => "Docker not available: " +:+ reason
  | ContainerCreationFailed reason => "Container creation failed: " +:+ reason
  | ContainerStartFailed reason => "Container start failed: " +:+ reason
  | SbExecutionFailed reason => "Execution failed: " +:+ reason
  | SbTimeout d => "Command timed out after " +:+ duration_debug d
  | ResourceLimitExceeded resource limit => "Resource limit exceeded: " +:+ resource +:+ " limit of " +:+ limit
  | ProxyError reason => "Proxy error: " +:+ reason
  | NetworkBlocked reason => "Network request blocked: " +:+ reason
  | CredentialInjectionFailed domain reason =>
      "Credential injection failed for " +:+ domain +:+ ": " +:+ reason
  | DockerApi e => "Docker API error: " +:+ e
  | SbIo e => "I/O error: " +:+ e
  | SbConfig reason => "Configuration error: " +:+ reason
  end.

(** ** [String::from_utf8_lossy] *)

Definition byte_in (lo hi : N) (c : Ascii.ascii) : bool :=
  let n := Ascii.N_of_ascii c in ((lo <=? n) && (n <=? hi))%N.

(** The bytes the second byte of a character may be, by the first byte, and the
    number of bytes behind that one. *)
Definition second_byte (c : Ascii.ascii) : option ((Ascii.ascii → bool) * nat) :=
  if byte_in 194 223 c then Some (byte_in 128 191, 0)
  else if byte_in 224 224 c then Some (byte_in 160 191, 1)
  else if byte_in 225 236 c || byte_in 238 239 c then Some (byte_in 128 191, 1)
  else if byte_in 237 237 c then Some (byte_in 128 159, 1)
  else if byte_in 240 240 c then Some (byte_in 144 191, 2)
  else if byte_in 241 243 c then Some (byte_in 128 191, 2)
  else if byte_in 244 244 c then Some (byte_in 128 143, 2)
  else None.

(** The number of continuation bytes in front, at most [n]. *)
Fixpoint continuations (n : nat) (s : string) : nat :=
  match n, s with
  | S n, String c s => if is_continuation c then S (continuations n s) else 0
  | _, _ => 0
  end.

(** The length of the character or of the broken one in front of a text that
    begins with [c], and whether it is complete. *)
Definition char_at (c : Ascii.ascii) (s : string) : nat * bool :=
  if is_ascii c then (1, true)
  else match second_byte c with
       | None => (1, false)
       | Some (ok, more) =>
           match s with
           | String c2 s2 =>
               if ok c2 then let k := continuations more s2 in (2 + k, k =? more) else (1, false)
           | EmptyString => (1, false)
           end
       end.

(** U+FFFD *)
Definition replacement : string := String (byte 239) (String (byte 191) (String (byte 189) "")).

Fixpoint utf8_lossy_fuel (fuel : nat) (s : string) : string :=
  match fuel with
  | 0 => ""
  | S fuel =>
      match s with
      | EmptyString => ""
      | String c rest =>
          let '(n, complete) := char_at c rest in
          (if complete then str_take n s else replacement) +:+ utf8_lossy_fuel fuel (str_drop n s)
      end
  end.

Definition from_utf8_lossy (s : string) : string := utf8_lossy_fuel (String.length s) s.

(** ** Output *)

(** The buffer after [append_with_limit], and whether text was cut. *)
Definition append_with_limit (buffer text : string) (limit : nat) : string * bool :=
  if bool_decide (text = "") then (buffer, false)
  else if limit <=? String.length buffer then (buffer, true)
  else
    let remaining := limit - String.length buffer in
    if String.length text <=? remaining then (buffer +:+ text, false)
    else (buffer +:+ str_take (floor_char_boundary text remaining) text, true).

Inductive LogOutput :=
| StdOut (message : string)
| StdErr (message : string)
| OtherLog.

Record Collected := { co_stdout : string; co_stderr : string; co_truncated : bool }.

Definition collect_item (half_max : nat) (c : Collected) (item : result LogOutput string) : Collected :=
  match item with
  | Ok (StdOut message) =>
      let '(out, cut) := append_with_limit (co_stdout c) (from_utf8_lossy message) half_max in
      {| co_stdout := out; co_stderr := co_stderr c; co_truncated := co_truncated c || cut |}
  | Ok (StdErr message) =>
      let '(err, cut) := append_with_limit (co_stderr c) (from_utf8_lossy message) half_max in
      {| co_stdout := co_stdout c; co_stderr := err; co_truncated := co_truncated c || cut |}
  | Ok OtherLog => c
  | Err _ => {| co_stdout := co_stdout c; co_stderr := co_stderr c; co_truncated := true |}
  end.

Definition collect_output_from_stream (stream : list (result LogOutput string)) (max_output : nat) : Collected :=
  foldl (collect_item (max_output / 2)) {| co_stdout := ""; co_stderr := ""; co_truncated := false |} stream.

Record ContainerOutput := {
  ct_exit_code : Z;
  ct_stdout : string;
  ct_stderr : string;
  ct_truncated : bool;
}.

Record ExecOutput := {
  ex_exit_code : Z;
  ex_stdout : string;
  ex_stderr : string;
  ex_output : string;
  ex_truncated : bool;
}.

Definition combine_output (stdout stderr : string) : string :=
  if bool_decide (stderr = "") then stdout
  else if bool_decide (stdout = "") then stderr
  else stdout +:+ newline +:+ newline +:+ "--- stderr ---" +:+ newline +:+ stderr.

Definition exec_output_from (c : ContainerOutput) : ExecOutput := {|
  ex_exit_code := ct_exit_code c; ex_stdout := ct_stdout c; ex_stderr := ct_stderr c;
  ex_output := combine_output (ct_stdout c) (ct_stderr c); ex_truncated := ct_truncated c |}.

(** ** The description of a container *)

Record ResourceLimits := {
  memory_bytes : Z;
  cpu_shares : Z;
  limits_timeout : Duration;
  max_output_bytes : nat;
}.

Record HostConfig := {
  binds : list string;
  memory : Z;
  hc_cpu_shares : Z;
  auto_remove : bool;
  network_mode : string;
  extra_hosts : list string;
  cap_drop : list string;
  cap_add : list string;
  security_opt : list string;
  readonly_rootfs : bool;
  tmpfs : list (string * string);
}.

Record ContainerBody := {
  cb_image : string;
  cb_cmd : list string;
  cb_working_dir : string;
  cb_env : list string;
  cb_user : string;
  cb_host_config : HostConfig;
}.

Definition loopback_entries : list string := ["localhost"; "127.0.0.1"; "::1"].

Definition is_no_proxy (e : string) : bool := starts_with e "NO_PROXY=" || starts_with e "no_proxy=".

(** [e.split_once('=')], the part behind the sign *)
Definition after_equals (e : string) : option string :=
  match split_on (byte 61) e with
  | _ :: (_ :: _ as parts) => Some (join "=" parts)
  | _ => None
  end.

Definition no_proxy_entries (env : list string) : list string :=
  let values := omap after_equals (filter (λ e, is_no_proxy e = true) env) in
  let entries := trim <$> (values ≫= split_on (byte 44)) in
  let entries := filter (λ e, e ≠ "" ∧ e ∉ loopback_entries) entries in
  dedup (merge_sort String.le entries) ++ loopback_entries.

Definition proxy_env (port : Z) (env : list string) : list string :=
  let address := "=http://host.docker.internal:" +:+ pretty port in
  let env := env ++ ((λ name, name +:+ address) <$> ["http_proxy"; "https_proxy"; "HTTP_PROXY"; "HTTPS_PROXY"]) in
  filter (λ e, is_no_proxy e = false) env ++ ["NO_PROXY=" +:+ join "," (no_proxy_entries env)].

(** The variables of [env] come in the order in which the map yields them. *)
Definition container_env (proxy_port : Z) (policy : SandboxPolicy) (env : list (string * string)) : list string :=
  let env := (λ kv, kv.1 +:+ "=" +:+ kv.2) <$> env in
  if (0 <? proxy_port)%Z && is_sandboxed policy then proxy_env proxy_port env else env.

Definition container_binds (policy : SandboxPolicy) (working_dir : string) : list string :=
  match policy with
  | ReadOnly => [working_dir +:+ ":/workspace:ro"]
  | WorkspaceWrite => [working_dir +:+ ":/workspace:rw"]
  | FullAccess => [working_dir +:+ ":/workspace:rw"; "/tmp:/tmp:rw"]
  end.

Definition container_body (image : string) (proxy_port : Z) (command working_dir : string) (policy : SandboxPolicy)
    (limits : ResourceLimits) (env : list (string * string)) : ContainerBody := {|
  cb_image := image; cb_cmd := ["sh"; "-c"; command]; cb_working_dir := "/workspace";
  cb_env := container_env proxy_port policy env; cb_user := "1000:1000";
  cb_host_config := {|
    binds := container_binds policy working_dir;
    memory := as_i64 (memory_bytes limits); hc_cpu_shares := cpu_shares limits; auto_remove := false;
    network_mode := "bridge"; extra_hosts := ["host.docker.internal:host-gateway"];
    cap_drop := ["ALL"]; cap_add := ["CHOWN"]; security_opt := ["no-new-privileges:true"];
    readonly_rootfs := bool_decide (policy ≠ FullAccess);
    tmpfs := (if bool_decide (policy = FullAccess) then [] else [("/tmp", "size=512M")])
             ++ [("/home/sandbox/.cargo/registry", "size=1G")] |} |}.

(** ** Calls *)

(** The deadline around the wait for a container or a process, and one around the
    whole call. *)
Inductive Deadline := InnerDeadline | OuterDeadline.

Inductive Outcome (A : Type) :=
| Done (a : A)
| Stopped (d : Deadline).
Arguments Done {A} a.
Arguments Stopped {A} d.

(** A process started on the host. *)
Record HostProcess := {
  hp_command : string;
  hp_cwd : string;
  (** whether the environment of the program is cleared first *)
  hp_env_clear : bool;
  hp_env : list (string * string);
}.

Record ProcessOutput := { po_code : option Z; po_stdout : string; po_stderr : string }.

(** A process did not start, or could not be waited for. *)
Inductive HostError := SpawnFailed (e : string) | WaitFailed (e : string).

Definition host_error_text (e : HostError) : string :=
  match e with SpawnFailed e | WaitFailed e => e end.

Inductive Call (Conn : Type) :=
| CPing (c : Conn)
| CInspectImage (image : string)
| CPull (image : string)
| CCreate (body : ContainerBody) (reply : Outcome (result string string))
| CStart (id : string)
| CWait (id : string)
| CLogs (id : string)
| CRemove (id : string) (reply : Outcome (result unit string))
| CBind (port : Z)
| CHost (p : HostProcess)
| CKill.
Arguments CPing {Conn} c.
Arguments CInspectImage {Conn} image.
Arguments CPull {Conn} image.
Arguments CCreate {Conn} body reply.
Arguments CStart {Conn} id.
Arguments CWait {Conn} id.
Arguments CLogs {Conn} id.
Arguments CRemove {Conn} id reply.
Arguments CBind {Conn} port.
Arguments CHost {Conn} p.
Arguments CKill {Conn}.

Record Daemon (Conn : Type) := {
  (** [Docker::connect_with_local_defaults] and [connect_with_socket] *)
  connect_with_local_defaults : option Conn;
  connect_with_socket : Path → option Conn;
  sock_exists : Path → bool;
  home_dir : option Path;
  xdg_runtime_dir : option Path;
  euid : Z;
  on_ping : list (Call Conn) → Conn → Outcome (result unit string);
  on_inspect_image : list (Call Conn) → Conn → string → Outcome (result unit string);
  (** the first error of the stream of pull messages, if any *)
  on_pull : list (Call Conn) → Conn → string → Outcome (option string);
  on_create : list (Call Conn) → Conn → ContainerBody → Outcome (result string string);
  on_start : list (Call Conn) → Conn → string → Outcome (result unit string);
  (** the first item of the stream, if any *)
  on_wait : list (Call Conn) → Conn → string → Outcome (option (result Z string));
  on_logs : list (Call Conn) → Conn → string → Outcome (list (result LogOutput string));
  on_remove : list (Call Conn) → Conn → string → Outcome (result unit string);
  (** the port the proxy listens on *)
  on_bind : list (Call Conn) → Z → Outcome (result Z string);
  on_host : list (Call Conn) → HostProcess → Outcome (result ProcessOutput HostError);
}.
Arguments connect_with_local_defaults {Conn} d.
Arguments connect_with_socket {Conn} d sock.
Arguments sock_exists {Conn} d sock.
Arguments home_dir {Conn} d.
Arguments xdg_runtime_dir {Conn} d.
Arguments euid {Conn} d.
Arguments on_ping {Conn} d log c.
Arguments on_inspect_image {Conn} d log c image.
Arguments on_pull {Conn} d log c image.
Arguments on_create {Conn} d log c body.
Arguments on_start {Conn} d log c id.
Arguments on_wait {Conn} d log c id.
Arguments on_logs {Conn} d log c id.
Arguments on_remove {Conn} d log c id.
Arguments on_bind {Conn} d log port.
Arguments on_host {Conn} d log p.

(** The manager, with the port of its running proxy. *)
Record SandboxManager (Conn : Type) := {
  sm_config : SandboxConfig;
  sm_proxy : option (ProxyState * Z);
  sm_docker : option Conn;
  sm_initialized : bool;
}.
Arguments sm_config {Conn} s.
Arguments sm_proxy {Conn} s.
Arguments sm_docker {Conn} s.
Arguments sm_initialized {Conn} s.

Definition sandbox_manager_new {Conn} (config : SandboxConfig) : SandboxManager Conn := {|
  sm_config := config; sm_proxy := None; sm_docker := None; sm_initialized := false |}.

Section Manager.
Context {U : UnicodeCase} {Conn : Type}.
Variable dk : Daemon Conn.

Definition Sys : Type := list (Call Conn) * SandboxManager Conn.

(** A computation on the log and the manager that may be stopped; what it did
    before remains. *)
Definition M (A : Type) : Type := Sys → Sys * Outcome A.

#[local] Instance M_ret : MRet M := λ A a s, (s, Done a).
#[local] Instance M_bind : MBind M := λ A B k m s,
  match m s with
  | (s, Done a) => k a s
  | (s, Stopped d) => (s, Stopped d)
  end.

(** The [?] operator *)
Definition M_try {A B E} (m : M (result A E)) (k : A → M (result B E)) : M (result B E) :=
  m ≫= λ r, match r with Ok a => k a | Err e => mret (Err e) end.
Notation "'let?' x := m 'in' k" := (M_try m (λ x, k)) (at level 10, x binder, m at level 100, k at level 200).

Definition call {A} (reply : list (Call Conn) → Outcome A) (entry : Outcome A → Call Conn) : M A := λ s,
  let r := reply s.1 in ((s.1 ++ [entry r], s.2), r).

(** [tokio::time::timeout]: [None] when the deadline expired. *)
Definition with_timeout {A} (m : M A) : M (option A) := λ s,
  match m s with
  | (s, Done a) => (s, Done (Some a))
  | (s, Stopped InnerDeadline) => (s, Done None)
  | (s, Stopped OuterDeadline) => (s, Stopped OuterDeadline)
  end.

Definition manager : M (SandboxManager Conn) := λ s, (s, Done s.2).
Definition set_manager (m : SandboxManager Conn) : M unit := λ s, ((s.1, m), Done ()).

Definition with_docker (c : Conn) (m : SandboxManager Conn) : SandboxManager Conn := {|
  sm_config := sm_config m; sm_proxy := sm_proxy m; sm_docker := Some c; sm_initialized := sm_initialized m |}.
Definition with_proxy (p : option (ProxyState * Z)) (m : SandboxManager Conn) : SandboxManager Conn := {|
  sm_config := sm_config m; sm_proxy := p; sm_docker := sm_docker m; sm_initialized := sm_initialized m |}.
Definition with_initialized (b : bool) (m : SandboxManager Conn) : SandboxManager Conn := {|
  sm_config := sm_config m; sm_proxy := sm_proxy m; sm_docker := sm_docker m; sm_initialized := b |}.

(** ** The connection *)

Definition ping (c : Conn) : M (result unit string) := call (λ log, on_ping dk log c) (λ _, CPing c).

Definition push_unique (candidates : list Path) (p : Path) : list Path :=
  if bool_decide (p ∈ candidates) then candidates else candidates ++ [p].

Definition unix_socket_candidates_from_env (home xdg : option Path) (uid : option string) : list Path :=
  let candidates := match home with
    | Some home => foldl push_unique [] ((λ p, path_join home (path_from p)) <$>
        [".docker/run/docker.sock"; ".colima/default/docker.sock"; ".rd/docker.sock"])
    | None => []
    end in
  let candidates := match xdg with
    | Some dir => push_unique candidates (path_join dir (path_from "docker.sock"))
    | None => candidates
    end in
  match uid with
  | Some uid => if bool_decide (uid = "") then candidates
                else push_unique candidates (path_from ("/run/user/" +:+ uid +:+ "/docker.sock"))
  | None => candidates
  end.

Definition unix_socket_candidates : list Path :=
  unix_socket_candidates_from_env (home_dir dk) (xdg_runtime_dir dk) (Some (pretty (euid dk))).

(** [if let Ok(docker) = conn && docker.ping().await.is_ok()] *)
Definition responsive (conn : option Conn) : M (option Conn) :=
  match conn with
  | Some c => ping c ≫= λ r, mret (if is_ok r then Some c else None)
  | None => mret None
  end.

Fixpoint try_sockets (socks : list Path) : M (option Conn) :=
  match socks with
  | [] => mret None
  | sock :: socks =>
      responsive (if sock_exists dk sock then connect_with_socket dk sock else None) ≫= λ r,
      match r with
      | Some c => mret (Some c)
      | None => try_sockets socks
      end
  end.

Definition not_connected_text : string :=
  "Could not connect to Docker daemon. Tried: $DOCKER_HOST, /var/run/docker.sock, ~/.docker/run/docker.sock, "
  +:+ "~/.colima/default/docker.sock, ~/.rd/docker.sock, $XDG_RUNTIME_DIR/docker.sock, /run/user/$UID/docker.sock".

Definition connect_docker : M (result Conn SandboxError) :=
  responsive (connect_with_local_defaults dk) ≫= λ r,
  match r with
  | Some c => mret (Ok c)
  | None => try_sockets unix_socket_candidates ≫= λ r,
      mret (match r with Some c => Ok c | None => Err (DockerNotAvailable not_connected_text) end)
  end.

Definition docker_is_responsive (c : Conn) : M bool := ping c ≫= λ r, mret (is_ok r).

Definition ensure_docker_responsive (c : Conn) : M (result unit SandboxError) :=
  ping c ≫= λ r, mret (match r with Ok _ => Ok () | Err e => Err (DockerNotAvailable e) end).

(** ** [DockerState] *)

Definition docker_get : M (result Conn SandboxError) :=
  manager ≫= λ m,
  mret (match sm_docker m with
        | Some c => Ok c
        | None => Err (DockerNotAvailable "Docker connection not initialized")
        end).

Definition docker_store (c : Conn) : M unit := manager ≫= λ m, set_manager (with_docker c m).

Definition docker_is_available : M bool :=
  manager ≫= λ m,
  match sm_docker m with
  | Some c => docker_is_responsive c
  | None =>
      connect_docker ≫= λ r,
      match r with
      | Ok c => docker_is_responsive c ≫= λ ok, (if ok : bool then docker_store c else mret ()) ≫= λ _, mret ok
      | Err _ => mret false
      end
  end.

Definition connect_verified : M (result Conn SandboxError) :=
  let? c := connect_docker in
  let? _ := ensure_docker_responsive c in
  mret (Ok c).

(** ** [ContainerRunner] *)

Record ContainerRunner := { cr_docker : Conn; cr_image : string; cr_proxy_port : Z }.

Definition image_exists (r : ContainerRunner) : M bool :=
  call (λ log, on_inspect_image dk log (cr_docker r) (cr_image r)) (λ _, CInspectImage (cr_image r)) ≫= λ x,
  mret (is_ok x).

Definition pull_image (r : ContainerRunner) : M (result unit SandboxError) :=
  call (λ log, on_pull dk log (cr_docker r) (cr_image r)) (λ _, CPull (cr_image r)) ≫= λ failure,
  mret (match failure with
        | Some e => Err (ContainerCreationFailed ("image pull failed: " +:+ e))
        | None => Ok ()
        end).

(** The container gets a fresh random name, which no reply depends on. *)
Definition create_container (r : ContainerRunner) (command working_dir : string) (policy : SandboxPolicy)
    (limits : ResourceLimits) (env : list (string * string)) : M (result string SandboxError) :=
  let body := container_body (cr_image r) (cr_proxy_port r) command working_dir policy limits env in
  call (λ log, on_create dk log (cr_docker r) body) (CCreate body) ≫= λ x,
  mret (match x with Ok id => Ok id | Err e => Err (ContainerCreationFailed e) end).

Definition collect_logs (r : ContainerRunner) (id : string) (max_output : nat) : M Collected :=
  call (λ log, on_logs dk log (cr_docker r) id) (λ _, CLogs id) ≫= λ stream,
  mret (collect_output_from_stream stream max_output).

Definition wait_for_container (r : ContainerRunner) (id : string) (max_output : nat) :
    M (result ContainerOutput SandboxError) :=
  call (λ log, on_wait dk log (cr_docker r) id) (λ _, CWait id) ≫= λ x,
  match x with
  | Some (Ok code) =>
      collect_logs r id max_output ≫= λ c,
      mret (Ok {| ct_exit_code := code; ct_stdout := co_stdout c; ct_stderr := co_stderr c;
                  ct_truncated := co_truncated c |})
  | Some (Err e) => mret (Err (SbExecutionFailed ("wait failed: " +:+ e)))
  | None => mret (Err (SbExecutionFailed "container wait stream ended unexpectedly"))
  end.

(** [let _ = remove_container(..)] *)
Definition remove_container (r : ContainerRunner) (id : string) : M unit :=
  call (λ log, on_remove dk log (cr_docker r) id) (CRemove id) ≫= λ _, mret ().

Definition runner_execute (r : ContainerRunner) (command working_dir : string) (policy : SandboxPolicy)
    (limits : ResourceLimits) (env : list (string * string)) : M (result ContainerOutput SandboxError) :=
  let? id := create_container r command working_dir policy limits env in
  call (λ log, on_start dk log (cr_docker r) id) (λ _, CStart id) ≫= λ started,
  match started with
  | Err e => remove_container r id ≫= λ _, mret (Err (ContainerStartFailed e))
  | Ok _ =>
      with_timeout (wait_for_container r id (max_output_bytes limits)) ≫= λ res,
      remove_container r id ≫= λ _,
      mret (match res with
            | Some x => x
            | None => Err (SbTimeout (limits_timeout limits))
            end)
  end.

(** ** The manager *)

Definition is_available : M bool :=
  manager ≫= λ m, if sc_enabled (sm_config m) then docker_is_available else mret false.

(** [build_and_start] *)
Definition start_proxy (config : SandboxConfig) : M (result (ProxyState * Z) SandboxError) :=
  call (λ log, on_bind dk log (sc_proxy_port config)) (λ _, CBind (sc_proxy_port config)) ≫= λ x,
  mret (match x with
        | Ok port => Ok (proxy_build (from_config config), port)
        | Err e => Err (ProxyError ("failed to bind: " +:+ e))
        end).

Definition ensure_image (r : ContainerRunner) (config : SandboxConfig) : M (result unit SandboxError) :=
  image_exists r ≫= λ found,
  if found : bool then mret (Ok ())
  else if sc_auto_pull_image config then pull_image r
  else mret (Err (ContainerCreationFailed ("image " +:+ sc_image config +:+ " not found and auto_pull is disabled"))).

Definition initialize : M (result unit SandboxError) :=
  manager ≫= λ m,
  let config := sm_config m in
  if sm_initialized m then mret (Ok ())
  else if negb (sc_enabled config) then mret (Err (SbConfig "sandbox is disabled"))
  else
    let? c := connect_verified in
    let? _ := ensure_image {| cr_docker := c; cr_image := sc_image config; cr_proxy_port := sc_proxy_port config |} config in
    docker_store c ≫= λ _,
    let? _ :=
      (if is_sandboxed (sc_policy config) then
         let? p := start_proxy config in
         manager ≫= λ m, set_manager (with_proxy (Some p) m) ≫= λ _, mret (Ok ())
       else mret (Ok ())) in
    manager ≫= λ m, set_manager (with_initialized true m) ≫= λ _, mret (Ok ()).

Definition shutdown : M unit :=
  manager ≫= λ m, set_manager (with_initialized false (with_proxy None m)).

Definition max_output : nat := 64 * 1024.

(** The cut of a stream at half of the limit, and whether text was cut. *)
Definition cut_at (half_max : nat) (s : string) : string * bool :=
  if half_max <? String.length s then (str_take (floor_char_boundary s half_max) s, true) else (s, false).

Definition execute_direct (config : SandboxConfig) (command cwd : string) (env : list (string * string)) :
    M (result ExecOutput SandboxError) :=
  let p := {| hp_command := command; hp_cwd := cwd; hp_env_clear := false; hp_env := env |} in
  with_timeout (call (λ log, on_host dk log p) (λ _, CHost p)) ≫= λ res,
  mret (match res with
        | None => Err (SbTimeout (sc_timeout config))
        | Some (Err e) => Err (SbExecutionFailed (host_error_text e))
        | Some (Ok out) =>
            let '(stdout, cut_out) := cut_at (max_output / 2) (from_utf8_lossy (po_stdout out)) in
            let '(stderr, cut_err) := cut_at (max_output / 2) (from_utf8_lossy (po_stderr out)) in
            Ok {| ex_exit_code := default (-1)%Z (po_code out); ex_stdout := stdout; ex_stderr := stderr;
                  ex_output := combine_output stdout stderr; ex_truncated := cut_out || cut_err |}
        end).

Definition container_limits (config : SandboxConfig) : ResourceLimits := {|
  memory_bytes := wrap_u64 (sc_memory_limit_mb config * 1024 * 1024); cpu_shares := sc_cpu_shares config;
  limits_timeout := sc_timeout config; max_output_bytes := max_output |}.

Definition proxy_port (m : SandboxManager Conn) : Z := default 0%Z (snd <$> sm_proxy m).

Definition execute_with_policy (command cwd : string) (policy : SandboxPolicy) (env : list (string * string)) :
    M (result ExecOutput SandboxError) :=
  manager ≫= λ m,
  let config := sm_config m in
  if bool_decide (policy = FullAccess) then execute_direct config command cwd env
  else
    let? _ := (if sm_initialized m then mret (Ok ()) else initialize) in
    manager ≫= λ m,
    let port := proxy_port m in
    let? c := docker_get in
    let? out := runner_execute {| cr_docker := c; cr_image := sc_image config; cr_proxy_port := port |}
                  command cwd policy (container_limits config) env in
    mret (Ok (exec_output_from out)).

Definition sandbox_execute (command cwd : string) (env : list (string * string)) : M (result ExecOutput SandboxError) :=
  manager ≫= λ m, execute_with_policy command cwd (sc_policy (sm_config m)) env.

Definition sandbox_build (command project_dir : string) (env : list (string * string)) :
    M (result ExecOutput SandboxError) :=
  execute_with_policy command project_dir WorkspaceWrite env.
End Manager.

(** ** Reasoning about computations *)

Section Logic.
Context {U : UnicodeCase} {Conn : Type}.
Implicit Types (s : @Sys Conn).

#[local] Existing Instance M_ret.
#[local] Existing Instance M_bind.

(** After [m], started in [s], [Q] holds of the state and the outcome. *)
Definition wp {A} (m : @M Conn A) (Q : @Sys Conn → Outcome A → Prop) s : Prop := Q (m s).1 (m s).2.

Lemma wp_mono {A} (m : M A) (Q Q' : Sys → Outcome A → Prop) s :
  wp m Q s → (∀ s' o, Q s' o → Q' s' o) → wp m Q' s.
Proof. unfold wp. auto. Qed.

Lemma wp_ret {A} (a : A) Q s : Q s (Done a) → wp (mret a) Q s.
Proof. done. Qed.

Lemma wp_bind {A B} (m : M A) (k : A → M B) Q s :
  wp m (λ s' o, match o with Done a => wp (k a) Q s' | Stopped d => Q s' (Stopped d) end) s → wp (m ≫= k) Q s.
Proof. unfold wp, mbind, M_bind. destruct (m s) as [s' []]; done. Qed.

Lemma wp_try {A B E} (m : M (result A E)) (k : A → M (result B E)) Q s :
  wp m (λ s' o, match o with
                | Done (Ok a) => wp (k a) Q s'
                | Done (Err e) => Q s' (Done (Err e))
                | Stopped d => Q s' (Stopped d)
                end) s → wp (M_try m k) Q s.
Proof.
  intros H. apply wp_bind. eapply wp_mono; [exact H|]. intros s' [[a|e]|d] HQ; done.
Qed.

Lemma wp_call {A} (reply : list (Call Conn) → Outcome A) entry Q s :
  Q (s.1 ++ [entry (reply s.1)], s.2) (reply s.1) → wp (call reply entry) Q s.
Proof. done. Qed.

Lemma wp_timeout {A} (m : M A) Q s :
  wp m (λ s' o, match o with
                | Done a => Q s' (Done (Some a))
                | Stopped InnerDeadline => Q s' (Done None)
                | Stopped OuterDeadline => Q s' (Stopped OuterDeadline)
                end) s → wp (with_timeout m) Q s.
Proof. unfold wp, with_timeout. destruct (m s) as [s' [|[]]]; done. Qed.

Lemma wp_manager Q s : Q s (Done s.2) → wp manager Q s.
Proof. done. Qed.

Lemma wp_set_manager m Q s : Q (s.1, m) (Done ()) → wp (set_manager m) Q s.
Proof. done. Qed.

(** ** Calls that neither start nor remove anything *)

Definition harmless (c : Call Conn) : bool :=
  match c with CCreate _ _ | CRemove _ _ | CHost _ => false | _ => true end.

Definition only_harmless (log log' : list (Call Conn)) : Prop :=
  ∃ new, log' = log ++ new ∧ Forall (λ c, harmless c = true) new.

Lemma only_harmless_refl log : only_harmless log log.
Proof. exists []. by rewrite app_nil_r. Qed.

Lemma only_harmless_trans l1 l2 l3 : only_harmless l1 l2 → only_harmless l2 l3 → only_harmless l1 l3.
Proof.
  intros (n & -> & Hn) (n' & -> & Hn'). exists (n ++ n'). rewrite app_assoc. split; [done|]. by apply Forall_app.
Qed.

Lemma only_harmless_snoc log c : harmless c = true → only_harmless log (log ++ [c]).
Proof. intros Hc. exists [c]. split; [done|]. by constructor. Qed.

Definition quiet {A} (m : M A) : Prop := ∀ s, wp m (λ s' o, s'.2 = s.2 ∧ only_harmless s.1 s'.1) s.

Lemma quiet_ret {A} (a : A) : quiet (mret a).
Proof. intros s. split; [done|]. apply only_harmless_refl. Qed.

Lemma quiet_bind {A B} (m : M A) (k : A → M B) : quiet m → (∀ a, quiet (k a)) → quiet (m ≫= k).
Proof.
  intros Hm Hk s. apply wp_bind. eapply wp_mono; [apply Hm|]. intros s1 [a|d] [H1 H2]; [|done].
  eapply wp_mono; [apply Hk|]. intros s2 o [H3 H4]. split; [congruence|]. by eapply only_harmless_trans.
Qed.

Lemma quiet_call {A} (reply : list (Call Conn) → Outcome A) entry :
  (∀ r, harmless (entry r) = true) → quiet (call reply entry).
Proof. intros H s. apply wp_call. split; [done|]. by apply only_harmless_snoc. Qed.

Lemma quiet_try {A B E} (m : M (result A E)) (k : A → M (result B E)) :
  quiet m → (∀ a, quiet (k a)) → quiet (M_try m k).
Proof. intros Hm Hk. apply quiet_bind; [done|]. intros [a|e]; [done|apply quiet_ret]. Qed.
End Logic.

Create HintDb quiet.
#[export] Hint Resolve quiet_ret quiet_bind quiet_call quiet_try : quiet.

(** ** Containers are confined and removed *)

Section Confined.
Context {U : UnicodeCase} {Conn : Type}.
Variable dk : Daemon Conn.
(** A listening socket has a port. *)
#[local] Existing Instance M_ret.
#[local] Existing Instance M_bind.
Hypothesis bind_port : ∀ log port p, on_bind dk log port = Done (Ok p) → (0 < p)%Z.
Implicit Types (s : @Sys Conn).

Lemma quiet_responsive c : quiet (responsive dk c).
Proof. destruct c; simpl; eauto with quiet. Qed.

Lemma quiet_try_sockets socks : quiet (try_sockets dk socks).
Proof.
  induction socks as [|sock socks IH]; simpl; [apply quiet_ret|].
  apply quiet_bind; [apply quiet_responsive|]. intros []; [apply quiet_ret|done].
Qed.

Lemma quiet_connect_verified : quiet (connect_verified dk).
Proof.
  apply quiet_try.
  - apply quiet_bind; [apply quiet_responsive|]. intros []; [apply quiet_ret|].
    apply quiet_bind; [apply quiet_try_sockets|]. intros r. apply quiet_ret.
  - intros c. apply quiet_try; [|eauto with quiet]. apply quiet_bind; [by apply quiet_call|eauto with quiet].
Qed.

Lemma quiet_ensure_image r config : quiet (ensure_image dk r config).
Proof.
  apply quiet_bind; [apply quiet_bind; [by apply quiet_call|eauto with quiet]|]. intros []; [apply quiet_ret|].
  case_match; [|apply quiet_ret]. apply quiet_bind; [by apply quiet_call|eauto with quiet].
Qed.

(** An initialised manager is connected, and its proxy runs if its own policy is
    a sandboxed one. *)
Definition manager_ok (m : SandboxManager Conn) : Prop :=
  sm_initialized m = true →
  is_Some (sm_docker m) ∧
  (is_sandboxed (sc_policy (sm_config m)) = true →
   ∃ port, (0 < port)%Z ∧ sm_proxy m = Some (proxy_build (from_config (sm_config m)), port)).

Definition initialized_post s s' (o : Outcome (result unit SandboxError)) : Prop :=
  manager_ok s'.2 ∧ sm_config s'.2 = sm_config s.2 ∧ (o = Done (Ok ()) → sm_initialized s'.2 = true) ∧
  only_harmless s.1 s'.1.

Lemma initialize_stopped s s' o :
  manager_ok s.2 → s'.2 = s.2 → only_harmless s.1 s'.1 → o ≠ Done (Ok ()) → initialized_post s s' o.
Proof. intros Hok E Hl Ho. unfold initialized_post. by rewrite E. Qed.

Lemma set_initialized_post s s' :
  manager_ok (with_initialized true s'.2) → sm_config s'.2 = sm_config s.2 → only_harmless s.1 s'.1 →
  wp (manager ≫= λ m, set_manager (with_initialized true m) ≫= λ _, mret (Ok ())) (initialized_post s) s'.
Proof.
  intros Hok Hc Hl. apply wp_bind, wp_manager, wp_bind, wp_set_manager, wp_ret. by split_and!.
Qed.

Lemma initialize_spec s : manager_ok s.2 → wp (initialize dk) (initialized_post s) s.
Proof.
  intros Hok. unfold initialize. apply wp_bind, wp_manager. cbv zeta.
  destruct (sm_initialized s.2) eqn:Ei.
  { apply wp_ret. split_and!; try done. apply only_harmless_refl. }
  destruct (negb _); [apply wp_ret, initialize_stopped; [done..|apply only_harmless_refl|done]|].
  apply wp_try. eapply wp_mono; [apply quiet_connect_verified|]. intros s1 o (E1 & L1).
  destruct o as [[c|e]|d]; [|by apply initialize_stopped..].
  apply wp_try. eapply wp_mono; [apply quiet_ensure_image|]. intros s2 o (E2 & L2).
  assert (only_harmless s.1 s2.1) as L by (by eapply only_harmless_trans).
  assert (s2.2 = s.2) as E by congruence. clear E1 E2 L1 L2.
  destruct o as [[[]|e]|d]; [|by apply initialize_stopped..].
  apply wp_bind, wp_bind, wp_manager, wp_set_manager. rewrite E. apply wp_try.
  destruct (is_sandboxed (sc_policy (sm_config s.2))) eqn:Ep.
  - apply wp_try, wp_bind, wp_call. simpl.
    assert (only_harmless s.1 (s2.1 ++ [CBind (sc_proxy_port (sm_config s.2))])) as L'.
    { eapply only_harmless_trans; [exact L|by apply only_harmless_snoc]. }
    assert (∀ o, o ≠ Done (Ok ()) →
      initialized_post s (s2.1 ++ [CBind (sc_proxy_port (sm_config s.2))], with_docker c s.2) o) as Hfail.
    { intros o Ho. split_and!; try done. intros Hi. simpl in Hi. congruence. }
    destruct (on_bind dk _ _) as [[port|e]|d] eqn:Eb; [|by apply wp_ret, Hfail|by apply Hfail].
    apply wp_ret, wp_bind, wp_manager, wp_bind, wp_set_manager, wp_ret.
    apply set_initialized_post; [|done..]. intros _. split; [by eexists|].
    intros _. exists port. split; [by eapply bind_port|done].
  - apply wp_ret. apply set_initialized_post; [|done..]. intros _. split; [by eexists|].
    simpl. intros H. congruence.
Qed.

(** The containers that were created and that the daemon has not said to have
    removed, the latest first. *)
Fixpoint remove_first (id : string) (l : list string) : list string :=
  match l with
  | [] => []
  | x :: l => if bool_decide (x = id) then l else x :: remove_first id l
  end.

Definition live_step (l : list string) (c : Call Conn) : list string :=
  match c with
  | CCreate _ (Done (Ok id)) => id :: l
  | CRemove id (Done (Ok _)) => remove_first id l
  | _ => l
  end.

Definition live (log : list (Call Conn)) : list string := foldl live_step [] log.

Lemma live_harmless log log' : only_harmless log log' → live log' = live log.
Proof.
  intros (new & -> & H). unfold live. rewrite foldl_app. generalize (foldl live_step [] log) as l.
  induction H as [|c new Hc _ IH]; intros l; [done|]. simpl. rewrite IH. by destruct c.
Qed.

Lemma live_snoc log c : live (log ++ [c]) = live_step (live log) c.
Proof. unfold live. by rewrite foldl_app. Qed.
Lemma proxy_env_set port env name :
  name ∈ ["http_proxy"; "https_proxy"; "HTTP_PROXY"; "HTTPS_PROXY"] →
  name +:+ "=http://host.docker.internal:" +:+ pretty port ∈ proxy_env port env.
Proof.
  intros Hn. unfold proxy_env. apply elem_of_app. left. apply list_elem_of_filter. split.
  - repeat (apply elem_of_cons in Hn as [->|Hn]; [done|]). by apply elem_of_nil in Hn.
  - apply elem_of_app. right. apply list_elem_of_fmap. eauto.
Qed.

(** What may happen when a command runs under a policy: with full access a
    process on the host, else only containers for that command, with nothing of
    the host but the working directory, writable only if the policy allows it,
    a read-only root, no capabilities but one, the configured memory, and the
    proxy as the way to the network if the manager runs one. *)
Definition confined (config : SandboxConfig) (command cwd : string) (policy : SandboxPolicy) (c : Call Conn) : Prop :=
  match c with
  | CCreate body _ =>
      let host := cb_host_config body in
      policy ≠ FullAccess ∧ cb_cmd body = ["sh"; "-c"; command] ∧ cb_image body = sc_image config ∧
      binds host = [cwd +:+ ":/workspace:" +:+ (if allows_writes policy then "rw" else "ro")] ∧
      readonly_rootfs host = true ∧ cap_drop host = ["ALL"] ∧ cap_add host = ["CHOWN"] ∧
      memory host = as_i64 (sc_memory_limit_mb config * 1024 * 1024) ∧
      (is_sandboxed (sc_policy config) = true →
       ∃ port, (0 < port)%Z ∧ ∀ name, name ∈ ["http_proxy"; "https_proxy"; "HTTP_PROXY"; "HTTPS_PROXY"] →
         name +:+ "=http://host.docker.internal:" +:+ pretty port ∈ cb_env body)
  | CHost p => policy = FullAccess ∧ hp_command p = command ∧ hp_cwd p = cwd
  | _ => True
  end.

Lemma container_confined config command cwd policy env port reply :
  policy ≠ FullAccess → (is_sandboxed (sc_policy config) = true → (0 < port)%Z) →
  confined config command cwd policy
    (CCreate (container_body (sc_image config) port command cwd policy (container_limits config) env) reply).
Proof.
  intros Hp Hport. split_and!; try done.
  - by destruct policy.
  - by apply bool_decide_eq_true.
  - simpl. unfold as_i64, wrap_u64. by rewrite Zmod_mod.
  - intros Hs. exists port. split; [by apply Hport|]. intros name Hn. simpl. unfold container_env.
    destruct (Z.ltb_spec 0 port) as [_|Hle]; [|specialize (Hport Hs); lia].
    replace (is_sandboxed policy) with true by (by destruct policy). by apply proxy_env_set.
Qed.

(** The log grew by entries that satisfy [P].  A computation that was not stopped
    left no container behind but one whose removal the daemon was asked for and
    refused; a stopped one left at most one. *)
Definition tidy {A} (P : Call Conn → Prop) (log log' : list (Call Conn)) (o : Outcome A) : Prop :=
  (∃ new, log' = log ++ new ∧ Forall P new) ∧
  match o with
  | Done _ => live log' = live log ∨
      ∃ id e log1, log' = log1 ++ [CRemove id (Done (Err e))] ∧ live log' = id :: live log
  | Stopped _ => live log' = live log ∨ ∃ id, live log' = id :: live log
  end.

Lemma tidy_trans {A} P l1 l2 l3 (o : Outcome A) :
  (∀ c, harmless c = true → P c) → only_harmless l1 l2 → tidy P l2 l3 o → tidy P l1 l3 o.
Proof.
  intros HP Hh [(n' & -> & Hn') Hl]. pose proof (live_harmless _ _ Hh) as Hlive.
  destruct Hh as (n & -> & Hn). rewrite Hlive in Hl. split; [|done].
  exists (n ++ n'). rewrite app_assoc. split; [done|]. apply Forall_app. split; [|done].
  eapply Forall_impl; [exact Hn|]. done.
Qed.

Lemma tidy_harmless {A} P l1 l2 (o : Outcome A) :
  (∀ c, harmless c = true → P c) → only_harmless l1 l2 → tidy P l1 l2 o.
Proof.
  intros HP Hh. eapply tidy_trans; [done..|]. split; [|by destruct o; auto]. exists []. by rewrite app_nil_r.
Qed.

(** Behind the creation of a container: harmless calls, then its removal, which
    either ends the computation or was answered. *)
Lemma tidy_removed {A} (P : Call Conn → Prop) log body id reply log' (o : Outcome A) :
  (∀ c, harmless c = true → P c) → P (CCreate body (Done (Ok id))) → P (CRemove id reply) →
  only_harmless (log ++ [CCreate body (Done (Ok id))]) log' →
  match reply, o with Stopped _, Done _ => False | _, _ => True end →
  tidy P log (log' ++ [CRemove id reply]) o.
Proof.
  intros HP HC HR Hh Ho. assert (live (log' ++ [CRemove id reply]) =
      match reply with Done (Ok _) => live log | _ => id :: live log end) as Hl.
  { rewrite live_snoc. simpl. rewrite (live_harmless _ _ Hh), live_snoc. simpl.
    destruct reply as [[]|]; by rewrite ?bool_decide_true. }
  destruct Hh as (n & -> & Hn). split.
  - exists (CCreate body (Done (Ok id)) :: n ++ [CRemove id reply]). rewrite <-!app_assoc. split; [done|].
    constructor; [done|]. apply Forall_app. split; [eapply Forall_impl; [exact Hn|]; done|]. by constructor.
  - rewrite Hl. destruct reply as [[]|], o; try done; eauto 10.
Qed.

Lemma tidy_leaked {A} (P : Call Conn → Prop) log body id log' d :
  (∀ c, harmless c = true → P c) → P (CCreate body (Done (Ok id))) →
  only_harmless (log ++ [CCreate body (Done (Ok id))]) log' → tidy (A := A) P log log' (Stopped d).
Proof.
  intros HP HC Hh. pose proof (live_harmless _ _ Hh) as Hl. rewrite live_snoc in Hl. simpl in Hl.
  destruct Hh as (n & -> & Hn). split; [|right; eauto].
  exists (CCreate body (Done (Ok id)) :: n). rewrite <-app_assoc. split; [done|].
  constructor; [done|]. eapply Forall_impl; [exact Hn|]. done.
Qed.
Lemma confined_harmless config command cwd policy c :
  harmless c = true → confined config command cwd policy c.
Proof. by destruct c. Qed.

Lemma quiet_wait r id n : quiet (with_timeout (wait_for_container dk r id n)).
Proof.
  intros s. apply wp_timeout. assert (quiet (wait_for_container dk r id n)) as Hq.
  { apply quiet_bind; [by apply quiet_call|]. intros [[]|]; try apply quiet_ret.
    apply quiet_bind; [|eauto with quiet]. apply quiet_bind; [by apply quiet_call|eauto with quiet]. }
  eapply wp_mono; [apply Hq|]. by intros s' [|[]].
Qed.

Lemma runner_execute_spec config c port command cwd policy env s :
  policy ≠ FullAccess → (is_sandboxed (sc_policy config) = true → (0 < port)%Z) →
  wp (runner_execute dk {| cr_docker := c; cr_image := sc_image config; cr_proxy_port := port |}
        command cwd policy (container_limits config) env)
    (λ s' o, s'.2 = s.2 ∧ tidy (confined config command cwd policy) s.1 s'.1 o) s.
Proof.
  intros Hp Hport. pose proof (container_confined config command cwd policy env port) as Hc.
  assert (∀ (A : Type) log log' body reply (o : Outcome A), body = container_body (sc_image config) port command cwd
    policy (container_limits config) env → (∀ id, reply ≠ Done (Ok id)) → log' = log ++ [CCreate body reply] →
    tidy (confined config command cwd policy) log log' o) as Hfailed.
  { intros A log log' body reply o -> Hr ->. split; [eexists; split; [done|]; constructor; [by apply Hc|done]|].
    assert (live (log ++ [CCreate (container_body (sc_image config) port command cwd policy
      (container_limits config) env) reply]) = live log) as Hl.
    { rewrite live_snoc. destruct reply as [[id|]|]; try done. by destruct (Hr id). }
    destruct o; auto. }
  apply wp_try, wp_bind, wp_call. cbn [cr_docker cr_image cr_proxy_port].
  destruct (on_create dk _ _ _) as [[id|e]|d] eqn:Er; 
    [|apply wp_ret; split; [done|]; by refine (Hfailed _ _ _ _ _ _ eq_refl _ eq_refl)
     |split; [done|]; by refine (Hfailed _ _ _ _ _ _ eq_refl _ eq_refl)].
  apply wp_ret, wp_bind, wp_call. set (created := CCreate _ _).
  assert (∀ log', only_harmless (s.1 ++ [created]) log' → only_harmless (s.1 ++ [created]) (log' ++ [CStart id]))
    as Hstart by (intros log' H; eapply only_harmless_trans; [exact H|by apply only_harmless_snoc]).
  assert (only_harmless (s.1 ++ [created]) ((s.1 ++ [created]) ++ [CStart id])) as L
    by apply Hstart, only_harmless_refl.
  cbn [fst snd] in *. destruct (on_start dk _ _ _) as [[[]|e]|d] eqn:Es.
  - apply wp_bind. eapply wp_mono; [apply quiet_wait|]. intros s1 o (E1 & L1).
    assert (only_harmless (s.1 ++ [created]) s1.1) as L' by (by eapply only_harmless_trans).
    destruct o as [res|d]; [|split; [done|by eapply tidy_leaked; [apply confined_harmless|apply Hc|exact L']]].
    apply wp_bind, wp_bind, wp_call. destruct (on_remove dk _ _ _); [apply wp_ret, wp_ret|]; (split; [done|]);
      by eapply tidy_removed; [apply confined_harmless|apply Hc| |exact L'|].
  - apply wp_bind, wp_bind, wp_call. destruct (on_remove dk _ _ _); [apply wp_ret, wp_ret|]; (split; [done|]);
      by eapply tidy_removed; [apply confined_harmless|apply Hc| |exact L|].
  - split; [done|]. by eapply tidy_leaked; [apply confined_harmless|apply Hc|exact L].
Qed.

Lemma execute_tidy command cwd policy env s :
  manager_ok s.2 →
  wp (execute_with_policy dk command cwd policy env) (λ s' o,
    manager_ok s'.2 ∧ sm_config s'.2 = sm_config s.2 ∧ tidy (confined (sm_config s.2) command cwd policy) s.1 s'.1 o) s.
Proof.
  intros Hok. pose proof (confined_harmless (sm_config s.2) command cwd policy) as Hh.
  apply wp_bind, wp_manager. cbv zeta. case_bool_decide as Hp.
  - apply wp_bind, wp_timeout, wp_call.
    assert (∀ (A : Type) (o : Outcome A) p, hp_command p = command → hp_cwd p = cwd →
      tidy (confined (sm_config s.2) command cwd policy) s.1 (s.1 ++ [CHost p]) o) as Ht.
    { intros A o p Hc Hd. split; [eexists; split; [done|]; by constructor|].
      destruct o; left; by rewrite live_snoc. }
    destruct (on_host dk _ _) as [|[]]; [apply wp_ret| apply wp_ret|]; split_and!; try done; by apply Ht.
  - apply wp_try. eapply (wp_mono _ (initialized_post s)).
    { destruct (sm_initialized s.2) eqn:Ei; [|by apply initialize_spec].
      apply wp_ret. split_and!; try done. apply only_harmless_refl. }
    intros s1 o (Hok1 & Ec & Hi & Hl). destruct o as [[[]|e]|d]; [|split_and!; try done; by apply tidy_harmless..].
    specialize (Hi eq_refl). destruct (Hok1 Hi) as [[c Hd] Hproxy].
    apply wp_bind, wp_manager, wp_try, wp_bind, wp_manager, wp_ret. rewrite Hd. apply wp_try.
    eapply wp_mono; [apply runner_execute_spec; [done|]|].
    + intros Hs. rewrite <-Ec in Hs. destruct (Hproxy Hs) as (port & Hport & Hp'). unfold proxy_port. by rewrite Hp'.
    + intros s2 o [E2 Ht]. assert (∀ (A : Type) (o' : Outcome A), (match o with Done _ => True | Stopped _ => False end ↔
        match o' with Done _ => True | Stopped _ => False end) →
        manager_ok s2.2 ∧ sm_config s2.2 = sm_config s.2 ∧ tidy (confined (sm_config s.2) command cwd policy) s.1 s2.1 o') as Hfin.
      { intros A o' Ho. rewrite E2. split_and!; [done..|]. eapply tidy_trans; [done|exact Hl|].
        destruct Ht as [H1 H2]. split; [done|]. destruct o, o'; naive_solver. }
      destruct o as [[out|e]|d]; [apply wp_ret| |]; by apply Hfin.
Qed.

(** C7. A command under a sandboxed policy runs in a container that is confined, and
    its container is removed.  Whatever the daemon replies, a run under
    [ReadOnly] or [WorkspaceWrite] starts no process on the host and only
    containers that see the working directory alone (writable only under
    [WorkspaceWrite]) and are given the proxy whenever the manager's own policy
    makes it run one; the manager keeps its invariant.  If the run is not
    stopped from outside, the container it created has been removed, unless the
    daemon refused the removal, which the code asks for last and whose answer it
    ignores; stopped from outside, the run leaves at most one container. *)
Theorem sandbox_confines command cwd policy env s (Hok : manager_ok s.2) :
  let '(s', o) := execute_with_policy dk command cwd policy env s in
  manager_ok s'.2 ∧ sm_config s'.2 = sm_config s.2 ∧
  tidy (confined (sm_config s.2) command cwd policy) s.1 s'.1 o.
Proof.
  pose proof (execute_tidy command cwd policy env s Hok) as H. unfold wp in H.
  by destruct (execute_with_policy dk command cwd policy env s).
Qed.
End Confined.

(** ** Output is bounded and whole characters *)

Lemma second_byte_spec c ok more :
  second_byte c = Some (ok, more) →
  continuation_count c = Some (S more) ∧ ∀ d, ok d = true → is_continuation d = true.
Proof.
  unfold second_byte, byte_in, continuation_count. set (n := Ascii.N_of_ascii c).
  assert (∀ lo hi, (128 <= lo)%N → (hi <= 191)%N →
    ∀ d, ((lo <=? Ascii.N_of_ascii d) && (Ascii.N_of_ascii d <=? hi))%N = true → is_continuation d = true) as Hcont.
  { intros lo hi Hlo Hhi d. unfold is_continuation. rewrite !andb_true_iff, !N.leb_le. lia. }
  intros H.
  repeat match type of H with
  | (if ?b then _ else _) = Some _ => destruct b eqn:?; [injection H as <- <-|]
  end; [..|done].
  all: split; [|by apply Hcont].
  all: repeat match goal with
  | E : (_ && _) = true |- _ => apply andb_true_iff in E as [? ?]
  | E : (_ || _) = true |- _ => apply orb_true_iff in E as [?|?]
  | E : (_ && _) = false |- _ => clear E
  | E : (_ || _) = false |- _ => clear E
  | E : (_ <=? _)%N = true |- _ => apply N.leb_le in E
  end.
  all: repeat case_match; repeat match goal with
  | E : (_ <=? _)%N = true |- _ => apply N.leb_le in E
  | E : (_ <=? _)%N = false |- _ => apply N.leb_gt in E
  end; done || lia.
Qed.

Lemma continuations_all n s :
  continuations n s = n → all_continuation (str_take n s) = true ∧ String.length (str_take n s) = n.
Proof.
  revert s. induction n as [|n IH]; intros [|c s]; simpl; try done.
  destruct (is_continuation c); [|done]. intros [= H]. destruct (IH s H) as [-> ->]. done.
Qed.

Lemma char_at_utf8 c s n : char_at c s = (n, true) → utf8 (str_take n (String c s)).
Proof.
  unfold char_at. destruct (is_ascii c) eqn:Ea.
  { intros [= <-]. simpl. apply (utf8_char _ ""); [|done|constructor]. apply ascii_utf8_char.
    unfold is_ascii in Ea. apply N.ltb_lt in Ea. apply N.leb_le. lia. }
  destruct (second_byte c) as [[ok more]|] eqn:E; [|done]. apply second_byte_spec in E as [Hc Hok].
  destruct s as [|c2 s2]; [done|]. destruct (ok c2) eqn:Eo; [|done]. intros H. injection H as <- Hk.
  apply Nat.eqb_eq in Hk. rewrite Hk. destruct (continuations_all _ _ Hk) as [H1 H2]. cbn [plus str_take].
  rewrite <-(str_app_nil_r (str_take more s2)), <-str_app_cons. apply utf8_char; [|simpl; by rewrite Hok|constructor].
  simpl. by rewrite H2.
Qed.

Lemma from_utf8_lossy_utf8 s : utf8 (from_utf8_lossy s).
Proof.
  unfold from_utf8_lossy. generalize (String.length s) as fuel. intros fuel. revert s.
  induction fuel as [|fuel IH]; intros [|c s]; try constructor. cbn [utf8_lossy_fuel].
  destruct (char_at c s) as [n complete] eqn:E. apply utf8_app; [|apply IH].
  destruct complete; [by apply char_at_utf8|].
  apply (utf8_char _ (String (byte 191) (String (byte 189) ""))); [done|done|constructor].
Qed.

Lemma append_with_limit_spec buffer text limit :
  String.length buffer ≤ limit → utf8 buffer → utf8 text →
  let '(out, cut) := append_with_limit buffer text limit in
  String.length out ≤ limit ∧ utf8 out ∧ (cut = false → out = buffer +:+ text).
Proof.
  intros Hb Hu Ht. unfold append_with_limit. case_bool_decide as He.
  { subst. by rewrite str_app_nil_r. }
  destruct (Nat.leb_spec limit (String.length buffer)); [done|]. cbv zeta.
  destruct (Nat.leb_spec (String.length text) (limit - String.length buffer)) as [Hle|Hgt].
  { split_and!; [rewrite str_length_app; lia|by apply utf8_app|done]. }
  unfold floor_char_boundary. rewrite (proj2 (Nat.leb_gt _ _) Hgt).
  pose proof (back_to_boundary_le text (limit - String.length buffer)).
  split_and!; [rewrite str_length_app, str_length_take; lia| |done].
  apply utf8_app; [done|]. apply utf8_take_boundary; [done|apply back_to_boundary_ok].
Qed.

Definition log_text (err : bool) (item : result LogOutput string) : string :=
  match item with
  | Ok (StdOut m) => if err then "" else from_utf8_lossy m
  | Ok (StdErr m) => if err then from_utf8_lossy m else ""
  | _ => ""
  end.

Definition collected_ok (half : nat) (c : Collected) : Prop :=
  (String.length (co_stdout c) ≤ half ∧ utf8 (co_stdout c)) ∧ String.length (co_stderr c) ≤ half ∧ utf8 (co_stderr c).

(** One step: the limits hold, and without the mark nothing was lost. *)
Lemma collect_item_ok half c item :
  collected_ok half c →
  let c' := collect_item half c item in
  collected_ok half c' ∧
  (co_truncated c' = false → co_truncated c = false ∧
   co_stdout c' = co_stdout c +:+ log_text false item ∧ co_stderr c' = co_stderr c +:+ log_text true item).
Proof.
  intros [[H1 H2] [H3 H4]]. destruct item as [[m|m|]|e]; simpl; [| |by rewrite !str_app_nil_r|done].
  - pose proof (append_with_limit_spec (co_stdout c) (from_utf8_lossy m) half H1 H2 (from_utf8_lossy_utf8 m)) as Ha.
    destruct (append_with_limit _ _ half) as [out cut]. destruct Ha as (A1 & A2 & A3). split; [done|].
    simpl. rewrite str_app_nil_r. intros [-> ->]%orb_false_iff. by rewrite A3.
  - pose proof (append_with_limit_spec (co_stderr c) (from_utf8_lossy m) half H3 H4 (from_utf8_lossy_utf8 m)) as Ha.
    destruct (append_with_limit _ _ half) as [out cut]. destruct Ha as (A1 & A2 & A3). split; [done|].
    simpl. rewrite str_app_nil_r. intros [-> ->]%orb_false_iff. by rewrite A3.
Qed.

Lemma collect_ok half stream c :
  collected_ok half c →
  let c' := foldl (collect_item half) c stream in
  collected_ok half c' ∧
  (co_truncated c' = false → co_truncated c = false ∧
   co_stdout c' = co_stdout c +:+ concat_all (log_text false <$> stream) ∧
   co_stderr c' = co_stderr c +:+ concat_all (log_text true <$> stream)).
Proof.
  revert c. induction stream as [|item stream IH]; intros c Hc; cbv zeta; cbn [foldl].
  { simpl. by rewrite !str_app_nil_r. }
  destruct (collect_item_ok half c item Hc) as [Hc' Hi]. destruct (IH _ Hc') as [Hf Hx]. split; [done|].
  intros Ht. destruct (Hx Ht) as (Ht' & -> & ->). destruct (Hi Ht') as (? & -> & ->). simpl. by rewrite !str_app_assoc.
Qed.

(** The output that is kept of a container is bounded and readable, and complete
    unless it is marked.  However long the stream, each of the two texts has at
    most half of the limit and consists of whole characters; without the mark
    they are the two texts of the stream. *)
Theorem container_output_bounded (stream : list (result LogOutput string)) (max : nat) :
  let c := collect_output_from_stream stream max in
  String.length (co_stdout c) ≤ max / 2 ∧ String.length (co_stderr c) ≤ max / 2 ∧
  utf8 (co_stdout c) ∧ utf8 (co_stderr c) ∧
  String.length (combine_output (co_stdout c) (co_stderr c)) ≤ max + 17 ∧
  (co_truncated c = false →
   co_stdout c = concat_all (log_text false <$> stream) ∧ co_stderr c = concat_all (log_text true <$> stream)).
Proof.
  intros c. destruct (collect_ok (max / 2) stream {| co_stdout := ""; co_stderr := ""; co_truncated := false |})
    as [[[H1 H2] [H3 H4]] H5]; [by repeat split; try constructor; simpl; lia|].
  change (foldl _ _ _) with c in *. split_and!; try done; [|intros Ht; by apply H5].
  pose proof (Nat.Div0.mul_div_le max 2).
  unfold combine_output. repeat case_bool_decide; rewrite ?str_length_app; simpl; lia.
Qed.

(** A daemon that does as it is told; the wait for the container ends as given. *)
Definition docile (wait : Outcome (option (result Z string))) : Daemon unit := {|
  connect_with_local_defaults := Some (); connect_with_socket := λ _, None; sock_exists := λ _, false;
  home_dir := None; xdg_runtime_dir := None; euid := 1000;
  on_ping := λ _ _, Done (Ok ()); on_inspect_image := λ _ _ _, Done (Ok ()); on_pull := λ _ _ _, Done None;
  on_create := λ _ _ _, Done (Ok "c1"); on_start := λ _ _ _, Done (Ok ());
  on_wait := λ _ _ _, wait; on_logs := λ _ _ _, Done [Ok (StdOut "README.md")];
  on_remove := λ _ _ _, Done (Ok ()); on_bind := λ _ _, Done (Ok 40001%Z); on_host := λ _ _, Done (Err (SpawnFailed "refused")) |}.

Lemma docile_bind wait log port p : on_bind (docile wait) log port = Done (Ok p) → (0 < p)%Z.
Proof. by intros [= <-]. Qed.

Definition fresh_manager : Sys := ([], sandbox_manager_new (Conn := unit) sandbox_config_default).

Lemma sandbox_confines_witness :
  let U := ascii_case in
  let '((log, m), o) := execute_with_policy (docile (Done (Some (Ok 0%Z)))) "ls" "/work" ReadOnly [] fresh_manager in
  manager_ok m ∧ live log = [] ∧ Forall (confined sandbox_config_default "ls" "/work" ReadOnly) log ∧
  match o with Done (Ok out) => ex_output out = "README.md" | _ => False end.
Proof.
  intros U. assert (manager_ok (fresh_manager.2)) as Hok by done.
  pose proof (sandbox_confines (docile (Done (Some (Ok 0%Z)))) (docile_bind _) "ls" "/work" ReadOnly [] fresh_manager Hok) as H.
  assert (∃ out, (execute_with_policy (docile (Done (Some (Ok 0%Z)))) "ls" "/work" ReadOnly [] fresh_manager).2 = Done (Ok out)
    ∧ ex_output out = "README.md") as (out & Ho & Hout) by (eexists; split; vm_compute; reflexivity).
  assert (last (execute_with_policy (docile (Done (Some (Ok 0%Z)))) "ls" "/work" ReadOnly [] fresh_manager).1.1 =
    Some (CRemove "c1" (Done (Ok ())))) as Hlast by (vm_compute; reflexivity).
  destruct (execute_with_policy _ _ _ _ _ _) as [[log m] o]. simpl in Ho. subst o.
  destruct H as (H1 & _ & (new & Hnew & H2) & H3). simpl in Hnew. subst log.
  split_and!; [exact H1| |exact H2|exact Hout].
  destruct H3 as [H3|(id & e & log1 & Hlog & _)]; [exact H3|]. simpl in Hlast, Hlog. by rewrite Hlog, last_snoc in Hlast.
Defined.

(** The code ignores what the daemon answers to the removal: a refusal leaves the
    container, and the run is reported as a success. *)
Lemma refused_removal_leaves_container :
  let U := ascii_case in
  let dk := docile (Done (Some (Ok 0%Z))) in
  let dk := {| connect_with_local_defaults := connect_with_local_defaults dk; connect_with_socket := connect_with_socket dk;
    sock_exists := sock_exists dk; home_dir := None; xdg_runtime_dir := None; euid := 1000; on_ping := on_ping dk;
    on_inspect_image := on_inspect_image dk; on_pull := on_pull dk; on_create := on_create dk; on_start := on_start dk;
    on_wait := on_wait dk; on_logs := on_logs dk; on_remove := λ _ _ _, Done (Err "busy"); on_bind := on_bind dk;
    on_host := on_host dk |} in
  let '((log, m), o) := execute_with_policy dk "ls" "/work" ReadOnly [] fresh_manager in
  live log = ["c1"] ∧ match o with Done (Ok out) => ex_output out = "README.md" | _ => False end.
Proof. by vm_compute. Qed.

(** The deadline the shell tool sets around the whole run also drops the removal:
    the container stays. *)
Lemma stopped_run_leaves_container :
  let U := ascii_case in
  let '((log, m), o) := execute_with_policy (docile (Stopped OuterDeadline)) "sleep 1000" "/work" ReadOnly [] fresh_manager in
  live log = ["c1"] ∧ o = Stopped OuterDeadline.
Proof. by vm_compute. Qed.

(** A manager whose own policy is full access starts no proxy, and a container
    under [ReadOnly] then has the network without one. *)
Lemma read_only_without_proxy :
  let U := ascii_case in
  let config := {| sc_enabled := true; sc_policy := FullAccess; sc_timeout := secs 120; sc_memory_limit_mb := 2048;
    sc_cpu_shares := 1024; sc_network_allowlist := default_allowlist; sc_image := "axinite-worker:latest";
    sc_auto_pull_image := true; sc_proxy_port := 0 |} in
  let '((log, m), o) := execute_with_policy (docile (Done (Some (Ok 0%Z)))) "ls" "/work" ReadOnly []
    ([], sandbox_manager_new config) in
  sm_proxy m = None ∧
  omap (λ c, match c with CCreate body _ => Some (cb_env body, network_mode (cb_host_config body)) | _ => None end) log
    = [([], "bridge")].
Proof. by vm_compute. Qed.
