(* ===== verification/Credentials.v ===== *)
(** * Credentials of tools

    Models [src/src/tools/wasm/credential_injector.rs] and
    [credential_registry.rs] with the error type of [src/src/secrets/types.rs]:
    which secrets are added to a request for a host, in which form, and the
    registry of the credential mappings all installed tools share.

    A [HashMap] that is iterated is the list of its values in the order of the
    iteration; one that is built up is a [gmap].  The store of secrets is the
    class [SecretsStore]. *)

From S2P Require Import Prelude Text Allowlist.

#[global] Instance CredentialLocation_eq_dec : EqDecision CredentialLocation.
Proof. solve_decision. Defined.

(** ** Secrets *)

Inductive SecretError :=
| SecNotFound (name : string)
| SecExpired
| SecDecryptionFailed (msg : string)
| SecEncryptionFailed (msg : string)
| SecInvalidMasterKey
| SecInvalidUtf8
| SecDatabase (msg : string)
| SecAccessDenied
| SecKeychainError (msg : string).

Definition secret_error_display (e : SecretError) : string :=
  match e with
  | SecNotFound name => "Secret not found: " +:+ name
  | SecExpired => "Secret has expired"
  | SecDecryptionFailed msg => "Decryption failed: " +:+ msg
  | SecEncryptionFailed msg => "Encryption failed: " +:+ msg
  | SecInvalidMasterKey => "Invalid master key"
  | SecInvalidUtf8 => "Secret value is not valid UTF-8"
  | SecDatabase msg => "Database error: " +:+ msg
  | SecAccessDenied => "Secret access denied for tool"
  | SecKeychainError msg => "Keychain error: " +:+ msg
  end.

Record CreateSecretParams := {
  cp_name : string;
  cp_value : string;
  cp_provider : option string;
  cp_expires_at : option Utc;
}.

Definition create_params_new `{UnicodeCase} (name value : string) : CreateSecretParams := {|
  cp_name := to_lowercase name; cp_value := value; cp_provider := None; cp_expires_at := None |}.
Definition with_provider (provider : string) (p : CreateSecretParams) : CreateSecretParams := {|
  cp_name := cp_name p; cp_value := cp_value p; cp_provider := Some provider; cp_expires_at := cp_expires_at p |}.
Definition with_expiry (at_ : Utc) (p : CreateSecretParams) : CreateSecretParams := {|
  cp_name := cp_name p; cp_value := cp_value p; cp_provider := cp_provider p; cp_expires_at := Some at_ |}.

(** The operations of a store that tools use: the expiry of a secret, its value,
    and the storing of a new one. *)
Class SecretsStore (W : Type) := {
  store_get : W → string → string → result (option Utc) SecretError;
  get_decrypted : W → string → string → result string SecretError;
  store_create : W → string → CreateSecretParams → W * result unit SecretError;
}.

(** ** Hosts *)

Definition has_wildcard_suffix (host suffix : string) : bool :=
  ends_with host suffix && (String.length suffix <? String.length host).

Definition host_matches_pattern (host pattern : string) : bool :=
  if bool_decide (pattern = host) then true
  else match strip_prefix pattern "*." with
       | Some suffix =>
           has_wildcard_suffix host suffix &&
           (let prefix := str_take (String.length host - String.length suffix) host in
            ends_with prefix "." || bool_decide (prefix = ""))
       | None => false
       end.

(** ** Base64 *)

Definition ALPHABET : string := "ABCDEFGHIJKLMNOPQRSTUVWXYZabcdefghijklmnopqrstuvwxyz0123456789+/".

Definition sextet (v : N) : Ascii.ascii := default (byte 61) (String.get (N.to_nat v) ALPHABET).

(** The four values of a group of three bytes; a missing byte counts as 0. *)
Definition v0_of (b0 : N) : N := N.shiftr b0 2.
Definition v1_of (b0 b1 : N) : N := N.lor (N.shiftl (N.land b0 0x03) 4) (N.shiftr b1 4).
Definition v2_of (b1 b2 : N) : N := N.lor (N.shiftl (N.land b1 0x0f) 2) (N.shiftr b2 6).
Definition v3_of (b2 : N) : N := N.land b2 0x3f.

Fixpoint base64_encode (input : string) : string :=
  match input with
  | String b0 (String b1 (String b2 rest)) =>
      let b0 := Ascii.N_of_ascii b0 in
      let b1 := Ascii.N_of_ascii b1 in
      let b2 := Ascii.N_of_ascii b2 in
      String (sextet (v0_of b0)) (String (sextet (v1_of b0 b1))
        (String (sextet (v2_of b1 b2)) (String (sextet (v3_of b2)) (base64_encode rest))))
  | String b0 (String b1 EmptyString) =>
      let b0 := Ascii.N_of_ascii b0 in
      let b1 := Ascii.N_of_ascii b1 in
      String (sextet (v0_of b0)) (String (sextet (v1_of b0 b1)) (String (sextet (v2_of b1 0)) "="))
  | String b0 EmptyString =>
      let b0 := Ascii.N_of_ascii b0 in
      String (sextet (v0_of b0)) (String (sextet (v1_of b0 0)) "==")
  | EmptyString => ""
  end.

(** ** The injector *)

Inductive InjectionError :=
| InjSecretNotFound (name : string)
| InjAccessDenied (name : string)
| InjSecretExpired (name : string)
| InjDecryptionFailed (msg : string)
| InjNoMatchingCredential (host : string).

Definition injection_error_from (e : SecretError) : InjectionError :=
  match e with
  | SecNotFound name => InjSecretNotFound name
  | SecExpired => InjSecretExpired "unknown"
  | SecAccessDenied => InjAccessDenied "unknown"
  | SecDecryptionFailed msg => InjDecryptionFailed msg
  | e => InjDecryptionFailed (secret_error_display e)
  end.

Record InjectedCredentials := { ic_headers : gmap string string; ic_query_params : gmap string string }.

Definition injected_empty : InjectedCredentials := {| ic_headers := ∅; ic_query_params := ∅ |}.
Definition injected_is_empty (r : InjectedCredentials) : bool :=
  bool_decide (ic_headers r = ∅) && bool_decide (ic_query_params r = ∅).

Definition add_header (name value : string) (r : InjectedCredentials) : InjectedCredentials :=
  {| ic_headers := <[name := value]> (ic_headers r); ic_query_params := ic_query_params r |}.
Definition add_query_param (name value : string) (r : InjectedCredentials) : InjectedCredentials :=
  {| ic_headers := ic_headers r; ic_query_params := <[name := value]> (ic_query_params r) |}.

Definition inject_credential (r : InjectedCredentials) (loc : CredentialLocation) (secret : string) :
    InjectedCredentials :=
  match loc with
  | AuthorizationBearer => add_header "Authorization" ("Bearer " +:+ secret) r
  | AuthorizationBasic username =>
      add_header "Authorization" ("Basic " +:+ base64_encode (username +:+ ":" +:+ secret)) r
  | CredHeader name prefix =>
      add_header name (match prefix with Some p => p +:+ secret | None => secret end) r
  | QueryParam name => add_query_param name secret r
  | UrlPath _ => r
  end.

Record CredentialInjector := { ci_mappings : list CredentialMapping; ci_allowed_secrets : list string }.

Definition find_credentials_for_host (i : CredentialInjector) (host : string) : list CredentialMapping :=
  filter (λ m, existsb (host_matches_pattern host) (host_patterns m) = true) (ci_mappings i).

Section Inject.
Context {U : UnicodeCase} {W : Type} {S : SecretsStore W}.

Definition is_secret_allowed (i : CredentialInjector) (name : string) : bool :=
  let name_lower := to_lowercase name in
  existsb (λ pattern,
    let pattern_lower := to_lowercase pattern in
    bool_decide (pattern_lower = name_lower) ||
    match strip_suffix pattern_lower "*" with
    | Some prefix => starts_with name_lower prefix
    | None => false
    end) (ci_allowed_secrets i).

Fixpoint inject_all (i : CredentialInjector) (store : W) (user_id : string) (mappings : list CredentialMapping)
    (r : InjectedCredentials) : result InjectedCredentials InjectionError :=
  match mappings with
  | [] => Ok r
  | m :: mappings =>
      if negb (is_secret_allowed i (secret_name m)) then Err (InjAccessDenied (secret_name m))
      else match get_decrypted store user_id (secret_name m) with
           | Ok secret => inject_all i store user_id mappings (inject_credential r (location m) secret)
           | Err (SecNotFound name) => Err (InjSecretNotFound name)
           | Err SecExpired => Err (InjSecretExpired (secret_name m))
           | Err e => Err (InjDecryptionFailed (secret_error_display e))
           end
  end.

Definition inject (i : CredentialInjector) (user_id host : string) (store : W) :
    result InjectedCredentials InjectionError :=
  inject_all i store user_id (find_credentials_for_host i host) injected_empty.
End Inject.

(** ** The registry *)

Record OwnedCredentialMapping := { ow_owner : option string; ow_mapping : CredentialMapping }.

Abbreviation Registry := (list OwnedCredentialMapping).

Definition set_patterns (patterns : list string) (m : CredentialMapping) : CredentialMapping :=
  {| secret_name := secret_name m; location := location m; host_patterns := patterns |}.

(** Patterns that are not there yet are added behind, in order. *)
Definition push_pattern (patterns : list string) (p : string) : list string :=
  if bool_decide (p ∈ patterns) then patterns else patterns ++ [p].

Definition merge_host_patterns_into (existing : CredentialMapping) (new_patterns : list string) : CredentialMapping :=
  set_patterns (foldl push_pattern (host_patterns existing) new_patterns) existing.

Definition same_key (a b : CredentialMapping) : bool :=
  bool_decide (secret_name a = secret_name b) && bool_decide (location a = location b).

(** The first mapping with the key takes the patterns over, else the mapping is
    added behind. *)
Fixpoint dedupe_push (deduped : list CredentialMapping) (m : CredentialMapping) : list CredentialMapping :=
  match deduped with
  | [] => [m]
  | e :: deduped =>
      if same_key e m then merge_host_patterns_into e (host_patterns m) :: deduped
      else e :: dedupe_push deduped m
  end.

Definition dedupe_mappings_by_secret_name_and_location (mappings : list CredentialMapping) : list CredentialMapping :=
  reverse (foldl dedupe_push [] (reverse mappings)).

Definition merge_host_patterns_from_existing (guard : Registry) (m : CredentialMapping) : CredentialMapping :=
  foldl (λ m e, merge_host_patterns_into m (host_patterns (ow_mapping e))) m
    (filter (λ e, ow_owner e = None ∧ same_key (ow_mapping e) m = true) guard).

Definition replace_ownerless_mappings (guard : Registry) (mappings : list CredentialMapping) : Registry :=
  let merged := merge_host_patterns_from_existing guard <$> mappings in
  filter (λ e, ow_owner e ≠ None ∨ existsb (same_key (ow_mapping e)) mappings = false) guard
  ++ ((λ m, {| ow_owner := None; ow_mapping := m |}) <$> merged).

Definition replace_owned_mappings (guard : Registry) (owner : string) (mappings : list CredentialMapping) : Registry :=
  filter (λ e, ow_owner e ≠ Some owner) guard
  ++ ((λ m, {| ow_owner := Some owner; ow_mapping := m |}) <$> mappings).

Definition replace_mappings_by_secret_name (guard : Registry) (owner : option string)
    (mappings : list CredentialMapping) : Registry :=
  match owner with
  | Some owner => replace_owned_mappings guard owner mappings
  | None => replace_ownerless_mappings guard mappings
  end.

Definition add_mappings_for_owner (guard : Registry) (owner : option string) (mappings : list CredentialMapping) :
    Registry :=
  replace_mappings_by_secret_name guard owner (dedupe_mappings_by_secret_name_and_location mappings).

Definition add_mappings (guard : Registry) (mappings : list CredentialMapping) : Registry :=
  add_mappings_for_owner guard None mappings.
Definition add_mappings_for_tool (guard : Registry) (tool_name : string) (mappings : list CredentialMapping) : Registry :=
  add_mappings_for_owner guard (Some tool_name) mappings.

Definition remove_mappings_for_secrets (guard : Registry) (owner_id : string) (secret_names : list string) : Registry :=
  match secret_names with
  | [] => filter (λ e, ow_owner e ≠ Some owner_id) guard
  | _ => filter (λ e, ¬ (secret_name (ow_mapping e) ∈ secret_names ∧ ow_owner e = Some owner_id)) guard
  end.

Definition matches_host_patterns (e : OwnedCredentialMapping) (host : string) : bool :=
  existsb (host_matches_pattern host) (host_patterns (ow_mapping e)).

Definition has_credentials_for_host (guard : Registry) (host : string) : bool :=
  existsb (λ e, matches_host_patterns e host) guard.

Definition find_for_host (guard : Registry) (host : string) : list CredentialMapping :=
  ow_mapping <$> filter (λ e, matches_host_patterns e host = true) guard.

(** ** Hosts *)

Lemma host_matches_pattern_spec host pattern : host_matches_pattern host pattern = true ↔ host_covers pattern host.
Proof.
  rewrite <-covers_spec. unfold host_matches_pattern, wildcard_suffix_matches, has_wildcard_suffix.
  case_bool_decide; [done|]. destruct (strip_prefix pattern "*.") as [suffix|]; [|done].
  by destruct (ends_with host suffix && (String.length suffix <? String.length host)).
Qed.

(** ** Base64 is invertible *)

(** The decoding of RFC 4648, with padding. *)
Definition base64_value (c : Ascii.ascii) : option N :=
  N.of_nat <$> position (λ d, bool_decide (d = c)) (String.list_ascii_of_string ALPHABET).

Definition byte_of (hi lo : N) : Ascii.ascii := Ascii.ascii_of_N (N.lor hi lo).

Fixpoint base64_decode (s : string) : option string :=
  match s with
  | EmptyString => Some ""
  | String c0 (String c1 (String c2 (String c3 rest))) =>
      v0 ← base64_value c0; v1 ← base64_value c1;
      let b0 := byte_of (N.shiftl v0 2) (N.shiftr v1 4) in
      if bool_decide (c2 = byte 61) then
        (if bool_decide (c3 = byte 61 ∧ rest = "") then Some (String b0 "") else None)
      else
        v2 ← base64_value c2;
        let b1 := byte_of (N.shiftl (N.land v1 15) 4) (N.shiftr v2 2) in
        if bool_decide (c3 = byte 61) then
          (if bool_decide (rest = "") then Some (String b0 (String b1 "")) else None)
        else
          v3 ← base64_value c3;
          let b2 := byte_of (N.shiftl (N.land v2 3) 6) v3 in
          (λ r, String b0 (String b1 (String b2 r))) <$> base64_decode rest
  | _ => None
  end.

(** All values below a bound *)
Definition below (n : nat) (P : N → bool) : bool := forallb (λ i, P (N.of_nat i)) (seq 0 n).

Lemma below_spec n P x : below n P = true → (x < N.of_nat n)%N → P x = true.
Proof.
  unfold below. rewrite forallb_forall. intros H Hx. rewrite <-(N2Nat.id x). apply H, in_seq. lia.
Qed.

Definition sextet_ok (v : N) : bool := bool_decide (base64_value (sextet v) = Some v ∧ sextet v ≠ byte 61).

Lemma sextet_value v : (v < 64)%N → base64_value (sextet v) = Some v ∧ sextet v ≠ byte 61.
Proof.
  intros Hv. assert (sextet_ok v = true) as H by (apply (below_spec 64); [by vm_compute|lia]).
  by apply bool_decide_eq_true in H.
Qed.

Lemma ascii_below c : (Ascii.N_of_ascii c < 256)%N.
Proof. apply Ascii.N_ascii_bounded. Qed.

(** The parts of a byte: its high bits, its low bits, and what they make. *)
Definition splits (b : N) : bool :=
  (N.shiftr b 2 <? 64)%N && (N.land b 3 <? 4)%N && (N.shiftr b 4 <? 16)%N && (N.land b 15 <? 16)%N &&
  (N.shiftr b 6 <? 4)%N && (N.land b 63 <? 64)%N &&
  (N.lor (N.shiftl (N.shiftr b 2) 2) (N.land b 3) =? b)%N &&
  (N.lor (N.shiftl (N.shiftr b 4) 4) (N.land b 15) =? b)%N &&
  (N.lor (N.shiftl (N.shiftr b 6) 6) (N.land b 63) =? b)%N.

Lemma byte_splits c : splits (Ascii.N_of_ascii c) = true.
Proof. apply (below_spec 256); [by vm_compute|]. pose proof (ascii_below c). lia. Qed.

(** Two parts put side by side are found again. *)
Definition packs (k m : N) (x y : N) : bool :=
  let v := N.lor (N.shiftl x k) y in
  (v <? 64)%N && (N.shiftr v k =? x)%N && (N.land v m =? y)%N.

Lemma packs_4_2 x y : (x < 4)%N → (y < 16)%N → packs 4 15 x y = true.
Proof.
  intros Hx Hy. assert (below 16 (λ y, packs 4 15 x y) = true) as H; [|by apply (below_spec 16 (packs 4 15 x))].
  apply (below_spec 4 (λ x, below 16 (λ y, packs 4 15 x y))); [by vm_compute|lia].
Qed.

Lemma packs_2_4 x y : (x < 16)%N → (y < 4)%N → packs 2 3 x y = true.
Proof.
  intros Hx Hy. assert (below 4 (λ y, packs 2 3 x y) = true) as H; [|by apply (below_spec 4 (packs 2 3 x))].
  apply (below_spec 16 (λ x, below 4 (λ y, packs 2 3 x y))); [by vm_compute|lia].
Qed.

Ltac byte_facts c := pose proof (byte_splits c); unfold splits, packs in *; cbv zeta in *;
  repeat match goal with
  | H : (_ && _) = true |- _ => apply andb_true_iff in H as [? ?]
  | H : (_ <? _)%N = true |- _ => apply N.ltb_lt in H
  | H : (_ =? _)%N = true |- _ => apply N.eqb_eq in H
  end.

Lemma v1_parts c d :
  let b0 := Ascii.N_of_ascii c in
  let b1 := Ascii.N_of_ascii d in
  (v0_of b0 < 64)%N ∧ (v1_of b0 b1 < 64)%N ∧ N.shiftr (v1_of b0 b1) 4 = N.land b0 3 ∧ N.land (v1_of b0 b1) 15 = N.shiftr b1 4.
Proof.
  intros b0 b1. byte_facts c. byte_facts d. unfold v0_of, v1_of.
  pose proof (packs_4_2 (N.land b0 3) (N.shiftr b1 4)) as Hp. specialize (Hp ltac:(done) ltac:(done)). byte_facts c.
  by split_and!.
Qed.

Lemma v2_parts c d :
  let b1 := Ascii.N_of_ascii c in
  let b2 := Ascii.N_of_ascii d in
  (v2_of b1 b2 < 64)%N ∧ (v3_of b2 < 64)%N ∧ N.shiftr (v2_of b1 b2) 2 = N.land b1 15 ∧ N.land (v2_of b1 b2) 3 = N.shiftr b2 6.
Proof.
  intros b1 b2. byte_facts c. byte_facts d. unfold v2_of, v3_of.
  pose proof (packs_2_4 (N.land b1 15) (N.shiftr b2 6)) as Hp. specialize (Hp ltac:(done) ltac:(done)). byte_facts c.
  by split_and!.
Qed.

Lemma byte_of_parts c k m :
  N.lor (N.shiftl (N.shiftr (Ascii.N_of_ascii c) k) k) (N.land (Ascii.N_of_ascii c) m) = Ascii.N_of_ascii c →
  byte_of (N.shiftl (N.shiftr (Ascii.N_of_ascii c) k) k) (N.land (Ascii.N_of_ascii c) m) = c.
Proof. unfold byte_of. intros ->. apply Ascii.ascii_N_embedding. Qed.

Lemma byte_back c :
  let b := Ascii.N_of_ascii c in
  byte_of (N.shiftl (v0_of b) 2) (N.land b 3) = c ∧ byte_of (N.shiftl (N.shiftr b 4) 4) (N.land b 15) = c ∧
  byte_of (N.shiftl (N.shiftr b 6) 6) (v3_of b) = c.
Proof. intros b. byte_facts c. split_and!; by apply byte_of_parts. Qed.

#[local] Opaque v0_of v1_of v2_of v3_of N.shiftr N.shiftl N.land byte_of sextet base64_value.

(** Basic credentials can be read back: what the encoder writes is what a decoder
    by the standard turns into the same bytes, for every input. *)
Theorem base64_roundtrip (input : string) : base64_decode (base64_encode input) = Some input.
Proof.
  induction input as [input IH] using (induction_ltof1 _ String.length). unfold ltof in IH.
  destruct input as [|c0 input]; [done|].
  destruct (byte_back c0) as (B0 & _ & _).
  destruct input as [|c1 input].
  { cbn [base64_encode base64_decode]. cbv zeta.
    destruct (v1_parts c0 Ascii.zero) as (V0 & V1 & P0 & _). change (Ascii.N_of_ascii Ascii.zero) with 0%N in *.
    rewrite (proj1 (sextet_value _ V0)), (proj1 (sextet_value _ V1)). cbn. by rewrite P0, B0. }
  destruct (v1_parts c0 c1) as (V0 & V1 & P0 & P1). destruct (byte_back c1) as (_ & B1 & _).
  destruct input as [|c2 input].
  { cbn [base64_encode base64_decode]. cbv zeta.
    destruct (v2_parts c1 Ascii.zero) as (V2 & _ & P2 & _). change (Ascii.N_of_ascii Ascii.zero) with 0%N in *. destruct (sextet_value _ V2) as [E2 N2].
    rewrite (proj1 (sextet_value _ V0)), (proj1 (sextet_value _ V1)). simpl. rewrite bool_decide_false, E2 by done.
    simpl. by rewrite P0, B0, P1, P2, B1. }
  destruct (v2_parts c1 c2) as (V2 & V3 & P2 & P3). destruct (byte_back c2) as (_ & _ & B2).
  destruct (sextet_value _ V2) as [E2 N2]. destruct (sextet_value _ V3) as [E3 N3].
  cbn [base64_encode base64_decode]. cbv zeta.
  rewrite (proj1 (sextet_value _ V0)), (proj1 (sextet_value _ V1)). simpl.
  rewrite (bool_decide_false (sextet (v2_of _ _) = _)), E2 by done. simpl.
  rewrite (bool_decide_false (sextet (v3_of _) = _)), E3 by done. simpl.
  rewrite (IH input) by (simpl; lia). simpl. by rewrite P0, B0, P1, P2, B1, P3, B2.
Qed.

#[local] Transparent v0_of v1_of v2_of v3_of N.shiftr N.shiftl N.land byte_of sextet base64_value.

(** ** Only mapped and allowed secrets are injected *)

Section InjectSpec.
Context {U : UnicodeCase} {W : Type} {S : SecretsStore W}.

Definition secret_permitted (allowed : list string) (name : string) : Prop :=
  ∃ pattern, pattern ∈ allowed ∧
    (to_lowercase pattern = to_lowercase name ∨
     ∃ prefix rest, to_lowercase pattern = prefix +:+ "*" ∧ to_lowercase name = prefix +:+ rest).

Lemma strip_suffix_spec s p r : strip_suffix s p = Some r ↔ s = r +:+ p.
Proof.
  unfold strip_suffix. destruct (ends_with s p) eqn:E.
  - apply ends_with_spec in E as [r' ->]. rewrite str_length_app.
    replace (String.length r' + String.length p - String.length p) with (String.length r') by lia.
    rewrite str_take_app_ge, Nat.sub_diag by lia. simpl. rewrite str_app_nil_r. split; [by intros [= ->]|].
    intros H. apply str_app_inj_r in H as [-> _]; done.
  - split; [done|]. intros ->. assert (ends_with (r +:+ p) p = true) by (apply ends_with_spec; eauto). congruence.
Qed.

Lemma is_secret_allowed_spec i name :
  is_secret_allowed i name = true ↔ secret_permitted (ci_allowed_secrets i) name.
Proof.
  unfold is_secret_allowed, secret_permitted. rewrite existsb_elem. apply exist_proper. intros pattern. cbv zeta.
  rewrite orb_true_iff, bool_decide_eq_true. apply and_iff_compat_l, or_iff_compat_l.
  destruct (strip_suffix (to_lowercase pattern) "*") as [prefix|] eqn:E.
  - apply strip_suffix_spec in E. rewrite starts_with_spec, E. split.
    + intros [rest Hr]. by exists prefix, rest.
    + intros (prefix' & rest & H & Hr). apply str_app_inj_r in H as [-> _]; [|done]. by exists rest.
  - split; [done|]. intros (prefix & rest & H & _). apply strip_suffix_spec in H. congruence.
Qed.

(** What a secret looks like at its place in the request. *)
Definition header_of (loc : CredentialLocation) (secret : string) : option (string * string) :=
  match loc with
  | AuthorizationBearer => Some ("Authorization", "Bearer " +:+ secret)
  | AuthorizationBasic username => Some ("Authorization", "Basic " +:+ base64_encode (username +:+ ":" +:+ secret))
  | CredHeader name prefix => Some (name, default "" prefix +:+ secret)
  | _ => None
  end.
Definition param_of (loc : CredentialLocation) (secret : string) : option (string * string) :=
  match loc with QueryParam name => Some (name, secret) | _ => None end.

(** Every header and parameter is the form of one of the given secrets. *)
Definition injected_from (sources : list (CredentialMapping * string)) (r : InjectedCredentials) : Prop :=
  (∀ k v, ic_headers r !! k = Some v → ∃ m secret, (m, secret) ∈ sources ∧ header_of (location m) secret = Some (k, v)) ∧
  (∀ k v, ic_query_params r !! k = Some v → ∃ m secret, (m, secret) ∈ sources ∧ param_of (location m) secret = Some (k, v)) ∧
  (∀ m secret k v, (m, secret) ∈ sources → header_of (location m) secret = Some (k, v) → is_Some (ic_headers r !! k)) ∧
  (∀ m secret k v, (m, secret) ∈ sources → param_of (location m) secret = Some (k, v) → is_Some (ic_query_params r !! k)).

Lemma inject_credential_from sources r m secret :
  injected_from sources r → injected_from (sources ++ [(m, secret)]) (inject_credential r (location m) secret).
Proof.
  intros (H1 & H2 & H3 & H4).
  assert ((m, secret) ∈ sources ++ [(m, secret)]) as Hnew by set_solver.
  assert (∀ x, x ∈ sources → x ∈ sources ++ [(m, secret)]) as Hold by set_solver.
  assert (∀ (mm : gmap string string) k v j, is_Some (mm !! j) → is_Some (<[k := v]> mm !! j)) as Hins.
  { intros mm k v j. rewrite lookup_insert_is_Some. destruct (decide (k = j)); naive_solver. }
  split_and!.
  - intros k v Hk. destruct (location m) eqn:El; simpl in Hk;
      try (apply lookup_insert_Some in Hk as [[<- <-]|[_ Hk]]);
      try (destruct (H1 _ _ Hk) as (m' & s & ? & ?); by eauto);
      exists m, secret; (split; [done|]); rewrite El; simpl; try done. by case_match.
  - intros k v Hk. destruct (location m) eqn:El; simpl in Hk;
      try (apply lookup_insert_Some in Hk as [[<- <-]|[_ Hk]]);
      try (destruct (H2 _ _ Hk) as (m' & s & ? & ?); by eauto);
      exists m, secret; (split; [done|]); by rewrite El.
  - intros m' s k v Hin Hh. apply elem_of_app in Hin as [Hin|Hin%list_elem_of_singleton].
    + specialize (H3 _ _ _ _ Hin Hh). destruct (location m); simpl; auto.
    + injection Hin as -> ->. destruct (location m); simpl in *; try done; injection Hh as <- _; by rewrite lookup_insert_eq.
  - intros m' s k v Hin Hh. apply elem_of_app in Hin as [Hin|Hin%list_elem_of_singleton].
    + specialize (H4 _ _ _ _ Hin Hh). destruct (location m); simpl; auto.
    + injection Hin as -> ->. destruct (location m); simpl in *; try done; injection Hh as <- _; by rewrite lookup_insert_eq.
Qed.

Definition usable (i : CredentialInjector) (store : W) (user_id : string) (m : CredentialMapping) (secret : string) : Prop :=
  secret_permitted (ci_allowed_secrets i) (secret_name m) ∧ get_decrypted store user_id (secret_name m) = Ok secret.

Lemma inject_all_spec i store user_id ms sources r :
  injected_from sources r →
  match inject_all i store user_id ms r with
  | Ok r' => ∃ secrets, Forall2 (usable i store user_id) ms secrets ∧ injected_from (sources ++ zip ms secrets) r'
  | Err _ => ∃ m, m ∈ ms ∧ ∀ secret, ¬ usable i store user_id m secret
  end.
Proof.
  revert sources r. induction ms as [|m ms IH]; intros sources r Hr; simpl.
  { exists []. by rewrite app_nil_r. }
  destruct (is_secret_allowed i (secret_name m)) eqn:Ea; simpl.
  2:{ exists m. split; [by left|]. intros secret [Hp _]. apply is_secret_allowed_spec in Hp. congruence. }
  apply is_secret_allowed_spec in Ea. destruct (get_decrypted store user_id (secret_name m)) as [secret|e] eqn:Es.
  - specialize (IH _ _ (inject_credential_from _ _ m secret Hr)). destruct (inject_all _ _ _ _ _) as [r'|e].
    + destruct IH as (secrets & H1 & H2). exists (secret :: secrets). split; [by constructor|]. simpl.
      by rewrite <-app_assoc in H2.
    + destruct IH as (m' & Hin & H). exists m'. split; [by right|done].
  - assert (∃ m0, m0 ∈ m :: ms ∧ ∀ secret, ¬ usable i store user_id m0 secret) as H.
    { exists m. split; [by left|]. intros secret [_ Hg]. congruence. }
    by destruct e.
Qed.

(** C10. Secrets go only where they were mapped.  If injection succeeds, every mapping
    that covers the host names a secret the tool may use and the user has, and the
    headers and parameters are exactly the forms of those secrets; it fails only
    if a mapping that covers the host names a secret that is not allowed or cannot
    be read, and then nothing is injected. *)
Theorem injection_exact i user_id host store :
  let matching := find_credentials_for_host i host in
  (∀ m, m ∈ matching ↔ m ∈ ci_mappings i ∧ ∃ p, p ∈ host_patterns m ∧ host_covers p host) ∧
  match inject i user_id host store with
  | Ok r => ∃ secrets, Forall2 (usable i store user_id) matching secrets ∧ injected_from (zip matching secrets) r
  | Err _ => ∃ m, m ∈ matching ∧ ∀ secret, ¬ usable i store user_id m secret
  end.
Proof.
  intros matching. split.
  - intros m. unfold matching, find_credentials_for_host. rewrite list_elem_of_filter, existsb_elem.
    setoid_rewrite host_matches_pattern_spec. tauto.
  - apply (inject_all_spec i store user_id matching []).
    split_and!; simpl; intros *; rewrite ?lookup_empty, ?elem_of_nil; done.
Qed.
End InjectSpec.

(** ** The registry is a set of grants per owner *)

(** A grant: a secret at a place for the hosts of a pattern. *)
Definition Grant : Type := (string * CredentialLocation) * string.

Definition key_of (m : CredentialMapping) : string * CredentialLocation := (secret_name m, location m).
Definition granted (ms : list CredentialMapping) (g : Grant) : Prop :=
  ∃ m, m ∈ ms ∧ key_of m = g.1 ∧ g.2 ∈ host_patterns m.

Abbreviation Grants := (option string → Grant → Prop).

Definition grants (reg : Registry) : Grants := λ o g, ∃ e, e ∈ reg ∧ ow_owner e = o ∧ granted [ow_mapping e] g.

(** The operations on grants: a tool's grants are replaced, those without owner
    are added to. *)
Definition abs_add (owner : option string) (ms : list CredentialMapping) (G : Grants) : Grants := λ o g,
  (o = owner ∧ granted ms g) ∨ (G o g ∧ (o = owner → owner = None)).
Definition abs_remove (owner : string) (names : list string) (G : Grants) : Grants := λ o g,
  G o g ∧ ¬ (o = Some owner ∧ (names = [] ∨ g.1.1 ∈ names)).

Lemma granted_one m g : granted [m] g ↔ key_of m = g.1 ∧ g.2 ∈ host_patterns m.
Proof. unfold granted. set_solver. Qed.

Lemma same_key_spec a b : same_key a b = true ↔ key_of a = key_of b.
Proof.
  unfold same_key, key_of. rewrite andb_true_iff, !bool_decide_eq_true. split; [by intros [-> ->]|by intros [= -> ->]].
Qed.

Lemma push_patterns_elem l l' p : p ∈ foldl push_pattern l l' ↔ p ∈ l ∨ p ∈ l'.
Proof.
  revert l. induction l' as [|x l' IH]; intros l; simpl; [set_solver|]. rewrite IH. unfold push_pattern.
  case_bool_decide; set_solver.
Qed.

Lemma merge_key m l : key_of (merge_host_patterns_into m l) = key_of m.
Proof. done. Qed.

Lemma merge_granted m l g :
  granted [merge_host_patterns_into m l] g ↔ granted [m] g ∨ (key_of m = g.1 ∧ g.2 ∈ l).
Proof. rewrite !granted_one, merge_key. simpl. rewrite push_patterns_elem. tauto. Qed.

Lemma granted_cons m ms g : granted (m :: ms) g ↔ granted [m] g ∨ granted ms g.
Proof. unfold granted. set_solver. Qed.

Lemma dedupe_push_granted ms m g : granted (dedupe_push ms m) g ↔ granted ms g ∨ granted [m] g.
Proof.
  induction ms as [|e ms IH]; simpl; [unfold granted; set_solver|].
  rewrite (granted_cons e ms). destruct (same_key e m) eqn:E.
  - apply same_key_spec in E. rewrite (granted_cons _ ms), merge_granted, !granted_one, E. tauto.
  - rewrite (granted_cons _ (dedupe_push ms m)), IH. tauto.
Qed.

Lemma dedupe_push_keys ms m :
  NoDup (key_of <$> ms) → NoDup (key_of <$> dedupe_push ms m) ∧
  ∀ k, k ∈ key_of <$> dedupe_push ms m ↔ k ∈ key_of <$> ms ∨ k = key_of m.
Proof.
  induction ms as [|e ms IH]; simpl; intros H.
  { split; [by apply NoDup_singleton|]. intros k. rewrite elem_of_nil, list_elem_of_singleton. tauto. }
  apply NoDup_cons in H as [Hn H]. destruct (IH H) as [IH1 IH2]. destruct (same_key e m) eqn:E; simpl.
  - apply same_key_spec in E. rewrite merge_key. split; [by constructor|].
    intros k. rewrite elem_of_cons, E. tauto.
  - split; [|intros k; rewrite !elem_of_cons, IH2; tauto]. constructor; [|done]. rewrite IH2. intros [?|Hk]; [done|].
    by rewrite (proj2 (same_key_spec e m)) in E.
Qed.

Lemma dedupe_ok ms :
  let out := dedupe_mappings_by_secret_name_and_location ms in
  NoDup (key_of <$> out) ∧ ∀ g, granted out g ↔ granted ms g.
Proof.
  intros out. unfold out, dedupe_mappings_by_secret_name_and_location.
  assert (∀ l acc, NoDup (key_of <$> acc) → NoDup (key_of <$> foldl dedupe_push acc l) ∧
    ∀ g, granted (foldl dedupe_push acc l) g ↔ granted acc g ∨ granted l g) as H.
  { induction l as [|m l IH]; intros acc Hacc; simpl; [unfold granted; set_solver|].
    destruct (IH (dedupe_push acc m)) as [H1 H2]; [by apply dedupe_push_keys|]. split; [done|].
    intros g. rewrite H2, dedupe_push_granted, (granted_cons m l). tauto. }
  assert (∀ l g, granted (reverse l) g ↔ granted l g) as Hr.
  { intros l g. unfold granted. by setoid_rewrite elem_of_reverse. }
  destruct (H (reverse ms) []) as [H1 H2]; [constructor|]. split.
  - by rewrite fmap_reverse, reverse_Permutation.
  - intros g. rewrite Hr, H2, Hr. unfold granted. set_solver.
Qed.

Lemma merge_existing_granted reg m g :
  granted [merge_host_patterns_from_existing reg m] g ↔
  granted [m] g ∨ (key_of m = g.1 ∧ grants reg None g).
Proof.
  unfold merge_host_patterns_from_existing.
  assert (∀ es m', key_of m' = key_of m →
    granted [foldl (λ m e, merge_host_patterns_into m (host_patterns (ow_mapping e))) m' es] g ↔
    granted [m'] g ∨ (key_of m = g.1 ∧ ∃ e, e ∈ es ∧ g.2 ∈ host_patterns (ow_mapping e))) as H.
  { induction es as [|e es IH]; intros m' Hm; simpl; [set_solver|]. rewrite IH by (by rewrite merge_key).
    rewrite merge_granted, Hm. set_solver. }
  rewrite H by done. apply or_iff_compat_l. split.
  - intros (Hk & e & ([Ho Hkey] & He)%list_elem_of_filter & Hp). split; [done|]. exists e. split_and!; [done..|].
    rewrite granted_one. apply same_key_spec in Hkey. split; [congruence|done].
  - intros (Hk & e & He & Ho & [Hke Hp]%granted_one). split; [done|]. exists e. rewrite list_elem_of_filter, same_key_spec.
    split_and!; try done. congruence.
Qed.

Lemma grants_app r1 r2 o g : grants (r1 ++ r2) o g ↔ grants r1 o g ∨ grants r2 o g.
Proof. unfold grants. setoid_rewrite elem_of_app. naive_solver. Qed.

Lemma grants_owned owner ms o g :
  grants ((λ m, {| ow_owner := owner; ow_mapping := m |}) <$> ms) o g ↔ o = owner ∧ granted ms g.
Proof.
  unfold grants, granted. setoid_rewrite list_elem_of_fmap. split.
  - intros (e & (m & -> & Hm) & <- & m' & ->%list_elem_of_singleton & H). eauto.
  - intros (-> & m & Hm & H). eexists. split; [by exists m|]. split; [done|]. exists m. split; [set_solver|done].
Qed.

Lemma grants_filter (P : OwnedCredentialMapping → Prop) `{!∀ e, Decision (P e)} reg o g :
  (∀ e, e ∈ reg → ow_owner e = o → granted [ow_mapping e] g → P e) → grants (filter P reg) o g ↔ grants reg o g.
Proof.
  intros HP. unfold grants. setoid_rewrite list_elem_of_filter. split; [naive_solver|].
  intros (e & He & Ho & Hg). exists e. eauto.
Qed.

Lemma grants_filter_out (P : OwnedCredentialMapping → Prop) `{!∀ e, Decision (P e)} reg o g :
  (∀ e, ow_owner e = o → granted [ow_mapping e] g → ¬ P e) → ¬ grants (filter P reg) o g.
Proof. intros HP (e & (Hp & _)%list_elem_of_filter & Ho & Hg). by eapply HP. Qed.

Lemma add_owned_grants reg owner ms o g :
  grants (replace_owned_mappings reg owner ms) o g ↔ abs_add (Some owner) ms (grants reg) o g.
Proof.
  unfold replace_owned_mappings, abs_add. rewrite grants_app, grants_owned.
  destruct (decide (o = Some owner)) as [->|Hne].
  - pose proof (grants_filter_out (λ e, ow_owner e ≠ Some owner) reg (Some owner) g). naive_solver.
  - rewrite grants_filter by naive_solver. naive_solver.
Qed.

Lemma add_ownerless_grants reg ms o g :
  grants (replace_ownerless_mappings reg ms) o g ↔ abs_add None ms (grants reg) o g.
Proof.
  unfold replace_ownerless_mappings, abs_add. rewrite grants_app, grants_owned.
  destruct (decide (o = None)) as [->|Hne].
  2:{ rewrite grants_filter by naive_solver. naive_solver. }
  assert (granted (merge_host_patterns_from_existing reg <$> ms) g ↔
    granted ms g ∨ ((∃ m, m ∈ ms ∧ key_of m = g.1) ∧ grants reg None g)) as ->.
  { assert (∀ l, granted l g ↔ ∃ m, m ∈ l ∧ granted [m] g) as Hl.
    { intros l. setoid_rewrite granted_one. done. }
    rewrite (Hl (_ <$> ms)), (Hl ms). setoid_rewrite list_elem_of_fmap. split.
    - intros (? & (m & -> & Hm) & H%merge_existing_granted). naive_solver.
    - intros [(m & Hm & H)|((m & Hm & Hk) & H)]; (eexists; split; [by exists m|]); apply merge_existing_granted; auto. }
  destruct (decide (Exists (λ m, key_of m = g.1) ms)) as [Hex|Hex]; rewrite Exists_exists in Hex.
  - destruct Hex as (m & Hm & Hk). split; [|naive_solver].
    intros [H|[_ H]]; [|naive_solver]. right. split; [|done]. destruct H as (e & (_ & He)%list_elem_of_filter & H). by exists e.
  - rewrite grants_filter; [naive_solver|]. intros e He Ho [Hk _]%granted_one. right.
    apply not_true_iff_false. intros (m & Hm & Hs%same_key_spec)%existsb_elem. apply Hex. exists m. split; [done|congruence].
Qed.

Lemma remove_grants reg owner names o g :
  grants (remove_mappings_for_secrets reg owner names) o g ↔ abs_remove owner names (grants reg) o g.
Proof.
  assert (∀ e, granted [ow_mapping e] g → secret_name (ow_mapping e) = g.1.1) as Hname.
  { intros e [Hk _]%granted_one. by rewrite <-Hk. }
  unfold remove_mappings_for_secrets, abs_remove.
  destruct (decide (o = Some owner ∧ (names = [] ∨ g.1.1 ∈ names))) as [[-> Hn]|Hkeep].
  - split; [|naive_solver]. intros H. exfalso. revert H. destruct names as [|x names].
    + apply grants_filter_out. naive_solver.
    + apply grants_filter_out. intros e Ho Hg HP. apply HP. rewrite (Hname e Hg). destruct Hn; done.
  - destruct names as [|x names]; (rewrite grants_filter; [tauto|]); intros e He Ho Hg; [naive_solver|].
    rewrite (Hname e Hg), Ho. naive_solver.
Qed.

Inductive RegistryOp :=
| RegAdd (owner : option string) (mappings : list CredentialMapping)
| RegRemove (owner : string) (secret_names : list string).

Definition registry_step (reg : Registry) (op : RegistryOp) : Registry :=
  match op with
  | RegAdd None ms => add_mappings reg ms
  | RegAdd (Some tool) ms => add_mappings_for_tool reg tool ms
  | RegRemove owner names => remove_mappings_for_secrets reg owner names
  end.

Definition abs_step (G : Grants) (op : RegistryOp) : Grants :=
  match op with
  | RegAdd owner ms => abs_add owner ms G
  | RegRemove owner names => abs_remove owner names G
  end.

Lemma registry_step_grants reg (G : Grants) op :
  (∀ o g, grants reg o g ↔ G o g) → ∀ o g, grants (registry_step reg op) o g ↔ abs_step G op o g.
Proof.
  intros HG o g. destruct op as [[tool|] ms|owner names]; simpl.
  - etrans; [apply add_owned_grants|]. unfold abs_add. by rewrite (proj2 (dedupe_ok ms)), HG.
  - etrans; [apply add_ownerless_grants|]. unfold abs_add. by rewrite (proj2 (dedupe_ok ms)), HG.
  - etrans; [apply remove_grants|]. unfold abs_remove. by rewrite HG.
Qed.

(** C34. Each tool has exactly the credentials it registered last and did not lose.
    After any sequence of registrations and removals the registry holds, per
    owner, the grants the operations describe: registering replaces the tool's own
    grants, removing takes away only the tool's own, no operation of one tool
    touches the grants of another, and whatever order the mappings came in no
    pattern is lost.  A host has credentials exactly when a grant covers it, and
    the mappings found are those that hold such a grant. *)
Theorem registry_refines_grants (ops : list RegistryOp) (host : string) :
  let reg := foldl registry_step [] ops in
  (∀ o g, grants reg o g ↔ foldl abs_step (λ _ _, False) ops o g) ∧
  (has_credentials_for_host reg host = true ↔ ∃ o g, grants reg o g ∧ host_covers g.2 host) ∧
  (∀ m, m ∈ find_for_host reg host → ∃ o g, grants reg o g ∧ g.1 = key_of m ∧ host_covers g.2 host) ∧
  (∀ o g, grants reg o g → host_covers g.2 host → ∃ m, m ∈ find_for_host reg host ∧ key_of m = g.1).
Proof.
  intros reg. split.
  { unfold reg. assert (∀ o g, grants [] o g ↔ (λ _ _, False : Prop) o g) as H0.
    { intros o g. unfold grants. set_solver. }
    revert H0. generalize (λ (_ : option string) (_ : Grant), False). generalize (@nil OwnedCredentialMapping).
    induction ops as [|op ops IH]; intros r G HG; [done|]. simpl. by apply IH, registry_step_grants. }
  assert (∀ e, matches_host_patterns e host = true ↔ ∃ p, p ∈ host_patterns (ow_mapping e) ∧ host_covers p host) as Hm.
  { intros e. unfold matches_host_patterns. rewrite existsb_elem. by setoid_rewrite host_matches_pattern_spec. }
  clearbody reg. split_and!.
  - unfold has_credentials_for_host. rewrite existsb_elem. setoid_rewrite Hm. split.
    + intros (e & He & p & Hp & Hc). exists (ow_owner e), (key_of (ow_mapping e), p). split; [|done].
      exists e. split_and!; [done..|]. by apply granted_one.
    + intros (o & g & (e & He & _ & [_ Hp]%granted_one) & Hc). eauto.
  - intros m (e & -> & (Hp & He)%list_elem_of_filter)%list_elem_of_fmap. apply Hm in Hp as (p & Hp & Hc).
    exists (ow_owner e), (key_of (ow_mapping e), p). split_and!; [|done..]. exists e. split_and!; [done..|]. by apply granted_one.
  - intros o g (e & He & _ & [Hk Hp]%granted_one) Hc. exists (ow_mapping e). split; [|done].
    apply list_elem_of_fmap. exists e. split; [done|]. apply list_elem_of_filter. split; [|done]. apply Hm. eauto.
Qed.
