(* ===== verification/WasmHost.v ===== *)
(** * The host of WASM tools

    Models [src/src/tools/wasm/capabilities.rs], [host.rs] with [host/paths.rs],
    and [wrapper/host_api.rs], [wrapper/store.rs], [wrapper/http.rs] and the
    resolution of credentials in [wrapper/credentials.rs]: what an untrusted tool
    can make the program do while it runs.

    The network is the class [WasmNet]: the answers of the name service may change
    from one lookup to the next, and a server's answer may depend on all requests
    sent before.  A call that panics has no result. *)

From S2P Require Import Prelude Text Externals Allowlist.
From S2P Require Import NetPolicy LeakDetector.
From S2P Require Import Failover Sandbox SandboxProxy Credentials.

(** ** Capabilities *)

Record WorkspaceCapability := {
  allowed_prefixes : list string;
  reader : option (string → option string);
}.

Record HttpCapability := {
  hc_allowlist : list EndpointPattern;
  (** the values of the map of credentials *)
  hc_credentials : list CredentialMapping;
  max_request_bytes : Z;
  max_response_bytes : Z;
  hc_timeout : Duration;
}.

Definition http_capability_new (allowlist : list EndpointPattern) : HttpCapability := {|
  hc_allowlist := allowlist; hc_credentials := []; max_request_bytes := (1024 * 1024)%Z;
  max_response_bytes := (10 * 1024 * 1024)%Z; hc_timeout := secs 30 |}.

Record ToolInvokeCapability := { aliases : gmap string string }.

Definition resolve_alias (c : ToolInvokeCapability) (alias : string) : option string := aliases c !! alias.

Record SecretsCapability := { allowed_names : list string }.

Definition secret_name_allowed (c : SecretsCapability) (name : string) : bool :=
  existsb (λ pattern,
    bool_decide (pattern = name) ||
    match strip_suffix pattern "*" with
    | Some prefix => starts_with name prefix
    | None => false
    end) (allowed_names c).

Record Capabilities := {
  cap_workspace_read : option WorkspaceCapability;
  cap_http : option HttpCapability;
  cap_tool_invoke : option ToolInvokeCapability;
  cap_secrets : option SecretsCapability;
}.

Definition capabilities_none : Capabilities := {|
  cap_workspace_read := None; cap_http := None; cap_tool_invoke := None; cap_secrets := None |}.

(** ** The state of the host *)

Definition MAX_LOG_ENTRIES : nat := 1000.
Definition MAX_LOG_MESSAGE_BYTES : nat := 4096.
Definition MAX_REQUESTS_PER_EXECUTION : Z := 50.
Definition MAX_INVOKES_PER_EXECUTION : Z := 20.

Inductive LogLevel := LvTrace | LvDebug | LvInfo | LvWarn | LvError.

Record LogEntry := { le_level : LogLevel; le_message : string; le_timestamp_millis : Z }.

Record HostState := {
  hs_logs : list LogEntry;
  hs_logging_enabled : bool;
  hs_capabilities : Capabilities;
  hs_logs_dropped : nat;
  hs_user_id : option string;
  hs_http_request_count : Z;
  hs_tool_invoke_count : Z;
}.

Definition host_state_new (capabilities : Capabilities) : HostState := {|
  hs_logs := []; hs_logging_enabled := true; hs_capabilities := capabilities; hs_logs_dropped := 0;
  hs_user_id := None; hs_http_request_count := 0; hs_tool_invoke_count := 0 |}.

Definition drop_log (enabled : bool) (h : HostState) : HostState := {|
  hs_logs := hs_logs h; hs_logging_enabled := enabled; hs_capabilities := hs_capabilities h;
  hs_logs_dropped := S (hs_logs_dropped h); hs_user_id := hs_user_id h;
  hs_http_request_count := hs_http_request_count h; hs_tool_invoke_count := hs_tool_invoke_count h |}.

Definition push_log (e : LogEntry) (h : HostState) : HostState := {|
  hs_logs := hs_logs h ++ [e]; hs_logging_enabled := hs_logging_enabled h; hs_capabilities := hs_capabilities h;
  hs_logs_dropped := hs_logs_dropped h; hs_user_id := hs_user_id h;
  hs_http_request_count := hs_http_request_count h; hs_tool_invoke_count := hs_tool_invoke_count h |}.

(** The message as it is kept; a cut inside a character panics. *)
Definition log_message (message : string) : option string :=
  if MAX_LOG_MESSAGE_BYTES <? String.length message then
    if is_char_boundary message MAX_LOG_MESSAGE_BYTES
    then Some (str_take MAX_LOG_MESSAGE_BYTES message +:+ "... (truncated)")
    else None
  else Some message.

Definition host_log (now_millis : Z) (level : LogLevel) (message : string) (h : HostState) : option HostState :=
  if negb (hs_logging_enabled h) then Some (drop_log false h)
  else if MAX_LOG_ENTRIES <=? length (hs_logs h) then Some (drop_log false h)
  else
    match log_message message with
    | Some message =>
        Some (push_log {| le_level := level; le_message := message; le_timestamp_millis := now_millis |} h)
    | None => None
    end.

(** [PathTraversalBlocked] with its text *)
Definition validate_workspace_path (path : string) : result unit string :=
  if starts_with path "/" then Err "absolute paths not allowed"
  else if contains path ".." then Err "parent directory references not allowed"
  else if has_char (byte 0) path then Err "null bytes not allowed"
  else if bool_decide (chars path !! 1 = Some ":") then Err "Windows-style paths not allowed"
  else Ok tt.

Definition host_workspace_read (h : HostState) (path : string) : result (option string) string :=
  match cap_workspace_read (hs_capabilities h) with
  | None => Ok None
  | Some capability =>
      match validate_workspace_path path with
      | Err e => Err e
      | Ok _ =>
          if negb (bool_decide (allowed_prefixes capability = []))
             && negb (existsb (starts_with path) (allowed_prefixes capability))
          then Ok None
          else Ok (match reader capability with Some read => read path | None => None end)
      end
  end.

Definition host_secret_exists (h : HostState) (name : string) : bool :=
  match cap_secrets (hs_capabilities h) with
  | Some capability => secret_name_allowed capability name
  | None => false
  end.

Definition check_tool_invoke_allowed (h : HostState) (alias : string) : result string string :=
  match cap_tool_invoke (hs_capabilities h) with
  | None => Err "Tool invocation capability not granted"
  | Some capability =>
      match resolve_alias capability alias with
      | Some name => Ok name
      | None => Err ("Unknown tool alias: " +:+ alias)
      end
  end.

Definition check_execution_budget (count max : Z) (what : string) : result unit string :=
  if (max <? count)%Z
  then Err ("Too many " +:+ what +:+ " in single execution (max " +:+ pretty max +:+ ")") else Ok tt.

Definition count_http (h : HostState) : HostState := {|
  hs_logs := hs_logs h; hs_logging_enabled := hs_logging_enabled h; hs_capabilities := hs_capabilities h;
  hs_logs_dropped := hs_logs_dropped h; hs_user_id := hs_user_id h;
  hs_http_request_count := wrap_u32 (hs_http_request_count h + 1); hs_tool_invoke_count := hs_tool_invoke_count h |}.

Definition count_invoke (h : HostState) : HostState := {|
  hs_logs := hs_logs h; hs_logging_enabled := hs_logging_enabled h; hs_capabilities := hs_capabilities h;
  hs_logs_dropped := hs_logs_dropped h; hs_user_id := hs_user_id h;
  hs_http_request_count := hs_http_request_count h; hs_tool_invoke_count := wrap_u32 (hs_tool_invoke_count h + 1) |}.

Definition record_http_request (h : HostState) : HostState * result unit string :=
  match cap_http (hs_capabilities h) with
  | None => (h, Err "HTTP capability not granted")
  | Some _ =>
      let h := count_http h in
      (h, check_execution_budget (hs_http_request_count h) MAX_REQUESTS_PER_EXECUTION "HTTP requests")
  end.

Definition record_tool_invoke (h : HostState) : HostState * result unit string :=
  let h := count_invoke h in
  (h, check_execution_budget (hs_tool_invoke_count h) MAX_INVOKES_PER_EXECUTION "tool invocations").

(** ** Requests *)

Record OutboundHttpRequest := {
  ob_method : string;
  ob_url : string;
  ob_headers : gmap string string;
  ob_body : option string;
  ob_timeout_ms : option Z;
}.

(** The answer of a server: status, headers, announced length and body or the
    failure to read it. *)
Record HttpReply := {
  hr_status : Z;
  hr_headers : Headers;
  hr_content_length : option Z;
  hr_body : result string string;
}.

Record HttpResponse := { hp_status : Z; hp_headers_json : string; hp_body : string }.

(** A request that was sent, with its time limit, and the number of the lookup
    that found the address of its host. *)
Record Sent := { sent_request : OutboundHttpRequest; sent_timeout_ms : Z; sent_lookup : nat }.

Record Net := { net_lookups : nat; net_sent : list Sent }.

Class WasmNet := {
  (** the addresses of a host, at the n-th lookup *)
  dns : nat → string → result (list IpAddr) string;
  wasm_ip_display : IpAddr → string;
  (** [urlencoding::encode] *)
  url_encode : string → string;
  (** [serde_json] of a map of headers *)
  headers_parse : string → result (gmap string string) string;
  headers_to_json : gmap string string → string;
  (** the debug text of a string *)
  str_debug : string → string;
  (** why a client cannot be built, if it cannot *)
  client_failure : option string;
  (** why a runtime for requests cannot be built, if it cannot *)
  runtime_failure : option string;
  (** the answer, or the error with its causes *)
  net_send : list Sent → Sent → result HttpReply (list string);
  (** an address has octets of 8 bits or eight segments of 16 *)
  dns_wf : ∀ n host addrs, dns n host = Ok addrs → Forall ip_wf addrs;
}.

Section Http.
Context {U : UnicodeCase} {X : UrlCrates} {N : WasmNet}.

(** ** Addresses *)

Definition is_private_ipv4 (v4 : Ipv4Addr) : bool :=
  if is_loopback v4 || is_private v4 then true
  else if is_link_local v4 || is_unspecified v4 then true
  else (v4_a v4 =? 100)%Z && (Z.land (v4_b v4) 0xC0 =? 64)%Z.

Definition is_private_ipv6 (v6 : Ipv6Addr) : bool :=
  if v6_is_loopback v6 || v6_is_unspecified v6 then true
  else (Z.land (segment v6 0) 0xFE00 =? 0xFC00)%Z || (Z.land (segment v6 0) 0xFFC0 =? 0xFE80)%Z.

Definition is_private_ip (ip : IpAddr) : bool :=
  match ip with V4 a => is_private_ipv4 a | V6 a => is_private_ipv6 a end.

Definition parse_outbound_url (url : string) : result Url string :=
  match url_parse url with
  | Err e => Err ("Failed to parse URL: " +:+ e)
  | Ok parsed =>
      if negb (is_web parsed) then Err ("Unsupported URL scheme: " +:+ url_scheme parsed)
      else if negb (bool_decide (url_username parsed = "")) || bool_decide (is_Some (url_password parsed))
      then Err "URL contains userinfo (@) which is not allowed"
      else Ok parsed
  end.

Definition outbound_url_host (parsed : Url) : result string string :=
  match url_host_str parsed with
  | Some h => Ok (unbracket h)
  | None => Err "Failed to parse host from URL"
  end.

Definition reject_private_ip_literal (ip : IpAddr) : result unit string :=
  if is_private_ip ip
  then Err ("HTTP request to private/internal IP " +:+ wasm_ip_display ip +:+ " is not allowed") else Ok tt.

Definition reject_private_addresses (host : string) (addrs : list IpAddr) : result unit string :=
  match list_find (λ ip, is_private_ip ip = true) addrs with
  | Some (_, ip) => Err ("DNS rebinding detected: " +:+ host +:+ " resolved to private IP " +:+ wasm_ip_display ip)
  | None => Ok tt
  end.

Definition reject_private_resolved_addresses (host : string) (net : Net) : Net * result unit string :=
  ({| net_lookups := S (net_lookups net); net_sent := net_sent net |},
   match dns (net_lookups net) host with
   | Err e => Err ("DNS resolution failed for " +:+ host +:+ ": " +:+ e)
   | Ok [] => Err ("DNS resolution returned no addresses for " +:+ host)
   | Ok addrs => reject_private_addresses host addrs
   end).

Definition reject_private_ip (url : string) (net : Net) : Net * result unit string :=
  match parse_outbound_url url with
  | Err e => (net, Err e)
  | Ok parsed =>
      match outbound_url_host parsed with
      | Err e => (net, Err e)
      | Ok host =>
          match parse_ip host with
          | Some ip => (net, reject_private_ip_literal ip)
          | None => reject_private_resolved_addresses host net
          end
      end
  end.

(** ** Sending *)

Definition method_supported (method : string) : bool :=
  bool_decide (to_uppercase method ∈ ["GET"; "POST"; "PUT"; "DELETE"; "PATCH"; "HEAD"]).

Definition build_outbound_request (o : OutboundHttpRequest) : result unit string :=
  match client_failure with
  | Some e => Err ("Failed to build HTTP client: " +:+ e)
  | None =>
      if method_supported (ob_method o) then Ok tt
      else Err ("Unsupported HTTP method: " +:+ to_uppercase (ob_method o))
  end.

Definition format_error_chain (causes : list string) : string :=
  match causes with
  | [] => "HTTP request failed: "
  | e :: causes => foldl (λ chain cause, chain +:+ " -> " +:+ cause) ("HTTP request failed: " +:+ e) causes
  end.

Definition collect_response_headers (headers : Headers) : string :=
  headers_to_json (list_to_map (reverse (omap (λ h, pair h.1 <$> header_text h.2) headers))).

Definition too_large (size max : Z) : string :=
  "Response body too large: " +:+ pretty size +:+ " bytes exceeds limit of " +:+ pretty max +:+ " bytes".

Definition read_response_body_within_limit (reply : HttpReply) (max : Z) : result string string :=
  let read := match hr_body reply with
    | Err e => Err ("Failed to read response body: " +:+ e)
    | Ok body => if (max <? Z.of_nat (String.length body))%Z then Err (too_large (Z.of_nat (String.length body)) max) else Ok body
    end in
  match hr_content_length reply with
  | Some cl => if (max <? cl)%Z then Err (too_large cl max) else read
  | None => read
  end.

(** [str::from_utf8] *)
Fixpoint valid_utf8_fuel (fuel : nat) (s : string) : bool :=
  match fuel, s with
  | S fuel, String c rest => let '(n, complete) := char_at c rest in complete && valid_utf8_fuel fuel (str_drop n s)
  | _, s => bool_decide (s = "")
  end.
Definition valid_utf8 (s : string) : bool := valid_utf8_fuel (String.length s) s.

Context {RE : RegexEngine} {AC : AhoCorasick}.

Definition send_http_request (o : OutboundHttpRequest) (max : Z) (d : LeakDetector) (net : Net) :
    Net * result HttpResponse string :=
  match reject_private_ip (ob_url o) net with
  | (net, Err e) => (net, Err e)
  | (net, Ok _) =>
      match build_outbound_request o with
      | Err e => (net, Err e)
      | Ok _ =>
          let sent := {| sent_request := o; sent_timeout_ms := Z.min (default 30000%Z (ob_timeout_ms o)) 300000;
                         sent_lookup := net_lookups net |} in
          ({| net_lookups := S (net_lookups net); net_sent := net_sent net ++ [sent] |},
           match net_send (net_sent net) sent with
           | Err causes => Err (format_error_chain causes)
           | Ok reply =>
               match read_response_body_within_limit reply max with
               | Err e => Err e
               | Ok body =>
                   match (if valid_utf8 body then scan_and_clean d body else Ok "") with
                   | Err e => Err ("Potential secret leak in response: " +:+ leak_error_display e)
                   | Ok _ => Ok {| hp_status := hr_status reply;
                                   hp_headers_json := collect_response_headers (hr_headers reply);
                                   hp_body := body |}
                   end
               end
           end)
      end
  end.

(** ** The store of one execution *)

Record ResolvedHostCredential := {
  rc_host_patterns : list string;
  rc_headers : gmap string string;
  rc_query_params : gmap string string;
  rc_secret_value : string;
}.

Record StoreData := {
  sd_host_state : HostState;
  (** the entries of the map of placeholders *)
  sd_credentials : list (string * string);
  sd_host_credentials : list ResolvedHostCredential;
  (** whether the runtime for requests has been built *)
  sd_http_runtime : bool;
}.

Definition set_host_state (h : HostState) (s : StoreData) : StoreData :=
  {| sd_host_state := h; sd_credentials := sd_credentials s; sd_host_credentials := sd_host_credentials s;
     sd_http_runtime := sd_http_runtime s |}.

Definition build_http_runtime (s : StoreData) : result StoreData string :=
  if sd_http_runtime s then Ok s
  else match runtime_failure with
       | Some e => Err ("Failed to create HTTP runtime: " +:+ e)
       | None =>
           Ok {| sd_host_state := sd_host_state s; sd_credentials := sd_credentials s;
                 sd_host_credentials := sd_host_credentials s; sd_http_runtime := true |}
       end.

Definition secret_redaction_variants (secret : string) : list string :=
  let percent_encoded := url_encode secret in
  let plus_encoded := str_replace percent_encoded "%20" "+" in
  let variants := secret ::
    (if bool_decide (percent_encoded = secret) then []
     else percent_encoded :: (if bool_decide (plus_encoded = percent_encoded) then [] else [plus_encoded])) in
  dedup (sort_by_key (λ v, - Z.of_nat (String.length v))%Z variants).

Definition redact_secret_value (text secret replacement : string) : string :=
  foldl (λ text variant, str_replace text variant replacement) text (secret_redaction_variants secret).

Definition redact_nonempty_secret (text secret replacement : string) : string :=
  if bool_decide (secret = "") then text else redact_secret_value text secret replacement.

Definition inject_placeholders (s : StoreData) (input : string) : string :=
  foldl (λ text '(name, value), str_replace text ("{" +:+ name +:+ "}") value) input (sd_credentials s).

Definition redact_credentials (s : StoreData) (text : string) : string :=
  let redacted := foldl (λ acc '(name, value), redact_nonempty_secret acc value ("[REDACTED:" +:+ name +:+ "]"))
                    text (sd_credentials s) in
  foldl (λ acc c, redact_nonempty_secret acc (rc_secret_value c) "[REDACTED:host_credential]")
    redacted (sd_host_credentials s).

(** The parameters go in front of a fragment. *)
Definition append_query (url : string) (params : list (string * string)) : string :=
  match params with
  | [] => url
  | _ =>
      let '(base, fragment) := match split_on (byte 35) url with
        | base :: (_ :: _ as rest) => (base, "#" +:+ join "#" rest)
        | _ => (url, "")
        end in
      let separator := if has_char (byte 63) base then "&" else "?" in
      base +:+ separator
        +:+ join "&" ((λ '(name, value), url_encode name +:+ "=" +:+ url_encode value) <$> params) +:+ fragment
  end.

Definition credential_matches (host : string) (c : ResolvedHostCredential) : bool :=
  existsb (host_matches_pattern host) (rc_host_patterns c).

Definition inject_host_credential (host : string) (acc : gmap string string * string) (c : ResolvedHostCredential) :
    gmap string string * string :=
  if credential_matches host c
  then (rc_headers c ∪ acc.1, append_query acc.2 (map_to_list (rc_query_params c)))
  else acc.

Definition inject_host_credentials (s : StoreData) (host : string) (headers : gmap string string) (url : string) :
    gmap string string * string :=
  foldl (inject_host_credential host) (headers, url) (sd_host_credentials s).

Definition deny_reason_debug (r : DenyReason) : string :=
  match r with
  | InvalidUrl e => "InvalidUrl(" +:+ str_debug e +:+ ")"
  | HostNotAllowed host => "HostNotAllowed(" +:+ str_debug host +:+ ")"
  | PathNotAllowed host path =>
      "PathNotAllowed { host: " +:+ str_debug host +:+ ", path: " +:+ str_debug path +:+ " }"
  | MethodNotAllowed method host =>
      "MethodNotAllowed { method: " +:+ str_debug method +:+ ", host: " +:+ str_debug host +:+ " }"
  | EmptyAllowlist => "EmptyAllowlist"
  | InsecureScheme scheme => "InsecureScheme(" +:+ str_debug scheme +:+ ")"
  end.

Definition check_http_allowed (h : HostState) (url method : string) : result unit string :=
  match cap_http (hs_capabilities h) with
  | None => Err "HTTP capability not granted"
  | Some capability =>
      match Allowlist.validate (Allowlist.validator_new (hc_allowlist capability)) url method with
      | RequestAllowed => Ok tt
      | RequestDenied r => Err ("HTTP request not allowed: Denied(" +:+ deny_reason_debug r +:+ ")")
      end
  end.

Record HttpRequestParams := {
  hq_method : string;
  hq_url : string;
  hq_headers_json : string;
  hq_body : option string;
  hq_timeout_ms : option Z;
}.

Definition prepare_http_request (s : StoreData) (r : HttpRequestParams) (d : LeakDetector) :
    StoreData * result (string * gmap string string) string :=
  let injected_url := inject_placeholders s (hq_url r) in
  match check_http_allowed (sd_host_state s) injected_url (hq_method r) with
  | Err e => (s, Err ("HTTP not allowed: " +:+ e))
  | Ok _ =>
      let '(h, recorded) := record_http_request (sd_host_state s) in
      let s := set_host_state h s in
      match recorded with
      | Err e => (s, Err ("Rate limit exceeded: " +:+ e))
      | Ok _ =>
          match headers_parse (hq_headers_json r) with
          | Err e => (s, Err ("invalid headers_json payload: " +:+ e))
          | Ok raw_headers =>
              match scan_http_request from_utf8_lossy d (hq_url r) (map_to_list raw_headers) (hq_body r) with
              | Err e => (s, Err ("Potential secret leak blocked: " +:+ leak_error_display e))
              | Ok _ =>
                  let headers := inject_placeholders s <$> raw_headers in
                  (s, Ok (match extract_host injected_url with
                          | Some host =>
                              let '(headers, url) := inject_host_credentials s host headers injected_url in (url, headers)
                          | None => (injected_url, headers)
                          end))
              end
          end
      end
  end.

Definition http_request (s : StoreData) (net : Net) (r : HttpRequestParams) :
    StoreData * Net * result HttpResponse string :=
  let d := detector_new in
  match prepare_http_request s r d with
  | (s, Err e) => (s, net, Err e)
  | (s, Ok (url, headers)) =>
      match reject_private_ip url net with
      | (net, Err e) => (s, net, Err e)
      | (net, Ok _) =>
          let max := from_option max_response_bytes (10 * 1024 * 1024)%Z (cap_http (hs_capabilities (sd_host_state s))) in
          match build_http_runtime s with
          | Err e => (s, net, Err e)
          | Ok s =>
              let '(net, res) := send_http_request
                {| ob_method := hq_method r; ob_url := url; ob_headers := headers; ob_body := hq_body r;
                   ob_timeout_ms := hq_timeout_ms r |} max d net in
              (s, net, match res with Ok x => Ok x | Err e => Err (redact_credentials s e) end)
          end
      end
  end.

Definition tool_invoke (s : StoreData) (alias : string) : StoreData * result string string :=
  match check_tool_invoke_allowed (sd_host_state s) alias with
  | Err e => (s, Err e)
  | Ok _ =>
      let '(h, recorded) := record_tool_invoke (sd_host_state s) in
      (set_host_state h s,
       match recorded with
       | Err e => Err e
       | Ok _ => Err "Tool invocation from WASM tools is not yet supported"
       end)
  end.

(** ** The calls of one execution *)

Inductive HostCall :=
| CallLog (now_millis : Z) (level : LogLevel) (message : string)
| CallNowMillis
| CallWorkspaceRead (path : string)
| CallHttpRequest (r : HttpRequestParams)
| CallToolInvoke (alias : string)
| CallSecretExists (name : string).

(** A call panics, or the tool goes on. *)
Definition host_call (st : StoreData * Net) (c : HostCall) : option (StoreData * Net) :=
  let '(s, net) := st in
  match c with
  | CallLog now level message =>
      (λ h, (set_host_state h s, net)) <$> host_log now level message (sd_host_state s)
  | CallHttpRequest r => let '(s, net, _) := http_request s net r in Some (s, net)
  | CallToolInvoke alias => Some ((tool_invoke s alias).1, net)
  | CallNowMillis | CallWorkspaceRead _ | CallSecretExists _ => Some (s, net)
  end.

Fixpoint execution (st : StoreData * Net) (calls : list HostCall) : option (StoreData * Net) :=
  match calls with
  | [] => Some st
  | c :: calls => host_call st c ≫= λ st, execution st calls
  end.
End Http.

(** ** Credentials before the execution *)

Section Resolve.
Context {U : UnicodeCase} {W : Type} {SS : SecretsStore W}.

Definition needs_refresh (store : W) (user_id secret : string) (now : Utc) : bool :=
  match store_get store user_id secret with
  | Ok (Some expires_at) => (expires_at - secs 300 <? now)%Z
  | Ok None => false
  | Err SecExpired => true
  | Err _ => false
  end.

(** From the mappings of the capability to what is injected; mappings whose
    secret cannot be read are left out. *)
Definition resolve_mapping (store : W) (user_id : string) (m : CredentialMapping) : option ResolvedHostCredential :=
  match location m with
  | UrlPath _ => None
  | loc =>
      match get_decrypted store user_id (secret_name m) with
      | Err _ => None
      | Ok secret =>
          let injected := inject_credential injected_empty loc secret in
          if injected_is_empty injected then None
          else Some {| rc_host_patterns := host_patterns m; rc_headers := ic_headers injected;
                       rc_query_params := ic_query_params injected; rc_secret_value := secret |}
      end
  end.

Definition resolve_host_credentials (capabilities : Capabilities) (store : option W) (user_id : string) :
    list ResolvedHostCredential :=
  match store, cap_http capabilities with
  | Some store, Some http => omap (resolve_mapping store user_id) (hc_credentials http)
  | _, _ => []
  end.
End Resolve.

(** ** What a request of a tool needs *)

Section Gate.
Context {U : UnicodeCase} {X : UrlCrates} {N : WasmNet} {RE : RegexEngine} {AC : AhoCorasick}.

(** The private and internal addresses as blocks: [127.0.0.0/8], [10.0.0.0/8],
    [172.16.0.0/12], [192.168.0.0/16], [169.254.0.0/16], [0.0.0.0] and
    [100.64.0.0/10]; [::], [::1], [fc00::/7] and [fe80::/10]. *)
Definition internal_address (ip : IpAddr) : bool :=
  match ip with
  | V4 a => existsb (in_block 32 (v4_value a))
      [(v4 127 0 0 0, 8); (v4 10 0 0 0, 8); (v4 172 16 0 0, 12); (v4 192 168 0 0, 16); (v4 169 254 0 0, 16);
       (v4 0 0 0 0, 32); (v4 100 64 0 0, 10)]%Z
  | V6 a => existsb (in_block 128 (v6_value a)) [(0, 128); (1, 128); (0xfc00 * 2 ^ 112, 7); (0xfe80 * 2 ^ 112, 10)]%Z
  end.

Lemma cgnat_mask b : (0 <= b <= 255)%Z → (Z.land b 0xC0 =? 64)%Z = (64 <=? b)%Z && (b <=? 127)%Z.
Proof.
  intros Hb. assert (Forall (λ n, (Z.land (Z.of_nat n) 0xC0 =? 64) = (64 <=? Z.of_nat n) && (Z.of_nat n <=? 127))%Z (seq 0 256))
    as H by (apply Forall_forall, Forall_forall; repeat constructor).
  rewrite Forall_forall in H. specialize (H (Z.to_nat b)). rewrite Z2Nat.id in H by lia. apply H, elem_of_seq. lia.
Qed.

Lemma is_private_ip_blocks ip : ip_wf ip → is_private_ip ip = internal_address ip.
Proof.
  destruct ip as [a|a]; intros Hwf; cbn [is_private_ip internal_address existsb].
  - rewrite !block_8, !block_16, !block_32, block_172_16, block_100_64 by (done || lia).
    unfold is_private_ipv4, is_private, is_loopback, is_link_local, is_unspecified.
    rewrite cgnat_mask by apply Hwf.
    repeat match goal with |- context [?x && ?y] => let b := fresh "b" in set (b := x && y); clearbody b end.
    repeat match goal with |- context [(?x =? ?y)%Z] => let b := fresh "b" in set (b := (x =? y)%Z); clearbody b end.
    repeat match goal with b : bool |- _ => destruct b; [by rewrite ?orb_true_r|] end. done.
  - destruct Hwf as [Hlen HF]. unfold Ipv6Addr in *.
    destruct a as [|s0 [|s1 [|s2 [|s3 [|s4 [|s5 [|s6 [|s7 [|? ?]]]]]]]]]; try done.
    rewrite !Forall_cons in HF. destruct HF as (H0 & H1 & H2 & H3 & H4 & H5 & H6 & H7 & _).
    change (0, 128)%Z with (v6_value [0; 0; 0; 0; 0; 0; 0; 0], 128)%Z.
    change (1, 128)%Z with (v6_value [0; 0; 0; 0; 0; 0; 0; 1], 128)%Z.
    rewrite <-!v6_exact_block, <-v6_unique_local_block, <-v6_link_local_block by (done || (repeat constructor; lia)).
    unfold is_private_ipv6, v6_is_loopback, v6_is_unspecified, v6_is_unique_local, v6_is_unicast_link_local.
    repeat case_bool_decide; simpl; rewrite ?orb_false_r; done.
Qed.

(** At the n-th lookup the host of the URL has no internal address. *)
Definition public_target (n : nat) (url : string) : Prop :=
  ∃ parsed host, parse_outbound_url url = Ok parsed ∧ outbound_url_host parsed = Ok host ∧
    match parse_ip host with
    | Some ip => internal_address ip = false
    | None => ∃ addrs, dns n host = Ok addrs ∧ addrs ≠ [] ∧ Forall (λ ip, internal_address ip = false) addrs
    end.

Lemma reject_private_ip_spec url net :
  let '(net', res) := reject_private_ip url net in
  net_sent net' = net_sent net ∧ (net_lookups net ≤ net_lookups net') ∧
  (res = Ok tt → public_target (net_lookups net) url).
Proof.
  unfold reject_private_ip, public_target. destruct (parse_outbound_url url) as [parsed|e] eqn:Ep; [|by split_and!].
  destruct (outbound_url_host parsed) as [host|e] eqn:Eh; [|by split_and!].
  destruct (parse_ip host) as [ip|] eqn:Ei.
  - split_and!; [done|done|]. unfold reject_private_ip_literal. destruct (is_private_ip ip) eqn:E; [done|].
    intros _. exists parsed, host. rewrite Ei. rewrite is_private_ip_blocks in E by (by eapply parse_ip_wf). done.
  - unfold reject_private_resolved_addresses. split_and!; simpl; [done|lia|]. intros H. exists parsed, host. rewrite Ei.
    split_and!; [done..|]. destruct (dns (net_lookups net) host) as [[|a addrs]|e] eqn:Edns; [done| |done].
    apply dns_wf in Edns. eexists. split_and!; [done|done|]. unfold reject_private_addresses in H.
    destruct (list_find _ _) as [[i ip]|] eqn:El; [done|]. apply list_find_None in El.
    rewrite Forall_forall in Edns, El |- *. intros x Hx. rewrite <-is_private_ip_blocks by auto.
    by apply not_true_iff_false, El.
Qed.

(** The headers and the URL that leave: those of the tool, with placeholders
    filled in, and the credentials whose patterns cover the host. *)
Definition request_headers_from (s : StoreData) (url : string) (raw out : gmap string string) : Prop :=
  ∀ k v, out !! k = Some v →
    (∃ v0, raw !! k = Some v0 ∧ v = inject_placeholders s v0) ∨
    (∃ c p host, c ∈ sd_host_credentials s ∧ p ∈ rc_host_patterns c ∧ extract_host url = Some host ∧
       host_covers p host ∧ rc_headers c !! k = Some v).

Definition matching_credentials (s : StoreData) (url : string) : list ResolvedHostCredential :=
  match extract_host url with
  | Some host => filter (λ c, credential_matches host c = true) (sd_host_credentials s)
  | None => []
  end.

Lemma credential_matches_spec host c :
  credential_matches host c = true ↔ ∃ p, p ∈ rc_host_patterns c ∧ host_covers p host.
Proof. unfold credential_matches. rewrite existsb_elem. by setoid_rewrite host_matches_pattern_spec. Qed.

Lemma inject_host_credentials_spec s url host raw :
  extract_host url = Some host →
  let '(headers, out) := inject_host_credentials s host (inject_placeholders s <$> raw) url in
  request_headers_from s url raw headers ∧
  out = foldl (λ u c, append_query u (map_to_list (rc_query_params c))) url (matching_credentials s url).
Proof.
  intros Hh. unfold inject_host_credentials, matching_credentials. rewrite Hh.
  assert (∀ cs headers u, (∀ c, c ∈ cs → c ∈ sd_host_credentials s) → request_headers_from s url raw headers →
    let '(headers', out) := foldl (inject_host_credential host) (headers, u) cs in
    request_headers_from s url raw headers' ∧
    out = foldl (λ u c, append_query u (map_to_list (rc_query_params c))) u
            (filter (λ c, credential_matches host c = true) cs)) as H.
  { induction cs as [|c cs IH]; intros headers u Hcs Hok; [done|]. cbn [foldl]. unfold inject_host_credential at 2.
    cbn [fst snd]. destruct (credential_matches host c) eqn:E.
    - rewrite filter_cons_True by done. apply (IH (rc_headers c ∪ headers)); [set_solver|].
      intros k v [Hk|[_ Hk]]%lookup_union_Some_raw; [right|by apply Hok].
      apply credential_matches_spec in E as (p & Hp & Hc). exists c, p, host. split_and!; try done. set_solver.
    - rewrite filter_cons_False by congruence. apply IH; [set_solver|done]. }
  apply H; [done|]. intros k v Hk. left. apply lookup_fmap_Some in Hk as (v0 & <- & Hv). eauto.
Qed.

(** A request of a tool that was sent. *)
Definition request_gated (s : StoreData) (net : Net) (r : HttpRequestParams) (x : Sent) : Prop :=
  let url := inject_placeholders s (hq_url r) in
  let out := sent_request x in
  ob_method out = hq_method r ∧ ob_body out = hq_body r ∧ method_supported (hq_method r) = true ∧
  (sent_timeout_ms x <= 300000)%Z ∧
  (∃ cap, cap_http (hs_capabilities (sd_host_state s)) = Some cap ∧
     Allowlist.validate (Allowlist.validator_new (hc_allowlist cap)) url (hq_method r) = RequestAllowed) ∧
  (∃ raw, headers_parse (hq_headers_json r) = Ok raw ∧
     scan_http_request from_utf8_lossy detector_new (hq_url r) (map_to_list raw) (hq_body r) = Ok tt ∧
     request_headers_from s url raw (ob_headers out)) ∧
  ob_url out = foldl (λ u c, append_query u (map_to_list (rc_query_params c))) url (matching_credentials s url) ∧
  public_target (net_lookups net) (ob_url out) ∧
  ∃ n, net_lookups net ≤ n ∧ n ≤ sent_lookup x ∧ public_target n (ob_url out).

Lemma prepare_spec s r :
  let '(s', res) := prepare_http_request s r detector_new in
  let url := inject_placeholders s (hq_url r) in
  sd_credentials s' = sd_credentials s ∧ sd_host_credentials s' = sd_host_credentials s ∧
  (sd_host_state s' = sd_host_state s ∨ sd_host_state s' = count_http (sd_host_state s)) ∧
  match res with
  | Err _ => True
  | Ok (out, headers) =>
      sd_host_state s' = count_http (sd_host_state s) ∧
      (hs_http_request_count (sd_host_state s') <= MAX_REQUESTS_PER_EXECUTION)%Z ∧
      (∃ cap, cap_http (hs_capabilities (sd_host_state s)) = Some cap ∧
         Allowlist.validate (Allowlist.validator_new (hc_allowlist cap)) url (hq_method r) = RequestAllowed) ∧
      (∃ raw, headers_parse (hq_headers_json r) = Ok raw ∧
         scan_http_request from_utf8_lossy detector_new (hq_url r) (map_to_list raw) (hq_body r) = Ok tt ∧
         request_headers_from s url raw headers) ∧
      out = foldl (λ u c, append_query u (map_to_list (rc_query_params c))) url (matching_credentials s url)
  end.
Proof.
  unfold prepare_http_request. cbv zeta. set (url := inject_placeholders s (hq_url r)).
  unfold check_http_allowed. destruct (cap_http _) as [cap|] eqn:Ecap; [|by split_and!; auto].
  destruct (Allowlist.validate _ url _) eqn:Ev; [|by split_and!; auto].
  unfold record_http_request. rewrite Ecap. cbv zeta. unfold check_execution_budget.
  destruct (Z.ltb_spec MAX_REQUESTS_PER_EXECUTION (hs_http_request_count (count_http (sd_host_state s)))) as [|Hcount];
    [by split_and!; auto|].
  destruct (headers_parse _) as [raw|e] eqn:Er; [|by split_and!; auto].
  destruct (scan_http_request _ _ _ _ _) as [[]|e] eqn:El; [|by split_and!; auto].
  split_and!; [done|done|by right|]. set (s' := set_host_state _ s).
  assert (inject_placeholders s' = inject_placeholders s) as -> by done.
  destruct (extract_host url) as [host|] eqn:Eh.
  - pose proof (inject_host_credentials_spec s url host raw Eh) as H.
    assert (inject_host_credentials s' = inject_host_credentials s) as -> by done.
    destruct (inject_host_credentials s host _ url) as [headers out]. destruct H as [H1 H2]. split_and!; eauto.
  - split_and!; [done|done|by eauto| |unfold matching_credentials; by rewrite Eh].
    exists raw. split_and!; [done..|]. intros k v Hk. left. apply lookup_fmap_Some in Hk as (v0 & <- & Hv). eauto.
Qed.
Lemma build_http_runtime_keeps s s' :
  build_http_runtime s = Ok s' →
  sd_host_state s' = sd_host_state s ∧ redact_credentials s' = redact_credentials s.
Proof.
  unfold build_http_runtime. destruct (sd_http_runtime s); [by intros [= <-]|].
  destruct runtime_failure; [done|]. by intros [= <-].
Qed.

Lemma read_body_limit reply max body :
  read_response_body_within_limit reply max = Ok body → (Z.of_nat (String.length body) <= max)%Z.
Proof.
  unfold read_response_body_within_limit. intros H.
  assert (match hr_body reply with
    | Err e => Err ("Failed to read response body: " +:+ e)
    | Ok body => if (max <? Z.of_nat (String.length body))%Z then Err (too_large (Z.of_nat (String.length body)) max) else Ok body
    end = Ok body) as Hr by (destruct (hr_content_length reply); [case_match; done|done]).
  destruct (hr_body reply) as [b|]; [|done]. destruct (Z.ltb_spec max (Z.of_nat (String.length b))); [done|]. by injection Hr as <-.
Qed.

Lemma send_http_request_spec o max net :
  let '(net', res) := send_http_request o max detector_new net in
  (net_sent net' = net_sent net ∧ ∃ e, res = Err e) ∨
  (∃ x, net_sent net' = net_sent net ++ [x] ∧ sent_request x = o ∧ (sent_timeout_ms x <= 300000)%Z ∧
     method_supported (ob_method o) = true ∧ net_lookups net ≤ sent_lookup x ∧ public_target (net_lookups net) (ob_url o) ∧
     ∀ resp, res = Ok resp → (Z.of_nat (String.length (hp_body resp)) <= max)%Z).
Proof.
  unfold send_http_request. pose proof (reject_private_ip_spec (ob_url o) net) as H.
  destruct (reject_private_ip (ob_url o) net) as [net1 [[]|e]]; destruct H as (H1 & H2 & H3); [|by eauto].
  unfold build_outbound_request. destruct client_failure as [e|]; [by eauto|].
  destruct (method_supported (ob_method o)) eqn:Em; [|by eauto]. cbv zeta.
  right. eexists. rewrite H1. split; [done|]. split; [done|]. split; [simpl; lia|].
  split_and!; [done|done|by apply H3|]. intros resp Hr.
  destruct (net_send _ _) as [reply|causes]; [|done].
  destruct (read_response_body_within_limit reply max) as [body|e] eqn:Eb; [|done].
  destruct (if valid_utf8 body then _ else _) as [y|e]; [|done]. injection Hr as <-. by eapply read_body_limit.
Qed.


(** ** What one execution can do in all *)

Definition log_kept (e : LogEntry) : Prop := String.length (le_message e) ≤ MAX_LOG_MESSAGE_BYTES + 15.

Definition execution_ok (sent0 : nat) (calls : Z) (st : StoreData * Net) : Prop :=
  let h := sd_host_state st.1 in
  length (hs_logs h) ≤ MAX_LOG_ENTRIES ∧ Forall log_kept (hs_logs h) ∧
  (0 <= hs_http_request_count h <= calls)%Z ∧
  (Z.of_nat (length (net_sent st.2)) <= Z.of_nat sent0 + Z.min (hs_http_request_count h) MAX_REQUESTS_PER_EXECUTION)%Z.

Lemma host_log_kept now level message h h' :
  host_log now level message h = Some h' → length (hs_logs h) ≤ MAX_LOG_ENTRIES → Forall log_kept (hs_logs h) →
  length (hs_logs h') ≤ MAX_LOG_ENTRIES ∧ Forall log_kept (hs_logs h') ∧
  hs_http_request_count h' = hs_http_request_count h.
Proof.
  unfold host_log. destruct (negb _); [by intros [= <-]|].
  destruct (Nat.leb_spec MAX_LOG_ENTRIES (length (hs_logs h))) as [|Hlt]; [by intros [= <-]|].
  destruct (log_message message) as [m|] eqn:Em; [|done]. intros [= <-] Hlen Hall. simpl.
  split_and!; [rewrite length_app; simpl; lia| |done]. apply Forall_app. split; [done|]. apply Forall_singleton.
  unfold log_kept. cbn [le_message]. unfold log_message in Em. destruct (Nat.ltb_spec MAX_LOG_MESSAGE_BYTES (String.length message)).
  - destruct (is_char_boundary _ _); [|done].
    assert (m = str_take MAX_LOG_MESSAGE_BYTES message +:+ "... (truncated)") as -> by congruence.
    rewrite str_length_app, str_length_take. change (String.length "... (truncated)") with 15. lia.
  - injection Em as <-. lia.
Qed.

Lemma http_request_count s net r s' net' res :
  http_request s net r = (s', net', res) →
  hs_logs (sd_host_state s') = hs_logs (sd_host_state s) ∧
  ((hs_http_request_count (sd_host_state s') = hs_http_request_count (sd_host_state s) ∧ net_sent net' = net_sent net) ∨
   (hs_http_request_count (sd_host_state s') = wrap_u32 (hs_http_request_count (sd_host_state s) + 1) ∧
    (net_sent net' = net_sent net ∨
     (hs_http_request_count (sd_host_state s') <= MAX_REQUESTS_PER_EXECUTION)%Z ∧
     length (net_sent net') = S (length (net_sent net))))).
Proof.
  intros Hr. unfold http_request in Hr. pose proof (prepare_spec s r) as Hp.
  destruct (prepare_http_request s r detector_new) as [s1 [[url headers]|e]]; cbv zeta in Hp;
    destruct Hp as (_ & _ & Hs & Hp).
  2:{ injection Hr as <- <- _. destruct Hs as [-> | ->]; auto. }
  destruct Hp as (Hs1 & Hcount & _).
  pose proof (reject_private_ip_spec url net) as H.
  destruct (reject_private_ip url net) as [net1 [[]|e]]; destruct H as (H1 & _).
  2:{ injection Hr as <- <- _. rewrite Hs1. auto. }
  destruct (build_http_runtime s1) as [s2|e] eqn:Ert.
  2:{ injection Hr as <- <- _. rewrite Hs1. auto. }
  destruct (build_http_runtime_keeps _ _ Ert) as [Hs2 _].
  match type of Hr with context [send_http_request ?o ?m _ _] =>
    pose proof (send_http_request_spec o m net1) as H; destruct (send_http_request o m detector_new net1) as [net2 res2] end.
  injection Hr as <- <- _. rewrite Hs2, Hs1 in *. split; [done|]. right. split; [done|].
  rewrite H1 in H. destruct H as [(H & _)|(x & H & _)]; [by left|]. right. split; [done|]. rewrite H, length_app. simpl. lia.
Qed.
Lemma host_call_ok sent0 n st st' c :
  host_call st c = Some st' → (n < u32_max)%Z → execution_ok sent0 n st → execution_ok sent0 (n + 1) st'.
Proof.
  intros Hc Hn (H1 & H2 & H3 & H4). destruct st as [s net]. unfold execution_ok, MAX_REQUESTS_PER_EXECUTION in *. simpl in *.
  destruct c as [now level message| |path|r|alias|name]; simpl in Hc; try (injection Hc as <-; simpl; split_and!; done || lia).
  - destruct (host_log _ _ _ _) as [h|] eqn:El; [|done]. injection Hc as <-. simpl.
    destruct (host_log_kept _ _ _ _ _ El H1 H2) as (? & ? & ->). split_and!; done || lia.
  - destruct (http_request s net r) as [[s' net'] res] eqn:Er. injection Hc as <-. simpl.
    destruct (http_request_count _ _ _ _ _ _ Er) as (-> & [[-> ->]|(Hk & Hsent)]); [split_and!; done || lia|].
    rewrite wrap_u32_small in Hk by lia. rewrite Hk in *. split_and!; [done|done|lia|lia|].
    unfold MAX_REQUESTS_PER_EXECUTION in Hsent. destruct Hsent as [-> |[Hle ->]]; lia.
  - injection Hc as <-. unfold tool_invoke. destruct (check_tool_invoke_allowed _ _); simpl; split_and!; done || lia.
Qed.

(** C35. One execution stays within its budgets.  Whatever a tool calls, in whatever
    order, and whatever the network answers: it sends at most 50 requests in all,
    and the host keeps at most 1000 log entries of at most 4111 bytes.  (The
    counter has 32 bits, so this is for fewer than 2^32 calls.) *)
Theorem wasm_execution_bounded capabilities credentials host_credentials net calls s' net'
    (Hcalls : (Z.of_nat (length calls) <= u32_max)%Z)
    (Hrun : execution ({| sd_host_state := host_state_new capabilities; sd_credentials := credentials;
                          sd_host_credentials := host_credentials; sd_http_runtime := false |}, net) calls = Some (s', net')) :
  length (net_sent net') ≤ length (net_sent net) + 50 ∧
  length (hs_logs (sd_host_state s')) ≤ 1000 ∧
  Forall (λ e, String.length (le_message e) ≤ 4111) (hs_logs (sd_host_state s')).
Proof.
  assert (∀ calls st st' n, (0 <= n)%Z → (n + Z.of_nat (length calls) <= u32_max)%Z →
    execution_ok (length (net_sent net)) n st → execution st calls = Some st' →
    execution_ok (length (net_sent net)) (n + Z.of_nat (length calls)) st') as Hrun'.
  { clear. induction calls as [|c calls IH]; intros st st' n Hn Hb Hok Hr; simpl in *.
    { injection Hr as <-. by rewrite Z.add_0_r. }
    destruct (host_call st c) as [st1|] eqn:E; [|done]. simpl in Hr.
    replace (n + Z.of_nat (S (length calls)))%Z with (n + 1 + Z.of_nat (length calls))%Z by lia.
    apply (IH st1); [lia..| |done]. eapply host_call_ok; [exact E|lia|done]. }
  apply (Hrun' _ _ _ 0%Z) in Hrun as (H1 & H2 & H3 & H4); [|lia|done|].
  2:{ unfold execution_ok, MAX_REQUESTS_PER_EXECUTION. cbn [fst snd sd_host_state hs_logs hs_http_request_count host_state_new].
      split_and!; [apply Nat.le_0_l|constructor|lia..]. }
  split_and!; [|exact H1|exact H2]. unfold MAX_REQUESTS_PER_EXECUTION in H4. simpl in H4. lia.
Qed.
End Gate.

(** ** Examples *)

Section Examples.
#[local] Existing Instance ascii_case.
#[local] Existing Instance literal_regex.
#[local] Existing Instance naive_ac.

(** A URL [https://api.example.com/] followed by anything. *)
Definition example_urls : UrlCrates := {|
  url_parse s := match strip_prefix s "https://api.example.com" with
    | Some path => Ok {| url_scheme := "https"; url_username := ""; url_password := None;
                         url_host_str := Some "api.example.com"; url_path := path; url_port := Some 443%Z |}
    | None => Err "unknown" end;
  url_decode s := Some s |}.
#[local] Existing Instance example_urls.

Definition loopback : IpAddr := V4 {| v4_a := 127; v4_b := 0; v4_c := 0; v4_d := 1 |}.
Definition public_ip : IpAddr := V4 {| v4_a := 93; v4_b := 184; v4_c := 216; v4_d := 34 |}.

(** A name that points to a public address at the first two lookups. *)
#[local] Program Instance rebinding_net : WasmNet := {|
  dns n host := Ok [if n <? 2 then public_ip else loopback]; wasm_ip_display _ := "ip"; url_encode s := s;
  headers_parse _ := Ok ∅; headers_to_json _ := "{}"; str_debug s := dquote +:+ s +:+ dquote; client_failure := None; runtime_failure := None;
  net_send _ _ := Ok {| hr_status := 200; hr_headers := []; hr_content_length := None; hr_body := Ok "ok" |} |}.
Next Obligation. intros n host addrs [= <-]. repeat constructor; simpl; case_match; simpl; unfold v4_wf; simpl; lia. Qed.

Definition example_capabilities (prefix : string) : Capabilities := {|
  cap_workspace_read := None; cap_http := Some (http_capability_new [with_path_prefix (endpoint_host "api.example.com") prefix]);
  cap_tool_invoke := None; cap_secrets := None |}.

Definition example_store (prefix : string) : StoreData := {|
  sd_host_state := host_state_new (example_capabilities prefix); sd_credentials := [("TOKEN", "s3cret")];
  sd_host_credentials := []; sd_http_runtime := false |}.

Definition get_request (url : string) : HttpRequestParams :=
  {| hq_method := "GET"; hq_url := url; hq_headers_json := "{}"; hq_body := None; hq_timeout_ms := None |}.

Definition no_traffic : Net := {| net_lookups := 0; net_sent := [] |}.

Lemma wasm_execution_bounded_witness :
  ∃ s' net', execution (example_store "/v1/", no_traffic)
      [CallHttpRequest (get_request "https://api.example.com/v1/x"); CallLog 0 LvInfo "done"] = Some (s', net') ∧
    length (net_sent net') = 1 ∧ length (net_sent net') ≤ 0 + 50 ∧ length (hs_logs (sd_host_state s')) ≤ 1000.
Proof.
  destruct (execution (example_store "/v1/", no_traffic)
    [CallHttpRequest (get_request "https://api.example.com/v1/x"); CallLog 0 LvInfo "done"]) as [[s' net']|] eqn:E.
  2:{ exfalso. vm_compute in E. discriminate E. }
  exists s', net'. split; [reflexivity|].
  assert (length (net_sent net') = 1) as Hlen.
  { transitivity (from_option (λ st, length (net_sent st.2)) 0 (Some (s', net'))); [reflexivity|]. rewrite <-E. vm_compute. reflexivity. }
  destruct (wasm_execution_bounded (example_capabilities "/v1/") [("TOKEN", "s3cret")] [] no_traffic
    [CallHttpRequest (get_request "https://api.example.com/v1/x"); CallLog 0 LvInfo "done"] s' net') as (H1 & H2 & _);
    [vm_compute; discriminate|exact E|].
  split; [exact Hlen|]. split; [exact H1|exact H2].
Defined.

(** The two checks look the host up, the connection looks it up once more: a name
    that changes in between leads to a private address. *)
Lemma rebinding_not_prevented :
  let '(_, net, _) := http_request (example_store "/v1/") no_traffic (get_request "https://api.example.com/v1/x") in
  (λ x, dns (sent_lookup x) "api.example.com") <$> net_sent net = [Ok [loopback]].
Proof. by vm_compute. Qed.

(** An IPv6 address that stands for a private IPv4 address counts as public here,
    unlike in the policy of webhooks. *)
Lemma mapped_address_public :
  let mapped := V6 [0; 0; 0; 0; 0; 0xffff; 0x7f00; 1]%Z in
  is_private_ip mapped = false ∧ is_forbidden_ip mapped = true.
Proof. by vm_compute. Qed.

(** A long message with a character across the limit. *)
Lemma log_cut_panics :
  host_log 0 LvInfo (concat_all (replicate 4095 "a") +:+ String (byte 195) (String (byte 169) "")) (host_state_new capabilities_none)
  = None.
Proof. by vm_compute. Qed.

(** A URL that is refused comes back to the tool with its placeholders filled in. *)
Lemma denied_url_shows_secret :
  let '(_, net, res) := http_request (example_store "/v1/") no_traffic (get_request "https://api.example.com/{TOKEN}") in
  net_sent net = [] ∧ match res with Err e => contains e "s3cret" = true | Ok _ => False end.
Proof. by vm_compute. Qed.
End Examples.
