(* ===== verification/Schema.v ===== *)
(** * Tool schemas

    Models the rewriting of tool schemas for providers in strict mode
    ([src/src/llm/schema_normalize.rs] with [recursive.rs] and [merge.rs]) and the
    two validators of tool schemas ([src/src/tools/schema_validator.rs], and
    [validate_tool_schema] of [src/src/tools/tool/schema_helpers.rs]).

    A JSON value is a tree over the constructors of [serde_json::Value], with the
    members of an object as a finite map; a number is kept as its text.  The code
    recurses into members and items, so the functions get fuel, and the nesting of
    the value is always enough. *)

From stdpp Require Import sorting.
From S2P Require Import Prelude Text.

(** ** Values *)

Inductive Value :=
| JvNull
| JvBool (b : bool)
| JvNumber (text : string)
| JvString (s : string)
| JvArray (items : list Value)
| JvObject (members : gmap string Value).

Abbreviation Members := (gmap string Value).

Fixpoint depth (v : Value) : nat :=
  match v with
  | JvArray l => S (foldr (λ x n, max (depth x) n) 0 l)
  | JvObject m => S (map_fold (λ _ x n, max (depth x) n) 0 m)
  | _ => 0
  end.

Definition as_object (v : Value) : option Members := match v with JvObject m => Some m | _ => None end.
Definition as_array (v : Value) : option (list Value) := match v with JvArray l => Some l | _ => None end.
Definition as_str (v : Value) : option string := match v with JvString s => Some s | _ => None end.
Definition is_object (v : Value) : bool := match v with JvObject _ => true | _ => false end.

(** [v.get(key)] *)
Definition get (v : Value) (k : string) : option Value := as_object v ≫= lookup k.
Definition contains_key (m : Members) (k : string) : bool := bool_decide (is_Some (m !! k)).

Definition str_le (a b : string) : Prop := String.leb a b = true.
#[global] Instance str_le_dec a b : Decision (str_le a b).
Proof. unfold str_le. apply _. Defined.

(** the keys of a map, sorted *)
Definition sorted_keys (m : Members) : list string := merge_sort str_le (map_to_list m).*1.

(** the members of a map, in the order of the keys *)
Definition sorted_entries (m : Members) : list (string * Value) :=
  merge_sort (λ a b, str_le a.1 b.1) (map_to_list m).

Lemma elem_of_sorted_entries (m : Members) k x : (k, x) ∈ sorted_entries m ↔ m !! k = Some x.
Proof. unfold sorted_entries. by rewrite merge_sort_Permutation, elem_of_map_to_list. Qed.

(** *** Equality *)

Fixpoint Value_eqb (v w : Value) {struct v} : bool :=
  match v, w with
  | JvNull, JvNull => true
  | JvBool a, JvBool b => Bool.eqb a b
  | JvNumber a, JvNumber b => bool_decide (a = b)
  | JvString a, JvString b => bool_decide (a = b)
  | JvArray l, JvArray k =>
      (fix go l k := match l, k with
        | [], [] => true
        | x :: l, y :: k => Value_eqb x y && go l k
        | _, _ => false
        end) l k
  | JvObject m, JvObject n =>
      bool_decide (dom m = dom n) && map_fold (λ k x b, b && from_option (Value_eqb x) false (n !! k)) true m
  | _, _ => false
  end.

Lemma depth_items l x : x ∈ l → depth x < depth (JvArray l).
Proof. intros Hx. simpl. induction Hx; simpl in *; lia. Qed.

Lemma map_fold_max_ge (m : Members) k x : m !! k = Some x → depth x ≤ map_fold (λ _ x n, max (depth x) n) 0 m.
Proof. intros Hx. rewrite (map_fold_delete_L _ _ k x) by (try done; intros; lia). lia. Qed.

Lemma depth_member m k x : m !! k = Some x → depth x < depth (JvObject m).
Proof. intros Hx%map_fold_max_ge. simpl. lia. Qed.

Lemma map_fold_andb (f : string → Value → bool) (m : Members) :
  map_fold (λ k x b, b && f k x) true m = true ↔ map_Forall (λ k x, f k x = true) m.
Proof.
  induction m as [|k x m Hk IH] using map_ind.
  { rewrite map_fold_empty. split; [intros _; apply map_Forall_empty|done]. }
  rewrite map_fold_insert_L; [|by intros; rewrite <-!andb_assoc, (andb_comm (f _ _))|done].
  rewrite andb_true_iff, IH, map_Forall_insert by done. tauto.
Qed.

Lemma value_depth_ind (P : Value → Prop) :
  (∀ v, (∀ w, depth w < depth v → P w) → P v) → ∀ v, P v.
Proof.
  intros Hstep. assert (∀ n v, depth v < n → P v) as H; [|intros v; apply (H (S (depth v))); lia].
  induction n as [|n IH]; intros v Hv; [lia|]. apply Hstep. intros w Hw. apply IH. lia.
Qed.

Lemma Value_eqb_eq v w : Value_eqb v w = true ↔ v = w.
Proof.
  revert w. induction v as [v IH] using value_depth_ind. intros w.
  destruct v as [|a|a|a|l|m], w as [|b|b|b|k|n]; simpl; try (by split); rewrite ?bool_decide_eq_true; try (by split; congruence).
  - rewrite Bool.eqb_true_iff. split; congruence.
  - assert (∀ x, x ∈ l → ∀ w, Value_eqb x w = true ↔ x = w) as IHl by eauto using depth_items. clear IH. revert k.
    induction l as [|x l IHs]; intros [|y k]; try (by split).
    rewrite andb_true_iff, IHs, IHl by set_solver. split; [intros [-> [= ->]]|intros [= -> ->]]; done.
  - rewrite andb_true_iff, bool_decide_eq_true, map_fold_andb. split; [|intros [= <-]].
    + intros [Hd Hall]. f_equal. apply map_eq. intros i. destruct (m !! i) as [x|] eqn:E.
      * specialize (Hall i x E). simpl in Hall. destruct (n !! i) as [y|]; [|done]. simpl in Hall.
        apply (IH x) in Hall; [congruence|by eapply depth_member].
      * symmetry. apply not_elem_of_dom. rewrite <-Hd. by apply not_elem_of_dom.
    + split; [done|]. intros i x Hi. rewrite Hi. simpl. apply IH; [by eapply depth_member|done].
Qed.

#[global] Instance Value_eq_dec : EqDecision Value.
Proof.
  refine (λ v w, cast_if (decide (Value_eqb v w = true))); by rewrite <-Value_eqb_eq.
Defined.

(** ** Normalisation, recursively ([recursive.rs]) *)

(** Each function takes the recursive call as [rec]. *)
Definition walk_combinators (rec : Value → Value) (obj : Members) : Members :=
  let variants v := match v with JvArray vs => JvArray (rec <$> vs) | v => v end in
  let obj := foldl (λ obj k, alter variants k obj) obj ["anyOf"; "oneOf"; "allOf"] in
  let obj := alter rec "items" obj in
  let obj := foldl (λ obj k, alter rec k obj) obj ["not"; "if"; "then"; "else"] in
  alter (λ v, if is_object v then rec v else v) "additionalProperties" obj.

Definition normalize_object_shape (obj : Members) : Members :=
  let has_properties := contains_key obj "properties" in
  let obj := if negb (contains_key obj "type") && has_properties then <["type" := JvString "object"]> obj else obj in
  let props_value := match obj !! "properties" with
    | Some (JvObject props) => JvObject props
    | _ => JvObject ∅
    end in
  let obj := <["properties" := props_value]> obj in
  match obj !! "additionalProperties" with
  | None => <["additionalProperties" := JvBool false]> obj
  | Some _ => obj
  end.

Definition make_nullable (schema : Value) : Value :=
  match schema with
  | JvObject m =>
      match m !! "type" with
      | None => JvObject {["anyOf" := JvArray [schema; JvObject {["type" := JvString "null"]}]]}
      | Some (JvString t) =>
          if bool_decide (t = "null") then schema
          else JvObject (<["type" := JvArray [JvString t; JvString "null"]]> m)
      | Some (JvArray arr) =>
          if existsb (λ v, bool_decide (as_str v = Some "null")) arr then schema
          else JvObject (<["type" := JvArray (arr ++ [JvString "null"])]> m)
      | Some _ => schema
      end
  | _ => schema
  end.

Definition required_strings (v : option Value) : list string :=
  omap as_str (from_option id [] (v ≫= as_array)).

Definition rewrite_property (rec : Value → Value) (current_required : list string) (key : string) (prop : Value) : Value :=
  if decide (key ∈ current_required) then rec prop else make_nullable (rec prop).

Definition rewrite_required_and_nullable (rec : Value → Value) (obj : Members) : Members :=
  let current_required := required_strings (obj !! "required") in
  let obj := delete "required" obj in
  match obj !! "properties" with
  | Some (JvObject props) =>
      let props := map_imap (λ k p, Some (rewrite_property rec current_required k p)) props in
      <["required" := JvArray (JvString <$> sorted_keys props)]> (<["properties" := JvObject props]> obj)
  | _ => obj
  end.

Definition is_map_object (obj : Members) (has_properties : bool) : bool :=
  from_option is_object false (obj !! "additionalProperties") && negb has_properties.

Definition is_object_schema (obj : Members) : bool := bool_decide (obj !! "type" ≫= as_str = Some "object").

Definition normalize_body (rec : Value → Value) (schema : Value) : Value :=
  match schema with
  | JvObject obj =>
      let obj := walk_combinators rec obj in
      let has_properties := contains_key obj "properties" in
      if negb (is_object_schema obj) && negb has_properties then JvObject obj
      else if is_map_object obj has_properties then JvObject obj
      else JvObject (rewrite_required_and_nullable rec (normalize_object_shape obj))
  | _ => schema
  end.

Fixpoint normalize_fuel (fuel : nat) (schema : Value) : Value :=
  match fuel with
  | O => schema
  | S fuel => normalize_body (normalize_fuel fuel) schema
  end.

Definition normalize_schema_recursive (schema : Value) : Value := normalize_fuel (S (depth schema)) schema.

(** ** Merging of variants ([merge.rs]) *)

Inductive RequiredMergeMode := Intersect | Union.

(** A [BTreeSet] of strings; it is iterated in order. *)
Definition sorted_elements (X : gset string) : list string := merge_sort str_le (elements X).
Definition string_array (X : gset string) : Value := JvArray (JvString <$> sorted_elements X).

Definition required_keys (value : option Value) : gset string := list_to_set (required_strings value).

Definition intersect_required_keys (sets : list (gset string)) : gset string :=
  match sets with
  | [] => ∅
  | first :: rest => foldl (λ acc set, acc ∩ set) first rest
  end.

Definition union_required_keys (sets : list (gset string)) : gset string := foldl (λ acc set, acc ∪ set) ∅ sets.

Definition combine_required (mode : RequiredMergeMode) (sets : list (gset string)) : gset string :=
  match mode with
  | Intersect => intersect_required_keys sets
  | Union => union_required_keys sets
  end.

Definition merge_common_schema_metadata (existing incoming : Members) : Members :=
  foldl (λ m k, match m !! k, incoming !! k with
    | None, Some x => <[k := x]> m
    | _, _ => m
    end) existing ["description"; "default"].

Definition set_required (required : gset string) (obj : Members) : Members :=
  if decide (required = ∅) then delete "required" obj else <["required" := string_array required]> obj.

Definition merge_object_required (existing incoming : Members) (mode : RequiredMergeMode) : Members :=
  if negb (contains_key existing "required") && negb (contains_key incoming "required") then existing
  else set_required (combine_required mode [required_keys (existing !! "required"); required_keys (incoming !! "required")]) existing.

Definition push_variant (variants : list Value) (v : Value) : list Value :=
  if decide (v ∈ variants) then variants else variants ++ [v].

Definition collect_any_of_variants (value : Value) (variants : list Value) : list Value :=
  match get value "anyOf" ≫= as_array with
  | Some existing_any_of => foldl push_variant variants existing_any_of
  | None => push_variant variants value
  end.

Definition merge_nested_any_of (existing incoming : Value) : Value :=
  JvObject {["anyOf" := JvArray (collect_any_of_variants incoming (collect_any_of_variants existing []))]}.

(** The [enum] values, or nothing when one of them is not a string. *)
Fixpoint all_strings (items : list Value) : option (list string) :=
  match items with
  | [] => Some []
  | item :: items => s ← as_str item; l ← all_strings items; Some (s :: l)
  end.

Definition string_literal_values (schema : Value) : option (gset string) :=
  obj ← as_object schema;
  let from_const : gset string := match obj !! "const" ≫= as_str with Some v => {[ v ]} | None => ∅ end in
  values ← match obj !! "enum" ≫= as_array with
    | Some items => l ← all_strings items; Some (from_const ∪ list_to_set l)
    | None => Some from_const
    end;
  if decide (values = ∅) then None else Some values.

Definition first_description (existing incoming : Value) : option string :=
  match get existing "description" ≫= as_str with
  | Some d => Some d
  | None => get incoming "description" ≫= as_str
  end.

Definition default_among (values : gset string) (schema : Value) : option Value :=
  default ← get schema "default";
  value ← as_str default;
  if decide (value ∈ values) then Some default else None.

Definition first_default (existing incoming : Value) (values : gset string) : option Value :=
  match default_among values existing with
  | Some d => Some d
  | None => default_among values incoming
  end.

Definition merge_string_literal_property (existing incoming : Value) : option Value :=
  vs ← string_literal_values existing;
  ws ← string_literal_values incoming;
  let values := vs ∪ ws in
  let merged : Members := <["enum" := string_array values]> {["type" := JvString "string"]} in
  let merged := match first_description existing incoming with
    | Some d => <["description" := JvString d]> merged
    | None => merged
    end in
  Some (JvObject (match first_default existing incoming values with
    | Some d => <["default" := d]> merged
    | None => merged
    end)).

(** The functions below are mutually recursive; [rec existing incoming] stands for
    [merge_property_schema]. *)
Definition merge_schema_field (rec : Value → Value → Value) (existing incoming : Members) (key : string) : Members :=
  match existing !! key, incoming !! key with
  | Some e, Some i =>
      if is_object e && is_object i then <[key := rec e i]> existing
      else if decide (e = i) then existing
      else <[key := merge_nested_any_of e i]> existing
  | None, Some i => <[key := i]> existing
  | _, None => existing
  end.

(** [for (name, schema) in incoming]: merged with the property of that name, or added *)
Definition merge_properties (rec : Value → Value → Value) (existing incoming : Members) : Members :=
  union_with (λ e i, Some (rec e i)) existing incoming.

Definition merge_object_properties (rec : Value → Value → Value) (existing incoming : Members) : Members :=
  match existing !! "properties", incoming !! "properties" with
  | Some existing_props_value, Some incoming_props_value =>
      match as_object incoming_props_value with
      | Some incoming_props =>
          match as_object existing_props_value with
          | Some existing_props =>
              <["properties" := JvObject (merge_properties rec existing_props incoming_props)]> existing
          | None => <["properties" := incoming_props_value]> existing
          end
      | None => existing
      end
  | None, Some incoming_props_value => <["properties" := incoming_props_value]> existing
  | _, None => existing
  end.

Definition merge_object_property_schema (rec : Value → Value → Value) (existing incoming : Members)
    (mode : RequiredMergeMode) : Members :=
  let existing := merge_object_properties rec existing incoming in
  let existing := merge_object_required existing incoming mode in
  merge_schema_field rec existing incoming "additionalProperties".

Definition merge_same_type (rec : Value → Value → Value) (existing incoming : Members) (mode : RequiredMergeMode) : option Value :=
  match existing !! "type" ≫= as_str with
  | Some t =>
      if bool_decide (t = "object") then Some (JvObject (merge_object_property_schema rec existing incoming mode))
      else if bool_decide (t = "array") then Some (JvObject (merge_schema_field rec existing incoming "items"))
      else None
  | None => None
  end.

Definition merge_property_body (rec : Value → Value → Value) (mode : RequiredMergeMode) (existing incoming : Value) : Value :=
  if decide (existing = incoming) then existing
  else match merge_string_literal_property existing incoming with
  | Some merged => merged
  | None =>
      match existing, incoming with
      | JvObject e, JvObject i =>
          if decide (e !! "type" = i !! "type") then
            let e := merge_common_schema_metadata e i in
            match merge_same_type rec e i mode with
            | Some merged => merged
            | None => merge_nested_any_of (JvObject e) incoming
            end
          else merge_nested_any_of existing incoming
      | _, _ => merge_nested_any_of existing incoming
      end
  end.

Fixpoint merge_fuel (fuel : nat) (mode : RequiredMergeMode) (existing incoming : Value) : Value :=
  match fuel with
  | O => existing
  | S fuel => merge_property_body (merge_fuel fuel mode) mode existing incoming
  end.

Definition merge_property_schema (mode : RequiredMergeMode) (existing incoming : Value) : Value :=
  merge_fuel (S (depth incoming)) mode existing incoming.

Definition merge_variant (mode : RequiredMergeMode) (acc : Members * list (gset string)) (variant : Value) :
    Members * list (gset string) :=
  let '(props, sets) := acc in
  match as_object variant with
  | None => (props, sets ++ [∅])
  | Some variant_obj =>
      let props := match variant_obj !! "properties" ≫= as_object with
        | Some variant_props => merge_properties (merge_property_schema mode) props variant_props
        | None => props
        end in
      (props, sets ++ [required_keys (variant_obj !! "required")])
  end.

Definition merge_top_level_variants (root : Members) (variants_value : Value) (mode : RequiredMergeMode) : Members :=
  match as_array variants_value with
  | None => root
  | Some variants =>
      let root_required := required_keys (root !! "required") in
      let props := match root !! "properties" with Some (JvObject props) => props | _ => ∅ end in
      let '(props, sets) := foldl (merge_variant mode) (props, []) variants in
      set_required (root_required ∪ combine_required mode sets) (<["properties" := JvObject props]> root)
  end.

Definition flatten_keyword (mode : RequiredMergeMode) (key : string) (obj : Members) : Members :=
  match obj !! key with
  | Some variants => merge_top_level_variants (delete key obj) variants mode
  | None => obj
  end.

Definition flatten_top_level_forbidden_keywords (schema : Value) : Value :=
  match schema with
  | JvObject obj =>
      let obj := flatten_keyword Intersect "oneOf" obj in
      let obj := flatten_keyword Intersect "anyOf" obj in
      let obj := flatten_keyword Union "allOf" obj in
      JvObject (delete "not" (delete "enum" obj))
  | _ => schema
  end.

Definition normalize_schema_strict (schema : Value) : Value :=
  normalize_schema_recursive (flatten_top_level_forbidden_keywords schema).

(** ** The fuel is enough *)

(** What [walk_combinators] makes of the member [x] at [k]. *)
Definition walk_member (rec : Value → Value) (k : string) (x : Value) : Value :=
  if decide (k ∈ ["anyOf"; "oneOf"; "allOf"]) then match x with JvArray vs => JvArray (rec <$> vs) | x => x end
  else if decide (k ∈ ["items"; "not"; "if"; "then"; "else"]) then rec x
  else if decide (k = "additionalProperties") then (if is_object x then rec x else x)
  else x.

Ltac lookup_alters := repeat first [rewrite lookup_alter_eq | rewrite lookup_alter_ne by done].

Lemma walk_combinators_lookup rec obj k : walk_combinators rec obj !! k = walk_member rec k <$> obj !! k.
Proof.
  unfold walk_combinators, walk_member. cbn [foldl].
  destruct (decide (k ∈ ["anyOf"; "oneOf"; "allOf"])) as [H2|H2].
  { rewrite !elem_of_cons, elem_of_nil in H2. by destruct H2 as [-> |[-> |[-> |[]]]]; lookup_alters. }
  destruct (decide (k ∈ ["items"; "not"; "if"; "then"; "else"])) as [H3|H3].
  { rewrite !elem_of_cons, elem_of_nil in H3. by destruct H3 as [-> |[-> |[-> |[-> |[-> |[]]]]]]; lookup_alters. }
  destruct (decide (k = "additionalProperties")) as [->|H1]; [by lookup_alters|].
  rewrite !lookup_alter_ne by (intros <-; first [by apply H1|apply H2, (bool_decide_unpack _); exact I
    |apply H3, (bool_decide_unpack _); exact I]). by destruct (obj !! k).
Qed.

Lemma walk_member_ext f g k x :
  (∀ w, depth w ≤ depth x → f w = g w) → walk_member f k x = walk_member g k x.
Proof.
  intros H. unfold walk_member. repeat case_decide; try done; [|by apply H|by case_match; [apply H|]].
  destruct x as [| | | |l|]; try done. f_equal. apply list_fmap_ext. intros i y Hy. apply H.
  apply list_elem_of_lookup_2, depth_items in Hy. lia.
Qed.

Lemma walk_combinators_ext f g obj :
  (∀ w, depth w < depth (JvObject obj) → f w = g w) → walk_combinators f obj = walk_combinators g obj.
Proof.
  intros H. apply map_eq. intros k. rewrite !walk_combinators_lookup. destruct (obj !! k) as [x|] eqn:E; [|done].
  simpl. f_equal. apply walk_member_ext. intros w Hw. apply H. apply depth_member in E. lia.
Qed.

(** The properties that an object schema has after [normalize_object_shape]. *)
Definition props_of (obj : Members) : Members :=
  match obj !! "properties" with Some (JvObject props) => props | _ => ∅ end.

Lemma shape_properties obj : normalize_object_shape obj !! "properties" = Some (JvObject (props_of obj)).
Proof.
  unfold normalize_object_shape, props_of. cbv zeta.
  set (o := if negb _ && _ then _ else obj). assert (o !! "properties" = obj !! "properties") as Ho.
  { unfold o. case_match; [by rewrite lookup_insert_ne|done]. }
  rewrite Ho. case_match; [|rewrite lookup_insert_ne by done]; rewrite lookup_insert_eq;
    by destruct (obj !! "properties") as [[]|].
Qed.

Lemma shape_other obj k :
  k ∉ ["type"; "properties"; "additionalProperties"] → normalize_object_shape obj !! k = obj !! k.
Proof.
  intros Hk. rewrite !not_elem_of_cons in Hk. destruct Hk as (H1 & H2 & H3 & _).
  unfold normalize_object_shape. cbv zeta. set (o := if negb _ && _ then _ else obj).
  assert (o !! k = obj !! k) as Ho by (unfold o; case_match; [by rewrite lookup_insert_ne|done]).
  case_match; rewrite ?(lookup_insert_ne _ "additionalProperties"), lookup_insert_ne by done; done.
Qed.

Lemma shape_type_additional obj :
  is_Some (obj !! "type") ∨ is_Some (obj !! "properties") →
  normalize_object_shape obj !! "type" = Some (default (JvString "object") (obj !! "type")) ∧
  normalize_object_shape obj !! "additionalProperties" = Some (default (JvBool false) (obj !! "additionalProperties")).
Proof.
  intros Hs. unfold normalize_object_shape. cbv zeta. set (o := if negb _ && _ then _ else obj).
  assert (o !! "type" = Some (default (JvString "object") (obj !! "type")) ∧
          o !! "additionalProperties" = obj !! "additionalProperties") as [Ht Ha].
  { unfold o, contains_key. destruct (obj !! "type") as [t|] eqn:Et.
    { by rewrite bool_decide_eq_true_2 by done. }
    destruct Hs as [[]|Hs]; [done|]. rewrite bool_decide_eq_false_2 by (by intros []).
    rewrite bool_decide_eq_true_2 by done. simpl. split; [by rewrite lookup_insert_eq|by rewrite lookup_insert_ne]. }
  rewrite (lookup_insert_ne _ "properties" "additionalProperties"), Ha by done.
  destruct (obj !! "additionalProperties") as [a|] eqn:Ea.
  - rewrite !lookup_insert_ne by done. by rewrite Ht, Ha.
  - rewrite lookup_insert_eq, !lookup_insert_ne by done. by rewrite Ht.
Qed.

Lemma rewrite_ext f g obj props :
  obj !! "properties" = Some (JvObject props) →
  (∀ k p, props !! k = Some p → f p = g p) →
  rewrite_required_and_nullable f obj = rewrite_required_and_nullable g obj.
Proof.
  intros Hp H. unfold rewrite_required_and_nullable. cbv zeta. rewrite lookup_delete_ne, Hp by done.
  assert (∀ reqd, map_imap (λ k p, Some (rewrite_property f reqd k p)) props
                  = map_imap (λ k p, Some (rewrite_property g reqd k p)) props) as ->; [|done].
  intros reqd. apply map_imap_ext. intros k. destruct (props !! k) as [p|] eqn:E; [|done]. simpl.
  unfold rewrite_property. by rewrite (H k p).
Qed.

Lemma props_of_depth obj k p : props_of obj !! k = Some p → depth p < depth (JvObject obj).
Proof.
  unfold props_of. destruct (obj !! "properties") as [[| | | | |props]|] eqn:E; try done. intros Hp%depth_member.
  apply depth_member in E. lia.
Qed.

Lemma walk_properties f obj : walk_combinators f obj !! "properties" = obj !! "properties".
Proof. rewrite walk_combinators_lookup. by destruct (obj !! "properties"). Qed.

Lemma normalize_body_ext f g v :
  (∀ w, depth w < depth v → f w = g w) → normalize_body f v = normalize_body g v.
Proof.
  destruct v as [| | | | |obj]; try done. intros H. unfold normalize_body. cbv zeta.
  rewrite (walk_combinators_ext f g obj H). set (o := walk_combinators g obj).
  repeat (case_match; [done|]). apply (f_equal JvObject). eapply rewrite_ext; [apply shape_properties|].
  intros k p Hp. apply H, (props_of_depth obj k). unfold props_of in *. unfold o in Hp. by rewrite walk_properties in Hp.
Qed.

Lemma normalize_fuel_enough n m v : depth v < n → depth v < m → normalize_fuel n v = normalize_fuel m v.
Proof.
  revert m v. induction n as [|n IH]; intros [|m] v Hn Hm; [lia..|]. simpl.
  apply normalize_body_ext. intros w Hw. apply IH; lia.
Qed.

(** The recursion of the code. *)
Lemma normalize_equation v : normalize_schema_recursive v = normalize_body normalize_schema_recursive v.
Proof.
  unfold normalize_schema_recursive at 1. simpl. apply normalize_body_ext. intros w Hw. apply normalize_fuel_enough; lia.
Qed.

(** ** Strict schemas *)

(** [x] stands at a place of the schema [m] where a schema is expected, other than
    among its properties. *)
Definition subschema (m : Members) (x : Value) : Prop :=
  (∃ k vs, k ∈ ["anyOf"; "oneOf"; "allOf"] ∧ m !! k = Some (JvArray vs) ∧ x ∈ vs) ∨
  (∃ k, k ∈ ["items"; "not"; "if"; "then"; "else"] ∧ m !! k = Some x) ∨
  (m !! "additionalProperties" = Some x ∧ is_object x = true).

(** A schema that lists its members, as opposed to one of a map. *)
Definition fixed_shape (m : Members) : Prop :=
  (m !! "type" ≫= as_str = Some "object" ∧ from_option is_object false (m !! "additionalProperties") = false) ∨
  is_Some (m !! "properties").

(** What providers in strict mode ask for: wherever members are listed, [type] and
    [additionalProperties] are given and every member is required. *)
Inductive strict : Value → Prop :=
| strict_leaf v : as_object v = None → strict v
| strict_object m :
    (∀ x, subschema m x → strict x) →
    (fixed_shape m → ∃ props,
       m !! "properties" = Some (JvObject props) ∧
       m !! "required" = Some (JvArray (JvString <$> sorted_keys props)) ∧
       is_Some (m !! "type") ∧ is_Some (m !! "additionalProperties") ∧
       ∀ k p, props !! k = Some p → strict p) →
    strict (JvObject m).

Lemma fixed_shape_spec m :
  (negb (is_object_schema m) && negb (contains_key m "properties")) || is_map_object m (contains_key m "properties") = false
  ↔ fixed_shape m.
Proof.
  unfold fixed_shape, is_map_object, is_object_schema, contains_key.
  rewrite orb_false_iff, !andb_false_iff, !negb_false_iff, !bool_decide_eq_true. naive_solver.
Qed.

#[global] Instance fixed_shape_dec m : Decision (fixed_shape m).
Proof. refine (cast_if (decide (_ = false))); by rewrite <-fixed_shape_spec. Defined.

Lemma normalize_object obj :
  normalize_schema_recursive (JvObject obj) =
  let o := walk_combinators normalize_schema_recursive obj in
  JvObject (if decide (fixed_shape o) then rewrite_required_and_nullable normalize_schema_recursive (normalize_object_shape o)
            else o).
Proof.
  rewrite normalize_equation. unfold normalize_body. cbv zeta. set (o := walk_combinators _ _).
  pose proof (fixed_shape_spec o) as H. destruct (negb (is_object_schema o) && _); simpl in H; [case_decide; naive_solver|].
  destruct (is_map_object o _); case_decide; naive_solver.
Qed.

Lemma is_object_normalize v : is_object (normalize_schema_recursive v) = is_object v.
Proof. destruct v; try by rewrite normalize_equation. by rewrite normalize_object. Qed.

Definition reshaped (rec : Value → Value) (o : Members) : Members :=
  map_imap (λ k p, Some (rewrite_property rec (required_strings (o !! "required")) k p)) (props_of o).

(** The members of an object schema after both steps. *)
Lemma reshape_lookup rec o :
  fixed_shape o →
  let o' := rewrite_required_and_nullable rec (normalize_object_shape o) in
  o' !! "properties" = Some (JvObject (reshaped rec o)) ∧
  o' !! "required" = Some (JvArray (JvString <$> sorted_keys (reshaped rec o))) ∧
  o' !! "type" = Some (default (JvString "object") (o !! "type")) ∧
  o' !! "additionalProperties" = Some (default (JvBool false) (o !! "additionalProperties")) ∧
  ∀ k, k ∉ ["type"; "properties"; "additionalProperties"; "required"] → o' !! k = o !! k.
Proof.
  intros Hf. destruct (shape_type_additional o) as [Ht Ha].
  { destruct Hf as [[Hf _]|Hf]; [left|by right]. by destruct (o !! "type"). }
  cbv zeta. unfold rewrite_required_and_nullable. cbv zeta.
  rewrite lookup_delete_ne, shape_properties, (shape_other o "required") by done || (by apply (bool_decide_unpack _); vm_compute).
  split_and!.
  - by rewrite lookup_insert_ne, lookup_insert_eq by done.
  - by rewrite lookup_insert_eq.
  - by rewrite !lookup_insert_ne, lookup_delete_ne by done.
  - by rewrite !lookup_insert_ne, lookup_delete_ne by done.
  - intros k Hk. rewrite !not_elem_of_cons in Hk.
    rewrite !lookup_insert_ne, lookup_delete_ne by naive_solver. apply shape_other. rewrite !not_elem_of_cons. naive_solver.
Qed.

Lemma keys_apart (L1 L2 : list string) k :
  k ∈ L1 → bool_decide (Forall (λ k, k ∉ L2) L1) = true → k ∉ L2.
Proof. rewrite bool_decide_eq_true, Forall_forall. eauto. Qed.

Lemma walk_subschema rec obj x :
  subschema (walk_combinators rec obj) x → (∀ v, is_object (rec v) = is_object v) →
  ∃ y, depth y < depth (JvObject obj) ∧ x = rec y.
Proof.
  intros Hx Hrec. destruct Hx as [(k & vs & Hk & Hl & Hx)|[(k & Hk & Hl)|[Hl Hx]]];
    rewrite walk_combinators_lookup in Hl; apply fmap_Some in Hl as (z & Hz & Heq); pose proof (depth_member _ _ _ Hz) as Hd;
    unfold walk_member in Heq.
  - rewrite decide_True in Heq by done. destruct z as [| | | |l|]; try done. injection Heq as ->.
    apply list_elem_of_fmap in Hx as (y & -> & Hy). exists y. split; [|done]. apply depth_items in Hy. lia.
  - rewrite decide_False, decide_True in Heq by (done || by apply (keys_apart _ _ _ Hk)).
    by exists z.
  - rewrite !decide_False, decide_True in Heq by (done || by apply (bool_decide_unpack _); vm_compute).
    destruct (is_object z) eqn:Ez; [by exists z|]. subst x. congruence.
Qed.

Lemma strict_null : strict (JvObject {["type" := JvString "null"]}).
Proof.
  apply strict_object.
  - intros x [(k & vs & _ & Hk & _)|[(k & Hk & Hl)|[Hl _]]].
    + by apply lookup_singleton_Some in Hk as [_ [=]].
    + apply lookup_singleton_Some in Hl as [<- _]. by destruct (keys_apart _ ["type"; "anyOf"] _ Hk eq_refl); [apply (bool_decide_unpack _)].
    + by apply lookup_singleton_Some in Hl as [[=] _].
  - intros [[Ht _]|[x Hx]]; [by rewrite lookup_singleton_eq in Ht|]. by apply lookup_singleton_Some in Hx as [[=] _].
Qed.

(** Changing the type of a schema that is not strictly an object afterwards. *)
Lemma strict_retype m t :
  strict (JvObject m) → as_str t = None → strict (JvObject (<["type" := t]> m)).
Proof.
  intros Hm Ht. inversion Hm as [|? Hsub Hfix]; subst; [done|]. apply strict_object.
  - intros x Hx. apply Hsub. destruct Hx as [(k & vs & Hk & Hl & Hx)|[(k & Hk & Hl)|[Hl Hx]]];
      (rewrite lookup_insert_ne in Hl; [|done || (intros <-; destruct (keys_apart _ ["type"] _ Hk eq_refl); by left)]).
    + left. by exists k, vs.
    + right. left. by exists k.
    + right. by right.
  - intros [[Hty _]|Hp]; [rewrite lookup_insert_eq in Hty; simpl in Hty; congruence|].
    rewrite lookup_insert_ne in Hp by done. destruct Hfix as (props & H1 & H2 & _ & H4 & H5); [by right|].
    exists props. rewrite lookup_insert_eq, !lookup_insert_ne by done. split_and!; done || eauto.
Qed.

Lemma strict_make_nullable v : strict v → strict (make_nullable v).
Proof.
  destruct v as [| | | | |m]; try done. intros Hm. unfold make_nullable. destruct (m !! "type") as [[| | |t|arr|]|]; try done.
  - case_bool_decide; [done|]. by apply strict_retype.
  - case_match; [done|]. by apply strict_retype.
  - apply strict_object.
    + intros x [(k & vs & _ & Hk & Hx)|[(k & Hk & Hl)|[Hl _]]].
      * apply lookup_singleton_Some in Hk as [_ [= <-]].
        rewrite !elem_of_cons, elem_of_nil in Hx. destruct Hx as [-> |[-> |[]]]; [done|apply strict_null].
      * apply lookup_singleton_Some in Hl as [<- _]. by destruct (keys_apart _ ["type"; "anyOf"] _ Hk eq_refl); [apply (bool_decide_unpack _)].
      * by apply lookup_singleton_Some in Hl as [[=] _].
    + intros [[Ht _]|[x Hx]]; [by rewrite lookup_singleton_ne in Ht|]. by apply lookup_singleton_Some in Hx as [[=] _].
Qed.

Lemma reshape_subschema rec o x :
  fixed_shape o → subschema (rewrite_required_and_nullable rec (normalize_object_shape o)) x → subschema o x.
Proof.
  intros Hf. destruct (reshape_lookup rec o Hf) as (_ & _ & _ & Ha & Ho).
  intros [(k & vs & Hk & Hl & Hx)|[(k & Hk & Hl)|[Hl Hx]]].
  - left. exists k, vs. split; [done|]. rewrite <-Ho; [done|]. by apply (keys_apart _ _ _ Hk).
  - right. left. exists k. split; [done|]. rewrite <-Ho; [done|]. by apply (keys_apart _ _ _ Hk).
  - right. right. rewrite Ha in Hl. destruct (o !! "additionalProperties"); simpl in Hl; [done|].
    injection Hl as <-. done.
Qed.

Lemma normalize_is_strict v : strict (normalize_schema_recursive v).
Proof.
  induction v as [v IH] using value_depth_ind. destruct v as [| | | | |obj]; try by (rewrite normalize_equation; apply strict_leaf).
  rewrite normalize_object. cbv zeta. set (o := walk_combinators _ obj).
  assert (∀ x, subschema o x → strict x) as Hsub.
  { intros x Hx. destruct (walk_subschema _ _ _ Hx is_object_normalize) as (y & Hy & ->). by apply IH. }
  case_decide as Hf; apply strict_object; [| |exact Hsub|done].
  - intros x Hx. by eapply Hsub, reshape_subschema.
  - intros _. destruct (reshape_lookup normalize_schema_recursive o Hf) as (H1 & H2 & H3 & H4 & _).
    eexists. split_and!; [exact H1|exact H2|by rewrite H3|by rewrite H4|].
    intros k p Hp. unfold reshaped in Hp. rewrite map_lookup_imap in Hp. apply bind_Some in Hp as (q & Hq & [= <-]).
    assert (depth q < depth (JvObject obj)) as Hd.
    { apply (props_of_depth obj k). unfold props_of in *. unfold o in Hq. by rewrite walk_properties in Hq. }
    unfold rewrite_property. case_decide; [by apply IH|]. by apply strict_make_nullable, IH.
Qed.

Lemma required_strings_of (l : list string) : required_strings (Some (JvArray (JvString <$> l))) = l.
Proof. unfold required_strings. simpl. induction l as [|x l IH]; [done|]. csimpl. by rewrite IH. Qed.

Lemma elem_of_sorted_keys (m : Members) k : k ∈ sorted_keys m ↔ is_Some (m !! k).
Proof.
  unfold sorted_keys. rewrite merge_sort_Permutation, list_elem_of_fmap. split.
  - intros ([j x] & -> & Hx%elem_of_map_to_list). by exists x.
  - intros [x Hx]. exists (k, x). by rewrite elem_of_map_to_list.
Qed.

Lemma strict_is_normal v : strict v → normalize_schema_recursive v = v.
Proof.
  induction v as [v IH] using value_depth_ind. destruct v as [| | | | |m]; try by (intros; rewrite normalize_equation).
  intros Hm. inversion Hm as [|? Hsub Hfix]; subst; [done|]. rewrite normalize_object. cbv zeta.
  assert (walk_combinators normalize_schema_recursive m = m) as ->.
  { apply map_eq. intros k. rewrite walk_combinators_lookup. destruct (m !! k) as [x|] eqn:Ek; [|done]. simpl. f_equal.
    pose proof (depth_member _ _ _ Ek) as Hd. unfold walk_member. repeat case_decide; try done.
    - destruct x as [| | | |vs|]; try done. f_equal. rewrite <-(list_fmap_id vs) at 2. apply list_fmap_ext.
      intros i y Hy%list_elem_of_lookup_2. pose proof (depth_items _ _ Hy). apply (IH y); [lia|]. apply Hsub. left. by exists k, vs.
    - apply IH; [done|]. apply Hsub. right. left. by exists k.
    - subst k. destruct (is_object x) eqn:Ex; [|done]. apply IH; [done|]. apply Hsub. right. by right. }
  f_equal. case_decide as Hf; [|done]. destruct (Hfix Hf) as (props & H1 & H2 & [t H3] & [a H4] & H5).
  destruct (reshape_lookup normalize_schema_recursive m Hf) as (G1 & G2 & G3 & G4 & G5).
  assert (reshaped normalize_schema_recursive m = props) as Hp.
  { unfold reshaped, props_of. rewrite H1, H2, required_strings_of. apply map_eq. intros k. rewrite map_lookup_imap.
    destruct (props !! k) as [p|] eqn:Ep; [|done]. simpl. f_equal. unfold rewrite_property.
    rewrite decide_True by (apply elem_of_sorted_keys; by exists p). apply IH; [|by eapply H5].
    pose proof (depth_member _ _ _ Ep). pose proof (depth_member _ _ _ H1). lia. }
  rewrite Hp in G1, G2. rewrite H3 in G3. rewrite H4 in G4. apply map_eq. intros k.
  destruct (decide (k ∈ ["type"; "properties"; "additionalProperties"; "required"])) as [Hk|Hk]; [|by apply G5].
  rewrite !elem_of_cons, elem_of_nil in Hk. destruct Hk as [-> |[-> |[-> |[-> |[]]]]]; simpl in *; congruence.
Qed.

(** ** Flattening *)

Abbreviation forbidden_keywords := ["oneOf"; "anyOf"; "allOf"; "enum"; "not"].

Lemma set_required_other X obj k : k ≠ "required" → set_required X obj !! k = obj !! k.
Proof. intros Hk. unfold set_required. case_decide; [by rewrite lookup_delete_ne|by rewrite lookup_insert_ne]. Qed.

Lemma merge_top_level_other root v mode k :
  k ≠ "properties" → k ≠ "required" → merge_top_level_variants root v mode !! k = root !! k.
Proof.
  intros H1 H2. unfold merge_top_level_variants. destruct (as_array v); [|done]. cbv zeta.
  destruct (foldl _ _ _) as [props sets]. rewrite set_required_other by done. by rewrite lookup_insert_ne.
Qed.

Lemma flatten_keyword_lookup mode key obj k :
  k ≠ "properties" → k ≠ "required" →
  flatten_keyword mode key obj !! k = if decide (k = key) then None else obj !! k.
Proof.
  intros H1 H2. unfold flatten_keyword. destruct (obj !! key) as [v|] eqn:E.
  - rewrite merge_top_level_other by done. case_decide as Hk; [subst; by rewrite lookup_delete_eq|].
    by rewrite lookup_delete_ne.
  - case_decide; congruence.
Qed.

Lemma flatten_none schema k :
  k ∈ forbidden_keywords → get (flatten_top_level_forbidden_keywords schema) k = None.
Proof.
  intros Hk. destruct schema as [| | | | |obj]; try done. unfold get. cbn [as_object mbind option_bind flatten_top_level_forbidden_keywords].
  cbv zeta. pose proof (keys_apart _ ["properties"; "required"] _ Hk eq_refl) as Hn. rewrite !not_elem_of_cons in Hn.
  destruct (decide (k = "not")) as [->|H1]; [by rewrite lookup_delete_eq|]. rewrite lookup_delete_ne by done.
  destruct (decide (k = "enum")) as [->|H2]; [by rewrite lookup_delete_eq|]. rewrite lookup_delete_ne by done.
  rewrite !flatten_keyword_lookup by tauto. rewrite !elem_of_cons, elem_of_nil in Hk. repeat case_decide; try done. tauto.
Qed.

Lemma flatten_id schema :
  (∀ k, k ∈ forbidden_keywords → get schema k = None) → flatten_top_level_forbidden_keywords schema = schema.
Proof.
  intros H. destruct schema as [| | | | |obj]; try done. unfold get in H. simpl in H.
  cbn [flatten_top_level_forbidden_keywords]. unfold flatten_keyword.
  rewrite !H by (apply (bool_decide_unpack _); vm_compute; exact I). f_equal. rewrite !delete_id; try done.
  - apply H. apply (bool_decide_unpack _); vm_compute; exact I.
  - rewrite delete_id; apply H; apply (bool_decide_unpack _); vm_compute; exact I.
Qed.

Lemma normalize_keeps_absent v k :
  k ∈ forbidden_keywords → get v k = None → get (normalize_schema_recursive v) k = None.
Proof.
  intros Hk. destruct v as [| | | | |obj]; try by rewrite normalize_equation. unfold get.
  cbn [as_object mbind option_bind]. intros Hn. rewrite normalize_object. cbv zeta. cbn [as_object mbind option_bind]. set (o := walk_combinators _ obj).
  assert (o !! k = None) as Ho by (unfold o; by rewrite walk_combinators_lookup, Hn).
  case_decide as Hf; [|done]. destruct (reshape_lookup normalize_schema_recursive o Hf) as (_ & _ & _ & _ & ->); [done|].
  by apply (keys_apart _ _ _ Hk).
Qed.

(** The normaliser makes a schema strict at every place it visits (members,
    items, combinators and the schema of additional members): where members are
    listed, the type and [additionalProperties] are given and every member is
    required, and at the top none of the five keywords is left that providers
    refuse.  Definitions, pattern members and the items of tuples are not visited.
    Normalising again changes nothing, and the recursive step changes nothing
    exactly on strict schemas. *)
Theorem normalized_schema_strict schema :
  let out := normalize_schema_strict schema in
  strict out ∧ (∀ k, k ∈ forbidden_keywords → get out k = None) ∧ normalize_schema_strict out = out ∧
  ∀ v, normalize_schema_recursive v = v ↔ strict v.
Proof.
  cbv zeta. assert (∀ k, k ∈ forbidden_keywords → get (normalize_schema_strict schema) k = None) as Hnone.
  { intros k Hk. unfold normalize_schema_strict. apply normalize_keeps_absent; [done|]. by apply flatten_none. }
  split_and!; [apply normalize_is_strict|done| |].
  - unfold normalize_schema_strict at 1. rewrite flatten_id by done. apply strict_is_normal, normalize_is_strict.
  - intros v. split; [|apply strict_is_normal]. intros <-. apply normalize_is_strict.
Qed.

(** *** The recursion of merging *)

Lemma merge_schema_field_ext f g e i key :
  (∀ x y, depth y < depth (JvObject i) → f x y = g x y) → merge_schema_field f e i key = merge_schema_field g e i key.
Proof.
  intros H. unfold merge_schema_field. destruct (e !! key) as [x|]; [|done]. destruct (i !! key) as [y|] eqn:Ei; [|done].
  by rewrite H by by eapply depth_member.
Qed.

Lemma merge_object_properties_ext f g e i :
  (∀ x y, depth y < depth (JvObject i) → f x y = g x y) → merge_object_properties f e i = merge_object_properties g e i.
Proof.
  intros H. unfold merge_object_properties. destruct (e !! "properties") as [x|]; [|done].
  destruct (i !! "properties") as [y|] eqn:Ei; [|done]. destruct y as [| | | | |ps]; try done. cbn [as_object].
  destruct (as_object x) as [qs|]; [|done]. do 2 f_equal. unfold merge_properties. apply map_eq. intros k.
  rewrite !lookup_union_with. destruct (qs !! k), (ps !! k) as [p|] eqn:Ek; try done. simpl. f_equal. apply H.
  apply depth_member in Ei, Ek. lia.
Qed.

Lemma merge_property_body_ext f g mode e i :
  (∀ x y, depth y < depth i → f x y = g x y) → merge_property_body f mode e i = merge_property_body g mode e i.
Proof.
  intros H. unfold merge_property_body. case_decide; [done|]. case_match; [done|].
  destruct e as [| | | | |e], i as [| | | | |i]; try done. case_decide; [|done]. cbv zeta.
  unfold merge_same_type, merge_object_property_schema.
  by rewrite !(merge_object_properties_ext f g), !(merge_schema_field_ext f g).
Qed.

Lemma merge_fuel_enough n m mode e i : depth i < n → depth i < m → merge_fuel n mode e i = merge_fuel m mode e i.
Proof.
  revert m e i. induction n as [|n IH]; intros [|m] e i Hn Hm; [lia..|]. simpl.
  apply merge_property_body_ext. intros x y Hy. apply IH; lia.
Qed.

(** The recursion of the code. *)
Lemma merge_equation mode e i :
  merge_property_schema mode e i = merge_property_body (merge_property_schema mode) mode e i.
Proof.
  unfold merge_property_schema at 1. cbn [merge_fuel]. apply merge_property_body_ext. intros x y Hy. apply merge_fuel_enough; lia.
Qed.

(** *** What flattening keeps *)

Definition variant_props (v : Value) : Members :=
  from_option id ∅ (as_object v ≫= (λ o, o !! "properties" ≫= as_object)).
Definition variant_required (v : Value) : gset string :=
  from_option (λ o, required_keys (o !! "required")) ∅ (as_object v).

Lemma merge_properties_lookup rec e i k :
  merge_properties rec e i !! k =
  match e !! k, i !! k with
  | Some x, Some y => Some (rec x y)
  | Some x, None => Some x
  | None, y => y
  end.
Proof. unfold merge_properties. rewrite lookup_union_with. by destruct (e !! k), (i !! k). Qed.

Lemma merge_variant_eq mode props sets v :
  merge_variant mode (props, sets) v =
  (merge_properties (merge_property_schema mode) props (variant_props v), sets ++ [variant_required v]).
Proof.
  unfold merge_variant, variant_props, variant_required. destruct (as_object v) as [o|]; simpl.
  2:{ f_equal. apply map_eq. intros k. rewrite merge_properties_lookup, lookup_empty. by destruct (props !! k). }
  f_equal. destruct (o !! "properties" ≫= as_object) as [ps|]; [done|]. simpl.
  apply map_eq. intros k. rewrite merge_properties_lookup, lookup_empty. by destruct (props !! k).
Qed.

Lemma merge_variants_fold mode variants props sets :
  foldl (merge_variant mode) (props, sets) variants =
  (foldl (merge_properties (merge_property_schema mode)) props (variant_props <$> variants),
   sets ++ (variant_required <$> variants)).
Proof.
  revert props sets. induction variants as [|v vs IH]; intros props sets; [by rewrite app_nil_r|].
  cbn [foldl]. by rewrite merge_variant_eq, IH, <-app_assoc.
Qed.

Lemma elem_of_intersect_required sets k :
  k ∈ intersect_required_keys sets ↔ sets ≠ [] ∧ ∀ X, X ∈ sets → k ∈ X.
Proof.
  destruct sets as [|X sets]; simpl; [set_solver|].
  assert (k ∈ foldl (λ acc set, acc ∩ set) X sets ↔ k ∈ X ∧ ∀ Y, Y ∈ sets → k ∈ Y) as ->.
  { revert X. induction sets as [|Y sets IH]; intros X; simpl; [set_solver|]. rewrite IH, elem_of_intersection.
    setoid_rewrite elem_of_cons. naive_solver. }
  setoid_rewrite elem_of_cons. naive_solver.
Qed.

Lemma elem_of_union_required sets k : k ∈ union_required_keys sets ↔ ∃ X, X ∈ sets ∧ k ∈ X.
Proof.
  unfold union_required_keys.
  assert (∀ X, k ∈ foldl (λ acc set, acc ∪ set) X sets ↔ k ∈ X ∨ ∃ Y, Y ∈ sets ∧ k ∈ Y) as H.
  { induction sets as [|Y sets IH]; intros X; simpl; [set_solver|]. rewrite IH, elem_of_union.
    setoid_rewrite elem_of_cons. naive_solver. }
  rewrite H. set_solver.
Qed.

Lemma required_keys_set X obj : required_keys (set_required X obj !! "required") = X.
Proof.
  unfold set_required. case_decide as H; [subst; by rewrite lookup_delete_eq|].
  rewrite lookup_insert_eq. unfold required_keys, string_array. rewrite required_strings_of.
  apply set_eq. intros x. rewrite elem_of_list_to_set. unfold sorted_elements.
  by rewrite merge_sort_Permutation, elem_of_elements.
Qed.

(** Flattening a keyword into the top level offers the properties of the root and of
    every variant: a property found in one place only is kept as it was, and none is
    made up.  Required is what the root requires and, for [oneOf] and [anyOf], what
    every variant requires; for [allOf], what some variant requires. *)
Theorem variants_flattened root variants mode :
  let out := merge_top_level_variants root (JvArray variants) mode in
  (∀ k, is_Some (props_of out !! k) ↔ is_Some (props_of root !! k) ∨ ∃ v, v ∈ variants ∧ is_Some (variant_props v !! k)) ∧
  (∀ k p, props_of root !! k = Some p → (∀ v, v ∈ variants → variant_props v !! k = None) → props_of out !! k = Some p) ∧
  (∀ k, k ∈ required_keys (out !! "required") ↔
     k ∈ required_keys (root !! "required") ∨
     match mode with
     | Intersect => variants ≠ [] ∧ ∀ v, v ∈ variants → k ∈ variant_required v
     | Union => ∃ v, v ∈ variants ∧ k ∈ variant_required v
     end).
Proof.
  cbv zeta. unfold merge_top_level_variants. cbn [as_array]. cbv zeta.
  change (match root !! "properties" with Some (JvObject props) => props | _ => ∅ end) with (props_of root).
  rewrite merge_variants_fold. simpl. set (merge := merge_properties _). set (props := foldl merge _ _).
  set (X := required_keys _ ∪ _). assert (∀ o, props_of (set_required X (<["properties" := JvObject props]> o)) = props) as ->.
  { intros o. unfold props_of. by rewrite set_required_other, lookup_insert_eq. }
  assert (∀ vs ps k, is_Some (foldl merge ps (variant_props <$> vs) !! k) ↔
    is_Some (ps !! k) ∨ ∃ v, v ∈ vs ∧ is_Some (variant_props v !! k)) as Hdom.
  { clear. induction vs as [|v vs IH]; intros ps k; csimpl; [set_solver|]. rewrite IH. unfold merge at 1.
    rewrite merge_properties_lookup. setoid_rewrite elem_of_cons.
    destruct (ps !! k), (variant_props v !! k) eqn:E; unfold is_Some; naive_solver. }
  split_and!.
  - intros k. apply Hdom.
  - unfold props. clear. generalize (props_of root) as ps.
    induction variants as [|v vs IH]; intros ps k p Hp Hv; [done|]. csimpl. apply IH; [|by intros; apply Hv; right].
    unfold merge. by rewrite merge_properties_lookup, Hp, (Hv v) by left.
  - intros k. rewrite required_keys_set. unfold X. rewrite elem_of_union. apply or_iff_compat_l.
    unfold combine_required. destruct mode; [rewrite elem_of_intersect_required|rewrite elem_of_union_required].
    + split; intros [H1 H2]; (split; [by destruct variants|]).
      * intros v Hv. apply H2, list_elem_of_fmap. by exists v.
      * intros Y (v & -> & Hv)%list_elem_of_fmap. by apply H2.
    + setoid_rewrite list_elem_of_fmap. naive_solver.
Qed.
