(* ===== verification/SchemaCheck.v ===== *)
(** * Validation of tool schemas

    Models the two validators: the strict one of [src/src/tools/schema_validator.rs]
    and the lenient one of [src/src/tools/tool/schema_helpers.rs].  Each collects the
    texts of all violations; the theorems show that a list is empty exactly for the
    schemas of an inductive judgement, and how the two judgements relate. *)

From S2P Require Import Prelude Text Schema.

(** ** Paths and members *)

Definition child (path segment : string) : string := path +:+ "." +:+ segment.

Definition type_of (schema : Value) : option string := get schema "type" ≫= as_str.
Definition is_object_type (schema : Value) : bool := bool_decide (type_of schema = Some "object").
Definition properties_obj (schema : Value) : option Members := get schema "properties" ≫= as_object.
Definition required_array (schema : Value) : option (list Value) := get schema "required" ≫= as_array.

Definition in_quotes (s : string) : string := dquote +:+ s +:+ dquote.

Definition missing_required (path key : string) : string :=
  path +:+ ": required key " +:+ in_quotes key +:+ " not found in properties".

(** The loop over [required]. *)
Definition validate_required_array (required : list Value) (properties : Members) (path : string) : list string :=
  omap (λ req, key ← as_str req; if contains_key properties key then None else Some (missing_required path key)) required.

Definition type_error (path : string) (found : option string) : string :=
  match found with
  | Some other => path +:+ ": expected type " +:+ in_quotes "object" +:+ ", got " +:+ in_quotes other
  | None => path +:+ ": missing " +:+ in_quotes "type" +:+ ": " +:+ in_quotes "object"
  end.

Definition properties_error (path : string) : string := path +:+ ": missing or non-object " +:+ in_quotes "properties".
Definition items_error (path : string) : string := path +:+ ": array property missing " +:+ in_quotes "items".

(** ** The lenient validator *)

Section Lenient.
(** [rec schema path] stands for the recursive call. *)
Context (rec : Value → string → list string).

Definition validate_array_items (prop : Value) (prop_path : string) : list string :=
  match get prop "items" with
  | None => [items_error prop_path]
  | Some items => if is_object_type items then rec items (child prop_path "items") else []
  end.

Definition validate_property_schema (name : string) (prop : Value) (path : string) : list string :=
  let prop_path := child path name in
  match type_of prop with
  | None => []
  | Some prop_type =>
      if bool_decide (prop_type = "object") then rec prop prop_path
      else if bool_decide (prop_type = "array") then validate_array_items prop prop_path
      else []
  end.

Definition validate_tool_schema_body (schema : Value) (path : string) : list string :=
  if negb (is_object_type schema) then [type_error path (type_of schema)]
  else match properties_obj schema with
  | None => [properties_error path]
  | Some properties =>
      from_option (λ required, validate_required_array required properties path) [] (required_array schema)
      ++ sorted_entries properties ≫= (λ kp, validate_property_schema kp.1 kp.2 path)
  end.
End Lenient.

Fixpoint validate_tool_schema_at (fuel : nat) (schema : Value) (path : string) : list string :=
  match fuel with
  | O => ["schema nested too deeply"]
  | S fuel => validate_tool_schema_body (validate_tool_schema_at fuel) schema path
  end.

Definition validate_tool_schema (schema : Value) (path : string) : list string :=
  validate_tool_schema_at (S (depth schema)) schema path.

(** ** The strict validator *)

Section Strict.
(** the text of a value *)
Context (value_display : Value → string).

Definition check_required_keys (schema : Value) (properties : Members) (path : string) : list string :=
  match required_array schema with
  | None => []
  | Some required => validate_required_array required properties path
  end.

Definition additional_properties_error (schema : Value) (path label : string) : option string :=
  match get schema "additionalProperties" with
  | None => None
  | Some additional =>
      if negb (bool_decide (additional = JvBool false)) && bool_decide (get additional "type" = None)
      then Some (path +:+ ": " +:+ label +:+ in_quotes "additionalProperties" +:+ " should be false or a type schema")
      else None
  end.

Definition enum_value_matches (prop_type : string) (val : Value) : bool :=
  if bool_decide (prop_type = "string") then match val with JvString _ => true | _ => false end
  else if bool_decide (prop_type = "integer") || bool_decide (prop_type = "number") then
    match val with JvNumber _ => true | _ => false end
  else if bool_decide (prop_type = "boolean") then match val with JvBool _ => true | _ => false end
  else true.

Definition enum_error (prop_path prop_type : string) (i : nat) (val : Value) : string :=
  prop_path +:+ ": enum[" +:+ pretty i +:+ "] value " +:+ value_display val +:+ " does not match declared type "
  +:+ in_quotes prop_type.

Definition check_enum_type_match (prop : Value) (prop_type prop_path : string) : list string :=
  match get prop "enum" ≫= as_array with
  | None => []
  | Some enum_values =>
      omap id (imap (λ i val, if enum_value_matches prop_type val then None else Some (enum_error prop_path prop_type i val))
        enum_values)
  end.

Section StrictBody.
Context (rec : Value → string → list string).

(** an object whose members are described by [additionalProperties] alone *)
Definition is_map_type (prop : Value) : bool :=
  bool_decide (is_Some (get prop "additionalProperties")) && bool_decide (get prop "properties" = None).

Definition check_single_property (key : string) (prop : Value) (path : string) : list string :=
  let prop_path := child path key in
  match get prop "type" with
  | None => []
  | Some t =>
      let prop_type := from_option id EmptyString (as_str t) in
      option_list (additional_properties_error prop prop_path "")
      ++ check_enum_type_match prop prop_type prop_path
      ++ (if bool_decide (prop_type = "object") then
            if is_map_type prop then [] else rec prop prop_path
          else [])
      ++ (if bool_decide (prop_type = "array") then
            match get prop "items" with
            | None => [items_error prop_path]
            | Some items => if is_object_type items then rec items (child prop_path "items") else []
            end
          else [])
  end.

Definition check_object_schema_body (schema : Value) (path : string) : list string :=
  if negb (is_object_type schema) then [type_error path (type_of schema)]
  else match properties_obj schema with
  | None => [properties_error path]
  | Some properties =>
      check_required_keys schema properties path
      ++ (sorted_entries properties ≫= (λ kp, check_single_property kp.1 kp.2 path))
      ++ option_list (additional_properties_error schema path "top-level ")
  end.
End StrictBody.

Fixpoint check_object_schema_at (fuel : nat) (schema : Value) (path : string) : list string :=
  match fuel with
  | O => ["schema nested too deeply"]
  | S fuel => check_object_schema_body (check_object_schema_at fuel) schema path
  end.

Definition forbidden_error (tool_name forbidden : string) : string :=
  tool_name +:+ ": top-level " +:+ in_quotes forbidden +:+ " is not allowed in OpenAI tool schemas".

Definition forbidden_errors (schema : Value) (tool_name : string) : list string :=
  omap (λ k, if bool_decide (is_Some (get schema k)) then Some (forbidden_error tool_name k) else None)
    ["anyOf"; "allOf"; "enum"; "not"].

Definition validate_strict_schema (schema : Value) (tool_name : string) : result unit (list string) :=
  let errors := forbidden_errors schema tool_name
    ++ check_object_schema_at (S (depth schema)) schema tool_name in
  match errors with
  | [] => Ok tt
  | _ => Err errors
  end.
End Strict.

(** ** The judgements *)

(** What is required is declared. *)
Definition required_declared (v : Value) (props : Members) : Prop :=
  ∀ l k, required_array v = Some l → JvString k ∈ l → is_Some (props !! k).

(** Schemas of objects, and of the properties in them, for the lenient validator. *)
Inductive lenient : Value → Prop :=
| lenient_intro v props :
    type_of v = Some "object" → properties_obj v = Some props → required_declared v props →
    (∀ k p, props !! k = Some p → lenient_property p) →
    lenient v
with lenient_property : Value → Prop :=
| lenient_nested p : type_of p = Some "object" → lenient p → lenient_property p
| lenient_array p items :
    type_of p = Some "array" → get p "items" = Some items → (type_of items = Some "object" → lenient items) →
    lenient_property p
| lenient_other p : type_of p ≠ Some "object" → type_of p ≠ Some "array" → lenient_property p.

Definition additional_ok (v : Value) : Prop :=
  ∀ a, get v "additionalProperties" = Some a → a = JvBool false ∨ is_Some (get a "type").

Definition enum_ok (v : Value) : Prop :=
  ∀ t l x, type_of v = Some t → get v "enum" = Some (JvArray l) → x ∈ l → enum_value_matches t x = true.

(** The same for the strict validator, which also looks at [additionalProperties] and
    [enum], and leaves out maps and properties without a type. *)
Inductive checked : Value → Prop :=
| checked_intro v props :
    type_of v = Some "object" → properties_obj v = Some props → required_declared v props → additional_ok v →
    (∀ k p, props !! k = Some p → checked_property p) →
    checked v
with checked_property : Value → Prop :=
| checked_free p : get p "type" = None → checked_property p
| checked_map p :
    type_of p = Some "object" → additional_ok p → enum_ok p → is_map_type p = true → checked_property p
| checked_nested p : type_of p = Some "object" → additional_ok p → enum_ok p → checked p → checked_property p
| checked_array p items :
    type_of p = Some "array" → additional_ok p → enum_ok p → get p "items" = Some items →
    (type_of items = Some "object" → checked items) → checked_property p
| checked_other p :
    is_Some (get p "type") → type_of p ≠ Some "object" → type_of p ≠ Some "array" → additional_ok p → enum_ok p →
    checked_property p.

(** ** Lemmas *)

Lemma omap_nil {A B} (f : A → option B) l : omap f l = [] ↔ ∀ x, x ∈ l → f x = None.
Proof.
  induction l as [|x l IH]; csimpl; [set_solver|]. setoid_rewrite elem_of_cons.
  destruct (f x) eqn:E; naive_solver.
Qed.

Lemma bind_nil {A B} (f : A → list B) l : l ≫= f = [] ↔ ∀ x, x ∈ l → f x = [].
Proof.
  induction l as [|x l IH]; csimpl; [set_solver|]. rewrite app_nil, IH. split.
  - intros [H1 H2] y [-> |Hy]%elem_of_cons; eauto.
  - intros H. split; [apply H; by left|]. intros y Hy. apply H. by right.
Qed.

Lemma required_nil v props path :
  from_option (λ required, validate_required_array required props path) [] (required_array v) = [] ↔ required_declared v props.
Proof.
  unfold required_declared, validate_required_array. destruct (required_array v) as [l|]; simpl; [|naive_solver].
  rewrite omap_nil. unfold contains_key. split.
  - intros H l' k [= <-] Hk. specialize (H _ Hk). simpl in H. by case_bool_decide.
  - intros H x Hx. destruct x; try done. simpl. rewrite bool_decide_eq_true_2; [done|]. by eapply H.
Qed.

Lemma type_of_depth v k x : get v k = Some x → depth x < depth v.
Proof. unfold get. destruct v; try done. simpl. intros H. by apply depth_member in H. Qed.

Lemma properties_depth v props k p : properties_obj v = Some props → props !! k = Some p → depth p < depth v.
Proof.
  unfold properties_obj. destruct (get v "properties") as [[| | | | |m]|] eqn:E; try done. intros [= <-] Hp%depth_member.
  apply type_of_depth in E. lia.
Qed.

Lemma option_list_nil {A} (o : option A) : option_list o = [] ↔ o = None.
Proof. by destruct o. Qed.

Lemma is_object_type_true v : is_object_type v = true ↔ type_of v = Some "object".
Proof. unfold is_object_type. apply bool_decide_eq_true. Qed.

(** ** The lenient validator decides its judgement *)

Lemma lenient_property_iff rec p path name :
  (∀ w pth, depth w ≤ depth p → rec w pth = [] ↔ lenient w) →
  validate_property_schema rec name p path = [] ↔ lenient_property p.
Proof.
  intros IH. unfold validate_property_schema, validate_array_items. cbv zeta. destruct (type_of p) as [t|] eqn:Et.
  2:{ split; [intros _; apply lenient_other; by rewrite Et|done]. }
  case_bool_decide as H1; [subst t|case_bool_decide as H2; [subst t|]].
  - rewrite IH by done. split; [by apply lenient_nested|]. inversion 1; subst; congruence.
  - destruct (get p "items") as [items|] eqn:Ei.
    2:{ split; [done|]. inversion 1; subst; congruence. }
    pose proof (type_of_depth _ _ _ Ei) as Hd. destruct (is_object_type items) eqn:Eo.
    + apply is_object_type_true in Eo. rewrite IH by lia. split; [intros; by eapply lenient_array|].
      inversion 1; subst; try congruence. assert (items0 = items) as -> by congruence. auto.
    + split; [intros _; eapply lenient_array; [done..|]|done]. intros H. apply is_object_type_true in H. congruence.
  - split; [intros _; apply lenient_other; congruence|done].
Qed.

Lemma lenient_body_iff rec v path :
  (∀ w pth, depth w < depth v → rec w pth = [] ↔ lenient w) → validate_tool_schema_body rec v path = [] ↔ lenient v.
Proof.
  intros IH. unfold validate_tool_schema_body. destruct (is_object_type v) eqn:Eo; simpl.
  2:{ split; [done|]. inversion 1; subst. apply is_object_type_true in H0. congruence. }
  apply is_object_type_true in Eo. destruct (properties_obj v) as [props|] eqn:Ep.
  2:{ split; [done|]. inversion 1; subst; congruence. }
  rewrite app_nil, required_nil, bind_nil. split.
  - intros [H1 H2]. eapply lenient_intro; [done..|]. intros k p Hp. pose proof (properties_depth _ _ _ _ Ep Hp).
    apply (lenient_property_iff rec p path k); [intros; apply IH; lia|]. by apply (H2 (k, p)), elem_of_sorted_entries.
  - inversion 1; subst. assert (props0 = props) as -> by congruence. split; [done|].
    intros [k p] Hp%elem_of_sorted_entries. pose proof (properties_depth _ _ _ _ Ep Hp).
    apply (lenient_property_iff rec p path k); [intros; apply IH; lia|eauto].
Qed.

Lemma lenient_fuel_iff fuel v path : depth v < fuel → validate_tool_schema_at fuel v path = [] ↔ lenient v.
Proof.
  revert v path. induction fuel as [|fuel IH]; intros v path Hv; [lia|]. simpl. apply lenient_body_iff.
  intros w pth Hw. apply IH. lia.
Qed.

(** ** The strict validator decides its judgement *)

Section StrictProofs.
Context (value_display : Value → string).

Lemma additional_none v path label : additional_properties_error v path label = None ↔ additional_ok v.
Proof.
  unfold additional_properties_error, additional_ok. destruct (get v "additionalProperties") as [a|]; [|naive_solver].
  destruct (bool_decide (a = JvBool false)) eqn:E1; simpl.
  { apply bool_decide_eq_true in E1. naive_solver. }
  apply bool_decide_eq_false in E1. destruct (get a "type") eqn:E2; case_bool_decide; unfold is_Some; naive_solver.
Qed.

Lemma enum_nil v t path : type_of v = Some t → check_enum_type_match value_display v t path = [] ↔ enum_ok v.
Proof.
  intros Ht. unfold check_enum_type_match, enum_ok. rewrite Ht. destruct (get v "enum") as [[| | | |l|]|]; simpl; try naive_solver.
  rewrite omap_nil. split.
  - intros H ? ? x [= <-] [= <-] [i Hi]%list_elem_of_lookup. destruct (enum_value_matches t x) eqn:E; [done|].
    specialize (H (Some (enum_error value_display path t i x))). simpl in H. exfalso.
    assert (Some (enum_error value_display path t i x) = None) as [=]. apply H. apply elem_of_lookup_imap.
    exists i, x. by rewrite E.
  - intros H o (i & x & -> & Hx)%elem_of_lookup_imap. rewrite (H t l x); [done..|]. by eapply list_elem_of_lookup_2.
Qed.

(** Nothing is declared about the values of a type that is not a string. *)
Lemma enum_untyped v path : type_of v = None → check_enum_type_match value_display v EmptyString path = [] ∧ enum_ok v.
Proof.
  intros Ht. unfold check_enum_type_match, enum_ok. split; [|naive_solver].
  destruct (get v "enum" ≫= as_array) as [l|]; [|done]. apply omap_nil.
  by intros o (i & x & -> & Hx)%elem_of_lookup_imap.
Qed.

Lemma checked_property_iff rec p path name :
  (∀ w pth, depth w ≤ depth p → rec w pth = [] ↔ checked w) →
  check_single_property value_display rec name p path = [] ↔ checked_property p.
Proof.
  intros IH. unfold check_single_property. cbv zeta. destruct (get p "type") as [t|] eqn:Et.
  2:{ split; [by intros _; apply checked_free|done]. }
  assert (type_of p = as_str t) as Hty by (unfold type_of; by rewrite Et).
  assert (is_Some (get p "type")) as Hs by by rewrite Et. rewrite !app_nil, option_list_nil, additional_none.
  destruct (as_str t) as [s|]; simpl.
  2:{ destruct (enum_untyped p (child path name) Hty) as [-> He]. split; [intros (Ha & _); by apply checked_other; rewrite ?Hty|].
      inversion 1; subst; try congruence. by split_and!. }
  rewrite (enum_nil _ s) by done. case_bool_decide as H1; [subst s|case_bool_decide as H2; [subst s|]].
  - rewrite bool_decide_eq_false_2 by done. destruct (is_map_type p) eqn:Em.
    + split; [intros (? & ? & _); by apply checked_map|]. inversion 1; subst; try congruence; by split_and!.
    + rewrite IH by done. split; [intros (? & ? & ? & _); by apply checked_nested|].
      inversion 1; subst; try congruence; by split_and!.
  - destruct (get p "items") as [items|] eqn:Ei.
    2:{ split; [by intros (_ & _ & _ & [=])|]. inversion 1; subst; congruence. }
    pose proof (type_of_depth _ _ _ Ei) as Hd. destruct (is_object_type items) eqn:Eo.
    + apply is_object_type_true in Eo. rewrite IH by lia. split; [intros (? & ? & _ & ?); by eapply checked_array|].
      inversion 1; subst; try congruence. assert (items0 = items) as -> by congruence. split_and!; auto.
    + split; [intros (? & ? & _); eapply checked_array; [done..|]|].
      * intros Hi. apply is_object_type_true in Hi. congruence.
      * inversion 1; subst; try congruence; by split_and!.
  - split; [intros (? & ? & _); apply checked_other; congruence || done|]. inversion 1; subst; try congruence; by split_and!.
Qed.

Lemma checked_body_iff rec v path :
  (∀ w pth, depth w < depth v → rec w pth = [] ↔ checked w) →
  check_object_schema_body value_display rec v path = [] ↔ checked v.
Proof.
  intros IH. unfold check_object_schema_body, check_required_keys. destruct (is_object_type v) eqn:Eo; simpl.
  2:{ split; [done|]. inversion 1 as [? ? Ht]; subst. apply is_object_type_true in Ht. congruence. }
  apply is_object_type_true in Eo. destruct (properties_obj v) as [props|] eqn:Ep.
  2:{ split; [done|]. inversion 1; subst; congruence. }
  pose proof (required_nil v props path) as Hr. unfold from_option in Hr.
  rewrite !app_nil, option_list_nil, additional_none, bind_nil. setoid_rewrite Hr. split.
  - intros (H1 & H2 & H3). eapply checked_intro; [done..|]. intros k p Hp. pose proof (properties_depth _ _ _ _ Ep Hp).
    apply (checked_property_iff rec p path k); [intros; apply IH; lia|]. by apply (H2 (k, p)), elem_of_sorted_entries.
  - inversion 1; subst. assert (props0 = props) as -> by congruence. split_and!; [done| |done].
    intros [k p] Hp%elem_of_sorted_entries. pose proof (properties_depth _ _ _ _ Ep Hp).
    apply (checked_property_iff rec p path k); [intros; apply IH; lia|eauto].
Qed.

Lemma checked_fuel_iff fuel v path : depth v < fuel → check_object_schema_at value_display fuel v path = [] ↔ checked v.
Proof.
  revert v path. induction fuel as [|fuel IH]; intros v path Hv; [lia|]. simpl. apply checked_body_iff.
  intros w pth Hw. apply IH. lia.
Qed.

(** What the validators accept.  The lenient one returns
    no violation iff at every level of nesting an object has its properties, each
    required key is one of them and an array has its items; the strict one iff the
    same holds, but that a nested object may instead list no properties and type
    its additional ones, and moreover each [enum] value has the declared type,
    [additionalProperties] is [false] or typed, and none of four keywords is at the
    top.  Neither looks into properties without a type. *)
Theorem validators_exact schema name :
  (validate_tool_schema schema name = [] ↔ lenient schema) ∧
  (validate_strict_schema value_display schema name = Ok tt ↔
     checked schema ∧ ∀ k, k ∈ ["anyOf"; "allOf"; "enum"; "not"] → get schema k = None).
Proof.
  split; [apply lenient_fuel_iff; lia|]. unfold validate_strict_schema.
  pose proof (checked_fuel_iff (S (depth schema)) schema name ltac:(lia)) as Hc.
  assert (forbidden_errors schema name = [] ↔ ∀ k, k ∈ ["anyOf"; "allOf"; "enum"; "not"] → get schema k = None) as Hf.
  { unfold forbidden_errors. rewrite omap_nil. apply forall_proper. intros k. destruct (get schema k); case_bool_decide; naive_solver. }
  rewrite <-Hc, <-Hf. set (a := forbidden_errors _ _). set (b := check_object_schema_at _ _ _ _).
  cbv zeta. rewrite (and_comm (b = [])), <-app_nil. by destruct (a ++ b).
Qed.
End StrictProofs.

(** A schema that has been normalised requires only declared keys. *)
Lemma normalized_required_declared schema props :
  properties_obj (normalize_schema_strict schema) = Some props → required_declared (normalize_schema_strict schema) props.
Proof.
  pose proof (normalize_is_strict (flatten_top_level_forbidden_keywords schema)) as H.
  change (normalize_schema_recursive _) with (normalize_schema_strict schema) in H.
  intros Hp l k Hl Hk. inversion H as [v Hv Heq|m Hsub Hfix Heq].
  { unfold properties_obj, get in Hp. by rewrite Hv in Hp. }
  rewrite <-Heq in *. unfold properties_obj, required_array, get in *. cbn [as_object mbind option_bind] in *.
  destruct Hfix as (ps & H1 & H2 & _).
  { right. destruct (m !! "properties"); [done|discriminate]. }
  rewrite H1 in Hp. rewrite H2 in Hl. simpl in *. injection Hp as <-. injection Hl as <-.
  apply list_elem_of_fmap in Hk as (k' & [= <-] & Hk'). by apply elem_of_sorted_keys.
Qed.

(** ** Examples *)

Definition string_schema : Value := JvObject {["type" := JvString "string"]}.

(** A map from strings to strings, as the one property [env]. *)
Definition map_schema : Value :=
  JvObject (<["type" := JvString "object"]> {["properties" := JvObject {["env" :=
    JvObject (<["type" := JvString "object"]> {["additionalProperties" := string_schema]})]}]}).

(** The strict validator accepts it and the lenient one does not. *)
Lemma map_type_only_strict :
  validate_strict_schema (λ _, "") map_schema "tool" = Ok tt ∧
  validate_tool_schema map_schema "tool" = [properties_error "tool.env"].
Proof. by vm_compute. Qed.

(** Two actions, one of which takes a title: the flattened schema offers both, and
    what only one of them requires may be null. *)
Definition action (name : string) : Value :=
  JvObject (<["type" := JvString "string"]> {["const" := JvString name]}).

Definition issue_schema : Value :=
  JvObject (<["type" := JvString "object"]> {["oneOf" := JvArray [
    JvObject (<["properties" := JvObject (<["action" := action "create"]> {["title" := string_schema]})]>
      {["required" := JvArray [JvString "action"; JvString "title"]]});
    JvObject (<["properties" := JvObject {["action" := action "list"]}]>
      {["required" := JvArray [JvString "action"]]})]]}).

Lemma issue_schema_normalized :
  normalize_schema_strict issue_schema =
  JvObject (<["type" := JvString "object"]> (<["additionalProperties" := JvBool false]>
    (<["required" := JvArray [JvString "action"; JvString "title"]]> {["properties" := JvObject (
      <["action" := JvObject (<["type" := JvString "string"]> {["enum" := JvArray [JvString "create"; JvString "list"]]})]>
      {["title" := JvObject {["type" := JvArray [JvString "string"; JvString "null"]]}]})]}))).
Proof. by vm_compute. Qed.
