(* ===== verification/Reasoning.v ===== *)
(** * Replies of the model

    Models what happens to the text of a reply before anyone sees it:
    [src/src/llm/reasoning/code_regions.rs] (code in the text),
    [tag_stripping.rs] and [cleaning.rs] (tags of reasoning and of tool calls are
    taken out), [truncation.rs] (an unclosed tool tag ends the text),
    [recovery.rs] (tool calls written as text) and [respond.rs] (the reply as text
    or as tool calls).

    Texts are byte strings and positions are byte offsets, as in the code.  The
    loops over a text get fuel; each round takes at least one byte.  The regular
    expressions are compiled by the class [RegexEngine]. *)

From S2P Require Import Prelude Text Externals LlmTypes JobState JobManager AgenticLoop.

(** ** Searching in strings *)

(** [s.find(p)] *)
Fixpoint str_find (s p : string) : option nat :=
  if starts_with s p then Some 0
  else match s with
       | EmptyString => None
       | String _ s => S <$> str_find s p
       end.

(** [s.rfind(c)] *)
Fixpoint str_rfind (s : string) (c : Ascii.ascii) : option nat :=
  match s with
  | EmptyString => None
  | String d s =>
      match str_rfind s c with
      | Some i => Some (S i)
      | None => if bool_decide (d = c) then Some 0 else None
      end
  end.

(** the number of bytes at the start that satisfy [p] *)
Fixpoint run_length (p : Ascii.ascii → bool) (s : string) : nat :=
  match s with
  | String c s => if p c then S (run_length p s) else 0
  | EmptyString => 0
  end.

(** ** Code regions *)

Record CodeRegion := { cr_start : nat; cr_end : nat }.
Record Fence := { fence_ch : Ascii.ascii; fence_len : nat }.

Definition is_space_or_tab (b : Ascii.ascii) : bool := bool_decide (b = byte 32) || bool_decide (b = byte 9).
Definition is_fence_char (b : Ascii.ascii) : bool := bool_decide (b = byte 96) || bool_decide (b = byte 126).

Definition skip_spaces_and_tabs (text : string) (i : nat) : nat := i + run_length is_space_or_tab (str_drop i text).

Definition fence_run_end (text : string) (i : nat) (ch : Ascii.ascii) : nat :=
  i + run_length (λ b, bool_decide (b = ch)) (str_drop i text).

Definition next_line_start (text : string) (from : nat) : option nat :=
  (λ nl, from + nl + 1) <$> str_find (str_drop from text) newline.

Definition parse_opening_fence (text : string) (line_start : nat) : option (Fence * nat) :=
  let run_start := skip_spaces_and_tabs text line_start in
  match String.get run_start text with
  | None => None
  | Some ch =>
      if negb (is_fence_char ch) then None
      else
        let run_end := fence_run_end text run_start ch in
        let len := run_end - run_start in
        if len <? 3 then None else Some ({| fence_ch := ch; fence_len := len |}, run_end)
  end.

Definition line_end_if_blank (text : string) (i : nat) : option nat :=
  let i := skip_spaces_and_tabs text i in
  match String.get i text with
  | None => Some i
  | Some b => if bool_decide (b = byte 10) then Some (S i) else None
  end.

Definition closing_fence_line_end (text : string) (line_start : nat) (fence : Fence) : option nat :=
  let run_start := skip_spaces_and_tabs text line_start in
  let run_end := fence_run_end text run_start (fence_ch fence) in
  if run_end - run_start <? fence_len fence then None else line_end_if_blank text run_end.

Fixpoint find_closing_fence (fuel : nat) (text : string) (line_start : nat) (fence : Fence) : option nat :=
  match fuel with
  | O => None
  | S fuel =>
      if line_start <? String.length text then
        match closing_fence_line_end text line_start fence with
        | Some end_ => Some end_
        | None =>
            match next_line_start text line_start with
            | Some next => find_closing_fence fuel text next fence
            | None => None
            end
        end
      else None
  end.

Definition at_line_start (text : string) (i : nat) : bool :=
  (i =? 0) || bool_decide (String.get (i - 1) text = Some (byte 10)).

Fixpoint find_fenced_regions (fuel : nat) (text : string) (i : nat) : list CodeRegion :=
  match fuel with
  | O => []
  | S fuel =>
      if i <? String.length text then
        match (if at_line_start text i then parse_opening_fence text i else None) with
        | None =>
            match next_line_start text i with
            | None => []
            | Some next => find_fenced_regions fuel text next
            end
        | Some (fence, run_end) =>
            match next_line_start text run_end with
            | None => [{| cr_start := i; cr_end := String.length text |}]
            | Some next =>
                let end_ := from_option id (String.length text)
                  (find_closing_fence (String.length text) text next fence) in
                {| cr_start := i; cr_end := end_ |} :: find_fenced_regions fuel text end_
            end
        end
      else []
  end.

Definition is_inside_code (pos : nat) (regions : list CodeRegion) : bool :=
  existsb (λ r, (cr_start r <=? pos) && (pos <? cr_end r)) regions.

Definition is_tick (b : Ascii.ascii) : bool := bool_decide (b = byte 96).

Fixpoint find_closing_backticks (fuel : nat) (text : string) (k tick_len : nat) : option nat :=
  match fuel with
  | O => None
  | S fuel =>
      match String.get k text with
      | None => None
      | Some b =>
          if negb (is_tick b) then find_closing_backticks fuel text (S k) tick_len
          else
            let close_end := k + run_length is_tick (str_drop k text) in
            if close_end - k =? tick_len then Some close_end
            else find_closing_backticks fuel text close_end tick_len
      end
  end.

Fixpoint append_inline_regions (fuel : nat) (text : string) (j : nat) (regions : list CodeRegion) : list CodeRegion :=
  match fuel with
  | O => regions
  | S fuel =>
      match String.get j text with
      | None => regions
      | Some b =>
          if negb (is_tick b) || is_inside_code j regions then append_inline_regions fuel text (S j) regions
          else
            let ticks_end := j + run_length is_tick (str_drop j text) in
            let tick_len := ticks_end - j in
            match find_closing_backticks (String.length text) text ticks_end tick_len with
            | Some end_ => append_inline_regions fuel text end_ (regions ++ [{| cr_start := j; cr_end := end_ |}])
            | None => append_inline_regions fuel text (j + tick_len) regions
            end
      end
  end.

Definition find_code_regions (text : string) : list CodeRegion :=
  let regions := append_inline_regions (String.length text) text 0 (find_fenced_regions (String.length text) text 0) in
  sort_by_key (λ r, Z.of_nat (cr_start r)) regions.

(** ** Taking tags out *)

Class RegexCaptures {RE : RegexEngine} := {
  (** [re.captures(s).and_then(|c| c.get(1))], as text *)
  first_group : regex → string → option string;
}.

Section Cleaning.
Context {RE : RegexEngine} {RC : RegexCaptures}.

Definition compile_tag_regex (pattern : string) : option regex :=
  match regex_new pattern with
  | Ok re => Some re
  | Err _ => None
  end.

Definition QUICK_TAG_RE : option regex := compile_tag_regex
  "(?i)<\s*/?\s*(?:think(?:ing)?|thought|thoughts|antthinking|reasoning|reflection|scratchpad|inner_monologue|final)\b".
Definition THINKING_TAG_RE : option regex := compile_tag_regex
  "(?i)<\s*(/?)\s*(?:think(?:ing)?|thought|thoughts|antthinking|reasoning|reflection|scratchpad|inner_monologue)\b[^<>]*>".
Definition FINAL_TAG_RE : option regex := compile_tag_regex "(?i)<\s*(/?)\s*final\b[^<>]*>".
Definition PIPE_REASONING_TAG_RE : option regex := compile_tag_regex
  "(?i)<\|(/?)\s*(?:think(?:ing)?|thought|thoughts|antthinking|reasoning|reflection|scratchpad|inner_monologue)\|>".

(** [RE.as_ref().is_some_and(|re| re.is_match(text))] *)
Definition re_matches (re : option regex) (text : string) : bool := from_option (λ re, is_match re text) false re.

Definition tag_is_close (re : regex) (at_ : string) : bool := bool_decide (first_group re at_ = Some "/").

Record TagScan := { ts_result : string; ts_tail_start : nat; ts_in_tag : bool }.

Definition tag_scan_new : TagScan := {| ts_result := EmptyString; ts_tail_start := 0; ts_in_tag := false |}.

Definition tag_scan_step (text : string) (re : regex) (s : TagScan) (m : nat * nat) : TagScan :=
  let is_close := tag_is_close re (str_drop m.1 text) in
  if negb (ts_in_tag s) then
    {| ts_result := ts_result s +:+ slice text (ts_tail_start s) m.1; ts_tail_start := m.2; ts_in_tag := negb is_close |}
  else
    {| ts_result := ts_result s; ts_tail_start := m.2; ts_in_tag := negb is_close |}.

(** the matches outside code *)
Definition tags_outside (re : regex) (text : string) (code_regions : list CodeRegion) : list (nat * nat) :=
  filter (λ m, is_inside_code m.1 code_regions = false) (find_iter re text).

Definition strip_tag_pairs (text : string) (re : regex) (code_regions : list CodeRegion) : TagScan :=
  foldl (tag_scan_step text re) tag_scan_new (tags_outside re text code_regions).

Record FinalScan := { fs_parts : list string; fs_in_final : bool; fs_last_index : nat; fs_found_any : bool }.

Definition final_scan_new : FinalScan :=
  {| fs_parts := []; fs_in_final := false; fs_last_index := 0; fs_found_any := false |}.

Definition final_scan_step (text : string) (re : regex) (s : FinalScan) (m : nat * nat) : FinalScan :=
  let is_close := tag_is_close re (str_drop m.1 text) in
  if negb (fs_in_final s) && negb is_close then
    {| fs_parts := fs_parts s; fs_in_final := true; fs_last_index := m.2; fs_found_any := true |}
  else if fs_in_final s && is_close then
    {| fs_parts := fs_parts s ++ [slice text (fs_last_index s) m.1]; fs_in_final := false; fs_last_index := m.2;
       fs_found_any := fs_found_any s |}
  else s.

Definition final_scan_finish (text : string) (s : FinalScan) : option string :=
  if negb (fs_found_any s) then None
  else Some (concat_all (if fs_in_final s then fs_parts s ++ [str_drop (fs_last_index s) text] else fs_parts s)).

Definition extract_final_content (text : string) (code_regions : list CodeRegion) : option string :=
  match FINAL_TAG_RE with
  | None => None
  | Some re => final_scan_finish text (foldl (final_scan_step text re) final_scan_new (tags_outside re text code_regions))
  end.

Definition strip_thinking_tags_regex (text : string) (code_regions : list CodeRegion) : string :=
  match THINKING_TAG_RE with
  | None => text
  | Some re =>
      let scan := strip_tag_pairs text re code_regions in
      let trailing := str_drop (ts_tail_start scan) text in
      if negb (ts_in_tag scan) then ts_result scan +:+ trailing
      else match extract_final_content trailing (find_code_regions trailing) with
           | Some final_content => ts_result scan +:+ final_content
           | None => ts_result scan
           end
  end.

Definition strip_pipe_reasoning_tags (text : string) : string :=
  match PIPE_REASONING_TAG_RE with
  | None => text
  | Some re =>
      if negb (is_match re text) then text
      else
        let scan := strip_tag_pairs text re (find_code_regions text) in
        if negb (ts_in_tag scan) then ts_result scan +:+ str_drop (ts_tail_start scan) text else ts_result scan
  end.

(** the next opening tag, without or with attributes *)
Definition next_open (remaining open_exact open_prefix : string) : option nat :=
  match str_find remaining open_exact, str_find remaining open_prefix with
  | Some a, Some b => Some (min a b)
  | Some a, None => Some a
  | None, b => b
  end.

Fixpoint strip_xml_loop (fuel : nat) (remaining tag : string) : string :=
  match fuel with
  | O => remaining
  | S fuel =>
      match next_open remaining ("<" +:+ tag +:+ ">") ("<" +:+ tag +:+ " ") with
      | None => remaining
      | Some start =>
          let before := str_take start remaining in
          match str_find (str_drop start remaining) ">" with
          | None => before +:+ remaining
          | Some pos =>
              let open_end := start + pos + 1 in
              let close := "</" +:+ tag +:+ ">" in
              match str_find (str_drop open_end remaining) close with
              | Some close_offset =>
                  before +:+ strip_xml_loop fuel (str_drop (open_end + close_offset + String.length close) remaining) tag
              | None => before
              end
          end
      end
  end.

Definition strip_xml_tag (text tag : string) : string := strip_xml_loop (S (String.length text)) text tag.

Fixpoint strip_pipe_loop (fuel : nat) (remaining tag : string) : string :=
  match fuel with
  | O => remaining
  | S fuel =>
      match str_find remaining ("<|" +:+ tag +:+ "|>") with
      | None => remaining
      | Some start =>
          let close := "<|/" +:+ tag +:+ "|>" in
          match str_find (str_drop start remaining) close with
          | Some close_offset =>
              str_take start remaining
              +:+ strip_pipe_loop fuel (str_drop (start + close_offset + String.length close) remaining) tag
          | None => str_take start remaining
          end
      end
  end.

Definition strip_pipe_tag (text tag : string) : string := strip_pipe_loop (S (String.length text)) text tag.

(** [[Called tool `] *)
Definition CALLED_TOOL : string := "[Called tool `".

Fixpoint strip_bracket_loop (fuel : nat) (remaining : string) : string :=
  match fuel with
  | O => remaining
  | S fuel =>
      match str_find remaining CALLED_TOOL with
      | None => remaining
      | Some start =>
          let after := str_drop start remaining in
          match (match str_find after ("]" +:+ newline) with
                 | Some i => Some (i + 2)
                 | None => S <$> str_rfind after (byte 93)
                 end) with
          | Some end_ => str_take start remaining +:+ strip_bracket_loop fuel (str_drop end_ after)
          | None => remaining
          end
      end
  end.

Definition strip_bracket_tool_calls (text : string) : string := strip_bracket_loop (S (String.length text)) text.

Definition three_newlines : string := newline +:+ newline +:+ newline.

Fixpoint collapse_loop (fuel : nat) (text : string) : string :=
  match fuel with
  | O => text
  | S fuel =>
      if contains text three_newlines then collapse_loop fuel (str_replace text three_newlines (newline +:+ newline)) else text
  end.

Definition collapse_newlines (text : string) : string := trim (collapse_loop (String.length text) text).

Definition TOOL_TAGS : list string := ["tool_call"; "function_call"; "tool_calls"].

(** steps 1 to 4 of [clean_response] *)
Definition strip_reasoning (text : string) : string :=
  if negb (re_matches QUICK_TAG_RE text) then text
  else
    let after_thinking := strip_thinking_tags_regex text (find_code_regions text) in
    if re_matches FINAL_TAG_RE after_thinking then
      from_option id after_thinking (extract_final_content after_thinking (find_code_regions after_thinking))
    else after_thinking.

Definition strip_tool_tags (text : string) : string :=
  foldl (λ result tag, strip_pipe_tag (strip_xml_tag result tag) tag) text TOOL_TAGS.

Definition clean_response (text : string) : string :=
  let result := strip_pipe_reasoning_tags (strip_reasoning text) in
  collapse_newlines (strip_bracket_tool_calls (strip_tool_tags result)).

(** ** Truncation at unclosed tool tags *)

Definition TOOL_TAG_PATTERNS : list string :=
  ["<tool_call>"; "<tool_call "; "<function_call>"; "<function_call "; "<tool_calls>"; "<tool_calls ";
   "<|tool_call|>"; "<|function_call|>"; "<|tool_calls|>"].

(** [s.trim_end_matches('>')] *)
Fixpoint trim_end_gt (s : string) : string :=
  match s with
  | EmptyString => EmptyString
  | String c s =>
      match trim_end_gt s with
      | EmptyString => if bool_decide (c = byte 62) then EmptyString else String c EmptyString
      | r => String c r
      end
  end.

Definition closing_tag_for (open_pattern : string) : option string :=
  match strip_prefix open_pattern "<|" ≫= (λ s, strip_suffix s "|>") with
  | Some name => Some ("<|/" +:+ name +:+ "|>")
  | None =>
      match strip_prefix open_pattern "<" with
      | Some rest => Some ("</" +:+ trim (trim_end_gt rest) +:+ ">")
      | None => None
      end
  end.

(** the first unclosed occurrence of [p] outside code, from [search_from] on *)
Fixpoint first_unclosed (fuel : nat) (lower : string) (code_regions : list CodeRegion) (p : string) (search_from : nat) :
    option nat :=
  match fuel with
  | O => None
  | S fuel =>
      match str_find (str_drop search_from lower) p with
      | None => None
      | Some offset =>
          let pos := search_from + offset in
          if is_inside_code pos code_regions then first_unclosed fuel lower code_regions p (pos + 1)
          else
            let after_open := pos + String.length p in
            if from_option (λ close, contains (str_drop after_open lower) close) false (closing_tag_for p)
            then first_unclosed fuel lower code_regions p after_open
            else Some pos
      end
  end.

Definition min_option (l : list nat) : option nat :=
  match l with
  | [] => None
  | x :: l => Some (foldl min x l)
  end.

Definition truncate_at_tool_tags (text : string) : string :=
  let code_regions := find_code_regions text in
  let lower := to_ascii_lowercase text in
  match min_option (omap (λ p, first_unclosed (S (String.length text)) lower code_regions p 0) TOOL_TAG_PATTERNS) with
  | Some pos => str_take pos text
  | None => text
  end.

(** ** The text of a reply *)

Definition cleaned_text (content : string) : string := clean_response (truncate_at_tool_tags content).

Definition FALLBACK : string := "I'm not sure how to respond to that.".

Definition cleaned_or_fallback (content : string) : string :=
  let cleaned := cleaned_text content in
  if bool_decide (trim cleaned = EmptyString) then FALLBACK else cleaned.
End Cleaning.

(** ** Tool calls written as text *)

Section Recovery.
Context {J : SerdeJson}.

Record TagPair := { tp_open : string; tp_close : string }.

Definition push_recovered_call (calls : list ToolCall) (name : string) (arguments : json) : list ToolCall :=
  calls ++ [{| tc_id := "recovered_" +:+ pretty (length calls); tc_name := name; tc_arguments := arguments |}].

Definition parse_json_tool_call (inner : string) (tool_names : gset string) : option (string * json) :=
  parsed ← json_from_str inner;
  name ← json_get parsed "name" ≫= json_as_string;
  if decide (name ∈ tool_names) then Some (name, from_option id json_empty (json_get parsed "arguments")) else None.

(** one delimited text *)
Definition recover_inner (inner : string) (tool_names : gset string) (calls : list ToolCall) : list ToolCall :=
  if bool_decide (inner = EmptyString) then calls
  else match parse_json_tool_call inner tool_names with
       | Some (name, arguments) => push_recovered_call calls name arguments
       | None =>
           let name := trim inner in
           if decide (name ∈ tool_names) then push_recovered_call calls name json_empty else calls
       end.

Fixpoint recover_tagged_loop (fuel : nat) (remaining : string) (tags : TagPair) (tool_names : gset string)
    (calls : list ToolCall) : list ToolCall :=
  match fuel with
  | O => calls
  | S fuel =>
      match str_find remaining (tp_open tags) with
      | None => calls
      | Some start =>
          let after := str_drop (start + String.length (tp_open tags)) remaining in
          match str_find after (tp_close tags) with
          | None => calls
          | Some end_ =>
              recover_tagged_loop fuel (str_drop (end_ + String.length (tp_close tags)) after) tags tool_names
                (recover_inner (trim (str_take end_ after)) tool_names calls)
          end
      end
  end.

Definition recover_tagged_calls (content : string) (tags : TagPair) (tool_names : gset string) (calls : list ToolCall) :
    list ToolCall :=
  recover_tagged_loop (S (String.length content)) content tags tool_names calls.

Definition parse_bracket_arguments (after_name : string) : option (json * string) :=
  args_start ← strip_prefix after_name " with arguments: ";
  bracket_end ← str_rfind args_start (byte 93);
  Some (from_option id json_empty (json_from_str (str_take bracket_end args_start)), str_drop (S bracket_end) args_start).

Fixpoint recover_bracket_loop (fuel : nat) (remaining : string) (tool_names : gset string) (calls : list ToolCall) :
    list ToolCall :=
  match fuel with
  | O => calls
  | S fuel =>
      match str_find remaining CALLED_TOOL with
      | None => calls
      | Some start =>
          let after_prefix := str_drop (start + String.length CALLED_TOOL) remaining in
          match str_find after_prefix "`" with
          | None => calls
          | Some backtick_end =>
              let name := str_take backtick_end after_prefix in
              let after_name := str_drop (S backtick_end) after_prefix in
              if decide (name ∈ tool_names) then
                match parse_bracket_arguments after_name with
                | Some (arguments, rest) => recover_bracket_loop fuel rest tool_names (push_recovered_call calls name arguments)
                | None => recover_bracket_loop fuel after_name tool_names (push_recovered_call calls name json_empty)
                end
              else recover_bracket_loop fuel after_name tool_names calls
          end
      end
  end.

Definition recover_bracket_calls (content : string) (tool_names : gset string) (calls : list ToolCall) : list ToolCall :=
  recover_bracket_loop (S (String.length content)) content tool_names calls.

Definition TAG_PAIRS : list TagPair :=
  [{| tp_open := "<tool_call>"; tp_close := "</tool_call>" |};
   {| tp_open := "<|tool_call|>"; tp_close := "<|/tool_call|>" |};
   {| tp_open := "<function_call>"; tp_close := "</function_call>" |};
   {| tp_open := "<|function_call|>"; tp_close := "<|/function_call|>" |}].

Definition recover_tool_calls_from_content (content : string) (available_tools : list ToolDefinition) : list ToolCall :=
  let tool_names : gset string := list_to_set (td_name <$> available_tools) in
  let calls := foldl (λ calls tags, recover_tagged_calls content tags tool_names calls) [] TAG_PAIRS in
  recover_bracket_calls content tool_names calls.
End Recovery.

(** ** A reply *)

Section Respond.
Context {J : SerdeJson} {D : RustDecimal} {RE : RegexEngine} {RC : RegexCaptures}.
Context {P : Type} `{!LlmProvider P}.

(** [0.7] as the bits of an [f32] *)
Definition RESPOND_TEMPERATURE : Z := 0x3F333333.

Definition is_system (m : ChatMessage) : bool := bool_decide (role m = System).

Definition blank_line : string := newline +:+ newline.

Definition merge_system_messages (primary : string) (context_messages : list ChatMessage) : string :=
  match content <$> filter (λ m, is_system m = true) context_messages with
  | [] => primary
  | extra => primary +:+ blank_line +:+ "---" +:+ blank_line +:+ join blank_line extra
  end.

(** [system_prompt_for] is the prompt built from the identity files, the channel and
    the tools. *)
Definition build_conversation (system_prompt_for : list ToolDefinition → string) (context : ReasoningContext) :
    list ChatMessage :=
  let prompt := match system_prompt context with
    | Some prompt => prompt
    | None => system_prompt_for (available_tools context)
    end in
  msg_system (merge_system_messages prompt (rc_messages context))
  :: filter (λ m, is_system m = false) (rc_messages context).

Definition respond_via_completion (context : ReasoningContext) (messages : list ChatMessage) (llm : P) (now : Instant) :
    P * Instant * result RespondOutput LlmError :=
  let request := {| req_messages := messages; req_stop_sequences := None; req_model := None;
    req_max_tokens := Some 4096%Z; req_temperature := Some RESPOND_TEMPERATURE; req_metadata := rc_metadata context |} in
  let '(llm, now, res) := complete llm now request in
  (llm, now, match res with
    | Err e => Err e
    | Ok response => Ok {| ro_result := RText (cleaned_or_fallback (resp_content response));
        ro_usage := {| tu_input := resp_input_tokens response; tu_output := resp_output_tokens response;
          tu_cache_read := resp_cache_read_input_tokens response;
          tu_cache_creation := resp_cache_creation_input_tokens response |} |}
    end).

(** what the answer of the model becomes *)
Definition tool_completion_result (available : list ToolDefinition) (response : ToolCompletionResponse) : RespondResult :=
  match tresp_tool_calls response with
  | _ :: _ => RToolCalls (tresp_tool_calls response) (cleaned_text <$> tresp_content response)
  | [] =>
      let content := from_option id FALLBACK (tresp_content response) in
      match recover_tool_calls_from_content content available with
      | [] => RText (cleaned_or_fallback content)
      | recovered =>
          let cleaned := cleaned_text content in
          RToolCalls recovered (if bool_decide (cleaned = EmptyString) then None else Some cleaned)
      end
  end.

Definition respond_via_tool_completion (context : ReasoningContext) (messages : list ChatMessage)
    (effective_tools : list ToolDefinition) (llm : P) (now : Instant) : P * Instant * result RespondOutput LlmError :=
  let request := {| treq_messages := messages; treq_tools := effective_tools; treq_tool_choice := Some "auto";
    treq_model := None; treq_max_tokens := Some 4096%Z; treq_temperature := Some RESPOND_TEMPERATURE;
    treq_metadata := rc_metadata context |} in
  let '(llm, now, res) := complete_with_tools llm now request in
  (llm, now, match res with
    | Err e => Err e
    | Ok response => Ok {| ro_result := tool_completion_result (available_tools context) response;
        ro_usage := {| tu_input := tresp_input_tokens response; tu_output := tresp_output_tokens response;
          tu_cache_read := tresp_cache_read_input_tokens response;
          tu_cache_creation := tresp_cache_creation_input_tokens response |} |}
    end).

Definition respond_with_tools (system_prompt_for : list ToolDefinition → string) (context : ReasoningContext) (llm : P)
    (now : Instant) : P * Instant * result RespondOutput LlmError :=
  let messages := build_conversation system_prompt_for context in
  match (if force_text context then [] else available_tools context) with
  | [] => respond_via_completion context messages llm now
  | effective_tools => respond_via_tool_completion context messages effective_tools llm now
  end.

(** [respond]: tool calls as text *)
Definition respond (system_prompt_for : list ToolDefinition → string) (context : ReasoningContext) (llm : P) (now : Instant) :
    P * Instant * result string LlmError :=
  let '(llm, now, res) := respond_with_tools system_prompt_for context llm now in
  (llm, now, match res with
    | Err e => Err e
    | Ok output =>
        Ok (match ro_result output with
            | RText text => text
            | RToolCalls calls _ =>
                "[Calling tools: " +:+ join ", " ((λ c, "`" +:+ tc_name c +:+ "(" +:+ json_to_string (tc_arguments c) +:+ ")`") <$> calls)
                +:+ "]"
            end)
    end).

(** [Reasoning::complete] *)
Definition reasoning_complete (request : CompletionRequest) (llm : P) (now : Instant) :
    P * Instant * result (string * TokenUsage) LlmError :=
  let '(llm, now, res) := complete llm now request in
  (llm, now, match res with
    | Err e => Err e
    | Ok response => Ok (cleaned_text (resp_content response),
        {| tu_input := resp_input_tokens response; tu_output := resp_output_tokens response;
           tu_cache_read := resp_cache_read_input_tokens response;
           tu_cache_creation := resp_cache_creation_input_tokens response |})
    end).
End Respond.

(** ** Lemmas on searching *)

Lemma str_find_starts s p i : str_find s p = Some i → starts_with (str_drop i s) p = true ∧ i + String.length p ≤ String.length s.
Proof.
  revert i. induction s as [|c s IH]; intros i; simpl.
  - destruct (starts_with "" p) eqn:E; [|done]. intros [= <-]. split; [done|].
    apply starts_with_spec in E as [r E]. destruct p; [simpl; lia|done].
  - destruct (starts_with (String c s) p) eqn:E.
    + intros [= <-]. split; [done|]. apply starts_with_spec in E as [r E]. apply (f_equal String.length) in E.
      rewrite str_length_app in E. simpl in *. lia.
    + intros H. apply fmap_Some in H as (j & Hj & ->). apply IH in Hj as [H1 H2]. split; [done|lia].
Qed.

Lemma str_find_none s p : str_find s p = None ↔ contains s p = false.
Proof.
  induction s as [|c s IH]; simpl; [by destruct (starts_with "" p)|].
  destruct (starts_with (String c s) p); [done|]. rewrite fmap_None, IH. done.
Qed.

Lemma str_find_first s p i j : str_find s p = Some i → starts_with (str_drop j s) p = true → i ≤ j.
Proof.
  revert i j. induction s as [|c s IH]; intros i j; simpl.
  - destruct (starts_with "" p); [intros [= <-]; lia|done].
  - destruct (starts_with (String c s) p) eqn:E; [intros [= <-]; lia|]. intros H Hj.
    apply fmap_Some in H as (k & Hk & ->). destruct j as [|j]; [simpl in Hj; congruence|]. simpl in Hj.
    specialize (IH _ _ Hk Hj). lia.
Qed.

Lemma str_rfind_bound s c i : str_rfind s c = Some i → i < String.length s.
Proof.
  revert i. induction s as [|d s IH]; intros i; simpl; [done|]. destruct (str_rfind s c) as [j|].
  - intros [= <-]. specialize (IH j eq_refl). lia.
  - case_bool_decide; [|done]. intros [= <-]. lia.
Qed.

Lemma run_length_le p s : run_length p s ≤ String.length s.
Proof. induction s as [|c s IH]; simpl; [lia|]. case_match; lia. Qed.

Lemma get_is_Some s i : (∃ c, String.get i s = Some c) ↔ i < String.length s.
Proof.
  revert i. induction s as [|c s IH]; intros [|i]; simpl; [..|].
  - split; [by intros []|lia].
  - split; [by intros []|lia].
  - split; [lia|eauto].
  - rewrite IH. lia.
Qed.

Lemma str_drop_length s : str_drop (String.length s) s = "".
Proof. by induction s. Qed.

Lemma str_drop_drop a b s : str_drop a (str_drop b s) = str_drop (b + a) s.
Proof. revert s. induction b as [|b IH]; intros [|c s]; simpl; [done..| |apply IH]. by destruct a. Qed.

(** ** Code regions *)

(** Regions in order, each not empty, within the text. *)
Inductive regions_from (len : nat) : nat → list CodeRegion → Prop :=
| regions_nil from : regions_from len from []
| regions_cons from r rs :
    from ≤ cr_start r → cr_start r < cr_end r → cr_end r ≤ len → regions_from len (cr_end r) rs →
    regions_from len from (r :: rs).

Lemma next_line_start_bound text from next :
  next_line_start text from = Some next → from < next ≤ String.length text.
Proof.
  unfold next_line_start. intros H. apply fmap_Some in H as (nl & Hnl & ->). apply str_find_starts in Hnl as [_ Hnl].
  rewrite str_length_drop in Hnl. change (String.length newline) with 1 in Hnl. lia.
Qed.

Lemma skip_spaces_bound text i : i ≤ String.length text → i ≤ skip_spaces_and_tabs text i ≤ String.length text.
Proof. intros. unfold skip_spaces_and_tabs. pose proof (run_length_le is_space_or_tab (str_drop i text)). rewrite str_length_drop in *. lia. Qed.

Lemma fence_run_bound text i ch : i ≤ String.length text → i ≤ fence_run_end text i ch ≤ String.length text.
Proof.
  intros. unfold fence_run_end. pose proof (run_length_le (λ b, bool_decide (b = ch)) (str_drop i text)).
  rewrite str_length_drop in *. lia.
Qed.

Lemma parse_opening_fence_bound text i fence run_end :
  i ≤ String.length text → parse_opening_fence text i = Some (fence, run_end) →
  i + 3 ≤ run_end ≤ String.length text ∧ 3 ≤ fence_len fence.
Proof.
  intros Hi. unfold parse_opening_fence. cbv zeta. pose proof (skip_spaces_bound text i Hi).
  destruct (String.get _ text) as [ch|]; [|done]. destruct (negb (is_fence_char ch)); [done|].
  pose proof (fence_run_bound text (skip_spaces_and_tabs text i) ch).
  destruct (Nat.ltb_spec (fence_run_end text (skip_spaces_and_tabs text i) ch - skip_spaces_and_tabs text i) 3); [done|].
  intros [= <- <-]. simpl. lia.
Qed.

Lemma line_end_bound text i j : i ≤ String.length text → line_end_if_blank text i = Some j → i ≤ j ≤ String.length text.
Proof.
  intros Hi. unfold line_end_if_blank. cbv zeta. pose proof (skip_spaces_bound text i Hi).
  destruct (String.get (skip_spaces_and_tabs text i) text) as [b|] eqn:E; [|intros [= <-]; lia].
  assert (skip_spaces_and_tabs text i < String.length text) by (apply get_is_Some; eauto).
  case_bool_decide; [|done]. intros [= <-]. lia.
Qed.

Lemma find_closing_fence_bound fuel text from fence end_ :
  0 < fence_len fence → find_closing_fence fuel text from fence = Some end_ → from < end_ ≤ String.length text.
Proof.
  intros Hlen. revert from. induction fuel as [|fuel IH]; intros from; simpl; [done|].
  destruct (Nat.ltb_spec from (String.length text)) as [Hfrom|]; [|done].
  destruct (closing_fence_line_end text from fence) as [e|] eqn:E.
  - intros [= <-]. unfold closing_fence_line_end in E. cbv zeta in E.
    pose proof (skip_spaces_bound text from ltac:(lia)).
    pose proof (fence_run_bound text (skip_spaces_and_tabs text from) (fence_ch fence) ltac:(lia)).
    case_match eqn:Hl; [done|]. apply Nat.ltb_ge in Hl. apply line_end_bound in E; lia.
  - destruct (next_line_start text from) as [next|] eqn:En; [|done]. intros H%IH.
    apply next_line_start_bound in En. lia.
Qed.

Lemma fenced_regions_from fuel text i : regions_from (String.length text) i (find_fenced_regions fuel text i).
Proof.
  assert (∀ len a b rs, a ≤ b → regions_from len b rs → regions_from len a rs) as Hweak.
  { intros len a b rs Hab H. inversion H; subst; constructor; done || lia. }
  revert i. induction fuel as [|fuel IH]; intros i; simpl; [constructor|].
  destruct (Nat.ltb_spec i (String.length text)); [|constructor].
  destruct (if at_line_start text i then _ else _) as [[fence run_end]|] eqn:Ef.
  - destruct (at_line_start text i); [|done]. apply parse_opening_fence_bound in Ef as [Hr Hl]; [|lia].
    destruct (next_line_start text run_end) as [next|] eqn:En.
    + apply next_line_start_bound in En. set (end_ := from_option _ _ _).
      assert (i < end_ ≤ String.length text) as Hend.
      { unfold end_. destruct (find_closing_fence _ _ _ _) as [e|] eqn:Ec; simpl; [|lia].
        apply find_closing_fence_bound in Ec; lia. }
      constructor; simpl; [lia..|apply IH].
    + constructor; simpl; [lia..|constructor].
  - destruct (next_line_start text i) as [next|] eqn:En; [|constructor].
    apply next_line_start_bound in En. apply (Hweak _ i next); [lia|apply IH].
Qed.

(** ** The fuel is enough *)

Lemma closing_fence_fuel n m text i fence :
  String.length text - i ≤ n → String.length text - i ≤ m → find_closing_fence n text i fence = find_closing_fence m text i fence.
Proof.
  revert m i. induction n as [|n IH]; intros [|m] i Hn Hm; simpl; try done;
    destruct (Nat.ltb_spec i (String.length text)); try done || lia.
  case_match; [done|]. destruct (next_line_start text i) as [next|] eqn:E; [|done].
  apply next_line_start_bound in E. apply IH; lia.
Qed.

Lemma fenced_regions_fuel n m text i :
  String.length text - i ≤ n → String.length text - i ≤ m → find_fenced_regions n text i = find_fenced_regions m text i.
Proof.
  revert m i. induction n as [|n IH]; intros [|m] i Hn Hm; simpl; try done;
    destruct (Nat.ltb_spec i (String.length text)) as [Hi|Hi]; try done || lia.
  destruct (if at_line_start text i then _ else _) as [[fence run_end]|] eqn:Ef.
  - destruct (at_line_start text i); [|done]. apply parse_opening_fence_bound in Ef as [Hr Hl]; [|lia].
    destruct (next_line_start text run_end) as [next|] eqn:En; [|done]. apply next_line_start_bound in En.
    f_equal. destruct (find_closing_fence _ _ _ _) as [e|] eqn:Ec; simpl; [|apply IH; lia].
    apply find_closing_fence_bound in Ec; [apply IH; lia|lia].
  - destruct (next_line_start text i) as [next|] eqn:En; [|done]. apply next_line_start_bound in En. apply IH; lia.
Qed.

(** Loops that go on with a shorter rest of the text. *)
Section Shorter.
Context {RE : RegexEngine} {RC : RegexCaptures}.

Lemma next_open_bound remaining a b start :
  next_open remaining a b = Some start → start + min (String.length a) (String.length b) ≤ String.length remaining.
Proof.
  unfold next_open. destruct (str_find remaining a) as [i|] eqn:Ea, (str_find remaining b) as [j|] eqn:Eb;
    intros [= <-]; try apply str_find_starts in Ea as [_ Ea]; try apply str_find_starts in Eb as [_ Eb]; lia.
Qed.

Lemma strip_xml_fuel n m s tag : String.length s < n → String.length s < m → strip_xml_loop n s tag = strip_xml_loop m s tag.
Proof.
  revert m s. induction n as [|n IH]; intros [|m] s Hn Hm; [lia..|]. cbn [strip_xml_loop].
  destruct (next_open _ _ _) as [start|] eqn:Es; [|done]. destruct (str_find _ ">") as [pos|] eqn:Ep; [|done]. cbv zeta.
  destruct (str_find _ ("</" +:+ tag +:+ ">")) as [off|] eqn:Eo; [|done]. f_equal.
  apply str_find_starts in Eo as [_ Eo]. rewrite str_length_drop, !str_length_app in Eo. simpl String.length in Eo.
  apply IH; rewrite str_length_drop, !str_length_app; simpl String.length; lia.
Qed.

Lemma strip_pipe_fuel n m s tag : String.length s < n → String.length s < m → strip_pipe_loop n s tag = strip_pipe_loop m s tag.
Proof.
  revert m s. induction n as [|n IH]; intros [|m] s Hn Hm; [lia..|]. cbn [strip_pipe_loop].
  destruct (str_find s _) as [start|] eqn:Es; [|done]. cbv zeta.
  destruct (str_find (str_drop start s) _) as [off|] eqn:Eo; [|done]. f_equal.
  apply str_find_starts in Eo as [_ Eo]. rewrite str_length_drop, !str_length_app in Eo. simpl String.length in Eo.
  apply IH; rewrite str_length_drop, !str_length_app; simpl String.length; lia.
Qed.

Lemma strip_bracket_fuel n m s : String.length s < n → String.length s < m → strip_bracket_loop n s = strip_bracket_loop m s.
Proof.
  revert m s. induction n as [|n IH]; intros [|m] s Hn Hm; [lia..|]. cbn [strip_bracket_loop].
  destruct (str_find s _) as [start|] eqn:Es; [|done]. cbv zeta. apply str_find_starts in Es as [_ Es].
  change (String.length CALLED_TOOL) with 14 in Es.
  destruct (match str_find _ _ with Some _ => _ | None => _ end) as [e|] eqn:Ee; [|done]. f_equal.
  assert (0 < e) as He by (destruct (str_find _ _); [injection Ee as <-; lia|];
    apply fmap_Some in Ee as (k & _ & ->); lia).
  apply IH; rewrite !str_length_drop; lia.
Qed.

Lemma first_unclosed_fuel n m lower regions p from :
  0 < String.length p → String.length lower - from < n → String.length lower - from < m →
  first_unclosed n lower regions p from = first_unclosed m lower regions p from.
Proof.
  intros Hp. revert m from. induction n as [|n IH]; intros [|m] from Hn Hm; [lia..|]. cbn [first_unclosed].
  destruct (str_find _ p) as [off|] eqn:Eo; [|done]. apply str_find_starts in Eo as [_ Eo]. rewrite str_length_drop in Eo.
  cbv zeta. case_match; [apply IH; lia|]. case_match; [apply IH; lia|done].
Qed.
End Shorter.

Section RecoveryFuel.
Context {J : SerdeJson}.

Lemma recover_tagged_fuel n m s tags names calls :
  0 < String.length (tp_open tags) → String.length s < n → String.length s < m →
  recover_tagged_loop n s tags names calls = recover_tagged_loop m s tags names calls.
Proof.
  intros Hp. revert m s calls. induction n as [|n IH]; intros [|m] s calls Hn Hm; [lia..|]. cbn [recover_tagged_loop].
  destruct (str_find s _) as [start|] eqn:Es; [|done]. cbv zeta. apply str_find_starts in Es as [_ Es].
  case_match; [|done]. apply IH; rewrite !str_length_drop; lia.
Qed.

Lemma recover_bracket_fuel n m s names calls :
  String.length s < n → String.length s < m → recover_bracket_loop n s names calls = recover_bracket_loop m s names calls.
Proof.
  revert m s calls. induction n as [|n IH]; intros [|m] s calls Hn Hm; [lia..|]. cbn [recover_bracket_loop].
  destruct (str_find s _) as [start|] eqn:Es; [|done]. cbv zeta. apply str_find_starts in Es as [_ Es].
  change (String.length CALLED_TOOL) with 14 in *. destruct (str_find _ "`") as [b|] eqn:Eb; [|done].
  assert (String.length (str_drop (S b) (str_drop (start + 14) s)) < String.length s) as Hlen by (rewrite !str_length_drop; lia).
  destruct (decide _); [|apply IH; lia]. destruct (parse_bracket_arguments _) as [[arguments rest]|] eqn:Ep; [|apply IH; lia].
  unfold parse_bracket_arguments in Ep. apply bind_Some in Ep as (args & Ha & Ep). apply bind_Some in Ep as (k & Hk & Hrest).
  assert (rest = str_drop (S k) args) as -> by congruence.
  apply strip_prefix_spec in Ha. apply (f_equal String.length) in Ha. rewrite str_length_app in Ha.
  apply IH; rewrite str_length_drop; lia.
Qed.
End RecoveryFuel.

(** ** Which bytes are kept *)

(** the bytes of [s], which begins at [i], whose positions satisfy [p] *)
Fixpoint keep (p : nat → bool) (i : nat) (s : string) : string :=
  match s with
  | EmptyString => EmptyString
  | String c s => if p i then String c (keep p (S i) s) else keep p (S i) s
  end.

Lemma keep_app p i s t : keep p i (s +:+ t) = keep p i s +:+ keep p (i + String.length s) t.
Proof.
  revert i. induction s as [|c s IH]; intros i; simpl; [by rewrite Nat.add_0_r|].
  rewrite IH, <-Nat.add_succ_comm. by case_match.
Qed.

Lemma keep_const (b : bool) p i s :
  (∀ j, i ≤ j < i + String.length s → p j = b) → keep p i s = if b then s else "".
Proof.
  revert i. induction s as [|c s IH]; intros i Hp; simpl; [by destruct b|].
  rewrite Hp by (simpl; lia). rewrite IH by (intros; apply Hp; simpl; lia). by destruct b.
Qed.

Lemma keep_ext p q i s : (∀ j, i ≤ j → p j = q j) → keep p i s = keep q i s.
Proof.
  revert i. induction s as [|c s IH]; intros i H; simpl; [done|]. rewrite H by lia. by rewrite (IH (S i)) by (intros; apply H; lia).
Qed.

Section Visible.
Context {RE : RegexEngine} {RC : RegexCaptures}.
Context (text : string) (re : regex).

(** Whether a reader may see the byte at [i], given the tags: the last tag that begins
    at or before [i] ends before it and is a closing one; before any tag, unless the
    text begins inside one. *)
Definition visible (tags : list (nat * nat)) (hidden : bool) (i : nat) : bool :=
  match last (filter (λ m : nat * nat, m.1 ≤ i) tags) with
  | None => negb hidden
  | Some m => (m.2 <=? i) && tag_is_close re (str_drop m.1 text)
  end.

Lemma spans_start a len l m : spans_from a len l → m ∈ l → a ≤ m.1.
Proof.
  intros H. induction H as [|from len a b l Ha Hab Hb Hl IH]; intros Hm; [by apply elem_of_nil in Hm|].
  apply elem_of_cons in Hm as [-> |Hm]; [done|]. specialize (IH Hm). lia.
Qed.

Lemma spans_filter_below (l : list (nat * nat)) a len i :
  spans_from a len l → i < a → filter (λ m : nat * nat, m.1 ≤ i) l = [].
Proof.
  intros H Hi. apply list_filter_none. intros m Hm. pose proof (spans_start _ _ _ _ H Hm). lia.
Qed.

Lemma visible_cons a b l hidden i :
  spans_from b (String.length text) l → a ≤ b →
  visible ((a, b) :: l) hidden i =
    if i <? a then negb hidden
    else if i <? b then false
    else visible l (negb (tag_is_close re (str_drop a text))) i.
Proof.
  intros Hl Hab. unfold visible. destruct (Nat.ltb_spec i a) as [Hi|Hi].
  { rewrite filter_cons_False by (simpl; lia). by rewrite (spans_filter_below _ b (String.length text)) by done || lia. }
  rewrite filter_cons_True by (simpl; lia). destruct (Nat.ltb_spec i b) as [Hb|Hb].
  { rewrite (spans_filter_below _ b (String.length text)) by done. simpl. by destruct (Nat.leb_spec b i); [lia|]. }
  destruct (filter _ l) as [|m ms] eqn:E.
  { simpl. rewrite negb_involutive. by destruct (Nat.leb_spec b i); [|lia]. }
  change (last ((a, b) :: m :: ms)) with (last (m :: ms)). by destruct (last (m :: ms)) eqn:El; [|apply last_None in El].
Qed.

Lemma slice_from a b : a ≤ b → b ≤ String.length text → str_drop a text = slice text a b +:+ str_drop b text.
Proof.
  intros Hab Hb. unfold slice. rewrite <-(str_take_drop (b - a) (str_drop a text)) at 1. rewrite str_drop_drop.
  by replace (a + (b - a)) with b by lia.
Qed.

Lemma slice_length a b : a ≤ b → b ≤ String.length text → String.length (slice text a b) = b - a.
Proof. intros. unfold slice. rewrite str_length_take, str_length_drop. lia. Qed.

Lemma scan_keeps_visible tags s :
  spans_from (ts_tail_start s) (String.length text) tags →
  let s' := foldl (tag_scan_step text re) s tags in
  ts_result s' +:+ (if ts_in_tag s' then "" else str_drop (ts_tail_start s') text) =
  ts_result s +:+ keep (visible tags (ts_in_tag s)) (ts_tail_start s) (str_drop (ts_tail_start s) text).
Proof.
  revert s. induction tags as [|[a b] tags IH]; intros s Hs.
  { cbn [foldl]. cbv zeta. f_equal. rewrite (keep_const (negb (ts_in_tag s))) by done. by destruct (ts_in_tag s). }
  inversion Hs as [|? ? ? ? ? Ha Hab Hb Htags]; subst. cbn [foldl]. cbv zeta. rewrite IH; cbn [fst snd].
  2:{ unfold tag_scan_step. by destruct (negb (ts_in_tag s)). }
  assert (ts_tail_start (tag_scan_step text re s (a, b)) = b ∧
          ts_in_tag (tag_scan_step text re s (a, b)) = negb (tag_is_close re (str_drop a text)) ∧
          ts_result (tag_scan_step text re s (a, b)) = ts_result s +:+ (if ts_in_tag s then "" else slice text (ts_tail_start s) a))
    as (-> & -> & ->).
  { unfold tag_scan_step. destruct (ts_in_tag s); simpl; split_and!; try done. by rewrite str_app_nil_r. }
  assert (str_drop (ts_tail_start s) text = slice text (ts_tail_start s) a +:+ slice text a b +:+ str_drop b text) as Hsplit
    by (rewrite <-(slice_from a b) by lia; apply slice_from; lia).
  rewrite Hsplit.
  rewrite !keep_app, !slice_length, str_app_assoc by lia. f_equal.
  replace (ts_tail_start s + (a - ts_tail_start s)) with a by lia. replace (a + (b - a)) with b by lia. f_equal.
  { rewrite (keep_const (negb (ts_in_tag s))); [by destruct (ts_in_tag s)|]. intros j Hj. rewrite slice_length in Hj by lia.
    rewrite visible_cons by done. by destruct (Nat.ltb_spec j a); [|lia]. }
  rewrite (keep_const false _ a); [rewrite str_app_nil|].
  - apply keep_ext. intros j Hj. rewrite visible_cons by done. destruct (Nat.ltb_spec j a), (Nat.ltb_spec j b); done || lia.
  - intros j Hj. rewrite slice_length in Hj by lia. rewrite visible_cons by done.
    destruct (Nat.ltb_spec j a), (Nat.ltb_spec j b); done || lia.
Qed.
End Visible.

Lemma spans_weaken a b len l : a ≤ b → spans_from b len l → spans_from a len l.
Proof. intros Hab H. inversion H; subst; constructor; done || lia. Qed.

Lemma spans_filter (Q : nat * nat → Prop) `{∀ m, Decision (Q m)} a len l :
  spans_from a len l → spans_from a len (filter Q l).
Proof.
  intros Hl. induction Hl as [|from len a b l Ha Hab Hb Hl IH]; [constructor|]. destruct (decide (Q (a, b))).
  - rewrite filter_cons_True by done. by constructor.
  - rewrite filter_cons_False by done. eapply spans_weaken; [|done]. lia.
Qed.

Section CleaningProofs.
Context {RE : RegexEngine} {RC : RegexCaptures}.

Lemma strip_pairs_visible text re regions :
  let scan := strip_tag_pairs text re regions in
  ts_result scan +:+ (if ts_in_tag scan then "" else str_drop (ts_tail_start scan) text) =
  keep (visible text re (tags_outside re text regions) false) 0 text.
Proof.
  apply (scan_keeps_visible text re (tags_outside re text regions) tag_scan_new).
  unfold tags_outside. apply spans_filter, find_iter_ordered.
Qed.

(** C13. Reasoning is taken out exactly.  Of a text, a byte is kept unless it lies in a
    reasoning tag, or the last such tag before it is an opening one; tags inside code
    do not count.  This is what the stripping of [<|think|>] tags returns; that of
    [<think>] tags returns the same, and behind it, when the text ends inside an
    unclosed tag, the [<final>] part of what follows that tag. *)
Theorem reasoning_hidden text regions :
  match PIPE_REASONING_TAG_RE with
  | None => strip_pipe_reasoning_tags text = text
  | Some re =>
      strip_pipe_reasoning_tags text =
      if is_match re text then keep (visible text re (tags_outside re text (find_code_regions text)) false) 0 text else text
  end ∧
  match THINKING_TAG_RE with
  | None => strip_thinking_tags_regex text regions = text
  | Some re =>
      let scan := strip_tag_pairs text re regions in
      let rest := str_drop (ts_tail_start scan) text in
      strip_thinking_tags_regex text regions =
      keep (visible text re (tags_outside re text regions) false) 0 text
      +:+ (if ts_in_tag scan then from_option id "" (extract_final_content rest (find_code_regions rest)) else "")
  end.
Proof.
  split.
  - unfold strip_pipe_reasoning_tags. destruct PIPE_REASONING_TAG_RE as [re|]; [|done].
    destruct (is_match re text); [simpl|done]. rewrite <-strip_pairs_visible. cbv zeta.
    destruct (ts_in_tag _); simpl; [by rewrite str_app_nil_r|done].
  - unfold strip_thinking_tags_regex. destruct THINKING_TAG_RE as [re|]; [|done]. cbv zeta.
    rewrite <-strip_pairs_visible. cbv zeta. destruct (ts_in_tag _); simpl; rewrite !str_app_nil_r; [|done].
    destruct (extract_final_content _ _); simpl; by rewrite ?str_app_nil_r.
Qed.
End CleaningProofs.

(** ** Blank lines *)

Lemma trim_start_suffix s : ∃ a, s = a +:+ trim_start s.
Proof.
  unfold trim_start. generalize (String.length s) as n. intros n. revert s.
  induction n as [|n IH]; intros s; cbn [trim_start_fuel]; [by exists ""|].
  destruct (ws_len s) as [|k]; [by exists ""|]. destruct (IH (str_drop (S k) s)) as [a Ha].
  exists (str_take (S k) s +:+ a). rewrite str_app_assoc, <-Ha. by rewrite str_take_drop.
Qed.

Lemma trim_end_prefix s : ∃ b, s = trim_end s +:+ b.
Proof.
  induction s as [|c s [b IH]]; simpl; [by exists ""|]. case_bool_decide; [by exists (String c s)|].
  exists b. change (String c s = String c (trim_end s +:+ b)). by rewrite <-IH.
Qed.

Lemma trim_contains s p : contains s p = false → contains (trim s) p = false.
Proof.
  intros H. apply not_true_iff_false. rewrite contains_spec. intros (a & b & E). apply not_true_iff_false in H. apply H.
  apply contains_spec. destruct (trim_start_suffix s) as [x Hx], (trim_end_prefix (trim_start s)) as [y Hy].
  exists (x +:+ a), (b +:+ y). rewrite Hx, Hy. unfold trim in E. rewrite E, !str_app_assoc. done.
Qed.

Lemma replace_fuel_length fuel s p r :
  String.length r < String.length p → String.length s ≤ fuel →
  String.length (replace_fuel fuel s p r) + (if contains s p then 1 else 0) ≤ String.length s.
Proof.
  intros Hr. revert s. induction fuel as [|fuel IH]; intros s Hs.
  { destruct s; [|simpl in Hs; lia]. simpl. destruct p; [simpl in Hr; lia|done]. }
  destruct s as [|c s]; [by destruct p; [simpl in Hr; lia|]|]. cbn [replace_fuel].
  destruct (strip_prefix (String c s) p) as [rest|] eqn:E.
  - apply strip_prefix_spec in E. apply (f_equal String.length) in E. rewrite str_length_app in *.
    simpl in E, Hs. simpl String.length at 3. specialize (IH rest ltac:(lia)). destruct (contains (String c s) p), (contains rest p); lia.
  - assert (starts_with (String c s) p = false) as Hn.
    { apply not_true_iff_false. intros [x Hx]%starts_with_spec. assert (strip_prefix (String c s) p = Some x) by (by apply strip_prefix_spec).
      congruence. }
    simpl in Hs. specialize (IH s ltac:(lia)). cbn [String.length contains]. rewrite Hn. simpl. lia.
Qed.

Lemma collapse_loop_done fuel s : String.length s ≤ fuel → contains (collapse_loop fuel s) three_newlines = false.
Proof.
  revert s. induction fuel as [|fuel IH]; intros s Hs; simpl; [by destruct s; [|simpl in Hs; lia]|].
  destruct (contains s three_newlines) eqn:E; [|done]. apply IH.
  pose proof (replace_fuel_length (String.length s) s three_newlines (newline +:+ newline) ltac:(simpl; lia) ltac:(lia)) as H.
  rewrite E in H. unfold str_replace. lia.
Qed.

Lemma collapse_newlines_done s : contains (collapse_newlines s) three_newlines = false.
Proof. unfold collapse_newlines. by apply trim_contains, collapse_loop_done. Qed.

(** ** Truncation *)

Section TruncationProofs.
Context {RE : RegexEngine} {RC : RegexCaptures}.

(** An occurrence of the tool tag [p] at [pos], outside code, that nothing closes. *)
Definition unclosed_at (text p : string) (pos : nat) : Prop :=
  let lower := to_ascii_lowercase text in
  starts_with (str_drop pos lower) p = true ∧ is_inside_code pos (find_code_regions text) = false ∧
  ∀ close, closing_tag_for p = Some close → contains (str_drop (pos + String.length p) lower) close = false.

(** Tags begin with [<] and have no other one. *)
Definition single_lt (p : string) : bool :=
  match p with
  | String c p => bool_decide (c = byte 60) && negb (has_char (byte 60) p)
  | EmptyString => false
  end.

Lemma get_drop k n s : String.get k (str_drop n s) = String.get (n + k) s.
Proof. revert s. induction n as [|n IH]; intros [|c s]; simpl; [by destruct k..|apply IH]. Qed.

Lemma get_prefix s p k : starts_with s p = true → k < String.length p → String.get k s = String.get k p.
Proof.
  intros [r ->]%starts_with_spec. revert k. induction p as [|c p IH]; intros [|k]; simpl; try lia; [done|].
  intros. apply IH. lia.
Qed.

Lemma get_has_char s k c : String.get k s = Some c → has_char c s = true.
Proof.
  revert k. induction s as [|d s IH]; intros [|k]; simpl; try done.
  - intros [= ->]. by rewrite bool_decide_eq_true_2.
  - intros H%IH. by rewrite H, orb_true_r.
Qed.

(** Two occurrences of a tag do not overlap. *)
Lemma occurrences_apart s p i j :
  single_lt p = true → starts_with (str_drop i s) p = true → starts_with (str_drop j s) p = true → i < j →
  i + String.length p ≤ j.
Proof.
  intros Hp Hi Hj Hij. destruct p as [|c p]; [done|]. simpl in Hp. apply andb_true_iff in Hp as [Hc Hn].
  apply bool_decide_eq_true in Hc as ->. apply negb_true_iff in Hn.
  destruct (decide (j < i + String.length (String (byte 60) p))) as [Hlt|]; [|lia]. exfalso.
  assert (String.get (j - i) (String (byte 60) p) = Some (byte 60)) as Hg.
  { rewrite <-(get_prefix _ _ _ Hi) by lia. rewrite get_drop. replace (i + (j - i)) with (j + 0) by lia.
    rewrite <-get_drop, (get_prefix _ _ _ Hj); [done|simpl; lia]. }
  replace (j - i) with (S (j - i - 1)) in Hg by lia. simpl in Hg. apply get_has_char in Hg. congruence.
Qed.

Lemma starts_with_bound s p i : starts_with (str_drop i s) p = true → 0 < String.length p → i + String.length p ≤ String.length s.
Proof.
  intros [r E]%starts_with_spec Hp. apply (f_equal String.length) in E. rewrite str_length_drop, str_length_app in E. lia.
Qed.

Lemma to_ascii_lowercase_length s : String.length (to_ascii_lowercase s) = String.length s.
Proof. unfold to_ascii_lowercase. induction s as [|c s IH]; simpl; [done|]. by rewrite IH. Qed.

Lemma first_unclosed_spec text p fuel from :
  single_lt p = true → String.length text - from < fuel →
  match first_unclosed fuel (to_ascii_lowercase text) (find_code_regions text) p from with
  | Some pos => unclosed_at text p pos ∧ ∀ pos', from ≤ pos' → unclosed_at text p pos' → pos ≤ pos'
  | None => ∀ pos', from ≤ pos' → ¬ unclosed_at text p pos'
  end.
Proof.
  intros Hp. assert (0 < String.length p) as Hlen by (destruct p; [done|simpl; lia]). revert from.
  set (lower := to_ascii_lowercase text). assert (String.length lower = String.length text) as Hl by apply to_ascii_lowercase_length.
  induction fuel as [|fuel IH]; intros from Hf; [lia|]. cbn [first_unclosed].
  destruct (str_find (str_drop from lower) p) as [off|] eqn:Eo.
  2:{ intros pos' Hpos (H1 & _). apply str_find_none, not_true_iff_false in Eo. apply Eo. apply contains_spec.
      apply starts_with_spec in H1 as [r H1]. exists (slice lower from pos'), r.
      rewrite <-H1. fold lower. apply slice_from; [done|].
      destruct (decide (pos' ≤ String.length lower)); [done|]. exfalso. fold lower in H1.
      apply (f_equal String.length) in H1. rewrite str_length_drop, str_length_app in H1. lia. }
  pose proof (str_find_starts _ _ _ Eo) as [Hs Hb]. rewrite str_drop_drop, str_length_drop in *. cbv zeta.
  assert (∀ pos', from ≤ pos' → starts_with (str_drop pos' lower) p = true → from + off ≤ pos') as Hfirst.
  { intros pos' Hpos Hp'. apply (str_find_first _ _ _ (pos' - from)) in Eo; [lia|].
    rewrite str_drop_drop. by replace (from + (pos' - from)) with pos' by lia. }
  assert (∀ next, (∀ pos', from + off ≤ pos' → starts_with (str_drop pos' lower) p = true → pos' < next → ¬ unclosed_at text p pos') →
    ∀ pos', from ≤ pos' → unclosed_at text p pos' → next ≤ pos') as Hskip.
  { intros next Hnext pos' Hpos Hu. destruct (decide (next ≤ pos')); [done|]. exfalso. destruct (Hu) as (Hu1 & _).
    apply (Hnext pos'); [by apply Hfirst|done|lia|done]. }
  assert (∀ next, String.length text - next < fuel →
    (∀ pos', from ≤ pos' → unclosed_at text p pos' → next ≤ pos') →
    match first_unclosed fuel lower (find_code_regions text) p next with
    | Some pos => unclosed_at text p pos ∧ ∀ pos', from ≤ pos' → unclosed_at text p pos' → pos ≤ pos'
    | None => ∀ pos', from ≤ pos' → ¬ unclosed_at text p pos'
    end) as Hgo.
  { intros next Hn Hnext. specialize (IH next Hn). destruct (first_unclosed _ _ _ _ next) as [pos|].
    - destruct IH as [H1 H2]. split; [done|]. eauto.
    - intros pos' Hpos Hu. by apply (IH pos'); [apply Hnext|]. }
  destruct (is_inside_code (from + off) (find_code_regions text)) eqn:Ec.
  { apply Hgo; [lia|]. apply Hskip. intros pos' H1 H2 H3 (_ & Hu & _). assert (pos' = from + off) as -> by lia. congruence. }
  destruct (closing_tag_for p) as [close|] eqn:Ecl; simpl.
  2:{ split; [|intros; apply Hfirst; [done|]; by destruct H0]. split_and!; [done|done|]. congruence. }
  destruct (contains _ close) eqn:Econt.
  - apply Hgo; [lia|]. apply Hskip. intros pos' H1 H2 H3 (_ & _ & Hu). specialize (Hu close Ecl). fold lower in Hu.
    destruct (decide (pos' = from + off)) as [->|Hne]; [congruence|].
    pose proof (occurrences_apart lower p (from + off) pos' Hp Hs H2 ltac:(lia)). lia.
  - split; [|intros pos' Hpos (Hu & _); by apply Hfirst]. split_and!; [done|done|]. intros c. rewrite Ecl. by intros [= <-].
Qed.

(** Truncation cuts at the first unclosed tool tag.  Either no tool tag outside code is
    left unclosed, and the text is unchanged; or what is kept is the text before the
    first of them, of whatever kind. *)
Theorem truncation_exact text :
  (truncate_at_tool_tags text = text ∧ ∀ p pos, p ∈ TOOL_TAG_PATTERNS → ¬ unclosed_at text p pos) ∨
  (∃ p pos, p ∈ TOOL_TAG_PATTERNS ∧ unclosed_at text p pos ∧ truncate_at_tool_tags text = str_take pos text ∧
     ∀ p' pos', p' ∈ TOOL_TAG_PATTERNS → unclosed_at text p' pos' → pos ≤ pos').
Proof.
  unfold truncate_at_tool_tags. cbv zeta. set (f := λ p, first_unclosed _ _ _ p 0).
  assert (∀ p, p ∈ TOOL_TAG_PATTERNS → match f p with
    | Some pos => unclosed_at text p pos ∧ ∀ pos', unclosed_at text p pos' → pos ≤ pos'
    | None => ∀ pos', ¬ unclosed_at text p pos'
    end) as Hf.
  { intros p Hp. assert (single_lt p = true) as Hs by (revert p Hp; apply Forall_forall, (bool_decide_unpack _); vm_compute; exact I).
    pose proof (first_unclosed_spec text p (S (String.length text)) 0 Hs ltac:(lia)) as H. unfold f.
    destruct (first_unclosed _ _ _ p 0); [split; [apply H|intros; apply H; [lia|done]]|intros; apply H; lia]. }
  assert (∀ l, match min_option l with
    | Some x => x ∈ l ∧ ∀ y, y ∈ l → x ≤ y
    | None => l = []
    end) as Hmin.
  { intros [|x l]; simpl; [done|]. revert x. induction l as [|y l IH]; intros x; simpl; [set_solver by lia|].
    destruct (IH (min x y)) as [H1 H2]. split.
    - apply elem_of_cons in H1 as [-> |H1]; [|by do 2 right]. destruct (Nat.min_dec x y) as [-> | ->]; [left|right; left].
    - intros z Hz. assert (foldl min (min x y) l ≤ min x y) by (apply H2; left).
      apply elem_of_cons in Hz as [-> |[-> |Hz]%elem_of_cons]; [lia..|]. apply H2. by right. }
  specialize (Hmin (omap f TOOL_TAG_PATTERNS)). destruct (min_option _) as [pos|].
  - right. destruct Hmin as [H1 H2]. apply list_elem_of_omap in H1 as (p & Hp & Ep). pose proof (Hf p Hp) as Hfp. rewrite Ep in Hfp.
    exists p, pos. split_and!; [done|apply Hfp|done|]. intros p' pos' Hp' Hu. pose proof (Hf p' Hp') as Hfp'.
    destruct (f p') as [q|] eqn:Eq; [|by destruct (Hfp' pos')]. transitivity q; [|by apply Hfp'].
    apply H2, list_elem_of_omap. by exists p'.
  - left. split; [done|]. intros p pos Hp. specialize (Hf p Hp). destruct (f p) as [q|] eqn:Eq; [|done].
    assert (q ∈ omap f TOOL_TAG_PATTERNS) as Hq by (apply list_elem_of_omap; by exists p). rewrite Hmin in Hq. set_solver.
Qed.
End TruncationProofs.

(** ** Tool calls of a reply *)

Section RecoveryProofs.
Context {J : SerdeJson}.

(** Calls that were read from the text: numbered from zero, each of a known tool. *)
Definition recovered_calls (names : gset string) (calls : list ToolCall) : Prop :=
  ∀ i c, calls !! i = Some c → tc_id c = "recovered_" +:+ pretty i ∧ tc_name c ∈ names.

Lemma push_recovered_ok names calls name arguments :
  recovered_calls names calls → name ∈ names → recovered_calls names (push_recovered_call calls name arguments).
Proof.
  intros H Hn i c Hi. unfold push_recovered_call in Hi. apply lookup_app_Some in Hi as [Hi|[Hle Hi]]; [by apply H|].
  apply list_lookup_singleton_Some in Hi as [Hi <-]. simpl. by replace i with (length calls) by lia.
Qed.

Lemma recover_inner_ok inner names calls : recovered_calls names calls → recovered_calls names (recover_inner inner names calls).
Proof.
  intros H. unfold recover_inner. case_bool_decide; [done|]. destruct (parse_json_tool_call inner names) as [[name arguments]|] eqn:E.
  - apply push_recovered_ok; [done|]. unfold parse_json_tool_call in E. apply bind_Some in E as (v & _ & E).
    apply bind_Some in E as (n & _ & E). case_decide; [|done]. by injection E as <- _.
  - cbv zeta. case_decide; [by apply push_recovered_ok|done].
Qed.

Lemma recover_tagged_ok fuel s tags names calls :
  recovered_calls names calls → recovered_calls names (recover_tagged_loop fuel s tags names calls).
Proof.
  revert s calls. induction fuel as [|fuel IH]; intros s calls H; [done|]. cbn [recover_tagged_loop]. cbv zeta.
  repeat (case_match; [|done]). by apply IH, recover_inner_ok.
Qed.

Lemma recover_bracket_ok fuel s names calls :
  recovered_calls names calls → recovered_calls names (recover_bracket_loop fuel s names calls).
Proof.
  revert s calls. induction fuel as [|fuel IH]; intros s calls H; [done|]. cbn [recover_bracket_loop]. cbv zeta.
  destruct (str_find s _); [|done]. destruct (str_find _ "`"); [|done]. case_decide as Hn; [|by apply IH].
  destruct (parse_bracket_arguments _) as [[? ?]|]; by apply IH, push_recovered_ok.
Qed.

Lemma recover_ok content available :
  recovered_calls (list_to_set (td_name <$> available)) (recover_tool_calls_from_content content available).
Proof.
  unfold recover_tool_calls_from_content. cbv zeta. apply recover_bracket_ok. unfold TAG_PAIRS. cbn [foldl].
  by repeat apply recover_tagged_ok.
Qed.

(** The identifiers of recovered calls differ. *)
Lemma recovered_ids_distinct names calls : recovered_calls names calls → NoDup (tc_id <$> calls).
Proof.
  intros H. apply NoDup_alt. intros i j x Hi Hj. apply list_lookup_fmap_Some in Hi as (c & -> & Hc), Hj as (d & Hd & Hd').
  apply H in Hc as [Hc _]. apply H in Hd' as [Hd' _]. rewrite Hc, Hd' in Hd. apply str_app_inj_l in Hd; [|done].
  destruct Hd as [_ Hd]. by apply (inj pretty) in Hd.
Qed.
End RecoveryProofs.

Section Gate.
Context {J : SerdeJson} {D : RustDecimal} {RE : RegexEngine} {RC : RegexCaptures}.
Context {P : Type} `{!LlmProvider P}.

(** A text fit to be shown. *)
Definition spoken (t : string) : Prop := trim t ≠ "" ∧ contains t three_newlines = false.

Lemma cleaned_or_fallback_spoken content : spoken (cleaned_or_fallback content).
Proof.
  unfold cleaned_or_fallback. cbv zeta. case_bool_decide as H; [split; vm_compute; done|].
  split; [done|]. apply collapse_newlines_done.
Qed.

Definition recovered_reply (context : ReasoningContext) (calls : list ToolCall) (text : option string) : Prop :=
  recovered_calls (list_to_set (td_name <$> available_tools context)) calls ∧ NoDup (tc_id <$> calls) ∧ text ≠ Some "".

End Gate.

(** ** Examples *)

Section Examples.
#[local] Existing Instance literal_regex.
#[local] Existing Instance json_lite.

Definition no_groups : RegexCaptures := {| first_group _ _ := None |}.
#[local] Existing Instance no_groups.

(** A tool tag is taken out of the text; one that is left open ends it. *)
Lemma cleaning_example :
  cleaned_text "Done <tool_call>list</tool_call>, bye" = "Done , bye" ∧ cleaned_text "Let me see <tool_call>list" = "Let me see".
Proof. by vm_compute. Qed.

(** A tag with a space and no end, which is left alone by the truncation because it is
    inside code: the text before it is repeated. *)
Lemma unended_tag_repeats : cleaned_text "Use `<tool_call ` now" = "Use `Use `<tool_call ` now".
Proof. by vm_compute. Qed.

(** Taking out a tag may put another one together. *)
Lemma tag_put_together : cleaned_text "Done <tool_<tool_call></tool_call>call>x" = "Done <tool_call>x".
Proof. by vm_compute. Qed.

Definition example_tool (name : string) : ToolDefinition :=
  {| td_name := name; td_description := ""; td_parameters := JNull |}.

Definition two_calls : string :=
  "[Called tool `a` with arguments: 1]" +:+ newline +:+ "[Called tool `b` with arguments: 2]".

(** The arguments of the first of two calls in brackets extend to the last bracket of
    the text, and the second call is lost. *)
Lemma second_bracket_call_lost :
  (λ c, (tc_name c, json_to_string (tc_arguments c))) <$> recover_tool_calls_from_content two_calls [example_tool "a"; example_tool "b"]
  = [("a", "1]" +:+ newline +:+ "[Called tool `b` with arguments: 2")].
Proof. by vm_compute. Qed.
End Examples.
