(* ===== verification/Scheduler.v ===== *)
(** * The job scheduler

    Models [src/src/agent/scheduler.rs] with its modules [dispatch.rs],
    [shutdown.rs] and [subtasks.rs]: creating and dispatching jobs, the table of
    running workers with its limit, stopping and cancelling, the clean-up tasks, and
    tool calls as sub-tasks.

    A worker is a task with a handle, the index into the list of all workers ever
    spawned.  What the code does under one lock is one function; [stop] and the
    clean-up of a worker consist of several, between which others run, so the
    scheduler as a whole is a step relation with one step per function. *)

From S2P Require Import Prelude Text Externals LlmTypes JobState JobManager RateLimiter Hooks.
From S2P Require Import LeakDetector Safety MessageRebuild ToolExec.

(** ** State *)

Inductive WorkerMessage :=
| WmStart
| WmStop
| WmPing
| WmUserMessage (content : string).

#[export] Instance worker_message_eq_dec : EqDecision WorkerMessage.
Proof. solve_decision. Defined.

(** A spawned worker: its job, what was sent to it, and whether it was told to abort
    and has ended. *)
Record WorkerTask := {
  wt_job : Uuid;
  wt_inbox : list WorkerMessage;
  wt_aborted : bool;
  wt_finished : bool;
}.

Record ScheduledJob := { sj_handle : nat; sj_pending_cancel_persist : bool }.

Section Scheduler.
Context {J : SerdeJson} {D : RustDecimal}.

Record Scheduler := {
  sc_max_parallel_jobs : nat;
  sc_max_tokens_per_job : Z;
  sc_manager : ContextManager;
  (** the status of each job in the database, if there is one *)
  sc_store : option (gmap Uuid JobState);
  sc_jobs : gmap Uuid ScheduledJob;
  sc_workers : list WorkerTask;
}.

Definition set_sc_manager (m : ContextManager) (s : Scheduler) : Scheduler := {|
  sc_max_parallel_jobs := sc_max_parallel_jobs s; sc_max_tokens_per_job := sc_max_tokens_per_job s;
  sc_manager := m; sc_store := sc_store s; sc_jobs := sc_jobs s; sc_workers := sc_workers s |}.
Definition set_sc_store (v : option (gmap Uuid JobState)) (s : Scheduler) : Scheduler := {|
  sc_max_parallel_jobs := sc_max_parallel_jobs s; sc_max_tokens_per_job := sc_max_tokens_per_job s;
  sc_manager := sc_manager s; sc_store := v; sc_jobs := sc_jobs s; sc_workers := sc_workers s |}.
Definition set_sc_jobs (v : gmap Uuid ScheduledJob) (s : Scheduler) : Scheduler := {|
  sc_max_parallel_jobs := sc_max_parallel_jobs s; sc_max_tokens_per_job := sc_max_tokens_per_job s;
  sc_manager := sc_manager s; sc_store := sc_store s; sc_jobs := v; sc_workers := sc_workers s |}.
Definition set_sc_workers (v : list WorkerTask) (s : Scheduler) : Scheduler := {|
  sc_max_parallel_jobs := sc_max_parallel_jobs s; sc_max_tokens_per_job := sc_max_tokens_per_job s;
  sc_manager := sc_manager s; sc_store := sc_store s; sc_jobs := sc_jobs s; sc_workers := v |}.

Definition is_finished (s : Scheduler) (h : nat) : bool := from_option wt_finished true (sc_workers s !! h).

(** [handle.abort()] *)
Definition abort_task (w : WorkerTask) : WorkerTask :=
  {| wt_job := wt_job w; wt_inbox := wt_inbox w; wt_aborted := true; wt_finished := wt_finished w |}.
Definition abort (h : nat) (s : Scheduler) : Scheduler := set_sc_workers (alter abort_task h (sc_workers s)) s.

Definition deliver_message (msg : WorkerMessage) (w : WorkerTask) : WorkerTask :=
  {| wt_job := wt_job w; wt_inbox := wt_inbox w ++ [msg]; wt_aborted := wt_aborted w; wt_finished := wt_finished w |}.

(** [tx.send(msg)] to the worker [h]; [delivered] tells whether the channel took it. *)
Definition send (delivered : bool) (msg : WorkerMessage) (h : nat) (s : Scheduler) : Scheduler :=
  if delivered then set_sc_workers (alter (deliver_message msg) h (sc_workers s)) s else s.

(** ** Dispatch *)

(** The part of [schedule_with_context] under the lock on the table; [None] for a job
    that is in the table already. *)
Definition schedule_locked (id : Uuid) (now1 now2 : Utc) (started : bool) (s : Scheduler) :
    Scheduler * result (option nat) JobError :=
  match sc_jobs s !! id with
  | Some _ => (s, Ok None)
  | None =>
      if sc_max_parallel_jobs s <=? size (sc_jobs s) then (s, Err (MaxJobsExceeded (sc_max_parallel_jobs s)))
      else
        match update_context (sc_manager s) id (λ c, transition_to c InProgress (Some "Scheduled for execution") now1 now2) with
        | (m, Err e) => (set_sc_manager m s, Err e)
        | (m, Ok (Err reason)) => (set_sc_manager m s, Err (ContextError id reason))
        | (m, Ok (Ok _)) =>
            let h := length (sc_workers s) in
            let worker := {| wt_job := id; wt_inbox := []; wt_aborted := false; wt_finished := false |} in
            let s := set_sc_workers (sc_workers s ++ [worker]) (set_sc_manager m s) in
            let s := send started WmStart h s in
            (set_sc_jobs (<[id := {| sj_handle := h; sj_pending_cancel_persist := false |}]> (sc_jobs s)) s, Ok (Some h))
        end
  end.

Definition schedule_with_context (id : Uuid) (now1 now2 : Utc) (started : bool) (s : Scheduler) :
    Scheduler * result unit JobError :=
  match schedule_locked id now1 now2 started s with
  | (s, Ok _) => (s, Ok tt)
  | (s, Err e) => (s, Err e)
  end.

(** [v.as_u64()] *)
Definition metadata_max_tokens (metadata : option json) : option Z :=
  m ← metadata;
  v ← json_get m "max_tokens";
  match json_view v with
  | VNumber text => parse_unsigned u64_max text
  | _ => None
  end.

Definition job_max_tokens (cap : Z) (metadata : option json) : Z :=
  match metadata_max_tokens metadata with
  | Some user_val => if (cap =? 0)%Z then user_val else Z.min user_val cap
  | None => cap
  end.

Definition set_metadata (v : json) (c : JobContext) : JobContext := {|
  job_id := job_id c; state := state c; user_id := user_id c; conversation_id := conversation_id c; title := title c;
  description := description c; category := category c; budget := budget c; budget_token := budget_token c;
  bid_amount := bid_amount c; estimated_cost := estimated_cost c; estimated_duration := estimated_duration c;
  actual_cost := actual_cost c; total_tokens_used := total_tokens_used c; max_tokens := max_tokens c;
  created_at := created_at c; started_at := started_at c; completed_at := completed_at c;
  repair_attempts := repair_attempts c; transitions := transitions c; metadata := v; extra_env := extra_env c;
  http_interceptor := http_interceptor c; tool_output_stash := tool_output_stash c; user_timezone := user_timezone c |}.

Definition set_max_tokens (v : Z) (c : JobContext) : JobContext := {|
  job_id := job_id c; state := state c; user_id := user_id c; conversation_id := conversation_id c; title := title c;
  description := description c; category := category c; budget := budget c; budget_token := budget_token c;
  bid_amount := bid_amount c; estimated_cost := estimated_cost c; estimated_duration := estimated_duration c;
  actual_cost := actual_cost c; total_tokens_used := total_tokens_used c; max_tokens := v;
  created_at := created_at c; started_at := started_at c; completed_at := completed_at c;
  repair_attempts := repair_attempts c; transitions := transitions c; metadata := metadata c; extra_env := extra_env c;
  http_interceptor := http_interceptor c; tool_output_stash := tool_output_stash c; user_timezone := user_timezone c |}.

Definition apply_budget (metadata : option json) (max_tokens : Z) (c : JobContext) : JobContext :=
  let c := match metadata with Some meta => set_metadata meta c | None => c end in
  if (0 <? max_tokens)%Z then set_max_tokens max_tokens c else c.

Record JobRequest := { jr_user_id : string; jr_title : string; jr_description : string; jr_metadata : option json }.

(** What the environment contributes to a dispatch: the id and the clock readings, and
    whether the database takes the job and the channel the first message. *)
Record DispatchInputs := {
  di_fresh : Uuid; di_created : Utc; di_now1 : Utc; di_now2 : Utc; di_saved : result unit string; di_started : bool;
}.

(** [store.save_job] *)
Definition save_job (id : Uuid) (saved : result unit string) (s : Scheduler) : Scheduler * result unit JobError :=
  match sc_store s with
  | None => (s, Ok tt)
  | Some db =>
      match get_context (sc_manager s) id with
      | Err e => (s, Err e)
      | Ok ctx =>
          match saved with
          | Ok _ => (set_sc_store (Some (<[id := state ctx]> db)) s, Ok tt)
          | Err e => (s, Err (JobFailed id ("failed to persist job: " +:+ e)))
          end
      end
  end.

Definition configure_job (id : Uuid) (metadata : option json) (s : Scheduler) : Scheduler * result unit JobError :=
  let max_tokens := job_max_tokens (sc_max_tokens_per_job s) metadata in
  if bool_decide (is_Some metadata) || (0 <? max_tokens)%Z then
    match update_context (sc_manager s) id (λ c, (apply_budget metadata max_tokens c, tt)) with
    | (m, Ok _) => (set_sc_manager m s, Ok tt)
    | (m, Err e) => (set_sc_manager m s, Err e)
    end
  else (s, Ok tt).

Definition dispatch_job_inner (request : JobRequest) (d : DispatchInputs) (s : Scheduler) : Scheduler * result Uuid JobError :=
  match create_job_for_user (sc_manager s) (di_fresh d) (di_created d) (jr_user_id request) (jr_title request)
      (jr_description request) with
  | (m, Err e) => (set_sc_manager m s, Err e)
  | (m, Ok id) =>
      match configure_job id (jr_metadata request) (set_sc_manager m s) with
      | (s, Err e) => (s, Err e)
      | (s, Ok _) =>
          match save_job id (di_saved d) s with
          | (s, Err e) => (s, Err e)
          | (s, Ok _) =>
              match schedule_with_context id (di_now1 d) (di_now2 d) (di_started d) s with
              | (s, Err e) => (s, Err e)
              | (s, Ok _) => (s, Ok id)
              end
          end
      end
  end.

(** ** Messages to a job *)

Definition send_message (id : Uuid) (content : string) (delivered : bool) (s : Scheduler) : Scheduler * result unit JobError :=
  match sc_jobs s !! id with
  | None => (s, Err (NotFound id))
  | Some j =>
      (send delivered (WmUserMessage content) (sj_handle j) s,
       if delivered then Ok tt else Err (JobFailed id "Worker channel closed"))
  end.

(** ** Stopping *)

Definition transition_to_cancelled (id : Uuid) (reason : string) (now1 now2 : Utc) (s : Scheduler) :
    Scheduler * result unit JobError :=
  match update_context (sc_manager s) id (λ c,
      if bool_decide (state c = Cancelled) then (c, Ok tt)
      else match transition_to c Cancelled (Some reason) now1 now2 with
           | (c', Ok _) => (c', Ok tt)
           | (c', Err _) => (c', Err (state c))
           end) with
  | (m, Err e) => (set_sc_manager m s, Err e)
  | (m, Ok (Err from_state)) => (set_sc_manager m s, Err (InvalidTransition id from_state Cancelled))
  | (m, Ok (Ok _)) => (set_sc_manager m s, Ok tt)
  end.

Definition pin_job (j : ScheduledJob) : ScheduledJob := {| sj_handle := sj_handle j; sj_pending_cancel_persist := true |}.

Definition pin_cancel_persist_and_abort (id : Uuid) (s : Scheduler) : Scheduler :=
  match sc_jobs s !! id with
  | None => s
  | Some j =>
      let s := set_sc_jobs (<[id := pin_job j]> (sc_jobs s)) s in
      if is_finished s (sj_handle j) then s else abort (sj_handle j) s
  end.

(** [store.update_job_status] *)
Definition persist_cancelled_status (id : Uuid) (saved : result unit string) (s : Scheduler) : Scheduler * result unit JobError :=
  match sc_store s with
  | None => (s, Ok tt)
  | Some db =>
      match saved with
      | Ok _ => (set_sc_store (Some (<[id := Cancelled]> db)) s, Ok tt)
      | Err e => (s, Err (PersistenceError id e))
      end
  end.

Definition finalize_stop (id : Uuid) (s : Scheduler) : Scheduler :=
  let s := match sc_jobs s !! id with
    | Some j => if is_finished s (sj_handle j) then s else abort (sj_handle j) s
    | None => s
    end in
  set_sc_jobs (delete id (sc_jobs s)) s.

(** What the environment contributes to a stop. *)
Record StopInputs := { si_delivered : bool; si_now1 : Utc; si_now2 : Utc; si_saved : result unit string }.

Definition stop_in_memory (id : Uuid) (reason : string) (i : StopInputs) (s : Scheduler) : Scheduler * result unit JobError :=
  match sc_jobs s !! id with
  | None => (s, Err (NotFound id))
  | Some j =>
      let s := send (si_delivered i) WmStop (sj_handle j) s in
      match transition_to_cancelled id reason (si_now1 i) (si_now2 i) s with
      | (s, Err e) => (s, Err e)
      | (s, Ok _) => (pin_cancel_persist_and_abort id s, Ok tt)
      end
  end.

Definition stop (id : Uuid) (reason : string) (i : StopInputs) (s : Scheduler) : Scheduler * result unit JobError :=
  match stop_in_memory id reason i s with
  | (s, Err e) => (s, Err e)
  | (s, Ok _) =>
      match persist_cancelled_status id (si_saved i) s with
      | (s, Err e) => (s, Err e)
      | (s, Ok _) => (finalize_stop id s, Ok tt)
      end
  end.

Definition persist_then_finalize (id : Uuid) (saved : result unit string) (s : Scheduler) : Scheduler :=
  match persist_cancelled_status id saved s with
  | (s, Err _) => s
  | (s, Ok _) => finalize_stop id s
  end.

Definition handle_stop_timeout (id : Uuid) (reason : string) (i : StopInputs) (s : Scheduler) : Scheduler :=
  match transition_to_cancelled id reason (si_now1 i) (si_now2 i) s with
  | (s, Ok _) => persist_then_finalize id (si_saved i) (pin_cancel_persist_and_abort id s)
  | (s, Err _) => s
  end.

(** ** Clean-up *)

Definition should_remove (id : Uuid) (s : Scheduler) : bool :=
  match sc_jobs s !! id with
  | Some j => is_finished s (sj_handle j) && negb (sj_pending_cancel_persist j)
  | None => true
  end.

Definition remove_entry (id : Uuid) (s : Scheduler) : Scheduler := set_sc_jobs (delete id (sc_jobs s)) s.

Definition cleanup_finished_jobs (s : Scheduler) : Scheduler :=
  set_sc_jobs (filter (λ kj, (is_finished s (sj_handle kj.2) && negb (sj_pending_cancel_persist kj.2)) = false) (sc_jobs s)) s.

(** ** Shutdown *)

(** How [stop_in_memory] ended within its five seconds: with a result, or cut off
    after [cut] of its parts. *)
Inductive StopOutcome :=
| StopInTime (i : StopInputs)
| StopCutOff (cut : nat) (i : StopInputs) (retry : StopInputs).

(** the parts of [stop_in_memory] that ran before it was cut off *)
Definition stop_cut (id : Uuid) (reason : string) (cut : nat) (i : StopInputs) (s : Scheduler) : Scheduler :=
  match sc_jobs s !! id, cut with
  | None, _ | _, O => s
  | Some j, S cut =>
      let s := send (si_delivered i) WmStop (sj_handle j) s in
      match cut with
      | O => s
      | S _ => (transition_to_cancelled id reason (si_now1 i) (si_now2 i) s).1
      end
  end.

Definition STOP_REASON : string := "Stopped by scheduler".

(** the first loop of [stop_all]: all jobs are stopped in memory *)
Definition stop_all_begin (s : Scheduler) (o : Uuid * StopOutcome) : Scheduler :=
  match o.2 with
  | StopInTime i => (stop_in_memory o.1 STOP_REASON i s).1
  | StopCutOff cut i _ => stop_cut o.1 STOP_REASON cut i s
  end.

Definition stop_result (s : Scheduler) (o : Uuid * StopOutcome) : result unit JobError :=
  match o.2 with
  | StopInTime i => (stop_in_memory o.1 STOP_REASON i s).2
  | StopCutOff _ _ _ => Ok tt
  end.

(** the second loop: what was stopped is persisted and dropped *)
Definition stop_all_end (s : Scheduler) (o : (Uuid * StopOutcome) * result unit JobError) : Scheduler :=
  match o.1.2, o.2 with
  | StopInTime i, Ok _ => persist_then_finalize o.1.1 (si_saved i) s
  | StopInTime _, Err _ => s
  | StopCutOff _ _ retry, _ => handle_stop_timeout o.1.1 STOP_REASON retry s
  end.

Fixpoint stop_all_results (s : Scheduler) (l : list (Uuid * StopOutcome)) :
    Scheduler * list ((Uuid * StopOutcome) * result unit JobError) :=
  match l with
  | [] => (s, [])
  | o :: l =>
      let '(s', rs) := stop_all_results (stop_all_begin s o) l in
      (s', (o, stop_result s o) :: rs)
  end.

Definition stop_all (outcomes : list (Uuid * StopOutcome)) (s : Scheduler) : Scheduler :=
  let '(s, rs) := stop_all_results s outcomes in
  foldl stop_all_end s rs.
End Scheduler.
Arguments Scheduler : clear implicits.
Arguments Scheduler {J D}.

(** ** Tool calls as sub-tasks *)

Section Subtasks.
Context {J : SerdeJson} {D : RustDecimal} {R : RegexEngine} {C : AhoCorasick} {U : UnicodeCase}.
Context {W A : Type} `{!Tool W A}.
Variable to_string_pretty : json → string.

(** what [serde_json] says about a text that is not JSON *)
Variable json_error : string → string.

Record TaskOutput := { tko_result : json; tko_duration : Duration }.

(** [execute_tool_task]; [elapsed] is the time it took. *)
Definition execute_tool_task (tools : gmap string A) (manager : ContextManager) (safety : SafetyLayer)
    (approval_context : option ApprovalContext) (id : Uuid) (name : string) (params : json) (elapsed : Duration) (w : W) :
    W * result TaskOutput Error :=
  match tools !! name with
  | None => (w, Err (ETool (ToolNotFound name)))
  | Some tool =>
      match get_context manager id with
      | Err e => (w, Err (EJob e))
      | Ok job_ctx =>
          if bool_decide (state job_ctx = Cancelled) then (w, Err (ETool (ToolExecutionFailed name "Job is cancelled")))
          else if is_blocked_or_default approval_context name (requires_approval (W := W) tool params)
          then (w, Err (ETool (ToolAuthRequired name)))
          else
            match execute_tool_with_safety to_string_pretty tools safety name params job_ctx w with
            | (w, Err e) => (w, Err (ETool e))
            | (w, Ok output_str) =>
                (w, match json_from_str output_str with
                    | Some v => Ok {| tko_result := v; tko_duration := elapsed |}
                    | None => Err (ETool (ToolExecutionFailed name ("Failed to parse tool output as JSON: " +:+ json_error output_str)))
                    end)
            end
      end
  end.
End Subtasks.

(** ** All of it at once *)

(** A [stop] under way: the worker was looked up, told to stop, cancelled, pinned,
    and the status was stored. *)
Inductive StopPhase := StFound (h : nat) | StSignalled | StCancelled | StPinned | StPersisted.

(** A clean-up task: it watches, or has decided to remove the entry. *)
Inductive CleanupPhase := CpWatch | CpRemove.

Section Interleaving.
Context {J : SerdeJson} {D : RustDecimal}.

Record Sys := { sy_sched : Scheduler; sy_stops : list (Uuid * StopPhase); sy_cleanups : list (Uuid * CleanupPhase) }.

Definition finish_task (w : WorkerTask) : WorkerTask :=
  {| wt_job := wt_job w; wt_inbox := wt_inbox w; wt_aborted := wt_aborted w; wt_finished := true |}.

(** Which jobs may be scheduled is a parameter. *)
Inductive sys_step (may_schedule : Scheduler → Uuid → Prop) : Sys → Sys → Prop :=
| step_scheduled s s' stops cleanups id now1 now2 started h :
    may_schedule s id → schedule_locked id now1 now2 started s = (s', Ok (Some h)) →
    sys_step may_schedule {| sy_sched := s; sy_stops := stops; sy_cleanups := cleanups |}
      {| sy_sched := s'; sy_stops := stops; sy_cleanups := (id, CpWatch) :: cleanups |}
| step_not_scheduled s s' stops cleanups id now1 now2 started r :
    schedule_locked id now1 now2 started s = (s', r) → (∀ h, r ≠ Ok (Some h)) →
    sys_step may_schedule {| sy_sched := s; sy_stops := stops; sy_cleanups := cleanups |}
      {| sy_sched := s'; sy_stops := stops; sy_cleanups := cleanups |}
| step_manager s stops cleanups m :
    (** jobs are created, and workers update their contexts *)
    sys_step may_schedule {| sy_sched := s; sy_stops := stops; sy_cleanups := cleanups |}
      {| sy_sched := set_sc_manager m s; sy_stops := stops; sy_cleanups := cleanups |}
| step_message s stops cleanups id content delivered :
    sys_step may_schedule {| sy_sched := s; sy_stops := stops; sy_cleanups := cleanups |}
      {| sy_sched := (send_message id content delivered s).1; sy_stops := stops; sy_cleanups := cleanups |}
| step_finish s stops cleanups h :
    sys_step may_schedule {| sy_sched := s; sy_stops := stops; sy_cleanups := cleanups |}
      {| sy_sched := set_sc_workers (alter finish_task h (sc_workers s)) s; sy_stops := stops; sy_cleanups := cleanups |}
| step_stop_found s stops cleanups id j :
    sc_jobs s !! id = Some j →
    sys_step may_schedule {| sy_sched := s; sy_stops := stops; sy_cleanups := cleanups |}
      {| sy_sched := s; sy_stops := (id, StFound (sj_handle j)) :: stops; sy_cleanups := cleanups |}
| step_stop_signal s stops stops' cleanups id h delivered :
    sys_step may_schedule {| sy_sched := s; sy_stops := stops ++ (id, StFound h) :: stops'; sy_cleanups := cleanups |}
      {| sy_sched := send delivered WmStop h s; sy_stops := stops ++ (id, StSignalled) :: stops'; sy_cleanups := cleanups |}
| step_stop_cancel s s' stops stops' cleanups id reason now1 now2 :
    transition_to_cancelled id reason now1 now2 s = (s', Ok tt) →
    sys_step may_schedule {| sy_sched := s; sy_stops := stops ++ (id, StSignalled) :: stops'; sy_cleanups := cleanups |}
      {| sy_sched := s'; sy_stops := stops ++ (id, StCancelled) :: stops'; sy_cleanups := cleanups |}
| step_stop_refused s s' stops stops' cleanups id reason now1 now2 e :
    transition_to_cancelled id reason now1 now2 s = (s', Err e) →
    sys_step may_schedule {| sy_sched := s; sy_stops := stops ++ (id, StSignalled) :: stops'; sy_cleanups := cleanups |}
      {| sy_sched := s'; sy_stops := stops ++ stops'; sy_cleanups := cleanups |}
| step_stop_pin s stops stops' cleanups id :
    sys_step may_schedule {| sy_sched := s; sy_stops := stops ++ (id, StCancelled) :: stops'; sy_cleanups := cleanups |}
      {| sy_sched := pin_cancel_persist_and_abort id s; sy_stops := stops ++ (id, StPinned) :: stops'; sy_cleanups := cleanups |}
| step_stop_persist s s' stops stops' cleanups id saved :
    persist_cancelled_status id saved s = (s', Ok tt) →
    sys_step may_schedule {| sy_sched := s; sy_stops := stops ++ (id, StPinned) :: stops'; sy_cleanups := cleanups |}
      {| sy_sched := s'; sy_stops := stops ++ (id, StPersisted) :: stops'; sy_cleanups := cleanups |}
| step_stop_not_persisted s s' stops stops' cleanups id saved e :
    persist_cancelled_status id saved s = (s', Err e) →
    sys_step may_schedule {| sy_sched := s; sy_stops := stops ++ (id, StPinned) :: stops'; sy_cleanups := cleanups |}
      {| sy_sched := s'; sy_stops := stops ++ stops'; sy_cleanups := cleanups |}
| step_stop_finalize s stops stops' cleanups id :
    sys_step may_schedule {| sy_sched := s; sy_stops := stops ++ (id, StPersisted) :: stops'; sy_cleanups := cleanups |}
      {| sy_sched := finalize_stop id s; sy_stops := stops ++ stops'; sy_cleanups := cleanups |}
| step_cleanup_decide s stops cleanups cleanups' id :
    should_remove id s = true →
    sys_step may_schedule {| sy_sched := s; sy_stops := stops; sy_cleanups := cleanups ++ (id, CpWatch) :: cleanups' |}
      {| sy_sched := s; sy_stops := stops; sy_cleanups := cleanups ++ (id, CpRemove) :: cleanups' |}
| step_cleanup_remove s stops cleanups cleanups' id :
    sys_step may_schedule {| sy_sched := s; sy_stops := stops; sy_cleanups := cleanups ++ (id, CpRemove) :: cleanups' |}
      {| sy_sched := remove_entry id s; sy_stops := stops; sy_cleanups := cleanups ++ cleanups' |}
| step_cleanup_all s stops cleanups :
    sys_step may_schedule {| sy_sched := s; sy_stops := stops; sy_cleanups := cleanups |}
      {| sy_sched := cleanup_finished_jobs s; sy_stops := stops; sy_cleanups := cleanups |}.

Definition sys_initial (max_parallel : nat) (max_tokens : Z) (m : ContextManager) (store : option (gmap Uuid JobState)) : Sys := {|
  sy_sched := {| sc_max_parallel_jobs := max_parallel; sc_max_tokens_per_job := max_tokens; sc_manager := m;
                 sc_store := store; sc_jobs := ∅; sc_workers := [] |};
  sy_stops := []; sy_cleanups := [] |}.
End Interleaving.

(** * Theorems *)

(** ** The limit on running workers *)

(** A worker whose task was neither aborted nor has ended.  An abort takes effect at the task's next
    await, so an aborted task may still be inside a step of its own when it no longer counts. *)
Definition running (w : WorkerTask) : bool := negb (wt_aborted w) && negb (wt_finished w).

Lemma pair_snd {A B} (p : A * B) y : p.2 = y → p = (p.1, y).
Proof. intros <-. by destruct p. Qed.

Lemma NoDup_fmap_filter {A B} (f : A → B) (p : A → bool) (l : list A) :
  (∀ i k x y, l !! i = Some x → l !! k = Some y → p x = true → p y = true → f x = f y → i = k) →
  NoDup (f <$> List.filter p l).
Proof.
  induction l as [|x l IH]; intros Hinj; [apply NoDup_nil_2|]. cbn.
  assert (NoDup (f <$> List.filter p l)) as Hl.
  { apply IH. intros i k y z Hi Hk Hy Hz E. by injection (Hinj (S i) (S k) y z Hi Hk Hy Hz E). }
  destruct (p x) eqn:Ep; [|done]. cbn. apply NoDup_cons. split; [|done].
  intros (y & E & (Hy & Hp)%list_elem_of_In%filter_In)%list_elem_of_fmap.
  apply list_elem_of_In, list_elem_of_lookup_1 in Hy as [k Hk].
  discriminate (Hinj 0 (S k) x y eq_refl Hk Ep Hp E).
Qed.

Section Invariant.
Context {J : SerdeJson} {D : RustDecimal}.

(** The table is within its limit, its entries point to workers of their jobs, and a
    worker that runs is the one its job's entry points to. *)
Record sched_inv (max : nat) (s : Scheduler) : Prop := {
  si_max : sc_max_parallel_jobs s = max;
  si_size : size (sc_jobs s) ≤ max;
  si_entry : ∀ id j, sc_jobs s !! id = Some j → ∃ w, sc_workers s !! sj_handle j = Some w ∧ wt_job w = id;
  si_tracked : ∀ h w, sc_workers s !! h = Some w → running w = true →
    ∃ j, sc_jobs s !! wt_job w = Some j ∧ sj_handle j = h;
}.

(** A clean-up task is that of a worker, and when it has decided to remove an entry
    no worker of that job runs. *)
Record cleanup_inv (s : Scheduler) (cleanups : list (Uuid * CleanupPhase)) : Prop := {
  ci_known : ∀ id p, (id, p) ∈ cleanups → ∃ h w, sc_workers s !! h = Some w ∧ wt_job w = id;
  ci_remove : ∀ id, (id, CpRemove) ∈ cleanups → ∀ h w, sc_workers s !! h = Some w → wt_job w = id → running w = false;
}.

Definition never_scheduled (s : Scheduler) (id : Uuid) : Prop := Forall (λ w, wt_job w ≠ id) (sc_workers s).

(** Workers are told things and end, but none is started. *)
Definition wanes (ws ws' : list WorkerTask) : Prop :=
  Forall2 (λ w w', wt_job w' = wt_job w ∧ (running w' = true → running w = true)) ws ws'.

Lemma wanes_refl ws : wanes ws ws.
Proof. apply Forall_Forall2_diag, Forall_forall. naive_solver. Qed.

Lemma wanes_alter f h ws :
  (∀ w, wt_job (f w) = wt_job w ∧ (running (f w) = true → running w = true)) → wanes ws (alter f h ws).
Proof.
  intros Hf. apply Forall2_same_length_lookup_2; [by rewrite length_alter|].
  intros i x y Hx Hy. destruct (decide (i = h)) as [->|Hne].
  - rewrite list_lookup_alter_eq, Hx in Hy. cbn in Hy. by simplify_eq.
  - rewrite list_lookup_alter_ne in Hy by done. by simplify_eq.
Qed.

Lemma wanes_abort h ws : wanes ws (alter abort_task h ws).
Proof. apply wanes_alter. intros w. split; [done|]. unfold running. cbn. done. Qed.

Lemma wanes_finish h ws : wanes ws (alter finish_task h ws).
Proof. apply wanes_alter. intros w. split; [done|]. unfold running. cbn. by destruct (wt_aborted w). Qed.

Lemma wanes_send delivered msg h s : wanes (sc_workers s) (sc_workers (send delivered msg h s)).
Proof.
  destruct delivered; [|apply wanes_refl]. cbn. apply wanes_alter. intros w. by split.
Qed.

Lemma wanes_back ws ws' h w' :
  wanes ws ws' → ws' !! h = Some w' →
  ∃ w, ws !! h = Some w ∧ wt_job w' = wt_job w ∧ (running w' = true → running w = true).
Proof. intros Hw Hh. eapply Forall2_lookup_r in Hw as (w & ? & ? & ?); [|done]. by exists w. Qed.

Lemma wanes_forth ws ws' h w :
  wanes ws ws' → ws !! h = Some w → ∃ w', ws' !! h = Some w' ∧ wt_job w' = wt_job w.
Proof. intros Hw Hh. eapply Forall2_lookup_l in Hw as (w' & ? & ? & ?); [|done]. by exists w'. Qed.

Lemma cleanup_inv_wanes s s' cleanups cleanups' :
  cleanup_inv s cleanups → wanes (sc_workers s) (sc_workers s') → (∀ x, x ∈ cleanups' → x ∈ cleanups) →
  cleanup_inv s' cleanups'.
Proof.
  intros [Hk Hr] Hw Hsub. split.
  - intros id p Hin%Hsub. destruct (Hk _ _ Hin) as (h & w & Hh & Hj).
    destruct (wanes_forth _ _ _ _ Hw Hh) as (w' & ? & ?). exists h, w'. split; congruence.
  - intros id Hin%Hsub h w' Hh Hj. destruct (wanes_back _ _ _ _ Hw Hh) as (w & Hh' & Hj' & Hrun).
    destruct (running w') eqn:E; [|done]. rewrite <- (Hr id Hin h w Hh'); [by rewrite Hrun|congruence].
Qed.

(** A step that starts no worker, adds no entry, and drops an entry only when its
    worker does not run any more. *)
Lemma sched_inv_wanes max s s' :
  sched_inv max s → sc_max_parallel_jobs s' = sc_max_parallel_jobs s → wanes (sc_workers s) (sc_workers s') →
  (∀ id j', sc_jobs s' !! id = Some j' → ∃ j, sc_jobs s !! id = Some j ∧ sj_handle j = sj_handle j') →
  (∀ h w', sc_workers s' !! h = Some w' → running w' = true → is_Some (sc_jobs s' !! wt_job w')) →
  sched_inv max s'.
Proof.
  intros [Hmax Hsz Hent Htr] Hm Hw Hback Hkeep. split.
  - by rewrite Hm.
  - etrans; [|exact Hsz]. rewrite <- !size_dom. apply subseteq_size. intros id.
    rewrite !elem_of_dom. intros [j' (j & -> & _)%Hback]. by eexists.
  - intros id j' Hj'. destruct (Hback _ _ Hj') as (j & Hj & Hh). destruct (Hent _ _ Hj) as (w & Hwk & Hid).
    destruct (wanes_forth _ _ _ _ Hw Hwk) as (w' & ? & ?). rewrite <- Hh. exists w'. split; congruence.
  - intros h w' Hh Hrun. destruct (Hkeep _ _ Hh Hrun) as [j' Hj']. exists j'. split; [done|].
    destruct (wanes_back _ _ _ _ Hw Hh) as (w & Hh' & Hj & Hr). destruct (Htr _ _ Hh' (Hr Hrun)) as (j & Hjw & <-).
    destruct (Hback _ _ Hj') as (j2 & Hj2 & <-). rewrite Hj in Hj2. congruence.
Qed.

(** as above, when the table's keys and handles stay as they are *)
Lemma sched_inv_same_table max s s' :
  sched_inv max s → sc_max_parallel_jobs s' = sc_max_parallel_jobs s → wanes (sc_workers s) (sc_workers s') →
  sc_jobs s' = sc_jobs s → sched_inv max s'.
Proof.
  intros Hs Hm Hw E. eapply sched_inv_wanes; [done|done|done|rewrite E; naive_solver|].
  intros h w' Hh Hrun. rewrite E. destruct (wanes_back _ _ _ _ Hw Hh) as (w & Hh' & -> & Hr).
  destruct (si_tracked _ _ Hs _ _ Hh' (Hr Hrun)) as (j & -> & _). by eexists.
Qed.

(** a worker of [id] that runs is in the table *)
Lemma running_not_removed max s id :
  sched_inv max s → should_remove id s = true →
  ∀ h w, sc_workers s !! h = Some w → wt_job w = id → running w = false.
Proof.
  intros Hs Hrem h w Hh <-. destruct (running w) eqn:Hr; [|done].
  destruct (si_tracked _ _ Hs _ _ Hh Hr) as (j & Hj & <-).
  unfold should_remove, is_finished in Hrem. rewrite Hj, Hh in Hrem. cbn in Hrem.
  unfold running in Hr. destruct (wt_finished w), (wt_aborted w); done.
Qed.

Lemma wanes_finalize id s : wanes (sc_workers s) (sc_workers (finalize_stop id s)).
Proof.
  unfold finalize_stop. cbn. destruct (sc_jobs s !! id) as [j|]; [|apply wanes_refl].
  destruct (is_finished s _); [apply wanes_refl|apply wanes_abort].
Qed.

Lemma finalize_jobs id s : sc_jobs (finalize_stop id s) = delete id (sc_jobs s).
Proof. unfold finalize_stop. cbn. destruct (sc_jobs s !! id); [|done]. by destruct (is_finished s _). Qed.

Lemma finalize_max id s : sc_max_parallel_jobs (finalize_stop id s) = sc_max_parallel_jobs s.
Proof. unfold finalize_stop. cbn. destruct (sc_jobs s !! id); [|done]. by destruct (is_finished s _). Qed.

(** after [finalize_stop] no worker of the job runs *)
Lemma finalize_not_running max id s h w :
  sched_inv max s → sc_workers (finalize_stop id s) !! h = Some w → wt_job w = id → running w = false.
Proof.
  intros Hs Hh <-. destruct (running w) eqn:Hr; [|done].
  destruct (wanes_back _ _ _ _ (wanes_finalize (wt_job w) s) Hh) as (w0 & Hh0 & Hj & Hr0).
  destruct (si_tracked _ _ Hs _ _ Hh0 (Hr0 Hr)) as (j & Hjob & <-). rewrite <- Hj in Hjob.
  unfold finalize_stop in Hh. cbn in Hh. rewrite Hjob in Hh. unfold is_finished in Hh. rewrite Hh0 in Hh. cbn in Hh.
  destruct (wt_finished w0) eqn:Hf.
  - rewrite Hh0 in Hh. simplify_eq. unfold running in Hr. by rewrite Hf, andb_false_r in Hr.
  - cbn in Hh. rewrite list_lookup_alter_eq, Hh0 in Hh. cbn in Hh. by simplify_eq.
Qed.

Lemma wanes_pin id s : wanes (sc_workers s) (sc_workers (pin_cancel_persist_and_abort id s)).
Proof.
  unfold pin_cancel_persist_and_abort. destruct (sc_jobs s !! id) as [j|]; [|apply wanes_refl].
  cbn. destruct (is_finished _ _); [apply wanes_refl|apply wanes_abort].
Qed.

Lemma pin_jobs id s :
  sc_jobs (pin_cancel_persist_and_abort id s) = alter pin_job id (sc_jobs s).
Proof.
  unfold pin_cancel_persist_and_abort. destruct (sc_jobs s !! id) as [j|] eqn:E.
  - transitivity (<[id := pin_job j]> (sc_jobs s)); [cbn; by destruct (is_finished _ _)|].
    apply map_eq. intros k. rewrite lookup_insert, lookup_alter. case_decide; [|done]. by subst; rewrite E.
  - symmetry. by apply alter_id'.
Qed.

Lemma pin_max id s : sc_max_parallel_jobs (pin_cancel_persist_and_abort id s) = sc_max_parallel_jobs s.
Proof.
  unfold pin_cancel_persist_and_abort. destruct (sc_jobs s !! id) as [j|]; [|done]. cbn. by destruct (is_finished _ _).
Qed.

Lemma schedule_locked_started id now1 now2 started s s' h :
  schedule_locked id now1 now2 started s = (s', Ok (Some h)) →
  sc_jobs s !! id = None ∧ size (sc_jobs s) < sc_max_parallel_jobs s ∧ h = length (sc_workers s) ∧
  sc_max_parallel_jobs s' = sc_max_parallel_jobs s ∧
  sc_jobs s' = <[id := {| sj_handle := h; sj_pending_cancel_persist := false |}]> (sc_jobs s) ∧
  ∃ w, sc_workers s' = sc_workers s ++ [w] ∧ wt_job w = id.
Proof.
  unfold schedule_locked. destruct (sc_jobs s !! id) eqn:Hid; [naive_solver|].
  destruct (sc_max_parallel_jobs s <=? size (sc_jobs s)) eqn:Hsz; [naive_solver|]. apply Nat.leb_gt in Hsz.
  destruct (update_context _ _ _) as [m [[[]|]|]]; [|naive_solver..].
  intros E. injection E as <- <-. repeat split; [done|by destruct started|by destruct started|].
  destruct started; cbn; [|by eexists]. eexists. split; [|shelve].
  rewrite <- (Nat.add_0_r (length (sc_workers s))), alter_app_r. cbn. reflexivity.
  Unshelve. done.
Qed.

Lemma schedule_locked_other id now1 now2 started s s' r :
  schedule_locked id now1 now2 started s = (s', r) → (∀ h, r ≠ Ok (Some h)) → ∃ m, s' = set_sc_manager m s.
Proof.
  assert (∀ s : Scheduler, s = set_sc_manager (sc_manager s) s) as Hid by (by intros []).
  unfold schedule_locked. destruct (sc_jobs s !! id); [naive_solver|].
  destruct (sc_max_parallel_jobs s <=? size (sc_jobs s)); [naive_solver|].
  destruct (update_context _ _ _) as [m [[[]|]|]]; naive_solver.
Qed.

Lemma cancelled_manager id reason now1 now2 s s' r :
  transition_to_cancelled id reason now1 now2 s = (s', r) → ∃ m, s' = set_sc_manager m s.
Proof. unfold transition_to_cancelled. destruct (update_context _ _ _) as [m [[[]|]|]]; naive_solver. Qed.

Lemma persist_store id saved s s' r :
  persist_cancelled_status id saved s = (s', r) → ∃ v, s' = set_sc_store v s.
Proof.
  assert (s = set_sc_store (sc_store s) s) as Hid by (by destruct s).
  unfold persist_cancelled_status. destruct (sc_store s), saved; naive_solver.
Qed.

Definition sys_inv (max : nat) (s : Sys) : Prop :=
  sched_inv max (sy_sched s) ∧ cleanup_inv (sy_sched s) (sy_cleanups s).

(** a step that only wanes the workers and keeps the table *)
Lemma sys_inv_same_table max s s' stops stops' cleanups :
  sys_inv max {| sy_sched := s; sy_stops := stops; sy_cleanups := cleanups |} →
  sc_max_parallel_jobs s' = sc_max_parallel_jobs s → wanes (sc_workers s) (sc_workers s') → sc_jobs s' = sc_jobs s →
  sys_inv max {| sy_sched := s'; sy_stops := stops'; sy_cleanups := cleanups |}.
Proof.
  intros [Hs Hc] Hm Hw E. split; [by eapply sched_inv_same_table|]. by eapply cleanup_inv_wanes.
Qed.

Lemma schedule_inv max s s' stops cleanups id now1 now2 started h :
  sys_inv max {| sy_sched := s; sy_stops := stops; sy_cleanups := cleanups |} → never_scheduled s id →
  schedule_locked id now1 now2 started s = (s', Ok (Some h)) →
  sys_inv max {| sy_sched := s'; sy_stops := stops; sy_cleanups := (id, CpWatch) :: cleanups |}.
Proof.
  intros [[Hmax Hsz Hent Htr] [Hk Hr]] Hnew (Hid & Hlt & -> & Hm & Ej & w0 & Ew & Hw0)%schedule_locked_started.
  cbn [sy_sched sy_cleanups] in *. unfold never_scheduled in Hnew.
  assert (∀ h w, sc_workers s !! h = Some w → wt_job w ≠ id) as Hno.
  { intros h w Hh. by apply (Forall_lookup_1 _ _ _ _ Hnew Hh). }
  split; split; cbn [sy_sched sy_cleanups].
  - by rewrite Hm.
  - rewrite Ej, map_size_insert_None by done. lia.
  - rewrite Ej, Ew. intros id' j. rewrite lookup_insert. case_decide as Hd.
    + intros [= <-]. cbn. rewrite lookup_app_r, Nat.sub_diag by lia. exists w0. subst. done.
    + intros (w & Hh & <-)%Hent. exists w. split; [by apply lookup_app_l_Some|done].
  - rewrite Ej, Ew. intros h w [Hh|[Hge Hh]]%lookup_app_Some Hrun.
    + destruct (Htr _ _ Hh Hrun) as (j & Hj & <-). exists j. split; [|done].
      rewrite lookup_insert_ne; [done|]. intros E. by apply (Hno _ _ Hh).
    + apply list_lookup_singleton_Some in Hh as [Hh ->]. rewrite Hw0, lookup_insert_eq. eexists. split; [done|].
      cbn. lia.
  - rewrite Ew. intros id' p [E|Hin]%elem_of_cons.
    + simplify_eq. exists (length (sc_workers s)), w0. split; [|done]. by rewrite lookup_app_r, Nat.sub_diag by lia.
    + destruct (Hk _ _ Hin) as (h & w & Hh & ?). exists h, w. split; [by apply lookup_app_l_Some|done].
  - rewrite Ew. intros id' [E|Hin]%elem_of_cons h w Hh Hj; [done|].
    apply lookup_app_Some in Hh as [Hh|[Hge Hh]]; [by eapply Hr|].
    apply list_lookup_singleton_Some in Hh as [_ ->]. destruct (Hk _ _ Hin) as (h' & w' & Hh' & ?).
    destruct (Hno _ _ Hh'). congruence.
Qed.

Lemma pin_inv max s stops stops' cleanups id :
  sys_inv max {| sy_sched := s; sy_stops := stops; sy_cleanups := cleanups |} →
  sys_inv max {| sy_sched := pin_cancel_persist_and_abort id s; sy_stops := stops'; sy_cleanups := cleanups |}.
Proof.
  intros [Hs Hc]. pose proof (wanes_pin id s) as Hw. split; [|by eapply cleanup_inv_wanes]. cbn [sy_sched] in *.
  eapply sched_inv_wanes; [done|apply pin_max|done|..]; rewrite pin_jobs.
  - intros id' j'. rewrite lookup_alter. case_decide; [subst|naive_solver].
    destruct (sc_jobs s !! id') as [j|]; [|done]. cbn. intros [= <-]. by exists j.
  - intros h w' Hh Hrun. destruct (wanes_back _ _ _ _ Hw Hh) as (w & Hh' & -> & Hr).
    destruct (si_tracked _ _ Hs _ _ Hh' (Hr Hrun)) as (j & Hj & _).
    rewrite lookup_alter. case_decide as Hd; [rewrite Hd|]; rewrite Hj; by eexists.
Qed.

Lemma finalize_inv max s stops stops' cleanups id :
  sys_inv max {| sy_sched := s; sy_stops := stops; sy_cleanups := cleanups |} →
  sys_inv max {| sy_sched := finalize_stop id s; sy_stops := stops'; sy_cleanups := cleanups |}.
Proof.
  intros [Hs Hc]. pose proof (wanes_finalize id s) as Hw. split; [|by eapply cleanup_inv_wanes]. cbn [sy_sched] in *.
  eapply sched_inv_wanes; [done|apply finalize_max|done|..]; rewrite finalize_jobs.
  - intros id' j' [_ Hj]%lookup_delete_Some. by exists j'.
  - intros h w' Hh Hrun. destruct (decide (wt_job w' = id)) as [E|Hne].
    + by rewrite (finalize_not_running max id s h w' Hs Hh E) in Hrun.
    + rewrite lookup_delete_ne by done. destruct (wanes_back _ _ _ _ Hw Hh) as (w & Hh' & -> & Hr).
      destruct (si_tracked _ _ Hs _ _ Hh' (Hr Hrun)) as (j & -> & _). by eexists.
Qed.

(** entries are dropped, of jobs no worker of which runs *)
Lemma drop_inv max s stops cleanups cleanups' jobs :
  sys_inv max {| sy_sched := s; sy_stops := stops; sy_cleanups := cleanups |} →
  jobs ⊆ sc_jobs s → (∀ x, x ∈ cleanups' → x ∈ cleanups) →
  (∀ id, is_Some (sc_jobs s !! id) → jobs !! id = None →
     ∀ h w, sc_workers s !! h = Some w → wt_job w = id → running w = false) →
  sys_inv max {| sy_sched := set_sc_jobs jobs s; sy_stops := stops; sy_cleanups := cleanups' |}.
Proof.
  intros [Hs Hc] Hsub Hcl Hno. split; [|eapply cleanup_inv_wanes; [done|apply wanes_refl|done]]. cbn [sy_sched] in *.
  eapply sched_inv_wanes; [done|done|apply wanes_refl|..]; cbn.
  - intros id j Hj. exists j. split; [by eapply lookup_weaken|done].
  - intros h w Hh Hrun. destruct (si_tracked _ _ Hs _ _ Hh Hrun) as (j & Hj & _).
    destruct (jobs !! wt_job w) as [j'|] eqn:E; [by eexists|].
    rewrite (Hno (wt_job w)) with (h := h) (w := w) in Hrun; [done|by eexists|done|done|done].
Qed.

Lemma sched_step_inv max s s' : sys_inv max s → sys_step never_scheduled s s' → sys_inv max s'.
Proof.
  intros Hs Hstep. destruct Hstep.
  - by eapply schedule_inv.
  - eapply schedule_locked_other in H as [m ->]; [|done].
    eapply sys_inv_same_table; [done|done|apply wanes_refl|done].
  - eapply sys_inv_same_table; [done|done|apply wanes_refl|done].
  - unfold send_message. destruct (sc_jobs s !! id) as [j|] eqn:E; cbn.
    + eapply sys_inv_same_table; [done|by destruct delivered|apply wanes_send|by destruct delivered].
    + eapply sys_inv_same_table; [done|done|apply wanes_refl|done].
  - eapply sys_inv_same_table; [done|done|apply wanes_finish|done].
  - eapply sys_inv_same_table; [done|done|apply wanes_refl|done].
  - eapply sys_inv_same_table; [done|by destruct delivered|apply wanes_send|by destruct delivered].
  - apply cancelled_manager in H as [m ->]. eapply sys_inv_same_table; [done|done|apply wanes_refl|done].
  - apply cancelled_manager in H as [m ->]. eapply sys_inv_same_table; [done|done|apply wanes_refl|done].
  - by eapply pin_inv.
  - apply persist_store in H as [v ->]. eapply sys_inv_same_table; [done|done|apply wanes_refl|done].
  - apply persist_store in H as [v ->]. eapply sys_inv_same_table; [done|done|apply wanes_refl|done].
  - by eapply finalize_inv.
  - destruct Hs as [Hs [Hk Hr]]. split; [done|]. cbn [sy_sched sy_cleanups] in *. split.
    + intros id' p Hin. apply elem_of_app in Hin as [Hin|[E|Hin]%elem_of_cons].
      * eapply (Hk _ p). apply elem_of_app. by left.
      * simplify_eq. eapply (Hk id CpWatch). apply elem_of_app. right. left.
      * eapply (Hk _ p). apply elem_of_app. right. by right.
    + intros id' Hin. apply elem_of_app in Hin as [Hin|[E|Hin]%elem_of_cons].
      * apply Hr, elem_of_app. by left.
      * simplify_eq. by eapply running_not_removed.
      * apply Hr, elem_of_app. right. by right.
  - eapply drop_inv; [done|apply delete_subseteq|..].
    + intros x [Hx|Hx]%elem_of_app; apply elem_of_app; [by left|right; by right].
    + intros id' Hsome Hnone. destruct (decide (id' = id)) as [->|Hne].
      * destruct Hs as [_ [_ Hr]]. apply Hr, elem_of_app. right. left.
      * rewrite lookup_delete_ne in Hnone by done. by destruct Hsome as [? E]; rewrite Hnone in E.
  - eapply drop_inv; [done|apply map_filter_subseteq|done|].
    intros id [j Hj] Hnone. destruct Hs as [Hs _]. eapply running_not_removed; [exact Hs|].
    unfold should_remove. cbn [sy_sched]. rewrite Hj. apply map_lookup_filter_None in Hnone as [E|Hn]; [congruence|].
    specialize (Hn j Hj). cbn in Hn. by destruct (_ && _).
Qed.

Lemma sys_initial_inv max tokens m store : sys_inv max (sys_initial max tokens m store).
Proof.
  split; split; cbn; try done.
  - rewrite map_size_empty. lia.
  - intros id p Hin. by apply not_elem_of_nil in Hin.
Qed.

Lemma sched_reachable_inv max tokens m store s :
  rtc (sys_step never_scheduled) (sys_initial max tokens m store) s → sys_inv max s.
Proof.
  intros Hr. pattern s. eapply rtc_ind_r; [apply sys_initial_inv| |exact Hr]. intros x y _ Hxy Hx. by eapply sched_step_inv.
Qed.

Lemma running_le_table max s : sched_inv max s → length (List.filter running (sc_workers s)) ≤ size (sc_jobs s).
Proof.
  intros Hs. rewrite <- (length_fmap wt_job).
  assert (NoDup (wt_job <$> List.filter running (sc_workers s))) as Hnd.
  { apply NoDup_fmap_filter. intros i k x y Hi Hk Hx Hy E.
    destruct (si_tracked _ _ Hs _ _ Hi Hx) as (j & Hj & <-). destruct (si_tracked _ _ Hs _ _ Hk Hy) as (j' & Hj' & <-).
    rewrite E in Hj. congruence. }
  rewrite <- (size_list_to_set (C := gset Uuid)), <- size_dom by done.
  apply subseteq_size. intros id. rewrite elem_of_list_to_set, elem_of_dom.
  intros (w & -> & (Hin & Hr)%list_elem_of_In%filter_In)%list_elem_of_fmap.
  apply list_elem_of_In, list_elem_of_lookup_1 in Hin as [h Hh].
  destruct (si_tracked _ _ Hs _ _ Hh Hr) as (j & -> & _). by eexists.
Qed.

(** C22. However dispatches, messages, stops, clean-ups and the workers' own progress
    interleave, as long as no job is scheduled twice: there are never more running
    workers than [max_parallel_jobs], and every worker that runs is the one its job's
    entry in the table points to, so that it can be messaged and stopped. *)
Theorem workers_bounded max tokens m store s
    (Hreach : rtc (sys_step never_scheduled) (sys_initial max tokens m store) s) :
  length (List.filter running (sc_workers (sy_sched s))) ≤ max ∧
  ∀ h w, sc_workers (sy_sched s) !! h = Some w → running w = true →
    ∃ j, sc_jobs (sy_sched s) !! wt_job w = Some j ∧ sj_handle j = h.
Proof.
  destruct (sched_reachable_inv _ _ _ _ _ Hreach) as [Hs _]. split; [|exact (si_tracked _ _ Hs)].
  etrans; [by eapply running_le_table|exact (si_size _ _ Hs)].
Qed.
End Invariant.

(** ** Stopping one job *)

Section Stopping.
Context {J : SerdeJson} {D : RustDecimal}.

(** The context of the job says it is cancelled. *)
Definition context_cancelled (id : Uuid) (s : Scheduler) : Prop :=
  ∃ c, contexts (sc_manager s) !! id = Some c ∧ state c = Cancelled.

Lemma set_manager_same s m : m = sc_manager s → set_sc_manager m s = s.
Proof. intros ->. by destruct s. Qed.

Lemma set_contexts_same (m : ContextManager) id c :
  contexts m !! id = Some c → set_contexts (<[id := c]> (contexts m)) m = m.
Proof. intros Hc. unfold set_contexts. rewrite insert_id by done. by destruct m. Qed.

Lemma transition_to_cancelled_cases id reason now1 now2 s :
  match contexts (sc_manager s) !! id with
  | None => transition_to_cancelled id reason now1 now2 s = (s, Err (NotFound id))
  | Some c =>
      if bool_decide (state c = Cancelled) || can_transition_to (state c) Cancelled then
        ∃ m, transition_to_cancelled id reason now1 now2 s = (set_sc_manager m s, Ok tt) ∧
             context_cancelled id (set_sc_manager m s)
      else transition_to_cancelled id reason now1 now2 s = (s, Err (InvalidTransition id (state c) Cancelled))
  end.
Proof.
  unfold transition_to_cancelled, update_context. destruct (contexts (sc_manager s) !! id) as [c|] eqn:Hc;
    [|by rewrite set_manager_same].
  case_bool_decide as Hst; cbn [orb].
  - eexists. split; [done|]. exists c. cbn. by rewrite lookup_insert_eq.
  - destruct (transition_to c Cancelled (Some reason) now1 now2) as [c' [[]|e]] eqn:E.
    + apply transition_to_Ok in E as [-> ->]. eexists. split; [done|]. eexists. cbn.
      rewrite lookup_insert_eq. split; [done|]. by repeat case_match.
    + apply transition_to_Err in E as [-> ->]. by rewrite set_manager_same by (by apply set_contexts_same).
Qed.

Lemma abort_unless_finished_not_running s h w :
  sc_workers (if is_finished s h then s else abort h s) !! h = Some w → running w = false.
Proof.
  unfold is_finished. destruct (sc_workers s !! h) as [w0|] eqn:E; cbn; [|intros E'; congruence].
  destruct (wt_finished w0) eqn:Hf.
  - rewrite E. intros [= <-]. unfold running. by rewrite Hf, andb_false_r.
  - cbn. rewrite list_lookup_alter_eq, E. cbn. by intros [= <-].
Qed.

(** What pinning an entry leaves: the entry pinned, its worker told to abort, and the
    rest as it was. *)
Lemma pin_spec id j s :
  sc_jobs s !! id = Some j →
  sc_jobs (pin_cancel_persist_and_abort id s) = <[id := pin_job j]> (sc_jobs s) ∧
  sc_manager (pin_cancel_persist_and_abort id s) = sc_manager s ∧
  sc_store (pin_cancel_persist_and_abort id s) = sc_store s ∧
  ∀ w, sc_workers (pin_cancel_persist_and_abort id s) !! sj_handle j = Some w → running w = false.
Proof.
  intros Hj. unfold pin_cancel_persist_and_abort. rewrite Hj.
  set (s0 := set_sc_jobs (<[id := pin_job j]> (sc_jobs s)) s). pose proof (abort_unless_finished_not_running s0 (sj_handle j)).
  change (is_finished _ _) with (is_finished s0 (sj_handle j)) in *.
  destruct (is_finished s0 (sj_handle j)); (split; [done|]); (split; [done|]); (split; [done|]); done.
Qed.

Lemma wanes_not_running ws ws' h :
  wanes ws ws' → (∀ w, ws !! h = Some w → running w = false) → ∀ w, ws' !! h = Some w → running w = false.
Proof.
  intros Hw Hn w Hh. destruct (wanes_back _ _ _ _ Hw Hh) as (w0 & Hh0 & _ & Hr).
  destruct (running w); [|done]. by rewrite <- (Hn _ Hh0), Hr.
Qed.

Lemma finalize_manager_store id s :
  sc_manager (finalize_stop id s) = sc_manager s ∧ sc_store (finalize_stop id s) = sc_store s.
Proof. unfold finalize_stop. cbn. destruct (sc_jobs s !! id); [|done]. by destruct (is_finished s _). Qed.

Lemma send_fields delivered msg h s :
  sc_jobs (send delivered msg h s) = sc_jobs s ∧ sc_manager (send delivered msg h s) = sc_manager s ∧
  sc_store (send delivered msg h s) = sc_store s.
Proof. by destruct delivered. Qed.

Lemma stop_in_memory_cases id reason i s j :
  sc_jobs s !! id = Some j →
  let signalled := send (si_delivered i) WmStop (sj_handle j) s in
  match contexts (sc_manager s) !! id with
  | None => stop_in_memory id reason i s = (signalled, Err (NotFound id))
  | Some c =>
      if bool_decide (state c = Cancelled) || can_transition_to (state c) Cancelled then
        ∃ s', stop_in_memory id reason i s = (s', Ok tt) ∧ context_cancelled id s' ∧
          sc_jobs s' = <[id := pin_job j]> (sc_jobs s) ∧ sc_store s' = sc_store s ∧
          ∀ w, sc_workers s' !! sj_handle j = Some w → running w = false
      else stop_in_memory id reason i s = (signalled, Err (InvalidTransition id (state c) Cancelled))
  end.
Proof.
  intros Hj signalled. unfold stop_in_memory. rewrite Hj. fold signalled.
  destruct (send_fields (si_delivered i) WmStop (sj_handle j) s) as (Ej & Em & Es). fold signalled in Ej, Em, Es.
  pose proof (transition_to_cancelled_cases id reason (si_now1 i) (si_now2 i) signalled) as Hc. rewrite Em in Hc.
  destruct (contexts (sc_manager s) !! id) as [c|]; [|by rewrite Hc].
  destruct (_ || _); [|by rewrite Hc]. destruct Hc as (m & -> & Hcan).
  destruct (pin_spec id j (set_sc_manager m signalled)) as (Pj & Pm & Ps & Pw); [cbn; by rewrite Ej|].
  eexists. split; [done|]. split; [unfold context_cancelled; by rewrite Pm|].
  split; [rewrite Pj; cbn; by rewrite Ej|]. split; [rewrite Ps; cbn; by rewrite Es|done].
Qed.

(** C23. Stopping a job, on every outcome.  It succeeds exactly when its context is
    cancelled, the database says so, its entry is gone from the table and its worker
    does not run any more.  When the database fails, the cancelled job keeps its entry,
    pinned against the clean-up, and its worker is stopped nevertheless.  A job whose
    state does not permit cancelling is only told to stop, and a job that is not in the
    table is not touched. *)
Theorem stop_outcome id reason i s :
  match sc_jobs s !! id with
  | None => stop id reason i s = (s, Err (NotFound id))
  | Some j =>
      let signalled := send (si_delivered i) WmStop (sj_handle j) s in
      match stop id reason i s with
      | (s', Ok _) =>
          context_cancelled id s' ∧ sc_jobs s' = delete id (sc_jobs s) ∧
          (∀ w, sc_workers s' !! sj_handle j = Some w → running w = false) ∧
          (∀ db, sc_store s' = Some db → db !! id = Some Cancelled)
      | (s', Err (PersistenceError _ _)) =>
          context_cancelled id s' ∧ sc_jobs s' = <[id := pin_job j]> (sc_jobs s) ∧
          (∀ w, sc_workers s' !! sj_handle j = Some w → running w = false) ∧
          sc_store s' = sc_store s ∧ should_remove id s' = false
      | (s', Err (NotFound _)) => contexts (sc_manager s) !! id = None ∧ s' = signalled
      | (s', Err (InvalidTransition _ from _)) =>
          s' = signalled ∧ can_transition_to from Cancelled = false ∧ from ≠ Cancelled ∧
          ∃ c, contexts (sc_manager s) !! id = Some c ∧ state c = from
      | (_, Err _) => False
      end
  end.
Proof.
  destruct (sc_jobs s !! id) as [j|] eqn:Hj; [|by unfold stop, stop_in_memory; rewrite Hj].
  intros signalled. pose proof (stop_in_memory_cases id reason i s j Hj) as Hc. fold signalled in Hc. cbn zeta in Hc.
  unfold stop. destruct (contexts (sc_manager s) !! id) as [c|] eqn:Ec; [|by rewrite Hc].
  destruct (bool_decide (state c = Cancelled) || can_transition_to (state c) Cancelled) eqn:Hcan.
  2: { rewrite Hc. apply orb_false_elim in Hcan as [?%bool_decide_eq_false_1 ?]. eauto 6. }
  destruct Hc as (s' & -> & Hctx & Ej & Es & Hw). unfold persist_cancelled_status.
  destruct (finalize_manager_store id s') as [Fm Fs].
  destruct (sc_store s') as [db|] eqn:Est; [destruct (si_saved i) as [u|e]|].
  - set (s1 := set_sc_store (Some (<[id := Cancelled]> db)) s'). destruct (finalize_manager_store id s1) as [Gm Gs].
    split_and!.
    + unfold context_cancelled. by rewrite Gm.
    + rewrite finalize_jobs. cbn. by rewrite Ej, delete_insert_eq.
    + eapply wanes_not_running; [apply wanes_finalize|done].
    + rewrite Gs. cbn. intros ? [= <-]. apply lookup_insert_eq.
  - split_and!; [done|done|done|congruence|]. unfold should_remove. rewrite Ej, lookup_insert_eq. cbn. apply andb_false_r.
  - split_and!.
    + unfold context_cancelled. by rewrite Fm.
    + rewrite finalize_jobs. cbn. by rewrite Ej, delete_insert_eq.
    + eapply wanes_not_running; [apply wanes_finalize|done].
    + rewrite Fs. congruence.
Qed.
End Stopping.

(** ** Dispatch *)

Section Dispatching.
Context {J : SerdeJson} {D : RustDecimal}.

Lemma schedule_locked_ok id now1 now2 started s c s' r :
  sc_jobs s !! id = None → contexts (sc_manager s) !! id = Some c → state c = Pending →
  schedule_locked id now1 now2 started s = (s', Ok r) →
  (∃ c', contexts (sc_manager s') !! id = Some c' ∧ state c' = InProgress ∧ max_tokens c' = max_tokens c ∧
         user_id c' = user_id c) ∧ sc_store s' = sc_store s ∧
  ∃ w, sc_workers s' !! length (sc_workers s) = Some w ∧ running w = true ∧ wt_job w = id ∧
       sc_jobs s' !! id = Some {| sj_handle := length (sc_workers s); sj_pending_cancel_persist := false |}.
Proof.
  intros Hj Hc Hst. unfold schedule_locked. rewrite Hj.
  destruct (sc_max_parallel_jobs s <=? size (sc_jobs s)); [done|].
  unfold update_context. rewrite Hc. unfold transition_to. rewrite Hst. cbn [can_transition_to negb].
  intros E. injection E as <- _. split; [|split].
  - eexists. destruct started; cbn; rewrite lookup_insert_eq; (split; [done|]); by repeat case_match.
  - by destruct started.
  - destruct started; cbn; rewrite lookup_insert_eq; [rewrite list_lookup_alter_eq|];
      rewrite lookup_app_r, Nat.sub_diag by lia; by eexists.
Qed.

Lemma configure_job_cases id c metadata s :
  contexts (sc_manager s) !! id = Some c → max_tokens c = 0%Z →
  ∃ s' c', configure_job id metadata s = (s', Ok tt) ∧ contexts (sc_manager s') !! id = Some c' ∧
    max_tokens c' = Z.max 0 (job_max_tokens (sc_max_tokens_per_job s) metadata) ∧ state c' = state c ∧
    user_id c' = user_id c ∧ sc_jobs s' = sc_jobs s ∧ sc_store s' = sc_store s.
Proof.
  intros Hc H0. unfold configure_job, update_context. rewrite Hc. set (n := job_max_tokens _ _).
  destruct (0 <? n)%Z eqn:Hn.
  - apply Z.ltb_lt in Hn as Hn'. rewrite orb_true_r. eexists _, (apply_budget metadata n c). split; [done|].
    unfold apply_budget. rewrite Hn. cbn. rewrite lookup_insert_eq. rewrite Z.max_r by lia.
    destruct metadata; done.
  - apply Z.ltb_ge in Hn as Hn'. rewrite orb_false_r. rewrite Z.max_l by lia. case_bool_decide as Hm.
    + eexists _, (apply_budget metadata n c). split; [done|]. unfold apply_budget. rewrite Hn. cbn.
      rewrite lookup_insert_eq. destruct metadata; done.
    + by exists s, c.
Qed.

Lemma save_job_ok id saved s s' u :
  save_job id saved s = (s', Ok u) → sc_manager s' = sc_manager s ∧ sc_jobs s' = sc_jobs s.
Proof.
  unfold save_job. destruct (sc_store s), (get_context (sc_manager s) id), saved; naive_solver.
Qed.

Lemma job_max_tokens_bounds cap metadata :
  (0 < cap)%Z → (∀ n, metadata_max_tokens metadata = Some n → (0 < n)%Z) → (0 < job_max_tokens cap metadata ≤ cap)%Z.
Proof.
  intros Hcap Hpos. unfold job_max_tokens. destruct (metadata_max_tokens metadata) as [n|]; [|lia].
  specialize (Hpos n eq_refl). destruct (Z.eqb_spec cap 0); lia.
Qed.

(** A job that was dispatched is the user's, is in progress and is tracked, with a
    worker of its own that runs; its token budget is the one asked for, cut to the
    configured cap, and when a cap is configured and the request does not ask for zero
    the budget is positive and within the cap. *)
Theorem dispatch_outcome request d s s' id
    (Hfresh : sc_jobs s !! di_fresh d = None) (Hok : dispatch_job_inner request d s = (s', Ok id)) :
  id = di_fresh d ∧
  (∃ c, contexts (sc_manager s') !! id = Some c ∧ state c = InProgress ∧ user_id c = jr_user_id request ∧
        max_tokens c = Z.max 0 (job_max_tokens (sc_max_tokens_per_job s) (jr_metadata request)) ∧
        ((0 < sc_max_tokens_per_job s)%Z → (∀ n, metadata_max_tokens (jr_metadata request) = Some n → (0 < n)%Z) →
         (0 < max_tokens c ≤ sc_max_tokens_per_job s)%Z)) ∧
  ∃ j w, sc_jobs s' !! id = Some j ∧ sc_workers s' !! sj_handle j = Some w ∧ wt_job w = id ∧ running w = true.
Proof.
  revert Hok. unfold dispatch_job_inner, create_job_for_user, create_begin.
  case_bool_decide; [done|]. cbn [job_id with_user].
  set (c0 := with_user _ _ _ _ _). set (s0 := set_sc_manager _ s).
  destruct (configure_job_cases (di_fresh d) c0 (jr_metadata request) s0) as (s1 & c1 & -> & Hc1 & Ht & Hst & Hu & Ej & Es);
    [cbn; by rewrite lookup_insert_eq|done|].
  change (sc_max_tokens_per_job s0) with (sc_max_tokens_per_job s) in Ht.
  destruct (save_job _ _ s1) as [s2 [u|e]] eqn:Hsave; [|done]. apply save_job_ok in Hsave as [Em2 Ej2].
  unfold schedule_with_context. destruct (schedule_locked _ _ _ _ s2) as [s3 [r|e]] eqn:E; [|done]. intros [= <- <-].
  eapply schedule_locked_ok in E as ((c' & Hc' & Hs' & Et & Eu) & _ & w & ? & ? & ? & ?);
    [|by rewrite Ej2, Ej|by rewrite Em2|by rewrite Hst].
  split; [done|]. split; [|by eexists _, w]. exists c'. rewrite Et, Ht, Eu, Hu. split_and!; [done..|].
  intros Hcap Hpos. pose proof (job_max_tokens_bounds _ _ Hcap Hpos). lia.
Qed.
End Dispatching.

(** ** Sub-tasks *)

Section SubtaskGate.
Context {J : SerdeJson} {D : RustDecimal} {R : RegexEngine} {C : AhoCorasick} {U : UnicodeCase}.
Context {W A : Type} `{!Tool W A}.

(** A sub-task that changes anything or returns an output has run the tool it
    names, once, with the context of its job, which exists and is not cancelled, with
    parameters that pass validation and an approval that is not missing; otherwise it
    is an error that leaves the world as it was. *)
Theorem subtask_gate pretty json_error (tools : gmap string A) manager safety approval id name params elapsed (w : W) :
  let '(w', r) := execute_tool_task pretty json_error tools manager safety approval id name params elapsed w in
  (w' = w ∧ ∃ e, r = Err e) ∨
  ∃ tool c, tools !! name = Some tool ∧ contexts manager !! id = Some c ∧ state c ≠ Cancelled ∧
    is_blocked_or_default approval name (requires_approval (W := W) tool params) = false ∧
    vr_is_valid (validate_tool_params (sl_validator safety) params) = true ∧
    w' = (tool_execute tool params c w).1.
Proof.
  unfold execute_tool_task, get_context. destruct (tools !! name) as [tool|] eqn:Ht; [|by left; eauto].
  destruct (contexts manager !! id) as [c|] eqn:Hc; [|by left; eauto].
  case_bool_decide as Hst; [by left; eauto|].
  destruct (is_blocked_or_default _ _ _) eqn:Hb; [by left; eauto|].
  unfold execute_tool_with_safety. rewrite Ht.
  destruct (vr_is_valid _) eqn:Hv; cbn [negb]; [|by left; eauto].
  destruct (tool_execute tool params c w) as [w1 res] eqn:He.
  destruct (finalize_output _ _ _ _); right; exists tool, c; rewrite He; split_and!; done.
Qed.
End SubtaskGate.

(** ** Witnesses *)

Section Witnesses.
#[local] Existing Instance json_lite.
#[local] Existing Instance dec_cents.

Definition sched_empty : Scheduler := sy_sched (sys_initial 1 1000 (manager_new 5) (Some ∅)).

Definition clock (id : Uuid) : DispatchInputs :=
  {| di_fresh := id; di_created := 1; di_now1 := 2; di_now2 := 3; di_saved := Ok tt; di_started := true |}.

Definition ask (meta : option json) : JobRequest :=
  {| jr_user_id := "ada"; jr_title := "t"; jr_description := "d"; jr_metadata := meta |}.

Definition sched_one : Scheduler := (dispatch_job_inner (ask None) (clock 7) sched_empty).1.

(** A job with no metadata gets the configured cap. *)
Lemma dispatch_outcome_witness :
  dispatch_job_inner (ask None) (clock 7) sched_empty = (sched_one, Ok 7%N) ∧
  ∃ c, contexts (sc_manager sched_one) !! 7%N = Some c ∧ state c = InProgress ∧ (0 < max_tokens c ≤ 1000)%Z.
Proof.
  assert (dispatch_job_inner (ask None) (clock 7) sched_empty = (sched_one, Ok 7%N)) as E
    by (apply pair_snd; vm_compute; reflexivity).
  split; [exact E|].
  destruct (dispatch_outcome (ask None) (clock 7) sched_empty sched_one 7) as (_ & (c & Hc & Hs & _ & _ & Hb) & _);
    [vm_compute; reflexivity|exact E|].
  exists c. split; [exact Hc|]. split; [exact Hs|]. apply Hb; [reflexivity|]. intros n Hn. discriminate.
Defined.

(** The step by which a pending job is scheduled. *)
Definition sys_pending : Sys :=
  sys_initial 1 1000 (create_job_for_user (manager_new 5) 7 1 "ada" "t" "d").1 None.
Definition sys_running : Sys := {|
  sy_sched := (schedule_locked 7 2 3 true (sy_sched sys_pending)).1; sy_stops := []; sy_cleanups := [(7%N, CpWatch)] |}.

Lemma sys_running_step may : may (sy_sched sys_pending) 7%N → sys_step may sys_pending sys_running.
Proof.
  intros Hmay. apply (step_scheduled may (sy_sched sys_pending) (sy_sched sys_running) [] [] 7 2 3 true 0); [exact Hmay|].
  apply pair_snd. vm_compute. reflexivity.
Qed.

Lemma workers_bounded_witness :
  length (List.filter running (sc_workers (sy_sched sys_running))) = 1 ∧
  length (List.filter running (sc_workers (sy_sched sys_running))) ≤ 1.
Proof.
  split; [vm_compute; reflexivity|].
  eapply (workers_bounded 1 1000 _ None sys_running). apply rtc_once, sys_running_step. constructor.
Defined.

(** A request for a budget of zero tokens lifts the cap: the job's budget stays zero,
    which the accounting takes for unlimited. *)
Lemma zero_lifts_cap :
  job_max_tokens 1000 (Some (json_object [("max_tokens", LRaw "0")])) = 0%Z ∧
  ∀ (c : JobContext) tokens, max_tokens c = 0%Z → (add_tokens c tokens).2 = Ok tt.
Proof.
  split; [vm_compute; reflexivity|]. intros c tokens H0. unfold add_tokens. cbn. by rewrite H0.
Qed.

(** A dispatch refused for want of a slot leaves the job it created behind, pending,
    in the manager and in the database, with nothing that would start it later. *)
Lemma refused_dispatch_leaves_job :
  let '(s, r) := dispatch_job_inner (ask None) (clock 8) sched_one in
  r = Err (MaxJobsExceeded 1) ∧ state <$> contexts (sc_manager s) !! 8%N = Some Pending ∧
  sc_store s ≫= (λ db, db !! 8%N) = Some Pending ∧ sc_jobs s !! 8%N = None.
Proof. vm_compute. done. Qed.

(** The clean-up task looks at the entry under one lock and removes it under another.
    When the entry goes away in between and the job, stuck, is scheduled again, the
    late removal drops the entry of the new worker, which then runs untracked. *)
Definition race_finished : Sys := {|
  sy_sched := set_sc_workers (alter finish_task 0 (sc_workers (sy_sched sys_running))) (sy_sched sys_running);
  sy_stops := []; sy_cleanups := [(7%N, CpWatch)] |}.
Definition race_decided : Sys := {| sy_sched := sy_sched race_finished; sy_stops := []; sy_cleanups := [(7%N, CpRemove)] |}.
Definition race_dropped : Sys := {|
  sy_sched := cleanup_finished_jobs (sy_sched race_decided); sy_stops := []; sy_cleanups := [(7%N, CpRemove)] |}.
Definition race_stuck : Sys := {|
  sy_sched := set_sc_manager (update_context (sc_manager (sy_sched race_dropped)) 7%N
    (λ c, transition_to c Stuck None 4 5)).1 (sy_sched race_dropped);
  sy_stops := []; sy_cleanups := [(7%N, CpRemove)] |}.
Definition race_again : Sys := {|
  sy_sched := (schedule_locked 7 6 7 true (sy_sched race_stuck)).1; sy_stops := [];
  sy_cleanups := [(7%N, CpWatch); (7%N, CpRemove)] |}.
Definition race_lost : Sys := {|
  sy_sched := remove_entry 7 (sy_sched race_again); sy_stops := []; sy_cleanups := [(7%N, CpWatch)] |}.

Lemma late_cleanup_drops_worker :
  rtc (sys_step (λ _ _, True)) sys_pending race_lost ∧
  map running (sc_workers (sy_sched race_lost)) = [false; true] ∧ sc_jobs (sy_sched race_lost) !! 7%N = None.
Proof.
  split; [|vm_compute; done].
  eapply rtc_l; [by apply sys_running_step|].
  eapply rtc_l with race_finished; [apply (step_finish _ (sy_sched sys_running) [] _ 0)|].
  eapply rtc_l with race_decided; [apply (step_cleanup_decide _ (sy_sched race_finished) [] [] [] 7); vm_compute; reflexivity|].
  eapply rtc_l with race_dropped; [apply (step_cleanup_all _ (sy_sched race_decided))|].
  eapply rtc_l with race_stuck; [apply (step_manager _ (sy_sched race_dropped))|].
  eapply rtc_l with race_again.
  { unfold race_again.
    apply (step_scheduled _ (sy_sched race_stuck) (schedule_locked 7 6 7 true (sy_sched race_stuck)).1
      [] [(7%N, CpRemove)] 7 6 7 true 1); [exact I|].
    apply pair_snd. vm_compute. reflexivity. }
  apply rtc_once. apply (step_cleanup_remove _ (sy_sched race_again) [] [(7%N, CpWatch)] [] 7).
Qed.
End Witnesses.
