(* ===== verification/SelfRepair.v ===== *)
(** * Self repair

    Models [src/src/agent/self_repair]: detecting stuck jobs and broken tools, the
    default repair policy with its limits and its claims, and the background task that
    repairs and notifies; and the tool-failure table of
    [src/src/db/libsql/tool_failures.rs] the limits are kept in.

    The builder of tools is an input of the repair; the database table is a map, and
    each of its operations can fail.  A repair of a tool has steps between which others
    run, so concurrent repairs are a step relation. *)

From stdpp Require Import sorting.
From S2P Require Import Prelude Text Externals LlmTypes JobState JobManager ToolExec.

(** ** Types *)

Record StuckJob := {
  sj_job_id : Uuid; sj_stuck_since : Utc; sj_stuck_duration : Duration; sj_last_error : option string;
  sj_repair_attempts : Z;
}.

Inductive RepairResult :=
| RrSuccess (message : string)
| RrRetry (message : string)
| RrFailed (message : string)
| RrManualRequired (message : string).

Inductive RepairError :=
| ReFailed (target_type : string) (target_id : Uuid) (reason : string)
| ReMaxAttemptsExceeded (target_type : string) (target_id : Uuid) (max : Z)
| ReDiagnosisFailed (target_type : string) (target_id : Uuid) (reason : string).

Inductive RepairNotificationRoute :=
| BroadcastAll (user_id : string)
| Broadcast (channel user_id : string).

Record RepairNotification := { rn_message : string; rn_route : RepairNotificationRoute }.

(** a row; [tf_repaired_at] is null until the tool is repaired *)
Record ToolFailureRow := {
  tf_error_message : option string; tf_error_count : Z; tf_first_failure : Utc; tf_last_failure : Utc;
  tf_last_build_result : option string; tf_repaired_at : option Utc; tf_repair_attempts : Z;
}.

Abbreviation FailureTable := (gmap string ToolFailureRow).

Section Types.
Context {J : SerdeJson}.

Record BrokenTool := {
  bt_name : string; bt_failure_count : Z; bt_last_error : option string; bt_first_failure : Utc; bt_last_failure : Utc;
  bt_last_build_result : option json; bt_repair_attempts : Z;
}.

(** ** The table of tool failures *)

Definition record_tool_failure (name message : string) (now : Utc) (t : FailureTable) : FailureTable :=
  <[name := match t !! name with
     | Some r => {|
         tf_error_message := Some message; tf_error_count := tf_error_count r + 1; tf_first_failure := tf_first_failure r;
         tf_last_failure := now; tf_last_build_result := tf_last_build_result r; tf_repaired_at := None;
         tf_repair_attempts := tf_repair_attempts r |}
     | None => {|
         tf_error_message := Some message; tf_error_count := 1; tf_first_failure := now; tf_last_failure := now;
         tf_last_build_result := None; tf_repaired_at := None; tf_repair_attempts := 0 |}
     end]> t.

Definition broken_tool_of (name : string) (r : ToolFailureRow) : BrokenTool := {|
  bt_name := name; bt_failure_count := tf_error_count r mod 2 ^ 32; bt_last_error := tf_error_message r;
  bt_first_failure := tf_first_failure r; bt_last_failure := tf_last_failure r;
  bt_last_build_result := tf_last_build_result r ≫= json_from_str; bt_repair_attempts := tf_repair_attempts r mod 2 ^ 32 |}.

Definition by_error_count (a b : string * ToolFailureRow) : Prop := (tf_error_count b.2 ≤ tf_error_count a.2)%Z.

#[local] Instance by_error_count_dec : RelDecision by_error_count.
Proof. unfold by_error_count. solve_decision. Defined.

Definition get_broken_tools (threshold : Z) (t : FailureTable) : list BrokenTool :=
  (λ nr, broken_tool_of nr.1 nr.2) <$>
    merge_sort by_error_count
      (filter (λ nr, (threshold ≤ tf_error_count nr.2)%Z ∧ tf_repaired_at nr.2 = None) (map_to_list t)).

Definition get_broken_tool_by_name (name : string) (t : FailureTable) : option BrokenTool :=
  r ← t !! name;
  match tf_repaired_at r with Some _ => None | None => Some (broken_tool_of name r) end.

Definition repair_row (now : Utc) (r : ToolFailureRow) : ToolFailureRow := {|
  tf_error_message := tf_error_message r; tf_error_count := 0; tf_first_failure := tf_first_failure r;
  tf_last_failure := tf_last_failure r; tf_last_build_result := tf_last_build_result r; tf_repaired_at := Some now;
  tf_repair_attempts := tf_repair_attempts r |}.

Definition mark_tool_repaired (name : string) (now : Utc) (t : FailureTable) : FailureTable :=
  alter (repair_row now) name t.

Definition count_attempt (r : ToolFailureRow) : ToolFailureRow := {|
  tf_error_message := tf_error_message r; tf_error_count := tf_error_count r; tf_first_failure := tf_first_failure r;
  tf_last_failure := tf_last_failure r; tf_last_build_result := tf_last_build_result r;
  tf_repaired_at := tf_repaired_at r; tf_repair_attempts := tf_repair_attempts r + 1 |}.

Definition increment_repair_attempts (name : string) (t : FailureTable) : FailureTable := alter count_attempt name t.
End Types.

(** ** Stuck jobs *)

Section StuckJobs.
Context {J : SerdeJson} {D : RustDecimal} {T : UuidText}.
Variables (stuck_threshold : Duration) (max_repair_attempts : Z).

Definition duration_since (now start : Utc) : Duration := millis (Z.max 0 (Z.quot (now - start) 1000000)).

(** the loop's body *)
Definition detect_stuck (now : Utc) (c : JobContext) : option StuckJob :=
  since ← stuck_since c;
  let d := duration_since now since in
  if (d <? stuck_threshold)%Z then None
  else Some {| sj_job_id := job_id c; sj_stuck_since := since; sj_stuck_duration := d; sj_last_error := None;
               sj_repair_attempts := repair_attempts c |}.

Definition detect_stuck_jobs (now : Utc) (m : ContextManager) : list StuckJob :=
  omap (detect_stuck now) (find_stuck_contexts m).

Definition repair_stuck_job (now1 now2 : Utc) (job : StuckJob) (m : ContextManager) :
    ContextManager * result RepairResult RepairError :=
  let id := sj_job_id job in
  if (max_repair_attempts <=? sj_repair_attempts job)%Z then
    (m, Ok (RrManualRequired ("Job " +:+ uuid_to_string id +:+ " has exceeded maximum repair attempts ("
                              +:+ pretty max_repair_attempts +:+ ")")))
  else
    match update_context m id (λ c, attempt_recovery c now1 now2) with
    | (m, Ok (Ok _)) => (m, Ok (RrSuccess ("Job " +:+ uuid_to_string id +:+ " recovered and will be retried")))
    | (m, Ok (Err NotStuck)) => (m, Ok (RrSuccess ("Job " +:+ uuid_to_string id +:+ " already recovered")))
    | (m, Ok (Err (InvariantViolation reason))) => (m, Err (ReFailed "job" id reason))
    | (m, Err e) => (m, Err (ReFailed "job" id (job_error_display e)))
    end.
End StuckJobs.

(** ** Broken tools *)

Inductive SoftwareType := SwWasmTool | SwCliBinary | SwLibrary | SwScript | SwWebService.

Inductive Language := LRust | LPython | LTypeScript | LJavaScript | LGo | LBash.

Definition project_name_char (c : Ascii.ascii) : bool :=
  ascii_alphanumeric c || bool_decide (c ∈ [byte 45; byte 95]).

(** [ProjectName::new] *)
Definition project_name_new (value : string) : result string string :=
  if bool_decide (value = "") then Err "project name must not be empty"
  else if negb (all_chars project_name_char value) then
    Err "project name must contain only ASCII letters, digits, '-' or '_'"
  else Ok value.

Record BuildRequirement := {
  br_name : string; br_description : string; br_software_type : SoftwareType; br_language : Language;
  br_input_spec : option string; br_output_spec : option string; br_dependencies : list string;
  br_capabilities : list string;
}.

(** What a repair looks at in a [BuildResult]. *)
Record BuildResult := { bres_success : bool; bres_iterations : Z; bres_error : option string; bres_registered : bool }.

(** the names of the tools being repaired *)
Abbreviation RepairClaims := (gset string).

Section BrokenTools.
Context {J : SerdeJson}.

Definition build_repair_requirement (tool : BrokenTool) : result BuildRequirement RepairError :=
  match project_name_new (bt_name tool) with
  | Err error => Err (ReFailed "tool" 0%N ("invalid tool name '" +:+ bt_name tool +:+ "' for repair build: " +:+ error))
  | Ok name => Ok {|
      br_name := name;
      br_description := "Repair broken WASM tool." +:+ newline +:+ newline +:+ "Tool name: " +:+ bt_name tool +:+ newline
        +:+ "Previous error: " +:+ default "Unknown error" (bt_last_error tool) +:+ newline
        +:+ "Failure count: " +:+ pretty (bt_failure_count tool) +:+ newline +:+ newline
        +:+ "Analyse the error, fix the implementation, and rebuild.";
      br_software_type := SwWasmTool; br_language := LRust; br_input_spec := None; br_output_spec := None;
      br_dependencies := []; br_capabilities := ["http"; "workspace"] |}
  end.

(** Whether the repair has a builder and a database, and how these answer. *)
Record RepairInputs := {
  ri_builder : bool;
  ri_store : bool;
  ri_loaded : result unit string;
  ri_incremented : result unit string;
  ri_built : BuildRequirement → result BuildResult string;
  ri_marked : result unit string;
  ri_now : Utc;
}.

Definition validate_repair_preconditions (i : RepairInputs) (tool : BrokenTool) : option RepairResult :=
  if negb (ri_builder i) then
    Some (RrManualRequired ("Builder not available for repairing tool '" +:+ bt_name tool +:+ "'"))
  else if negb (ri_store i) then Some (RrManualRequired "Store not available for tracking repair")
  else None.

Definition iteration_word (n : Z) : string := if (n =? 1)%Z then "iteration" else "iterations".

Definition handle_build_result (i : RepairInputs) (r : BuildResult) (tool : BrokenTool) (t : FailureTable) :
    FailureTable * result RepairResult RepairError :=
  if bres_success r then
    match ri_marked i with
    | Err e => (t, Err (ReFailed "tool" 0%N ("failed to mark " +:+ bt_name tool +:+ " as repaired: " +:+ e)))
    | Ok _ =>
        (mark_tool_repaired (bt_name tool) (ri_now i) t,
         Ok (RrSuccess ("Tool '" +:+ bt_name tool +:+ "' repaired successfully after " +:+ pretty (bres_iterations r)
                        +:+ " " +:+ iteration_word (bres_iterations r))))
    end
  else
    (t, Ok (RrRetry ("Repair attempt " +:+ pretty (bt_repair_attempts tool + 1)%Z +:+ " for '" +:+ bt_name tool
                     +:+ "' failed: " +:+ default "Unknown error" (bres_error r)))).

Definition attempt_repair_build (i : RepairInputs) (tool : BrokenTool) (req : BuildRequirement) (t : FailureTable) :
    FailureTable * result RepairResult RepairError :=
  match ri_built i req with
  | Ok r => handle_build_result i r tool t
  | Err e => (t, Ok (RrRetry ("Repair build error: " +:+ e)))
  end.

(** The checks of [execute_repair] up to the count of the attempt. *)
Definition repair_checks (max_repair_attempts : Z) (tool : BrokenTool) : BuildRequirement + result RepairResult RepairError :=
  if (max_repair_attempts <=? bt_repair_attempts tool)%Z then
    inr (Ok (RrManualRequired ("Tool '" +:+ bt_name tool +:+ "' exceeded max repair attempts ("
                               +:+ pretty max_repair_attempts +:+ ")")))
  else match build_repair_requirement tool with
       | Err e => inr (Err e)
       | Ok req => inl req
       end.

Definition execute_repair (max_repair_attempts : Z) (i : RepairInputs) (tool : BrokenTool) (t : FailureTable) :
    FailureTable * result RepairResult RepairError :=
  match repair_checks max_repair_attempts tool with
  | inr r => (t, r)
  | inl req =>
      match ri_incremented i with
      | Err e =>
          (t, Err (ReFailed "tool" 0%N ("failed to increment repair attempts for " +:+ bt_name tool +:+ ": " +:+ e)))
      | Ok _ => attempt_repair_build i tool req (increment_repair_attempts (bt_name tool) t)
      end
  end.

Definition resolve_tool_for_repair (loaded : result unit string) (tool : BrokenTool) (t : FailureTable) :
    result BrokenTool RepairError :=
  match loaded with
  | Err e => Err (ReFailed "tool" 0%N ("failed to reload repair attempts for " +:+ bt_name tool +:+ ": " +:+ e))
  | Ok _ => Ok (default tool (get_broken_tool_by_name (bt_name tool) t))
  end.

(** ** Claims *)

(** [None] when the tool is being repaired.  The error for a poisoned mutex is left out: the lock is
    held only while a name is inserted or removed, which does not panic. *)
Definition claim_tool (tool : BrokenTool) (claims : RepairClaims) : option RepairClaims :=
  if bool_decide (bt_name tool ∈ claims) then None else Some ({[bt_name tool]} ∪ claims).

(** the guard's [drop] *)
Definition release_claim (name : string) (claims : RepairClaims) : RepairClaims := claims ∖ {[name]}.

(** The whole repair, when nothing runs in between. *)
Definition repair_broken_tool (max_repair_attempts : Z) (i : RepairInputs) (tool : BrokenTool)
    (s : RepairClaims * FailureTable) : (RepairClaims * FailureTable) * result RepairResult RepairError :=
  let '(claims, t) := s in
  match validate_repair_preconditions i tool with
  | Some r => (s, Ok r)
  | None =>
      match claim_tool tool claims with
      | None => (s, Ok (RrRetry ("Repair already in progress for '" +:+ bt_name tool +:+ "'")))
      | Some claims' =>
          let '(t', r) :=
            match resolve_tool_for_repair (ri_loaded i) tool t with
            | Err e => (t, Err e)
            | Ok tool' => execute_repair max_repair_attempts i tool' t
            end in
          ((release_claim (bt_name tool) claims', t'), r)
      end
  end.

Definition detect_broken_tools (store : option FailureTable) (answered : bool) : list BrokenTool :=
  match store with
  | None => []
  | Some t => if answered then get_broken_tools 5 t else []
  end.
End BrokenTools.

(** ** The background task *)

(** What the task asks of a repair policy, in a world [W]; the tools and jobs it
    detects, and the repair of each. *)
Class SelfRepair (W : Type) {J : SerdeJson} := {
  sr_detect_stuck_jobs : W → list StuckJob;
  sr_repair_stuck_job : StuckJob → W → W * result RepairResult RepairError;
  sr_detect_broken_tools : W → list BrokenTool;
  sr_repair_broken_tool : BrokenTool → W → W * result RepairResult RepairError;
}.

Section Task.
Context {J : SerdeJson} {T : UuidText} {W : Type} `{!SelfRepair W}.
Variable notification_route : RepairNotificationRoute.

(** The task's state: the world, who was escalated already, and what was sent to the
    observer. *)
Record TaskState := {
  ts_world : W; ts_escalated_jobs : gset Uuid; ts_escalated_tools : gset string; ts_sent : list RepairNotification;
}.

Definition task_initial (w : W) : TaskState :=
  {| ts_world := w; ts_escalated_jobs := ∅; ts_escalated_tools := ∅; ts_sent := [] |}.

Definition set_ts_world (w : W) (s : TaskState) : TaskState := {|
  ts_world := w; ts_escalated_jobs := ts_escalated_jobs s; ts_escalated_tools := ts_escalated_tools s; ts_sent := ts_sent s |}.
Definition set_ts_escalated_jobs (v : gset Uuid) (s : TaskState) : TaskState := {|
  ts_world := ts_world s; ts_escalated_jobs := v; ts_escalated_tools := ts_escalated_tools s; ts_sent := ts_sent s |}.
Definition set_ts_escalated_tools (v : gset string) (s : TaskState) : TaskState := {|
  ts_world := ts_world s; ts_escalated_jobs := ts_escalated_jobs s; ts_escalated_tools := v; ts_sent := ts_sent s |}.

(** to an observer that takes it *)
Definition send_notification (message : string) (s : TaskState) : TaskState := {|
  ts_world := ts_world s; ts_escalated_jobs := ts_escalated_jobs s; ts_escalated_tools := ts_escalated_tools s;
  ts_sent := ts_sent s ++ [{| rn_message := message; rn_route := notification_route |}] |}.

Definition duration_secs (d : Duration) : Z := Z.quot d 1000000000.

Definition job_success_message (job : StuckJob) (message : string) : string :=
  "Job " +:+ uuid_to_string (sj_job_id job) +:+ " was stuck for " +:+ pretty (duration_secs (sj_stuck_duration job))
  +:+ "s, recovery succeeded: " +:+ message.
Definition job_failed_message (job : StuckJob) (message : string) : string :=
  "Job " +:+ uuid_to_string (sj_job_id job) +:+ " was stuck for " +:+ pretty (duration_secs (sj_stuck_duration job))
  +:+ "s, recovery failed permanently: " +:+ message.
Definition job_manual_message (job : StuckJob) (message : string) : string :=
  "Job " +:+ uuid_to_string (sj_job_id job) +:+ " needs manual intervention: " +:+ message.

Definition report_job (job : StuckJob) (r : result RepairResult RepairError) (s : TaskState) : TaskState :=
  match r with
  | Ok (RrSuccess message) => send_notification (job_success_message job message) s
  | Ok (RrRetry _) => s
  | Ok (RrFailed message) => send_notification (job_failed_message job message) s
  | Ok (RrManualRequired message) =>
      if bool_decide (sj_job_id job ∈ ts_escalated_jobs s) then s
      else send_notification (job_manual_message job message)
             (set_ts_escalated_jobs ({[sj_job_id job]} ∪ ts_escalated_jobs s) s)
  | Err _ => s
  end.

Definition repair_job_step (s : TaskState) (job : StuckJob) : TaskState :=
  let '(w, r) := sr_repair_stuck_job job (ts_world s) in
  report_job job r (set_ts_world w s).

(** How many of a pass's waits a shutdown lets by; [None] when there is none.  A repair
    the shutdown cuts off is taken not to have happened. *)
Definition shut_before (shutdown : option nat) (n : nat) : bool :=
  match shutdown with Some k => k <=? n | None => false end.

(** The loop over the things to repair, the first of which is wait [n] of the pass;
    false when a shutdown ended it. *)
Fixpoint repair_loop {A} (step : TaskState → A → TaskState) (shutdown : option nat) (n : nat) (l : list A) (s : TaskState) :
    TaskState * bool :=
  match l with
  | [] => (s, true)
  | x :: l => if shut_before shutdown n then (s, false) else repair_loop step shutdown (S n) l (step s x)
  end.

Definition run_stuck_job_repairs (shutdown : option nat) (s : TaskState) : TaskState * bool :=
  if shut_before shutdown 0 then (s, false)
  else
    let stuck_jobs := sr_detect_stuck_jobs (ts_world s) in
    let stuck_job_ids : gset Uuid := list_to_set (sj_job_id <$> stuck_jobs) in
    match repair_loop repair_job_step shutdown 1 stuck_jobs s with
    | (s, false) => (s, false)
    | (s, true) => (set_ts_escalated_jobs (ts_escalated_jobs s ∩ stuck_job_ids) s, true)
    end.

Definition report_tool (tool : BrokenTool) (r : result RepairResult RepairError) (s : TaskState) : TaskState :=
  match r with
  | Ok (RrSuccess message) => send_notification ("Tool '" +:+ bt_name tool +:+ "' repaired: " +:+ message) s
  | Ok (RrFailed message) => send_notification ("Tool '" +:+ bt_name tool +:+ "' repair failed: " +:+ message) s
  | Ok (RrManualRequired message) =>
      if bool_decide (bt_name tool ∈ ts_escalated_tools s) then s
      else send_notification ("Tool '" +:+ bt_name tool +:+ "' needs manual intervention: " +:+ message)
             (set_ts_escalated_tools ({[bt_name tool]} ∪ ts_escalated_tools s) s)
  | Ok (RrRetry _) => s
  | Err _ => s
  end.

Definition repair_tool_step (s : TaskState) (tool : BrokenTool) : TaskState :=
  let '(w, r) := sr_repair_broken_tool tool (ts_world s) in
  report_tool tool r (set_ts_world w s).

Definition run_broken_tool_repairs (shutdown : option nat) (s : TaskState) : TaskState * bool :=
  if shut_before shutdown 0 then (s, false)
  else
    let broken_tools := sr_detect_broken_tools (ts_world s) in
    let broken_tool_names : gset string := list_to_set (bt_name <$> broken_tools) in
    match repair_loop repair_tool_step shutdown 1 broken_tools s with
    | (s, false) => (s, false)
    | (s, true) => (set_ts_escalated_tools (ts_escalated_tools s ∩ broken_tool_names) s, true)
    end.

(** One turn of the loop in [RepairTask::run], with the shutdowns seen by its two
    passes; false when the task ends.  Between turns the world changes. *)
Definition repair_turn (shutdown1 shutdown2 : option nat) (s : TaskState) : TaskState * bool :=
  match run_stuck_job_repairs shutdown1 s with
  | (s, false) => (s, false)
  | (s, true) => run_broken_tool_repairs shutdown2 s
  end.
End Task.
Arguments TaskState : clear implicits.

(** ** Concurrent repairs *)

(** Where a repair of a tool is: it holds the claim; it has the tool it works on, read
    from the table or, when the table has none, as it was given; it builds. *)
Inductive RepairPhase {J : SerdeJson} :=
| RpClaimed (given : BrokenTool)
| RpResolved (tool : BrokenTool) (from_table : bool)
| RpBuilding.

Section Concurrent.
Context {J : SerdeJson}.

Record RepairSys := {
  rs_claims : RepairClaims; rs_table : FailureTable; rs_repairs : list (string * RepairPhase);
}.

Inductive repair_step (max : Z) : RepairSys → RepairSys → Prop :=
| rstep_claim claims claims' t rs tool :
    claim_tool tool claims = Some claims' →
    repair_step max {| rs_claims := claims; rs_table := t; rs_repairs := rs |}
      {| rs_claims := claims'; rs_table := t; rs_repairs := (bt_name tool, RpClaimed tool) :: rs |}
| rstep_resolve claims t rs rs' name given tool :
    resolve_tool_for_repair (Ok tt) given t = Ok tool →
    repair_step max {| rs_claims := claims; rs_table := t; rs_repairs := rs ++ (name, RpClaimed given) :: rs' |}
      {| rs_claims := claims; rs_table := t;
         rs_repairs := rs ++ (name, RpResolved tool (bool_decide (is_Some (get_broken_tool_by_name (bt_name given) t)))) :: rs' |}
| rstep_count claims t rs rs' name tool b req :
    repair_checks max tool = inl req →
    repair_step max {| rs_claims := claims; rs_table := t; rs_repairs := rs ++ (name, RpResolved tool b) :: rs' |}
      {| rs_claims := claims; rs_table := increment_repair_attempts (bt_name tool) t;
         rs_repairs := rs ++ (name, RpBuilding) :: rs' |}
| rstep_repaired claims t rs rs' name now :
    repair_step max {| rs_claims := claims; rs_table := t; rs_repairs := rs ++ (name, RpBuilding) :: rs' |}
      {| rs_claims := claims; rs_table := mark_tool_repaired name now t; rs_repairs := rs ++ (name, RpBuilding) :: rs' |}
| rstep_end claims t rs rs' name phase :
    (** it returns, with an error or not, and drops the claim *)
    repair_step max {| rs_claims := claims; rs_table := t; rs_repairs := rs ++ (name, phase) :: rs' |}
      {| rs_claims := release_claim name claims; rs_table := t; rs_repairs := rs ++ rs' |}
| rstep_failure claims t rs name message now :
    repair_step max {| rs_claims := claims; rs_table := t; rs_repairs := rs |}
      {| rs_claims := claims; rs_table := record_tool_failure name message now t; rs_repairs := rs |}.

Definition repair_initial (t : FailureTable) : RepairSys := {| rs_claims := ∅; rs_table := t; rs_repairs := [] |}.
End Concurrent.

(** * Theorems *)

(** ** Escalation *)

Section Escalation.
Context {J : SerdeJson} {T : UuidText} {W : Type} `{!SelfRepair W}.
Variable route : RepairNotificationRoute.

(** The repairs of a pass and their results. *)
Fixpoint repair_results (w : W) (jobs : list StuckJob) : W * list (StuckJob * result RepairResult RepairError) :=
  match jobs with
  | [] => (w, [])
  | job :: jobs =>
      let '(w, r) := sr_repair_stuck_job job w in
      let '(w, rs) := repair_results w jobs in
      (w, (job, r) :: rs)
  end.

(** What is to be said of a result; of a job that was escalated before, not that it
    needs attention. *)
Definition job_report (escalated : gset Uuid) (jr : StuckJob * result RepairResult RepairError) : list string :=
  match jr.2 with
  | Ok (RrSuccess message) => [job_success_message jr.1 message]
  | Ok (RrFailed message) => [job_failed_message jr.1 message]
  | Ok (RrManualRequired message) =>
      if bool_decide (sj_job_id jr.1 ∈ escalated) then [] else [job_manual_message jr.1 message]
  | Ok (RrRetry _) | Err _ => []
  end.

Definition needs_manual (jr : StuckJob * result RepairResult RepairError) : bool :=
  match jr.2 with Ok (RrManualRequired _) => true | _ => false end.

Definition to_route (m : string) : RepairNotification := {| rn_message := m; rn_route := route |}.

Lemma job_report_other escalated id jr :
  sj_job_id jr.1 ≠ id → job_report ({[id]} ∪ escalated) jr = job_report escalated jr.
Proof.
  intros Hne. unfold job_report. destruct jr.2 as [[]|]; try done.
  rewrite (bool_decide_ext _ (sj_job_id jr.1 ∈ escalated)); [done|]. rewrite elem_of_union, elem_of_singleton. tauto.
Qed.

Lemma repair_results_jobs w jobs : (repair_results w jobs).2.*1 = jobs.
Proof.
  revert w. induction jobs as [|job jobs IH]; intros w; [done|]. cbn.
  destruct (sr_repair_stuck_job job w) as [w' r]. specialize (IH w').
  destruct (repair_results w' jobs) as [w'' rs]. cbn in *. by rewrite IH.
Qed.

Lemma report_job_spec job r (s : TaskState W) :
  ts_world (report_job route job r s) = ts_world s ∧
  ts_escalated_tools (report_job route job r s) = ts_escalated_tools s ∧
  ts_sent (report_job route job r s) = ts_sent s ++ (to_route <$> job_report (ts_escalated_jobs s) (job, r)) ∧
  ts_escalated_jobs (report_job route job r s) =
    (if needs_manual (job, r) then {[sj_job_id job]} ∪ ts_escalated_jobs s else ts_escalated_jobs s).
Proof.
  unfold report_job, job_report, needs_manual. destruct r as [[]|]; cbn; rewrite ?app_nil_r; try done.
  case_bool_decide as Hin; cbn; rewrite ?app_nil_r; [|done]. split_and!; [done..|].
  apply set_eq. intros x. rewrite elem_of_union, elem_of_singleton. naive_solver.
Qed.

Lemma repair_jobs_spec jobs (s : TaskState W) :
  NoDup (sj_job_id <$> jobs) →
  let '(w, rs) := repair_results (ts_world s) jobs in
  let s' := foldl (repair_job_step route) s jobs in
  ts_world s' = w ∧ ts_escalated_tools s' = ts_escalated_tools s ∧
  ts_sent s' = ts_sent s ++ (to_route <$> concat (job_report (ts_escalated_jobs s) <$> rs)) ∧
  ∀ id, id ∈ ts_escalated_jobs s' ↔
    id ∈ ts_escalated_jobs s ∨ ∃ jr, jr ∈ rs ∧ needs_manual jr = true ∧ sj_job_id jr.1 = id.
Proof.
  revert s. induction jobs as [|job jobs IH]; intros s Hnd.
  { cbn. rewrite app_nil_r. split_and!; [done..|]. intros id. split; [by left|]. intros [?|(jr & Hin & _)]; [done|].
    by apply not_elem_of_nil in Hin. }
  cbn in Hnd. apply NoDup_cons in Hnd as [Hni Hnd]. cbn [repair_results foldl].
  destruct (sr_repair_stuck_job job (ts_world s)) as [w1 r] eqn:Hr.
  set (s1 := report_job route job r (set_ts_world w1 s)).
  assert (repair_job_step route s job = s1) as -> by (unfold repair_job_step; by rewrite Hr).
  destruct (report_job_spec job r (set_ts_world w1 s)) as (Ew & Et & Es & Ee). fold s1 in Ew, Et, Es, Ee.
  cbn in Ew, Et, Es, Ee. specialize (IH s1 Hnd). rewrite Ew in IH.
  pose proof (repair_results_jobs w1 jobs) as Hjobs. destruct (repair_results w1 jobs) as [w rs]. cbn in Hjobs.
  destruct IH as (Hw & Htl & Hs & He). split_and!; [done|by etrans| |].
  - rewrite Hs, Es. cbn. rewrite fmap_app, (assoc_L (++)). do 3 f_equal.
    apply list_fmap_ext. intros i jr Hjr. rewrite Ee. destruct (needs_manual (job, r)); [|done].
    apply job_report_other. intros E. apply Hni. rewrite <- E, <- Hjobs. rewrite <- list_fmap_compose.
    apply list_elem_of_fmap. exists jr. split; [done|by eapply list_elem_of_lookup_2].
  - intros id. rewrite He, Ee. setoid_rewrite elem_of_cons. destruct (needs_manual (job, r)) eqn:Hm.
    + rewrite elem_of_union, elem_of_singleton. split.
      * intros [[->|?]|(jr & ? & ? & ?)]; [right; by exists (job, r); split_and!; [left|..]|by left|right; exists jr; eauto].
      * intros [?|(jr & [->|?] & ? & <-)]; [by left; right|by left; left|right; exists jr; eauto].
    + split; [naive_solver|]. intros [?|(jr & [->|?] & ? & <-)]; [by left|congruence|right; exists jr; eauto].
Qed.

Lemma repair_loop_done {A} (step : TaskState W → A → TaskState W) shutdown n l s s' :
  repair_loop step shutdown n l s = (s', true) → s' = foldl step s l.
Proof.
  revert n s. induction l as [|x l IH]; intros n s; cbn; [by intros [= ->]|].
  destruct (shut_before shutdown n); [done|]. apply IH.
Qed.

(** A pass of the repair task that no shutdown ends, whatever the policy does: each
    stuck job is repaired once, in order; what is sent is exactly what each result calls
    for, except that a job escalated in an earlier pass, and stuck in every pass since,
    is not escalated again; and the jobs remembered as escalated are those stuck in this
    pass that were escalated before or need attention now. *)
Theorem escalated_once shutdown (s s' : TaskState W)
    (Hids : NoDup (sj_job_id <$> sr_detect_stuck_jobs (ts_world s)))
    (Hrun : run_stuck_job_repairs route shutdown s = (s', true)) :
  let jobs := sr_detect_stuck_jobs (ts_world s) in
  let '(w, rs) := repair_results (ts_world s) jobs in
  rs.*1 = jobs ∧ ts_world s' = w ∧
  ts_sent s' = ts_sent s ++ (to_route <$> concat (job_report (ts_escalated_jobs s) <$> rs)) ∧
  ∀ id, id ∈ ts_escalated_jobs s' ↔
    id ∈ sj_job_id <$> jobs ∧
    (id ∈ ts_escalated_jobs s ∨ ∃ jr, jr ∈ rs ∧ needs_manual jr = true ∧ sj_job_id jr.1 = id).
Proof.
  intros jobs. pose proof (repair_jobs_spec jobs s Hids) as Hspec. pose proof (repair_results_jobs (ts_world s) jobs) as Hj.
  unfold run_stuck_job_repairs in Hrun. fold jobs in Hrun. destruct (shut_before shutdown 0); [done|].
  destruct (repair_loop _ shutdown 1 jobs s) as [s1 []] eqn:E; [|done]. apply repair_loop_done in E. injection Hrun as <-.
  destruct (repair_results (ts_world s) jobs) as [w rs]. destruct Hspec as (Hw & Ht & Hs & He). rewrite <- E in Hw, Hs, He.
  split_and!; [done|done|done|]. intros id. cbn [set_ts_escalated_jobs ts_escalated_jobs].
  rewrite elem_of_intersection, elem_of_list_to_set, He. tauto.
Qed.
End Escalation.

(** ** What a pass does to the jobs *)

Section StuckPass.
Context {J : SerdeJson} {D : RustDecimal} {T : UuidText}.
Variables (threshold : Duration) (max : Z) (now : Utc) (clock1 clock2 : Uuid → Utc).

Definition repair_one (m : ContextManager) (job : StuckJob) : ContextManager :=
  (repair_stuck_job max (clock1 (sj_job_id job)) (clock2 (sj_job_id job)) job m).1.

(** A job a pass recovers: stuck for the threshold at least, with an attempt left. *)
Definition recoverable (c : JobContext) : bool :=
  bool_decide (state c = Stuck) && match detect_stuck threshold now c with
                                   | Some j => (sj_repair_attempts j <? max)%Z
                                   | None => false
                                   end.

Lemma repair_one_contexts m job id :
  contexts (repair_one m job) !! id =
    if bool_decide (sj_job_id job = id) && (sj_repair_attempts job <? max)%Z
    then (λ c, (attempt_recovery c (clock1 id) (clock2 id)).1) <$> contexts m !! id
    else contexts m !! id.
Proof.
  unfold repair_one, repair_stuck_job. rewrite Z.ltb_antisym.
  destruct (max <=? sj_repair_attempts job)%Z; cbn [negb]; [by rewrite andb_false_r|]. rewrite andb_true_r.
  unfold update_context. case_bool_decide as Hid.
  - subst id. destruct (contexts m !! sj_job_id job) as [c|] eqn:E; cbn; [|done].
    destruct (attempt_recovery c _ _) as [c' [?|[]]]; cbn; by rewrite lookup_insert_eq.
  - destruct (contexts m !! sj_job_id job) as [c|] eqn:E; cbn; [|done].
    destruct (attempt_recovery c _ _) as [c' [?|[]]]; cbn; by rewrite lookup_insert_ne.
Qed.

Definition repairs (id : Uuid) (job : StuckJob) : bool :=
  bool_decide (sj_job_id job = id) && (sj_repair_attempts job <? max)%Z.

Lemma repair_all_contexts jobs m id :
  NoDup (sj_job_id <$> jobs) →
  contexts (foldl repair_one m jobs) !! id =
    if existsb (repairs id) jobs then (λ c, (attempt_recovery c (clock1 id) (clock2 id)).1) <$> contexts m !! id
    else contexts m !! id.
Proof.
  revert m. induction jobs as [|job jobs IH]; intros m Hnd; [done|].
  cbn in Hnd. apply NoDup_cons in Hnd as [Hni Hnd]. cbn [foldl existsb]. rewrite IH, repair_one_contexts by done.
  fold (repairs id job). destruct (repairs id job) eqn:Hr; [|done]. cbn [orb].
  assert (existsb (repairs id) jobs = false) as ->; [|done].
  apply not_true_is_false. intros (j & Hj & Hrj)%existsb_exists. apply Hni, list_elem_of_fmap. exists j.
  apply andb_true_iff in Hr as [->%bool_decide_eq_true_1 _]. apply andb_true_iff in Hrj as [<-%bool_decide_eq_true_1 _].
  split; [done|by apply list_elem_of_In].
Qed.

Lemma detect_stuck_id c j : detect_stuck threshold now c = Some j → sj_job_id j = job_id c.
Proof. unfold detect_stuck. destruct (stuck_since c); cbn; [|done]. case_match; naive_solver. Qed.

Lemma omap_ids_sublist l :
  (sj_job_id <$> omap (detect_stuck threshold now) l) `sublist_of` (job_id <$> l).
Proof.
  induction l as [|c l IH]; [done|]. cbn. destruct (detect_stuck threshold now c) as [j|] eqn:E; cbn.
  - rewrite (detect_stuck_id c j E). by apply sublist_skip.
  - by apply sublist_cons.
Qed.

Lemma map_values_ids (m : gmap Uuid JobContext) :
  (∀ id c, m !! id = Some c → job_id c = id) → job_id <$> map_values m = (map_to_list m).*1.
Proof.
  intros Hk. unfold map_values. rewrite <- list_fmap_compose. apply list_fmap_ext. intros i [id c] Hi.
  cbn. apply Hk, elem_of_map_to_list. by eapply list_elem_of_lookup_2.
Qed.

(** A pass over the stuck jobs recovers exactly those that have been stuck for the
    threshold at least and have an attempt left, each once and each under the limit;
    every other job is left as it was. *)
Theorem stuck_pass_exact m (Hkeys : ∀ id c, contexts m !! id = Some c → job_id c = id) id :
  contexts (foldl repair_one m (detect_stuck_jobs threshold now m)) !! id =
    (λ c, if recoverable c then (attempt_recovery c (clock1 id) (clock2 id)).1 else c) <$> contexts m !! id.
Proof.
  pose proof (map_values_ids _ Hkeys) as Hids.
  rewrite repair_all_contexts.
  2: { unfold detect_stuck_jobs, find_stuck_contexts. eapply sublist_NoDup; [|apply omap_ids_sublist].
       eapply sublist_NoDup; [|apply fmap_sublist, sublist_filter]. rewrite Hids. apply NoDup_fst_map_to_list. }
  destruct (contexts m !! id) as [c|] eqn:Hc; cbn; [|by destruct (existsb _ _)].
  assert (existsb (repairs id) (detect_stuck_jobs threshold now m) = recoverable c) as ->; [|by destruct (recoverable c)].
  assert (∀ c', c' ∈ find_stuck_contexts m ∧ job_id c' = id ↔ c' = c ∧ state c = Stuck) as Hfind.
  { intros c'. unfold find_stuck_contexts, map_values. rewrite list_elem_of_filter, list_elem_of_fmap. split.
    - intros [(Hst & [id' c2] & -> & Hin%elem_of_map_to_list) Hid]. cbn in *. rewrite <- Hid, (Hkeys _ _ Hin) in Hc.
      naive_solver.
    - intros [-> Hst]. split; [|by apply Hkeys]. split; [done|]. exists (id, c). split; [done|]. by apply elem_of_map_to_list. }
  unfold recoverable, detect_stuck_jobs. apply eq_bool_prop_intro. rewrite !Is_true_true, existsb_exists, andb_true_iff. split.
  - intros (j & Hin & (Hid%bool_decide_eq_true_1 & Hlt)%andb_true_iff).
    apply list_elem_of_In, list_elem_of_omap in Hin as (c' & Hc' & Hd).
    destruct (proj1 (Hfind c')) as [-> Hst]; [split; [done|]; by rewrite <- Hid, (detect_stuck_id _ _ Hd)|].
    rewrite Hd. by rewrite bool_decide_eq_true_2.
  - intros [Hst%bool_decide_eq_true_1 Hd]. destruct (detect_stuck threshold now c) as [j|] eqn:E; [|done].
    exists j. split.
    + apply list_elem_of_In, list_elem_of_omap. exists c. split; [|done]. by apply (Hfind c).
    + unfold repairs. rewrite Hd, (detect_stuck_id _ _ E), (Hkeys _ _ Hc). by rewrite bool_decide_eq_true_2.
Qed.
End StuckPass.

(** ** Concurrent repairs of tools *)

Section Claims.
Context {J : SerdeJson}.

Definition attempts (t : FailureTable) (name : string) : option Z := tf_repair_attempts <$> t !! name.

Lemma attempts_record n message now t n' :
  attempts (record_tool_failure n message now t) n' =
    if bool_decide (n = n') then Some (default 0%Z (attempts t n')) else attempts t n'.
Proof.
  unfold attempts, record_tool_failure. case_bool_decide as E.
  - subst. rewrite lookup_insert_eq. cbn. by destruct (t !! n').
  - by rewrite lookup_insert_ne.
Qed.

Lemma attempts_mark n now t n' : attempts (mark_tool_repaired n now t) n' = attempts t n'.
Proof.
  unfold attempts, mark_tool_repaired. rewrite lookup_alter. case_decide as E; [|done]. subst. by destruct (t !! n').
Qed.

Lemma attempts_increment n t n' :
  attempts (increment_repair_attempts n t) n' =
    if bool_decide (n = n') then Z.succ <$> attempts t n' else attempts t n'.
Proof.
  unfold attempts, increment_repair_attempts. rewrite lookup_alter.
  case_decide as E; case_bool_decide; [|done..]. subst. by destruct (t !! n').
Qed.

(** Claims are those of the repairs under way, one per tool; a repair works on the tool
    it claimed, and what it read from the table still holds. *)
Record claims_inv (s : RepairSys) : Prop := {
  cl_nodup : NoDup (rs_repairs s).*1;
  cl_claims : ∀ name, name ∈ rs_claims s ↔ name ∈ (rs_repairs s).*1;
  cl_given : ∀ name g, (name, RpClaimed g) ∈ rs_repairs s → bt_name g = name;
  cl_tool : ∀ name tool b, (name, RpResolved tool b) ∈ rs_repairs s → bt_name tool = name;
  cl_row : ∀ name tool, (name, RpResolved tool true) ∈ rs_repairs s →
    ∃ k, attempts (rs_table s) name = Some k ∧ bt_repair_attempts tool = (k mod 2 ^ 32)%Z;
}.

Lemma get_broken_tool_spec n t tool :
  get_broken_tool_by_name n t = Some tool →
  bt_name tool = n ∧ ∃ k, attempts t n = Some k ∧ bt_repair_attempts tool = (k mod 2 ^ 32)%Z.
Proof.
  unfold get_broken_tool_by_name, attempts. destruct (t !! n) as [r|]; cbn; [|done].
  destruct (tf_repaired_at r); [done|]. intros [= <-]. by eauto.
Qed.

Lemma elem_middle {A} (x y : A) l l' : x ∈ l ++ y :: l' ↔ x = y ∨ x ∈ l ++ l'.
Proof. rewrite !elem_of_app, elem_of_cons. tauto. Qed.

(** a repair moves on, and the table changes no attempts a repair has read *)
Lemma claims_inv_phase claims t t' rs rs' name p p' :
  claims_inv {| rs_claims := claims; rs_table := t; rs_repairs := rs ++ (name, p) :: rs' |} →
  (∀ n, n ≠ name → ∀ k, attempts t n = Some k → attempts t' n = Some k) →
  (∀ g, p' ≠ RpClaimed g) →
  (∀ tool b, p' = RpResolved tool b → bt_name tool = name ∧
     (b = true → ∃ k, attempts t' name = Some k ∧ bt_repair_attempts tool = (k mod 2 ^ 32)%Z)) →
  claims_inv {| rs_claims := claims; rs_table := t'; rs_repairs := rs ++ (name, p') :: rs' |}.
Proof.
  intros [Hnd Hcl Hg Ht Hrow] Hkeep Hp1 Hp2. cbn [rs_claims rs_table rs_repairs] in *.
  assert ((rs ++ (name, p) :: rs').*1 = (rs ++ (name, p') :: rs').*1) as E by (by rewrite !fmap_app).
  split; cbn [rs_claims rs_table rs_repairs].
  - by rewrite <- E.
  - by rewrite <- E.
  - intros n g [Ep|Hin]%elem_middle; [simplify_eq; by destruct (Hp1 g)|]. apply Hg, elem_middle. by right.
  - intros n tool b [Ep|Hin]%elem_middle; [simplify_eq; by apply (Hp2 tool b)|]. eapply Ht, elem_middle. by right.
  - intros n tool [Ep|Hin]%elem_middle; [simplify_eq; by apply (Hp2 tool true)|].
    destruct (Hrow n tool) as (k & Hk & ?); [apply elem_middle; by right|]. exists k. split; [|done]. apply Hkeep; [|done].
    intros ->. rewrite fmap_app, fmap_cons in Hnd. apply NoDup_app in Hnd as (_ & Hd & (Hd2 & _)%NoDup_cons).
    apply elem_of_app in Hin as [Hin|Hin].
    + apply (Hd name); [by apply (list_elem_of_fmap_2' fst _ _ _ Hin)|left].
    + apply Hd2. by apply (list_elem_of_fmap_2' fst _ _ _ Hin).
Qed.

Lemma claims_inv_step max s s' : claims_inv s → repair_step max s s' → claims_inv s'.
Proof.
  intros Hinv Hstep. destruct Hstep as [claims claims' t rs tool Hc|claims t rs rs' name given tool Hr
    |claims t rs rs' name tool b req Hchk|claims t rs rs' name now|claims t rs rs' name phase|claims t rs name message now].
  - unfold claim_tool in Hc. case_bool_decide as Hin; [done|]. injection Hc as <-.
    destruct Hinv as [Hnd Hcl Hg Ht Hrow]. cbn [rs_claims rs_table rs_repairs] in *. split; cbn.
    + apply NoDup_cons. by rewrite <- Hcl.
    + intros n. rewrite elem_of_union, elem_of_singleton, elem_of_cons, Hcl. done.
    + intros n g [E|Hi]%elem_of_cons; [by simplify_eq|by apply Hg].
    + intros n tool' b [E|Hi]%elem_of_cons; [done|by eapply Ht].
    + intros n tool' [E|Hi]%elem_of_cons; [done|by eapply Hrow].
  - assert (bt_name given = name) as Hname by (apply (cl_given _ Hinv), elem_middle; by left).
    eapply claims_inv_phase; [exact Hinv|done|done|]. intros tool' b [= -> <-].
    unfold resolve_tool_for_repair in Hr. injection Hr as <-. subst name.
    destruct (get_broken_tool_by_name (bt_name given) t) as [found|] eqn:E; cbn.
    + apply get_broken_tool_spec in E as [-> Hk]. done.
    + by split.
  - assert (bt_name tool = name) as <- by (eapply (cl_tool _ Hinv), elem_middle; by left).
    eapply claims_inv_phase; [exact Hinv| |done|done].
    intros n Hne k Hk. rewrite attempts_increment. by rewrite bool_decide_eq_false_2.
  - eapply claims_inv_phase; [exact Hinv| |done|done]. intros n _ k Hk. by rewrite attempts_mark.
  - destruct Hinv as [Hnd Hcl Hg Ht Hrow]. cbn [rs_claims rs_table rs_repairs] in *.
    rewrite fmap_app, fmap_cons in Hnd, Hcl. cbn in Hnd, Hcl.
    assert (NoDup (name :: rs.*1 ++ rs'.*1)) as (Hnin & Hnd')%NoDup_cons by (by rewrite Permutation_middle).
    split; cbn [rs_claims rs_table rs_repairs]; rewrite ?fmap_app.
    + done.
    + intros n. unfold release_claim. rewrite elem_of_difference, elem_of_singleton, Hcl, elem_middle. split; [tauto|].
      intros Hi. split; [by right|]. by intros ->.
    + intros n g Hi. apply Hg, elem_middle. by right.
    + intros n tool b Hi. eapply Ht, elem_middle. by right.
    + intros n tool Hi. apply Hrow, elem_middle. by right.
  - destruct Hinv as [Hnd Hcl Hg Ht Hrow]. cbn [rs_claims rs_table rs_repairs] in *. split; [done..|]. cbn.
    intros n tool (k & Hk & ?)%Hrow. exists k. split; [|done]. rewrite attempts_record, Hk. by case_bool_decide.
Qed.

(** A step after which no repair works on a tool the table does not have. *)
Definition fresh_repair_step (max : Z) (s s' : RepairSys) : Prop :=
  repair_step max s s' ∧ Forall (λ nr, match nr.2 with RpResolved _ b => b = true | _ => True end) (rs_repairs s').

Definition attempts_within (max : Z) (t : FailureTable) : Prop := ∀ name k, attempts t name = Some k → (0 ≤ k ≤ max)%Z.

Lemma attempts_within_step max s s' :
  (0 ≤ max < 2 ^ 32)%Z → claims_inv s → attempts_within max (rs_table s) →
  Forall (λ nr, match nr.2 with RpResolved _ b => b = true | _ => True end) (rs_repairs s) →
  repair_step max s s' → attempts_within max (rs_table s').
Proof.
  intros Hmax Hinv Hin Hall Hstep.
  destruct Hstep as [| |claims t rs rs' name tool b req Hchk|claims t rs rs' name now| |claims t rs name message now];
    cbn [rs_claims rs_table rs_repairs] in *; try done.
  - assert (bt_name tool = name) as <- by (eapply (cl_tool _ Hinv), elem_middle; by left).
    apply Forall_app in Hall as [_ [Hb _]%Forall_cons]. cbn in Hb. subst b.
    destruct (cl_row _ Hinv (bt_name tool) tool) as (k & Hk & Hkt); [apply elem_middle; by left|]. cbn in Hk.
    unfold repair_checks in Hchk. destruct (Z.leb_spec max (bt_repair_attempts tool)) as [|Hlt]; [done|].
    pose proof (Hin _ _ Hk) as Hk0. rewrite Z.mod_small in Hkt by lia.
    intros n k'. rewrite attempts_increment. case_bool_decide as E; [|apply Hin].
    subst n. rewrite Hk. cbn. intros [= <-]. lia.
  - intros n k. rewrite attempts_mark. apply Hin.
  - intros n k. rewrite attempts_record. case_bool_decide as E; [|apply Hin].
    intros [= <-]. destruct (attempts t n) as [k0|] eqn:Ek; cbn; [by apply (Hin n)|lia].
Qed.

(** C33. However repairs of tools interleave, with each other and with failures being
    recorded: at most one repair per tool is under way, exactly the tools being
    repaired are claimed, and, as long as each repair finds its tool in the table, no
    tool's count of attempts ever exceeds the limit. *)
Theorem tool_attempts_bounded max t s
    (Hmax : (0 ≤ max < 2 ^ 32)%Z) (Hinit : attempts_within max t)
    (Hreach : rtc (fresh_repair_step max) (repair_initial t) s) :
  NoDup (rs_repairs s).*1 ∧ (∀ name, name ∈ rs_claims s ↔ name ∈ (rs_repairs s).*1) ∧
  attempts_within max (rs_table s).
Proof.
  destruct (rtc_invariant (fresh_repair_step max)
    (λ s, claims_inv s ∧ attempts_within max (rs_table s) ∧
          Forall (λ nr, match nr.2 with RpResolved _ b => b = true | _ => True end) (rs_repairs s)))
    with (s := repair_initial t) (s' := s) as (Hinv & Hin & _); [| |exact Hreach|].
  - intros s1 s2 (Hi & Ha & Hf) [Hstep Hf']. split; [by eapply claims_inv_step|]. split; [by eapply attempts_within_step|done].
  - split; [|split; [done|constructor]]. split; cbn; [constructor|..].
    + intros name. split; intros H; [by apply elem_of_empty in H|by apply not_elem_of_nil in H].
    + intros name g H. by apply not_elem_of_nil in H.
    + intros name tool b H. by apply not_elem_of_nil in H.
    + intros name tool H. by apply not_elem_of_nil in H.
  - split; [apply (cl_nodup _ Hinv)|]. split; [apply (cl_claims _ Hinv)|done].
Qed.
End Claims.

(** ** Witnesses *)

Section Witnesses.
#[local] Existing Instance json_lite.
#[local] Existing Instance dec_cents.
#[local] Existing Instance uuid_bits.

Definition hopeless : StuckJob :=
  {| sj_job_id := 7; sj_stuck_since := 0; sj_stuck_duration := secs 600; sj_last_error := None; sj_repair_attempts := 3 |}.

(** a policy that finds one job, of which it asks for attention every time *)
#[local] Instance hopeless_repair : SelfRepair unit := {|
  sr_detect_stuck_jobs _ := [hopeless];
  sr_repair_stuck_job _ w := (w, Ok (RrManualRequired "help"));
  sr_detect_broken_tools _ := [];
  sr_repair_broken_tool _ w := (w, Err (ReFailed "tool" 0 "none")) |}.

Definition all_users : RepairNotificationRoute := BroadcastAll "default".

Lemma escalated_once_witness :
  let s1 := (run_stuck_job_repairs all_users None (task_initial tt)).1 in
  length (ts_sent s1) = 1 ∧ ts_sent (run_stuck_job_repairs all_users None s1).1 = ts_sent s1.
Proof.
  intros s1. split; [vm_compute; reflexivity|].
  pose proof (escalated_once all_users None s1 (run_stuck_job_repairs all_users None s1).1) as H.
  destruct H as (_ & _ & Hs & _); [apply NoDup_singleton|reflexivity|]. etransitivity; [exact Hs|]. vm_compute. reflexivity.
Defined.

(** a job that got stuck at once *)
Definition stuck_manager : ContextManager :=
  let m := (create_job (manager_new 5) 7 0 "t" "d").1 in
  let run m f := (update_context m 7%N f).1 in
  run (run m (λ c, transition_to c InProgress None 0 0)) (λ c, mark_stuck c "no progress" 0 0).

Lemma stuck_pass_exact_witness :
  state <$> contexts (foldl (repair_one 3 (λ _, secs 601) (λ _, secs 601)) stuck_manager
              (detect_stuck_jobs (secs 300) (secs 600) stuck_manager)) !! 7%N = Some InProgress.
Proof.
  rewrite (stuck_pass_exact (secs 300) 3 (secs 600) (λ _, secs 601) (λ _, secs 601) stuck_manager).
  - vm_compute. reflexivity.
  - apply (bool_decide_eq_true_1 (map_Forall (λ id c, job_id c = id) (contexts stuck_manager))). vm_compute. reflexivity.
Defined.

Definition broken_table : FailureTable := record_tool_failure "t" "oops" 0 ∅.
Definition broken_t : BrokenTool := broken_tool_of "t" {|
  tf_error_message := Some "oops"; tf_error_count := 1; tf_first_failure := 0; tf_last_failure := 0;
  tf_last_build_result := None; tf_repaired_at := None; tf_repair_attempts := 0 |}.

Definition r_claimed : RepairSys :=
  {| rs_claims := {["t"]} ∪ ∅; rs_table := broken_table; rs_repairs := [("t", RpClaimed broken_t)] |}.
Definition r_resolved : RepairSys :=
  {| rs_claims := {["t"]} ∪ ∅; rs_table := broken_table; rs_repairs := [("t", RpResolved broken_t true)] |}.
Definition r_building : RepairSys :=
  {| rs_claims := {["t"]} ∪ ∅; rs_table := increment_repair_attempts "t" broken_table; rs_repairs := [("t", RpBuilding)] |}.

Lemma r_building_reachable : rtc (fresh_repair_step 1) (repair_initial broken_table) r_building.
Proof.
  apply rtc_l with r_claimed; [split; [|by repeat constructor]|].
  { apply (rstep_claim 1 ∅ _ broken_table [] broken_t). reflexivity. }
  apply rtc_l with r_resolved; [split; [|by repeat constructor]|].
  { apply (rstep_resolve 1 ({["t"]} ∪ ∅) broken_table [] [] "t" broken_t broken_t). vm_compute. reflexivity. }
  apply rtc_once. split; [|by repeat constructor].
  eapply (rstep_count 1 ({["t"]} ∪ ∅) broken_table [] [] "t" broken_t true). vm_compute. reflexivity.
Qed.

Lemma tool_attempts_bounded_witness :
  attempts (rs_table r_building) "t" = Some 1%Z ∧ attempts_within 1 (rs_table r_building).
Proof.
  split; [vm_compute; reflexivity|].
  apply (tool_attempts_bounded 1 broken_table r_building); [lia| |exact r_building_reachable].
  intros name k. unfold broken_table. rewrite attempts_record. case_bool_decide; [|done]. intros [= <-].
  unfold attempts. rewrite lookup_empty. cbn. lia.
Defined.

(** The limit fails when the tool was repaired between its detection and its repair:
    the table then has no broken tool of that name, the stale count of the detected one
    is used, and the attempts go past the limit. *)
Lemma stale_tool_passes_limit :
  let max := 1%Z in
  let t := mark_tool_repaired "t" 5 (increment_repair_attempts "t" broken_table) in
  let i := {| ri_builder := true; ri_store := true; ri_loaded := Ok tt; ri_incremented := Ok tt;
              ri_built := λ _, Err "no compiler"; ri_marked := Ok tt; ri_now := 6 |} in
  attempts t "t" = Some max ∧ attempts (repair_broken_tool max i broken_t (∅, t)).1.2 "t" = Some 2%Z.
Proof. vm_compute. done. Qed.

(** Repairing a tool does not reset its count of attempts: a tool that was repaired as
    often as the limit allows is not repaired when it breaks again. *)
Lemma attempts_outlive_repair now1 now2 (t : FailureTable) n :
  attempts (record_tool_failure n "again" now2 (mark_tool_repaired n now1 t)) n = Some (default 0%Z (attempts t n)).
Proof. rewrite attempts_record, attempts_mark. by rewrite bool_decide_eq_true_2. Qed.
End Witnesses.
