(* ===== verification/JobCommands.v ===== *)
(** * Job commands

    Models [src/src/agent/commands/jobs.rs]: creating, checking, cancelling, listing and
    helping jobs on a user's request, over the scheduler, the context manager and the
    database's view of jobs; and the counters of [src/src/history/store/jobs.rs] and
    [sandbox.rs] the summary adds up. *)

From S2P Require Import Prelude Text Externals LlmTypes JobState JobManager ToolExec.
From S2P Require Import Submission Messages Scheduler.

(** ** Summaries *)

Record AgentJobSummary := {
  ajs_total : nat; ajs_pending : nat; ajs_in_progress : nat; ajs_completed : nat; ajs_failed : nat; ajs_stuck : nat;
}.

(** [AgentJobSummary::add_count] *)
Definition agent_add_count (s : AgentJobSummary) (sc : string * nat) : AgentJobSummary :=
  let '(status, count) := sc in
  let bump (want : list string) (n : nat) := if bool_decide (status ∈ want) then n + count else n in {|
  ajs_total := ajs_total s + count;
  ajs_pending := bump ["pending"] (ajs_pending s);
  ajs_in_progress := bump ["in_progress"] (ajs_in_progress s);
  ajs_completed := bump ["completed"; "submitted"; "accepted"] (ajs_completed s);
  ajs_failed := bump ["failed"; "cancelled"] (ajs_failed s);
  ajs_stuck := bump ["stuck"] (ajs_stuck s) |}.

Record SandboxJobSummary := {
  sjs_total : nat; sjs_creating : nat; sjs_running : nat; sjs_completed : nat; sjs_failed : nat; sjs_interrupted : nat;
}.

(** [SandboxJobSummary::add_count] *)
Definition sandbox_add_count (s : SandboxJobSummary) (sc : string * nat) : SandboxJobSummary :=
  let '(status, count) := sc in
  let bump (want : string) (n : nat) := if bool_decide (status = want) then n + count else n in {|
  sjs_total := sjs_total s + count;
  sjs_creating := bump "creating" (sjs_creating s);
  sjs_running := bump "running" (sjs_running s);
  sjs_completed := bump "completed" (sjs_completed s);
  sjs_failed := bump "failed" (sjs_failed s);
  sjs_interrupted := bump "interrupted" (sjs_interrupted s) |}.

Record JobTotals := { jt_total : nat; jt_in_progress : nat; jt_completed : nat; jt_failed : nat; jt_stuck : nat }.

Definition job_totals_default : JobTotals :=
  {| jt_total := 0; jt_in_progress := 0; jt_completed := 0; jt_failed := 0; jt_stuck := 0 |}.

Definition add_agent (t : JobTotals) (s : AgentJobSummary) : JobTotals := {|
  jt_total := jt_total t + ajs_total s; jt_in_progress := jt_in_progress t + ajs_in_progress s;
  jt_completed := jt_completed t + ajs_completed s; jt_failed := jt_failed t + ajs_failed s;
  jt_stuck := jt_stuck t + ajs_stuck s |}.

Definition add_sandbox (t : JobTotals) (s : SandboxJobSummary) : JobTotals := {|
  jt_total := jt_total t + sjs_total s; jt_in_progress := jt_in_progress t + sjs_running s;
  jt_completed := jt_completed t + sjs_completed s; jt_failed := jt_failed t + (sjs_failed s + sjs_interrupted s);
  jt_stuck := jt_stuck t |}.

(** [JobTotals::render] *)
Definition totals_render (t : JobTotals) : string :=
  "Jobs summary: Total: " +:+ pretty (jt_total t) +:+ " In Progress: " +:+ pretty (jt_in_progress t)
  +:+ " Completed: " +:+ pretty (jt_completed t) +:+ " Failed: " +:+ pretty (jt_failed t)
  +:+ " Stuck: " +:+ pretty (jt_stuck t).

Definition render_job_list (lines : list string) : string := foldl String.append ("Jobs:" +:+ newline) lines.

(** A row of a job listing: its id, title or task, and status. *)
Record JobRow := { jrow_id : Uuid; jrow_title : string; jrow_status : string }.

(** ** Commands *)

Section Commands.
Context {J : SerdeJson} {D : RustDecimal} {T : UuidText}.

(** [format("%Y-%m-%d %H:%M:%S")] *)
Variable format_time : Utc → string.

(** the derived [Debug] *)
Definition job_state_debug (s : JobState) : string :=
  match s with
  | Pending => "Pending" | InProgress => "InProgress" | Completed => "Completed" | Submitted => "Submitted"
  | Accepted => "Accepted" | Failed => "Failed" | Stuck => "Stuck" | Cancelled => "Cancelled"
  end.

Definition parse_job_id (text : string) : result Uuid Error :=
  match uuid_parse_str text with Some id => Ok id | None => Err (EJob (NotFound 0%N)) end.

Definition format_job_details (c : JobContext) : string :=
  "Job: " +:+ title c +:+ newline +:+ "Status: " +:+ job_state_debug (state c) +:+ newline
  +:+ "Created: " +:+ format_time (created_at c) +:+ newline
  +:+ "Started: " +:+ default "Not started" (format_time <$> started_at c) +:+ newline
  +:+ "Actual cost: " +:+ dec_to_string (actual_cost c).

Definition to_submission (r : result string Error) (error_prefix : string) : SubmissionResult :=
  match r with
  | Ok text => SubResponse text
  | Err e => SubError (error_prefix +:+ ": " +:+ error_display e)
  end.

(** The database as the commands see it: what it answers to each question. *)
Record JobsStore := {
  js_get_job : Uuid → result (option JobContext) string;
  js_agent_summary : result AgentJobSummary string;
  js_sandbox_summary : result SandboxJobSummary string;
  js_agent_jobs : result (list JobRow) string;
  js_sandbox_jobs : result (list JobRow) string;
}.

Definition owned_context (user : string) (id : Uuid) (s : Scheduler) : result JobContext Error :=
  match get_context (sc_manager s) id with
  | Err e => Err (EJob e)
  | Ok c => if bool_decide (user_id c = user) then Ok c else Err (EJob (NotFound id))
  end.

Definition job_status_details (store : option JobsStore) (user text : string) (s : Scheduler) : result string Error :=
  match parse_job_id text with
  | Err e => Err e
  | Ok id =>
      match (st ← store; match js_get_job st id with Ok (Some c) => Some c | _ => None end) with
      | Some c => Ok (format_job_details c)
      | None =>
          match owned_context user id s with
          | Err e => Err e
          | Ok c => Ok (format_job_details c)
          end
      end
  end.

Definition totals_of_summary (s : ContextSummary) : JobTotals := {|
  jt_total := sum_total s; jt_in_progress := sum_in_progress s; jt_completed := sum_completed s;
  jt_failed := sum_failed s; jt_stuck := sum_stuck s |}.

Definition jobs_summary (store : option JobsStore) (user : string) (s : Scheduler) : string :=
  match store with
  | Some st =>
      let t := match js_agent_summary st with Ok a => add_agent job_totals_default a | Err _ => job_totals_default end in
      let t := match js_sandbox_summary st with Ok a => add_sandbox t a | Err _ => t end in
      totals_render t
  | None => totals_render (totals_of_summary (summary_for (sc_manager s) user))
  end.

Definition handle_check_status (store : option JobsStore) (user : string) (id : option string) (s : Scheduler) :
    result string Error :=
  match id with
  | Some text => job_status_details store user text s
  | None => Ok (jobs_summary store user s)
  end.

Definition handle_cancel_job (user text : string) (i : StopInputs) (s : Scheduler) : Scheduler * result string Error :=
  match parse_job_id text with
  | Err e => (s, Err e)
  | Ok id =>
      match owned_context user id s with
      | Err e => (s, Err e)
      | Ok _ =>
          match stop id "Cancelled by user" i s with
          | (s, Err e) => (s, Err (EJob e))
          | (s, Ok _) => (s, Ok ("Job " +:+ text +:+ " has been cancelled."))
          end
      end
  end.

Definition stored_line (j : JobRow) : string :=
  "  " +:+ uuid_to_string (jrow_id j) +:+ " - " +:+ jrow_title j +:+ " (" +:+ jrow_status j +:+ ")" +:+ newline.

Definition list_jobs_from_store (st : JobsStore) : string :=
  let agent_jobs := match js_agent_jobs st with Ok l => l | Err _ => [] end in
  let sandbox_jobs := match js_sandbox_jobs st with Ok l => l | Err _ => [] end in
  match agent_jobs, sandbox_jobs with
  | [], [] => "No jobs found."
  | _, _ => render_job_list ((stored_line <$> agent_jobs) ++ (stored_line <$> sandbox_jobs))
  end.

Definition list_jobs_from_contexts (user : string) (s : Scheduler) : string :=
  match all_jobs_for (sc_manager s) user with
  | [] => "No jobs found."
  | jobs =>
      render_job_list (omap (λ id,
        match get_context (sc_manager s) id with
        | Ok c => Some ("  " +:+ uuid_to_string id +:+ " - " +:+ title c +:+ " (" +:+ job_state_debug (state c) +:+ ")" +:+ newline)
        | Err _ => None
        end) jobs)
  end.

(** The filter is not looked at. *)
Definition handle_list_jobs (store : option JobsStore) (user : string) (filter : option string) (s : Scheduler) : string :=
  match store with
  | Some st => list_jobs_from_store st
  | None => list_jobs_from_contexts user s
  end.

Definition recovery_error_display (e : JobRecoveryError) : string :=
  match e with
  | NotStuck => "Job is not stuck"
  | InvariantViolation msg => "Recovery invariant violated: " +:+ msg
  end.

(** The clock readings of the recovery and of the scheduling. *)
Record HelpInputs := { hi_now1 : Utc; hi_now2 : Utc; hi_now3 : Utc; hi_now4 : Utc; hi_started : bool }.

Definition handle_help_job (user text : string) (h : HelpInputs) (s : Scheduler) : Scheduler * result string Error :=
  match parse_job_id text with
  | Err e => (s, Err e)
  | Ok id =>
      match owned_context user id s with
      | Err e => (s, Err e)
      | Ok ctx =>
          if bool_decide (state ctx = Stuck) then
            match update_context (sc_manager s) id (λ c, attempt_recovery c (hi_now1 h) (hi_now2 h)) with
            | (m, Err e) => (set_sc_manager m s, Err (EJob e))
            | (m, Ok (Err e)) => (set_sc_manager m s, Err (EJob (ContextError id (recovery_error_display e))))
            | (m, Ok (Ok _)) =>
                match schedule_with_context id (hi_now3 h) (hi_now4 h) (hi_started h) (set_sc_manager m s) with
                | (s, Err e) => (s, Err (EJob e))
                | (s, Ok _) =>
                    (s, Ok ("Job " +:+ text +:+ " was stuck. Attempting recovery (attempt #"
                            +:+ pretty (wrap_u32 (repair_attempts ctx + 1)) +:+ ")."))
                end
            end
          else
            (s, Ok ("Job " +:+ text +:+ " is not stuck (current state: " +:+ job_state_debug (state ctx) +:+ "). No help needed."))
      end
  end.

Definition set_category (v : option string) (c : JobContext) : JobContext := {|
  job_id := job_id c; state := state c; user_id := user_id c; conversation_id := conversation_id c; title := title c;
  description := description c; category := v; budget := budget c; budget_token := budget_token c;
  bid_amount := bid_amount c; estimated_cost := estimated_cost c; estimated_duration := estimated_duration c;
  actual_cost := actual_cost c; total_tokens_used := total_tokens_used c; max_tokens := max_tokens c;
  created_at := created_at c; started_at := started_at c; completed_at := completed_at c;
  repair_attempts := repair_attempts c; transitions := transitions c; metadata := metadata c; extra_env := extra_env c;
  http_interceptor := http_interceptor c; tool_output_stash := tool_output_stash c; user_timezone := user_timezone c |}.

Definition handle_create_job (user ttl desc : string) (cat : option string) (d : DispatchInputs) (s : Scheduler) :
    Scheduler * result string Error :=
  match dispatch_job_inner {| jr_user_id := user; jr_title := ttl; jr_description := desc; jr_metadata := None |} d s with
  | (s, Err e) => (s, Err (EJob e))
  | (s, Ok id) =>
      let s := match cat with
        | Some cat => set_sc_manager (update_context (sc_manager s) id (λ c, (set_category (Some cat) c, tt))).1 s
        | None => s
        end in
      (s, Ok ("Created job: " +:+ ttl +:+ newline +:+ "ID: " +:+ uuid_to_string id +:+ newline +:+ newline
              +:+ "The job has been scheduled and is now running."))
  end.

(** What the environment contributes to a command. *)
Record CommandInputs := { cin_dispatch : DispatchInputs; cin_stop : StopInputs; cin_help : HelpInputs }.

(** The system commands, which are elsewhere: their answer, or none for a shutdown. *)
Variable handle_command : string → list string → result (option string) Error.

Definition handle_job_or_command (store : option JobsStore) (intent : MessageIntent) (user : string) (i : CommandInputs)
    (s : Scheduler) : Scheduler * result SubmissionResult Error :=
  let respond (p : Scheduler * result string Error) :=
    (p.1, match p.2 with Ok text => Ok (SubResponse text) | Err e => Err e end) in
  match intent with
  | CreateJob ttl desc cat => respond (handle_create_job user ttl desc cat (cin_dispatch i) s)
  | CheckJobStatus id => respond (s, handle_check_status store user id s)
  | CancelJob id => respond (handle_cancel_job user id (cin_stop i) s)
  | ListJobs filter => respond (s, Ok (handle_list_jobs store user filter s))
  | HelpJob id => respond (handle_help_job user id (cin_help i) s)
  | Command command args =>
      match handle_command command args with
      | Err e => (s, Err e)
      | Ok (Some text) => respond (s, Ok text)
      | Ok None => (s, Ok (SubOk None))
      end
  | Chat _ | UnknownIntent => respond (s, Ok "Unknown intent")
  end.

Definition process_job_status (store : option JobsStore) (user : string) (id : option string) (s : Scheduler) : SubmissionResult :=
  to_submission (handle_check_status store user id s) "Job status error".

Definition process_job_cancel (user id : string) (i : StopInputs) (s : Scheduler) : Scheduler * SubmissionResult :=
  let '(s, r) := handle_cancel_job user id i s in
  (s, to_submission r "Cancel error").
End Commands.

(** * Theorems *)

Section Ownership.
Context {J : SerdeJson} {D : RustDecimal} {T : UuidText}.

(** C24. A user who names someone else's job gets the answer a user gets who names a job
    that does not exist, and nothing happens: no job is stopped, told anything, recovered
    or scheduled.  Without a database the same holds of asking for a job's status. *)
Theorem others_jobs_hidden format user text id c i h (s : Scheduler)
    (Hid : uuid_parse_str text = Some id) (Hjob : contexts (sc_manager s) !! id = Some c) (Hother : user_id c ≠ user) :
  let unknown := Err (EJob (NotFound id)) in
  handle_cancel_job user text i s = (s, unknown) ∧
  handle_help_job user text h s = (s, unknown) ∧
  job_status_details format None user text s = unknown ∧
  (** the answers for a job that does not exist *)
  ∀ s' : Scheduler, contexts (sc_manager s') !! id = None →
    handle_cancel_job user text i s' = (s', unknown) ∧
    handle_help_job user text h s' = (s', unknown) ∧
    job_status_details format None user text s' = unknown.
Proof.
  unfold handle_cancel_job, handle_help_job, job_status_details, parse_job_id, owned_context, get_context.
  rewrite Hid, Hjob. rewrite bool_decide_eq_false_2 by done. split_and!; [done..|]. intros s' ->. done.
Qed.

(** Cancelling one's job does what stopping it does: when the command says the job
    has been cancelled, its context is cancelled, its worker does not run, its entry is
    gone and the database says so. *)
Theorem cancel_outcome user text i (s s' : Scheduler) answer
    (Hok : handle_cancel_job user text i s = (s', Ok answer)) :
  ∃ id j c, uuid_parse_str text = Some id ∧ sc_jobs s !! id = Some j ∧
    contexts (sc_manager s) !! id = Some c ∧ user_id c = user ∧
    context_cancelled id s' ∧ sc_jobs s' = delete id (sc_jobs s) ∧
    (∀ w, sc_workers s' !! sj_handle j = Some w → running w = false) ∧
    (∀ db, sc_store s' = Some db → db !! id = Some Cancelled).
Proof.
  revert Hok. unfold handle_cancel_job, parse_job_id. destruct (uuid_parse_str text) as [id|] eqn:Hid; [|done].
  unfold owned_context, get_context. destruct (contexts (sc_manager s) !! id) as [c|] eqn:Hc; [|done].
  case_bool_decide as Hu; [|done]. pose proof (stop_outcome id "Cancelled by user" i s) as Hs.
  destruct (stop id "Cancelled by user" i s) as [s1 [u|e]] eqn:Es; [|done]. intros [= <- _].
  destruct (sc_jobs s !! id) as [j|] eqn:Hj; [|done]. destruct Hs as (? & ? & ? & ?).
  exists id, j, c. done.
Qed.

Lemma recovery_in_progress (c : JobContext) now1 now2 :
  state c = Stuck → ∃ c', attempt_recovery c now1 now2 = (c', Ok tt) ∧ state c' = InProgress.
Proof.
  intros Hst. unfold attempt_recovery. rewrite bool_decide_eq_true_2 by done. cbn [negb].
  unfold transition_to. cbn [state set_repair_attempts]. rewrite Hst. cbn [can_transition_to negb].
  eexists. split; [done|]. by rewrite state_stamp.
Qed.

Lemma schedule_in_progress id now1 now2 started (s : Scheduler) c :
  contexts (sc_manager s) !! id = Some c → state c = InProgress →
  ∃ r, schedule_with_context id now1 now2 started s = (s, r) ∧
       (sc_jobs s !! id = None → size (sc_jobs s) < sc_max_parallel_jobs s → ∃ reason, r = Err (ContextError id reason)).
Proof.
  intros Hc Hst. unfold schedule_with_context, schedule_locked.
  destruct (sc_jobs s !! id); [by eexists|].
  destruct (Nat.leb_spec (sc_max_parallel_jobs s) (size (sc_jobs s))); [eexists; split; [done|lia]|].
  unfold update_context. rewrite Hc. unfold transition_to. rewrite Hst. cbn [can_transition_to negb].
  rewrite set_manager_same by (by apply set_contexts_same). eexists. split; [done|]. by eexists.
Qed.

(** Helping a stuck job of one's own never starts a worker: the recovery has moved the
    job to [InProgress], from where scheduling, which moves it there again, is refused,
    or finds the job in the table and leaves it.  When the job is not in the table and
    there is room for it, the command fails and leaves it in progress with no worker. *)
Lemma help_starts_no_worker user text h (s : Scheduler) id c :
  uuid_parse_str text = Some id → contexts (sc_manager s) !! id = Some c → user_id c = user → state c = Stuck →
  let '(s', r) := handle_help_job user text h s in
  sc_workers s' = sc_workers s ∧ sc_jobs s' = sc_jobs s ∧
  state <$> contexts (sc_manager s') !! id = Some InProgress ∧
  (sc_jobs s !! id = None → size (sc_jobs s) < sc_max_parallel_jobs s → ∃ reason, r = Err (EJob (ContextError id reason))).
Proof.
  intros Hid Hc Hu Hst. unfold handle_help_job, owned_context, get_context, parse_job_id. rewrite Hid, Hc.
  rewrite bool_decide_eq_true_2 by done. rewrite bool_decide_eq_true_2 by done. unfold update_context. rewrite Hc.
  destruct (recovery_in_progress c (hi_now1 h) (hi_now2 h) Hst) as (c' & -> & Hst').
  set (s1 := set_sc_manager _ s).
  destruct (schedule_in_progress id (hi_now3 h) (hi_now4 h) (hi_started h) s1 c') as (r & -> & Hr);
    [apply lookup_insert_eq|done|].
  assert (state <$> contexts (sc_manager s1) !! id = Some InProgress) as Hin
    by (cbn; rewrite lookup_insert_eq; cbn; by rewrite Hst').
  destruct r as [u|e]; split_and!; try done; intros Hj Hsz; by destruct (Hr Hj Hsz) as [reason [= ->]]; eauto.
Qed.

(** With a database, the status of a job is told to whoever asks for it. *)
Lemma status_ignores_owner format st user text id c (s : Scheduler) :
  uuid_parse_str text = Some id → js_get_job st id = Ok (Some c) →
  job_status_details format (Some st) user text s = Ok (format_job_details format c).
Proof. intros Hid Hg. unfold job_status_details, parse_job_id. rewrite Hid. cbn. by rewrite Hg. Qed.
End Ownership.

(** ** Witnesses *)

Section Witnesses.
#[local] Existing Instance json_lite.
#[local] Existing Instance dec_cents.
#[local] Existing Instance uuid_bits.

Definition stop_ok : StopInputs := {| si_delivered := true; si_now1 := 4; si_now2 := 5; si_saved := Ok tt |}.
Definition help_now : HelpInputs := {| hi_now1 := 4; hi_now2 := 5; hi_now3 := 6; hi_now4 := 7; hi_started := true |}.

(** Job 7 is Ada's; Bob cannot cancel it. *)
Lemma others_jobs_hidden_witness :
  handle_cancel_job "bob" (uuid_to_string 7) stop_ok sched_one = (sched_one, Err (EJob (NotFound 7))).
Proof.
  assert (user_id <$> contexts (sc_manager sched_one) !! 7%N = Some "ada") as Hu by (vm_compute; reflexivity).
  destruct (contexts (sc_manager sched_one) !! 7%N) as [c|] eqn:E; [|discriminate]. injection Hu as Hu.
  refine (proj1 (others_jobs_hidden (λ _, "") "bob" (uuid_to_string 7) 7 c stop_ok help_now sched_one _ E _));
    [apply uuid_parse_to_string|rewrite Hu; discriminate].
Defined.

Lemma cancel_outcome_witness :
  context_cancelled 7 (handle_cancel_job "ada" (uuid_to_string 7) stop_ok sched_one).1.
Proof.
  destruct (cancel_outcome "ada" (uuid_to_string 7) stop_ok sched_one
    (handle_cancel_job "ada" (uuid_to_string 7) stop_ok sched_one).1
    ("Job " +:+ uuid_to_string 7 +:+ " has been cancelled.")) as (id & j & c & Hid & _ & _ & _ & Hc & _).
  { apply pair_snd. vm_compute. reflexivity. }
  rewrite uuid_parse_to_string in Hid. injection Hid as <-. exact Hc.
Defined.
End Witnesses.
