(* ===== verification/JobWorker.v ===== *)
(** * The worker of a background job

    Models [src/src/worker/job.rs] and its modules [run_loop.rs], [delegate.rs],
    [planning.rs], [events.rs] and [terminal.rs]: the delegate with which the agentic
    loop runs a job, the plan a worker may follow first, the events it logs, and the
    transition to a final state with its persistence and rollback.

    The delegate is an instance of the loop's class [LoopDelegate]; its tool calls are
    those of [JobTools].  The reasoning engine is a parameter, as are the messages that
    arrive on the worker's channel between two reads of it. *)

From S2P Require Import Prelude Text Externals LlmTypes JobState JobManager RateLimiter Hooks.
From S2P Require Import Session LeakDetector Safety MessageRebuild ToolExec JobTools AgenticLoop Scheduler.

(** ** Words that end a job *)

Definition POSITIVE_PHRASES : list string := [
  "job is complete"; "job is done"; "job is finished"; "task is complete"; "task is done"; "task is finished";
  "work is complete"; "work is done"; "work is finished"; "successfully completed"; "have completed the job";
  "have completed the task"; "have finished the job"; "have finished the task"; "all steps are complete";
  "all steps are done"; "i have completed"; "i've completed"; "all done"; "all tasks complete"].

Definition NEGATIVE_PHRASES : list string := [
  "not complete"; "not done"; "not finished"; "incomplete"; "unfinished"; "isn't done"; "isn't complete";
  "isn't finished"; "not yet done"; "not yet complete"; "not yet finished"].

Definition llm_signals_completion {U : UnicodeCase} (response : string) : bool :=
  let lower := to_lowercase response in
  if existsb (contains lower) NEGATIVE_PHRASES then false else existsb (contains lower) POSITIVE_PHRASES.

(** ** Events *)

(** What a worker logs, with the fields of the JSON it logs. *)
Inductive JobEvent :=
| JeMessage (role content : string) (nudge : bool)
| JeStatus (message : string)
| JeToolUse (tool_name input : string)
| JeToolResult (tool_name : string) (success : bool) (output : string)
| JeResult (status : string) (success : bool) (message : string).

(** What the web gateway is told. *)
Inductive JobSse :=
| JobMessage (job_id role content : string)
| JobToolUse (job_id tool_name input : string)
| JobToolResult (job_id tool_name output : string)
| JobStatus (job_id message : string)
| JobResult (job_id status : string) (session_id : option string).

Definition broadcast_event (job : string) (e : JobEvent) : JobSse :=
  match e with
  | JeMessage role content _ => JobMessage job role content
  | JeToolUse name input => JobToolUse job name input
  | JeToolResult name _ output => JobToolResult job name output
  | JeStatus message => JobStatus job message
  | JeResult status _ _ => JobResult job status None
  end.

Inductive WorkerLoopOutcome := WlCompleted | WlContinueDirectSelection | WlExited.

Section Worker.
Context {J : SerdeJson} {D : RustDecimal} {T : UuidText}.
Context {R : RegexEngine} {C : AhoCorasick} {U : UnicodeCase}.
Context {X H A : Type} {HH : Hook (JobWorld X) H} {HT : Tool (JobWorld X) A}.
Abbreviation W := (JobWorld X).

(** [serde_json::to_string_pretty] *)
Variable to_string_pretty : json → string.

Record JobSelection := {
  jsel_tool_name : string; jsel_parameters : json; jsel_reasoning : string; jsel_alternatives : list string;
  jsel_tool_call_id : string;
}.

Record PlannedAction := { act_tool : string; act_parameters : json; act_reasoning : string; act_expected_outcome : string }.

(** the parts of a plan the worker uses *)
Record ActionPlan := { plan_goal : string; plan_actions : list PlannedAction }.

(** The reasoning engine. *)
Record JobReasoner := {
  jq_select_tools : ReasoningContext → W → W * result (list JobSelection) LlmError;
  jq_respond_with_tools : ReasoningContext → W → W * result RespondOutput LlmError;
  jq_respond : ReasoningContext → W → W * result string LlmError;
  jq_plan : ReasoningContext → W → W * result ActionPlan LlmError;
  jq_error_display : LlmError → string;
}.

Variable deps : WorkerDeps (H := H) (A := A).
Variable job : Uuid.
Variable reasoner : JobReasoner.
Variable tool_definitions : W → list ToolDefinition.
Variable use_planning : bool.

(** What a worker reads from the outside: the messages that arrive before each read
    of its channel, clock and identifiers of each tool call, and the order in which
    the tasks of a parallel round end, with those that do end. *)
Record JobInputs := {
  ji_arrivals : nat → list WorkerMessage;
  ji_call : nat → CallInputs;
  ji_order : nat → list (nat * bool);
  ji_now1 : Utc; ji_now2 : Utc;
  ji_saved : result unit string;
}.
Variable ji : JobInputs.

(** The state of a run.  [jn_reads] counts the reads of the channel and [jn_calls] the
    tool calls; [jn_failures] and [jn_persisted] are handed to the database. *)
Record JobRun := {
  jn_world : W;
  jn_inbox : list WorkerMessage;
  jn_reads : nat;
  jn_calls : nat;
  jn_rate_limits : nat;
  jn_events : list JobEvent;
  jn_failures : list (string * string);
  jn_persisted : list (JobState * option string);
}.

Definition set_jn_world (w : W) (s : JobRun) : JobRun := {|
  jn_world := w; jn_inbox := jn_inbox s; jn_reads := jn_reads s; jn_calls := jn_calls s; jn_rate_limits := jn_rate_limits s;
  jn_events := jn_events s; jn_failures := jn_failures s; jn_persisted := jn_persisted s |}.
Definition set_jn_inbox (l : list WorkerMessage) (s : JobRun) : JobRun := {|
  jn_world := jn_world s; jn_inbox := l; jn_reads := S (jn_reads s); jn_calls := jn_calls s; jn_rate_limits := jn_rate_limits s;
  jn_events := jn_events s; jn_failures := jn_failures s; jn_persisted := jn_persisted s |}.
Definition set_jn_calls (n : nat) (s : JobRun) : JobRun := {|
  jn_world := jn_world s; jn_inbox := jn_inbox s; jn_reads := jn_reads s; jn_calls := n; jn_rate_limits := jn_rate_limits s;
  jn_events := jn_events s; jn_failures := jn_failures s; jn_persisted := jn_persisted s |}.
Definition set_jn_rate_limits (n : nat) (s : JobRun) : JobRun := {|
  jn_world := jn_world s; jn_inbox := jn_inbox s; jn_reads := jn_reads s; jn_calls := jn_calls s; jn_rate_limits := n;
  jn_events := jn_events s; jn_failures := jn_failures s; jn_persisted := jn_persisted s |}.

(** Events are saved by spawned tasks and broadcast. *)
Definition log_event (e : JobEvent) (s : JobRun) : JobRun := {|
  jn_world := jn_world s; jn_inbox := jn_inbox s; jn_reads := jn_reads s; jn_calls := jn_calls s; jn_rate_limits := jn_rate_limits s;
  jn_events := jn_events s ++ [e]; jn_failures := jn_failures s; jn_persisted := jn_persisted s |}.

(** [store.record_tool_failure], spawned *)
Definition job_record_failure (name message : string) (s : JobRun) : JobRun :=
  if wd_store deps then {|
    jn_world := jn_world s; jn_inbox := jn_inbox s; jn_reads := jn_reads s; jn_calls := jn_calls s;
    jn_rate_limits := jn_rate_limits s; jn_events := jn_events s; jn_failures := jn_failures s ++ [(name, message)];
    jn_persisted := jn_persisted s |}
  else s.

(** [Error::Llm] *)
Definition job_llm_error (e : LlmError) : Error := EOther ("LLM error: " +:+ jq_error_display reasoner e).

(** ** Final states *)

(** [store.persist_terminal_result_and_status] and the broadcast of its event. *)
Definition persist_terminal (status : JobState) (reason : option string) (event : JobEvent) (s : JobRun) :
    JobRun * result unit Error :=
  let persisted (s : JobRun) : JobRun := {|
    jn_world := jn_world s; jn_inbox := jn_inbox s; jn_reads := jn_reads s; jn_calls := jn_calls s;
    jn_rate_limits := jn_rate_limits s; jn_events := jn_events s; jn_failures := jn_failures s;
    jn_persisted := jn_persisted s ++ [(status, reason)] |} in
  if wd_store deps then
    match ji_saved ji with
    | Err e => (s, Err (EJob (PersistenceError job e)))
    | Ok _ => (log_event event (persisted s), Ok tt)
    end
  else (log_event event s, Ok tt).

Definition final_for_worker (st : JobState) : bool :=
  match st with Completed | Failed | Stuck | Cancelled => true | _ => false end.

Definition transition_terminal_state (transition : JobContext → JobContext * result unit string) (s : JobRun) :
    JobRun * result JobState Error :=
  match update_context (jw_manager (jn_world s)) job (λ c,
      let previous := state c in
      if final_for_worker previous then
        (c, (previous, Err ("Cannot transition from terminal worker state " +:+ job_state_display previous)))
      else let '(c', r) := transition c in (c', (previous, r))) with
  | (m, Err e) => (set_jn_world (set_manager m (jn_world s)) s, Err (EJob e))
  | (m, Ok (previous, Ok _)) => (set_jn_world (set_manager m (jn_world s)) s, Ok previous)
  | (m, Ok (_, Err reason)) => (set_jn_world (set_manager m (jn_world s)) s, Err (EJob (ContextError job reason)))
  end.

Definition rollback_context (previous : JobState) (s : JobRun) : JobRun :=
  set_jn_world (set_manager (update_context (jw_manager (jn_world s)) job
    (λ c, (set_state_rollback c previous, tt))).1 (jn_world s)) s.

Definition apply_terminal_transition (status : JobState) (reason : option string) (status_str message : string)
    (transition : JobContext → JobContext * result unit string) (s : JobRun) : JobRun * result unit Error :=
  match transition_terminal_state transition s with
  | (s, Err e) => (s, Err e)
  | (s, Ok previous) =>
      match persist_terminal status reason (JeResult status_str (bool_decide (status = Completed)) message) s with
      | (s, Err e) => (rollback_context previous s, Err e)
      | (s, Ok _) => (s, Ok tt)
      end
  end.

Definition mark_completed (s : JobRun) : JobRun * result unit Error :=
  apply_terminal_transition Completed (Some "Job completed successfully") "completed" "Job completed successfully"
    (λ c, transition_to c Completed (Some "Job completed successfully") (ji_now1 ji) (ji_now2 ji)) s.

Definition mark_failed (reason : string) (s : JobRun) : JobRun * result unit Error :=
  apply_terminal_transition Failed (Some reason) "failed" ("Execution failed: " +:+ reason)
    (λ c, transition_to c Failed (Some reason) (ji_now1 ji) (ji_now2 ji)) s.

(** [Worker::mark_stuck] *)
Definition mark_job_stuck (reason : string) (s : JobRun) : JobRun * result unit Error :=
  apply_terminal_transition Stuck (Some reason) "stuck" ("Job stuck: " +:+ reason)
    (λ c, mark_stuck c reason (ji_now1 ji) (ji_now2 ji)) s.

(** ** Tool results *)

Definition process_tool_result_job (ctx : ReasoningContext) (sel : JobSelection) (r : result string Error) (s : JobRun) :
    ReasoningContext * JobRun :=
  let s := log_event (JeToolUse (jsel_tool_name sel) (truncate_for_preview (json_to_string (jsel_parameters sel)) 500)) s in
  let shown := match r with Ok output => Ok output | Err e => Err (error_display e) end in
  let message := (process_tool_result (wd_safety deps) (jsel_tool_name sel) (jsel_tool_call_id sel) shown).2 in
  let ctx := push_message message ctx in
  match r with
  | Ok raw_output =>
      let sanitized := sanitize_tool_output (wd_safety deps) (jsel_tool_name sel) raw_output in
      (ctx, log_event (JeToolResult (jsel_tool_name sel) true (truncate_for_preview (so_content sanitized) 500)) s)
  | Err e =>
      let s := job_record_failure (jsel_tool_name sel) (error_display e) s in
      (ctx, log_event (JeToolResult (jsel_tool_name sel) false (truncate_for_preview ("Error: " +:+ error_display e) 500)) s)
  end.

Definition execute_tool (name : string) (params : json) (s : JobRun) : JobRun * result string Error :=
  let '(w, r) := execute_tool_inner to_string_pretty deps job name params (ji_call ji (jn_calls s)) (jn_world s) in
  (set_jn_calls (S (jn_calls s)) (set_jn_world w s), r).

(** The tasks of a parallel round, in the order in which they run; one that panics
    leaves no result. *)
Fixpoint job_run_tasks (order : list (nat * bool)) (selections : list JobSelection) (s : JobRun) :
    JobRun * list (nat * result string Error) :=
  match order with
  | [] => (s, [])
  | (i, finished) :: order =>
      match selections !! i with
      | None => job_run_tasks order selections s
      | Some sel =>
          let '(s, r) := execute_tool (jsel_tool_name sel) (jsel_parameters sel) s in
          let '(s, rs) := job_run_tasks order selections s in
          (s, if finished : bool then (i, r) :: rs else rs)
      end
  end.

Definition job_task_failed (sel : JobSelection) : result string Error :=
  Err (ETool (ToolExecutionFailed (jsel_tool_name sel) "Task failed during execution")).

Definition execute_tools_parallel (selections : list JobSelection) (s : JobRun) : JobRun * list (result string Error) :=
  let '(s, completed) := job_run_tasks (ji_order ji (jn_calls s)) selections s in
  (s, collect_ordered completed selections job_task_failed).

Fixpoint process_results (ctx : ReasoningContext) (l : list (JobSelection * result string Error)) (s : JobRun) :
    ReasoningContext * JobRun :=
  match l with
  | [] => (ctx, s)
  | (sel, r) :: l => let '(ctx, s) := process_tool_result_job ctx sel r s in process_results ctx l s
  end.

(** ** The delegate *)

Definition MAX_CONSECUTIVE_RATE_LIMITS : nat := 10.

Definition usage_zero : TokenUsage := {| tu_input := 0; tu_output := 0; tu_cache_read := 0; tu_cache_creation := 0 |}.

Definition handle_rate_limit (retry_after : option Duration) (s : JobRun) : JobRun * result RespondOutput Error :=
  let count := S (jn_rate_limits s) in
  let s := set_jn_rate_limits count s in
  let wait := default (secs 5) retry_after in
  if MAX_CONSECUTIVE_RATE_LIMITS <=? count then
    (s, Err (EJob (JobFailed job "Persistent rate limiting: exceeded retry limit")))
  else
    (log_event (JeStatus ("Rate limited, retrying in " +:+ pretty (Z.quot wait 1000000000) +:+ "s... (" +:+ pretty count
                          +:+ "/" +:+ pretty MAX_CONSECUTIVE_RATE_LIMITS +:+ ")")) s,
     Ok {| ro_result := RText ""; ro_usage := usage_zero |}).

Definition reset_rate_limit_counter (s : JobRun) : JobRun := set_jn_rate_limits 0 s.

Definition selections_to_tool_calls (l : list JobSelection) : list ToolCall :=
  (λ sel, {| tc_id := jsel_tool_call_id sel; tc_name := jsel_tool_name sel; tc_arguments := jsel_parameters sel |}) <$> l.

Definition try_select_tools (ctx : ReasoningContext) (s : JobRun) : JobRun * result (option RespondOutput) Error :=
  let '(w, r) := jq_select_tools reasoner ctx (jn_world s) in
  let s := set_jn_world w s in
  match r with
  | Ok [] => (s, Ok None)
  | Ok sels =>
      (reset_rate_limit_counter s,
       Ok (Some {| ro_result := RToolCalls (selections_to_tool_calls sels) None; ro_usage := usage_zero |}))
  | Err (RateLimited _ retry_after) =>
      let '(s, r) := handle_rate_limit retry_after s in
      (s, match r with Ok out => Ok (Some out) | Err e => Err e end)
  | Err e => (s, Err (job_llm_error e))
  end.

(** [TokenUsage::total] *)
Definition usage_total (u : TokenUsage) : Z := wrap_u32 (tu_input u + tu_output u).

Definition track_token_budget (usage : TokenUsage) (s : JobRun) : JobRun * result unit Error :=
  let total_tokens := usage_total usage in
  if (total_tokens =? 0)%Z then (s, Ok tt)
  else
    match update_context (jw_manager (jn_world s)) job (λ c, add_tokens c total_tokens) with
    | (m, Err e) => (set_jn_world (set_manager m (jn_world s)) s, Err (EJob e))
    | (m, Ok (Err msg)) => (set_jn_world (set_manager m (jn_world s)) s, Err (EJob (JobFailed job msg)))
    | (m, Ok (Ok _)) => (set_jn_world (set_manager m (jn_world s)) s, Ok tt)
    end.

Definition respond_with_tools_tracked (ctx : ReasoningContext) (s : JobRun) : JobRun * result RespondOutput Error :=
  let '(w, r) := jq_respond_with_tools reasoner ctx (jn_world s) in
  let s := set_jn_world w s in
  match r with
  | Ok output =>
      match track_token_budget (ro_usage output) (reset_rate_limit_counter s) with
      | (s, Ok _) => (s, Ok output)
      | (s, Err e) => (s, Err e)
      end
  | Err (RateLimited _ retry_after) => handle_rate_limit retry_after s
  | Err e => (s, Err (job_llm_error e))
  end.

(** The messages waiting on the channel at a read. *)
Definition waiting (s : JobRun) : list WorkerMessage := jn_inbox s ++ ji_arrivals ji (jn_reads s).

Definition is_stop (m : WorkerMessage) : bool := match m with WmStop => true | _ => false end.

Definition user_message (m : WorkerMessage) : option string :=
  match m with WmUserMessage content => Some content | _ => None end.

(** The loop over the channel: each user message is logged. *)
Definition drain_message (s : JobRun) (m : WorkerMessage) : JobRun :=
  match m with
  | WmUserMessage content => log_event (JeMessage "user" content false) s
  | _ => s
  end.

Definition stops_worker (st : JobState) : bool :=
  match st with Cancelled | Failed | Stuck | Completed | Submitted | Accepted => true | _ => false end.

Definition job_check_signals (s : JobRun) : JobRun * LoopSignal :=
  let msgs := waiting s in
  let s := foldl drain_message (set_jn_inbox [] s) msgs in
  let stop_requested := existsb is_stop msgs in
  let first_user_message := head (omap user_message msgs) in
  (s, if stop_requested then SigStop
      else match first_user_message with
           | Some content => InjectMessage content
           | None =>
               match get_context (jw_manager (jn_world s)) job with
               | Ok c => if stops_worker (state c) then SigStop else SigContinue
               | Err _ => SigContinue
               end
           end).

Definition with_tools (tools : list ToolDefinition) (c : ReasoningContext) : ReasoningContext := {|
  rc_messages := rc_messages c; available_tools := tools; job_description := job_description c;
  current_state := current_state c; rc_metadata := rc_metadata c; force_text := force_text c;
  system_prompt := system_prompt c |}.

Definition job_before_llm_call (s : JobRun) (ctx : ReasoningContext) (iteration : nat) :
    JobRun * ReasoningContext * option LoopOutcome :=
  (s, with_tools (tool_definitions (jn_world s)) ctx, None).

Definition job_call_llm (s : JobRun) (ctx : ReasoningContext) (iteration : nat) :
    JobRun * ReasoningContext * result RespondOutput Error :=
  match try_select_tools ctx s with
  | (s, Err e) => (s, ctx, Err e)
  | (s, Ok (Some output)) => (s, ctx, Ok output)
  | (s, Ok None) => let '(s, r) := respond_with_tools_tracked ctx s in (s, ctx, r)
  end.

Definition job_handle_text_response (s : JobRun) (text : string) (ctx : ReasoningContext) :
    JobRun * ReasoningContext * TextAction :=
  if bool_decide (text = "") then (s, ctx, TextContinue)
  else if llm_signals_completion text then (s, ctx, TextReturn (Response text))
  else (log_event (JeMessage "assistant" text false) s, push_message (msg_assistant text) ctx, TextContinue).

Definition calls_to_selections (calls : list ToolCall) : list JobSelection :=
  (λ tc, {| jsel_tool_name := tc_name tc; jsel_parameters := tc_arguments tc; jsel_reasoning := "";
            jsel_alternatives := []; jsel_tool_call_id := tc_id tc |}) <$> calls.

Definition job_execute_tool_calls (s : JobRun) (calls : list ToolCall) (content : option string) (ctx : ReasoningContext) :
    JobRun * ReasoningContext * result (option LoopOutcome) Error :=
  let s := match content with Some text => log_event (JeMessage "assistant" text false) s | None => s end in
  let ctx := push_message (assistant_with_tool_calls content calls) ctx in
  let selections := calls_to_selections calls in
  match selections with
  | [sel] =>
      let '(s, r) := execute_tool (jsel_tool_name sel) (jsel_parameters sel) s in
      let '(ctx, s) := process_tool_result_job ctx sel r s in
      (s, ctx, Ok None)
  | _ =>
      let '(s, results) := execute_tools_parallel selections s in
      let '(ctx, s) := process_results ctx (zip selections results) s in
      (s, ctx, Ok None)
  end.

Definition job_on_tool_intent_nudge (s : JobRun) (text : string) (ctx : ReasoningContext) : JobRun * ReasoningContext :=
  (log_event (JeMessage "assistant" (truncate_for_preview text 2000) true) s, ctx).

#[local] Instance job_delegate : LoopDelegate JobRun Error := {|
  check_signals := job_check_signals;
  before_llm_call := job_before_llm_call;
  delegate_call_llm := job_call_llm;
  handle_text_response := job_handle_text_response;
  AgenticLoop.execute_tool_calls := job_execute_tool_calls;
  on_tool_intent_nudge := job_on_tool_intent_nudge;
  after_iteration := λ s _, s;
|}.

(** ** Plans *)

Definition plan_step (i : nat) (a : PlannedAction) : string :=
  pretty (i + 1) +:+ ". " +:+ act_tool a +:+ " - " +:+ act_reasoning a.

Definition plan_steps (p : ActionPlan) : string := join newline (imap plan_step (plan_actions p)).

Definition generate_plan (ctx : ReasoningContext) (s : JobRun) : ReasoningContext * JobRun * option ActionPlan :=
  if negb use_planning then (ctx, s, None)
  else
    match jq_plan reasoner ctx (jn_world s) with
    | (w, Ok p) =>
        let ctx := push_message (msg_assistant ("I've created a plan to accomplish this goal: " +:+ plan_goal p +:+ newline
                     +:+ newline +:+ "Steps:" +:+ newline +:+ plan_steps p)) ctx in
        (ctx, log_event (JeMessage "assistant" ("Plan: " +:+ plan_goal p +:+ newline +:+ newline +:+ plan_steps p) false)
                (set_jn_world w s), Some p)
    | (w, Err _) => (ctx, set_jn_world w s, None)
    end.

(** The loop over the channel, which a stop or a user message ends; what follows it
    stays on the channel. *)
Fixpoint drain_plan_from (msgs : list WorkerMessage) (ctx : ReasoningContext) (s : JobRun) :
    ReasoningContext * JobRun * option WorkerLoopOutcome * list WorkerMessage :=
  match msgs with
  | [] => (ctx, s, None, [])
  | WmStop :: rest => (ctx, s, Some WlExited, rest)
  | WmUserMessage content :: rest =>
      (push_message (msg_user content) ctx,
       log_event (JeStatus "Plan interrupted by user message, re-evaluating...")
         (log_event (JeMessage "user" content false) s),
       Some WlContinueDirectSelection, rest)
  | WmPing :: rest | WmStart :: rest => drain_plan_from rest ctx s
  end.

Definition drain_plan_signals (ctx : ReasoningContext) (s : JobRun) : ReasoningContext * JobRun * option WorkerLoopOutcome :=
  let '(ctx, s', outcome, rest) := drain_plan_from (waiting s) ctx s in
  (ctx, set_jn_inbox rest s', outcome).

Definition planned_selection (index : nat) (a : PlannedAction) : JobSelection := {|
  jsel_tool_name := act_tool a; jsel_parameters := act_parameters a; jsel_reasoning := act_reasoning a;
  jsel_alternatives := []; jsel_tool_call_id := "plan_" +:+ uuid_to_string job +:+ "_" +:+ pretty index |}.

Definition execute_planned_action (ctx : ReasoningContext) (index : nat) (a : PlannedAction) (s : JobRun) :
    ReasoningContext * JobRun :=
  let sel := planned_selection index a in
  let ctx := push_message (assistant_with_tool_calls None (selections_to_tool_calls [sel])) ctx in
  let '(s, r) := execute_tool (act_tool a) (act_parameters a) s in
  process_tool_result_job ctx sel r s.

Definition PLAN_DONE_QUESTION : string :=
  "All planned actions have been executed. Is the job complete? If not, what else needs to be done?".

Definition confirm_plan_completion (ctx : ReasoningContext) (s : JobRun) :
    ReasoningContext * JobRun * result WorkerLoopOutcome Error :=
  let ctx := push_message (msg_user PLAN_DONE_QUESTION) ctx in
  match jq_respond reasoner ctx (jn_world s) with
  | (w, Err e) => (ctx, set_jn_world w s, Err (job_llm_error e))
  | (w, Ok response) =>
      let ctx := push_message (msg_assistant response) ctx in
      let s := set_jn_world w s in
      if llm_signals_completion response then (ctx, s, Ok WlCompleted)
      else (ctx, log_event (JeStatus "Plan completed but job needs more work, continuing...") s, Ok WlContinueDirectSelection)
  end.

Fixpoint execute_plan_from (index : nat) (actions : list PlannedAction) (ctx : ReasoningContext) (s : JobRun) :
    ReasoningContext * JobRun * result WorkerLoopOutcome Error :=
  match actions with
  | [] => confirm_plan_completion ctx s
  | a :: actions =>
      match drain_plan_signals ctx s with
      | (ctx, s, Some outcome) => (ctx, s, Ok outcome)
      | (ctx, s, None) =>
          let '(ctx, s) := execute_planned_action ctx index a s in
          execute_plan_from (S index) actions ctx s
      end
  end.

Definition execute_plan (p : ActionPlan) (ctx : ReasoningContext) (s : JobRun) :
    ReasoningContext * JobRun * result WorkerLoopOutcome Error := execute_plan_from 0 (plan_actions p) ctx s.

Definition is_finished_state (st : JobState) : bool :=
  is_terminal st || bool_decide (st = Stuck) || bool_decide (st = Completed).

Definition maybe_plan_and_execute (ctx : ReasoningContext) (s : JobRun) :
    ReasoningContext * JobRun * result (option WorkerLoopOutcome) Error :=
  match generate_plan ctx s with
  | (ctx, s, None) => (ctx, s, Ok None)
  | (ctx, s, Some p) =>
      match execute_plan p ctx s with
      | (ctx, s, Err e) => (ctx, s, Err e)
      | (ctx, s, Ok WlCompleted) => (ctx, s, Ok (Some WlCompleted))
      | (ctx, s, Ok WlExited) => (ctx, s, Ok (Some WlExited))
      | (ctx, s, Ok WlContinueDirectSelection) =>
          (ctx, s, match get_context (jw_manager (jn_world s)) job with
                   | Ok c => if is_finished_state (state c) then Ok (Some WlExited) else Ok None
                   | Err _ => Ok None
                   end)
      end
  end.

(** ** The run *)

Definition MAX_WORKER_ITERATIONS : Z := 500.

(** [v.as_u64()] *)
Definition metadata_u64 (v : json) : option Z :=
  match json_view v with VNumber text => parse_unsigned u64_max text | _ => None end.

Definition worker_iterations (s : JobRun) : nat :=
  let asked :=
    match get_context (jw_manager (jn_world s)) job with
    | Ok c => json_get (metadata c) "max_iterations" ≫= metadata_u64
    | Err _ => None
    end in
  Z.to_nat (Z.min (default 50%Z asked) MAX_WORKER_ITERATIONS).

Definition worker_config (n : nat) : AgenticLoopConfig :=
  {| max_iterations := n; enable_tool_intent_nudge := true; max_tool_intent_nudges := 2 |}.

Definition execution_loop (ctx : ReasoningContext) (s : JobRun) : JobRun * result WorkerLoopOutcome Error :=
  let max_iterations := worker_iterations s in
  let ctx := with_tools (tool_definitions (jn_world s)) ctx in
  match maybe_plan_and_execute ctx s with
  | (_, s, Err e) => (s, Err e)
  | (_, s, Ok (Some outcome)) => (s, Ok outcome)
  | (ctx, s, Ok None) =>
      let '(s, _, r) := run_agentic_loop (worker_config max_iterations) s ctx in
      (s, match r with
          | Err e => Err e
          | Ok (Response _) => Ok WlCompleted
          | Ok MaxIterations => Err (EJob (JobFailed job "Maximum iterations exceeded: job hit the iteration cap"))
          | Ok Stopped | Ok (NeedApproval _) => Ok WlExited
          end)
  end.

Definition wait_for_start (m : option WorkerMessage) : bool :=
  match m with
  | Some WmStop | None => false
  | Some WmStart | Some WmPing | Some (WmUserMessage _) => true
  end.

Definition job_prompt (c : JobContext) : string :=
  "You are an autonomous agent working on a job." +:+ newline +:+ newline +:+ "Job: " +:+ title c +:+ newline
  +:+ "Description: " +:+ description c +:+ newline +:+ newline
  +:+ "You have access to tools to complete this job. Plan your approach and execute tools as needed." +:+ newline
  +:+ "You may request multiple tools at once if they can be executed in parallel." +:+ newline
  +:+ "Report when the job is complete or if you encounter issues you cannot resolve.".

Definition build_reasoning_context (c : JobContext) : ReasoningContext := {|
  rc_messages := [msg_system (job_prompt c)]; available_tools := []; job_description := Some (description c);
  current_state := None; rc_metadata := ∅; force_text := false; system_prompt := None |}.

Definition mark_completed_if_active (s : JobRun) : JobRun * result unit Error :=
  match get_context (jw_manager (jn_world s)) job with
  | Err _ => (s, Ok tt)
  | Ok c =>
      if is_terminal (state c) then (s, Ok tt)
      else match state c with
           | Completed | Stuck => (s, Ok tt)
           | _ => mark_completed s
           end
  end.

(** [None] when the time ran out *)
Definition settle_run_result (r : option (result WorkerLoopOutcome Error)) (s : JobRun) : JobRun * result unit Error :=
  match r with
  | Some (Ok WlCompleted) => mark_completed_if_active s
  | Some (Ok WlExited) | Some (Ok WlContinueDirectSelection) => (s, Ok tt)
  | Some (Err e) =>
      mark_failed (match e with EJob (JobFailed _ reason) => reason | other => error_display other end) s
  | None => mark_job_stuck "Execution timeout" s
  end.

(** The whole run, from the first message; [cut] is the state in which the time ran
    out, if it did. *)
Definition worker_run (start : option WorkerMessage) (cut : option JobRun) (s : JobRun) : JobRun * result unit Error :=
  if negb (wait_for_start start) then (s, Ok tt)
  else
    match get_context (jw_manager (jn_world s)) job with
    | Err e => (s, Err (EJob e))
    | Ok c =>
        match cut with
        | Some s' => settle_run_result None s'
        | None => let '(s, r) := execution_loop (build_reasoning_context c) s in settle_run_result (Some r) s
        end
    end.

(** * Theorems *)

(** ** Final states *)

Abbreviation contexts_of s := (contexts (jw_manager (jn_world s))).

Lemma set_jn_world_id s w : w = jn_world s → set_jn_world w s = s.
Proof. intros ->. by destruct s. Qed.

Lemma set_manager_id (w : W) m : m = jw_manager w → set_manager m w = w.
Proof. intros ->. by destruct w. Qed.

(** What a terminal transition leaves, whatever the result. *)
Lemma apply_terminal_cases status reason str msg tr s c :
  contexts_of s !! job = Some c → (∀ c' e, tr c = (c', Err e) → c' = c) →
  match apply_terminal_transition status reason str msg tr s with
  | (s', Ok _) =>
      final_for_worker (state c) = false ∧
      (∃ c', tr c = (c', Ok tt) ∧ contexts_of s' !! job = Some c') ∧
      jn_persisted s' = jn_persisted s ++ (if wd_store deps then [(status, reason)] else [])
  | (s', Err (EJob (PersistenceError id e))) =>
      id = job ∧ wd_store deps = true ∧ ji_saved ji = Err e ∧ final_for_worker (state c) = false ∧
      jn_persisted s' = jn_persisted s ∧ jn_events s' = jn_events s ∧
      ∃ c', tr c = (c', Ok tt) ∧ contexts_of s' !! job = Some (set_state_rollback c' (state c))
  | (s', Err (EJob (ContextError id _))) =>
      id = job ∧ s' = s ∧ (final_for_worker (state c) = true ∨ ∃ e, tr c = (c, Err e))
  | (_, Err _) => False
  end.
Proof.
  intros Hc Herr. unfold apply_terminal_transition, transition_terminal_state, update_context. rewrite Hc.
  assert (∀ c0, c0 = c → set_jn_world (set_manager (set_contexts (<[job := c0]> (contexts_of s)) (jw_manager (jn_world s)))
    (jn_world s)) s = s) as Hid.
  { intros c0 ->. apply set_jn_world_id, set_manager_id, set_contexts_same, Hc. }
  destruct (final_for_worker (state c)) eqn:Hfin; [rewrite Hid by done; by auto|].
  destruct (tr c) as [c' [[]|e]] eqn:Htr; [|rewrite Hid by (by eapply Herr); erewrite (Herr c' e) by done; by eauto].
  unfold persist_terminal. set (s1 := set_jn_world _ s).
  destruct (wd_store deps); [destruct (ji_saved ji) as [u|e]|].
  - split_and!; [done| |done]. exists c'. split; [done|]. cbn. apply lookup_insert_eq.
  - split_and!; [done..|]. exists c'. split; [done|]. unfold rollback_context, update_context. cbn.
    rewrite lookup_insert_eq. cbn. apply lookup_insert_eq.
  - split_and!; [done| |by rewrite app_nil_r]. exists c'. split; [done|]. cbn. apply lookup_insert_eq.
Qed.

(** The transition of a job in progress to a final state of a worker. *)
Definition final_transition (st : JobState) (reason : string) (c : JobContext) : JobContext * result unit string :=
  transition_to c st (Some reason) (ji_now1 ji) (ji_now2 ji).

Lemma final_transition_outcome st reason str msg s c :
  contexts_of s !! job = Some c → state c = InProgress → job_reachable c →
  st = Completed ∨ st = Failed ∨ st = Stuck →
  match apply_terminal_transition st (Some reason) str msg (final_transition st reason) s with
  | (s', Ok _) =>
      state <$> contexts_of s' !! job = Some st ∧
      jn_persisted s' = jn_persisted s ++ (if wd_store deps then [(st, Some reason)] else [])
  | (s', Err e) =>
      wd_store deps = true ∧ (∃ e', e = EJob (PersistenceError job e')) ∧
      contexts_of s' !! job = Some (set_transitions (kept_transitions c) c) ∧
      jn_persisted s' = jn_persisted s ∧ jn_events s' = jn_events s
  end.
Proof.
  intros Hc Hst Hreach Htgt.
  pose proof (apply_terminal_cases st (Some reason) str msg (final_transition st reason) s c Hc) as Hcases.
  assert (∃ c', final_transition st reason c = (c', Ok tt) ∧ state c' = st ∧ started_at c' = started_at c) as (c' & Htr & Hs' & Hstart).
  { unfold final_transition, transition_to. rewrite Hst.
    assert (can_transition_to InProgress st = true) as -> by (destruct Htgt as [->|[->| ->]]; done). cbn [negb].
    eexists. split; [done|]. rewrite state_stamp. split; [done|].
    unfold stamp. unfold push_transition. by destruct Htgt as [->|[->| ->]]. }
  destruct (apply_terminal_transition _ _ _ _ _ s) as [s' [u|e]].
  - destruct Hcases as (_ & (c2 & Hc2 & ->) & Hp); [intros c2 e; congruence|]. split; [|done]. cbn. congruence.
  - assert (∀ c2 e0, final_transition st reason c = (c2, Err e0) → c2 = c) as Hno by (intros c2 e0; congruence).
    specialize (Hcases Hno).
    destruct e as [|[]| |]; try done; [destruct Hcases as (_ & _ & [Hf|[e0 He0]]); [by rewrite Hst in Hf|congruence]|].
    destruct Hcases as (-> & Hstore & _ & _ & Hp & Hev & c2 & Hc2 & Hroll). split_and!; [done|by eexists| |done|done].
    rewrite Hroll. f_equal. rewrite Htr in Hc2. injection Hc2 as <-.
    rewrite (rollback_restores c c' st (Some reason) (ji_now1 ji) (ji_now2 ji) Hreach); [|rewrite Hst; by right; left|done].
    rewrite Hstart. generalize (kept_transitions c). by destruct c.
Qed.

(** How a run is to end: completed, failed, stuck, or left as it is. *)
Definition settled_state (r : option (result WorkerLoopOutcome Error)) : option JobState :=
  match r with
  | Some (Ok WlCompleted) => Some Completed
  | Some (Ok _) => None
  | Some (Err _) => Some Failed
  | None => Some Stuck
  end.

(** C20. How a run ends.  A job in progress becomes completed, failed or stuck as the run
    did, and when there is a database it is told so in the same write as the result; when
    that write fails, nothing was announced and the job is in progress exactly as before
    (but if its history was full, at 200 entries, the oldest entry is gone).  A job that someone else brought to an end meanwhile is not touched. *)
Theorem run_settled r s c (Hc : contexts_of s !! job = Some c) :
  let '(s', res) := settle_run_result r s in
  (final_for_worker (state c) = true →
     contexts_of s' = contexts_of s ∧ jn_persisted s' = jn_persisted s ∧ jn_events s' = jn_events s) ∧
  (state c = InProgress → job_reachable c →
   match settled_state r, res with
   | None, res => s' = s ∧ res = Ok tt
   | Some st, Ok _ =>
       state <$> contexts_of s' !! job = Some st ∧
       ∃ reason, jn_persisted s' = jn_persisted s ++ (if wd_store deps then [(st, Some reason)] else [])
   | Some st, Err e =>
       wd_store deps = true ∧ (∃ e', e = EJob (PersistenceError job e')) ∧
       contexts_of s' !! job = Some (set_transitions (kept_transitions c) c) ∧
       jn_persisted s' = jn_persisted s ∧ jn_events s' = jn_events s
   end).
Proof.
  assert (∀ st reason str msg, st = Completed ∨ st = Failed ∨ st = Stuck →
    let '(s', res) := apply_terminal_transition st (Some reason) str msg (final_transition st reason) s in
    (final_for_worker (state c) = true →
       contexts_of s' = contexts_of s ∧ jn_persisted s' = jn_persisted s ∧ jn_events s' = jn_events s) ∧
    (state c = InProgress → job_reachable c →
     match res with
     | Ok _ => state <$> contexts_of s' !! job = Some st ∧
         ∃ reason, jn_persisted s' = jn_persisted s ++ (if wd_store deps then [(st, Some reason)] else [])
     | Err e => wd_store deps = true ∧ (∃ e', e = EJob (PersistenceError job e')) ∧
         contexts_of s' !! job = Some (set_transitions (kept_transitions c) c) ∧
         jn_persisted s' = jn_persisted s ∧ jn_events s' = jn_events s
     end)) as Hmark.
  { intros st reason str msg Htgt.
    pose proof (apply_terminal_cases st (Some reason) str msg (final_transition st reason) s c Hc) as Hcases.
    pose proof (final_transition_outcome st reason str msg s c Hc) as Hout.
    destruct (apply_terminal_transition _ _ _ _ _ s) as [s' res]. split.
    - intros Hfin. specialize (Hcases (λ c' e Htr, proj1 (transition_to_Err _ _ _ _ _ _ _ Htr))).
      destruct res as [u|[|[]| |]]; try done; [by destruct Hcases as (Hf & _); congruence|by destruct Hcases as (_ & -> & _)|].
      destruct Hcases as (_ & _ & _ & Hf & _); congruence.
    - intros Hst Hreach. specialize (Hout Hst Hreach Htgt). destruct res; [|done].
      destruct Hout as [? ?]. eauto. }
  unfold settle_run_result, settled_state. destruct r as [[[]|e]|].
  - unfold mark_completed_if_active, get_context. rewrite Hc.
    destruct (is_terminal (state c)) eqn:Ht; [split; [done|]; intros Hst; by rewrite Hst in Ht|].
    destruct (state c) eqn:Hst; try (by split); apply (Hmark Completed); by left.
  - done.
  - done.
  - apply (Hmark Failed); by right; left.
  - apply (Hmark Stuck); by right; right.
Qed.

(** ** Tool rounds *)

Definition shown_result (r : result string Error) : result string string :=
  match r with Ok output => Ok output | Err e => Err (error_display e) end.

Definition answer (tc : ToolCall) (r : result string Error) : ChatMessage :=
  (process_tool_result (wd_safety deps) (tc_name tc) (tc_id tc) (shown_result r)).2.

Lemma process_result_messages ctx sel r s :
  rc_messages (process_tool_result_job ctx sel r s).1 =
    rc_messages ctx ++ [(process_tool_result (wd_safety deps) (jsel_tool_name sel) (jsel_tool_call_id sel) (shown_result r)).2].
Proof. by destruct r. Qed.

Lemma process_results_messages ctx l s :
  rc_messages (process_results ctx l s).1 =
    rc_messages ctx ++ ((λ sr, (process_tool_result (wd_safety deps) (jsel_tool_name sr.1) (jsel_tool_call_id sr.1)
                                  (shown_result sr.2)).2) <$> l).
Proof.
  revert ctx s. induction l as [|[sel r] l IH]; intros ctx s; cbn [process_results fmap list_fmap]; [by rewrite app_nil_r|].
  pose proof (process_result_messages ctx sel r s) as Hm.
  destruct (process_tool_result_job ctx sel r s) as [ctx1 s1]. cbn in Hm.
  specialize (IH ctx1 s1). rewrite Hm, <- (assoc_L (++)) in IH. exact IH.
Qed.

Lemma length_collect {S} completed (sels : list S) (f : S → result string Error) :
  length (collect_ordered completed sels f) = length sels.
Proof. unfold collect_ordered. rewrite length_zip_with, length_placed, length_replicate. lia. Qed.

Lemma answers_of_calls calls results :
  length results = length calls →
  ((λ sr, (process_tool_result (wd_safety deps) (jsel_tool_name sr.1) (jsel_tool_call_id sr.1) (shown_result sr.2)).2) <$>
     zip (calls_to_selections calls) results) = zip_with answer calls results.
Proof.
  revert results. induction calls as [|tc calls IH]; intros [|r results] Hlen; try done.
  cbn. f_equal. apply IH. by injection Hlen.
Qed.

(** The states of a round, between the runs of its calls. *)
Definition round_step (calls : list ToolCall) (s s' : JobRun) : Prop :=
  ∃ tc, tc ∈ calls ∧ s' = (execute_tool (tc_name tc) (tc_arguments tc) s).1.

(** [r] is the outcome of a run of the call in the round that starts in [s]. *)
Definition ran_in_round (calls : list ToolCall) (s : JobRun) (tc : ToolCall) (r : result string Error) : Prop :=
  ∃ s1, rtc (round_step calls) s s1 ∧ r = (execute_tool (tc_name tc) (tc_arguments tc) s1).2.

Lemma lookup_selection calls i sel :
  calls_to_selections calls !! i = Some sel →
  ∃ tc, calls !! i = Some tc ∧ jsel_tool_name sel = tc_name tc ∧ jsel_parameters sel = tc_arguments tc.
Proof. unfold calls_to_selections. intros (tc & -> & Htc)%list_lookup_fmap_Some. eauto. Qed.

Lemma run_tasks_ran calls order s :
  let '(_, completed) := job_run_tasks order (calls_to_selections calls) s in
  (∀ i r, (i, r) ∈ completed → ∃ tc, calls !! i = Some tc ∧ ran_in_round calls s tc r) ∧
  (∀ i, i < length calls → (i, true) ∈ order ↔ ∃ r, (i, r) ∈ completed).
Proof.
  revert s. induction order as [|[i finished] order IH]; intros s; cbn [job_run_tasks].
  { split; [by intros ? ? ?%elem_of_nil|]. intros i _. split; [by intros ?%elem_of_nil|by intros [? ?%elem_of_nil]]. }
  destruct (calls_to_selections calls !! i) as [sel|] eqn:Esel.
  2:{ specialize (IH s). destruct (job_run_tasks order _ s) as [s' rs]. destruct IH as [IH1 IH2]. split; [done|].
      intros j Hj. rewrite <-IH2 by done. apply lookup_ge_None in Esel. unfold calls_to_selections in Esel.
      rewrite length_fmap in Esel. rewrite elem_of_cons. split; [intros [[= -> _]|?]; [lia|done]|by right]. }
  apply lookup_selection in Esel as (tc & Htc & Hn & Hp). rewrite Hn, Hp.
  destruct (execute_tool (tc_name tc) (tc_arguments tc) s) as [s1 r] eqn:Er.
  specialize (IH s1). destruct (job_run_tasks order _ s1) as [s' rs]. destruct IH as [IH1 IH2].
  assert (∀ tc' r', ran_in_round calls s1 tc' r' → ran_in_round calls s tc' r') as Hlift.
  { intros tc' r' (s2 & Hs2 & ->). exists s2. split; [|done]. eapply rtc_l; [|exact Hs2]. exists tc. rewrite Er.
    split; [by eapply list_elem_of_lookup_2|done]. }
  assert (∀ j r', (j, r') ∈ rs → ∃ tc, calls !! j = Some tc ∧ ran_in_round calls s tc r') as Hrs.
  { intros j r' (tc' & ? & ?)%IH1. eauto. }
  destruct finished; (split; [|intros j Hj; rewrite elem_of_cons, IH2 by done]).
  - intros j r' [[= -> ->]|Hin]%elem_of_cons; [|by apply Hrs]. exists tc. split; [done|]. exists s. by rewrite Er.
  - split; [intros [[= ->]|[r' ?]]; eexists; [by left|by right]|]. intros [r' [[= -> _]|?]%elem_of_cons]; eauto.
  - exact Hrs.
  - split; [by intros [[=]|?]|by right].
Qed.

Lemma parallel_round calls s ctx :
  let '(s1, results) := execute_tools_parallel (calls_to_selections calls) s in
  let '(ctx', _) := process_results ctx (zip (calls_to_selections calls) results) s1 in
  length results = length calls ∧ rc_messages ctx' = rc_messages ctx ++ zip_with answer calls results ∧
  ∀ i tc r, calls !! i = Some tc → results !! i = Some r →
    if bool_decide ((i, true) ∈ ji_order ji (jn_calls s)) then ran_in_round calls s tc r
    else r = Err (ETool (ToolExecutionFailed (tc_name tc) "Task failed during execution")).
Proof.
  unfold execute_tools_parallel. pose proof (run_tasks_ran calls (ji_order ji (jn_calls s)) s) as Hran.
  destruct (job_run_tasks _ _ s) as [s1 completed]. destruct Hran as [Hran Hended].
  set (results := collect_ordered _ _ _).
  assert (length results = length calls) as Hlen by (unfold results; rewrite length_collect; apply length_fmap).
  pose proof (process_results_messages ctx (zip (calls_to_selections calls) results) s1) as Hm.
  destruct (process_results ctx _ s1) as [ctx' s2]. cbn in Hm. rewrite answers_of_calls in Hm by done.
  split_and!; [done|done|]. intros i tc r Htc Hr.
  assert (i < length calls) as Hi by (by apply lookup_lt_Some in Htc). specialize (Hended i Hi).
  destruct (collect_ordered_cases completed (calls_to_selections calls) job_task_failed i
    {| jsel_tool_name := tc_name tc; jsel_parameters := tc_arguments tc; jsel_reasoning := "";
       jsel_alternatives := []; jsel_tool_call_id := tc_id tc |}) as (b & Hb & Hcase).
  { unfold calls_to_selections. by rewrite list_lookup_fmap, Htc. }
  fold results in Hb. rewrite Hr in Hb. injection Hb as <-. destruct Hcase as [Hin|[-> Hno]].
  - rewrite bool_decide_true by (apply Hended; eauto). apply Hran in Hin as (tc' & Htc' & ?). congruence.
  - rewrite bool_decide_false; [done|]. intros [b Hb]%Hended. by apply (Hno b).
Qed.

(** C21. A round of tool calls of a job never ends the run: the model is shown its own
    calls and then one answer per call, in order and with the call's identifier, whatever
    order the calls ran in.  Each answer is, as the safety layer lets it through, the
    outcome of a run of that very call with its arguments, also when it failed or was
    refused; only a task of several that never came to an end (it panicked) is answered
    with a failure of its own. *)
Theorem job_calls_answered s calls content ctx :
  let '(_, ctx', r) := job_execute_tool_calls s calls content ctx in
  let s0 := match content with Some text => log_event (JeMessage "assistant" text false) s | None => s end in
  r = Ok None ∧
  ∃ results, length results = length calls ∧
    rc_messages ctx' = rc_messages ctx ++ assistant_with_tool_calls content calls :: zip_with answer calls results ∧
    ∀ i tc r, calls !! i = Some tc → results !! i = Some r →
      if bool_decide (length calls = 1 ∨ (i, true) ∈ ji_order ji (jn_calls s)) then ran_in_round calls s0 tc r
      else r = Err (ETool (ToolExecutionFailed (tc_name tc) "Task failed during execution")).
Proof.
  unfold job_execute_tool_calls. set (s0 := match content with Some _ => _ | None => s end).
  assert (jn_calls s0 = jn_calls s) as Hcalls by (by destruct content). set (ctx0 := push_message _ ctx).
  assert (∀ l, rc_messages ctx0 ++ l = rc_messages ctx ++ assistant_with_tool_calls content calls :: l) as Hpush.
  { intros l. unfold ctx0, push_message. cbn. by rewrite <- (assoc_L (++)). }
  destruct (decide (length calls = 1)) as [Hone|Hmany].
  - destruct calls as [|tc [|]]; try done. cbn [calls_to_selections fmap list_fmap].
    destruct (execute_tool _ _ s0) as [s1 r] eqn:Er. set (sel := {| jsel_tool_name := _ |}) in *.
    pose proof (process_result_messages ctx0 sel r s1) as Hm.
    destruct (process_tool_result_job ctx0 sel r s1) as [ctx' s2]. split; [done|]. exists [r]. split; [done|].
    cbn in Hm. rewrite Hm, Hpush. split; [done|]. intros [|i] tc' r' Htc Hr; [|done]. injection Htc as <-. injection Hr as <-.
    rewrite bool_decide_true by (by left). exists s0. split; [apply rtc_refl|]. cbn in Er. by rewrite Er.
  - pose proof (parallel_round calls s0 ctx0) as Hpar.
    destruct calls as [|tc [|tc2 calls]]; try done; destruct (execute_tools_parallel _ s0) as [s1 results];
      destruct (process_results ctx0 _ s1) as [ctx' s2]; destruct Hpar as (Hlen & Hm & Hres);
      (split; [done|]); exists results; (split; [done|]); rewrite Hm, Hpush; (split; [done|]);
      intros i tc' r Htc Hr; specialize (Hres i tc' r Htc Hr); rewrite Hcalls in Hres; revert Hres;
      repeat case_bool_decide; naive_solver.
Qed.

(** ** Signals *)

Lemma drain_world s msgs : jn_world (foldl drain_message s msgs) = jn_world s.
Proof. revert s. induction msgs as [|m msgs IH]; intros s; [done|]. cbn. rewrite IH. by destruct m. Qed.

Lemma drain_inbox s msgs : jn_inbox (foldl drain_message s msgs) = jn_inbox s.
Proof. revert s. induction msgs as [|m msgs IH]; intros s; [done|]. cbn. rewrite IH. by destruct m. Qed.

(** What a worker does before asking the model: it reads every waiting message; a
    request to stop wins over everything, then the first user message is injected, and
    with neither the worker goes on exactly while the job has not left its working
    states. *)
Theorem job_signals_exact s :
  let '(s', sig) := job_check_signals s in
  jn_inbox s' = [] ∧ jn_world s' = jn_world s ∧
  (sig = SigStop ↔ WmStop ∈ waiting s ∨
     (omap user_message (waiting s) = [] ∧ ∃ c, contexts_of s !! job = Some c ∧ stops_worker (state c) = true)) ∧
  (∀ content, sig = InjectMessage content ↔
     (WmStop ∉ waiting s) ∧ head (omap user_message (waiting s)) = Some content).
Proof.
  unfold job_check_signals. rewrite drain_inbox, drain_world. cbn [set_jn_inbox jn_inbox jn_world].
  assert (existsb is_stop (waiting s) = bool_decide (WmStop ∈ waiting s)) as ->.
  { apply eq_bool_prop_intro. rewrite !Is_true_true, existsb_exists, bool_decide_eq_true. split.
    - intros (m & Hm & Hs). destruct m; try done. by apply list_elem_of_In.
    - intros Hm. exists WmStop. split; [by apply list_elem_of_In|done]. }
  split; [done|]. split; [done|]. case_bool_decide as Hstop.
  { split; [split; [by left|done]|]. intros content. split; [done|]. by intros [? _]. }
  destruct (omap user_message (waiting s)) as [|content l] eqn:Hu; cbn.
  - unfold get_context. destruct (contexts_of s !! job) as [c|] eqn:Hc.
    + assert (∀ sig content, sig ≠ InjectMessage content →
        sig = InjectMessage content ↔ (WmStop ∉ waiting s) ∧ None = Some content) as Hinj by (intros; split; [done|by intros [_ ?]]).
      destruct (stops_worker (state c)) eqn:Hst; (split; [split|by intros content; apply Hinj]); try done.
      * intros _. right. split; [done|by exists c].
      * intros [?|(_ & c' & E & ?)]; [done|congruence].
    + split; [|intros content; split; [done|by intros [_ ?]]]. split; [done|]. intros [?|(_ & c & ? & _)]; done.
  - split; [split; [done|intros [?|[? _]]; done]|]. intros c. split; [by intros [= ->]|]. by intros [_ [= ->]].
Qed.

(** Of several user messages read at once only the first reaches the model: the others
    are logged and gone. *)
Lemma later_user_messages_lost s first second :
  jn_inbox s = [WmUserMessage first; WmUserMessage second] → ji_arrivals ji (jn_reads s) = [] →
  let '(s', sig) := job_check_signals s in
  sig = InjectMessage first ∧ jn_inbox s' = [] ∧
  jn_events s' = jn_events s ++ [JeMessage "user" first false; JeMessage "user" second false].
Proof.
  intros Hi Ha. unfold job_check_signals, waiting. rewrite Hi, Ha. cbn. by rewrite <- (assoc_L (++)).
Qed.

(** ** Limits *)

Lemma handle_rate_limit_cases retry s :
  match handle_rate_limit retry s with
  | (s', Ok out) => jn_rate_limits s' = S (jn_rate_limits s) ∧ jn_rate_limits s' < 10 ∧ ro_result out = RText ""
  | (s', Err e) => 10 ≤ S (jn_rate_limits s) ∧ e = EJob (JobFailed job "Persistent rate limiting: exceeded retry limit")
  end.
Proof.
  unfold handle_rate_limit, MAX_CONSECUTIVE_RATE_LIMITS.
  destruct (Nat.leb_spec 10 (S (jn_rate_limits s))); [done|]. split; [done|]. split; [cbn; lia|done].
Qed.

Lemma track_budget_rate usage s : jn_rate_limits (track_token_budget usage s).1 = jn_rate_limits s.
Proof. unfold track_token_budget. destruct (_ =? _)%Z; [done|]. by destruct (update_context _ _ _) as [m [[]|]]. Qed.

(** A call of the model that the run survives resets the count of rate limits or is the
    next of fewer than ten in a row, answered by an empty text. *)
Lemma rate_limits_bounded s ctx i s' ctx' out :
  job_call_llm s ctx i = (s', ctx', Ok out) →
  jn_rate_limits s' = 0 ∨
  (jn_rate_limits s' = S (jn_rate_limits s) ∧ jn_rate_limits s' < 10 ∧ ro_result out = RText "").
Proof.
  unfold job_call_llm, try_select_tools. destruct (jq_select_tools reasoner ctx (jn_world s)) as [w r].
  destruct r as [[|sel sels]|e].
  - unfold respond_with_tools_tracked. destruct (jq_respond_with_tools reasoner ctx _) as [w2 [output|e]].
    + pose proof (track_budget_rate (ro_usage output) (reset_rate_limit_counter (set_jn_world w2 (set_jn_world w s)))) as Hr.
      destruct (track_token_budget _ _) as [s2 [u|e]]; [|done]. intros [= <- <- <-]. left. exact Hr.
    + destruct e; try done.
      pose proof (handle_rate_limit_cases retry_after (set_jn_world w2 (set_jn_world w s))) as Hh.
      destruct (handle_rate_limit _ _) as [s2 [o|e]]; [|done]. intros [= <- <- <-]. by right.
  - intros [= <- <- <-]. by left.
  - destruct e; try done.
    pose proof (handle_rate_limit_cases retry_after (set_jn_world w s)) as Hh.
    destruct (handle_rate_limit _ _) as [s2 [o|e]]; [|done]. intros [= <- <- <-]. by right.
Qed.

(** The iterations of a worker, whatever the job's metadata ask for. *)
Lemma worker_iterations_bounded s : worker_iterations s ≤ 500.
Proof. unfold worker_iterations, MAX_WORKER_ITERATIONS. lia. Qed.

(** Reaching the token budget ends the run as a failure of the job. *)
Lemma budget_fails_job usage s c :
  contexts_of s !! job = Some c → usage_total usage ≠ 0%Z → (0 < max_tokens c)%Z →
  (max_tokens c < wrap_u64 (total_tokens_used c + usage_total usage))%Z →
  ∃ reason, (track_token_budget usage s).2 = Err (EJob (JobFailed job reason)).
Proof.
  intros Hc Hu Hmax Hover. unfold track_token_budget. rewrite (proj2 (Z.eqb_neq _ _) Hu).
  unfold update_context. rewrite Hc. unfold add_tokens. cbn.
  rewrite (proj2 (Z.ltb_lt _ _) Hmax), (proj2 (Z.ltb_lt _ _) Hover). cbn. by eexists.
Qed.

(** The outcome the run cannot settle does not occur. *)
Lemma execution_loop_outcome ctx s s' : execution_loop ctx s ≠ (s', Ok WlContinueDirectSelection).
Proof.
  unfold execution_loop. intros E.
  destruct (maybe_plan_and_execute _ s) as [[ctx1 s1] [[o|]|e]] eqn:Hp; [| |done].
  - injection E as -> ->. revert Hp. unfold maybe_plan_and_execute.
    destruct (generate_plan _ s) as [[ctx2 s2] [p|]]; [|done].
    destruct (execute_plan p ctx2 s2) as [[ctx3 s3] [[]|e]]; try done.
    destruct (get_context _ job) as [c|]; [|done]. by destruct (is_finished_state (state c)).
  - destruct (run_agentic_loop _ s1 ctx1) as [[s2 ctx2] [[]|e]]; done.
Qed.
End Worker.

(** ** Witness *)

Section Witness.
#[local] Existing Instance json_lite.
#[local] Existing Instance uuid_bits.
#[local] Existing Instance dec_cents.
#[local] Existing Instance literal_regex.
#[local] Existing Instance naive_ac.
#[local] Existing Instance ascii_case.

Definition no_job_hook : Hook (JobWorld unit) Empty_set := {|
  hook_name := λ h : Empty_set, match h with end; hook_points := λ h : Empty_set, match h with end;
  failure_mode := λ h : Empty_set, match h with end; hook_timeout := λ h : Empty_set, match h with end;
  execute := λ h : Empty_set, match h with end |}.
#[local] Existing Instance no_job_hook.

Definition working_job : JobContext := JobState.apply_op (with_user 7 0 "ada" "t" "d") (OpTransition InProgress None 0 0).

Lemma working_job_reachable : job_reachable working_job.
Proof.
  exists (with_user 7 0 "ada" "t" "d"). split; [by exists 7%N, 0%Z, "ada", "t", "d"|].
  apply rtc_once. by exists (OpTransition InProgress None 0 0).
Qed.

Definition worker_deps : WorkerDeps (H := Empty_set) (A := unit) := {|
  wd_tools := ∅; wd_safety := demo_safety; wd_hooks := []; wd_approval_context := None; wd_http_interceptor := None;
  wd_store := true |}.

Definition worker_inputs (saved : result unit string) : JobInputs := {|
  ji_arrivals := λ _, []; ji_call := λ _, {| ci_limit := at_time 0; ci_action_id := 1; ci_now := 0; ci_elapsed := 0 |};
  ji_order := λ _, []; ji_now1 := 5; ji_now2 := 6; ji_saved := saved |}.

Definition working_run : JobRun (X := unit) := {|
  jn_world := {| jw_manager := set_contexts {[7%N := working_job]} (manager_new 5); jw_limiter := rate_limiter_new;
                 jw_saved := []; jw_rest := tt |};
  jn_inbox := []; jn_reads := 0; jn_calls := 0; jn_rate_limits := 0; jn_events := []; jn_failures := []; jn_persisted := [] |}.

(** A run that the database does not accept leaves the job in progress. *)
Lemma run_settled_witness :
  let s' := (settle_run_result worker_deps 7 (worker_inputs (Err "disk full")) (Some (Ok WlCompleted)) working_run).1 in
  contexts (jw_manager (jn_world s')) !! 7%N = Some working_job.
Proof.
  pose proof (run_settled worker_deps 7 (worker_inputs (Err "disk full")) (Some (Ok WlCompleted)) working_run working_job) as H.
  destruct (settle_run_result worker_deps 7 (worker_inputs (Err "disk full")) (Some (Ok WlCompleted)) working_run) as [s' res] eqn:E.
  destruct H as [_ H]; [apply lookup_singleton_eq|].
  specialize (H eq_refl working_job_reachable).
  assert (match res with Ok _ => false | Err _ => true end = true) as Hr.
  { apply (f_equal snd) in E. cbn [snd] in E. rewrite <- E. vm_compute. reflexivity. }
  destruct res as [u|e]; [discriminate|]. exact (proj1 (proj2 (proj2 H))).
Defined.
End Witness.
