(* ===== verification/Orchestrator.v ===== *)
(** * Container jobs

    Models [src/src/orchestrator/auth.rs] (the tokens and credential grants of
    workers), [job_types.rs], [job_registry.rs], [job_manager.rs] with
    [job_manager/docker.rs] and [docker_helpers.rs], [bind_mount.rs] and [reaper.rs]:
    the life of a job in a container of its own, from the token minted for its worker
    to the removal of an orphaned container.  Built with the [docker] feature, which is
    on by default.

    The Docker daemon and the file system are the parameter [Host]: a reply may depend
    on every call before it, and every call is recorded with its reply.  The bytes of a
    token, the clock and the text form of times are parameters too.  An operation is a
    function on the manager's state; where another operation can run between two parts
    of one, because the first ends with a call to the daemon, the parts are definitions
    of their own, so that sequences of them are the interleavings. *)

From S2P Require Import Prelude Text Externals JobState JobManager ToolExec Allowlist Paths.
From S2P Require Import Failover Sandbox.

(** ** Tokens and grants *)

Record CredentialGrant := { grant_secret : string; grant_env_var : string }.

Record TokenStore := {
  tokens : gmap Uuid string;
  credential_grants : gmap Uuid (list CredentialGrant);
}.

Definition token_store_new : TokenStore := {| tokens := ∅; credential_grants := ∅ |}.

(** [write!(s, "{b:02x}")] for a byte *)
Definition hex_digit (n : nat) : Ascii.ascii := if n <? 10 then byte (48 + n) else byte (87 + n).
Definition hex_byte (b : nat) : string := String (hex_digit (b / 16)) (String (hex_digit (b mod 16)) "").

(** [bytes] is what the random generator filled the array with. *)
Definition generate_token (bytes : list nat) : string := foldl (λ s b, s +:+ hex_byte b) "" bytes.

Definition create_token (job : Uuid) (bytes : list nat) (s : TokenStore) : TokenStore * string :=
  let token := generate_token bytes in
  ({| tokens := <[job := token]> (tokens s); credential_grants := credential_grants s |}, token).

Definition validate (s : TokenStore) (job : Uuid) (token : string) : bool :=
  match tokens s !! job with
  | Some stored => bool_decide (stored = token)
  | None => false
  end.

Definition revoke (job : Uuid) (s : TokenStore) : TokenStore := {|
  tokens := delete job (tokens s); credential_grants := delete job (credential_grants s) |}.

Definition active_tokens (s : TokenStore) : nat := size (tokens s).

Definition store_grants (job : Uuid) (grants : list CredentialGrant) (s : TokenStore) : TokenStore :=
  match grants with
  | [] => s
  | _ => {| tokens := tokens s; credential_grants := <[job := grants]> (credential_grants s) |}
  end.

Definition get_grants (s : TokenStore) (job : Uuid) : option (list CredentialGrant) := credential_grants s !! job.

(** ** Handles *)

Inductive JobMode := ModeWorker | ModeClaudeCode.

#[export] Instance job_mode_eq_dec : EqDecision JobMode.
Proof. solve_decision. Defined.

Definition mode_as_str (m : JobMode) : string :=
  match m with ModeWorker => "worker" | ModeClaudeCode => "claude_code" end.

Record ContainerJobConfig := {
  cj_image : string;
  cj_memory_limit_mb : Z;
  cj_cpu_shares : Z;
  cj_orchestrator_port : Z;
  cj_claude_code_api_key : option string;
  cj_claude_code_oauth_token : option string;
  cj_claude_code_model : string;
  cj_claude_code_max_turns : Z;
  cj_claude_code_memory_limit_mb : Z;
  cj_claude_code_allowed_tools : list string;
}.

Inductive ContainerState := CsCreating | CsRunning | CsStopped | CsFailed.

#[export] Instance container_state_eq_dec : EqDecision ContainerState.
Proof. solve_decision. Defined.

Definition container_state_display (s : ContainerState) : string :=
  match s with
  | CsCreating => "creating" | CsRunning => "running" | CsStopped => "stopped" | CsFailed => "failed"
  end.

Record CompletionResult := { cr_success : bool; cr_message : option string }.

Record ContainerHandle := {
  ch_job_id : Uuid;
  ch_container_id : option string;
  ch_state : ContainerState;
  ch_mode : JobMode;
  ch_created_at : Utc;
  ch_project_dir : option Path;
  ch_task_description : string;
  ch_last_worker_status : option string;
  ch_worker_iteration : Z;
  ch_completion_result : option CompletionResult;
}.

Definition with_state (v : ContainerState) (h : ContainerHandle) : ContainerHandle := {|
  ch_job_id := ch_job_id h; ch_container_id := ch_container_id h; ch_state := v; ch_mode := ch_mode h;
  ch_created_at := ch_created_at h; ch_project_dir := ch_project_dir h;
  ch_task_description := ch_task_description h; ch_last_worker_status := ch_last_worker_status h;
  ch_worker_iteration := ch_worker_iteration h; ch_completion_result := ch_completion_result h |}.
Definition with_container (c : string) (h : ContainerHandle) : ContainerHandle := {|
  ch_job_id := ch_job_id h; ch_container_id := Some c; ch_state := CsRunning; ch_mode := ch_mode h;
  ch_created_at := ch_created_at h; ch_project_dir := ch_project_dir h;
  ch_task_description := ch_task_description h; ch_last_worker_status := ch_last_worker_status h;
  ch_worker_iteration := ch_worker_iteration h; ch_completion_result := ch_completion_result h |}.
Definition with_completion (r : CompletionResult) (h : ContainerHandle) : ContainerHandle := {|
  ch_job_id := ch_job_id h; ch_container_id := ch_container_id h; ch_state := CsStopped; ch_mode := ch_mode h;
  ch_created_at := ch_created_at h; ch_project_dir := ch_project_dir h;
  ch_task_description := ch_task_description h; ch_last_worker_status := ch_last_worker_status h;
  ch_worker_iteration := ch_worker_iteration h; ch_completion_result := Some r |}.
Definition with_worker_status (m : option string) (i : Z) (h : ContainerHandle) : ContainerHandle := {|
  ch_job_id := ch_job_id h; ch_container_id := ch_container_id h; ch_state := ch_state h; ch_mode := ch_mode h;
  ch_created_at := ch_created_at h; ch_project_dir := ch_project_dir h;
  ch_task_description := ch_task_description h; ch_last_worker_status := m;
  ch_worker_iteration := i; ch_completion_result := ch_completion_result h |}.

Definition handle_new (job : Uuid) (mode : JobMode) (now : Utc) (dir : option Path) (task : string) :
    ContainerHandle := {|
  ch_job_id := job; ch_container_id := None; ch_state := CsCreating; ch_mode := mode; ch_created_at := now;
  ch_project_dir := dir; ch_task_description := task; ch_last_worker_status := None; ch_worker_iteration := 0;
  ch_completion_result := None |}.

Abbreviation JobRegistry := (gmap Uuid ContainerHandle).

Definition registry_insert (h : ContainerHandle) (r : JobRegistry) : JobRegistry := <[ch_job_id h := h]> r.
Definition registry_update_status (job : Uuid) (message : option string) (iteration : Z) (r : JobRegistry) :
    JobRegistry := alter (with_worker_status message iteration) job r.
Definition set_completion (job : Uuid) (res : CompletionResult) (r : JobRegistry) : JobRegistry :=
  alter (with_completion res) job r.
Definition set_container_id (job : Uuid) (c : string) (r : JobRegistry) : JobRegistry :=
  alter (with_container c) job r.
Definition registry_set_state (job : Uuid) (st : ContainerState) (r : JobRegistry) : JobRegistry :=
  alter (with_state st) job r.
Definition container_id (r : JobRegistry) (job : Uuid) : option string := r !! job ≫= ch_container_id.

(** ** Errors *)

Inductive OrchestratorError :=
| OeContainerCreationFailed (job : Uuid) (reason : string)
| OeContainerNotFound (job : Uuid)
| OeInvalidContainerState (job : Uuid) (state : string)
| OeApiError (reason : string)
| OeDocker (reason : string).

Definition orchestrator_error_display {T : UuidText} (e : OrchestratorError) : string :=
  match e with
  | OeContainerCreationFailed job reason =>
      "Container creation failed for job " +:+ uuid_to_string job +:+ ": " +:+ reason
  | OeContainerNotFound job => "Container not found for job " +:+ uuid_to_string job
  | OeInvalidContainerState job state =>
      "Container for job " +:+ uuid_to_string job +:+ " is in unexpected state: " +:+ state
  | OeApiError reason => "Internal API error: " +:+ reason
  | OeDocker reason => "Docker error: " +:+ reason
  end.

(** ** Container configuration *)

Definition append_claude_code_env (config : ContainerJobConfig) (env : list string) : list string :=
  let env :=
    match cj_claude_code_api_key config, cj_claude_code_oauth_token config with
    | Some api_key, _ => env ++ ["ANTHROPIC_API_KEY=" +:+ api_key]
    | None, Some oauth_token => env ++ ["CLAUDE_CODE_OAUTH_TOKEN=" +:+ oauth_token]
    | None, None => env
    end in
  match cj_claude_code_allowed_tools config with
  | [] => env
  | tools => env ++ ["CLAUDE_CODE_ALLOWED_TOOLS=" +:+ join "," tools]
  end.

(** The fields of bollard's [HostConfig] that are set. *)
Record JobHostConfig := {
  jh_binds : option (list string);
  jh_memory : Z;
  jh_cpu_shares : Z;
  jh_network_mode : string;
  jh_extra_hosts : list string;
  jh_cap_drop : list string;
  jh_cap_add : list string;
  jh_security_opt : list string;
  jh_tmpfs : list (string * string);
}.

Definition job_memory_bytes (memory_mb : Z) : Z :=
  let bytes := sat_u64 (sat_u64 (memory_mb * 1024) * 1024) in
  if (i64_max <? bytes)%Z then i64_max else bytes.

Definition build_host_config (binds : list string) (memory_mb cpu_shares : Z) : JobHostConfig := {|
  jh_binds := match binds with [] => None | _ => Some binds end;
  jh_memory := job_memory_bytes memory_mb; jh_cpu_shares := cpu_shares; jh_network_mode := "bridge";
  jh_extra_hosts := ["host.docker.internal:host-gateway"]; jh_cap_drop := ["ALL"]; jh_cap_add := ["CHOWN"];
  jh_security_opt := ["no-new-privileges:true"]; jh_tmpfs := [("/tmp", "size=512M")] |}.

Record JobContainer := {
  jc_name : string;
  jc_image : string;
  jc_cmd : list string;
  jc_env : list string;
  jc_host_config : JobHostConfig;
  jc_user : string;
  jc_working_dir : string;
  jc_labels : gmap string string;
}.

(** [DateTime::to_rfc3339], [parse_from_rfc3339] in UTC and [from_timestamp]. *)
Class UtcText := {
  to_rfc3339 : Utc → string;
  parse_from_rfc3339 : string → option Utc;
  from_timestamp : Z → option Utc;
  parse_to_rfc3339 : ∀ t, parse_from_rfc3339 (to_rfc3339 t) = Some t;
}.

Section Config.
Context {T : UuidText} {D : UtcText}.

Definition build_cmd (mode : JobMode) (job : Uuid) (url : string) (config : ContainerJobConfig) : list string :=
  match mode with
  | ModeWorker => ["worker"; "--job-id"; uuid_to_string job; "--orchestrator-url"; url]
  | ModeClaudeCode =>
      ["claude-bridge"; "--job-id"; uuid_to_string job; "--orchestrator-url"; url; "--max-turns";
       pretty (cj_claude_code_max_turns config); "--model"; cj_claude_code_model config]
  end.

Definition container_name (mode : JobMode) (job : Uuid) : string :=
  match mode with
  | ModeWorker => "axinite-worker-" +:+ uuid_to_string job
  | ModeClaudeCode => "axinite-claude-" +:+ uuid_to_string job
  end.

Definition job_labels (job : Uuid) (now : Utc) : gmap string string :=
  <["axinite.created_at" := to_rfc3339 now]> (<["axinite.job_id" := uuid_to_string job]> ∅).

Definition build_container_config (image : string) (cmd env : list string) (host : JobHostConfig) (job : Uuid)
    (mode : JobMode) (now : Utc) : JobContainer := {|
  jc_name := container_name mode job; jc_image := image; jc_cmd := cmd; jc_env := env; jc_host_config := host;
  jc_user := "1000:1000"; jc_working_dir := "/workspace"; jc_labels := job_labels job now |}.
End Config.

(** ** Calls to the daemon and the file system *)

Inductive HostCall :=
| HcConnect
| HcCreate (c : JobContainer) (reply : result string string)
| HcStart (id : string) (reply : result unit string)
| HcStop (id : string) (t : Z)
| HcRemove (id : string) (reply : result unit string)
| HcList
| HcCanonicalize (p : Path)
| HcCreateDir (p : Path).

(** A container as the daemon lists it. *)
Record ContainerSummary := {
  sum_id : option string;
  sum_labels : option (gmap string string);
  sum_created : option Z;
}.

Record Host (Conn : Type) := {
  (** [connect_docker], which [Sandbox] models *)
  on_docker_connect : list HostCall → result Conn SandboxError;
  on_container_create : list HostCall → JobContainer → result string string;
  on_container_start : list HostCall → string → result unit string;
  on_container_stop : list HostCall → string → result unit string;
  on_container_remove : list HostCall → string → result unit string;
  (** the containers with a label *)
  on_container_list : list HostCall → string → result (list ContainerSummary) string;
  on_canonicalize : list HostCall → Path → result Path string;
  on_create_dir_all : list HostCall → Path → result unit string;
}.
Arguments on_docker_connect {Conn} h log.
Arguments on_container_create {Conn} h log c.
Arguments on_container_start {Conn} h log id.
Arguments on_container_stop {Conn} h log id.
Arguments on_container_remove {Conn} h log id.
Arguments on_container_list {Conn} h log label.
Arguments on_canonicalize {Conn} h log p.
Arguments on_create_dir_all {Conn} h log p.

(** The manager: the token store and the registry it shares with the API, the cached
    connection, and the calls made so far. *)
Record Orch (Conn : Type) := {
  or_tokens : TokenStore;
  or_registry : JobRegistry;
  or_docker : option Conn;
  or_calls : list HostCall;
}.
Arguments or_tokens {Conn} o.
Arguments or_registry {Conn} o.
Arguments or_docker {Conn} o.
Arguments or_calls {Conn} o.

Definition orch_new {Conn} : Orch Conn := {|
  or_tokens := token_store_new; or_registry := ∅; or_docker := None; or_calls := [] |}.

Section Manager.
Context {T : UuidText} {D : UtcText} {Conn : Type}.
Variable h : Host Conn.
Variable config : ContainerJobConfig.
(** [axinite_base_dir()] *)
Variable base_dir : Path.

Abbreviation O := (Orch Conn).

(** A computation on the manager. *)
Definition OM (A : Type) : Type := O → O * A.
#[local] Instance OM_ret : MRet OM := λ A a s, (s, a).
#[local] Instance OM_bind : MBind OM := λ A B k m s, let '(s, a) := m s in k a s.

Definition OM_try {A B} (m : OM (result A OrchestratorError)) (k : A → OM (result B OrchestratorError)) :
    OM (result B OrchestratorError) :=
  m ≫= λ r, match r with Ok a => k a | Err e => mret (Err e) end.
Notation "'let?' x := m 'in' k" := (OM_try m (λ x, k)) (at level 10, x binder, m at level 100, k at level 200).

Definition host_call {A} (reply : list HostCall → A) (entry : A → HostCall) : OM A := λ s,
  let r := reply (or_calls s) in
  ({| or_tokens := or_tokens s; or_registry := or_registry s; or_docker := or_docker s;
      or_calls := or_calls s ++ [entry r] |}, r).

Definition on_tokens (f : TokenStore → TokenStore) : OM unit := λ s,
  ({| or_tokens := f (or_tokens s); or_registry := or_registry s; or_docker := or_docker s;
      or_calls := or_calls s |}, ()).
Definition on_registry (f : JobRegistry → JobRegistry) : OM unit := λ s,
  ({| or_tokens := or_tokens s; or_registry := f (or_registry s); or_docker := or_docker s;
      or_calls := or_calls s |}, ()).
Definition cache_docker (c : Conn) : OM unit := λ s,
  ({| or_tokens := or_tokens s; or_registry := or_registry s; or_docker := Some c; or_calls := or_calls s |}, ()).
Definition gets {A} (f : O → A) : OM A := λ s, (s, f s).

Definition stop_container (id : string) (t : Z) : OM (result unit string) :=
  host_call (λ log, on_container_stop h log id) (λ _, HcStop id t).
Definition remove_container (id : string) : OM (result unit string) :=
  host_call (λ log, on_container_remove h log id) (HcRemove id).

(** [ContainerJobManager::docker] *)
Definition get_docker : OM (result Conn OrchestratorError) :=
  gets or_docker ≫= λ cached,
  match cached with
  | Some c => mret (Ok c)
  | None =>
      host_call (on_docker_connect h) (λ _, HcConnect) ≫= λ r,
      match r with
      | Err e => mret (Err (OeDocker (sandbox_error_display e)))
      | Ok c => cache_docker c ≫= λ _, mret (Ok c)
      end
  end.

(** ** Bind mounts *)

Definition validate_bind_mount_path_against_base (dir projects_base : Path) (job : Uuid) :
    OM (result Path OrchestratorError) :=
  host_call (λ log, on_canonicalize h log dir) (λ _, HcCanonicalize dir) ≫= λ r,
  match r with
  | Err e => mret (Err (OeContainerCreationFailed job
      ("failed to canonicalize project dir " +:+ path_text dir +:+ ": " +:+ e)))
  | Ok canonical =>
      if negb (is_absolute projects_base) then
        mret (Err (OeContainerCreationFailed job
          "base directory is not absolute; cannot safely validate bind mounts"))
      else
        host_call (λ log, on_create_dir_all h log projects_base) (λ _, HcCreateDir projects_base) ≫= λ r,
        match r with
        | Err e => mret (Err (OeContainerCreationFailed job
            ("failed to create projects base " +:+ path_text projects_base +:+ ": " +:+ e)))
        | Ok _ =>
            host_call (λ log, on_canonicalize h log projects_base) (λ _, HcCanonicalize projects_base) ≫= λ r,
            match r with
            | Err e => mret (Err (OeContainerCreationFailed job
                ("failed to canonicalize projects base " +:+ path_text projects_base +:+ ": " +:+ e)))
            | Ok canonical_base =>
                if bool_decide (canonical_base `prefix_of` canonical) then mret (Ok canonical)
                else mret (Err (OeContainerCreationFailed job
                       ("project directory " +:+ path_text canonical +:+ " is outside allowed base "
                        +:+ path_text canonical_base)))
            end
        end
  end.

Definition validate_bind_mount_path (dir : Path) (job : Uuid) : OM (result Path OrchestratorError) :=
  validate_bind_mount_path_against_base dir (path_join base_dir (path_from "projects")) job.

Definition build_workspace_binds (dir : option Path) (job : Uuid) (env : list string) :
    OM (result (list string * list string) OrchestratorError) :=
  match dir with
  | None => mret (Ok ([], env))
  | Some dir =>
      let? canonical := validate_bind_mount_path dir job in
      mret (Ok ([path_text canonical +:+ ":/workspace:rw"], env ++ ["AXINITE_WORKSPACE=/workspace"]))
  end.

(** ** Creation *)

Definition create_and_start_container (c : JobContainer) (job : Uuid) : OM (result string OrchestratorError) :=
  host_call (λ log, on_container_create h log c) (HcCreate c) ≫= λ r,
  match r with
  | Err e => mret (Err (OeContainerCreationFailed job e))
  | Ok id =>
      host_call (λ log, on_container_start h log id) (HcStart id) ≫= λ r,
      match r with
      | Ok _ => mret (Ok id)
      | Err e =>
          remove_container id ≫= λ _,
          mret (Err (OeContainerCreationFailed job ("failed to start container: " +:+ e)))
      end
  end.

Record CreateJobParams := {
  cjp_job_id : Uuid;
  cjp_token : string;
  cjp_project_dir : option Path;
  cjp_mode : JobMode;
}.

Definition orchestrator_url : string := "http://host.docker.internal:" +:+ pretty (cj_orchestrator_port config).

Definition worker_env (job : Uuid) (token : string) : list string :=
  ["AXINITE_WORKER_TOKEN=" +:+ token; "AXINITE_JOB_ID=" +:+ uuid_to_string job;
   "AXINITE_ORCHESTRATOR_URL=" +:+ orchestrator_url].

(** The container of a job; [now] is the time of the label. *)
Definition job_container (p : CreateJobParams) (binds env : list string) (now : Utc) : JobContainer :=
  let env := if bool_decide (cjp_mode p = ModeClaudeCode) then append_claude_code_env config env else env in
  let memory_mb := match cjp_mode p with
    | ModeClaudeCode => cj_claude_code_memory_limit_mb config
    | ModeWorker => cj_memory_limit_mb config
    end in
  build_container_config (cj_image config) (build_cmd (cjp_mode p) (cjp_job_id p) orchestrator_url config) env
    (build_host_config binds memory_mb (cj_cpu_shares config)) (cjp_job_id p) (cjp_mode p) now.

Definition create_job_inner (p : CreateJobParams) (now : Utc) : OM (result unit OrchestratorError) :=
  let? _ := get_docker in
  let? '(binds, env) := build_workspace_binds (cjp_project_dir p) (cjp_job_id p)
    (worker_env (cjp_job_id p) (cjp_token p)) in
  let? id := create_and_start_container (job_container p binds env now) (cjp_job_id p) in
  on_registry (set_container_id (cjp_job_id p) id) ≫= λ _, mret (Ok ()).

(** The part of [create_job] before the first call to the daemon. *)
Definition create_job_begin (job : Uuid) (bytes : list nat) (now : Utc) (task : string) (dir : option Path)
    (mode : JobMode) (grants : list CredentialGrant) : OM CreateJobParams := λ s,
  let '(ts, token) := create_token job bytes (or_tokens s) in
  (on_tokens (λ _, store_grants job grants ts) ≫= λ _,
   on_registry (registry_insert (handle_new job mode now dir task)) ≫= λ _,
   mret {| cjp_job_id := job; cjp_token := token; cjp_project_dir := dir; cjp_mode := mode |}) s.

Definition create_job_end (p : CreateJobParams) (now : Utc) : OM (result string OrchestratorError) :=
  create_job_inner p now ≫= λ r,
  match r with
  | Ok _ => mret (Ok (cjp_token p))
  | Err e =>
      on_tokens (revoke (cjp_job_id p)) ≫= λ _,
      on_registry (delete (cjp_job_id p)) ≫= λ _,
      mret (Err e)
  end.

Definition create_container_job (job : Uuid) (bytes : list nat) (now now' : Utc) (task : string)
    (dir : option Path) (mode : JobMode) (grants : list CredentialGrant) : OM (result string OrchestratorError) :=
  create_job_begin job bytes now task dir mode grants ≫= λ p, create_job_end p now'.

(** ** The other operations *)

Definition cleanup_container_job (job : Uuid) : OM unit := on_registry (delete job).
Definition update_worker_status (job : Uuid) (message : option string) (iteration : Z) : OM unit :=
  on_registry (registry_update_status job message iteration).
Definition get_handle (job : Uuid) : OM (option ContainerHandle) := gets (λ s, or_registry s !! job).
Definition list_container_jobs : OM (list ContainerHandle) := gets (λ s, (map_to_list (or_registry s)).*2).

Definition stop_container_job (job : Uuid) : OM (result unit OrchestratorError) :=
  gets (λ s, container_id (or_registry s) job) ≫= λ c,
  match c with
  | None => mret (Err (OeContainerNotFound job))
  | Some c =>
      let? _ := get_docker in
      stop_container c 10 ≫= λ _,
      remove_container c ≫= λ _,
      on_registry (registry_set_state job CsStopped) ≫= λ _,
      on_tokens (revoke job) ≫= λ _,
      mret (Ok ())
  end.

Definition complete_container_job (job : Uuid) (res : CompletionResult) : OM (result unit OrchestratorError) :=
  on_registry (set_completion job res) ≫= λ _,
  gets (λ s, container_id (or_registry s) job) ≫= λ c,
  match c with
  | None => mret ()
  | Some c =>
      get_docker ≫= λ d,
      match d with
      | Ok _ => stop_container c 5 ≫= λ _, remove_container c ≫= λ _, mret ()
      | Err _ => mret ()
      end
  end ≫= λ _,
  on_tokens (revoke job) ≫= λ _,
  mret (Ok ()).
End Manager.

(** ** The reaper *)

Record ReaperConfig := {
  rp_scan_interval : Duration;
  rp_orphan_threshold : Duration;
  rp_container_label : string;
}.

Definition reaper_config_default : ReaperConfig := {|
  rp_scan_interval := secs 300; rp_orphan_threshold := secs 600; rp_container_label := "axinite.job_id" |}.

Record ReaperContainer := { rc_id : string; rc_job_id : Uuid; rc_created_at : Utc }.

(** [chrono::Duration::from_std] fails above [i64::MAX] milliseconds. *)
Definition orphan_threshold_duration (config : ReaperConfig) : Duration :=
  if (rp_orphan_threshold config <=? millis i64_max)%Z then rp_orphan_threshold config else secs (10 * 60).

Definition is_past_orphan_threshold (created_at : Utc) (config : ReaperConfig) (now : Utc) : bool :=
  (orphan_threshold_duration config <=? now - created_at)%Z.

Section Labels.
Context {T : UuidText} {D : UtcText}.

Definition parse_job_id_label (labels : gmap string string) (label : string) : option Uuid :=
  labels !! label ≫= uuid_parse_str.

Definition parse_created_at_label (labels : gmap string string) (created : option Z) : option Utc :=
  match labels !! "axinite.created_at" ≫= parse_from_rfc3339 with
  | Some t => Some t
  | None => created ≫= from_timestamp
  end.

Definition reaper_container (label : string) (s : ContainerSummary) : option ReaperContainer :=
  match sum_id s with
  | None => None
  | Some id =>
      let labels := default ∅ (sum_labels s) in
      match parse_job_id_label labels label with
      | None => None
      | Some job =>
          match parse_created_at_label labels (sum_created s) with
          | None => None
          | Some t => Some {| rc_id := id; rc_job_id := job; rc_created_at := t |}
          end
      end
  end.
End Labels.

Section Reaper.
Context {J : SerdeJson} {K : RustDecimal} {T : UuidText} {D : UtcText} {Conn : Type}.
Variable h : Host Conn.
(** The jobs of the agent when so many calls have been made. *)
Variable cm : list HostCall → ContextManager.
Variable rconfig : ReaperConfig.

#[local] Existing Instances OM_ret OM_bind.
Abbreviation OM := (OM (Conn := Conn)).

Definition list_docker_containers (label : string) : OM (result (list ReaperContainer) SandboxError) :=
  host_call (λ log, on_container_list h log label) (λ _, HcList) ≫= λ r,
  match r with
  | Err e => mret (Err (DockerNotAvailable e))
  | Ok summaries => mret (Ok (omap (reaper_container label) summaries))
  end.

Definition reap_with_docker (container : string) (job : Uuid) : OM unit :=
  stop_container_job h job ≫= λ r,
  match r with
  | Ok _ => mret ()
  | Err _ =>
      stop_container h container 10 ≫= λ _,
      remove_container h container ≫= λ r,
      match r with
      | Err _ => mret ()
      | Ok _ =>
          on_registry (registry_set_state job CsStopped) ≫= λ _,
          on_tokens (revoke job)
      end
  end.

Definition job_is_active (m : ContextManager) (job : Uuid) : bool :=
  match get_context m job with
  | Ok ctx => is_active (state ctx)
  | Err _ => false
  end.

(** What the scan does with one container. *)
Definition reap_one (now : Utc) (c : ReaperContainer) : OM unit :=
  if negb (is_past_orphan_threshold (rc_created_at c) rconfig now) then mret ()
  else
    gets (λ s, job_is_active (cm (or_calls s)) (rc_job_id c)) ≫= λ active,
    if (active : bool) then mret () else reap_with_docker (rc_id c) (rc_job_id c).

Fixpoint reap_all (now : Utc) (cs : list ReaperContainer) : OM unit :=
  match cs with
  | [] => mret ()
  | c :: cs => reap_one now c ≫= λ _, reap_all now cs
  end.

Definition scan_and_reap (now : Utc) : OM unit :=
  list_docker_containers (rp_container_label rconfig) ≫= λ r,
  match r with
  | Err _ => mret ()
  | Ok containers => reap_all now containers
  end.
End Reaper.

(** ** Tokens as text *)

Fixpoint decode_hex (s : string) : option (list nat) :=
  match s with
  | EmptyString => Some []
  | String a (String b s) =>
      let value c := let n := Ascii.nat_of_ascii c in if n <? 58 then n - 48 else n - 87 in
      (cons (16 * value a + value b)) <$> decode_hex s
  | _ => None
  end.

Lemma hex_digit_value n : n < 16 →
  (let c := Ascii.nat_of_ascii (hex_digit n) in if c <? 58 then c - 48 else c - 87) = n.
Proof. intros H. do 16 (destruct n as [|n]; [reflexivity|]). lia. Qed.

Lemma decode_hex_byte b s : b < 256 → decode_hex (hex_byte b +:+ s) = cons b <$> decode_hex s.
Proof.
  intros H. unfold hex_byte. rewrite !str_app_cons, str_app_nil. cbn [decode_hex].
  rewrite !hex_digit_value.
  - f_equal. f_equal. pose proof (Nat.div_mod_eq b 16). lia.
  - apply Nat.mod_upper_bound. lia.
  - apply Nat.Div0.div_lt_upper_bound. lia.
Qed.

Lemma generate_token_app acc bytes :
  foldl (λ s b, s +:+ hex_byte b) acc bytes = acc +:+ foldr (λ b s, hex_byte b +:+ s) "" bytes.
Proof.
  revert acc. induction bytes as [|b bytes IH]; intros acc; simpl; [by rewrite str_app_nil_r|].
  by rewrite IH, str_app_assoc.
Qed.

(** A token is the hexadecimal text of its random bytes: two characters for each byte, and
    the bytes can be read back, so different bytes give different tokens. *)
Theorem token_text (bytes : list nat) (Hbytes : Forall (λ b, b < 256) bytes) :
  String.length (generate_token bytes) = 2 * length bytes ∧ decode_hex (generate_token bytes) = Some bytes.
Proof.
  unfold generate_token. rewrite generate_token_app, str_app_nil.
  induction Hbytes as [|b bytes Hb _ [IHl IHd]]; [done|]. cbn [foldr length]. split.
  - rewrite str_length_app, IHl. simpl. lia.
  - by rewrite decode_hex_byte, IHd.
Qed.

Lemma token_text_witness :
  String.length (generate_token [0; 15; 16; 255]) = 8 ∧ generate_token [0; 15; 16; 255] = "000f10ff".
Proof. split; [apply (token_text [0; 15; 16; 255]); repeat constructor; lia|reflexivity]. Defined.

(** ** Memory *)

(** The memory limit of a container is the configured number of mebibytes, and stays
    within what the daemon's signed field can hold. *)
Lemma job_memory_bytes_spec mb : (0 <= mb <= u64_max)%Z →
  (0 <= job_memory_bytes mb <= i64_max)%Z ∧
  ((mb * 1048576 <= i64_max)%Z → job_memory_bytes mb = (mb * 1048576)%Z) ∧
  ((i64_max < mb * 1048576)%Z → job_memory_bytes mb = i64_max).
Proof.
  unfold job_memory_bytes, sat_u64, u64_max, i64_max. intros H. cbv zeta.
  match goal with |- context [(?a <? ?b)%Z] => destruct (Z.ltb_spec a b) end; lia.
Qed.

(** ** What calls leave alone *)

Create HintDb orch.

Section Frames.
Context {T : UuidText} {D : UtcText} {Conn : Type}.
Variable h : Host Conn.
Variable config : ContainerJobConfig.
Variable base_dir : Path.

#[local] Existing Instances OM_ret OM_bind.

(** A computation that only talks to the host. *)
Definition calls_only {A} (m : OM (Conn := Conn) A) : Prop := ∀ s,
  or_tokens (m s).1 = or_tokens s ∧ or_registry (m s).1 = or_registry s ∧
  or_calls s `prefix_of` or_calls (m s).1.

Lemma calls_only_ret {A} (a : A) : calls_only (mret a).
Proof. intros s. by split_and!. Qed.

Lemma calls_only_bind {A B} (m : OM A) (k : A → OM B) :
  calls_only m → (∀ a, calls_only (k a)) → calls_only (m ≫= k).
Proof.
  intros Hm Hk s. unfold mbind, OM_bind. specialize (Hm s). destruct (m s) as [s1 a]. simpl in Hm.
  destruct (Hk a s1) as (Ht & Hr & Hc), Hm as (Ht' & Hr' & Hc').
  split_and!; [congruence|congruence|by etrans].
Qed.

Lemma calls_only_try {A B} (m : OM (result A OrchestratorError)) (k : A → OM (result B OrchestratorError)) :
  calls_only m → (∀ a, calls_only (k a)) → calls_only (OM_try m k).
Proof.
  intros Hm Hk. apply calls_only_bind; [done|]. intros [a|e]; [apply Hk|apply calls_only_ret].
Qed.

Lemma calls_only_host {A} (reply : list HostCall → A) entry : calls_only (host_call reply entry).
Proof. intros s. split_and!; [done..|]. by eexists. Qed.

Lemma calls_only_gets {A} (f : Orch Conn → A) : calls_only (gets f).
Proof. intros s. by split_and!. Qed.

Lemma calls_only_cache c : calls_only (cache_docker c).
Proof. intros s. by split_and!. Qed.
End Frames.

#[export] Hint Resolve calls_only_ret calls_only_bind calls_only_try calls_only_host calls_only_gets
  calls_only_cache : orch.

(** Splits a computation into its calls. *)
Ltac calls_tac :=
  repeat first
    [ apply calls_only_host | apply calls_only_gets | apply calls_only_cache | apply calls_only_ret
    | apply calls_only_try | apply calls_only_bind
    | progress intros | case_match; try done | progress case_match ].

Section Frames2.
Context {T : UuidText} {D : UtcText} {Conn : Type}.
Variable h : Host Conn.
Variable config : ContainerJobConfig.
Variable base_dir : Path.

Lemma get_docker_calls : calls_only (get_docker h).
Proof. unfold get_docker. calls_tac. Qed.

Lemma stop_container_calls id t : calls_only (stop_container h id t).
Proof. apply calls_only_host. Qed.

Lemma remove_container_calls id : calls_only (remove_container h id).
Proof. apply calls_only_host. Qed.

Lemma build_workspace_binds_calls dir job env : calls_only (build_workspace_binds h base_dir dir job env).
Proof.
  unfold build_workspace_binds, validate_bind_mount_path, validate_bind_mount_path_against_base. calls_tac.
Qed.

Lemma create_and_start_calls c job : calls_only (create_and_start_container h c job).
Proof. unfold create_and_start_container, remove_container. calls_tac. Qed.
End Frames2.

#[export] Hint Resolve get_docker_calls stop_container_calls remove_container_calls build_workspace_binds_calls
  create_and_start_calls : orch.

(** ** What each operation does to tokens and handles *)

Section Effects.
Context {T : UuidText} {D : UtcText} {Conn : Type}.
Variable h : Host Conn.
Variable config : ContainerJobConfig.
Variable base_dir : Path.

#[local] Existing Instances OM_ret OM_bind.

Lemma try_run {A B} (m : OM (Conn := Conn) (result A OrchestratorError)) k s (s' : Orch Conn) (r : result B _) :
  OM_try m k s = (s', r) →
  ∃ s1 x, m s = (s1, x) ∧ match x with Ok a => k a s1 = (s', r) | Err e => s' = s1 ∧ r = Err e end.
Proof.
  unfold OM_try, mbind, OM_bind. destruct (m s) as [s1 x] eqn:E. intros H. exists s1, x. split; [done|].
  destruct x; [done|]. unfold mret, OM_ret in H. by simplify_eq.
Qed.

Lemma calls_only_run {A} (m : OM (Conn := Conn) A) s s' a :
  calls_only m → m s = (s', a) →
  or_tokens s' = or_tokens s ∧ or_registry s' = or_registry s ∧ or_calls s `prefix_of` or_calls s'.
Proof. intros H E. specialize (H s). by rewrite E in H. Qed.

Lemma inner_effect p now s s' r :
  create_job_inner h config base_dir p now s = (s', r) →
  or_tokens s' = or_tokens s ∧
  match r with
  | Ok _ => ∃ id, or_registry s' = set_container_id (cjp_job_id p) id (or_registry s)
  | Err _ => or_registry s' = or_registry s
  end.
Proof.
  unfold create_job_inner. intros (s1 & d & E1 & H)%try_run.
  apply calls_only_run in E1 as (Ht1 & Hr1 & _); [|auto with orch].
  destruct d as [d|e]; [|destruct H as [-> ->]; by rewrite Ht1, Hr1].
  apply try_run in H as (s2 & b & E2 & H).
  apply calls_only_run in E2 as (Ht2 & Hr2 & _); [|auto with orch].
  destruct b as [[b env]|e]; [|destruct H as [-> ->]; split; congruence].
  apply try_run in H as (s3 & c & E3 & H).
  apply calls_only_run in E3 as (Ht3 & Hr3 & _); [|auto with orch].
  destruct c as [c|e]; [|destruct H as [-> ->]; split; congruence].
  unfold mbind, OM_bind, mret, OM_ret in H. simplify_eq/=. split; [congruence|]. exists c. congruence.
Qed.

Lemma end_effect p now s s' r :
  create_job_end h config base_dir p now s = (s', r) →
  match r with
  | Ok t => t = cjp_token p ∧ or_tokens s' = or_tokens s ∧
            ∃ id, or_registry s' = set_container_id (cjp_job_id p) id (or_registry s)
  | Err _ => or_tokens s' = revoke (cjp_job_id p) (or_tokens s) ∧
             or_registry s' = delete (cjp_job_id p) (or_registry s)
  end.
Proof.
  unfold create_job_end, mbind, OM_bind, mret, OM_ret.
  destruct (create_job_inner h config base_dir p now s) as [s1 x] eqn:E. apply inner_effect in E as [Ht Hr].
  intros H. destruct x as [[]|e]; simplify_eq/=; [by eauto|]. by rewrite Ht, Hr.
Qed.

Lemma stop_effect job s s' r :
  stop_container_job h job s = (s', r) →
  match r with
  | Ok _ => or_tokens s' = revoke job (or_tokens s) ∧
            or_registry s' = registry_set_state job CsStopped (or_registry s)
  | Err _ => or_tokens s' = or_tokens s ∧ or_registry s' = or_registry s
  end.
Proof.
  unfold stop_container_job. unfold mbind at 1, OM_bind at 1. cbn [gets].
  destruct (container_id (or_registry s) job) as [c|]; [|intros [= <- <-]; done].
  intros (s1 & d & E1 & H)%try_run.
  apply calls_only_run in E1 as (Ht1 & Hr1 & _); [|auto with orch].
  destruct d as [d|e]; [|by destruct H as [-> ->]].
  unfold mbind, OM_bind, mret, OM_ret in H. simplify_eq/=. by rewrite Ht1, Hr1.
Qed.

Lemma complete_effect job res s s' r :
  complete_container_job h job res s = (s', r) →
  r = Ok () ∧ or_tokens s' = revoke job (or_tokens s) ∧
  or_registry s' = set_completion job res (or_registry s).
Proof.
  unfold complete_container_job, mbind, OM_bind, mret, OM_ret. cbn [on_registry gets or_registry].
  destruct (container_id _ job) as [c|]; cbn -[get_docker stop_container remove_container];
    [|intros [= <- <-]; done].
  match goal with |- context [get_docker h ?s0] => destruct (get_docker h s0) as [s1 d] eqn:E end.
  apply calls_only_run in E as (Ht & Hr & _); [|auto with orch].
  destruct d; intros; simplify_eq/=; by rewrite ?Ht, ?Hr.
Qed.

Lemma reap_effect container job s :
  let s' := (reap_with_docker h container job s).1 in
  (or_tokens s' = or_tokens s ∧ or_registry s' = or_registry s) ∨
  (or_tokens s' = revoke job (or_tokens s) ∧ or_registry s' = registry_set_state job CsStopped (or_registry s)).
Proof.
  unfold reap_with_docker, mbind, OM_bind, mret, OM_ret.
  destruct (stop_container_job h job s) as [s1 r] eqn:E. apply stop_effect in E.
  destruct r; [by right|]. destruct E as [Ht Hr].
  destruct (stop_container h container 10 s1) as [s2 r2] eqn:E2.
  apply calls_only_run in E2 as (Ht2 & Hr2 & _); [|auto with orch].
  destruct (remove_container h container s2) as [s3 r3] eqn:E3.
  apply calls_only_run in E3 as (Ht3 & Hr3 & _); [|auto with orch].
  destruct r3; simpl; [right|left]; split; congruence.
Qed.
End Effects.

(** ** Interleavings

    The operations of the manager, as the tool that creates jobs, the workers' requests,
    the web interface and the reaper call them, in any order. *)

Inductive OrchOp :=
| OpBegin (job : Uuid) (bytes : list nat) (now : Utc) (task : string) (dir : option Path) (mode : JobMode)
    (grants : list CredentialGrant)
| OpEnd (p : CreateJobParams) (now : Utc)
| OpStop (job : Uuid)
| OpComplete (job : Uuid) (res : CompletionResult)
| OpStatus (job : Uuid) (message : option string) (iteration : Z)
| OpCleanup (job : Uuid)
| OpReap (container : string) (job : Uuid).

(** The job an operation is about. *)
Definition op_job (op : OrchOp) : Uuid :=
  match op with
  | OpBegin job _ _ _ _ _ _ | OpStop job | OpComplete job _ | OpStatus job _ _ | OpCleanup job
  | OpReap _ job => job
  | OpEnd p _ => cjp_job_id p
  end.

Definition is_begin (op : OrchOp) : bool := match op with OpBegin _ _ _ _ _ _ _ => true | _ => false end.

Section Runs.
Context {T : UuidText} {D : UtcText} {Conn : Type}.
Variable h : Host Conn.
Variable config : ContainerJobConfig.
Variable base_dir : Path.

Definition run_op (s : Orch Conn) (op : OrchOp) : Orch Conn :=
  match op with
  | OpBegin job bytes now task dir mode grants => (create_job_begin job bytes now task dir mode grants s).1
  | OpEnd p now => (create_job_end h config base_dir p now s).1
  | OpStop job => (stop_container_job h job s).1
  | OpComplete job res => (complete_container_job h job res s).1
  | OpStatus job message iteration => (update_worker_status job message iteration s).1
  | OpCleanup job => (cleanup_container_job job s).1
  | OpReap container job => (reap_with_docker h container job s).1
  end.

Definition run_ops : Orch Conn → list OrchOp → Orch Conn := foldl run_op.

(** The worker of a job has no way in. *)
Definition locked_out (ts : TokenStore) (job : Uuid) : Prop :=
  (∀ token, validate ts job token = false) ∧ get_grants ts job = None.

Lemma locked_out_iff ts job : locked_out ts job ↔ tokens ts !! job = None ∧ credential_grants ts !! job = None.
Proof.
  unfold locked_out, validate, get_grants. split.
  - intros [Ht Hg]. split; [|done]. destruct (tokens ts !! job) as [t|]; [|done].
    specialize (Ht t). by rewrite bool_decide_true in Ht.
  - by intros [-> ->].
Qed.

Lemma revoke_other job job' ts : job ≠ job' →
  tokens (revoke job ts) !! job' = tokens ts !! job' ∧
  credential_grants (revoke job ts) !! job' = credential_grants ts !! job'.
Proof. intros. simpl. by rewrite !lookup_delete_ne. Qed.

Lemma revoke_locked_out job ts : locked_out (revoke job ts) job.
Proof. apply locked_out_iff. simpl. by rewrite !lookup_delete_eq. Qed.

(** An operation other than a creation keeps the store or revokes the token of its job. *)
Lemma op_tokens s op : is_begin op = false →
  or_tokens (run_op s op) = or_tokens s ∨ or_tokens (run_op s op) = revoke (op_job op) (or_tokens s).
Proof.
  destruct op as [| p now|job|job res|job m i|job|c job]; intros Hop; [done|..]; cbn [run_op op_job].
  - destruct (create_job_end h config base_dir p now s) as [s' r] eqn:E. apply end_effect in E.
    destruct r; [left|right]; naive_solver.
  - destruct (stop_container_job h job s) as [s' r] eqn:E. apply stop_effect in E.
    destruct r; [right|left]; naive_solver.
  - destruct (complete_container_job h job res s) as [s' r] eqn:E. apply complete_effect in E. naive_solver.
  - by left.
  - by left.
  - destruct (reap_effect h c job s) as [[H _]|[H _]]; auto.
Qed.

Lemma begin_tokens s job bytes now task dir mode grants :
  or_tokens (run_op s (OpBegin job bytes now task dir mode grants)) =
  store_grants job grants (create_token job bytes (or_tokens s)).1.
Proof. done. Qed.

Lemma store_grants_tokens job grants ts : tokens (store_grants job grants ts) = tokens ts.
Proof. by destruct grants. Qed.

Lemma begin_other s job bytes now task dir mode grants job' : job ≠ job' →
  let ts := or_tokens (run_op s (OpBegin job bytes now task dir mode grants)) in
  tokens ts !! job' = tokens (or_tokens s) !! job' ∧
  credential_grants ts !! job' = credential_grants (or_tokens s) !! job'.
Proof.
  intros Hne. rewrite begin_tokens. cbv zeta. rewrite store_grants_tokens. simpl. rewrite lookup_insert_ne by done.
  split; [done|]. destruct grants; simpl; [done|]. by rewrite lookup_insert_ne.
Qed.

Lemma op_locked_out s op job :
  ¬ (is_begin op = true ∧ op_job op = job) → locked_out (or_tokens s) job → locked_out (or_tokens (run_op s op)) job.
Proof.
  intros Hop Hl. destruct (is_begin op) eqn:Eb.
  - destruct op as [job' bytes now task dir mode grants| | | | | |]; try done.
    rewrite !locked_out_iff in *. destruct (begin_other s job' bytes now task dir mode grants job) as [-> ->]; [|done].
    intros <-. by apply Hop.
  - destruct (op_tokens s op Eb) as [->| ->]; [done|]. destruct (decide (op_job op = job)) as [<-|Hne].
    + apply revoke_locked_out.
    + rewrite !locked_out_iff in *. by destruct (revoke_other (op_job op) job (or_tokens s)) as [-> ->].
Qed.

Lemma ops_locked_out s ops job :
  (∀ op, op ∈ ops → ¬ (is_begin op = true ∧ op_job op = job)) →
  locked_out (or_tokens s) job → locked_out (or_tokens (run_ops s ops)) job.
Proof.
  revert s. induction ops as [|op ops IH]; intros s Hops Hl; [done|].
  apply (IH (run_op s op)); [set_solver|]. apply op_locked_out; [set_solver|done].
Qed.

(** The end of a job: its worker reports completion, it is stopped, its creation fails, or its
    container is reaped and removed. *)
Definition job_ended (s : Orch Conn) (op : OrchOp) (job : Uuid) : Prop :=
  op_job op = job ∧
  match op with
  | OpComplete _ _ => True
  | OpStop _ => is_ok (stop_container_job h job s).2 = true
  | OpEnd p now => is_ok (create_job_end h config base_dir p now s).2 = false
  | OpReap c _ => last (or_calls (reap_with_docker h c job s).1) = Some (HcRemove c (Ok ()))
  | _ => False
  end.

Lemma reap_removed c job s :
  last (or_calls (reap_with_docker h c job s).1) = Some (HcRemove c (Ok ())) →
  locked_out (or_tokens (reap_with_docker h c job s).1) job.
Proof.
  unfold reap_with_docker, mbind, OM_bind, mret, OM_ret.
  destruct (stop_container_job h job s) as [s1 r] eqn:E. apply stop_effect in E.
  destruct r; [intros _; simpl; destruct E as [-> _]; apply revoke_locked_out|].
  cbn -[last]. destruct (on_container_remove h _ c) as [[]|e'] eqn:Er; cbn -[last].
  - intros _. apply revoke_locked_out.
  - by rewrite last_snoc.
Qed.

(** C28. When a job has ended, its worker has no way in: once the worker has reported completion, or the job was
    stopped, its creation failed or the reaper removed its container, whatever the manager does afterwards for this
    or other jobs, in any order, no token is accepted for the job and it has no credentials, unless a job is
    created under the same id again. *)
Theorem ended_job_locked_out (s : Orch Conn) (op : OrchOp) (ops : list OrchOp) (job : Uuid)
    (Hend : job_ended s op job) (Hops : ∀ o, o ∈ ops → ¬ (is_begin o = true ∧ op_job o = job)) :
  locked_out (or_tokens (run_ops s (op :: ops))) job.
Proof.
  apply (ops_locked_out (run_op s op)); [done|]. destruct Hend as [Hj Hend].
  destruct op as [| p now|j|j res|j m i|j|c j]; simpl in Hj; subst; try done; cbn [run_op].
  - destruct (create_job_end h config base_dir p now s) as [s' r] eqn:E. apply end_effect in E.
    destruct r; [done|]. destruct E as [Ht _]. simpl. rewrite Ht. apply revoke_locked_out.
  - destruct (stop_container_job h job s) as [s' r] eqn:E. apply stop_effect in E.
    destruct r; [|done]. destruct E as [Ht _]. simpl. rewrite Ht. apply revoke_locked_out.
  - destruct (complete_container_job h job res s) as [s' r] eqn:E. apply complete_effect in E as (_ & Ht & _).
    simpl. rewrite Ht. apply revoke_locked_out.
  - by apply reap_removed.
Qed.

(** Every way in was opened by a creation of the job among [ops]. *)
Definition granted_by (ops : list OrchOp) (ts : TokenStore) : Prop := ∀ job,
  (∀ token, tokens ts !! job = Some token → ∃ bytes now task dir mode grants,
     OpBegin job bytes now task dir mode grants ∈ ops ∧ token = generate_token bytes) ∧
  (∀ grants, credential_grants ts !! job = Some grants →
     is_Some (tokens ts !! job) ∧ grants ≠ [] ∧
     ∃ bytes now task dir mode, OpBegin job bytes now task dir mode grants ∈ ops).

Lemma granted_by_revoke ops ts job : granted_by ops ts → granted_by ops (revoke job ts).
Proof.
  intros H job'. destruct (decide (job = job')) as [<-|Hne].
  - simpl. by rewrite !lookup_delete_eq.
  - destruct (revoke_other job job' ts Hne) as [Et Eg]. rewrite Et, Eg. apply H.
Qed.

Lemma granted_by_mono ops op ts : granted_by ops ts → granted_by (ops ++ [op]) ts.
Proof.
  intros H job. destruct (H job) as [Ht Hg]. split.
  - intros token (bytes & now & task & dir & mode & grants & Hin & ->)%Ht.
    exists bytes, now, task, dir, mode, grants. set_solver.
  - intros grants (Hs & Hne & bytes & now & task & dir & mode & Hin)%Hg. split_and!; [done..|].
    exists bytes, now, task, dir, mode. set_solver.
Qed.

Lemma granted_by_begin ops s job bytes now task dir mode grants :
  granted_by ops (or_tokens s) →
  granted_by (ops ++ [OpBegin job bytes now task dir mode grants])
    (or_tokens (run_op s (OpBegin job bytes now task dir mode grants))).
Proof.
  intros H job'. destruct (decide (job = job')) as [<-|Hne].
  - rewrite begin_tokens, store_grants_tokens. simpl. rewrite lookup_insert_eq. split.
    + intros token [= <-]. exists bytes, now, task, dir, mode, grants. set_solver.
    + intros grants' Hg. split; [done|]. destruct grants as [|g grants]; simpl in Hg.
      * apply (granted_by_mono _ (OpBegin job bytes now task dir mode []) _ H) in Hg. naive_solver.
      * rewrite lookup_insert_eq in Hg. simplify_eq. split; [done|]. exists bytes, now, task, dir, mode. set_solver.
  - destruct (begin_other s job bytes now task dir mode grants job' Hne) as [-> ->].
    by apply granted_by_mono.
Qed.

Lemma granted_by_op ops s op :
  granted_by ops (or_tokens s) → granted_by (ops ++ [op]) (or_tokens (run_op s op)).
Proof.
  intros H. destruct (is_begin op) eqn:Eb.
  - destruct op; try done. by apply granted_by_begin.
  - destruct (op_tokens s op Eb) as [->| ->]; [|apply granted_by_revoke]; by apply granted_by_mono.
Qed.

(** Access is what a creation gave: in every state the manager can reach, a token it accepts for a
    job is one it generated when that job was created, the credentials of a job are those granted at a creation of
    that job, and a job without a token has none. *)
Theorem access_as_created (ops : list OrchOp) (job : Uuid) :
  let ts := or_tokens (run_ops orch_new ops) in
  (∀ token, validate ts job token = true → ∃ bytes now task dir mode grants,
     OpBegin job bytes now task dir mode grants ∈ ops ∧ token = generate_token bytes) ∧
  (∀ grants, get_grants ts job = Some grants →
     (∃ token, validate ts job token = true) ∧
     ∃ bytes now task dir mode, OpBegin job bytes now task dir mode grants ∈ ops).
Proof.
  assert (granted_by ops (or_tokens (run_ops orch_new ops))) as H.
  { induction ops as [|op ops IH] using rev_ind; [by intros ?; simpl; rewrite !lookup_empty|].
    unfold run_ops. rewrite foldl_snoc. by apply granted_by_op. }
  specialize (H job) as [Ht Hg]. cbv zeta. unfold validate, get_grants. split.
  - intros token Hv. destruct (tokens _ !! job) as [t|] eqn:E; [|done].
    apply bool_decide_eq_true in Hv as <-. by apply Ht.
  - intros grants (Hs & _ & Hin)%Hg. destruct Hs as [t Hs]. split; [|done]. exists t. rewrite Hs.
    by rewrite bool_decide_true.
Qed.
End Runs.

(** ** Creation *)

Section Creation.
Context {T : UuidText} {D : UtcText} {Conn : Type}.
Variable h : Host Conn.
Variable config : ContainerJobConfig.
Variable base_dir : Path.

#[local] Existing Instances OM_ret OM_bind.

Definition projects_base : Path := path_join base_dir (path_from "projects").

(** The mounts a job may get: its project directory, which lies under the base. *)
Definition mount_allowed (dir : option Path) (binds : list string) : Prop :=
  match dir with
  | None => binds = []
  | Some dir => ∃ canonical base log log',
      on_canonicalize h log dir = Ok canonical ∧ on_canonicalize h log' projects_base = Ok base ∧
      base `prefix_of` canonical ∧ binds = [path_text canonical +:+ ":/workspace:rw"]
  end.

Lemma binds_allowed dir job env s s' binds env' :
  build_workspace_binds h base_dir dir job env s = (s', Ok (binds, env')) →
  mount_allowed dir binds ∧ env `prefix_of` env'.
Proof.
  unfold build_workspace_binds. destruct dir as [dir|]; [|intros [= <- <- <-]; done].
  intros (s1 & x & E & H)%try_run. destruct x as [canonical|e]; [|naive_solver].
  unfold mret, OM_ret in H. simplify_eq. split; [|by eexists].
  unfold validate_bind_mount_path, validate_bind_mount_path_against_base, mbind, OM_bind, mret, OM_ret in E.
  fold projects_base in E. simpl in E. repeat (case_match; simplify_eq/=).
  match goal with H : bool_decide _ = true |- _ => apply bool_decide_eq_true in H end.
  eexists _, _, _, _. split_and!; [done|done|done|done].
Qed.

(** A container that was created is running or was asked to be removed. *)
Lemma create_and_start_run c job s s' r :
  create_and_start_container h c job s = (s', r) →
  match r with
  | Ok id => or_calls s' = or_calls s ++ [HcCreate c (Ok id); HcStart id (Ok ())]
  | Err _ => (∃ e, or_calls s' = or_calls s ++ [HcCreate c (Err e)]) ∨
             ∃ id e x, or_calls s' = or_calls s ++ [HcCreate c (Ok id); HcStart id (Err e); HcRemove id x]
  end.
Proof.
  unfold create_and_start_container, remove_container, mbind, OM_bind, mret, OM_ret. simpl. intros H.
  destruct (on_container_create h (or_calls s) c) as [id|e] eqn:E; [|simplify_eq/=; left; by eexists].
  simpl in H. destruct (on_container_start h _ id) as [[]|e] eqn:E2; simplify_eq/=.
  - by rewrite <-app_assoc.
  - right. eexists id, e, _. by rewrite <-!app_assoc.
Qed.

Lemma inner_run p now s s' :
  create_job_inner h config base_dir p now s = (s', Ok ()) →
  ∃ binds env id pre, mount_allowed (cjp_project_dir p) binds ∧
    worker_env config (cjp_job_id p) (cjp_token p) `prefix_of` env ∧
    or_calls s' = pre ++ [HcCreate (job_container config p binds env now) (Ok id); HcStart id (Ok ())] ∧
    or_registry s' = set_container_id (cjp_job_id p) id (or_registry s).
Proof.
  unfold create_job_inner. intros (s1 & d & E1 & H)%try_run.
  apply calls_only_run in E1 as (_ & Hr1 & _); [|auto with orch]. destruct d as [d|e]; [|naive_solver].
  apply try_run in H as (s2 & b & E2 & H). destruct b as [[binds env]|e]; [|naive_solver].
  pose proof E2 as E2'. apply binds_allowed in E2 as [Hb He].
  apply calls_only_run in E2' as (_ & Hr2 & _); [|auto with orch].
  apply try_run in H as (s3 & c & E3 & H). destruct c as [id|e]; [|naive_solver].
  pose proof E3 as E3'. apply create_and_start_run in E3.
  apply calls_only_run in E3' as (_ & Hr3 & _); [|auto with orch].
  unfold mbind, OM_bind, mret, OM_ret in H. simplify_eq/=.
  exists binds, env, id, (or_calls s2). split_and!; [done..|congruence].
Qed.

(** A job whose container is found by the reaper, under the job's id and with the time of its creation. *)
Lemma labels_roundtrip id job now created :
  reaper_container "axinite.job_id"
    {| sum_id := Some id; sum_labels := Some (job_labels job now); sum_created := created |} =
  Some {| rc_id := id; rc_job_id := job; rc_created_at := now |}.
Proof.
  unfold reaper_container, parse_job_id_label, parse_created_at_label, job_labels. simpl.
  rewrite lookup_insert_ne, lookup_insert_eq by done. simpl. rewrite uuid_parse_to_string.
  by rewrite lookup_insert_eq; simpl; rewrite parse_to_rfc3339.
Qed.

(** What a job has when it was created, and what is left when it was not. *)
Definition creation_outcome (job : Uuid) (bytes : list nat) (now now' : Utc) (task : string) (dir : option Path)
    (mode : JobMode) (s' : Orch Conn) (r : result string OrchestratorError) : Prop :=
  match r with
  | Ok token =>
      token = generate_token bytes ∧ validate (or_tokens s') job token = true ∧
      ∃ c id pre,
        or_registry s' !! job = Some (with_container id (handle_new job mode now dir task)) ∧
        or_calls s' = pre ++ [HcCreate c (Ok id); HcStart id (Ok ())] ∧
        ("AXINITE_WORKER_TOKEN=" +:+ token) ∈ jc_env c ∧
        mount_allowed dir (default [] (jh_binds (jc_host_config c))) ∧
        reaper_container "axinite.job_id"
          {| sum_id := Some id; sum_labels := Some (jc_labels c); sum_created := None |} =
        Some {| rc_id := id; rc_job_id := job; rc_created_at := now' |}
  | Err _ => locked_out (or_tokens s') job ∧ or_registry s' !! job = None
  end.

(** C29. A job is created or not, when nothing else touches it meanwhile: if the call succeeds, the job's handle names a container that was
    created and started, with the token that is accepted, with no host directory but the project directory, which lies under
    the projects base, and with labels under which the reaper finds the job and the time of its
    creation; if it fails, no token is accepted for the job, and it has neither credentials nor a handle. *)
Theorem create_job_outcome (s : Orch Conn) (job : Uuid) (bytes : list nat) (now now' : Utc) (task : string)
    (dir : option Path) (mode : JobMode) (grants : list CredentialGrant) :
  let '(s', r) := create_container_job h config base_dir job bytes now now' task dir mode grants s in
  creation_outcome job bytes now now' task dir mode s' r.
Proof.
  destruct (create_container_job _ _ _ _ _ _ _ _ _ _ _ s) as [s' r] eqn:E. revert E.
  unfold create_container_job. unfold mbind at 1, OM_bind at 1.
  destruct (create_job_begin job bytes now task dir mode grants s) as [s1 p] eqn:Eb.
  unfold create_job_begin, mbind, OM_bind, mret, OM_ret in Eb. simplify_eq/=.
  unfold create_job_end, mbind, OM_bind, mret, OM_ret.
  match goal with |- context [create_job_inner _ _ _ ?p _ ?s] => set (p0 := p); set (s0 := s) end.
  destruct (create_job_inner h config base_dir p0 now' s0) as [s2 x] eqn:E2.
  pose proof E2 as E3. apply inner_effect in E3 as [Ht Hr]. destruct x as [[]|e]; intros; simplify_eq/=.
  - split_and!; [done|..].
    { unfold validate. rewrite Ht. simpl. rewrite store_grants_tokens. simpl.
      by rewrite lookup_insert_eq, bool_decide_true. }
    apply inner_run in E2 as (binds & env & id & pre & Hb & [tl He] & Hc & Hr2). eexists _, id, pre.
    split_and!; [|done|..].
    + rewrite Hr2. unfold set_container_id. simpl. rewrite lookup_alter_eq. unfold registry_insert. simpl.
      by rewrite lookup_insert_eq.
    + simpl. rewrite He. case_bool_decide; [|set_solver].
      unfold append_claude_code_env. repeat case_match; set_solver.
    + simpl. by destruct binds.
    + apply labels_roundtrip.
  - rewrite Hr. split; [apply revoke_locked_out|by rewrite lookup_delete_eq].
Qed.
End Creation.

(** ** The reaper *)

Section Reaping.
Context {J : SerdeJson} {K : RustDecimal} {T : UuidText} {D : UtcText} {Conn : Type}.
Variable h : Host Conn.
Variable cm : list HostCall → ContextManager.
Variable rconfig : ReaperConfig.

#[local] Existing Instances OM_ret OM_bind.

(** A call made for an orphan: its job was not active when it was looked up, and the container is the one
    listed or the one of the job's handle. *)
Definition orphan_call (r : JobRegistry) (now : Utc) (cs : list ReaperContainer) (c : HostCall) : Prop :=
  match c with
  | HcConnect => True
  | HcStop id _ | HcRemove id _ => ∃ rc log, rc ∈ cs ∧
      is_past_orphan_threshold (rc_created_at rc) rconfig now = true ∧
      job_is_active (cm log) (rc_job_id rc) = false ∧
      (id = rc_id rc ∨ container_id r (rc_job_id rc) = Some id)
  | _ => False
  end.

Lemma container_id_set_state r job st job' :
  container_id (registry_set_state job st r) job' = container_id r job'.
Proof.
  unfold container_id, registry_set_state. destruct (decide (job = job')) as [<-|Hne].
  - rewrite lookup_alter_eq. by destruct (r !! job).
  - by rewrite lookup_alter_ne.
Qed.

Lemma get_docker_run s s' x :
  get_docker h s = (s', x) → or_calls s' = or_calls s ∨ or_calls s' = or_calls s ++ [HcConnect].
Proof.
  unfold get_docker, mbind, OM_bind, mret, OM_ret. simpl. repeat case_match; intros; simplify_eq/=; auto.
Qed.

(** The calls of a stop are on the container of the handle. *)
Lemma stop_calls job s s' r :
  stop_container_job h job s = (s', r) →
  ∃ new, or_calls s' = or_calls s ++ new ∧
    Forall (λ c, match c with
                 | HcConnect => True
                 | HcStop id _ | HcRemove id _ => container_id (or_registry s) job = Some id
                 | _ => False
                 end) new.
Proof.
  unfold stop_container_job. unfold mbind at 1, OM_bind at 1. cbn [gets].
  destruct (container_id (or_registry s) job) as [c|] eqn:Ec;
    [|intros [= <- <-]; exists []; by rewrite app_nil_r].
  intros (s1 & d & E1 & H)%try_run.
  assert (∃ new, or_calls s1 = or_calls s ++ new ∧ Forall (λ c, c = HcConnect) new) as (new & Hn & Hf).
  { destruct (get_docker_run _ _ _ E1) as [->| ->]; [exists []|exists [HcConnect]]; rewrite ?app_nil_r; auto. }
  assert (Forall (λ x, match x with
                       | HcConnect => True | HcStop id _ | HcRemove id _ => Some c = Some id | _ => False end) new).
  { apply (Forall_impl _ _ _ Hf). by intros ? ->. }
  destruct d as [d|e]; [|destruct H as [-> ->]; by exists new].
  unfold mbind, OM_bind, mret, OM_ret in H. simplify_eq/=.
  eexists. rewrite Hn, <-!app_assoc. split; [done|]. apply Forall_app. by repeat constructor.
Qed.

Lemma reap_one_run now cs c s :
  c ∈ cs →
  let s' := (reap_one h cm rconfig now c s).1 in
  (∀ job, container_id (or_registry s') job = container_id (or_registry s) job) ∧
  ∃ new, or_calls s' = or_calls s ++ new ∧ Forall (orphan_call (or_registry s) now cs) new.
Proof.
  intros Hin. unfold reap_one, mret, OM_ret.
  destruct (is_past_orphan_threshold _ rconfig now) eqn:Hp; simpl;
    [|split; [done|exists []; by rewrite app_nil_r]].
  unfold mbind, OM_bind. simpl. destruct (job_is_active _ _) eqn:Ha; simpl;
    [split; [done|exists []; by rewrite app_nil_r]|].
  split. { intros job. destruct (reap_effect h (rc_id c) (rc_job_id c) s) as [[_ ->]|[_ ->]]; [done|].
           apply container_id_set_state. }
  unfold reap_with_docker, mbind, OM_bind, mret, OM_ret.
  destruct (stop_container_job h (rc_job_id c) s) as [s1 r] eqn:E.
  destruct (stop_calls _ _ _ _ E) as (new & Hn & Hf).
  assert (Forall (orphan_call (or_registry s) now cs) new) as Hnew.
  { apply (Forall_impl _ _ _ Hf). intros []; simpl; try done; intros Hid; eexists c, _; naive_solver. }
  destruct r; [by exists new|]. exists (new ++ [HcStop (rc_id c) 10;
    HcRemove (rc_id c) (on_container_remove h (or_calls s1 ++ [HcStop (rc_id c) 10]) (rc_id c))]). split.
  - rewrite app_assoc. cbn -[app]. destruct (on_container_remove _ _ _); simpl; by rewrite Hn, <-!app_assoc.
  - apply Forall_app; split; [done|]. repeat constructor; eexists c, _; naive_solver.
Qed.

Lemma orphan_call_ext r r' now cs c :
  (∀ job, container_id r' job = container_id r job) → orphan_call r' now cs c → orphan_call r now cs c.
Proof. intros H. destruct c; simpl; try done; intros (rc & log & ?); exists rc, log; by rewrite <-H. Qed.

Lemma reap_all_run now cs cs' s :
  (∀ c, c ∈ cs' → c ∈ cs) →
  ∃ new, or_calls (reap_all h cm rconfig now cs' s).1 = or_calls s ++ new ∧
    Forall (orphan_call (or_registry s) now cs) new.
Proof.
  revert s. induction cs' as [|c cs' IH]; intros s Hsub; [exists []; by rewrite app_nil_r|].
  cbn [reap_all]. unfold mbind, OM_bind.
  destruct (reap_one_run now cs c s) as (Hid & new & Hn & Hf); [apply Hsub; by left|].
  destruct (reap_one h cm rconfig now c s) as [s1 []]. cbn [fst] in *.
  destruct (IH s1) as (new' & Hn' & Hf'); [intros; apply Hsub; by right|].
  exists (new ++ new'). rewrite Hn', Hn, app_assoc. split; [done|]. apply Forall_app. split; [done|].
  apply (Forall_impl _ _ _ Hf'). intros x. by apply orphan_call_ext.
Qed.

(** The reaper stops and removes only what it takes for orphans: every container a scan touches is one the
    daemon listed with the label and that is older than the threshold, or the container of the same job's handle, and
    the context manager had no active job of that id when it was looked up (which holds for every container job). *)
Theorem reaper_touches_orphans (now : Utc) (s : Orch Conn) :
  ∃ new, or_calls (scan_and_reap h cm rconfig now s).1 = or_calls s ++ HcList :: new ∧
    match on_container_list h (or_calls s) (rp_container_label rconfig) with
    | Err _ => new = []
    | Ok summaries =>
        Forall (orphan_call (or_registry s) now (omap (reaper_container (rp_container_label rconfig)) summaries)) new
    end.
Proof.
  unfold scan_and_reap, list_docker_containers, mbind, OM_bind, mret, OM_ret. simpl.
  destruct (on_container_list h _ _) as [summaries|e]; simpl; [|by exists []].
  match goal with |- context [reap_all _ _ _ _ ?cs ?s0] => destruct (reap_all_run now cs cs s0 (λ _ H, H)) as (new & Hn & Hf) end.
  exists new. rewrite Hn. simpl. by rewrite <-app_assoc.
Qed.

(** A job in a container is not a job of the agent: when its container is older than the threshold, a scan stops it while it
    runs. *)
Lemma running_job_reaped now s c handle :
  is_past_orphan_threshold (rc_created_at c) rconfig now = true →
  contexts (cm (or_calls s)) !! rc_job_id c = None →
  or_registry s !! rc_job_id c = Some handle → is_Some (ch_container_id handle) →
  is_Some (or_docker s) →
  let s' := (reap_one h cm rconfig now c s).1 in
  or_registry s' !! rc_job_id c = Some (with_state CsStopped handle) ∧ locked_out (or_tokens s') (rc_job_id c).
Proof.
  intros Hp Hc Hh [id Hid] [d Hd]. unfold reap_one. rewrite Hp. simpl. unfold mbind, OM_bind. simpl.
  unfold job_is_active, get_context. rewrite Hc. unfold reap_with_docker, mbind, OM_bind, mret, OM_ret.
  assert (∃ s1, stop_container_job h (rc_job_id c) s = (s1, Ok ())) as [s1 E].
  { unfold stop_container_job, mbind, OM_bind, mret, OM_ret. simpl. unfold container_id. rewrite Hh. simpl. rewrite Hid.
    unfold OM_try, get_docker, mbind, OM_bind, mret, OM_ret. simpl. rewrite Hd. by eexists. }
  rewrite E. apply stop_effect in E as [Ht Hr]. simpl. rewrite Ht, Hr. split; [|apply revoke_locked_out].
  unfold registry_set_state. by rewrite lookup_alter_eq, Hh.
Qed.
End Reaping.

(** ** An example *)

(** A time as the text of a number; the sign decides its parity. *)
Definition utc_number (t : Utc) : N := if (t <? 0)%Z then Z.to_N (-2 * t - 1) else Z.to_N (2 * t).
Definition number_utc (n : N) : Utc :=
  if (Z.of_N n mod 2 =? 0)%Z then (Z.of_N n / 2)%Z else (- (Z.of_N n / 2) - 1)%Z.

Lemma number_utc_number t : number_utc (utc_number t) = t.
Proof.
  unfold number_utc, utc_number. destruct (Z.ltb_spec t 0); rewrite Z2N.id by lia;
    pose proof (Z.div_mod (if (t <? 0)%Z then -2 * t - 1 else 2 * t) 2) as H0;
    pose proof (Z.mod_pos_bound (if (t <? 0)%Z then -2 * t - 1 else 2 * t) 2) as H1;
    destruct (Z.ltb_spec t 0); try lia.
  all: match goal with |- context [(?a =? 0)%Z] => destruct (Z.eqb_spec a 0) end; lia.
Qed.

Definition utc_text : UtcText.
Proof.
  refine {| to_rfc3339 := λ t, uuid_to_string (UuidText := uuid_bits) (utc_number t);
            parse_from_rfc3339 := λ s, number_utc <$> uuid_parse_str (UuidText := uuid_bits) s;
            from_timestamp := λ t, Some (secs t) |}.
  intros t. rewrite uuid_parse_to_string. simpl. by rewrite number_utc_number.
Defined.

(** A host on which everything works, and on which [/link] leads out of the base. *)
Definition example_host : Host unit := {|
  on_docker_connect _ := Ok ();
  on_container_create log _ := Ok ("c" +:+ pretty (length log));
  on_container_start _ _ := Ok ();
  on_container_stop _ _ := Ok ();
  on_container_remove _ _ := Ok ();
  on_container_list _ _ := Ok [];
  on_canonicalize _ p := Ok (if bool_decide (p = path_from "/link") then path_from "/etc" else p);
  on_create_dir_all _ _ := Ok () |}.

Definition example_job_config : ContainerJobConfig := {|
  cj_image := "axinite-worker:latest"; cj_memory_limit_mb := 2048; cj_cpu_shares := 1024;
  cj_orchestrator_port := 50051; cj_claude_code_api_key := None; cj_claude_code_oauth_token := None;
  cj_claude_code_model := "sonnet"; cj_claude_code_max_turns := 50; cj_claude_code_memory_limit_mb := 4096;
  cj_claude_code_allowed_tools := [] |}.

Definition example_base : Path := path_from "/home/u/.axinite".
Definition example_grant : CredentialGrant := {| grant_secret := "github_token"; grant_env_var := "GITHUB_TOKEN" |}.

Definition example_create (dir : string) : Orch unit * result string OrchestratorError :=
  create_container_job (T := uuid_bits) (D := utc_text) example_host example_job_config example_base 7 [1; 171] 0 0
    "task" (Some (path_from dir)) ModeWorker [example_grant] orch_new.

Example create_inside_base :
  (example_create "/home/u/.axinite/projects/p").2 = Ok "01ab" ∧
  or_registry (example_create "/home/u/.axinite/projects/p").1 !! 7%N ≫= ch_container_id = Some "c4".
Proof. by vm_compute. Qed.

Example create_outside_base :
  (example_create "/link").2 =
    Err (OeContainerCreationFailed 7
      "project directory /etc is outside allowed base /home/u/.axinite/projects").
Proof. by vm_compute. Qed.

Lemma ended_job_locked_out_witness :
  let T := uuid_bits in let D := utc_text in
  let s := (example_create "/home/u/.axinite/projects/p").1 in
  validate (or_tokens s) 7 "01ab" = true ∧
  locked_out (or_tokens (run_ops example_host example_job_config example_base s
    [OpStop 7; OpStatus 7 None 1; OpBegin 8 [2] 0 "other" None ModeWorker []])) 7.
Proof.
  intros T D s. split; [by vm_compute|].
  apply (ended_job_locked_out example_host example_job_config example_base s (OpStop 7)).
  - split; [done|]. by vm_compute.
  - intros o Ho. repeat (apply elem_of_cons in Ho as [->|Ho]; [by intros [??]|]). by apply elem_of_nil in Ho.
Defined.
