(* ===== verification/Registry.v ===== *)
(** * The tool registry

    Models [src/src/tools/registry/names.rs], [loader.rs], [hosted.rs], [schema.rs],
    [wasm_registration.rs] and [wasm_preparation.rs]: which tools the agent has, how a tool is
    added at start-up or later, the definitions that are offered to a model, and the part of the
    tools that workers in containers may call.

    Tools are the class [Tool] of [ToolExec] with the three methods that decide what is shared with
    workers.  The order in which a hash map yields its values is an argument; compiling a WASM
    component and reading the metadata it exports are parameters. *)

From stdpp Require Import sorting.
From S2P Require Import Prelude Text Externals LlmTypes JobState Allowlist SandboxProxy ToolExec Skills Credentials.

(** ** Protected names *)

Definition PROTECTED_TOOL_NAMES : list string := [
  "echo"; "time"; "json"; "http"; "shell"; "read_file"; "write_file"; "list_dir"; "apply_patch"; "memory_search";
  "memory_write"; "memory_read"; "memory_tree"; "create_job"; "list_jobs"; "job_status"; "job_events"; "job_prompt";
  "cancel_job"; "build_software"; "tool_search"; "tool_install"; "tool_auth"; "tool_activate"; "tool_list";
  "tool_upgrade"; "extension_info"; "tool_remove"; "routine_create"; "routine_list"; "routine_update";
  "routine_delete"; "routine_fire"; "routine_history"; "event_emit"; "skill_list"; "skill_search"; "skill_install";
  "skill_remove"; "secret_list"; "secret_delete"; "message"; "web_fetch"; "restart"; "image_generate"; "image_edit";
  "image_analyze"].

Definition is_protected_tool_name (name : string) : bool := bool_decide (name ∈ PROTECTED_TOOL_NAMES).

(** ** What workers may see of a tool *)

Inductive ToolDomain := DomainOrchestrator | DomainContainer.
Inductive HostedToolEligibility := Eligible | ApprovalGated.
#[global] Instance HostedToolEligibility_eq_dec : EqDecision HostedToolEligibility.
Proof. solve_decision. Defined.
Inductive HostedToolCatalogSource := SourceMcp | SourceWasm.

#[export] Instance tool_domain_eq_dec : EqDecision ToolDomain.
Proof. solve_decision. Defined.
#[export] Instance catalog_source_eq_dec : EqDecision HostedToolCatalogSource.
Proof. solve_decision. Defined.

Class HostedTool (A : Type) := {
  tool_domain : A → ToolDomain;
  hosted_tool_eligibility : A → HostedToolEligibility;
  hosted_tool_catalog_source : A → option HostedToolCatalogSource;
}.

(** The answers of the trait's default methods. *)
Definition default_domain : ToolDomain := DomainOrchestrator.
Definition default_hosted_eligibility : HostedToolEligibility := Eligible.
Definition default_hosted_source : option HostedToolCatalogSource := None.

Inductive HostedToolLookupError := LookupNotFound | LookupIneligible | LookupApprovalGated.

(** ** The registry *)

Record ToolRegistry (A : Type) := {
  tr_tools : gmap string A;
  tr_builtin_names : gset string;
  tr_credentials : option Registry;
}.
Arguments tr_tools {A} t.
Arguments tr_builtin_names {A} t.
Arguments tr_credentials {A} t.

Definition tool_registry_new {A} : ToolRegistry A := {|
  tr_tools := ∅; tr_builtin_names := ∅; tr_credentials := None |}.

Definition with_registry_tools {A} (m : gmap string A) (r : ToolRegistry A) : ToolRegistry A := {|
  tr_tools := m; tr_builtin_names := tr_builtin_names r; tr_credentials := tr_credentials r |}.

Section Registry.
Context {J : SerdeJson} {D : RustDecimal} {W A : Type} `{!Tool W A} `{!HostedTool A}.

Abbreviation R := (ToolRegistry A).
Abbreviation tname := (tool_name (W := W)).

Definition register (t : A) (r : R) : R * bool :=
  let name := tname t in
  if is_protected_tool_name name then (r, false)
  else if bool_decide (name ∈ tr_builtin_names r) then (r, false)
  else (with_registry_tools (<[name := t]> (tr_tools r)) r, true).

Definition register_sync (t : A) (r : R) : R :=
  let name := tname t in
  {| tr_tools := <[name := t]> (tr_tools r);
     tr_builtin_names := if is_protected_tool_name name then {[name]} ∪ tr_builtin_names r else tr_builtin_names r;
     tr_credentials := tr_credentials r |}.

Definition unregister (name : string) (r : R) : R * option A :=
  (with_registry_tools (delete name (tr_tools r)) r, tr_tools r !! name).

Definition registry_get (name : string) (r : R) : option A := tr_tools r !! name.
Definition registry_has (name : string) (r : R) : bool := bool_decide (is_Some (tr_tools r !! name)).

Definition retain_only (names : list string) (r : R) : R :=
  match names with
  | [] => r
  | _ => with_registry_tools (filter (λ kv, kv.1 ∈ names) (tr_tools r)) r
  end.

(** *** Definitions *)

Definition definition_of (t : A) : ToolDefinition := {|
  td_name := tname t; td_description := tool_description (W := W) t; td_parameters := parameters_schema (W := W) t |}.

Definition by_name (a b : ToolDefinition) : Prop := String.le (td_name a) (td_name b).
#[global] Instance by_name_dec a b : Decision (by_name a b).
Proof. unfold by_name. apply _. Defined.

(** [vals] are the registered tools in the order in which the map yields them. *)
Definition registry_tool_definitions (vals : list A) : list ToolDefinition := merge_sort by_name (definition_of <$> vals).

Definition tool_definitions_for (names : list string) (r : R) : list ToolDefinition :=
  omap (λ name, definition_of <$> tr_tools r !! name) names.

Definition tool_definitions_for_domain (vals : list A) (domain : ToolDomain) : list ToolDefinition :=
  merge_sort by_name (definition_of <$> filter (λ t, tool_domain t = domain) vals).

(** *** Tools for workers *)

Definition is_hosted_tool_source_allowed (t : A) (allowed : list HostedToolCatalogSource) : bool :=
  match hosted_tool_catalog_source t with
  | None => false
  | Some source => bool_decide (source ∈ allowed)
  end.

Definition is_tool_ineligible_for_hosted_catalogue (t : A) (allowed : list HostedToolCatalogSource) : bool :=
  negb (is_hosted_tool_source_allowed t allowed)
  || (negb (bool_decide (tool_domain t = DomainOrchestrator)) || is_protected_tool_name (tname t)).

Definition hosted_tool_lookup (t : A) (allowed : list HostedToolCatalogSource) : result unit HostedToolLookupError :=
  if is_tool_ineligible_for_hosted_catalogue t allowed then Err LookupIneligible
  else match hosted_tool_eligibility t with
       | Eligible => Ok ()
       | ApprovalGated => Err LookupApprovalGated
       end.

Definition hosted_tool_definitions (vals : list A) (allowed : list HostedToolCatalogSource) : list ToolDefinition :=
  merge_sort by_name (omap (λ t, match hosted_tool_lookup t allowed with
                                 | Ok _ => Some (definition_of t)
                                 | Err _ => None
                                 end) vals).

Definition get_hosted_tool (name : string) (allowed : list HostedToolCatalogSource) (r : R) :
    result A HostedToolLookupError :=
  match registry_get name r with
  | None => Err LookupNotFound
  | Some t =>
      match hosted_tool_lookup t allowed with
      | Err e => Err e
      | Ok _ => Ok t
      end
  end.

(** *** WASM tools *)

Definition persist_credential_mappings (name : string) (mappings : list CredentialMapping) (r : R) : R := {|
  tr_tools := tr_tools r; tr_builtin_names := tr_builtin_names r;
  tr_credentials := (λ cr, add_mappings_for_tool cr name mappings) <$> tr_credentials r |}.

Definition register_prepared_wasm (name : string) (wrapper : A) (mappings : list CredentialMapping) (r : R) :
    R * result unit string :=
  if is_protected_tool_name name then (r, Err "protected tool names cannot be dynamically registered")
  else if bool_decide (name ∈ tr_builtin_names r) then (r, Err "tool registration would shadow a built-in tool")
  else
    let r := persist_credential_mappings name mappings r in
    (with_registry_tools (<[name := wrapper]> (tr_tools r)) r, Ok ()).
End Registry.

(** ** Preparing a WASM tool *)

Section Wasm.
Context {J : SerdeJson} {U : UnicodeCase}.
(** equality of JSON values *)
Variable json_eqb : json → json → bool.
(** [Value::Bool(true)] *)
Variable json_true : json.

Definition placeholder_schema : json :=
  json_object [("type", JString "object"); ("properties", json_empty); ("additionalProperties", json_true)].

Definition is_placeholder_schema (schema : json) : bool := json_eqb schema placeholder_schema.

Definition parse_schema_string (s : string) : option json :=
  let trimmed := trim s in
  if bool_decide (trimmed = "") || bool_decide (to_ascii_lowercase trimmed = "null") then None
  else match json_from_str trimmed with
       | Some parsed => if is_placeholder_schema parsed then None else Some parsed
       | None => Some (JString trimmed)
       end.

Definition normalized_schema (schema : json) : option json :=
  match json_view schema with
  | VNull => None
  | VString value => parse_schema_string value
  | _ => if is_placeholder_schema schema then None else Some schema
  end.

Definition normalized_description (description : string) : option string :=
  let trimmed := trim description in if bool_decide (trimmed = "") then None else Some trimmed.

(** A component the run-time has compiled, with what the wrapper adds to it. *)
Record WasmToolWrapper (P : Type) := {
  ww_prepared : P;
  ww_description : string;
  ww_schema : json;
}.
Arguments ww_prepared {P} w.
Arguments ww_description {P} w.
Arguments ww_schema {P} w.

Context {P E : Type}.
(** [runtime.prepare(name, bytes, limits)] *)
Variable runtime_prepare : string → string → result P E.
(** [wrapper.exported_metadata()] *)
Variable exported_metadata : P → result (string * json) E.

Definition wrapper_new (p : P) : WasmToolWrapper P := {|
  ww_prepared := p; ww_description := "WASM sandboxed tool"; ww_schema := placeholder_schema |}.
Definition ww_with_description (d : string) (w : WasmToolWrapper P) : WasmToolWrapper P := {|
  ww_prepared := ww_prepared w; ww_description := d; ww_schema := ww_schema w |}.
Definition ww_with_schema (s : json) (w : WasmToolWrapper P) : WasmToolWrapper P := {|
  ww_prepared := ww_prepared w; ww_description := ww_description w; ww_schema := s |}.

Definition fill_absent_metadata (w : WasmToolWrapper P) (description : option string) (schema : option json)
    (exported : string * json) : WasmToolWrapper P :=
  let w := match description with None => ww_with_description exported.1 w | Some _ => w end in
  match schema with None => ww_with_schema exported.2 w | Some _ => w end.

Definition recover_guest_metadata (w : WasmToolWrapper P) (description : option string) (schema : option json) :
    result (WasmToolWrapper P) E :=
  match description, schema with
  | Some _, Some _ => Ok w
  | _, _ =>
      match exported_metadata (ww_prepared w) with
      | Ok exported => Ok (fill_absent_metadata w description schema exported)
      | Err e => Err e
      end
  end.

Definition apply_wasm_overrides (w : WasmToolWrapper P) (description : option string) (schema : option json) :
    WasmToolWrapper P :=
  let w := match description with Some d => ww_with_description d w | None => w end in
  match schema with Some s => ww_with_schema s w | None => w end.

Definition prepare_wasm_tool (name bytes : string) (description : option string) (schema : option json) :
    result (WasmToolWrapper P) E :=
  match runtime_prepare name bytes with
  | Err e => Err e
  | Ok p =>
      match recover_guest_metadata (wrapper_new p) description schema with
      | Err e => Err e
      | Ok w => Ok (apply_wasm_overrides w description schema)
      end
  end.

(** A prepared tool shows the description and schema it was registered with, and what the component exports where
    there is none; with either missing, a component that exports nothing is refused. *)
Lemma prepared_metadata name bytes description schema w :
  prepare_wasm_tool name bytes description schema = Ok w →
  runtime_prepare name bytes = Ok (ww_prepared w) ∧
  ((is_Some description ∧ is_Some schema) ∨
   ∃ d s, exported_metadata (ww_prepared w) = Ok (d, s) ∧ ww_description w = default d description ∧
     ww_schema w = default s schema) ∧
  (∀ d, description = Some d → ww_description w = d) ∧ (∀ s, schema = Some s → ww_schema w = s).
Proof.
  unfold prepare_wasm_tool, recover_guest_metadata. destruct (runtime_prepare name bytes) as [p|]; [|done].
  destruct description as [d|], schema as [s|]; simpl; intros H;
    try (destruct (exported_metadata p) as [[d' s']|] eqn:He; [|done]); simplify_eq/=;
    (split; [done|]); (split; [|by split; intros ? [= <-]]); [left; eauto|right; eauto 7..].
Qed.
End Wasm.

(** ** Runs *)

Inductive ToolRegistryOp (A : Type) :=
| TrStartup (t : A)
| TrRegister (t : A)
| TrWasm (name : string) (wrapper : A) (mappings : list CredentialMapping)
| TrUnregister (name : string)
| TrRetain (names : list string).
Arguments TrStartup {A} t.
Arguments TrRegister {A} t.
Arguments TrWasm {A} name wrapper mappings.
Arguments TrUnregister {A} name.
Arguments TrRetain {A} names.

Section Runs.
Context {J : SerdeJson} {D : RustDecimal} {W A : Type} `{!Tool W A} `{!HostedTool A}.

Abbreviation R := (ToolRegistry A).
Abbreviation tname := (tool_name (W := W)).
Abbreviation defn := (definition_of (W := W)).

Definition run_registry_op (r : R) (op : ToolRegistryOp A) : R :=
  match op with
  | TrStartup t => register_sync (W := W) t r
  | TrRegister t => (register (W := W) t r).1
  | TrWasm name wrapper mappings => (register_prepared_wasm name wrapper mappings r).1
  | TrUnregister name => (unregister name r).1
  | TrRetain names => retain_only names r
  end.

Definition run_registry_ops : R → list (ToolRegistryOp A) → R := foldl run_registry_op.

(** A tool is registered under its own name, and the names marked as built in are protected. *)
Definition registry_ok (r : R) : Prop :=
  (∀ name t, tr_tools r !! name = Some t → tname t = name) ∧
  (∀ name, name ∈ tr_builtin_names r → is_protected_tool_name name = true).

(** The run-time names a component as it was asked to. *)
Definition op_named (op : ToolRegistryOp A) : Prop :=
  match op with TrWasm name wrapper _ => tname wrapper = name | _ => True end.

Lemma registry_ok_insert r (t : A) (names : gset string) creds :
  registry_ok r → (∀ name, name ∈ names → is_protected_tool_name name = true) →
  registry_ok {| tr_tools := <[tname t := t]> (tr_tools r); tr_builtin_names := names; tr_credentials := creds |}.
Proof.
  intros [Hn _] Hb. split; [|done]. simpl. intros name t'.
  destruct (decide (tname t = name)) as [<-|Hne].
  - rewrite lookup_insert_eq. naive_solver.
  - rewrite lookup_insert_ne by done. apply Hn.
Qed.

Lemma registry_op_ok r op : op_named op → registry_ok r → registry_ok (run_registry_op r op).
Proof.
  intros Hop Hr. pose proof Hr as [Hn Hb]. destruct op as [t|t|name t ms|name|names]; cbn [run_registry_op].
  - apply registry_ok_insert; [done|]. intros name.
    destruct (is_protected_tool_name (tname t)) eqn:E; [|apply Hb].
    rewrite elem_of_union, elem_of_singleton. intros [->|?]; auto.
  - unfold register. repeat case_match; [done|done|]. by apply registry_ok_insert.
  - unfold register_prepared_wasm. repeat case_match; [done|done|]. simpl in Hop. subst name.
    by apply registry_ok_insert.
  - split; [|done]. simpl. intros name' t. rewrite lookup_delete_Some. naive_solver.
  - unfold retain_only. destruct names as [|n ns]; [done|]. split; [|done]. simpl. intros name t.
    rewrite map_lookup_filter_Some. naive_solver.
Qed.

Lemma registry_ops_ok r ops : Forall op_named ops → registry_ok r → registry_ok (run_registry_ops r ops).
Proof.
  intros Hops. revert r. induction Hops as [|op ops Hop _ IH]; intros r Hr; [done|].
  apply (IH (run_registry_op r op)). by apply registry_op_ok.
Qed.

Lemma registry_new_ok : registry_ok tool_registry_new.
Proof. split; [|set_solver]. intros name t. simpl. by rewrite lookup_empty. Qed.

(** An operation of a running agent, as opposed to start-up. *)
Definition is_dynamic (op : ToolRegistryOp A) : Prop := match op with TrStartup _ => False | _ => True end.

(** An operation that takes the tool [name] out. *)
Definition takes_out (name : string) (op : ToolRegistryOp A) : Prop :=
  match op with
  | TrUnregister n => n = name
  | TrRetain names => names ≠ [] ∧ name ∉ names
  | _ => False
  end.

Lemma dynamic_op_protected r op name :
  is_dynamic op → is_protected_tool_name name = true →
  tr_tools (run_registry_op r op) !! name = tr_tools r !! name ∨
  (takes_out name op ∧ tr_tools (run_registry_op r op) !! name = None).
Proof.
  intros Hd Hp. destruct op as [t|t|n t ms|n|names]; [done|..]; cbn [run_registry_op].
  - left. unfold register. repeat case_match; [done|done|]. simpl. rewrite lookup_insert_ne; congruence.
  - left. unfold register_prepared_wasm. repeat case_match; [done|done|]. simpl. rewrite lookup_insert_ne; congruence.
  - simpl. destruct (decide (n = name)) as [->|Hne]; [right; by rewrite lookup_delete_eq|].
    left. by rewrite lookup_delete_ne.
  - unfold retain_only. destruct names as [|m ms]; [by left|]. simpl.
    destruct (decide (name ∈ m :: ms)) as [Hin|Hout].
    + left. destruct (tr_tools r !! name) as [t|] eqn:E.
      * by apply map_lookup_filter_Some.
      * apply map_lookup_filter_None. by left.
    + right. split; [done|]. apply map_lookup_filter_None. right. by intros t _.
Qed.

(** C32. No tool added while the agent runs replaces a protected one: whatever tools are registered with
    [register] and whatever components, under whatever names, and whatever is removed, a protected name has the tool that
    it had before (the one start-up gave it with [register_sync]), or none; and it has it still unless an operation took this
    very name out.  Protected are the names of the list in the code. *)
Theorem protected_tools_kept (r : R) (ops : list (ToolRegistryOp A)) (name : string)
    (Hdyn : Forall is_dynamic ops) (Hp : is_protected_tool_name name = true) :
  let r' := run_registry_ops r ops in
  (∀ t, tr_tools r' !! name = Some t → tr_tools r !! name = Some t) ∧
  (¬ Exists (takes_out name) ops → tr_tools r' !! name = tr_tools r !! name).
Proof.
  cbv zeta. revert r. induction Hdyn as [|op ops Hd Hdyn IH]; intros r; [done|].
  destruct (IH (run_registry_op r op)) as [IH1 IH2].
  change (run_registry_ops r (op :: ops)) with (run_registry_ops (run_registry_op r op) ops).
  destruct (dynamic_op_protected r op name Hd Hp) as [E|[Ht E]].
  - rewrite E in IH1, IH2. split; [done|]. intros Hex. apply IH2. intros He. apply Hex. by right.
  - rewrite E in IH1. split; [intros t Hx; by apply IH1 in Hx|]. intros Hex. destruct Hex. by left.
Qed.

(** ** The definitions offered *)

#[global] Instance by_name_total : Total by_name.
Proof. intros a b. unfold by_name. apply (total String.le). Qed.
#[global] Instance by_name_trans : Transitive by_name.
Proof. intros a b c. unfold by_name. apply (transitivity (R := String.le)). Qed.

Lemma omap_NoDup_names (f : A → option ToolDefinition) (vals : list A) :
  (∀ t d, f t = Some d → td_name d = tname t) → NoDup (tname <$> vals) → NoDup (td_name <$> omap f vals).
Proof.
  intros Hf. induction vals as [|t vals IH]; [done|]. cbn [fmap list_fmap]. intros [Hni Hnd]%NoDup_cons.
  cbn [omap list_omap]. destruct (f t) as [d|] eqn:E; [|by apply IH]. cbn [fmap list_fmap].
  apply NoDup_cons. split; [|by apply IH]. rewrite (Hf t d E). intros (d' & Ed & (t' & Ht' & Ft')%list_elem_of_omap)%list_elem_of_fmap.
  apply Hni, list_elem_of_fmap. exists t'. split; [|done]. by rewrite Ed, (Hf t' d' Ft').
Qed.

(** Sorting by name forgets the order in which distinct names came. *)
Lemma sort_by_name_unique (l l' : list ToolDefinition) :
  l ≡ₚ l' → NoDup (td_name <$> l) → merge_sort by_name l = merge_sort by_name l'.
Proof.
  intros Hp Hnd. apply (StronglySorted_unique_strong by_name).
  - intros d d' Hd Hd' H1 H2. rewrite merge_sort_Permutation in Hd, Hd'. rewrite <-Hp in Hd'.
    assert (td_name d = td_name d') as E by by apply (anti_symm String.le).
    apply list_elem_of_lookup in Hd as [i Hi], Hd' as [j Hj].
    assert (i = j) as ->; [|congruence].
    apply (NoDup_lookup (td_name <$> l) i j (td_name d)); [done|..]; rewrite list_lookup_fmap, ?Hi, ?Hj; simpl; congruence.
  - apply StronglySorted_merge_sort; apply _.
  - apply StronglySorted_merge_sort; apply _.
  - by rewrite !merge_sort_Permutation.
Qed.

Definition hosted_definition (allowed : list HostedToolCatalogSource) (t : A) : option ToolDefinition :=
  match hosted_tool_lookup (W := W) t allowed with Ok _ => Some (defn t) | Err _ => None end.

Lemma registry_values_names r vals :
  registry_ok r → vals ≡ₚ (map_to_list (tr_tools r)).*2 →
  NoDup (tname <$> vals) ∧ ∀ t, t ∈ vals ↔ tr_tools r !! tname t = Some t.
Proof.
  intros [Hn _] Hv. split.
  - rewrite Hv, <-list_fmap_compose.
    rewrite (list_fmap_ext _ fst).
    + apply NoDup_fst_map_to_list.
    + intros i [name t] Hi. simpl. apply Hn, elem_of_map_to_list, list_elem_of_lookup. by exists i.
  - intros t. rewrite Hv, list_elem_of_fmap. split.
    + intros ([name t'] & -> & Hin%elem_of_map_to_list). simpl. by rewrite (Hn name t' Hin).
    + intros Ht. exists (tname t, t). split; [done|]. by apply elem_of_map_to_list.
Qed.

(** A tool that workers may be given: of an allowed family, run by the agent, and not under a protected
    name. *)
Definition open_to_workers (allowed : list HostedToolCatalogSource) (t : A) : Prop :=
  (∃ source, hosted_tool_catalog_source t = Some source ∧ source ∈ allowed) ∧
  tool_domain t = DomainOrchestrator ∧ is_protected_tool_name (tname t) = false.

Lemma open_to_workers_spec allowed t :
  is_tool_ineligible_for_hosted_catalogue (W := W) t allowed = false ↔ open_to_workers allowed t.
Proof.
  unfold is_tool_ineligible_for_hosted_catalogue, is_hosted_tool_source_allowed, open_to_workers.
  rewrite !orb_false_iff, !negb_false_iff, bool_decide_eq_true.
  destruct (hosted_tool_catalog_source t); [rewrite bool_decide_eq_true|]; naive_solver.
Qed.

Lemma hosted_tool_lookup_spec allowed t :
  hosted_tool_lookup (W := W) t allowed = Ok () ↔ open_to_workers allowed t ∧ hosted_tool_eligibility t = Eligible.
Proof.
  rewrite <-open_to_workers_spec. unfold hosted_tool_lookup.
  destruct (is_tool_ineligible_for_hosted_catalogue t allowed), (hosted_tool_eligibility t); naive_solver.
Qed.

(** What a worker is offered is what it can call: in a registry as any run of the agent leaves it, a
    definition is in the workers' catalogue exactly when it is that of the tool registered under its name and this tool
    is of an allowed family, run by the agent, not under a protected name and not reserved for approval; these are also exactly the
    tools the lookup by name finds.  The catalogue is sorted, has no name twice, and is the same in whatever order
    the map yields the tools. *)
Theorem hosted_catalogue_exact (ops : list (ToolRegistryOp A)) (vals vals' : list A)
    (allowed : list HostedToolCatalogSource) (Hnamed : Forall op_named ops)
    (Hvals : vals ≡ₚ (map_to_list (tr_tools (run_registry_ops tool_registry_new ops))).*2)
    (Hvals' : vals' ≡ₚ vals) :
  let r := run_registry_ops tool_registry_new ops in
  let catalogue := hosted_tool_definitions (W := W) vals allowed in
  let offered name t := tr_tools r !! name = Some t ∧ open_to_workers allowed t ∧ hosted_tool_eligibility t = Eligible in
  (∀ d, d ∈ catalogue ↔ ∃ t, offered (td_name d) t ∧ d = defn t) ∧
  (∀ name t, get_hosted_tool (W := W) name allowed r = Ok t ↔ offered name t) ∧
  StronglySorted by_name catalogue ∧ NoDup (td_name <$> catalogue) ∧
  hosted_tool_definitions (W := W) vals' allowed = catalogue.
Proof.
  intros r catalogue offered.
  destruct (registry_values_names r vals) as [Hnd Hin]; [by apply registry_ops_ok, registry_new_ok|done|].
  assert (∀ t d, hosted_definition allowed t = Some d ↔ hosted_tool_lookup (W := W) t allowed = Ok () ∧ d = defn t) as Hd.
  { unfold hosted_definition. intros t d. destruct (hosted_tool_lookup t allowed) as [[]|]; naive_solver. }
  assert (∀ t d, hosted_definition allowed t = Some d → td_name d = tname t) as Hname.
  { intros t d [_ ->]%Hd. done. }
  split_and!.
  - intros d. unfold catalogue, hosted_tool_definitions. rewrite merge_sort_Permutation, list_elem_of_omap.
    change (λ t, match hosted_tool_lookup t allowed with Ok _ => _ | Err _ => _ end) with (hosted_definition allowed).
    setoid_rewrite Hd. setoid_rewrite hosted_tool_lookup_spec. unfold offered. split.
    + intros (t & Ht%Hin & Ho & ->). by exists t.
    + intros (t & (Ht & Ho) & ->). exists t. split; [by apply Hin|done].
  - intros name t. unfold get_hosted_tool, registry_get, offered. rewrite <-hosted_tool_lookup_spec.
    destruct (tr_tools r !! name) as [t'|]; [|by split; [|intros [? _]]].
    destruct (hosted_tool_lookup t' allowed) as [[]|] eqn:E; (split; [try done; by intros [= <-]|]);
      intros [[= <-] H]; congruence.
  - apply StronglySorted_merge_sort; apply _.
  - unfold catalogue, hosted_tool_definitions. rewrite merge_sort_Permutation. by apply omap_NoDup_names.
  - unfold catalogue, hosted_tool_definitions. symmetry. apply sort_by_name_unique; [|by apply omap_NoDup_names].
    by rewrite Hvals'.
Qed.
End Runs.

(** ** Names that are not protected *)

(** A built-in tool whose name is not on the list can be replaced at run time.  The reader of skill files is such
    a tool, and what replaces it counts as a read-only tool for the skills a user has installed. *)
Lemma skill_reader_replaceable {X : RegexEngine} {J : SerdeJson} {D : RustDecimal} {W A : Type} `{!Tool W A} (builtin t : A)
    (r : ToolRegistry A) (skill : LoadedSkill) (Hr : registry_ok (W := W) r) :
  tool_name (W := W) builtin = "skill_read_file" → tool_name (W := W) t = "skill_read_file" →
  ls_trust skill = Installed →
  let r' := (register (W := W) t (register_sync (W := W) builtin r)).1 in
  tr_tools r' !! "skill_read_file" = Some t ∧
  definition_of (W := W) t ∈ at_tools (attenuate_tools (registry_tool_definitions (W := W) (map_to_list (tr_tools r')).*2) [skill]).
Proof.
  intros Hb Ht Htrust. set (r' := (register _ _).1).
  assert (tr_tools r' !! "skill_read_file" = Some t) as E.
  { assert (is_protected_tool_name "skill_read_file" = false) as Hp by by vm_compute.
    unfold r', register, register_sync. rewrite Ht, Hb, Hp. rewrite bool_decide_false.
    - cbn [fst with_registry_tools tr_tools]. by rewrite lookup_insert_eq.
    - intros Hin. apply (proj2 Hr) in Hin. congruence. }
  split; [done|]. destruct (attenuate_tools_spec (registry_tool_definitions (W := W) (map_to_list (tr_tools r')).*2) [skill])
    as [-> _].
  assert (definition_of (W := W) t ∈ registry_tool_definitions (W := W) (map_to_list (tr_tools r')).*2) as Hin.
  { unfold registry_tool_definitions. rewrite merge_sort_Permutation. apply list_elem_of_fmap. exists t. split; [done|].
    apply list_elem_of_fmap. exists ("skill_read_file", t). split; [done|]. by apply elem_of_map_to_list. }
  case_decide; [|done]. apply list_elem_of_filter. split; [|done]. simpl. rewrite Ht. set_solver.
Qed.

(** ** An example *)

(** A tool as its name and the family it comes from. *)
Abbreviation NamedTool := (string * option HostedToolCatalogSource)%type.

#[export] Instance named_tool {J : SerdeJson} {D : RustDecimal} : Tool unit NamedTool := {|
  tool_name := fst; tool_description := λ _, "a tool"; parameters_schema := λ _, json_empty;
  requires_approval := λ _ _, ApprovalNever; execution_timeout := λ _, secs 60; sensitive_params := λ _, [];
  rate_limit_config := λ _, None;
  tool_execute := λ t _ _ w, (w, Some (Ok (output_text t.1 0))) |}.

#[export] Instance named_hosted : HostedTool NamedTool := {|
  tool_domain := λ _, DomainOrchestrator; hosted_tool_eligibility := λ _, Eligible;
  hosted_tool_catalog_source := snd |}.

Definition example_registry_ops : list (ToolRegistryOp NamedTool) := [
  TrStartup ("shell", None); TrRegister ("shell", Some SourceMcp); TrWasm "weather" ("weather", Some SourceWasm) [];
  TrRegister ("notes_search", Some SourceMcp); TrStartup ("echo", None)].

Lemma protected_tools_kept_witness :
  let J := json_lite in let D := dec_cents in
  let r := register_sync (W := unit) ("shell", None) tool_registry_new in
  tr_tools (run_registry_ops (W := unit) r [TrRegister ("shell", Some SourceMcp); TrWasm "shell" ("shell", Some SourceWasm) []])
    !! "shell" = tr_tools r !! "shell".
Proof.
  intros J D r. apply (protected_tools_kept (W := unit) r
    [TrRegister ("shell", Some SourceMcp); TrWasm "shell" ("shell", Some SourceWasm) []] "shell").
  - by repeat constructor.
  - done.
  - intros H. repeat (apply Exists_cons in H as [[]|H]). by apply Exists_nil in H.
Defined.

Lemma hosted_catalogue_exact_witness :
  let J := json_lite in let D := dec_cents in
  let r := run_registry_ops (W := unit) tool_registry_new example_registry_ops in
  let vals := (map_to_list (tr_tools r)).*2 in
  td_name <$> hosted_tool_definitions (W := unit) vals [SourceMcp; SourceWasm] = ["notes_search"; "weather"] ∧
  NoDup (td_name <$> hosted_tool_definitions (W := unit) vals [SourceMcp; SourceWasm]).
Proof.
  intros J D r vals. split; [by vm_compute|].
  apply (hosted_catalogue_exact (W := unit) example_registry_ops vals vals [SourceMcp; SourceWasm]); [|done|done].
  by repeat constructor.
Defined.
