(* ===== verification/OrchestratorApi.v ===== *)
(** * The workers' API

    Models [src/src/orchestrator/api.rs], [api/handlers.rs], [api/handler_support.rs],
    [api/remote_tools.rs], the middleware of [auth.rs], and the routes and payloads that the
    worker shares with it in [src/src/worker/api/types.rs], [proxy_types.rs],
    [remote_tool_types.rs] and the requests of the client in [worker/api.rs] and
    [api/client_methods.rs].

    A request is its method, path, authorization header and body; the decoding of bodies is a
    parameter, as are the percent-decoding of a path segment, the hash of a catalogue, the model
    provider, the tools and the secrets store.  The router compares paths segment by segment, as
    axum does, and the middleware runs before the handler of every worker route. *)

From stdpp Require Import sorting.
From S2P Require Import Prelude Text Externals LlmTypes JobState JobManager Allowlist SandboxProxy ToolExec Skills.
From S2P Require Import Failover Paths Sandbox Credentials Orchestrator Registry.

(** ** Routes *)

Definition REMOTE_TOOL_CATALOG_PATH : string := "tools/catalog".
Definition REMOTE_TOOL_EXECUTE_PATH : string := "tools/execute".
Definition JOB_PATH : string := "job".
Definition CREDENTIALS_PATH : string := "credentials".
Definition STATUS_PATH : string := "status".
Definition COMPLETE_PATH : string := "complete".
Definition EVENT_PATH : string := "event".
Definition PROMPT_PATH : string := "prompt".
Definition LLM_COMPLETE_PATH : string := "llm/complete".
Definition LLM_COMPLETE_WITH_TOOLS_PATH : string := "llm/complete_with_tools".
Definition WORKER_HEALTH_PATH : string := "health".

Inductive Route :=
| RtJob | RtLlmComplete | RtLlmCompleteWithTools | RtRemoteToolCatalog | RtRemoteToolExecute | RtStatus | RtComplete
| RtEvent | RtPrompt | RtCredentials.

#[export] Instance route_eq_dec : EqDecision Route.
Proof. solve_decision. Defined.

Inductive Method := GET | POST.

#[export] Instance method_eq_dec : EqDecision Method.
Proof. solve_decision. Defined.

(** The worker routes of the router, in order: the method, the path behind [/worker/{job_id}/] and the
    handler. *)
Definition worker_routes : list (Method * string * Route) := [
  (GET, JOB_PATH, RtJob); (POST, LLM_COMPLETE_PATH, RtLlmComplete);
  (POST, LLM_COMPLETE_WITH_TOOLS_PATH, RtLlmCompleteWithTools); (GET, REMOTE_TOOL_CATALOG_PATH, RtRemoteToolCatalog);
  (POST, REMOTE_TOOL_EXECUTE_PATH, RtRemoteToolExecute); (POST, STATUS_PATH, RtStatus); (POST, COMPLETE_PATH, RtComplete);
  (POST, EVENT_PATH, RtEvent); (GET, PROMPT_PATH, RtPrompt); (GET, CREDENTIALS_PATH, RtCredentials)].

Definition route_method (r : Route) : Method :=
  match r with RtJob | RtRemoteToolCatalog | RtPrompt | RtCredentials => GET | _ => POST end.

Definition route_path (r : Route) : string :=
  match r with
  | RtJob => JOB_PATH | RtLlmComplete => LLM_COMPLETE_PATH | RtLlmCompleteWithTools => LLM_COMPLETE_WITH_TOOLS_PATH
  | RtRemoteToolCatalog => REMOTE_TOOL_CATALOG_PATH | RtRemoteToolExecute => REMOTE_TOOL_EXECUTE_PATH
  | RtStatus => STATUS_PATH | RtComplete => COMPLETE_PATH | RtEvent => EVENT_PATH | RtPrompt => PROMPT_PATH
  | RtCredentials => CREDENTIALS_PATH
  end.

(** [WORKER_PREFIX.replace("{job_id}", job_id) + relative] *)
Definition job_scoped_path (job relative : string) : string := "/worker/" +:+ job +:+ "/" +:+ relative.

(** [s.trim_start_matches('/')] and [s.trim_end_matches('/')] *)
Fixpoint trim_start_slashes (s : string) : string :=
  match s with
  | String c s' => if bool_decide (c = slash) then trim_start_slashes s' else s
  | EmptyString => EmptyString
  end.

Fixpoint trim_end_slashes (s : string) : string :=
  match s with
  | EmptyString => EmptyString
  | String c s' =>
      let t := trim_end_slashes s' in
      if bool_decide (t = EmptyString) && bool_decide (c = slash) then EmptyString else String c t
  end.

Definition worker_job_url (orchestrator_url job path : string) : string :=
  let base := trim_end_slashes orchestrator_url in
  let scoped := trim_end_slashes (trim_start_slashes (job_scoped_path job "")) in
  base +:+ "/" +:+ scoped +:+ "/" +:+ trim_start_slashes path.

(** ** Payloads *)

Inductive WorkerState := WsInProgress | WsRunning | WsCompleted | WsFailed | WsUnknown.

Definition worker_state_as_wire (s : WorkerState) : string :=
  match s with
  | WsInProgress => "in_progress" | WsRunning => "running" | WsCompleted => "completed" | WsFailed => "failed"
  | WsUnknown => "unknown"
  end.

Inductive JobEventType := EvStatus | EvMessage | EvToolUse | EvToolResult | EvResult | EvUnknown.

Definition job_event_as_wire (e : JobEventType) : string :=
  match e with
  | EvStatus => "status" | EvMessage => "message" | EvToolUse => "tool_use" | EvToolResult => "tool_result"
  | EvResult => "result" | EvUnknown => "unknown"
  end.

Record StatusUpdate := { su_state : WorkerState; su_message : option string; su_iteration : Z }.
Record CompletionReport := { rep_success : bool; rep_message : option string; rep_iterations : Z }.
Record JobDescription := { jd_title : string; jd_description : string; jd_project_dir : option string }.
Record PendingPrompt := { pp_content : string; pp_done : bool }.
Record CredentialResponse := { cred_env_var : string; cred_value : string }.

Inductive ProxyFinishReason := PfStop | PfLength | PfToolUse | PfContentFilter | PfUnknown.

Definition proxy_finish_from (r : FinishReason) : ProxyFinishReason :=
  match r with
  | Stop => PfStop | Length => PfLength | ToolUse => PfToolUse | ContentFilter => PfContentFilter
  | UnknownReason => PfUnknown
  end.
Definition finish_from_proxy (r : ProxyFinishReason) : FinishReason :=
  match r with
  | PfStop => Stop | PfLength => Length | PfToolUse => ToolUse | PfContentFilter => ContentFilter
  | PfUnknown => UnknownReason
  end.

Section Payloads.
Context {J : SerdeJson}.

Record ProxyCompletionRequest := {
  pc_messages : list ChatMessage;
  pc_model : option string;
  pc_max_tokens : option Z;
  pc_temperature : option Z;
  pc_stop_sequences : option (list string);
}.

Record ProxyToolCompletionRequest := {
  pt_messages : list ChatMessage;
  pt_tools : list ToolDefinition;
  pt_model : option string;
  pt_max_tokens : option Z;
  pt_temperature : option Z;
  pt_tool_choice : option string;
}.

Record ProxyCompletionResponse := {
  pcr_content : string;
  pcr_input_tokens : Z;
  pcr_output_tokens : Z;
  pcr_finish_reason : ProxyFinishReason;
  pcr_cache_read : Z;
  pcr_cache_creation : Z;
}.

Record ProxyToolCompletionResponse := {
  ptr_content : option string;
  ptr_tool_calls : list ToolCall;
  ptr_input_tokens : Z;
  ptr_output_tokens : Z;
  ptr_finish_reason : ProxyFinishReason;
  ptr_cache_read : Z;
  ptr_cache_creation : Z;
}.

(** A decoded request on a worker route. *)
Inductive ApiCall :=
| AcJob
| AcComplete (req : ProxyCompletionRequest)
| AcCompleteWithTools (req : ProxyToolCompletionRequest)
| AcCatalog
| AcExecute (tool_name : string) (params : json)
| AcStatus (update : StatusUpdate)
| AcReport (report : CompletionReport)
| AcEvent (event_type : JobEventType) (data : json)
| AcPrompt
| AcCredentials.

(** The events the web gateway streams. *)
Inductive ApiSse :=
| ApiJobMessage (job role content : string)
| ApiJobToolUse (job tool_name : string) (input : json)
| ApiJobToolResult (job tool_name output : string)
| ApiJobStatus (job message : string)
| ApiJobResult (job status : string) (session_id : option string).
End Payloads.

(** ** State *)

(** What the credentials handler uses of a secrets store besides the values: the id of a secret, and the
    counting of its uses. *)
Class SecretUsage (S : Type) := {
  secret_id : S → string → string → result Uuid SecretError;
  record_usage : S → Uuid → S * result unit SecretError;
}.

Record ApiState (Conn P W S A : Type) {J : SerdeJson} := {
  api_orch : Orch Conn;
  api_prompts : gmap Uuid (list PendingPrompt);
  api_llm : P;
  api_clock : Instant;
  api_world : W;
  (** events sent to the gateway, and events given to the database *)
  api_sent : list (Uuid * ApiSse);
  api_saved : list (Uuid * string * json);
  api_secrets : option S;
}.
Arguments api_orch {Conn P W S A J} a.
Arguments api_prompts {Conn P W S A J} a.
Arguments api_llm {Conn P W S A J} a.
Arguments api_clock {Conn P W S A J} a.
Arguments api_world {Conn P W S A J} a.
Arguments api_sent {Conn P W S A J} a.
Arguments api_saved {Conn P W S A J} a.
Arguments api_secrets {Conn P W S A J} a.

(** The answers: a status alone, or 200 with a body. *)
Inductive Reply {J : SerdeJson} {D : RustDecimal} :=
| RpStatus (code : Z)
| RpJob (d : JobDescription)
| RpCompletion (r : ProxyCompletionResponse)
| RpToolCompletion (r : ProxyToolCompletionResponse)
| RpCatalog (tools : list ToolDefinition) (instructions : list string) (version : Z)
| RpToolOutput (output : ToolOutput)
| RpDone
| RpPrompt (p : PendingPrompt)
| RpCredentials (l : list CredentialResponse)
| RpHealth
(** answered by axum without a handler: no route, or a path or body that is not understood *)
| RpFramework.

Definition OK_STATUS : Z := 200.
Definition NO_CONTENT : Z := 204.
Definition BAD_REQUEST : Z := 400.
Definition UNAUTHORIZED : Z := 401.
Definition FORBIDDEN : Z := 403.
Definition NOT_FOUND : Z := 404.
Definition TOO_MANY_REQUESTS : Z := 429.
Definition INTERNAL_SERVER_ERROR : Z := 500.
Definition BAD_GATEWAY : Z := 502.
Definition SERVICE_UNAVAILABLE : Z := 503.

Section Api.
Context {J : SerdeJson} {D : RustDecimal} {T : UuidText} {V : UtcText}.
Context {Conn P W S A : Type} `{!LlmProvider P} `{!Tool W A} `{!HostedTool A} `{!SecretsStore S} `{!SecretUsage S}.
Variable h : Host Conn.
(** the registry, and its tools in the order in which the map yields them *)
Variable tools : ToolRegistry A.
Variable vals : list A.
(** whether there are a channel to the gateway and a database *)
Variables has_tx has_store : bool.
Variable user_id : string.
Variable now : Utc.
(** the JSON text of a catalogue, and [DefaultHasher] *)
Variable catalog_text : list ToolDefinition → list string → string.
Variable default_hash : string → Z.
(** axum's decoding of a path segment, and of a body for a handler *)
Variable percent_decode : string → option string.
Variable decode_body : Route → string → option ApiCall.

Abbreviation St := (ApiState Conn P W S A).

Definition with_orch (o : Orch Conn) (s : St) : St := {|
  api_orch := o; api_prompts := api_prompts s; api_llm := api_llm s; api_clock := api_clock s;
  api_world := api_world s; api_sent := api_sent s; api_saved := api_saved s; api_secrets := api_secrets s |}.
Definition with_prompts (p : gmap Uuid (list PendingPrompt)) (s : St) : St := {|
  api_orch := api_orch s; api_prompts := p; api_llm := api_llm s; api_clock := api_clock s;
  api_world := api_world s; api_sent := api_sent s; api_saved := api_saved s; api_secrets := api_secrets s |}.
Definition with_llm (p : P) (t : Instant) (s : St) : St := {|
  api_orch := api_orch s; api_prompts := api_prompts s; api_llm := p; api_clock := t;
  api_world := api_world s; api_sent := api_sent s; api_saved := api_saved s; api_secrets := api_secrets s |}.
Definition with_world (w : W) (s : St) : St := {|
  api_orch := api_orch s; api_prompts := api_prompts s; api_llm := api_llm s; api_clock := api_clock s;
  api_world := w; api_sent := api_sent s; api_saved := api_saved s; api_secrets := api_secrets s |}.
Definition with_events (sent : list (Uuid * ApiSse)) (saved : list (Uuid * string * json)) (s : St) : St := {|
  api_orch := api_orch s; api_prompts := api_prompts s; api_llm := api_llm s; api_clock := api_clock s;
  api_world := api_world s; api_sent := sent; api_saved := saved; api_secrets := api_secrets s |}.
Definition with_secrets (x : S) (s : St) : St := {|
  api_orch := api_orch s; api_prompts := api_prompts s; api_llm := api_llm s; api_clock := api_clock s;
  api_world := api_world s; api_sent := api_sent s; api_saved := api_saved s; api_secrets := Some x |}.

(** ** Handlers *)

Definition get_job (job : Uuid) (s : St) : St * Reply :=
  (s, match or_registry (api_orch s) !! job with
      | None => RpStatus NOT_FOUND
      | Some handle => RpJob {| jd_title := "Job " +:+ uuid_to_string job; jd_description := ch_task_description handle;
                                jd_project_dir := path_text <$> ch_project_dir handle |}
      end).

Definition proxied_request (req : ProxyCompletionRequest) : CompletionRequest := {|
  req_messages := pc_messages req; req_stop_sequences := pc_stop_sequences req; req_model := pc_model req;
  req_max_tokens := pc_max_tokens req; req_temperature := pc_temperature req; req_metadata := ∅ |}.

Definition proxied_response (r : CompletionResponse) : ProxyCompletionResponse := {|
  pcr_content := resp_content r; pcr_input_tokens := resp_input_tokens r; pcr_output_tokens := resp_output_tokens r;
  pcr_finish_reason := proxy_finish_from (resp_finish_reason r); pcr_cache_read := resp_cache_read_input_tokens r;
  pcr_cache_creation := resp_cache_creation_input_tokens r |}.

Definition llm_complete (req : ProxyCompletionRequest) (s : St) : St * Reply :=
  let '(p, t, r) := complete (api_llm s) (api_clock s) (proxied_request req) in
  (with_llm p t s, match r with Ok resp => RpCompletion (proxied_response resp) | Err _ => RpStatus BAD_GATEWAY end).

Definition proxied_tool_request (req : ProxyToolCompletionRequest) : ToolCompletionRequest := {|
  treq_messages := pt_messages req; treq_tools := pt_tools req; treq_tool_choice := pt_tool_choice req;
  treq_model := pt_model req; treq_max_tokens := pt_max_tokens req; treq_temperature := pt_temperature req;
  treq_metadata := ∅ |}.

Definition proxied_tool_response (r : ToolCompletionResponse) : ProxyToolCompletionResponse := {|
  ptr_content := tresp_content r; ptr_tool_calls := tresp_tool_calls r; ptr_input_tokens := tresp_input_tokens r;
  ptr_output_tokens := tresp_output_tokens r; ptr_finish_reason := proxy_finish_from (tresp_finish_reason r);
  ptr_cache_read := tresp_cache_read_input_tokens r; ptr_cache_creation := tresp_cache_creation_input_tokens r |}.

Definition llm_complete_with_tools (req : ProxyToolCompletionRequest) (s : St) : St * Reply :=
  let '(p, t, r) := complete_with_tools (api_llm s) (api_clock s) (proxied_tool_request req) in
  (with_llm p t s,
   match r with Ok resp => RpToolCompletion (proxied_tool_response resp) | Err _ => RpStatus BAD_GATEWAY end).

(** *** Remote tools *)

Definition HOSTED_REMOTE_TOOL_SOURCES : list HostedToolCatalogSource := [SourceMcp; SourceWasm].

Definition compute_catalog_version (defs : list ToolDefinition) (instructions : list string) : Z :=
  default_hash (catalog_text defs instructions).

Definition get_remote_tool_catalog (s : St) : St * Reply :=
  let hosted := hosted_tool_definitions (W := W) vals HOSTED_REMOTE_TOOL_SOURCES in
  let hosted := merge_sort by_name hosted in
  (s, RpCatalog hosted [] (compute_catalog_version hosted [])).

Definition resolve_hosted_tool (name : string) : result A Z :=
  match get_hosted_tool (W := W) name HOSTED_REMOTE_TOOL_SOURCES tools with
  | Ok t => Ok t
  | Err LookupNotFound => Err NOT_FOUND
  | Err LookupApprovalGated => Err FORBIDDEN
  | Err LookupIneligible => Err BAD_REQUEST
  end.

Definition tool_error_status (e : ToolFailure) : Z :=
  match e with
  | TfInvalidParameters _ => BAD_REQUEST
  | TfNotAuthorized _ => FORBIDDEN
  | TfRateLimited _ => TOO_MANY_REQUESTS
  | _ => BAD_GATEWAY
  end.

(** The context a remote call runs in. *)
Definition remote_context (job : Uuid) (name : string) : JobContext :=
  with_user job now user_id "Hosted remote tool" ("Hosted execution of " +:+ name).

(** A call that never ends has no answer: [tool_execute] says so with [None]; there is no timeout around it. *)
Definition execute_hosted_remote_tool (job : Uuid) (name : string) (params : json) (w : W) :
    W * option (result ToolOutput Z) :=
  match resolve_hosted_tool name with
  | Err code => (w, Some (Err code))
  | Ok t =>
      if is_required (requires_approval (W := W) t params) then (w, Some (Err FORBIDDEN))
      else
        let '(w, r) := tool_execute t params (remote_context job name) w in
        (w, match r with
            | Some (Ok out) => Some (Ok out)
            | Some (Err e) => Some (Err (tool_error_status e))
            | None => None
            end)
  end.

Definition execute_remote_tool (job : Uuid) (name : string) (params : json) (s : St) : St * option Reply :=
  let '(w, r) := execute_hosted_remote_tool job name params (api_world s) in
  (with_world w s, match r with
                   | Some (Ok out) => Some (RpToolOutput out)
                   | Some (Err code) => Some (RpStatus code)
                   | None => None
                   end).

(** *** Reports *)

Definition report_status (job : Uuid) (u : StatusUpdate) (s : St) : St * Reply :=
  (with_orch (update_worker_status job (su_message u) (su_iteration u) (api_orch s)).1 s, RpStatus OK_STATUS).

Definition report_complete (job : Uuid) (r : CompletionReport) (s : St) : St * Reply :=
  let res := {| cr_success := rep_success r; cr_message := rep_message r |} in
  (with_orch (complete_container_job h job res (api_orch s)).1 s, RpDone).

(** [payload.data.get(key).and_then(as_str).unwrap_or(other)] *)
Definition data_str (data : json) (key other : string) : string :=
  default other (json_get data key ≫= json_as_string).

Definition sse_event (job : Uuid) (e : JobEventType) (data : json) : ApiSse :=
  let id := uuid_to_string job in
  match e with
  | EvMessage => ApiJobMessage id (data_str data "role" "assistant") (data_str data "content" "")
  | EvToolUse => ApiJobToolUse id (data_str data "tool_name" "unknown") (default JNull (json_get data "input"))
  | EvToolResult => ApiJobToolResult id (data_str data "tool_name" "unknown") (data_str data "output" "")
  | EvResult => ApiJobResult id (data_str data "status" "unknown") (json_get data "session_id" ≫= json_as_string)
  | EvStatus | EvUnknown => ApiJobStatus id (data_str data "message" "")
  end.

Definition job_event_handler (job : Uuid) (e : JobEventType) (data : json) (s : St) : St * Reply :=
  let saved := if has_store then api_saved s ++ [(job, job_event_as_wire e, data)] else api_saved s in
  let sent := if has_tx then api_sent s ++ [(job, sse_event job e data)] else api_sent s in
  (with_events sent saved s, RpStatus OK_STATUS).

(** *** Prompts and credentials *)

Definition get_prompt_handler (job : Uuid) (s : St) : St * Reply :=
  match api_prompts s !! job with
  | Some (prompt :: prompts) =>
      (with_prompts (match prompts with
                     | [] => delete job (api_prompts s)
                     | _ => <[job := prompts]> (api_prompts s)
                     end) s, RpPrompt prompt)
  | _ => (s, RpStatus NO_CONTENT)
  end.

(** The loop over the grants. *)
Fixpoint serve_credentials (x : S) (grants : list CredentialGrant) (credentials : list CredentialResponse) :
    S * result (list CredentialResponse) Z :=
  match grants with
  | [] => (x, Ok credentials)
  | grant :: grants =>
      match get_decrypted x user_id (grant_secret grant) with
      | Err _ => (x, Err INTERNAL_SERVER_ERROR)
      | Ok decrypted =>
          let x := match secret_id x user_id (grant_secret grant) with
                   | Ok id => (record_usage x id).1
                   | Err _ => x
                   end in
          serve_credentials x grants
            (credentials ++ [{| cred_env_var := grant_env_var grant; cred_value := decrypted |}])
      end
  end.

Definition get_credentials_handler (job : Uuid) (s : St) : St * Reply :=
  match get_grants (or_tokens (api_orch s)) job with
  | Some (grant :: rest) =>
      match api_secrets s with
      | None => (s, RpStatus SERVICE_UNAVAILABLE)
      | Some x =>
          let '(x, r) := serve_credentials x (grant :: rest) [] in
          (with_secrets x s, match r with Ok l => RpCredentials l | Err code => RpStatus code end)
      end
  | _ => (s, RpStatus NO_CONTENT)
  end.

(** The handler of a decoded request. *)
Definition handle (job : Uuid) (c : ApiCall) (s : St) : St * option Reply :=
  let answer (x : St * Reply) := (x.1, Some x.2) in
  match c with
  | AcJob => answer (get_job job s)
  | AcComplete req => answer (llm_complete req s)
  | AcCompleteWithTools req => answer (llm_complete_with_tools req s)
  | AcCatalog => answer (get_remote_tool_catalog s)
  | AcExecute name params => execute_remote_tool job name params s
  | AcStatus u => answer (report_status job u s)
  | AcReport r => answer (report_complete job r s)
  | AcEvent e data => answer (job_event_handler job e data s)
  | AcPrompt => answer (get_prompt_handler job s)
  | AcCredentials => answer (get_credentials_handler job s)
  end.

(** ** Requests *)

Record Request := {
  rq_method : Method;
  rq_path : string;
  rq_authorization : option string;
  rq_body : string;
}.

Definition extract_job_id_from_path (path : string) : option Uuid :=
  match split_on slash (trim_start_slashes path) with
  | first :: id :: _ => if bool_decide (first = "worker") then uuid_parse_str id else None
  | _ => None
  end.

(** [worker_auth_middleware]: the status it answers, or the job it lets the request through for. *)
Definition worker_auth (s : St) (rq : Request) : result Uuid Z :=
  match extract_job_id_from_path (rq_path rq) with
  | None => Err BAD_REQUEST
  | Some job =>
      match rq_authorization rq ≫= λ v, strip_prefix v "Bearer " with
      | None => Err UNAUTHORIZED
      | Some token => if validate (or_tokens (api_orch s)) job token then Ok job else Err UNAUTHORIZED
      end
  end.

(** The route of a path under [/worker/], with the segment in the place of the job id. *)
Definition match_route (m : Method) (path : string) : option (Route * string) :=
  match split_on slash path with
  | first :: worker :: id :: rest =>
      if bool_decide (first = "" ∧ worker = "worker" ∧ id ≠ "") then
        match list_find (λ r, r.1.1 = m ∧ r.1.2 = join "/" rest) worker_routes with
        | Some (_, r) => Some (r.2, id)
        | None => None
        end
      else None
  | _ => None
  end.

(** A request through the router: the middleware, the extractors of the handler, the handler. *)
Definition serve (rq : Request) (s : St) : St * option Reply :=
  if bool_decide (rq_method rq = GET ∧ rq_path rq = "/" +:+ WORKER_HEALTH_PATH) then (s, Some RpHealth)
  else
    match match_route (rq_method rq) (rq_path rq) with
    | None => (s, Some RpFramework)
    | Some (route, segment) =>
        match worker_auth s rq with
        | Err code => (s, Some (RpStatus code))
        | Ok _ =>
            match percent_decode segment ≫= uuid_parse_str, decode_body route (rq_body rq) with
            | Some job, Some c => handle job c s
            | _, _ => (s, Some RpFramework)
            end
        end
    end.

(** ** The client *)

Record WorkerHttpClient := { hc_orchestrator_url : string; hc_job_id : Uuid; hc_token : string }.

Definition client_new (url : string) (job : Uuid) (token : string) : WorkerHttpClient := {|
  hc_orchestrator_url := trim_end_slashes url; hc_job_id := job; hc_token := token |}.

Definition client_url (c : WorkerHttpClient) (path : string) : string :=
  trim_end_slashes (hc_orchestrator_url c) +:+ "/" +:+
  trim_start_slashes (job_scoped_path (uuid_to_string (hc_job_id c)) path).

(** The request of the client for a route, at the server: the url behind the server's address, and
    [bearer_auth]. *)
Definition client_request (c : WorkerHttpClient) (r : Route) (body : string) : Request := {|
  rq_method := route_method r;
  rq_path := str_drop (String.length (trim_end_slashes (hc_orchestrator_url c))) (client_url c (route_path r));
  rq_authorization := Some ("Bearer " +:+ hc_token c); rq_body := body |}.

Definition client_completion (req : CompletionRequest) : ProxyCompletionRequest := {|
  pc_messages := req_messages req; pc_model := req_model req; pc_max_tokens := req_max_tokens req;
  pc_temperature := req_temperature req; pc_stop_sequences := req_stop_sequences req |}.

Definition client_completion_response (r : ProxyCompletionResponse) : CompletionResponse := {|
  resp_content := pcr_content r; resp_input_tokens := pcr_input_tokens r; resp_output_tokens := pcr_output_tokens r;
  resp_finish_reason := finish_from_proxy (pcr_finish_reason r); resp_cache_read_input_tokens := pcr_cache_read r;
  resp_cache_creation_input_tokens := pcr_cache_creation r |}.

Definition client_tool_completion (req : ToolCompletionRequest) : ProxyToolCompletionRequest := {|
  pt_messages := treq_messages req; pt_tools := treq_tools req; pt_model := treq_model req;
  pt_max_tokens := treq_max_tokens req; pt_temperature := treq_temperature req; pt_tool_choice := treq_tool_choice req |}.

Definition client_tool_completion_response (r : ProxyToolCompletionResponse) : ToolCompletionResponse := {|
  tresp_content := ptr_content r; tresp_tool_calls := ptr_tool_calls r; tresp_input_tokens := ptr_input_tokens r;
  tresp_output_tokens := ptr_output_tokens r; tresp_finish_reason := finish_from_proxy (ptr_finish_reason r);
  tresp_cache_read_input_tokens := ptr_cache_read r; tresp_cache_creation_input_tokens := ptr_cache_creation r |}.
End Api.

(** ** Paths *)

Lemma split_on_nonempty c s : split_on c s ≠ [].
Proof. destruct s; simpl; [done|]. case_bool_decide; [done|]. by destruct (split_on c s). Qed.

Lemma split_on_head_empty c s l :
  split_on c s = "" :: l → l ≠ [] → ∃ s', s = String c s' ∧ split_on c s' = l.
Proof.
  destruct s as [|d s]; simpl; [intros [= <-]; done|]. case_bool_decide as E.
  - subst. intros [= <-] _. by eexists.
  - destruct (split_on c s) as [|x l'] eqn:Es; [by apply split_on_nonempty in Es|]. done.
Qed.

Lemma split_on_head_char c s d x l :
  split_on c s = String d x :: l → d ≠ c ∧ ∃ s', s = String d s'.
Proof.
  destruct s as [|e s]; simpl; [done|]. case_bool_decide as E; [done|].
  destruct (split_on c s) as [|y l'] eqn:Es; intros [= -> _ _]; split; eauto.
Qed.

Lemma list_find_in {X} (Q : X → Prop) `{∀ x, Decision (Q x)} (l : list X) i x :
  list_find Q l = Some (i, x) → x ∈ l ∧ Q x.
Proof. intros (Hi & HQ & _)%list_find_Some. split; [|done]. by eapply list_elem_of_lookup_2. Qed.

Section Routing.
Context {T : UuidText}.

(** The middleware reads the same segment of the path as the handler. *)
Lemma match_route_extract m path route segment :
  match_route m path = Some (route, segment) →
  extract_job_id_from_path path = uuid_parse_str segment.
Proof.
  unfold match_route, extract_job_id_from_path.
  destruct (split_on slash path) as [|first [|worker [|id rest]]] eqn:E; try done.
  case_bool_decide as H; [|done]. destruct H as (-> & -> & Hid).
  destruct (list_find _ _) as [[i r]|]; intros [= <- <-].
  apply split_on_head_empty in E as (s' & -> & E); [|done].
  assert (trim_start_slashes (String slash s') = s') as ->.
  { apply split_on_head_char in E as [Hd [s'' ->]]. reflexivity. }
  by rewrite E.
Qed.

Lemma uuid_no_slash u : has_char slash (uuid_to_string u) = false.
Proof.
  destruct (uuid_to_string_chars u) as [H _]. induction (uuid_to_string u) as [|c s IH]; [done|].
  simpl in *. apply andb_true_iff in H as [Hc H]. rewrite IH by done. rewrite orb_false_r.
  apply bool_decide_eq_false. intros ->. by vm_compute in Hc.
Qed.

Lemma match_route_scoped job route :
  match_route (route_method route) (job_scoped_path (uuid_to_string job) (route_path route)) =
  Some (route, uuid_to_string job).
Proof.
  unfold match_route, job_scoped_path.
  change ("/worker/" +:+ ?x) with ("" +:+ String slash ("worker" +:+ String slash x)).
  rewrite split_on_plain by done. rewrite split_on_plain by done.
  change ("/" +:+ ?x) with (String slash x). rewrite split_on_plain by apply uuid_no_slash.
  rewrite bool_decide_true by (split_and!; [done|done|apply uuid_to_string_chars]).
  by destruct route; vm_compute.
Qed.
End Routing.

(** ** Properties *)

Definition percent : Ascii.ascii := byte 37.

Section Properties.
Context {J : SerdeJson} {D : RustDecimal} {T : UuidText} {V : UtcText}.
Context {Conn P W S A : Type} `{!LlmProvider P} `{!Tool W A} `{!HostedTool A} `{!SecretsStore S} `{!SecretUsage S}.
Variable h : Host Conn.
Variable tools : ToolRegistry A.
Variable vals : list A.
Variables has_tx has_store : bool.
Variable user_id : string.
Variable now : Utc.
Variable catalog_text : list ToolDefinition → list string → string.
Variable default_hash : string → Z.
Variable percent_decode : string → option string.
Variable decode_body : Route → string → option ApiCall.

Abbreviation St := (ApiState Conn P W S A).
Abbreviation serve := (serve (A := A) h tools vals has_tx has_store user_id now catalog_text default_hash
  percent_decode decode_body).
Abbreviation handle := (handle (A := A) h tools vals has_tx has_store user_id now catalog_text default_hash).

(** The text of an identifier has no percent sign, and decoding leaves such text alone. *)
Hypothesis uuid_no_percent : ∀ segment u, uuid_parse_str segment = Some u → has_char percent segment = false.
Hypothesis decode_plain : ∀ segment, has_char percent segment = false → percent_decode segment = Some segment.

(** An answer that says nothing about any job. *)
Definition refusal (r : option Reply) : Prop :=
  r = Some RpHealth ∨ r = Some RpFramework ∨ r = Some (RpStatus BAD_REQUEST) ∨ r = Some (RpStatus UNAUTHORIZED).

Lemma worker_auth_ok (s : St) rq job :
  worker_auth s rq = Ok job →
  extract_job_id_from_path (rq_path rq) = Some job ∧
  ∃ token, rq_authorization rq = Some ("Bearer " +:+ token) ∧ tokens (or_tokens (api_orch s)) !! job = Some token.
Proof.
  unfold worker_auth, validate. destruct (extract_job_id_from_path (rq_path rq)) as [j|]; [|done].
  destruct (rq_authorization rq) as [v|]; [|done]. simpl.
  destruct (strip_prefix v "Bearer ") as [token|] eqn:E; [|done]. apply strip_prefix_spec in E as ->.
  destruct (tokens (or_tokens (api_orch s)) !! j) as [stored|] eqn:Et; [|done].
  case_bool_decide as Hs; intros [= <-]. subst stored. split; [done|]. by exists token.
Qed.

Lemma worker_auth_err (s : St) rq code :
  worker_auth s rq = Err code → code = BAD_REQUEST ∨ code = UNAUTHORIZED.
Proof. unfold worker_auth. repeat case_match; naive_solver. Qed.

(** Every request is refused or authenticated. *)
Definition refused_or_served (rq : Request) (s : St) : Prop :=
  (refusal (serve rq s).2 ∧ (serve rq s).1 = s) ∨
  ∃ job token c,
    extract_job_id_from_path (rq_path rq) = Some job ∧
    rq_authorization rq = Some ("Bearer " +:+ token) ∧
    tokens (or_tokens (api_orch s)) !! job = Some token ∧
    serve rq s = handle job c s.

Lemma serve_cases rq s : refused_or_served rq s.
Proof.
  unfold refused_or_served, OrchestratorApi.serve, refusal. case_bool_decide; [left; naive_solver|].
  destruct (match_route (rq_method rq) (rq_path rq)) as [[route segment]|] eqn:Em; [|left; naive_solver].
  destruct (worker_auth s rq) as [job|code] eqn:Ea.
  - apply worker_auth_ok in Ea as (Hx & token & Hh & Ht). pose proof Em as Hs.
    apply match_route_extract in Hs. rewrite Hx in Hs. symmetry in Hs.
    rewrite (decode_plain segment) by by eapply uuid_no_percent. simpl. rewrite Hs.
    destruct (decode_body route (rq_body rq)) as [c|]; [|left; naive_solver].
    right. by exists job, token, c.
  - apply worker_auth_err in Ea as [->| ->]; left; naive_solver.
Qed.

(** Every request for a job that is locked out is refused. *)
Lemma locked_out_refused rq (s : St) job :
  locked_out (or_tokens (api_orch s)) job → extract_job_id_from_path (rq_path rq) = Some job →
  refusal (serve rq s).2 ∧ (serve rq s).1 = s.
Proof.
  intros [Hl _]%locked_out_iff Hx.
  destruct (serve_cases rq s) as [H|(job' & token & c & Hx' & _ & Ht & _)]; [done|].
  congruence.
Qed.

(** A request with the token of its job reaches the handler. *)
Lemma serve_routed rq (s : St) route segment job token c :
  match_route (rq_method rq) (rq_path rq) = Some (route, segment) → uuid_parse_str segment = Some job →
  rq_authorization rq = Some ("Bearer " +:+ token) → validate (or_tokens (api_orch s)) job token = true →
  decode_body route (rq_body rq) = Some c → serve rq s = handle job c s.
Proof.
  intros Hroute Hjob Hauth Htoken Hbody. unfold OrchestratorApi.serve. rewrite bool_decide_false.
  2: { intros [_ E]. by rewrite E in Hroute. }
  rewrite Hroute. unfold worker_auth. rewrite (match_route_extract _ _ _ _ Hroute), Hjob, Hauth. cbn [mbind option_bind].
  assert (strip_prefix ("Bearer " +:+ token) "Bearer " = Some token) as -> by by apply strip_prefix_spec.
  rewrite Htoken, (decode_plain segment) by by eapply uuid_no_percent.
  cbn [mbind option_bind]. by rewrite Hjob, Hbody.
Qed.

(** C25. A worker acts only for the job whose token it holds: every request is refused without effect, or
    it is served by the handler for the job that its path names, and it carried the very token the store has for that
    job; a job that has ended, and has no token, is served nothing.  And a request for one of the routes of a job that carries
    the job's token and a body the route can read is served.  (Assumed of the libraries: the text of an identifier has no
    percent sign, and percent-decoding leaves text without one alone.) *)
Theorem served_with_own_token (rq : Request) (s : St) :
  refused_or_served rq s ∧
  (∀ job, locked_out (or_tokens (api_orch s)) job → extract_job_id_from_path (rq_path rq) = Some job →
    refusal (serve rq s).2 ∧ (serve rq s).1 = s) ∧
  (∀ job token route c, rq_method rq = route_method route →
    rq_path rq = job_scoped_path (uuid_to_string job) (route_path route) →
    rq_authorization rq = Some ("Bearer " +:+ token) → tokens (or_tokens (api_orch s)) !! job = Some token →
    decode_body route (rq_body rq) = Some c → serve rq s = handle job c s).
Proof.
  split; [apply serve_cases|]. split; [intros job; apply locked_out_refused|].
  intros job token route c Hm Hp Ha Ht Hb. eapply serve_routed; [|apply uuid_parse_to_string|done| |done].
  - rewrite Hm, Hp. apply match_route_scoped.
  - unfold validate. by rewrite Ht, bool_decide_true.
Qed.

(** *** Credentials *)

(** Counting a use leaves the values alone. *)
Hypothesis usage_keeps_values : ∀ (x : S) id user name,
  get_decrypted (record_usage x id).1 user name = get_decrypted x user name.

(** The values of the grants, or none if one cannot be read. *)
Fixpoint granted_values (x : S) (grants : list CredentialGrant) : option (list CredentialResponse) :=
  match grants with
  | [] => Some []
  | g :: grants =>
      match get_decrypted x user_id (grant_secret g), granted_values x grants with
      | Ok v, Some l => Some ({| cred_env_var := grant_env_var g; cred_value := v |} :: l)
      | _, _ => None
      end
  end.

Lemma granted_values_ext x x' grants :
  (∀ user name, get_decrypted x' user name = get_decrypted x user name) →
  granted_values x' grants = granted_values x grants.
Proof. intros H. induction grants as [|g grants IH]; simpl; [done|]. by rewrite H, IH. Qed.

Lemma serve_credentials_spec grants x acc :
  (serve_credentials user_id x grants acc).2 =
  match granted_values x grants with Some l => Ok (acc ++ l) | None => Err INTERNAL_SERVER_ERROR end.
Proof.
  revert x acc. induction grants as [|g grants IH]; intros x acc; simpl; [by rewrite app_nil_r|].
  destruct (get_decrypted x user_id (grant_secret g)) as [v|e]; [|done]. rewrite IH.
  rewrite (granted_values_ext x).
  - destruct (granted_values x grants); [|done]. by rewrite <-app_assoc.
  - intros user name. by destruct (secret_id x user_id (grant_secret g)).
Qed.

Definition credentials_reply (s : St) (job : Uuid) : Reply :=
  match get_grants (or_tokens (api_orch s)) job with
  | None | Some [] => RpStatus NO_CONTENT
  | Some grants =>
      match api_secrets s with
      | None => RpStatus SERVICE_UNAVAILABLE
      | Some x =>
          match granted_values x grants with
          | Some l => RpCredentials l
          | None => RpStatus INTERNAL_SERVER_ERROR
          end
      end
  end.

Lemma credentials_exact job (s : St) :
  (get_credentials_handler user_id job s).2 = credentials_reply s job ∧
  api_orch (get_credentials_handler user_id job s).1 = api_orch s.
Proof.
  unfold get_credentials_handler, credentials_reply.
  destruct (get_grants _ job) as [[|g grants]|]; [done| |done].
  destruct (api_secrets s) as [x|]; [|done].
  pose proof (serve_credentials_spec (g :: grants) x []) as H.
  destruct (serve_credentials user_id x (g :: grants) []) as [x' r]. cbn [snd] in *. subst r.
  split; [|done]. cbn [snd]. by destruct (granted_values x (g :: grants)).
Qed.

(** C26. A worker gets exactly the secrets granted to its job: with the job's token, a request for
    credentials is answered with the value of every granted secret under the name it was granted for, in order, or with
    an error and no secret at all when one of them cannot be read; and the tokens and jobs are as before.  The values are
    those of the user the agent runs for.  (Assumed: counting the use of a secret leaves the values alone, the text of an identifier has
    no percent sign, and percent-decoding leaves text without one alone.) *)
Theorem credentials_as_granted (rq : Request) (s : St) (job : Uuid) (token segment : string)
    (Hroute : match_route (rq_method rq) (rq_path rq) = Some (RtCredentials, segment))
    (Hjob : uuid_parse_str segment = Some job)
    (Hauth : rq_authorization rq = Some ("Bearer " +:+ token))
    (Htoken : validate (or_tokens (api_orch s)) job token = true)
    (Hbody : decode_body RtCredentials (rq_body rq) = Some AcCredentials) :
  (serve rq s).2 = Some (credentials_reply s job) ∧ api_orch (serve rq s).1 = api_orch s.
Proof.
  rewrite (serve_routed rq s RtCredentials segment job token AcCredentials) by done.
  cbn [OrchestratorApi.handle fst snd]. destruct (credentials_exact job s) as [-> ->]. done.
Qed.

(** *** Remote tools *)

(** C27. A worker runs a tool of the agent only if it is meant for workers: in a registry as any run of the
    agent leaves it, a call executes the tool registered under the name, once, only if that tool is of one of the two families open to
    workers (MCP and WASM), runs in the agent, is not under a protected name, is not reserved for approval and asks for none
    with these parameters.  Every other call has no effect and is answered with the status that tells why: not found, bad
    request for a tool that is not open to workers, forbidden for one that needs approval. *)
Theorem remote_tool_gate (ops : list (ToolRegistryOp A)) (job : Uuid) (name : string) (params : json) (w : W)
    (Hnamed : Forall (op_named (W := W)) ops)
    (Htools : tools = run_registry_ops (W := W) tool_registry_new ops) :
  let r := execute_hosted_remote_tool (W := W) tools user_id now job name params w in
  match tr_tools tools !! name with
  | None => r = (w, Some (Err NOT_FOUND))
  | Some t =>
      (¬ open_to_workers (W := W) [SourceMcp; SourceWasm] t → r = (w, Some (Err BAD_REQUEST))) ∧
      (open_to_workers (W := W) [SourceMcp; SourceWasm] t →
       tool_name (W := W) t = name ∧
       if bool_decide (hosted_tool_eligibility t = ApprovalGated) || is_required (requires_approval (W := W) t params)
       then r = (w, Some (Err FORBIDDEN))
       else r.1 = (tool_execute t params (remote_context user_id now job name) w).1 ∧
            r.2 = match (tool_execute t params (remote_context user_id now job name) w).2 with
                  | Some (Ok out) => Some (Ok out)
                  | Some (Err e) => Some (Err (tool_error_status e))
                  | None => None
                  end)
  end.
Proof.
  cbv zeta. unfold execute_hosted_remote_tool, resolve_hosted_tool.
  assert (registry_ok (W := W) tools) as [Hok _] by (rewrite Htools; by apply registry_ops_ok, registry_new_ok).
  unfold get_hosted_tool, registry_get. destruct (tr_tools tools !! name) as [t|] eqn:Et; [|done].
  rewrite <-!open_to_workers_spec. pose proof (Hok _ _ Et) as Hn. unfold hosted_tool_lookup.
  change HOSTED_REMOTE_TOOL_SOURCES with [SourceMcp; SourceWasm].
  destruct (is_tool_ineligible_for_hosted_catalogue t _) eqn:Ei; (split; [done|]); [done|]. intros _. split; [done|].
  destruct (hosted_tool_eligibility t) eqn:Ee; [rewrite bool_decide_false by done|by rewrite bool_decide_true].
  simpl. destruct (is_required _); [done|]. by destruct (tool_execute t params _ w) as [w' [[out|e]|]].
Qed.

(** *** The client *)

Lemma client_request_path c route body :
  rq_path (client_request c route body) = job_scoped_path (uuid_to_string (hc_job_id c)) (route_path route).
Proof.
  unfold client_request, client_url. cbn [rq_path].
  by rewrite str_drop_app by done.
Qed.

Lemma client_request_served c route body call (s : St) :
  validate (or_tokens (api_orch s)) (hc_job_id c) (hc_token c) = true →
  decode_body route body = Some call →
  serve (client_request c route body) s = handle (hc_job_id c) call s.
Proof.
  intros Hv Hb. unfold OrchestratorApi.serve. rewrite client_request_path.
  pose proof (match_route_scoped (hc_job_id c) route) as Hm. rewrite bool_decide_false.
  2: { intros [Hg Hp]. cbn [rq_method client_request] in Hg. rewrite Hp in Hm.
       by destruct route; vm_compute in Hm. }
  cbn [rq_method client_request]. rewrite Hm. unfold worker_auth. rewrite client_request_path.
  rewrite (match_route_extract _ _ _ _ Hm), uuid_parse_to_string. cbn [rq_authorization client_request mbind option_bind].
  assert (strip_prefix ("Bearer " +:+ hc_token c) "Bearer " = Some (hc_token c)) as -> by by apply strip_prefix_spec.
  rewrite Hv. rewrite decode_plain by by eapply uuid_no_percent, uuid_parse_to_string.
  cbn [mbind option_bind rq_body client_request]. by rewrite uuid_parse_to_string, Hb.
Qed.

Definition without_metadata (req : CompletionRequest) : CompletionRequest := {|
  req_messages := req_messages req; req_stop_sequences := req_stop_sequences req; req_model := req_model req;
  req_max_tokens := req_max_tokens req; req_temperature := req_temperature req; req_metadata := ∅ |}.

(** A worker's model is the agent's model: a completion that a worker with a valid token asks for
    over the API is the provider's answer to the same request, without its metadata, field by field; an error of
    the provider reaches it as a bad gateway. *)
Theorem proxied_completion (c : WorkerHttpClient) (req : CompletionRequest) (body : string) (s : St)
    (Htoken : validate (or_tokens (api_orch s)) (hc_job_id c) (hc_token c) = true)
    (Hbody : decode_body RtLlmComplete body = Some (AcComplete (client_completion req))) :
  let '(p, t, res) := complete (api_llm s) (api_clock s) (without_metadata req) in
  serve (client_request c RtLlmComplete body) s =
    (with_llm p t s, Some match res with
                          | Ok resp => RpCompletion (proxied_response resp)
                          | Err _ => RpStatus BAD_GATEWAY
                          end) ∧
  ∀ resp, client_completion_response (proxied_response resp) = resp.
Proof.
  rewrite (client_request_served c RtLlmComplete body (AcComplete (client_completion req)) s Htoken Hbody).
  cbn [OrchestratorApi.handle]. unfold llm_complete.
  change (proxied_request (client_completion req)) with (without_metadata req).
  destruct (complete (api_llm s) (api_clock s) (without_metadata req)) as [[p t] res].
  split; [done|]. intros [? ? ? [] ? ?]; reflexivity.
Qed.

(** *** Prompts *)

(** What the tool for follow-up prompts does: [queue.entry(job_id).or_default().push_back(prompt)]. *)
Definition push_prompt (job : Uuid) (p : PendingPrompt) (s : St) : St :=
  with_prompts (<[job := default [] (api_prompts s !! job) ++ [p]]> (api_prompts s)) s.

Definition push_prompts (job : Uuid) : list PendingPrompt → St → St := flip (foldl (λ s p, push_prompt job p s)).

(** The replies of so many requests for a prompt, and the state after them. *)
Fixpoint poll (job : Uuid) (n : nat) (s : St) : St * list Reply :=
  match n with
  | 0 => (s, [])
  | Datatypes.S n =>
      let '(s, r) := get_prompt_handler job s in
      let '(s, rs) := poll job n s in (s, r :: rs)
  end.

Lemma with_prompts_id (s : St) : with_prompts (api_prompts s) s = s.
Proof. by destruct s. Qed.

Lemma with_prompts_twice p q (s : St) : with_prompts p (with_prompts q s) = with_prompts p s.
Proof. done. Qed.

Lemma push_prompts_queue job ps (s : St) : ps ≠ [] →
  push_prompts job ps s = with_prompts (<[job := default [] (api_prompts s !! job) ++ ps]> (api_prompts s)) s.
Proof.
  induction ps as [|p ps IH] using rev_ind; [done|]. intros _. unfold push_prompts, flip in *. rewrite foldl_snoc.
  destruct ps as [|q ps]; [done|]. rewrite IH by done. unfold push_prompt. cbn [api_prompts with_prompts].
  rewrite lookup_insert_eq, insert_insert_eq. change (default [] (Some ?x)) with x. by rewrite <-app_assoc.
Qed.

Lemma poll_queue job ps (s : St) :
  api_prompts s !! job = Some ps → ps ≠ [] →
  poll job (length ps) s = (with_prompts (delete job (api_prompts s)) s, RpPrompt <$> ps).
Proof.
  revert s. induction ps as [|p ps IH]; intros s Hs Hne; [done|].
  cbn [length poll]. unfold get_prompt_handler. rewrite Hs. destruct ps as [|q ps]; [done|].
  rewrite IH; [|cbn; by rewrite lookup_insert_eq|done]. cbn [api_prompts with_prompts].
  rewrite with_prompts_twice. f_equal. f_equal. by rewrite delete_insert_eq.
Qed.

(** Follow-up prompts arrive in order and once: prompts queued for a job that has none waiting
    are handed out by as many polls, first in first out, and then the queue is as it was before them and a further
    poll finds nothing. *)
Theorem prompts_in_order (job : Uuid) (ps : list PendingPrompt) (s : St)
    (Hempty : api_prompts s !! job = None) :
  poll job (length ps) (push_prompts job ps s) = (s, RpPrompt <$> ps) ∧
  get_prompt_handler job s = (s, RpStatus NO_CONTENT).
Proof.
  split; [|unfold get_prompt_handler; by rewrite Hempty].
  destruct (decide (ps = [])) as [->|Hne]; [done|]. rewrite push_prompts_queue, Hempty by done. change (default [] None ++ ?x) with x.
  rewrite poll_queue; [|cbn; by rewrite lookup_insert_eq|done]. cbn [api_prompts with_prompts].
  rewrite with_prompts_twice, delete_insert_id by done. by rewrite with_prompts_id.
Qed.
End Properties.

(** ** An example *)

Lemma text_bits_chars s p : text_bits s = Some p → has_char percent s = false.
Proof.
  revert p. induction s as [|c s IH]; intros p H; [done|]. cbn [text_bits] in H.
  case_bool_decide as H1; [subst c; case_bool_decide; [by subst|done]|].
  case_bool_decide as H2; [|case_bool_decide as H3; [|done]]; subst c;
    (destruct (text_bits s) as [q|] eqn:E; [|done]); cbn [has_char]; by rewrite (IH q eq_refl).
Qed.

Lemma uuid_bits_no_percent segment u :
  uuid_parse_str (UuidText := uuid_bits) segment = Some u → has_char percent segment = false.
Proof.
  simpl. case_bool_decide; [by subst|]. destruct (text_bits segment) as [p|] eqn:E; [|done]. intros _.
  by eapply text_bits_chars.
Qed.

(** Secrets as a map from their names, with the names of those that were used. *)
Abbreviation NamedSecrets := (gmap string string * list Uuid)%type.

#[export] Instance named_secrets : SecretsStore NamedSecrets := {|
  store_get := λ x _ name, match x.1 !! name with Some _ => Ok None | None => Err (SecNotFound name) end;
  get_decrypted := λ x _ name, match x.1 !! name with Some v => Ok v | None => Err (SecNotFound name) end;
  store_create := λ x _ p, ((<[cp_name p := cp_value p]> x.1, x.2), Ok ()) |}.

#[export] Instance named_usage : SecretUsage NamedSecrets := {|
  secret_id := λ x _ name, Ok (N.of_nat (String.length name));
  record_usage := λ x id, ((x.1, id :: x.2), Ok ()) |}.

Lemma named_usage_keeps (x : NamedSecrets) id user name :
  get_decrypted (record_usage x id).1 user name = get_decrypted x user name.
Proof. done. Qed.

Definition example_api (orch : Orch unit) {J : SerdeJson} : ApiState unit (list LlmError) unit NamedSecrets NamedTool := {|
  api_orch := orch; api_prompts := ∅; api_llm := []; api_clock := 0; api_world := (); api_sent := []; api_saved := [];
  api_secrets := Some ({["github_token" := "ghp"]}, []) |}.

Definition example_decode {J : SerdeJson} (r : Route) (body : string) : option ApiCall :=
  match r with
  | RtCredentials => Some AcCredentials
  | RtPrompt => Some AcPrompt
  | RtJob => Some AcJob
  | RtLlmComplete => Some (AcComplete (client_completion (completion_request_new [])))
  | _ => None
  end.

Definition example_orch : Orch unit := (example_create "/home/u/.axinite/projects/p").1.
Definition example_client : WorkerHttpClient := client_new "http://host.docker.internal:50051/" 7 "01ab".

Definition example_serve {J : SerdeJson} {D : RustDecimal} (rq : Request) :=
  let T := uuid_bits in
  let P := canned_provider in
  serve (P := list LlmError) (W := unit) (A := NamedTool) example_host
    (run_registry_ops (W := unit) tool_registry_new example_registry_ops) [] true true "default" 0
    (λ _ _, "") (λ _, 0%Z) Some example_decode rq (example_api example_orch).

Definition example_credentials_request : Request :=
  let T := uuid_bits in client_request example_client RtCredentials "".

Lemma served_with_own_token_witness :
  let J := json_lite in let D := dec_cents in let T := uuid_bits in let P := canned_provider in
  (example_serve (client_request (client_new "http://h/" 8 "01ab") RtPrompt "")).2 = Some (RpStatus UNAUTHORIZED) ∧
  refused_or_served (P := list LlmError) (W := unit) (A := NamedTool) example_host
    (run_registry_ops (W := unit) tool_registry_new example_registry_ops) [] true true "default" 0
    (λ _ _, "") (λ _, 0%Z) Some example_decode
    example_credentials_request (example_api example_orch).
Proof.
  intros J D T P. split; [by vm_compute|].
  apply (served_with_own_token (P := list LlmError) (W := unit) (A := NamedTool) example_host
    (run_registry_ops (W := unit) tool_registry_new example_registry_ops) [] true true "default" 0
    (λ _ _, "") (λ _, 0%Z) Some example_decode uuid_bits_no_percent (λ _ _, eq_refl)
    example_credentials_request (example_api example_orch)).
Defined.

Lemma credentials_as_granted_witness :
  let J := json_lite in let D := dec_cents in
  (example_serve example_credentials_request).2 =
    Some (RpCredentials [{| cred_env_var := "GITHUB_TOKEN"; cred_value := "ghp" |}]).
Proof.
  intros J D. assert (match_route GET (rq_path example_credentials_request) =
    Some (RtCredentials, uuid_to_string (UuidText := uuid_bits) 7)) as Hr by by vm_compute.
  destruct (credentials_as_granted (S := NamedSecrets) (T := uuid_bits) (LlmProvider0 := canned_provider) (P := list LlmError) (W := unit) (A := NamedTool) example_host
    (run_registry_ops (W := unit) tool_registry_new example_registry_ops) [] true true "default" 0
    (λ _ _, "") (λ _, 0%Z) Some example_decode uuid_bits_no_percent (λ _ _, eq_refl) named_usage_keeps
    example_credentials_request (example_api example_orch) 7 "01ab" _ Hr eq_refl eq_refl) as [H _].
  - by vm_compute.
  - done.
  - unfold example_serve. rewrite H. by vm_compute.
Defined.

Lemma remote_tool_gate_witness :
  let J := json_lite in let D := dec_cents in
  let tools := run_registry_ops (W := unit) tool_registry_new example_registry_ops in
  execute_hosted_remote_tool (W := unit) tools "default" 0 7 "shell" json_empty () = ((), Some (Err BAD_REQUEST)) ∧
  tool_name (W := unit) ("weather", Some SourceWasm) = "weather".
Proof.
  intros J D tools.
  pose proof (remote_tool_gate (W := unit) tools "default" 0 example_registry_ops 7 "shell" json_empty ()
    ltac:(by repeat constructor) eq_refl) as H1.
  pose proof (remote_tool_gate (W := unit) tools "default" 0 example_registry_ops 7 "weather" json_empty ()
    ltac:(by repeat constructor) eq_refl) as H2.
  assert (tr_tools tools !! "shell" = Some ("shell", None)) as E1 by by vm_compute.
  assert (tr_tools tools !! "weather" = Some ("weather", Some SourceWasm)) as E2 by by vm_compute.
  cbv zeta in H1, H2. rewrite E1 in H1. rewrite E2 in H2. split; [apply H1|apply H2].
  - intros [(source & [=] & _) _].
  - split_and!; [by exists SourceWasm; split; [|right; left]|done|done].
Defined.

Lemma proxied_completion_witness :
  let J := json_lite in let D := dec_cents in let T := uuid_bits in
  (example_serve (client_request example_client RtLlmComplete "")).2 = Some (RpCompletion (proxied_response canned_response)).
Proof.
  intros J D T.
  destruct (proxied_completion (T := T) (LlmProvider0 := canned_provider) (P := list LlmError) (W := unit) (A := NamedTool) example_host
    (run_registry_ops (W := unit) tool_registry_new example_registry_ops) [] true true "default" 0
    (λ _ _, "") (λ _, 0%Z) Some example_decode uuid_bits_no_percent (λ _ _, eq_refl)
    example_client (completion_request_new []) "" (example_api example_orch)) as [H _]; [by vm_compute|done|].
  unfold example_serve. cbv zeta. etrans; [exact (f_equal snd H)|done].
Defined.

Lemma prompts_in_order_witness :
  let J := json_lite in let D := dec_cents in
  let ps := [{| pp_content := "a"; pp_done := false |}; {| pp_content := "b"; pp_done := true |}] in
  (poll (D := D) 7 2 (push_prompts 7 ps (example_api example_orch))).2 = RpPrompt <$> ps.
Proof.
  intros J D ps. destruct (prompts_in_order (D := D) 7 ps (example_api example_orch)) as [H _]; [done|].
  change 2 with (length ps). by rewrite H.
Defined.
