(* ===== verification/ContainerJobs.v ===== *)
(** * The tools for jobs

    Models [src/src/tools/builtin/job.rs] and its modules: [credentials.rs] (the grants a
    caller may ask for), [project_dir.rs], [sandbox.rs] (a job in a container, from its record to the
    result that is awaited), [create.rs], [status.rs] and [interaction.rs].

    The container side is the manager of [Orchestrator]; jobs of the agent are those of
    [JobManager].  The database is a function that answers every call, and every call is
    recorded; an update that is spawned is recorded when it is issued.  While a container is
    awaited, what others do to the manager between two looks at it is a parameter, as is the
    clock.  The JSON a tool answers is given by its fields. *)

From S2P Require Import Prelude Text Externals LlmTypes JobState JobManager ToolExec Allowlist Paths.
From S2P Require Import Failover Sandbox Credentials Orchestrator JobCommands Registry OrchestratorApi.

(** ** Credentials *)

Definition DANGEROUS_ENV_VARS : list string := [
  "LD_PRELOAD"; "LD_LIBRARY_PATH"; "LD_AUDIT"; "DYLD_INSERT_LIBRARIES"; "DYLD_LIBRARY_PATH"; "BASH_ENV"; "ENV";
  "CDPATH"; "IFS"; "PATH"; "HOME"; "PYTHONPATH"; "NODE_PATH"; "PERL5LIB"; "RUBYLIB"; "CLASSPATH"; "JAVA_TOOL_OPTIONS";
  "MAVEN_OPTS"; "USER"; "SHELL"; "RUST_LOG"].

Definition env_start (c : Ascii.ascii) : bool :=
  let n := Ascii.N_of_ascii c in ((65 <=? n) && (n <=? 90) || (n =? 95))%N.
Definition env_digit (c : Ascii.ascii) : bool :=
  let n := Ascii.N_of_ascii c in ((48 <=? n) && (n <=? 57))%N.

Fixpoint env_bytes_valid (i : nat) (s : string) : bool :=
  match s with
  | EmptyString => true
  | String c s => (env_start c || ((0 <? i) && env_digit c)) && env_bytes_valid (S i) s
  end.

Definition validate_env_var_name (name : string) : result unit ToolFailure :=
  if bool_decide (name = "") then Err (TfInvalidParameters "env var name cannot be empty")
  else if negb (env_bytes_valid 0 name) then
    Err (TfInvalidParameters ("env var '" +:+ name +:+ "' must match [A-Z_][A-Z0-9_]* (uppercase, underscores, digits)"))
  else if bool_decide (name ∈ DANGEROUS_ENV_VARS) then
    Err (TfInvalidParameters ("env var '" +:+ name +:+ "' is on the denylist (could hijack process behaviour)"))
  else Ok ().

Class SecretExists (S : Type) := {
  secret_exists : S → string → string → result bool SecretError;
}.

Section Grants.
Context {J : SerdeJson} {S : Type} `{!SecretExists S}.

Definition MAX_CREDENTIAL_GRANTS : nat := 20.

Definition no_secrets_store : string :=
  "credentials requested but no secrets store is configured. Set SECRETS_MASTER_KEY to enable credential management.".

Definition parse_grant (x : S) (user : string) (field : string * json) : result CredentialGrant ToolFailure :=
  let '(name, value) := field in
  match json_as_string value with
  | None => Err (TfInvalidParameters ("credential env var for '" +:+ name +:+ "' must be a string"))
  | Some env_var =>
      match validate_env_var_name env_var with
      | Err e => Err e
      | Ok _ =>
          match secret_exists x user name with
          | Err e => Err (TfExecutionFailed ("failed to check secret '" +:+ name +:+ "': " +:+ secret_error_display e))
          | Ok false => Err (TfExecutionFailed
              ("secret '" +:+ name +:+ "' not found. Store it first via 'axinite tool auth' or the web UI."))
          | Ok true => Ok {| grant_secret := name; grant_env_var := env_var |}
          end
      end
  end.

Fixpoint parse_grants (x : S) (user : string) (fields : list (string * json)) : result (list CredentialGrant) ToolFailure :=
  match fields with
  | [] => Ok []
  | f :: fields =>
      match parse_grant x user f with
      | Err e => Err e
      | Ok g => match parse_grants x user fields with
                | Err e => Err e
                | Ok grants => Ok (g :: grants)
                end
      end
  end.

(** [params.get("credentials").and_then(as_object)] *)
Definition credential_fields (params : json) : list (string * json) :=
  match json_view <$> json_get params "credentials" with
  | Some (VObject fields) => fields
  | _ => []
  end.

Definition parse_credentials (secrets : option S) (params : json) (user : string) :
    result (list CredentialGrant) ToolFailure :=
  match credential_fields params with
  | [] => Ok []
  | fields =>
      if MAX_CREDENTIAL_GRANTS <? length fields then
        Err (TfInvalidParameters ("too many credential grants (" +:+ pretty (length fields) +:+ ", max "
                                  +:+ pretty MAX_CREDENTIAL_GRANTS +:+ ")"))
      else match secrets with
           | None => Err (TfExecutionFailed no_secrets_store)
           | Some x => parse_grants x user fields
           end
  end.
End Grants.

(** ** Records *)

Record SandboxJobRecord := {
  sr_id : Uuid;
  sr_task : string;
  sr_status : string;
  sr_user_id : string;
  sr_project_dir : string;
  sr_success : option bool;
  sr_failure_reason : option string;
  sr_created_at : Utc;
  sr_started_at : option Utc;
  sr_completed_at : option Utc;
  sr_credential_grants : list CredentialGrant;
}.

Record StatusTransition := {
  sx_job_id : Uuid;
  sx_status : string;
  sx_success : option bool;
  sx_message : option string;
  sx_started_at : option Utc;
  sx_completed_at : option Utc;
}.

Definition transition_running (job : Uuid) (at_ : Utc) : StatusTransition := {|
  sx_job_id := job; sx_status := "running"; sx_success := None; sx_message := None; sx_started_at := Some at_;
  sx_completed_at := None |}.
Definition transition_completed (job : Uuid) (at_ : Utc) : StatusTransition := {|
  sx_job_id := job; sx_status := "completed"; sx_success := Some true; sx_message := None; sx_started_at := None;
  sx_completed_at := Some at_ |}.
Definition transition_failed (job : Uuid) (message : string) (at_ : Utc) : StatusTransition := {|
  sx_job_id := job; sx_status := "failed"; sx_success := Some false; sx_message := Some message; sx_started_at := None;
  sx_completed_at := Some at_ |}.

Inductive DbCall :=
| DbSaveJob (r : SandboxJobRecord)
| DbSetMode (job : Uuid)
(** a status update, awaited or spawned *)
| DbStatus (awaited : bool) (t : StatusTransition).

(** ** State *)

Record JobTools (Conn : Type) := {
  jt_orch : Orch Conn;
  jt_db : list DbCall;
  (** jobs a monitor was started for *)
  jt_monitored : list Uuid;
}.
Arguments jt_orch {Conn} j.
Arguments jt_db {Conn} j.
Arguments jt_monitored {Conn} j.

Definition set_jt_orch {Conn} (o : Orch Conn) (s : JobTools Conn) : JobTools Conn := {|
  jt_orch := o; jt_db := jt_db s; jt_monitored := jt_monitored s |}.
Definition set_jt_db {Conn} (l : list DbCall) (s : JobTools Conn) : JobTools Conn := {|
  jt_orch := jt_orch s; jt_db := l; jt_monitored := jt_monitored s |}.
Definition set_jt_monitored {Conn} (l : list Uuid) (s : JobTools Conn) : JobTools Conn := {|
  jt_orch := jt_orch s; jt_db := jt_db s; jt_monitored := l |}.

(** What [create_job] answers: the fields of its JSON. *)
Inductive CreateOutput :=
| CoCompleted (job : Uuid) (output project_dir browse_id : string)
| CoStarted (job : Uuid) (project_dir browse_id : string)
| CoInProgress (job : Uuid) (title : string)
| CoPending (job : Uuid) (title : string)
| CoError (message : string).

Section Sandbox.
Context {J : SerdeJson} {T : UuidText} {V : UtcText} {Conn : Type}.
Variable h : Host Conn.
Variable config : ContainerJobConfig.
Variable base_dir : Path.
(** whether a database is there, and its answer to a call behind those made so far *)
Variable has_store : bool.
Variable on_db : list DbCall → DbCall → result unit string.
(** whether the channels for monitors are there *)
Variable has_monitor_deps : bool.

Abbreviation JS := (JobTools Conn).

Definition db_call (c : DbCall) (s : JS) : JS * result unit string :=
  (set_jt_db (jt_db s ++ [c]) s, on_db (jt_db s) c).

(** [apply_status_update], awaited or spawned; a failure is logged only. *)
Definition update_status_with (awaited : bool) (t : StatusTransition) (s : JS) : JS :=
  if has_store then (db_call (DbStatus awaited t) s).1 else s.

Definition update_status : StatusTransition → JS → JS := update_status_with false.
Definition update_status_sync : StatusTransition → JS → JS := update_status_with true.

(** A computation of the manager. *)
Definition lift {A} (m : OM A) (s : JS) : JS * A :=
  let '(o, a) := m (jt_orch s) in (set_jt_orch o s, a).

Definition canonicalize (p : Path) : OM (Conn := Conn) (result Path string) :=
  host_call (λ log, on_canonicalize h log p) (λ _, HcCanonicalize p).
Definition create_dir_all (p : Path) : OM (Conn := Conn) (result unit string) :=
  host_call (λ log, on_create_dir_all h log p) (λ _, HcCreateDir p).

(** *** Project directories *)

Definition canonicalize_explicit_project_dir (dir canonical_base : Path) (s : JS) : JS * result Path ToolFailure :=
  match lift (canonicalize dir) s with
  | (s, Err e) => (s, Err (TfInvalidParameters
      ("explicit project dir " +:+ path_text dir +:+ " does not exist or is inaccessible: " +:+ e)))
  | (s, Ok canonical) =>
      if bool_decide (canonical_base `prefix_of` canonical) then (s, Ok canonical)
      else (s, Err (TfInvalidParameters ("project directory must be under " +:+ path_text canonical_base)))
  end.

Definition create_default_project_dir (canonical_base : Path) (job : Uuid) (s : JS) : JS * result Path ToolFailure :=
  let dir := path_join canonical_base (path_from (uuid_to_string job)) in
  match lift (create_dir_all dir) s with
  | (s, Err e) => (s, Err (TfExecutionFailed ("failed to create project dir " +:+ path_text dir +:+ ": " +:+ e)))
  | (s, Ok _) =>
      match lift (canonicalize dir) s with
      | (s, Err e) => (s, Err (TfExecutionFailed ("failed to canonicalize project dir " +:+ path_text dir +:+ ": " +:+ e)))
      | (s, Ok canonical) => (s, Ok canonical)
      end
  end.

Definition resolve_project_dir (explicit : option Path) (job : Uuid) (s : JS) : JS * result (Path * string) ToolFailure :=
  let base := projects_base base_dir in
  match lift (create_dir_all base) s with
  | (s, Err e) => (s, Err (TfExecutionFailed ("failed to create projects base " +:+ path_text base +:+ ": " +:+ e)))
  | (s, Ok _) =>
      match lift (canonicalize base) s with
      | (s, Err e) => (s, Err (TfExecutionFailed ("failed to canonicalize projects base: " +:+ e)))
      | (s, Ok canonical_base) =>
          match (match explicit with
                 | Some d => canonicalize_explicit_project_dir d canonical_base s
                 | None => create_default_project_dir canonical_base job s
                 end) with
          | (s, Err e) => (s, Err e)
          | (s, Ok dir) => (s, Ok (dir, default (uuid_to_string job) (file_name dir)))
          end
      end
  end.

(** *** The record of a job *)

Definition build_sandbox_job_record (task : string) (job : Uuid) (user project_dir : string)
    (grants : list CredentialGrant) (now : Utc) : SandboxJobRecord := {|
  sr_id := job; sr_task := task; sr_status := "creating"; sr_user_id := user; sr_project_dir := project_dir;
  sr_success := None; sr_failure_reason := None; sr_created_at := now; sr_started_at := None; sr_completed_at := None;
  sr_credential_grants := grants |}.

Definition persist_sandbox_job (r : SandboxJobRecord) (mode : JobMode) (now : Utc) (s : JS) : JS * result unit ToolFailure :=
  if negb has_store then (s, Ok ())
  else
    match db_call (DbSaveJob r) s with
    | (s, Err e) => (s, Err (TfExecutionFailed ("failed to persist job: " +:+ e)))
    | (s, Ok _) =>
        if bool_decide (mode = ModeClaudeCode) then
          match db_call (DbSetMode (sr_id r)) s with
          | (s, Err e) =>
              ((db_call (DbStatus true (transition_failed (sr_id r) e now)) s).1,
               Err (TfExecutionFailed ("failed to persist job mode: " +:+ e)))
          | (s, Ok _) => (s, Ok ())
          end
        else (s, Ok ())
    end.

(** *** Waiting *)

Record ContainerJobView := { cv_job_id : Uuid; cv_project_dir : string; cv_browse_id : string }.

Definition completed_output (v : ContainerJobView) (output : string) : CreateOutput :=
  CoCompleted (cv_job_id v) output (cv_project_dir v) (cv_browse_id v).

Definition handle_stopped_container (handle : ContainerHandle) (v : ContainerJobView) (now : Utc) (s : JS) :
    JS * result CreateOutput ToolFailure :=
  let message := default "Container job completed" (ch_completion_result handle ≫= cr_message) in
  let success := from_option cr_success true (ch_completion_result handle) in
  let s := (lift (cleanup_container_job (cv_job_id v)) s).1 in
  if success then
    (update_status_sync (transition_completed (cv_job_id v) now) s, Ok (completed_output v message))
  else
    (update_status_sync (transition_failed (cv_job_id v) message now) s,
     Err (TfExecutionFailed ("container job failed: " +:+ message))).

Definition handle_failed_container (handle : ContainerHandle) (v : ContainerJobView) (now : Utc) (s : JS) :
    JS * result CreateOutput ToolFailure :=
  let message := default "unknown failure" (ch_completion_result handle ≫= cr_message) in
  let s := (lift (cleanup_container_job (cv_job_id v)) s).1 in
  (update_status_sync (transition_failed (cv_job_id v) message now) s,
   Err (TfExecutionFailed ("container job failed: " +:+ message))).

Definition handle_missing_container (v : ContainerJobView) (now : Utc) (s : JS) : JS * result CreateOutput ToolFailure :=
  (update_status_sync (transition_completed (cv_job_id v) now) s, Ok (completed_output v "Container job completed")).

Definition handle_timed_out_container (v : ContainerJobView) (now : Utc) (s : JS) : JS * result CreateOutput ToolFailure :=
  let s := (lift (stop_container_job h (cv_job_id v)) s).1 in
  let s := (lift (cleanup_container_job (cv_job_id v)) s).1 in
  (update_status_sync (transition_failed (cv_job_id v) "Timed out (10 minutes)" now) s,
   Err (TfExecutionFailed "container execution timed out (10 minutes)")).

(** The clock at the [k]-th look, and what the others did since the last one. *)
Variable tick : nat → Instant.
Variable others : nat → Orch Conn → Orch Conn.
Variable now : Utc.

(** [None]: out of fuel. *)
Fixpoint await_container_completion (fuel k : nat) (deadline : Instant) (v : ContainerJobView) (s : JS) :
    JS * option (result CreateOutput ToolFailure) :=
  match fuel with
  | 0 => (s, None)
  | S fuel =>
      let s := set_jt_orch (others k (jt_orch s)) s in
      let done (x : JS * result CreateOutput ToolFailure) := (x.1, Some x.2) in
      if (deadline <? tick k)%Z then done (handle_timed_out_container v now s)
      else
        match or_registry (jt_orch s) !! cv_job_id v with
        | None => done (handle_missing_container v now s)
        | Some handle =>
            match ch_state handle with
            | CsRunning | CsCreating => await_container_completion fuel (S k) deadline v s
            | CsStopped => done (handle_stopped_container handle v now s)
            | CsFailed => done (handle_failed_container handle v now s)
            end
        end
  end.

Definition container_timeout : Duration := secs 600.
Definition poll_interval : Duration := secs 2.

Record SandboxExecution := {
  se_task : string;
  se_explicit_dir : option Path;
  se_wait : bool;
  se_mode : JobMode;
  se_grants : list CredentialGrant;
  se_user_id : string;
}.

(** [job] and [bytes] are the new id and the random bytes of the token; [start] is the clock before the first look. *)
Definition execute_sandbox (fuel : nat) (e : SandboxExecution) (job : Uuid) (bytes : list nat) (start : Instant) (s : JS) :
    JS * option (result CreateOutput ToolFailure) :=
  match resolve_project_dir (se_explicit_dir e) job s with
  | (s, Err err) => (s, Some (Err err))
  | (s, Ok (dir, browse_id)) =>
      let dir_text := path_text dir in
      let record := build_sandbox_job_record (se_task e) job (se_user_id e) dir_text (se_grants e) now in
      match persist_sandbox_job record (se_mode e) now s with
      | (s, Err err) => (s, Some (Err err))
      | (s, Ok _) =>
          match lift (create_container_job h config base_dir job bytes now now (se_task e) (Some dir) (se_mode e)
                        (se_grants e)) s with
          | (s, Err err) =>
              (update_status (transition_failed job (orchestrator_error_display err) now) s,
               Some (Err (TfExecutionFailed ("failed to create container: " +:+ orchestrator_error_display err))))
          | (s, Ok _) =>
              let s := update_status (transition_running job now) s in
              if negb (se_wait e) then
                let s := if has_monitor_deps then set_jt_monitored (jt_monitored s ++ [job]) s else s in
                (s, Some (Ok (CoStarted job dir_text browse_id)))
              else
                await_container_completion fuel 0 (start + container_timeout)%Z
                  {| cv_job_id := job; cv_project_dir := dir_text; cv_browse_id := browse_id |} s
          end
      end
  end.
End Sandbox.

(** ** Tools on the jobs of the agent *)

Section Tools.
Context {J : SerdeJson} {D : RustDecimal} {T : UuidText} {U : UnicodeCase}.

(** The ids come in some order; it does not matter, since one match is asked for. *)
Definition resolve_job_id (input : string) (m : ContextManager) : result Uuid ToolFailure :=
  match uuid_parse_str input with
  | Some id => Ok id
  | None =>
      if String.length input <? 4 then Err (TfInvalidParameters "job ID prefix must be at least 4 hex characters")
      else
        let lower := to_lowercase input in
        match filter (λ id, starts_with (str_replace (uuid_to_string id) "-" "") lower = true) (all_jobs m) with
        | [id] => Ok id
        | [] => Err (TfInvalidParameters ("no job found matching prefix '" +:+ input +:+ "'"))
        | l => Err (TfInvalidParameters ("ambiguous prefix '" +:+ input +:+ "' matches " +:+ pretty (length l)
                                         +:+ " jobs, provide more characters"))
        end
  end.

Definition resolve_job_id_param (params : json) (m : ContextManager) : result Uuid ToolFailure :=
  match require_str params "job_id" with
  | Err e => Err e
  | Ok input => resolve_job_id input m
  end.

(** What the tools answer, by the fields of their JSON. *)
Inductive JobToolOutput :=
| JoJobs (jobs : list (Uuid * JobContext)) (summary : ContextSummary)
| JoStatus (job : Uuid) (ctx : JobContext)
| JoCancelled (job : Uuid)
| JoQueued (job : Uuid) (done : bool)
| JoEvents (job : Uuid) (limit : Z)
| JoError (message : string).

Definition list_filter (filter_ : string) (c : JobContext) : bool :=
  if bool_decide (filter_ = "completed") then bool_decide (state c = Completed)
  else if bool_decide (filter_ = "failed") then bool_decide (state c = Failed)
  else if bool_decide (filter_ = "active") then is_active (state c)
  else true.

Definition list_jobs_execute (params : json) (user : string) (m : ContextManager) : JobToolOutput :=
  let filter_ := default "all" (json_get params "filter" ≫= json_as_string) in
  let ids := if bool_decide (filter_ = "active") then active_jobs_for m user else all_jobs_for m user in
  JoJobs (omap (λ id, match get_context m id with
                      | Ok c => if list_filter filter_ c then Some (id, c) else None
                      | Err _ => None
                      end) ids)
    (summary_for m user).

Definition job_status_execute (params : json) (user : string) (m : ContextManager) : result JobToolOutput ToolFailure :=
  match resolve_job_id_param params m with
  | Err e => Err e
  | Ok job =>
      match get_context m job with
      | Ok c => if negb (bool_decide (user_id c = user)) then Ok (JoError "Job not found") else Ok (JoStatus job c)
      | Err e => Ok (JoError ("Job not found: " +:+ job_error_display e))
      end
  end.

Definition cancel_job_execute (params : json) (user : string) (now1 now2 : Utc) (m : ContextManager) :
    ContextManager * result JobToolOutput ToolFailure :=
  match resolve_job_id_param params m with
  | Err e => (m, Err e)
  | Ok job =>
      let '(m, r) := update_context m job (λ c,
        if negb (bool_decide (user_id c = user)) then (c, Err "Job not found")
        else transition_to c Cancelled (Some "Cancelled by user") now1 now2) in
      (m, Ok match r with
             | Ok (Ok _) => JoCancelled job
             | Ok (Err reason) => JoError ("Cannot cancel job: " +:+ reason)
             | Err e => JoError ("Job not found: " +:+ job_error_display e)
             end)
  end.

(** The check of [job_events] and [job_prompt] that the caller owns the job. *)
Definition own_job (params : json) (user : string) (m : ContextManager) : result Uuid ToolFailure :=
  match json_get params "job_id" ≫= json_as_string with
  | None => Err (TfInvalidParameters "missing 'job_id' parameter")
  | Some input =>
      match resolve_job_id input m with
      | Err e => Err e
      | Ok job =>
          match get_context m job with
          | Err _ => Err (TfExecutionFailed ("job " +:+ uuid_to_string job +:+ " not found or context unavailable"))
          | Ok c =>
              if negb (bool_decide (user_id c = user)) then
                Err (TfExecutionFailed ("job " +:+ uuid_to_string job +:+ " does not belong to current user"))
              else Ok job
          end
      end
  end.

(** The event log behind the check; [as_i64] reads an integer of JSON. *)
Definition job_events_execute (as_i64 : json → option Z) (list_job_events : Uuid → Z → result unit string) (params : json)
    (user : string) (m : ContextManager) : result JobToolOutput ToolFailure :=
  match own_job params user m with
  | Err e => Err e
  | Ok job =>
      let limit := Z.max 1 (Z.min 1000 (default 50%Z (json_get params "limit" ≫= as_i64))) in
      match list_job_events job limit with
      | Err e => Err (TfExecutionFailed ("failed to load job events: " +:+ e))
      | Ok _ => Ok (JoEvents job limit)
      end
  end.

Definition json_as_bool (v : json) : option bool := match json_view v with VBool b => Some b | _ => None end.

Definition job_prompt_execute (params : json) (user : string) (m : ContextManager)
    (queue : gmap Uuid (list PendingPrompt)) : gmap Uuid (list PendingPrompt) * result JobToolOutput ToolFailure :=
  match own_job params user m with
  | Err e => (queue, Err e)
  | Ok job =>
      match json_get params "content" ≫= json_as_string with
      | None => (queue, Err (TfInvalidParameters "missing 'content' parameter"))
      | Some content =>
          let done := default false (json_get params "done" ≫= json_as_bool) in
          (<[job := default [] (queue !! job) ++ [{| pp_content := content; pp_done := done |}]]> queue,
           Ok (JoQueued job done))
      end
  end.

(** *** [create_job] *)

(** [scheduler] is [dispatch_job] of the scheduler, when the slot is filled. *)
Definition execute_local (scheduler : option (ContextManager → string → string → string → ContextManager * result Uuid string))
    (fresh : Uuid) (now : Utc) (title description user : string) (m : ContextManager) : ContextManager * CreateOutput :=
  match scheduler with
  | Some dispatch_job =>
      let '(m, r) := dispatch_job m user title description in
      (m, match r with Ok job => CoInProgress job title | Err e => CoError e end)
  | None =>
      let '(m, r) := create_job_for_user m fresh now user title description in
      (m, match r with Ok job => CoPending job title | Err e => CoError (job_error_display e) end)
  end.

(** What [create_job] does with its parameters: run a local job, or a job in a container. *)
Inductive CreatePlan :=
| PlanLocal (title description : string)
| PlanSandbox (e : SandboxExecution).

Definition create_job_plan {S : Type} `{!SecretExists S} (sandbox_enabled : bool) (secrets : option S) (params : json)
    (user : string) : result CreatePlan ToolFailure :=
  match require_str params "title" with
  | Err e => Err e
  | Ok title =>
      match require_str params "description" with
      | Err e => Err e
      | Ok description =>
          if negb sandbox_enabled then Ok (PlanLocal title description)
          else
            match parse_credentials secrets params user with
            | Err e => Err e
            | Ok grants =>
                Ok (PlanSandbox {|
                  se_task := title +:+ newline +:+ newline +:+ description;
                  se_explicit_dir := path_from <$> (json_get params "project_dir" ≫= json_as_string);
                  se_wait := default true (json_get params "wait" ≫= json_as_bool);
                  se_mode := if bool_decide ((json_get params "mode" ≫= json_as_string) = Some "claude_code")
                             then ModeClaudeCode else ModeWorker;
                  se_grants := grants; se_user_id := user |})
            end
      end
  end.
End Tools.

(** ** Grants *)

Lemma env_bytes_valid_spec i name :
  env_bytes_valid i name = true ↔
  ∀ k c, String.get k name = Some c → env_start c = true ∨ (0 < i + k ∧ env_digit c = true).
Proof.
  revert i. induction name as [|c name IH]; intros i; simpl; [split; [intros _ k c Hk; by destruct k|done]|].
  rewrite andb_true_iff, IH, orb_true_iff, andb_true_iff, Nat.ltb_lt. split.
  - intros [Hc H] [|k] d Hd; [injection Hd as <-; naive_solver lia|]. apply H in Hd. naive_solver lia.
  - intros H. split; [specialize (H 0 c eq_refl); naive_solver lia|]. intros k d Hd. specialize (H (S k) d Hd). naive_solver lia.
Qed.

(** A name a secret may be given in a container. *)
Definition env_name_ok (name : string) : Prop :=
  name ≠ "" ∧ (name ∉ DANGEROUS_ENV_VARS) ∧
  ∀ k c, String.get k name = Some c → env_start c = true ∨ (0 < k ∧ env_digit c = true).

Lemma validate_env_var_name_spec name : validate_env_var_name name = Ok () ↔ env_name_ok name.
Proof.
  unfold validate_env_var_name, env_name_ok. pose proof (env_bytes_valid_spec 0 name) as Hv.
  case_bool_decide; [naive_solver|]. destruct (env_bytes_valid 0 name); simpl; [|naive_solver].
  case_bool_decide; naive_solver.
Qed.

Section GrantProps.
Context {J : SerdeJson} {S : Type} `{!SecretExists S}.

Definition grant_ok (x : S) (user : string) (field : string * json) (g : CredentialGrant) : Prop :=
  grant_secret g = field.1 ∧ json_as_string field.2 = Some (grant_env_var g) ∧ env_name_ok (grant_env_var g) ∧
  secret_exists x user (grant_secret g) = Ok true.

Lemma parse_grant_spec x user field g : parse_grant x user field = Ok g ↔ grant_ok x user field g.
Proof.
  destruct field as [name value], g as [secret env]. unfold parse_grant, grant_ok. simpl.
  destruct (json_as_string value) as [e|]; [|split; [done|by intros (_ & ? & _)]].
  pose proof (validate_env_var_name_spec e) as Hv. destruct (validate_env_var_name e) as [[]|e'].
  - destruct (secret_exists x user name) as [[]|] eqn:E.
    + split; [intros [= <- <-]; split_and!; [done|done|by apply Hv|done]|intros (-> & [= ->] & _); done].
    + split; [done|]. intros (-> & _ & _ & H). congruence.
    + split; [done|]. intros (-> & _ & _ & H). congruence.
  - split; [done|]. intros (_ & [= ->] & H%Hv & _). done.
Qed.

Lemma parse_grants_spec x user fields grants :
  parse_grants x user fields = Ok grants ↔ Forall2 (grant_ok x user) fields grants.
Proof.
  revert grants. induction fields as [|f fields IH]; intros grants; simpl.
  - split; [intros [= <-]; constructor|by intros ->%Forall2_nil_inv_l].
  - pose proof (parse_grant_spec x user f) as Hf. destruct (parse_grant x user f) as [g|e] eqn:Eg.
    + destruct (parse_grants x user fields) as [gs|e] eqn:Egs; split.
      * intros [= <-]. constructor; [by apply Hf|by apply IH].
      * intros (g' & gs' & Hg & Hgs & ->)%Forall2_cons_inv_l. apply Hf in Hg. apply IH in Hgs. congruence.
      * done.
      * intros (g' & gs' & _ & Hgs & ->)%Forall2_cons_inv_l. apply IH in Hgs. congruence.
    + split; [done|]. intros (g' & gs' & Hg & _ & ->)%Forall2_cons_inv_l. apply Hf in Hg. congruence.
Qed.

(** C30. A container is granted only what its caller may give: the request succeeds exactly when it names no
    credentials (only the fields of an object count), or at most twenty of them, and every one is a secret that exists for the caller under a variable name of
    capitals, digits and underscores that is not on the list of variables that can hijack a process; and the grants are these, in order. *)
Theorem grants_checked (secrets : option S) (params : json) (user : string) (grants : list CredentialGrant) :
  parse_credentials secrets params user = Ok grants ↔
  (credential_fields params = [] ∧ grants = []) ∨
  (credential_fields params ≠ [] ∧ length (credential_fields params) ≤ 20 ∧
   ∃ x, secrets = Some x ∧ Forall2 (grant_ok x user) (credential_fields params) grants).
Proof.
  unfold parse_credentials, MAX_CREDENTIAL_GRANTS. destruct (credential_fields params) as [|f fields]; [naive_solver|].
  destruct (Nat.ltb_spec 20 (length (f :: fields))) as [Hl|Hl].
  - split; [done|]. intros [[]|(_ & Hle & _)]; [done|lia].
  - destruct secrets as [x|]; [|naive_solver]. rewrite parse_grants_spec. split.
    + intros H. right. split_and!; [done|done|by exists x].
    + intros [[]|(_ & _ & x' & [= <-] & H)]; done.
Qed.
End GrantProps.

(** ** Waiting for a container *)

Section Await.
Context {J : SerdeJson} {T : UuidText} {V : UtcText} {Conn : Type}.
Variable h : Host Conn.
Variable has_store : bool.
Variable on_db : list DbCall → DbCall → result unit string.
Variable tick : nat → Instant.
Variable others : nat → Orch Conn → Orch Conn.
Variable now : Utc.

Abbreviation await := (await_container_completion h has_store on_db tick others now).

(** The manager at the [k]-th look. *)
Fixpoint seen (o : Orch Conn) (k n : nat) : Orch Conn :=
  match n with
  | 0 => others k o
  | S n => seen (others k o) (S k) n
  end.

(** The state in which a container is still waited for. *)
Definition still_running (o : Orch Conn) (job : Uuid) : Prop :=
  ∃ handle, or_registry o !! job = Some handle ∧ (ch_state handle = CsRunning ∨ ch_state handle = CsCreating).

(** What the last look leads to. *)
Definition look_outcome (deadline : Instant) (v : ContainerJobView) (k : nat) (s : JobTools Conn) :
    JobTools Conn * result CreateOutput ToolFailure :=
  if (deadline <? tick k)%Z then handle_timed_out_container h has_store on_db v now s
  else match or_registry (jt_orch s) !! cv_job_id v with
       | None => handle_missing_container has_store on_db v now s
       | Some handle =>
           match ch_state handle with
           | CsFailed => handle_failed_container has_store on_db handle v now s
           | _ => handle_stopped_container has_store on_db handle v now s
           end
       end.

Lemma await_unfold fuel k deadline v s :
  let o := others k (jt_orch s) in
  (((tick k <= deadline)%Z ∧ still_running o (cv_job_id v)) ∧
   await (S fuel) k deadline v s = await fuel (S k) deadline v (set_jt_orch o s)) ∨
  (¬ ((tick k <= deadline)%Z ∧ still_running o (cv_job_id v)) ∧
   await (S fuel) k deadline v s =
     let x := look_outcome deadline v k (set_jt_orch o s) in (x.1, Some x.2)).
Proof.
  intros o. cbn [await_container_completion]. unfold look_outcome, still_running. cbn [jt_orch set_jt_orch]. fold o.
  destruct (Z.ltb_spec deadline (tick k)) as [Hd|Hd]; [right; split; [lia|done]|].
  destruct (or_registry o !! cv_job_id v) as [handle|] eqn:Eh;
    [|right; split; [by intros [_ (? & ? & _)]|done]].
  destruct (ch_state handle) eqn:Es; [left|left|right|right]; (split; [|done]);
    try (split; [lia|]; by eauto); intros [_ (h' & Hh & Hs)]; simplify_eq; rewrite Es in Hs; by destruct Hs.
Qed.

(** The first look that does not find the container alive, or comes too late, is among the first 302. *)
Lemma await_ends (fuel : nat) (start : Instant) (v : ContainerJobView) (s : JobTools Conn)
    (Hfuel : 302 ≤ fuel) (Hstart : (start <= tick 0)%Z)
    (Htick : ∀ k, (tick k + poll_interval <= tick (S k))%Z) :
  let deadline := (start + container_timeout)%Z in
  ∃ n, n < 302 ∧
    (∀ j, j < n → (tick j <= deadline)%Z ∧ still_running (seen (jt_orch s) 0 j) (cv_job_id v)) ∧
    let x := look_outcome deadline v n (set_jt_orch (seen (jt_orch s) 0 n) s) in
    await fuel 0 deadline v s = (x.1, Some x.2).
Proof.
  intros deadline.
  assert (∀ k, (start + Z.of_nat k * poll_interval <= tick k)%Z) as Hk.
  { induction k as [|k IH]; [lia|]. specialize (Htick k). lia. }
  assert (∀ k, 302 ≤ k + 1 → ¬ (tick k <= deadline)%Z) as Hlate.
  { intros k Hle. specialize (Hk k). unfold deadline, container_timeout, poll_interval, secs in *. lia. }
  assert (∀ m k s, 302 ≤ k + m → m ≤ 302 → k ≤ 302 → 0 < m →
    ∃ n, n < m ∧ (∀ j, j < n → (tick (k + j) <= deadline)%Z ∧ still_running (seen (jt_orch s) k j) (cv_job_id v)) ∧
      ∀ fuel, m ≤ fuel →
      let x := look_outcome deadline v (k + n) (set_jt_orch (seen (jt_orch s) k n) s) in
      await fuel k deadline v s = (x.1, Some x.2)) as Hmain.
  { induction m as [|m IH]; intros k s0 Hkm Hm Hk302 Hpos; [lia|].
    destruct (await_unfold 0 k deadline v s0) as [[[Ht Hr] _]|[Hnot _]].
    - destruct (decide (m = 0)) as [->|Hm0]; [exfalso; apply (Hlate k); [lia|done]|].
      assert (k < 302) as Hk' by (destruct (decide (302 ≤ k + 1)); [exfalso; by apply (Hlate k)|lia]).
      destruct (IH (S k) (set_jt_orch (others k (jt_orch s0)) s0)) as (n & Hn & Hpre & Hend); [lia..|].
      exists (S n). split; [lia|]. split.
      + intros [|j] Hj; [rewrite Nat.add_0_r; by split|]. rewrite Nat.add_succ_r. apply (Hpre j). lia.
      + intros [|f] Hf; [lia|]. cbv zeta. rewrite Nat.add_succ_r.
        destruct (await_unfold f k deadline v s0) as [[_ ->]|[Hnot _]]; [|by destruct Hnot].
        apply (Hend f). lia.
    - exists 0. split; [lia|]. split; [lia|]. intros [|f] Hf; [lia|]. cbv zeta. rewrite Nat.add_0_r.
      destruct (await_unfold f k deadline v s0) as [[Hyes _]|[_ ->]]; done. }
  destruct (Hmain 302 0 s) as (n & Hn & Hpre & Hend); [lia..|]. exists n. split; [done|]. split; [done|].
  apply (Hend fuel). done.
Qed.

(** A waiting caller gets an answer: however the clock runs, as long as two looks are two seconds apart, the
    wait ends after at most 302 looks; it ends at the first look at which the deadline of ten minutes has passed or the container is
    not being created or running any more, and the answer is the one for what that look found. *)
Theorem await_answers (fuel : nat) (start : Instant) (v : ContainerJobView) (s : JobTools Conn)
    (Hfuel : 302 ≤ fuel) (Hstart : (start <= tick 0)%Z)
    (Htick : ∀ k, (tick k + poll_interval <= tick (S k))%Z) :
  let deadline := (start + container_timeout)%Z in
  ∃ n, n < 302 ∧
    (∀ j, j < n → (tick j <= deadline)%Z ∧ still_running (seen (jt_orch s) 0 j) (cv_job_id v)) ∧
    let x := look_outcome deadline v n (set_jt_orch (seen (jt_orch s) 0 n) s) in
    await fuel 0 deadline v s = (x.1, Some x.2).
Proof. by apply await_ends. Qed.
End Await.

(** ** What is stored *)

Section Recorded.
Context {J : SerdeJson} {T : UuidText} {V : UtcText} {Conn : Type}.
Variable h : Host Conn.
Variable config : ContainerJobConfig.
Variable base_dir : Path.
Variable on_db : list DbCall → DbCall → result unit string.
Variable has_monitor_deps : bool.
Variable tick : nat → Instant.
Variable others : nat → Orch Conn → Orch Conn.
Variable now : Utc.

(** The last word of the database about a job is the answer its caller got; a job without a word was refused
    before it was stored, or could not be stored. *)
Definition recorded (job : Uuid) (before : list DbCall) (s : JobTools Conn) (r : result CreateOutput ToolFailure) : Prop :=
  match r with
  | Ok (CoCompleted j _ _ _) => j = job ∧ last (jt_db s) = Some (DbStatus true (transition_completed job now))
  | Ok (CoStarted j _ _) => j = job ∧ last (jt_db s) = Some (DbStatus false (transition_running job now))
  | Ok _ => False
  | Err _ =>
      jt_db s = before ∨
      (∃ r e, jt_db s = before ++ [DbSaveJob r] ∧ on_db before (DbSaveJob r) = Err e) ∨
      ∃ awaited message, last (jt_db s) = Some (DbStatus awaited (transition_failed job message now))
  end.

Lemma lift_db {A} (m : OM (Conn := Conn) A) s : jt_db (lift m s).1 = jt_db s.
Proof. unfold lift. by destruct (m (jt_orch s)). Qed.

Lemma lift_run_db {A} (m : OM (Conn := Conn) A) s s' a : lift m s = (s', a) → jt_db s' = jt_db s.
Proof. intros E. by rewrite <-(lift_db m s), E. Qed.

Lemma resolve_project_dir_db explicit job s s' r :
  resolve_project_dir h base_dir explicit job s = (s', r) → jt_db s' = jt_db s.
Proof.
  unfold resolve_project_dir, canonicalize_explicit_project_dir, create_default_project_dir. intros H.
  repeat match goal with
  | E : lift _ _ = (_, _) |- _ => apply lift_run_db in E
  | H : context [match lift ?m ?s with _ => _ end] |- _ => destruct (lift m s) as [? [?|?]] eqn:?
  | H : context [match explicit with _ => _ end] |- _ => destruct explicit
  | H : context [if ?b then _ else _] |- _ => destruct b
  end; simplify_eq/=; congruence.
Qed.

Lemma update_status_last awaited t (s : JobTools Conn) :
  last (jt_db (update_status_with true on_db awaited t s)) = Some (DbStatus awaited t).
Proof. simpl. by rewrite last_snoc. Qed.

Lemma look_outcome_recorded deadline v k s before :
  recorded (cv_job_id v) before (look_outcome h true on_db tick now deadline v k s).1
    (look_outcome h true on_db tick now deadline v k s).2.
Proof.
  unfold look_outcome, handle_timed_out_container, handle_missing_container, handle_failed_container,
    handle_stopped_container, update_status_sync.
  destruct (deadline <? tick k)%Z; [right; right; eexists _, _; apply update_status_last|].
  destruct (or_registry _ !! _) as [handle|]; [|split; [done|apply update_status_last]].
  destruct (ch_state handle); try (destruct (from_option cr_success true _));
    try (split; [done|apply update_status_last]); right; right; eexists _, _; apply update_status_last.
Qed.

(** C31. What is stored of a container job is what its caller was told: as long as the clock advances by two seconds
    between two looks at the container, the call returns, and then the last status given to the database is completed if the
    caller got a result, running if it did not wait, and failed if it got an error, except for a job whose directory was refused
    or whose record could not be stored, which has no status.  (With a database, and in the order in which the code hands the
    statuses over: what the database answers to a status is not looked at, and two of them are written by a task of their own.) *)
Theorem sandbox_outcome_recorded (fuel : nat) (e : SandboxExecution) (job : Uuid) (bytes : list nat) (start : Instant)
    (s : JobTools Conn) (Hfuel : 302 ≤ fuel) (Hstart : (start <= tick 0)%Z)
    (Htick : ∀ k, (tick k + poll_interval <= tick (S k))%Z) :
  ∃ s' r, execute_sandbox h config base_dir true on_db has_monitor_deps tick others now fuel e job bytes start s =
    (s', Some r) ∧ recorded job (jt_db s) s' r.
Proof.
  unfold execute_sandbox. destruct (resolve_project_dir h base_dir (se_explicit_dir e) job s) as [s1 d] eqn:E1.
  apply resolve_project_dir_db in E1. destruct d as [[dir browse]|err]; [|eexists _, _; split; [done|by left]].
  unfold persist_sandbox_job. cbn [negb db_call].
  destruct (on_db (jt_db s1) (DbSaveJob _)) as [[]|err] eqn:Es.
  2: { eexists _, _. split; [done|]. right; left. eexists _, err. simpl. rewrite E1 in Es |- *. done. }
  set (s2 := set_jt_db _ s1).
  destruct (bool_decide (se_mode e = ModeClaudeCode)); cbn [db_call].
  1: destruct (on_db (jt_db s2) _) as [[]|err];
       [|eexists _, _; split; [done|]; right; right; eexists _, _; simpl; by rewrite last_snoc].
  all: match goal with |- context [lift ?m ?s] => destruct (lift m s) as [s3 [token|err]] eqn:E3 end;
    [|eexists _, _; split; [done|]; right; right; eexists _, _; apply update_status_last].
  all: destruct (se_wait e); cbn [negb];
    [|eexists _, _; split; [done|]; split; [done|]; destruct has_monitor_deps; apply update_status_last].
  all: match goal with |- context [await_container_completion _ _ _ _ _ _ _ _ ?dl ?v ?s] =>
         destruct (await_ends h true on_db tick others now fuel start v s Hfuel Hstart Htick) as (n & _ & _ & ->) end;
    eexists _, _; (split; [done|]); apply (look_outcome_recorded _ {| cv_job_id := job |}).
Qed.
End Recorded.

(** ** Examples *)

Section Examples.
#[local] Existing Instance json_lite.
#[local] Existing Instance uuid_bits.
#[local] Existing Instance utc_text.

(** A look at the container every two seconds, a database that accepts everything. *)
Definition example_tick (k : nat) : Instant := (Z.of_nat k * poll_interval)%Z.
Definition example_db (_ : list DbCall) (_ : DbCall) : result unit string := Ok ().

Definition example_execution : SandboxExecution := {|
  se_task := "build"; se_explicit_dir := Some (path_from "/home/u/.axinite/projects/p"); se_wait := true; se_mode := ModeWorker;
  se_grants := [example_grant]; se_user_id := "ada" |}.

Definition fresh_tools : JobTools unit := {| jt_orch := orch_new; jt_db := []; jt_monitored := [] |}.

Definition example_run (others : nat → Orch unit → Orch unit) : JobTools unit * option (result CreateOutput ToolFailure) :=
  execute_sandbox example_host example_job_config example_base true example_db false example_tick others 0 302
    example_execution 7 [1; 171] 0 fresh_tools.

(** The worker reports a failure before the third look. *)
Definition worker_fails (k : nat) (o : Orch unit) : Orch unit :=
  if k =? 2 then (complete_container_job example_host 7 {| cr_success := false; cr_message := Some "no" |} o).1 else o.

Example worker_failure_told :
  (example_run worker_fails).2 = Some (Err (TfExecutionFailed "container job failed: no")).
Proof. by vm_compute. Qed.

Lemma sandbox_outcome_recorded_witness :
  ∃ s' r, execute_sandbox example_host example_job_config example_base true example_db false example_tick worker_fails 0 302
    example_execution 7 [1; 171] 0 fresh_tools = (s', Some r) ∧ recorded example_db 0 7 [] s' r.
Proof.
  apply (sandbox_outcome_recorded example_host example_job_config example_base example_db false example_tick worker_fails 0
    302 example_execution 7 [1; 171] 0 fresh_tools).
  - apply le_n.
  - unfold example_tick. lia.
  - intros k. unfold example_tick. lia.
Defined.

(** A container that the reaper stopped has no result, and that counts as success. *)
Definition reaper_stops (k : nat) (o : Orch unit) : Orch unit :=
  if k =? 2 then (reap_with_docker example_host "c4" 7 o).1 else o.

Lemma reaped_job_reported_as_success :
  match (example_run reaper_stops).2 with Some (Ok (CoCompleted 7%N output _ _)) => output = "Container job completed" | _ => False end ∧
  last (jt_db (example_run reaper_stops).1) = Some (DbStatus true (transition_completed 7 0)).
Proof. by vm_compute. Qed.
End Examples.
